(* ===== verification/_CoqProject ===== *)
-Q . S2P
Prelude.v
GoStrings.v
RunModel.v
SchedulerPort.v
MemoryStore.v
StoreInvariant.v
StoreOps.v
StoreClaims.v
StoreTheorems.v
StoreLifecycle.v
StoreAttempts.v
Scheduler.v
SchedulerMemory.v
Masking.v
StepCommands.v
Base64.v
Identity.v
Authorization.v
Secrets.v
Syntax.v
SyntaxTheorems.v
Compiler.v
TopoSort.v
MatrixExpansion.v
CompilerTheorems.v
GoFloat.v
ExprSyntax.v
ExprParserFacts.v
ExprPrint.v
ExprLex.v
ExprRoundTrip.v
ExprEval.v
ExprTheorems.v
Globs.v
Plans.v
PlanTheorems.v
Reports.v
ObjectStore.v
Server.v
ServerConditions.v
ServerPlans.v
ServerApi.v
ServerApiTheorems.v
Threads.v
ServerThreads.v
ServerSystem.v
Executor.v
ExecutorTheorems.v
StepOutput.v
FilePath.v
HashFiles.v
Builtins.v
BuiltinTheorems.v
JsAction.v
Controller.v
ControllerTheorems.v
Http.v
GitHubWebhook.v
GitHubTheorems.v
Schedule.v
ScheduleTheorems.v
ExecutorClient.v
ExecutorServer.v
GitHubClients.v
GitHubClientTheorems.v
Postgres.v
PostgresSpec.v
PostgresTheorems.v
PostgresPort.v
PostgresClaims.v
PostgresRefinement.v
PostgresMirror.v
PostgresTracking.v
PostgresIsolation.v
PostgresSecrets.v
Identifiers.v
Programs.v
ProgramTheorems.v
Metrics.v
StepProcess.v
