(* ===== verification/Prelude.v ===== *)
(** * forgelet: verification of the control plane and the executor core

    Forgelet runs GitHub Actions workflows on Kubernetes.  A webhook delivery is
    parsed and compiled into jobs, recorded as a durable run, and dispatched job
    by job as an active Kubernetes object; observations of those objects flow
    back into the run, and finished objects are collected.  Inside a job the
    executor evaluates expressions, reads the commands a step prints, masks
    secrets in its output, and identifies itself to the control plane with a
    token.  This library models those parts as executable definitions and
    proves what makes them correct.

    ** The parts, and the files that model them

    Foundations.
    - [Prelude]: results of fallible code ([outcome]: value, error, panic),
      sorting with a Go [less] function, the byte order of strings, ranging over
      a map in an open order ([MapRange]), shared tactics.
    - [GoStrings]: the functions of Go's [strings] and [strconv.Quote].
    - [GoFloat]: binary64 numbers, [strconv.ParseFloat], number formatting.
    - [Base64]: the URL alphabet without padding, and the standard
      one with padding.

    Durable runs (src/internal/run, src/internal/storage/memory).
    - [RunModel]: run/model/status.go and run.go, the statuses, the two state
      machines, the aggregation of job statuses, the records.
    - [SchedulerPort]: run/scheduler/port.go, the two stores as type classes of
      operations in a state-and-error monad.
    - [MemoryStore]: storage/memory/store.go, the state and every operation.
      [StoreInvariant], [StoreOps] and [StoreClaims] hold the invariant, its
      preservation by each operation with a concrete history, and the claim loop;
      [StoreTheorems] and [StoreLifecycle] the theorems; [StoreAttempts]
      the numbering of the attempts of a job and what the key index names.
    - [Scheduler]: run/scheduler/ingestor.go, dispatcher.go and projector.go over
      the classes, with the laws the use cases need ([DurableSpec],
      [ActiveSpec]); [SchedulerMemory] shows that the in-memory stores satisfy
      the laws and proves the use cases crash-safe against the interface.
    - [Identifiers]: run/scheduler/idgen.go, identifiers over a ULID generator
      and the ones a test fixes.

    The PostgreSQL store (src/internal/storage/postgres).
    - [Postgres]: store.go over an abstract database of rows: runs, jobs,
      deliveries and events, times rounded to microseconds, statements and
      transactions.  [PostgresSpec]: what a transaction keeps of the tables.
      [PostgresTheorems] and [PostgresPort]: the invariant of every reachable
      database, and the store as an instance of the scheduler's port.
      [PostgresClaims]: the claim query and its lease.
    - [PostgresRefinement], [PostgresMirror], [PostgresTracking]: the relation
      between a database and a state of [MemoryStore], and the simulation: the same
      sequence of operations, claims included, gives the same answers up to
      times, and so do the reads afterwards.  [PostgresIsolation] has
      transactions interleaved statement by statement, and concrete histories on
      which the two stores differ.
    - [PostgresSecrets]: secrets.go, sealed rows over the cipher of [Secrets].

    Workflows (src/internal/workflow).
    - [Syntax], [SyntaxTheorems]: syntax/parse.go and diagnostic.go, the
      validating parser from the YAML node tree to the syntax tree, and its
      refinement of a declarative reading of the supported subset
      ([Subset], [Meaning]).
    - [Compiler]: compiler/compile.go, expand.go and builtin.go.  [TopoSort],
      [MatrixExpansion] and [CompilerTheorems] hold the theorems;
      the last one connects the parser, the compiler and the ingestor.
    - [Globs]: the trigger filters of compile.go and the globs of
      expression/hashfiles.go, over Go's [path.Match].
    - [ExprSyntax]: expression/value.go, lexer.go and parser.go.
      [ExprParserFacts], [ExprPrint], [ExprLex] and [ExprRoundTrip] prove the
      front end total and inverse to a printer.
    - [ExprEval]: expression/eval.go, env.go, functions.go, interpolate.go,
      conditions.go and errors.go; [ExprTheorems] the theorems.

    Control plane (src/internal/server, run/plan, report, storage/s3).
    - [Plans], [PlanTheorems]: run/plan/plan.go, the plan store of
      server/support.go, and buildPlan of server/server.go with its helpers.
    - [Reports]: report/report.go.  [ObjectStore]: storage/s3/store.go.
    - [Server]: the state of server/server.go and its driver: ingestion with
      plan building, deferred conditions, the dispatch drain, rerequests.
      [ServerConditions] and [ServerPlans] hold their theorems.
    - [ServerApi], [ServerApiTheorems]: the internal HTTP endpoints.
    - [Threads]: programs of atomic operations, threads that interleave, and their
      safety.  [ServerThreads]: the handlers of [Server] and [ServerApi] as such
      programs, which run alone are the handlers, and the loops of StartLoops.
      [ServerSystem]: all of them running together.
    - [Programs], [ProgramTheorems]: NewServer and cmd/server/main.go
      from the environment and the flags to the running server, the workflow files
      of a local directory, cmd/controller/main.go, and the programs
      cmd/minttoken and cmd/secretctl, which meets the operator endpoints of
      [ServerApi].
    - [Metrics]: observability/metrics, and the places of the driver and of the
      internal API that record a sample.

    Execution (src/internal/runtime/executor).
    - [Masking]: mask/mask.go, the masker and the log handler.
    - [StepCommands]: command/command.go and filecommand/filecommand.go.
    - [Executor], [ExecutorTheorems]: engine.go, expr.go and port.go, the run of
      a plan's steps.  [StepOutput]: the reader of a step's output in engine.go.
    - [HashFiles]: expression/hashfiles.go, the walk over a workspace.
    - [FilePath]: Go's [path/filepath].  [Builtins], [BuiltinTheorems]: builtin.go
      over an abstract host.
    - [JsAction]: js.go, the functions a script can call, over an interpreter, and
      what the engine makes of a script.
    - [ExecutorClient]: httpclient/client.go and cmd/executor/main.go.
      [ExecutorServer] connects the client to the handlers of [ServerApi].
    - [StepProcess]: runStepScript of engine.go as a step relation over the child
      process, its pipe, the readers and the context, and the command
      that is started.

    Kubernetes (src/internal/runtime/controller, src/api).
    - [Controller]: jobrun_controller.go, active.go and httpprojection.go over an
      abstract API server.  [ControllerTheorems]: what is relied on of the API
      server ([Cluster], [KubeSpec] for a client whose reads may be stale,
      [KubeLive] for one that reads the server), the system of controller,
      dispatcher and kubelet as a step relation, its invariants, and a cluster
      in memory.

    GitHub (src/internal/provider/github) and schedules.
    - [Http]: what the clients use of Go's [net/http].
    - [GitHubWebhook]: webhook.go and webhook_handler.go.  [GitHubTheorems]
      connects the handler with the server.
    - [GitHubClients], [GitHubClientTheorems]: auth.go, check.go, content.go,
      action.go and cmd/server/github.go.
    - [Schedule], [ScheduleTheorems]: run/schedule/schedule.go and
      server/schedule.go.

    Security (src/internal/security).
    - [Identity]: identity/identity.go, local tokens and the replay cache.
    - [Authorization]: policy/policy.go and tokenreview/.
    - [Secrets]: secret/cipher.go and filekeyring.go.

    ** How they interact

    [Syntax.Parse] feeds [Compiler.Compile], whose [JobIntents] are what
    [Scheduler.Ingest] gets from its compiler port; [CompilerTheorems] proves
    that they pass the ingestor's validation.  [Ingest], [Dispatch], [Project],
    [Collect] and [Cancel] call the two stores through [DurableStore] and
    [ActiveExecutionStore].  A method of the in-memory store runs under one mutex
    in the source and is one atomic transition here, so interleavings of callers
    are sequences of operations ([StoreOps.op], [reachable]); the handlers of the
    server make several, and interleave between them ([ServerSystem.system]); a crash between two
    calls of a use case is the state after the first.  [Authorization] consumes
    the identities that [Identity] and the token review produce.
    [GitHubWebhook.ServeHTTP] hands deliveries to [Server.ServerIngest], which runs
    [Scheduler.Ingest] and stores a plan for each job of the new run;
    [Server.DispatchOnce] drains the queue through [DispatchNext];
    [ServerApi.serve] answers executors and controllers after authenticating them
    and calls [Authorization.DecideSecrets]; [Executor.Run] executes the plan it
    fetched; [ExecutorClient.executor_main] fetches the plan, runs it and reports,
    and [ExecutorServer.link] is the server it talks to; [Schedule.Tick] hands
    deliveries to the same ingestion port; [Controller.Reconcile] turns the objects the dispatcher created
    ([kube_CreateOrGet]) into pods whose label is what the token review reads.

    ** What the theorems show

    - The store: an invariant of every reachable state (records agree with
      their indices, runs with the aggregate of their jobs), job records that
      only move forward, one run per delivery, what a claim hands out, what it
      leaves as it was and when it finds nothing, the numbering of attempts,
      cancellation, observation, rerequest and collection.
    - The use cases: replaying a delivery, or resuming after a crash between two
      calls, does not create a second run or a second active object; a failed
      dispatch gives the claim back; collection deletes exactly the ready jobs.
    - The compiler: [topoSort] returns a permutation in dependency order exactly
      when the needs are known and acyclic, matrix expansion enumerates all
      assignments, the parser accepts exactly the supported subset and reads
      what the document says, accepted workflows compile
      to intents the scheduler takes, [editDistance] is the Levenshtein
      distance, triggers and globs match what their declarative readings say.
    - Expressions: parsing terminates and inverts the printer; a condition
      without a status function holds only for a successful job; templates and
      [format] expand piece by piece; [==] is symmetric.
    - The control plane: every job of a new run is closed by its condition or
      queued with a plan and a trust level, settling deferred conditions closes
      only jobs whose condition says so and ends, draining the queue ends, a
      plan keeps secret values out of its inputs, every job endpoint needs an
      identity bound to the job, delivered secrets are granted by the plan and
      never go to forks, caches stay inside their repository.
    - The control plane under concurrency: whatever goroutines and loops run and
      however their operations interleave, a trust level on record is that of the
      delivery behind the job and no secret goes to a fork's job that has one; the
      schedules in which a job has a plan and no level, or is dispatched before its
      plan is stored, are shown.
    - The executor: a report has one result per step, in order, with what
      became of the step; the lines of a step do not depend on how its bytes
      arrive, and no registered secret reaches its log; against the server, the
      exit code of the process is what became of the job's durable record,
      unless an infrastructure failure or a cancellation kept the report from
      it; extraction stays below its destination and artifacts round-trip.
    - The PostgreSQL store: a database only reached by its operations agrees
      between runs and jobs, answers every operation and read like the in-memory
      store, up to times, while no claim expires, hands out the oldest ready job, and leases it for exactly the stated window; a stored
      secret is read back, whatever key was active when it was written.
    - The programs: which flags and environments start a server and with which
      parts wired, which identities each configuration accepts, what a minted
      token may do, that secretctl manages what the server delivers; metrics do
      not change what the driver does; a step's process ends in a result.
    - Kubernetes and GitHub: a token that acts on a job comes from that job's
      pod, observed phases do not go back and a reconciliation changes one pod or
      reports one phase, also when the controller's reads are stale, dispatching
      again finds the same object; a webhook
      changes nothing without a signature, and its redelivery changes nothing; a
      commit has one check per job however often it is reported, as long as its
      jobs do not share a check name; a tick of the
      schedules emits exactly the latest missed fires.
    - Secrets and identity: masked text holds no registered value, records are
      masked, command and file formats round-trip, an issued token verifies and
      is not accepted twice, sealed secrets survive key rotation, secrets are
      delivered exactly to authorized jobs, a reviewed pod acts on its own job only.

    The examples among the theorems record behaviour that does not meet a
    comment or an evident intention: orphan jobs of a failed [CreateRun], needs
    on a matrix job, colliding instance keys, attributes bound to a logger, the
    condition text that closes the guard's parenthesis, and others.

    ** Bounds and fuel

    Recursion that is not structural takes fuel, with a theorem that the fuel
    given is enough: [topoSort] one more than the number of jobs (the search
    visits a job at most once), the lexer one more than the length of the
    text (each call but the last reads a byte), the parser one more than the number
    of tokens (each level reads one before it recurs).  Running out is [Panic]
    and proved not to happen.  [Globs.match_loop] and its helpers take the length of
    what they consume.  [int] and [int64] are [Z] with the range checks that the
    source's conversions make; the settling loop and the dispatch drain take fuel
    with a theorem that one more than the number of queued jobs is enough; the walk
    over fire times takes two more than the minutes of its window, fire times
    being whole minutes apart; counters are [nat]; a time is [Z].

    ** Parameters

    Code outside the sources is a parameter, with its documented behaviour as
    laws where a theorem needs it: Go's Unicode tables ([Unicode]; ASCII text is
    written out), the order of [range] over a map ([MapRange]), random
    identifiers ([MemoryEnv]), MAC and claim codec of tokens ([TokenCodec]), AES-GCM
    ([AEAD]), shortest float formatting ([FloatText]), the JSON codec ([JSONText]),
    out-of-range float conversion ([IntConv]), the wrapped log handler
    ([SlogHandler]), the Kubernetes API server and its libraries ([KubeClient],
    [KubeMeta]), the processes of a step ([Host]), the object store
    ([ObjectClient]), HTTP ([HttpClient]) with the codecs of its messages
    ([ClientJSON], [GitHubJSON], [Wire]), the cron library ([Cron]), the host of the
    builtin actions ([BuiltinHost]), the ULID library ([Ulid]), the
    JavaScript interpreter ([Goja]), what a program finds
    outside itself ([Platform]: files, keys, cluster, database; [WorkflowDir];
    [ManagerPlatform]: the controller manager), the JSON of the
    operator endpoints ([SecretctlJSON], [OperatorWire]), the JSON of webhooks ([WebhookJSON]), the token review and pod lookup (function
    arguments), the YAML decoder (its node tree is the input).

    ** Not modelled

    The API types that no code reads (WorkflowRun, the workspace and the security
    of a RunnerClass) and the generated copies, which hold no logic of their own;
    the JavaScript interpreter itself; tracing; the parsing of flags by Go's [flag];
    failures of the database connection between statements of a transaction.
    They are listed with their reasons in the manifest.  Of the modelled parts,
    contexts, logging and test-only accessors are left out. *)

From Stdlib Require Export ZArith Lia.
From stdpp Require Export sorting base tactics gmap strings option list.

(** ** Results of fallible Go code

    A Go function of type [(A, error)] that may also panic is modelled by
    [outcome E A]. *)

Inductive outcome (E A : Type) : Type :=
  | Ok (a : A)
  | Err (e : E)
  | Panic.
Arguments Ok {E A} a.
Arguments Err {E A} e.
Arguments Panic {E A}.

Definition obind {E A B} (m : outcome E A) (k : A → outcome E B) : outcome E B :=
  match m with
  | Ok a => k a
  | Err e => Err e
  | Panic => Panic
  end.

Declare Scope go_scope.
Delimit Scope go_scope with go.

Notation "'let!' x ':=' m 'in' k" := (obind m (fun x => k))
  (at level 10, x pattern, m at level 100, k at level 200) : go_scope.

Definition is_ok {E A} (m : outcome E A) : bool :=
  match m with Ok _ => true | _ => false end.

(** ** Automation *)

Create HintDb forgelet.

(** Case analysis on the discriminee of a [match] in the goal or in a
    hypothesis, keeping the equation. *)
Ltac case_in H :=
  match type of H with
  | context [match ?x with _ => _ end] => destruct x eqn:?
  end.

Ltac case_goal :=
  match goal with
  | |- context [match ?x with _ => _ end] => destruct x eqn:?
  end.

(** Turn boolean tests into propositions. *)
Ltac breflect :=
  repeat match goal with
  | H : bool_decide _ = true |- _ => apply bool_decide_eq_true in H
  | H : bool_decide _ = false |- _ => apply bool_decide_eq_false in H
  | H : _ && _ = true |- _ => apply andb_true_iff in H as [? ?]
  | H : _ || _ = false |- _ => apply orb_false_iff in H as [? ?]
  | H : negb _ = true |- _ => apply negb_true_iff in H
  | H : negb _ = false |- _ => apply negb_false_iff in H
  end.

(** ** Sorting with a Go [less] function

    [sort.Slice] and [sort.SliceStable] are modelled by a stable insertion
    sort.  Where the source sorts with [sort.Slice], which is not stable, the
    comparison is total on the keys at hand and the result is the unique
    sorted permutation ([sort_by_unique]). *)

Section sort_by.
Context {A : Type} (less : A → A → bool).

Fixpoint insert_by (x : A) (l : list A) : list A :=
  match l with
  | [] => [x]
  | y :: l' => if less y x then y :: insert_by x l' else x :: l
  end.

Fixpoint sort_by (l : list A) : list A :=
  match l with
  | [] => []
  | x :: l' => insert_by x (sort_by l')
  end.
End sort_by.

Section sort_by_facts.
Context {A : Type} (less : A → A → bool).

Lemma insert_by_perm x l : insert_by less x l ≡ₚ x :: l.
Proof.
  induction l as [|y l IH]; simpl; [done|].
  destruct (less y x); [|done]. rewrite IH. by constructor.
Qed.

Lemma sort_by_perm l : sort_by less l ≡ₚ l.
Proof. induction l as [|x l IH]; simpl; [done|]. by rewrite insert_by_perm, IH. Qed.

Lemma sort_by_elem x l : x ∈ sort_by less l ↔ x ∈ l.
Proof. by rewrite (sort_by_perm l). Qed.

(** The order a [less] function induces. *)
Definition le_of (x y : A) : Prop := less y x = false.

Lemma insert_by_sorted x l :
  (∀ a b c, le_of a b → le_of b c → le_of a c) →
  (∀ a b, less a b = true → less b a = false) →
  StronglySorted le_of l → StronglySorted le_of (insert_by less x l).
Proof.
  intros Htrans Hasym Hs. induction Hs as [|y l Hs IH Hy]; simpl.
  { repeat constructor. }
  destruct (less y x) eqn:E.
  - constructor; [done|]. apply Forall_forall. intros z Hz.
    rewrite (insert_by_perm x l) in Hz. apply elem_of_cons in Hz as [->|Hz].
    + by apply Hasym.
    + rewrite Forall_forall in Hy. auto.
  - constructor; [by constructor|]. constructor; [done|].
    eapply Forall_impl; [exact Hy|]. intros z Hz. by eapply Htrans.
Qed.

Lemma sort_by_sorted l :
  (∀ a b c, le_of a b → le_of b c → le_of a c) →
  (∀ a b, less a b = true → less b a = false) →
  StronglySorted le_of (sort_by less l).
Proof.
  intros Ht Ha. induction l; simpl; [constructor|]. by apply insert_by_sorted.
Qed.

(** What is smaller than an element of the sorted list stands before it. *)
Lemma sort_by_before l pre p post q :
  (∀ a b c, le_of a b → le_of b c → le_of a c) →
  (∀ a b, less a b = true → less b a = false) →
  sort_by less l = pre ++ p :: post → q ∈ l → less q p = true → q ∈ pre.
Proof.
  intros Ht Ha E Hin Hb. pose proof (sort_by_sorted l Ht Ha) as Hs. rewrite <-sort_by_elem, E in Hin.
  rewrite E in Hs. apply elem_of_app in Hin as [Hin|[->|Hin]%elem_of_cons]; [done|..].
  - by rewrite (Ha _ _ Hb) in Hb.
  - apply StronglySorted_app_1_r in Hs. inversion Hs as [|? ? _ Hall]; subst.
    rewrite Forall_forall in Hall. specialize (Hall _ Hin). unfold le_of in Hall. congruence.
Qed.

(** Sorting is insensitive to the order in which the elements were
    collected (for instance from a [range] over a map) when the order is
    antisymmetric on them. *)
Lemma sort_by_unique l1 l2 :
  (∀ a b c, le_of a b → le_of b c → le_of a c) →
  (∀ a b, less a b = true → less b a = false) →
  (∀ a b, a ∈ l1 → b ∈ l1 → le_of a b → le_of b a → a = b) →
  l1 ≡ₚ l2 → sort_by less l1 = sort_by less l2.
Proof.
  intros Ht Ha Hanti Hp.
  eapply (StronglySorted_unique_strong le_of).
  - intros a b Hin1 Hin2 H1 H2. apply Hanti; try done.
    + by rewrite sort_by_elem in Hin1.
    + rewrite sort_by_elem in Hin2. by rewrite Hp.
  - apply sort_by_sorted; [exact Ht|exact Ha].
  - apply sort_by_sorted; [exact Ht|exact Ha].
  - by rewrite !sort_by_perm.
Qed.
End sort_by_facts.

(** ** Strings as Go orders them

    A Go string is a sequence of bytes; [String.string] is a sequence of
    8-bit characters, and [String.compare] is the byte-lexicographic order of
    Go's [<]. *)

Definition str_lt (a b : string) : bool := String.ltb a b.

Lemma str_lt_le a b : str_lt b a = false ↔ String.le a b.
Proof.
  unfold str_lt, String.ltb, String.le, String.leb.
  rewrite (String.compare_antisym b a). destruct (String.compare a b); simpl; split; auto.
  - discriminate.
  - intros [].
Qed.

Lemma str_lt_asym a b : str_lt a b = true → str_lt b a = false.
Proof.
  unfold str_lt, String.ltb. rewrite (String.compare_antisym b a).
  by destruct (String.compare a b).
Qed.

Lemma str_le_trans a b c :
  str_lt b a = false → str_lt c b = false → str_lt c a = false.
Proof. rewrite !str_lt_le. intros. by etrans. Qed.

Lemma str_le_antisym a b : str_lt b a = false → str_lt a b = false → a = b.
Proof. rewrite !str_lt_le. intros. by apply (anti_symm String.le). Qed.

Definition sort_strings (l : list string) : list string := sort_by str_lt l.

Lemma sort_strings_unique l1 l2 : l1 ≡ₚ l2 → sort_strings l1 = sort_strings l2.
Proof.
  apply sort_by_unique.
  - intros a b c. unfold le_of. apply str_le_trans.
  - apply str_lt_asym.
  - intros a b _ _. unfold le_of. apply str_le_antisym.
Qed.

(** ** Ranging over a map

    Go leaves the order of [for k, v := range m] open: [range_map] is some
    order, a parameter of the functions whose result depends on it. *)

Class MapRange := {
  range_map : ∀ {A}, gmap string A → list (string * A);
  range_map_perm : ∀ A (m : gmap string A), range_map m ≡ₚ map_to_list m
}.

Definition some_order : MapRange :=
  {| range_map := fun _ m => map_to_list m; range_map_perm := fun _ _ => Permutation_refl _ |}.

Lemma range_map_elem `{MapRange} {A} (m : gmap string A) k v :
  (k, v) ∈ range_map m ↔ m !! k = Some v.
Proof. by rewrite range_map_perm, elem_of_map_to_list. Qed.

(** Filling a map from a list of distinct keys. *)
Lemma fold_insert_map (ps : list (string * string)) (m : gmap string string) :
  NoDup ps.*1 → fold_left (fun m p => <[fst p := snd p]> m) ps m = list_to_map ps ∪ m.
Proof.
  revert m. induction ps as [|[k v] ps IH]; intros m Hnd; simpl; [by rewrite map_empty_union|].
  inversion Hnd as [|?? Hk Hnd']; subst. rewrite IH by done.
  rewrite <-insert_union_l. rewrite insert_union_r; [done|]. by apply not_elem_of_list_to_map_1.
Qed.
