(* ===== verification/GoStrings.v ===== *)
(** * Go's [strings] package, as far as the sources use it

    Strings are byte sequences ([String.string]).  The functions that consult
    the Unicode tables ([ToLower], [EqualFold], [TrimSpace], [%q]) are written out
    for ASCII strings; on a string with a byte above 0x7f they call the
    functions of the class [Unicode], a parameter of the model that stands for
    Go's Unicode tables. *)

From S2P Require Import Prelude.

#[global] Arguments String.append : simpl nomatch.

(** ** Unicode tables *)

Class Unicode := {
  u_lower : string → string;
  u_equal_fold : string → string → bool;
  u_trim_space : string → string;
  u_quote : string → string;
  u_fields : string → list string
}.

(** A concrete instance, for evaluation on ASCII inputs. *)
Definition ascii_unicode : Unicode := {|
  u_lower := fun s => s;
  u_equal_fold := fun a b => bool_decide (a = b);
  u_trim_space := fun s => s;
  u_quote := fun s => s;
  u_fields := fun s => [s]
|}.

(** ** Bytes *)

Definition byte_code (c : Ascii.ascii) : N := Ascii.N_of_ascii c.

Definition ascii_byte (c : Ascii.ascii) : bool := N.ltb (byte_code c) 128.

Fixpoint all_ascii (s : string) : bool :=
  match s with
  | "" => true
  | String c s' => ascii_byte c && all_ascii s'
  end.

Definition in_range (lo hi : N) (c : Ascii.ascii) : bool :=
  N.leb lo (byte_code c) && N.leb (byte_code c) hi.

Definition is_digit (c : Ascii.ascii) : bool := in_range 48 57 c.
Definition is_upper (c : Ascii.ascii) : bool := in_range 65 90 c.
Definition is_lower (c : Ascii.ascii) : bool := in_range 97 122 c.

Definition lower_byte (c : Ascii.ascii) : Ascii.ascii :=
  if is_upper c then Ascii.ascii_of_N (byte_code c + 32) else c.

Fixpoint map_bytes (f : Ascii.ascii → Ascii.ascii) (s : string) : string :=
  match s with
  | "" => ""
  | String c s' => String (f c) (map_bytes f s')
  end.

(** The ASCII white space of [unicode.IsSpace]. *)
Definition is_space (c : Ascii.ascii) : bool :=
  in_range 9 13 c || N.eqb (byte_code c) 32.

Definition byte_str (n : N) : string := String (Ascii.ascii_of_N n) "".
Definition nl : string := byte_str 10.
Definition cr_nl : string := byte_str 13 +:+ nl.

(** ** Slicing *)

(** [s[:n]] *)
Fixpoint str_take (n : nat) (s : string) : string :=
  match n, s with
  | S n', String c s' => String c (str_take n' s')
  | _, _ => ""
  end.

(** [s[n:]] *)
Fixpoint str_drop (n : nat) (s : string) : string :=
  match n, s with
  | O, _ => s
  | S n', String _ s' => str_drop n' s'
  | S _, "" => ""
  end.

(** ** Searching *)

Definition has_prefix (s p : string) : bool := String.prefix p s.

Definition has_suffix (s p : string) : bool :=
  Nat.leb (String.length p) (String.length s) &&
  bool_decide (str_drop (String.length s - String.length p) s = p).

Definition trim_prefix (s p : string) : string :=
  if has_prefix s p then str_drop (String.length p) s else s.

Definition trim_suffix (s p : string) : string :=
  if has_suffix s p then str_take (String.length s - String.length p) s else s.

(** [strings.Index]; [None] stands for [-1]. *)
Fixpoint index (s sub : string) : option nat :=
  if has_prefix s sub then Some 0
  else match s with
       | "" => None
       | String _ s' => S <$> index s' sub
       end.

Definition contains (s sub : string) : bool :=
  match index s sub with Some _ => true | None => false end.

(** [strings.Cut] *)
Definition cut (s sep : string) : string * string * bool :=
  match index s sep with
  | Some i => (str_take i s, str_drop (i + String.length sep) s, true)
  | None => (s, "", false)
  end.

(** [strings.Split] with a one-byte separator. *)
Fixpoint split_on (sep : Ascii.ascii) (s : string) : list string :=
  match s with
  | "" => [""]
  | String c s' =>
      if bool_decide (c = sep) then "" :: split_on sep s'
      else match split_on sep s' with
           | [] => [String c ""]
           | w :: ws => String c w :: ws
           end
  end.

(** [strings.Join] *)
Fixpoint join (l : list string) (sep : string) : string :=
  match l with
  | [] => ""
  | [x] => x
  | x :: l' => x +:+ sep +:+ join l' sep
  end.

(** [strings.ReplaceAll(s, old, new)] for a non-empty [old]: the leftmost
    non-overlapping occurrences are replaced.  [skip] counts the bytes of the
    current occurrence still to be passed over. *)
Fixpoint replace_go (old new : string) (skip : nat) (s : string) : string :=
  match s with
  | "" => ""
  | String c s' =>
      match skip with
      | S k => replace_go old new k s'
      | O =>
          if has_prefix s old
          then new +:+ replace_go old new (String.length old - 1) s'
          else String c (replace_go old new 0 s')
      end
  end.

Definition replace_all (s old new : string) : string := replace_go old new 0 s.

(** ** Trimming and case mapping *)

Fixpoint trim_left_ascii (s : string) : string :=
  match s with
  | String c s' => if is_space c then trim_left_ascii s' else s
  | "" => ""
  end.

Fixpoint trim_right_ascii (s : string) : string :=
  match s with
  | "" => ""
  | String c s' =>
      match trim_right_ascii s' with
      | "" => if is_space c then "" else String c ""
      | t => String c t
      end
  end.

(** The maximal runs of bytes that are not space; [w] is the run being read. *)
Fixpoint fields_ascii (w s : string) : list string :=
  match s with
  | "" => if bool_decide (w = "") then [] else [w]
  | String c s' =>
      if is_space c then (if bool_decide (w = "") then [] else [w]) ++ fields_ascii "" s'
      else fields_ascii (w +:+ String c "") s'
  end.

(** [strings.LastIndex] with a one-byte separator. *)
Fixpoint last_index (c : Ascii.ascii) (s : string) : option nat :=
  match s with
  | "" => None
  | String d s' =>
      match last_index c s' with
      | Some i => Some (S i)
      | None => if bool_decide (d = c) then Some 0 else None
      end
  end.

(** The escapes of [strconv.Quote]. *)
Definition lower_hex (n : N) : Ascii.ascii :=
  Ascii.ascii_of_N (if N.ltb n 10 then n + 48 else n + 87).

Definition quote_byte (c : Ascii.ascii) : string :=
  let esc n := byte_str 92 +:+ byte_str n in
  match byte_code c with
  | 34 => esc 34 | 92 => esc 92 | 7 => esc 97 | 8 => esc 98 | 12 => esc 102
  | 10 => esc 110 | 13 => esc 114 | 9 => esc 116 | 11 => esc 118
  | n => if in_range 32 126 c then String c ""
         else byte_str 92 +:+ "x" +:+ String (lower_hex (n / 16)) (String (lower_hex (n mod 16)) "")
  end%N.

Fixpoint quote_bytes (s : string) : string :=
  match s with
  | "" => ""
  | String c s' => quote_byte c +:+ quote_bytes s'
  end.

Section unicode.
Context `{Unicode}.

Definition to_lower (s : string) : string :=
  if all_ascii s then map_bytes lower_byte s else u_lower s.

Definition equal_fold (a b : string) : bool :=
  if all_ascii a && all_ascii b
  then bool_decide (map_bytes lower_byte a = map_bytes lower_byte b)
  else u_equal_fold a b.

Definition trim_space (s : string) : string :=
  if all_ascii s then trim_right_ascii (trim_left_ascii s) else u_trim_space s.

(** [strings.Fields] *)
Definition fields (s : string) : list string :=
  if all_ascii s then fields_ascii "" s else u_fields s.

(** [strconv.Quote], the verb [%q]. *)
Definition quote (s : string) : string :=
  byte_str 34 +:+ (if all_ascii s then quote_bytes s else u_quote s) +:+ byte_str 34.
End unicode.

#[global] Arguments has_prefix : simpl never.

(** ** Facts *)

Lemma app_str_nil_r s : s +:+ "" = s.
Proof. induction s as [|c s IH]; simpl; congruence. Qed.

Lemma app_str_assoc a b c : (a +:+ b) +:+ c = a +:+ (b +:+ c).
Proof. induction a as [|x a IH]; simpl; congruence. Qed.

Lemma app_str_length a b : String.length (a +:+ b) = String.length a + String.length b.
Proof. induction a as [|x a IH]; simpl; congruence. Qed.

Lemma has_prefix_spec s p : has_prefix s p = true ↔ ∃ t, s = p +:+ t.
Proof.
  unfold has_prefix. revert s. induction p as [|c p IH]; intros s; simpl.
  - split; [by exists s|by destruct s].
  - destruct s as [|d s]; [split; [done|by intros [t ?]]|].
    simpl. case_match; subst.
    + rewrite IH. split; intros [t Ht]; exists t; simpl in *; congruence.
    + split; [done|]. intros [t Ht]. simpl in Ht. congruence.
Qed.

Lemma has_prefix_app p t : has_prefix (p +:+ t) p = true.
Proof. apply has_prefix_spec. by exists t. Qed.

Lemma str_drop_app a b : str_drop (String.length a) (a +:+ b) = b.
Proof. induction a; simpl; done. Qed.

Lemma str_take_app a b : str_take (String.length a) (a +:+ b) = a.
Proof. induction a as [|c a IH]; simpl; [by destruct b|congruence]. Qed.

Lemma str_take_drop n s : str_take n s +:+ str_drop n s = s.
Proof. revert s; induction n as [|n IH]; intros [|c s]; simpl; try done. by rewrite IH. Qed.

Lemma str_take_length n s : n ≤ String.length s → String.length (str_take n s) = n.
Proof.
  revert s; induction n as [|n IH]; intros [|c s]; simpl; try done; [lia|].
  intros. rewrite IH; lia.
Qed.

Lemma index_unfold s sub :
  index s sub =
    if has_prefix s sub then Some 0
    else match s with "" => None | String _ s' => S <$> index s' sub end.
Proof. by destruct s. Qed.

(** [Index] returns the leftmost occurrence. *)
Lemma index_Some s sub n :
  index s sub = Some n →
  ∃ a b, s = a +:+ sub +:+ b ∧ String.length a = n ∧
         ∀ a' b', s = a' +:+ sub +:+ b' → n ≤ String.length a'.
Proof.
  revert n. induction s as [|c s IH]; intros n; rewrite index_unfold;
    destruct (has_prefix _ sub) eqn:E.
  - intros [= <-]. apply has_prefix_spec in E as [t Ht]. exists "", t. repeat split; [done|lia].
  - done.
  - intros [= <-]. apply has_prefix_spec in E as [t Ht]. exists "", t. repeat split; [done|lia].
  - destruct (index s sub) as [m|]; intros Hm; simplify_eq/=.
    destruct (IH m eq_refl) as (a & b & -> & Hl & Hmin).
    exists (String c a), b. repeat split; simpl; [lia|].
    intros [|c' a'] b' Heq; simpl in *.
    + exfalso. rewrite Heq in E. by rewrite has_prefix_app in E.
    + simplify_eq. apply le_n_S, (Hmin a' b'). done.
Qed.

Lemma index_None s sub : index s sub = None ↔ ∀ a b, s ≠ a +:+ sub +:+ b.
Proof.
  induction s as [|c s IH]; rewrite index_unfold; destruct (has_prefix _ sub) eqn:E.
  - split; [done|]. apply has_prefix_spec in E as [t Ht]. intros Hn. by destruct (Hn "" t).
  - split; [|done]. intros _ a b Heq. destruct a; simpl in Heq; [|done].
    rewrite Heq in E. by rewrite has_prefix_app in E.
  - split; [done|]. apply has_prefix_spec in E as [t Ht]. intros Hn. by destruct (Hn "" t).
  - rewrite fmap_None, IH. split.
    + intros Hn [|c' a] b Heq; simpl in Heq.
      * rewrite Heq in E. by rewrite has_prefix_app in E.
      * simplify_eq. by eapply Hn.
    + intros Hn a b ->. by destruct (Hn (String c a) b).
Qed.

Lemma contains_true s sub : contains s sub = true ↔ ∃ a b, s = a +:+ sub +:+ b.
Proof.
  unfold contains. destruct (index s sub) as [n|] eqn:E.
  - split; [|done]. intros _. apply index_Some in E as (a & b & -> & _). by exists a, b.
  - split; [done|]. intros (a & b & ->). rewrite index_None in E. by destruct (E a b).
Qed.

Lemma contains_false s sub : contains s sub = false ↔ ∀ a b, s ≠ a +:+ sub +:+ b.
Proof.
  rewrite <-not_true_iff_false, contains_true. naive_solver.
Qed.

Lemma str_app_inj_len a b a' b' :
  a +:+ b = a' +:+ b' → String.length a = String.length a' → a = a' ∧ b = b'.
Proof.
  revert a'. induction a as [|c a IH]; intros [|c' a']; simpl; intros Heq Hl; try done.
  simplify_eq. destruct (IH a') as [-> ->]; auto.
Qed.

(** Byte membership *)
Fixpoint byte_in (c : Ascii.ascii) (s : string) : bool :=
  match s with
  | "" => false
  | String d s' => bool_decide (c = d) || byte_in c s'
  end.

Lemma byte_in_app c a b : byte_in c (a +:+ b) = byte_in c a || byte_in c b.
Proof. induction a as [|d a IH]; simpl; [done|]. by rewrite IH, orb_assoc. Qed.

(** Two factorisations of one string overlap in one of two ways. *)
Lemma str_app_cases a b x y :
  a +:+ b = x +:+ y →
  (∃ m, x = a +:+ m ∧ b = m +:+ y) ∨ (∃ m, a = x +:+ m ∧ y = m +:+ b).
Proof.
  revert x. induction a as [|c a IH]; intros x Heq; simpl in *.
  - left. by exists x.
  - destruct x as [|d x]; simpl in *.
    + right. by exists (String c a).
    + simplify_eq. destruct (IH x) as [(m & -> & ->)|(m & -> & ->)]; [done|left|right]; by exists m.
Qed.

Lemma split_on_nonempty sep s : split_on sep s ≠ [].
Proof.
  destruct s as [|c s]; simpl; [done|]. case_bool_decide; [done|].
  by destruct (split_on sep s).
Qed.

(** Splitting and joining with the same separator is the identity. *)
Lemma join_split_on sep s : join (split_on sep s) (String sep "") = s.
Proof.
  induction s as [|c s IH]; simpl; [done|].
  pose proof (split_on_nonempty sep s).
  case_bool_decide as Hc; subst.
  - destruct (split_on sep s) as [|w ws]; [done|]. simpl in *. by rewrite IH.
  - destruct (split_on sep s) as [|w [|w' ws]]; [done| |]; simpl in *; by rewrite <-IH.
Qed.

Lemma split_on_app_free sep a b :
  byte_in sep a = false → split_on sep (a +:+ String sep b) = a :: split_on sep b.
Proof.
  induction a as [|c a IH]; simpl; intros Hf.
  - by rewrite bool_decide_eq_true_2.
  - apply orb_false_iff in Hf as [Hc Hf]. apply bool_decide_eq_false in Hc.
    rewrite bool_decide_eq_false_2 by congruence. by rewrite IH.
Qed.

Lemma split_on_free sep a : byte_in sep a = false → split_on sep a = [a].
Proof.
  induction a as [|c a IH]; simpl; intros Hf; [done|].
  apply orb_false_iff in Hf as [Hc Hf]. apply bool_decide_eq_false in Hc.
  rewrite bool_decide_eq_false_2 by congruence. by rewrite IH.
Qed.

Lemma split_on_join sep ws :
  ws ≠ [] → Forall (fun w => byte_in sep w = false) ws →
  split_on sep (join ws (String sep "")) = ws.
Proof.
  intros Hne Hf. induction Hf as [|w ws Hw Hws IH]; [done|].
  destruct ws as [|w' ws]; [by apply split_on_free|].
  change (join (w :: w' :: ws) (String sep "")) with
    (w +:+ String sep "" +:+ join (w' :: ws) (String sep "")).
  rewrite <-(IH ltac:(done)) at 2. by apply split_on_app_free.
Qed.

Lemma replace_absent v new s : contains s v = false → replace_all s v new = s.
Proof.
  rewrite contains_false. induction s as [|c s IH]; intros Hn; [done|].
  unfold replace_all in *. simpl. destruct (has_prefix (String c s) v) eqn:E.
  - apply has_prefix_spec in E as [t Ht]. by destruct (Hn "" t).
  - f_equal. apply IH. intros a b ->. by destruct (Hn (String c a) b).
Qed.

Lemma trim_suffix_app a p : trim_suffix (a +:+ p) p = a.
Proof.
  unfold trim_suffix, has_suffix. rewrite app_str_length.
  assert (String.length a + String.length p - String.length p = String.length a) as -> by lia.
  rewrite str_drop_app, str_take_app, bool_decide_eq_true_2 by done.
  assert (Nat.leb (String.length p) (String.length a + String.length p) = true) as ->
    by (apply Nat.leb_le; lia). done.
Qed.

(** ** Searching at a known position *)

Lemma index_absent_byte s c sub :
  byte_in c sub = true → byte_in c s = false → index s sub = None.
Proof.
  intros Hsub Hs. apply index_None. intros a b ->. rewrite !byte_in_app, Hsub in Hs.
  by destruct (byte_in c a).
Qed.

(** The first occurrence of [sub] after a part in which its first byte does not occur. *)
Lemma index_app_free a c sub b :
  byte_in c a = false → index (a +:+ String c sub +:+ b) (String c sub) = Some (String.length a).
Proof.
  induction a as [|d a IH]; intros Hf; rewrite index_unfold.
  - assert (has_prefix ("" +:+ String c sub +:+ b) (String c sub) = true) as ->; [|done].
    apply has_prefix_spec. by exists b.
  - simpl in Hf. apply orb_false_iff in Hf as [Hd Hf]. apply bool_decide_eq_false in Hd.
    destruct (has_prefix _ _) eqn:E.
    + apply has_prefix_spec in E as [t Ht]. simpl in Ht. congruence.
    + simpl. simpl in IH. by rewrite (IH Hf).
Qed.

Lemma index_byte_app a c b :
  byte_in c a = false → index (a +:+ String c b) (String c "") = Some (String.length a).
Proof. apply (index_app_free a c ""). Qed.

Lemma str_drop_app_S a c b : str_drop (String.length a + 1) (a +:+ String c b) = b.
Proof. induction a as [|d a IH]; simpl; [by destruct b|done]. Qed.

Lemma str_drop_app_len a sub b :
  str_drop (String.length a + String.length sub) (a +:+ sub +:+ b) = b.
Proof. induction a as [|d a IH]; simpl; [apply str_drop_app|done]. Qed.

Lemma cut_Some s c a b : cut s (String c "") = (a, b, true) → s = a +:+ String c b.
Proof.
  unfold cut. destruct (index s (String c "")) as [n|] eqn:E; [|done].
  intros [= <- <-]. apply index_Some in E as (x & y & -> & <- & _).
  rewrite str_take_app. change (String c "" +:+ y) with (String c y). simpl String.length.
  by rewrite str_drop_app_S.
Qed.

(** ** What is used of the Unicode tables

    Trimming keeps a string that is not all space, and never lengthens one. *)

Class UnicodeLaws `{Unicode} : Prop := {
  u_trim_keeps : ∀ s c, byte_in c s = true → ascii_byte c = true → is_space c = false →
    u_trim_space s ≠ "";
  u_trim_shrinks : ∀ s, String.length (u_trim_space s) ≤ String.length s;
  u_fields_some : ∀ s, u_trim_space s ≠ "" → u_fields s ≠ []
}.

#[export] Instance ascii_unicode_laws : @UnicodeLaws ascii_unicode.
Proof. split; simpl; [by intros [|c s] d|done|done]. Qed.

Lemma trim_right_keeps s c : byte_in c s = true → is_space c = false → trim_right_ascii s ≠ "".
Proof.
  induction s as [|d s IH]; simpl; [done|]. intros Hin Hc.
  apply orb_true_iff in Hin as [->%bool_decide_eq_true|Hin].
  - rewrite Hc. by destruct (trim_right_ascii s).
  - specialize (IH Hin Hc). by destruct (trim_right_ascii s).
Qed.

Lemma trim_left_keeps s c :
  byte_in c s = true → is_space c = false → byte_in c (trim_left_ascii s) = true.
Proof.
  induction s as [|d s IH]; simpl; [done|]. intros Hin Hc.
  destruct (is_space d) eqn:Hd; [|done]. apply orb_true_iff in Hin as [->%bool_decide_eq_true|Hin];
    [congruence|auto].
Qed.

Lemma trim_space_keeps `{UnicodeLaws} s c :
  byte_in c s = true → ascii_byte c = true → is_space c = false → trim_space s ≠ "".
Proof.
  intros Hin Ha Hc. unfold trim_space. destruct (all_ascii s).
  - eapply trim_right_keeps; [by apply trim_left_keeps|done].
  - by eapply u_trim_keeps.
Qed.

Lemma trim_left_length s : String.length (trim_left_ascii s) ≤ String.length s.
Proof. induction s as [|c s IH]; simpl; [done|]. destruct (is_space c); simpl; lia. Qed.

Lemma trim_right_length s : String.length (trim_right_ascii s) ≤ String.length s.
Proof.
  induction s as [|c s IH]; simpl; [done|].
  destruct (trim_right_ascii s); simpl in *; [destruct (is_space c)|]; simpl; lia.
Qed.

Lemma trim_space_length `{UnicodeLaws} s : String.length (trim_space s) ≤ String.length s.
Proof.
  unfold trim_space. destruct (all_ascii s); [|apply u_trim_shrinks].
  etrans; [apply trim_right_length|apply trim_left_length].
Qed.

(** ASCII text without white space is not changed by trimming, nor is a
    trailing line break kept. *)
Fixpoint no_space (s : string) : bool :=
  match s with "" => true | String c s' => negb (is_space c) && no_space s' end.

Lemma trim_right_no_space s t :
  no_space s = true → trim_right_ascii t = "" → trim_right_ascii (s +:+ t) = s.
Proof.
  induction s as [|c s IH]; simpl; intros Hs Ht; [done|]. breflect. rewrite IH by done.
  destruct s; [|done]. by rewrite H.
Qed.

Lemma trim_space_text `{Unicode} s t :
  s ≠ "" → all_ascii (s +:+ t) = true → no_space s = true → trim_right_ascii t = "" →
  trim_space (s +:+ t) = s.
Proof.
  intros Hne Ha Hs Ht. unfold trim_space. rewrite Ha.
  assert (trim_left_ascii (s +:+ t) = s +:+ t) as ->.
  { destruct s as [|c s]; [done|]. simpl in *. breflect. by rewrite H0. }
  by apply trim_right_no_space.
Qed.

(** A text that is not all space has a field. *)
Lemma fields_ascii_some w s :
  trim_right_ascii (trim_left_ascii s) ≠ "" ∨ w ≠ "" → fields_ascii w s ≠ [].
Proof.
  revert w. induction s as [|c s IH]; intros w Hne; cbn [fields_ascii].
  - destruct Hne as [Hne|Hw]; [done|]. by rewrite bool_decide_eq_false_2.
  - destruct (is_space c) eqn:Hc.
    + case_bool_decide as Hw; [|done]. apply IH. left. cbn [trim_left_ascii] in Hne. rewrite Hc in Hne.
      by destruct Hne.
    + apply IH. right. by destruct w.
Qed.

Lemma fields_some `{UnicodeLaws} s : trim_space s ≠ "" → fields s ≠ [].
Proof.
  unfold trim_space, fields. destruct (all_ascii s); [|apply u_fields_some].
  intros Hne. apply fields_ascii_some. by left.
Qed.

Lemma app_str_inj_l a b c : a +:+ b = a +:+ c → b = c.
Proof. induction a as [|x a IH]; simpl; [done|]. intros Heq. simplify_eq. auto. Qed.

(** Two texts cut at the first occurrence of a byte. *)
Lemma cut_inj c a b x y :
  byte_in c a = false → byte_in c b = false → a +:+ String c x = b +:+ String c y → a = b ∧ x = y.
Proof.
  revert b. induction a as [|d a IH]; intros [|e b]; simpl; intros Ha Hb E.
  - by injection E.
  - injection E as -> _. by rewrite bool_decide_eq_true_2 in Hb.
  - injection E as -> _. by rewrite bool_decide_eq_true_2 in Ha.
  - injection E as -> E. apply orb_false_iff in Ha as [_ Ha], Hb as [_ Hb].
    destruct (IH b Ha Hb E) as [-> ->]. done.
Qed.

Create HintDb forgelet_str.
#[export] Hint Rewrite app_str_assoc app_str_nil_r str_drop_app str_take_app has_prefix_app
  : forgelet_str.
