(* ===== verification/RunModel.v ===== *)
(** * The durable run state machine (internal/run/model)

    Statuses, phases and records of [status.go] and [run.go].  A Go status is
    a string; the named constants are constructors and every other string is
    [..Other raw] (the zero value of the type is [..Other ""]), so that the
    default branches of the source are branches of the model. *)

From Stdlib Require Import Ascii.
From S2P Require Import Prelude GoStrings.

(** ** Identifiers and events *)

Abbreviation RunID := string (only parsing).
Abbreviation JobRunID := string (only parsing).

(** A [time.Time], in nanoseconds. *)
Abbreviation Time := Z (only parsing).

Record RepositoryRef := { RepoProvider : string; RepoOwner : string; RepoName : string }.

Record DeliveryKey := { KeyProvider : string; KeyDeliveryID : string }.

#[export] Instance DeliveryKey_eq_dec : EqDecision DeliveryKey.
Proof. solve_decision. Defined.

#[export] Instance DeliveryKey_countable : Countable DeliveryKey.
Proof.
  refine (inj_countable' (fun k => (KeyProvider k, KeyDeliveryID k))
            (fun p => {| KeyProvider := fst p; KeyDeliveryID := snd p |}) _).
  by intros [].
Defined.

Record Event := {
  EvProvider : string;
  EvName : string;
  EvDeliveryID : string;
  EvRepository : RepositoryRef;
  EvRef : string;
  EvSHA : string;
  EvActor : string
}.

Record Delivery := { DKey : DeliveryKey; DEvent : Event; DPayload : string }.

Record DeliveryRecord := {
  DRKey : DeliveryKey;
  DREvent : Event;
  DRPayload : string;
  DRReceivedAt : Time;
  DRRunID : RunID
}.

(** ** Statuses *)

Inductive WorkflowRunStatus :=
  | RunQueued
  | RunRunning
  | RunSucceeded
  | RunFailed
  | RunCancelled
  | RunStatusOther (raw : string).

Inductive JobRunStatus :=
  | JobQueued
  | JobDispatched
  | JobRunning
  | JobSucceeded
  | JobFailed
  | JobCancelled
  | JobSkipped
  | JobStatusOther (raw : string).

Inductive ObservedPhase :=
  | PhasePending
  | PhaseRunning
  | PhaseSucceeded
  | PhaseFailed
  | PhaseSkipped
  | PhaseOther (raw : string).

#[export] Instance WorkflowRunStatus_eq_dec : EqDecision WorkflowRunStatus.
Proof. solve_decision. Defined.
#[export] Instance JobRunStatus_eq_dec : EqDecision JobRunStatus.
Proof. solve_decision. Defined.
#[export] Instance ObservedPhase_eq_dec : EqDecision ObservedPhase.
Proof. solve_decision. Defined.

Definition run_terminal (s : WorkflowRunStatus) : bool :=
  match s with
  | RunSucceeded | RunFailed | RunCancelled => true
  | _ => false
  end.

Definition job_terminal (s : JobRunStatus) : bool :=
  match s with
  | JobSucceeded | JobFailed | JobCancelled | JobSkipped => true
  | _ => false
  end.

Definition jobRank (s : JobRunStatus) : nat :=
  match s with
  | JobQueued => 0
  | JobDispatched => 1
  | JobRunning => 2
  | _ => 3
  end.

Definition runRank (s : WorkflowRunStatus) : nat :=
  match s with
  | RunQueued => 0
  | RunRunning => 1
  | _ => 2
  end.

Definition CanTransitionJob (from to : JobRunStatus) : bool :=
  if job_terminal from then false
  else match to with
       | JobCancelled | JobSkipped => true
       | JobDispatched => bool_decide (from = JobQueued)
       | JobRunning => bool_decide (from = JobDispatched) || bool_decide (from = JobRunning)
       | JobSucceeded | JobFailed =>
           bool_decide (from = JobDispatched) || bool_decide (from = JobRunning)
       | _ => false
       end.

Record TransitionError := { TEKind : string; TEFrom : JobRunStatus; TETo : JobRunStatus }.

(** [TransitionJob] returns the old status beside the error. *)
Definition TransitionJob (from to : JobRunStatus) : JobRunStatus * option TransitionError :=
  if CanTransitionJob from to then (to, None)
  else (from, Some {| TEKind := "jobrun"; TEFrom := from; TETo := to |}).

Definition CanAdvanceJob (from to : JobRunStatus) : bool :=
  if bool_decide (to = JobCancelled) then false
  else if bool_decide (from = to) then true
  else Nat.ltb (jobRank from) (jobRank to).

Definition CanAdvanceRun (from to : WorkflowRunStatus) : bool :=
  if bool_decide (from = to) then true
  else if run_terminal from then false
  else if run_terminal to then true
  else Nat.ltb (runRank from) (runRank to).

(** The flags accumulated by the loop of [AggregateRunStatus]. *)
Record AggFlags := {
  AgRunning : bool;
  AgStarted : bool;
  AgAllTerminal : bool;
  AgFailed : bool;
  AgCancelled : bool;
  AgSucceeded : bool;
  AgSkipped : bool
}.

Definition agg0 : AggFlags := {|
  AgRunning := false; AgStarted := false; AgAllTerminal := true;
  AgFailed := false; AgCancelled := false; AgSucceeded := false; AgSkipped := false |}.

Definition agg_step (f : AggFlags) (s : JobRunStatus) : AggFlags :=
  match s with
  | JobRunning =>
      {| AgRunning := true; AgStarted := true; AgAllTerminal := false;
         AgFailed := AgFailed f; AgCancelled := AgCancelled f;
         AgSucceeded := AgSucceeded f; AgSkipped := AgSkipped f |}
  | JobDispatched | JobQueued =>
      {| AgRunning := AgRunning f;
         AgStarted := AgStarted f || bool_decide (s = JobDispatched);
         AgAllTerminal := false;
         AgFailed := AgFailed f; AgCancelled := AgCancelled f;
         AgSucceeded := AgSucceeded f; AgSkipped := AgSkipped f |}
  | JobFailed =>
      {| AgRunning := AgRunning f; AgStarted := AgStarted f; AgAllTerminal := AgAllTerminal f;
         AgFailed := true; AgCancelled := AgCancelled f;
         AgSucceeded := AgSucceeded f; AgSkipped := AgSkipped f |}
  | JobCancelled =>
      {| AgRunning := AgRunning f; AgStarted := AgStarted f; AgAllTerminal := AgAllTerminal f;
         AgFailed := AgFailed f; AgCancelled := true;
         AgSucceeded := AgSucceeded f; AgSkipped := AgSkipped f |}
  | JobSkipped =>
      {| AgRunning := AgRunning f; AgStarted := AgStarted f; AgAllTerminal := AgAllTerminal f;
         AgFailed := AgFailed f; AgCancelled := AgCancelled f;
         AgSucceeded := AgSucceeded f; AgSkipped := true |}
  | JobSucceeded =>
      {| AgRunning := AgRunning f; AgStarted := AgStarted f; AgAllTerminal := AgAllTerminal f;
         AgFailed := AgFailed f; AgCancelled := AgCancelled f;
         AgSucceeded := true; AgSkipped := AgSkipped f |}
  | JobStatusOther _ => f
  end.

Definition AggregateRunStatus (jobs : list JobRunStatus) : WorkflowRunStatus :=
  let f := fold_left agg_step jobs agg0 in
  if bool_decide (length jobs = 0) then RunQueued
  else if AgRunning f then RunRunning
  else if negb (AgAllTerminal f) then (if AgStarted f then RunRunning else RunQueued)
  else if AgFailed f then RunFailed
  else if AgCancelled f then RunCancelled
  else if AgSucceeded f || AgSkipped f then RunSucceeded
  else RunQueued.

(** ** Records *)

Record JobIntent := {
  IJobKey : string;
  IRunnerClass : string;
  IDependsOn : list string;
  IMatrix : gmap string string;
  IPlanDigest : string;
  ICondition : string
}.

Record RunSeed := { SDelivery : DeliveryKey; SEvent : Event; SJobs : list JobIntent }.

Record RunRecord := {
  RID : RunID;
  REvent : Event;
  RDelivery : DeliveryKey;
  RStatus : WorkflowRunStatus;
  RCreatedAt : Time;
  RFinishedAt : option Time
}.

Record JobRunRecord := {
  JID : JobRunID;
  JRunID : RunID;
  JJobKey : string;
  JRunnerClass : string;
  JDependsOn : list string;
  JMatrix : gmap string string;
  JPlanDigest : string;
  JCondition : string;
  JStatus : JobRunStatus;
  JAttempt : Z;
  JActiveName : string;
  JActiveUID : string;
  JCreatedAt : Time;
  JDispatchedAt : option Time;
  JStartedAt : option Time;
  JFinishedAt : option Time;
  JActiveCollectedAt : option Time
}.

(** The zero [JobRunRecord], which a map lookup yields for a missing key
    (the zero [time.Time] is represented by [0]). *)
Definition zeroJob : JobRunRecord := {|
  JID := ""; JRunID := ""; JJobKey := ""; JRunnerClass := ""; JDependsOn := [];
  JMatrix := ∅; JPlanDigest := ""; JCondition := ""; JStatus := JobStatusOther "";
  JAttempt := 0; JActiveName := ""; JActiveUID := ""; JCreatedAt := 0;
  JDispatchedAt := None; JStartedAt := None; JFinishedAt := None;
  JActiveCollectedAt := None |}.

(** Field updates of a [JobRunRecord]. *)
Definition set_status (s : JobRunStatus) (j : JobRunRecord) : JobRunRecord :=
  {| JID := JID j; JRunID := JRunID j; JJobKey := JJobKey j; JRunnerClass := JRunnerClass j;
     JDependsOn := JDependsOn j; JMatrix := JMatrix j; JPlanDigest := JPlanDigest j;
     JCondition := JCondition j; JStatus := s; JAttempt := JAttempt j;
     JActiveName := JActiveName j; JActiveUID := JActiveUID j; JCreatedAt := JCreatedAt j;
     JDispatchedAt := JDispatchedAt j; JStartedAt := JStartedAt j;
     JFinishedAt := JFinishedAt j; JActiveCollectedAt := JActiveCollectedAt j |}.

Definition set_active (name uid : string) (at_ : Time) (j : JobRunRecord) : JobRunRecord :=
  {| JID := JID j; JRunID := JRunID j; JJobKey := JJobKey j; JRunnerClass := JRunnerClass j;
     JDependsOn := JDependsOn j; JMatrix := JMatrix j; JPlanDigest := JPlanDigest j;
     JCondition := JCondition j; JStatus := JStatus j; JAttempt := JAttempt j;
     JActiveName := name; JActiveUID := uid; JCreatedAt := JCreatedAt j;
     JDispatchedAt := Some at_; JStartedAt := JStartedAt j;
     JFinishedAt := JFinishedAt j; JActiveCollectedAt := JActiveCollectedAt j |}.

Definition set_times (started finished : option Time) (j : JobRunRecord) : JobRunRecord :=
  {| JID := JID j; JRunID := JRunID j; JJobKey := JJobKey j; JRunnerClass := JRunnerClass j;
     JDependsOn := JDependsOn j; JMatrix := JMatrix j; JPlanDigest := JPlanDigest j;
     JCondition := JCondition j; JStatus := JStatus j; JAttempt := JAttempt j;
     JActiveName := JActiveName j; JActiveUID := JActiveUID j; JCreatedAt := JCreatedAt j;
     JDispatchedAt := JDispatchedAt j; JStartedAt := started;
     JFinishedAt := finished; JActiveCollectedAt := JActiveCollectedAt j |}.

Definition set_collected (at_ : Time) (j : JobRunRecord) : JobRunRecord :=
  {| JID := JID j; JRunID := JRunID j; JJobKey := JJobKey j; JRunnerClass := JRunnerClass j;
     JDependsOn := JDependsOn j; JMatrix := JMatrix j; JPlanDigest := JPlanDigest j;
     JCondition := JCondition j; JStatus := JStatus j; JAttempt := JAttempt j;
     JActiveName := JActiveName j; JActiveUID := JActiveUID j; JCreatedAt := JCreatedAt j;
     JDispatchedAt := JDispatchedAt j; JStartedAt := JStartedAt j;
     JFinishedAt := JFinishedAt j; JActiveCollectedAt := Some at_ |}.

Definition set_run (s : WorkflowRunStatus) (fin : option Time) (r : RunRecord) : RunRecord :=
  {| RID := RID r; REvent := REvent r; RDelivery := RDelivery r; RStatus := s;
     RCreatedAt := RCreatedAt r; RFinishedAt := fin |}.

(** ** Pure helpers of run.go *)

Definition RepositoryRef_String (r : RepositoryRef) : string :=
  RepoProvider r +:+ "/" +:+ RepoOwner r +:+ "/" +:+ RepoName r.

Definition DeliveryKey_String (k : DeliveryKey) : string := KeyProvider k +:+ ":" +:+ KeyDeliveryID k.

(** Keys of providers without a colon have different texts. *)
Lemma DeliveryKey_String_inj k k' :
  byte_in ":"%char (KeyProvider k) = false → byte_in ":"%char (KeyProvider k') = false →
  DeliveryKey_String k = DeliveryKey_String k' → k = k'.
Proof.
  destruct k as [p d], k' as [p' d']. unfold DeliveryKey_String. simpl. revert p'.
  induction p as [|c p IH]; intros [|c' p']; simpl; intros Hp Hp' E.
  - by injection E as ->.
  - injection E as <- _. by vm_compute in Hp'.
  - injection E as -> _. by vm_compute in Hp.
  - apply orb_false_iff in Hp as [_ Hp], Hp' as [_ Hp']. injection E as <- E.
    specialize (IH p' Hp Hp' E). by simplify_eq.
Qed.

Section helpers.
Context `{Unicode}.

Definition CRName (id : JobRunID) : string := "jobrun-" +:+ to_lower id.

Definition Validate (j : JobIntent) : option string :=
  if bool_decide (trim_space (IJobKey j) = "") then Some "job intent: empty job key"
  else if bool_decide (trim_space (IRunnerClass j) = "")
  then Some ("job intent " +:+ IJobKey j +:+ ": empty runner class")
  else None.
End helpers.

Definition JobStatusFromPhase (p : ObservedPhase) : option JobRunStatus :=
  match p with
  | PhasePending => None
  | PhaseRunning => Some JobRunning
  | PhaseSucceeded => Some JobSucceeded
  | PhaseFailed => Some JobFailed
  | PhaseSkipped => Some JobSkipped
  | PhaseOther _ => None
  end.

(** ** Facts about the state machine *)

(** The state of a job is one the source names. *)
Definition job_known (s : JobRunStatus) : bool :=
  match s with JobStatusOther _ => false | _ => true end.

Lemma job_terminal_rank s : job_terminal s = true → jobRank s = 3.
Proof. by destruct s. Qed.

Lemma job_rank_terminal s : job_known s = true → jobRank s = 3 → job_terminal s = true.
Proof. by destruct s. Qed.

Lemma jobRank_le s : jobRank s ≤ 3.
Proof. destruct s; simpl; lia. Qed.

Lemma CanTransitionJob_rank from to :
  job_known from = true → CanTransitionJob from to = true → jobRank from ≤ jobRank to.
Proof.
  unfold CanTransitionJob. destruct from; simpl; try done; intros _;
    destruct to; simpl; try done; try lia; intros; breflect; try case_bool_decide; simplify_eq; lia.
Qed.

Lemma CanAdvanceJob_rank from to : CanAdvanceJob from to = true → jobRank from ≤ jobRank to.
Proof.
  unfold CanAdvanceJob. repeat case_bool_decide; subst; try done.
  intros ?%Nat.ltb_lt. lia.
Qed.

(** What the flags of the loop mean. *)
Lemma agg_flags_spec jobs f :
  let g := fold_left agg_step jobs f in
  (AgRunning g = true ↔ AgRunning f = true ∨ JobRunning ∈ jobs) ∧
  (AgStarted g = true ↔ AgStarted f = true ∨ JobRunning ∈ jobs ∨ JobDispatched ∈ jobs) ∧
  (AgAllTerminal g = true ↔
     AgAllTerminal f = true ∧ ∀ s, s ∈ jobs → job_known s = true → job_terminal s = true) ∧
  (AgFailed g = true ↔ AgFailed f = true ∨ JobFailed ∈ jobs) ∧
  (AgCancelled g = true ↔ AgCancelled f = true ∨ JobCancelled ∈ jobs) ∧
  (AgSucceeded g = true ↔ AgSucceeded f = true ∨ JobSucceeded ∈ jobs) ∧
  (AgSkipped g = true ↔ AgSkipped f = true ∨ JobSkipped ∈ jobs).
Proof.
  revert f. induction jobs as [|s jobs IH]; intros f; simpl.
  - repeat split; try set_solver.
  - destruct (IH (agg_step f s)) as (H1 & H2 & H3 & H4 & H5 & H6 & H7).
    rewrite H1, H2, H3, H4, H5, H6, H7. clear IH H1 H2 H3 H4 H5 H6 H7.
    setoid_rewrite elem_of_cons.
    destruct s; simpl; rewrite ?orb_true_r, ?orb_false_r; naive_solver.
Qed.
