(* ===== verification/SchedulerPort.v ===== *)
(** * The ports of the scheduler (internal/run/scheduler/port.go)

    The store and Kubernetes interfaces the use cases are written against,
    as type classes over an abstract state, and the state-and-error monad in
    which their operations live.  Each operation of a Go store runs under one
    mutex, so a method is one atomic state transformer and concurrent callers
    are sequences of such transformers. *)

From S2P Require Import Prelude GoStrings RunModel.

(** ** Errors

    Sentinel errors and formatted errors of the stores and use cases.
    [ErrWrap] is [fmt.Errorf("...: %w", err)], [ErrJoin] is [errors.Join]. *)
Inductive error :=
  | ErrNoQueuedJob
  | ErrRunNotFound
  | ErrJobRunNotFound
  | ErrJobNotDispatchable (id : JobRunID) (status : JobRunStatus)
  | ErrAlreadyDispatched (id : JobRunID) (was refused : string)
  | ErrDeliveryNotRecorded (k : DeliveryKey)
  | ErrRunHasNoJobs (k : DeliveryKey)
  | ErrDuplicateJobKey (key : string) (run : RunID)
  | ErrRunAlreadyTerminal (id : RunID) (status : WorkflowRunStatus)
  | ErrOther (msg : string)
  | ErrWrap (ctx : string) (e : error)
  | ErrJoin (e1 e2 : error).

(** [errors.Is] against a sentinel. *)
Fixpoint error_is (target : error → bool) (e : error) : bool :=
  target e ||
  match e with
  | ErrWrap _ e' => error_is target e'
  | ErrJoin e1 e2 => error_is target e1 || error_is target e2
  | _ => false
  end.

(** ** The monad of store operations

    State changes made before an error stay, as in Go. *)
Definition M (S A : Type) : Type := S → S * outcome error A.

Definition mret {S A} (a : A) : M S A := fun s => (s, Ok a).
Definition mfail {S A} (e : error) : M S A := fun s => (s, Err e).
Definition mbind {S A B} (m : M S A) (k : A → M S B) : M S B :=
  fun s => match m s with
           | (s', Ok a) => k a s'
           | (s', Err e) => (s', Err e)
           | (s', Panic) => (s', Panic)
           end.

(** Rewrite the error of a failed operation ([if err != nil { return ..., f(err) }]). *)
Definition mapErr {S A} (f : error → error) (m : M S A) : M S A :=
  fun s => match m s with
           | (s', Ok a) => (s', Ok a)
           | (s', Err e) => (s', Err (f e))
           | (s', Panic) => (s', Panic)
           end.

Notation "'let*' x ':=' m 'in' k" := (mbind m (fun x => k))
  (at level 10, x pattern, m at level 100, k at level 200) : go_scope.

(** ** Ports *)

Record ActiveObject := { ObjName : string; ObjUID : string }.

#[export] Instance ActiveObject_eq_dec : EqDecision ActiveObject.
Proof. solve_decision. Defined.

(** The durable scheduling port. *)
Class DurableStore (S : Type) := {
  RecordDelivery : Delivery → M S (DeliveryRecord * bool);
  CreateRun : RunSeed → Time → M S (RunRecord * bool);
  GetRun : RunID → M S RunRecord;
  GetJobRun : JobRunID → M S JobRunRecord;
  ListJobRuns : RunID → M S (list JobRunRecord);
  CountQueuedJobs : M S nat;
  ListQueuedJobs : M S (list JobRunRecord);
  ClaimNextQueuedJob : M S JobRunRecord;
  ReleaseClaim : JobRunID → M S unit;
  AckDispatched : JobRunID → ActiveObject → Time → M S unit;
  ApplyObserved : JobRunID → ObservedPhase → Time → M S unit;
  CancelRun : RunID → Time → M S unit;
  ListGCReadyJobs : M S (list JobRunRecord);
  MarkCollected : JobRunID → Time → M S unit;
  RerequestJob : JobRunID → Time → M S JobRunID
}.

(** The Kubernetes-side port. *)
Class ActiveExecutionStore (S : Type) := {
  CreateOrGet : JobRunID → M S ActiveObject;
  DeleteActive : JobRunID → M S unit
}.
