(* ===== verification/MemoryStore.v ===== *)
(** * The in-memory durable and active stores (internal/storage/memory)

    [DurableStore] keeps deliveries, runs, jobs, the jobs of each run, the
    index from job key to job and the set of claimed jobs.  The clock and the
    ULID source are parameters: [clock n] is the [n]-th reading of the store's
    clock and [newid n] the [n]-th identifier minted. *)

From S2P Require Import Prelude GoStrings RunModel SchedulerPort.

(** ** State *)

Record store := {
  deliveries : gmap DeliveryKey DeliveryRecord;
  runs : gmap string RunRecord;
  jobs : gmap string JobRunRecord;
  runJobs : gmap string (list string);
  byJobKey : gmap string (gmap string string);
  claimed : gset string;
  ticks : nat;   (** clock readings so far *)
  minted : nat   (** identifiers minted so far *)
}.

Class MemoryEnv := {
  clock : nat → Time;
  newid : nat → string
}.

(** ULIDs are unique and not empty. *)
Class MemoryEnvOk `{MemoryEnv} : Prop := {
  newid_inj : ∀ m n, newid m = newid n → m = n;
  newid_nonempty : ∀ n, newid n ≠ ""
}.

Definition NewDurableStore : store := {|
  deliveries := ∅; runs := ∅; jobs := ∅; runJobs := ∅; byJobKey := ∅;
  claimed := ∅; ticks := 0; minted := 0 |}.

Definition with_deliveries v (s : store) : store :=
  {| deliveries := v; runs := runs s; jobs := jobs s; runJobs := runJobs s;
     byJobKey := byJobKey s; claimed := claimed s; ticks := ticks s; minted := minted s |}.
Definition with_runs v (s : store) : store :=
  {| deliveries := deliveries s; runs := v; jobs := jobs s; runJobs := runJobs s;
     byJobKey := byJobKey s; claimed := claimed s; ticks := ticks s; minted := minted s |}.
Definition with_jobs v (s : store) : store :=
  {| deliveries := deliveries s; runs := runs s; jobs := v; runJobs := runJobs s;
     byJobKey := byJobKey s; claimed := claimed s; ticks := ticks s; minted := minted s |}.
Definition with_runJobs v (s : store) : store :=
  {| deliveries := deliveries s; runs := runs s; jobs := jobs s; runJobs := v;
     byJobKey := byJobKey s; claimed := claimed s; ticks := ticks s; minted := minted s |}.
Definition with_byJobKey v (s : store) : store :=
  {| deliveries := deliveries s; runs := runs s; jobs := jobs s; runJobs := runJobs s;
     byJobKey := v; claimed := claimed s; ticks := ticks s; minted := minted s |}.
Definition with_claimed v (s : store) : store :=
  {| deliveries := deliveries s; runs := runs s; jobs := jobs s; runJobs := runJobs s;
     byJobKey := byJobKey s; claimed := v; ticks := ticks s; minted := minted s |}.
Definition with_ticks v (s : store) : store :=
  {| deliveries := deliveries s; runs := runs s; jobs := jobs s; runJobs := runJobs s;
     byJobKey := byJobKey s; claimed := claimed s; ticks := v; minted := minted s |}.
Definition with_minted v (s : store) : store :=
  {| deliveries := deliveries s; runs := runs s; jobs := jobs s; runJobs := runJobs s;
     byJobKey := byJobKey s; claimed := claimed s; ticks := ticks s; minted := v |}.

(** [s.jobs[id]], [s.runJobs[id]] with Go's zero values for missing keys. *)
Definition getJob (s : store) (id : string) : JobRunRecord := default zeroJob (jobs s !! id).
Definition getRunJobs (s : store) (id : string) : list string := default [] (runJobs s !! id).
Definition putJob (id : string) (j : JobRunRecord) (s : store) : store :=
  with_jobs (<[id := j]> (jobs s)) s.

(** ** Ordering of jobs: creation time, then id *)

Definition job_before (a b : string * Time) : bool :=
  if bool_decide (snd a = snd b) then str_lt (fst a) (fst b)
  else bool_decide (snd a < snd b)%Z.

Definition rec_key (j : JobRunRecord) : string * Time := (JID j, JCreatedAt j).

(** ** Dependency state *)

Inductive depState := depsReady | depsBlocked | depsFailed.

#[export] Instance depState_eq_dec : EqDecision depState.
Proof. solve_decision. Defined.

Fixpoint deps_loop (s : store) (index : gmap string string) (state : depState)
    (keys : list string) : depState :=
  match keys with
  | [] => state
  | k :: keys' =>
      match index !! k with
      | None => depsBlocked
      | Some depID =>
          match JStatus (getJob s depID) with
          | JobSucceeded => deps_loop s index state keys'
          | JobFailed | JobCancelled | JobSkipped => depsFailed
          | _ => deps_loop s index depsBlocked keys'
          end
      end
  end.

Definition dependencyStateLocked (s : store) (id : string) : depState :=
  match jobs s !! id with
  | None => depsReady
  | Some job =>
      if bool_decide (length (JDependsOn job) = 0) then depsReady
      else deps_loop s (default ∅ (byJobKey s !! JRunID job)) depsReady (JDependsOn job)
  end.

(** ** Refreshing the run aggregate *)

Definition run_statuses (s : store) (runID : string) : list JobRunStatus :=
  map (fun id => JStatus (getJob s id)) (getRunJobs s runID).

Definition refreshRunLocked (runID : string) (now : Time) (s : store) : store :=
  match runs s !! runID with
  | None => s
  | Some run =>
      if run_terminal (RStatus run) then s
      else
        let next := AggregateRunStatus (run_statuses s runID) in
        if CanAdvanceRun (RStatus run) next && negb (bool_decide (next = RStatus run))
        then with_runs (<[runID := set_run next
               (if run_terminal next then Some now else RFinishedAt run) run]> (runs s)) s
        else s
  end.

Definition orTime (t : option Time) (fallback : Time) : option Time :=
  match t with Some t' => Some t' | None => Some fallback end.

Section durable_store.
Context `{MemoryEnv}.

Definition readClock : M store Time :=
  fun s => (with_ticks (S (ticks s)) s, Ok (clock (ticks s))).

Definition NewID : M store string :=
  fun s => (with_minted (S (minted s)) s, Ok (newid (minted s))).

Definition mem_RecordDelivery (d : Delivery) : M store (DeliveryRecord * bool) :=
  fun s =>
    match deliveries s !! DKey d with
    | Some rec => (s, Ok (rec, false))
    | None =>
        let rec := {| DRKey := DKey d; DREvent := DEvent d; DRPayload := DPayload d;
                      DRReceivedAt := clock (ticks s); DRRunID := "" |} in
        (with_deliveries (<[DKey d := rec]> (deliveries s)) (with_ticks (S (ticks s)) s),
         Ok (rec, true))
    end.

Definition getRunLocked (id : RunID) : M store RunRecord :=
  fun s => match runs s !! id with
           | None => (s, Err ErrRunNotFound)
           | Some run => (s, Ok run)
           end.

Definition newJob (jobID runID : string) (intent : JobIntent) (now : Time) : JobRunRecord := {|
  JID := jobID; JRunID := runID; JJobKey := IJobKey intent;
  JRunnerClass := IRunnerClass intent; JDependsOn := IDependsOn intent;
  JMatrix := IMatrix intent; JPlanDigest := IPlanDigest intent;
  JCondition := ICondition intent; JStatus := JobQueued; JAttempt := 1;
  JActiveName := ""; JActiveUID := ""; JCreatedAt := now; JDispatchedAt := None;
  JStartedAt := None; JFinishedAt := None; JActiveCollectedAt := None |}.

(** The loop of [CreateRun]: it writes each job into [s.jobs] as it goes. *)
Fixpoint createJobs (intents : list JobIntent) (runID : string) (now : Time)
    (keyIndex : gmap string string) (jobIDs : list string)
    : M store (gmap string string * list string) :=
  match intents with
  | [] => mret (keyIndex, jobIDs)
  | intent :: rest =>
      match keyIndex !! IJobKey intent with
      | Some _ => mfail (ErrDuplicateJobKey (IJobKey intent) runID)
      | None =>
          fun s =>
            let jobID := newid (minted s) in
            createJobs rest runID now (<[IJobKey intent := jobID]> keyIndex) (jobIDs ++ [jobID])
              (putJob jobID (newJob jobID runID intent now) (with_minted (S (minted s)) s))
      end
  end.

Definition bindRun (k : DeliveryKey) (runID : string) (s : store) : store :=
  match deliveries s !! k with
  | None => s
  | Some rec =>
      with_deliveries (<[k := {| DRKey := DRKey rec; DREvent := DREvent rec;
        DRPayload := DRPayload rec; DRReceivedAt := DRReceivedAt rec;
        DRRunID := runID |}]> (deliveries s)) s
  end.

Definition newRun (runID : string) (seed : RunSeed) (now : Time) : RunRecord :=
  {| RID := runID; REvent := SEvent seed; RDelivery := SDelivery seed;
     RStatus := RunQueued; RCreatedAt := now; RFinishedAt := None |}.

(** The writes after the loop of [CreateRun]. *)
Definition commitRun (runID : string) (seed : RunSeed) (now : Time)
    (keyIndex : gmap string string) (jobIDs : list string) (s : store) : store :=
  bindRun (SDelivery seed) runID
    (with_byJobKey (<[runID := keyIndex]> (byJobKey s))
      (with_runJobs (<[runID := jobIDs]> (runJobs s))
        (with_runs (<[runID := newRun runID seed now]> (runs s)) s))).

Definition mem_CreateRun (seed : RunSeed) (now : Time) : M store (RunRecord * bool) :=
  fun s =>
    match deliveries s !! SDelivery seed with
    | None => (s, Err (ErrDeliveryNotRecorded (SDelivery seed)))
    | Some rec =>
        if bool_decide (DRRunID rec ≠ "") then
          match getRunLocked (DRRunID rec) s with
          | (s', Ok run) => (s', Ok (run, false))
          | (s', Err e) => (s', Err e)
          | (s', Panic) => (s', Panic)
          end
        else if bool_decide (length (SJobs seed) = 0)
        then (s, Err (ErrRunHasNoJobs (SDelivery seed)))
        else
          let runID := newid (minted s) in
          match createJobs (SJobs seed) runID now ∅ [] (with_minted (S (minted s)) s) with
          | (s', Ok (keyIndex, jobIDs)) =>
              (commitRun runID seed now keyIndex jobIDs s', Ok (newRun runID seed now, true))
          | (s', Err e) => (s', Err e)
          | (s', Panic) => (s', Panic)
          end
    end.

Definition mem_GetRun (id : RunID) : M store RunRecord := getRunLocked id.

Definition mem_ListJobRuns (run : RunID) : M store (list JobRunRecord) :=
  fun s => match runs s !! run with
           | None => (s, Err ErrRunNotFound)
           | Some _ => (s, Ok (map (getJob s) (getRunJobs s run)))
           end.

(** [range s.jobs] *)
Definition all_jobs (s : store) : list JobRunRecord := (map_to_list (jobs s)).*2.

Definition mem_CountQueuedJobs : M store nat :=
  fun s => (s, Ok (length (filter (fun j => JStatus j = JobQueued) (all_jobs s)))).

Definition mem_ListQueuedJobs : M store (list JobRunRecord) :=
  fun s => (s, Ok (sort_by (fun a b => job_before (rec_key a) (rec_key b))
                     (filter (fun j => JStatus j = JobQueued) (all_jobs s)))).

Definition mem_GetJobRun (id : JobRunID) : M store JobRunRecord :=
  fun s => match jobs s !! id with
           | None => (s, Err ErrJobRunNotFound)
           | Some job => (s, Ok job)
           end.

(** Candidates for a claim: queued and unclaimed, oldest first. *)
Definition candidates (s : store) : list (string * Time) :=
  sort_by job_before
    (map (fun p => (fst p, JCreatedAt (snd p)))
      (filter (fun p => JStatus (snd p) = JobQueued ∧ fst p ∉ claimed s)
        (map_to_list (jobs s)))).

(** Marking a job skipped because its dependencies did not succeed. *)
Definition skipJob (id : string) (s : store) : store :=
  let job := getJob s id in
  match TransitionJob (JStatus job) JobSkipped with
  | (next, None) =>
      let t := clock (ticks s) in
      refreshRunLocked (JRunID job) t
        (putJob id (set_times (JStartedAt job) (Some t) (set_status next job))
          (with_ticks (S (ticks s)) s))
  | (_, Some _) => s
  end.

Definition takeClaim (id : string) (s : store) : store * outcome error JobRunRecord :=
  (with_claimed ({[id]} ∪ claimed s) s, Ok (getJob s id)).

Fixpoint claim_loop (picks : list (string * Time)) : M store JobRunRecord :=
  match picks with
  | [] => mfail ErrNoQueuedJob
  | pick :: rest =>
      fun s =>
        match dependencyStateLocked s (fst pick) with
        | depsBlocked => claim_loop rest s
        | depsFailed =>
            if bool_decide (JCondition (getJob s (fst pick)) ≠ "")
            then takeClaim (fst pick) s
            else claim_loop rest (skipJob (fst pick) s)
        | depsReady => takeClaim (fst pick) s
        end
  end.

Definition mem_ClaimNextQueuedJob : M store JobRunRecord :=
  fun s => claim_loop (candidates s) s.

Definition mem_ReleaseClaim (id : JobRunID) : M store unit :=
  fun s => (with_claimed (claimed s ∖ {[id]}) s, Ok tt).

Definition mem_AckDispatched (id : JobRunID) (obj : ActiveObject) (now : Time) : M store unit :=
  fun s =>
    match jobs s !! id with
    | None => (s, Err ErrJobRunNotFound)
    | Some job =>
        let commit st :=
          (with_claimed (claimed s ∖ {[id]})
             (putJob id (set_active (ObjName obj) (ObjUID obj) now (set_status st job)) s),
           Ok tt) in
        match JStatus job with
        | JobDispatched =>
            if bool_decide (JActiveName job ≠ "") && bool_decide (JActiveName job ≠ ObjName obj)
            then (s, Err (ErrAlreadyDispatched id (JActiveName job) (ObjName obj)))
            else commit JobDispatched
        | JobQueued => commit JobDispatched
        | st => (s, Err (ErrJobNotDispatchable id st))
        end
    end.

(** The record after an observation that moves the job to [target]. *)
Definition observed_job (target : JobRunStatus) (now : Time) (job : JobRunRecord) : JobRunRecord :=
  let job := set_status target job in
  match target with
  | JobRunning => set_times (Some now) (JFinishedAt job) job
  | JobSucceeded | JobFailed | JobSkipped =>
      set_times (orTime (JStartedAt job) now) (Some now) job
  | _ => job
  end.

Definition mem_ApplyObserved (id : JobRunID) (phase : ObservedPhase) (now : Time) : M store unit :=
  fun s =>
    match jobs s !! id with
    | None => (s, Err ErrJobRunNotFound)
    | Some job =>
        if job_terminal (JStatus job) then (s, Ok tt)
        else match JobStatusFromPhase phase with
             | Some target =>
                 if CanAdvanceJob (JStatus job) target
                 then (refreshRunLocked (JRunID job) now
                         (putJob id (observed_job target now job) s), Ok tt)
                 else (s, Ok tt)
             | None => (refreshRunLocked (JRunID job) now s, Ok tt)
             end
    end.

(** One iteration of the loop of [CancelRun]. *)
Definition cancelJob (now : Time) (s : store) (jobID : string) : store :=
  let job := getJob s jobID in
  let s1 := match TransitionJob (JStatus job) JobCancelled with
            | (next, None) =>
                putJob jobID (set_times (JStartedAt job) (Some now) (set_status next job)) s
            | (_, Some _) => s
            end in
  with_claimed (claimed s1 ∖ {[jobID]}) s1.

Definition mem_CancelRun (id : RunID) (now : Time) : M store unit :=
  fun s =>
    match runs s !! id with
    | None => (s, Err ErrRunNotFound)
    | Some run =>
        if run_terminal (RStatus run) then
          if bool_decide (RStatus run = RunCancelled) then (s, Ok tt)
          else (s, Err (ErrRunAlreadyTerminal id (RStatus run)))
        else
          let s1 := fold_left (cancelJob now) (getRunJobs s id) s in
          (with_runs (<[id := set_run RunCancelled (Some now) run]> (runs s1)) s1, Ok tt)
    end.

Definition retryJob (newID : string) (orig : JobRunRecord) (now : Time) : JobRunRecord := {|
  JID := newID; JRunID := JRunID orig; JJobKey := JJobKey orig;
  JRunnerClass := JRunnerClass orig; JDependsOn := JDependsOn orig;
  JMatrix := JMatrix orig; JPlanDigest := JPlanDigest orig;
  JCondition := JCondition orig; JStatus := JobQueued; JAttempt := JAttempt orig + 1;
  JActiveName := ""; JActiveUID := ""; JCreatedAt := now; JDispatchedAt := None;
  JStartedAt := None; JFinishedAt := None; JActiveCollectedAt := None |}.

Definition is_next_attempt (orig j : JobRunRecord) : Prop :=
  JJobKey j = JJobKey orig ∧ JAttempt j = (JAttempt orig + 1)%Z.

#[export] Instance is_next_attempt_dec orig j : Decision (is_next_attempt orig j).
Proof. unfold is_next_attempt. apply _. Defined.

Definition reopenRun (runID : string) (s : store) : store :=
  match runs s !! runID with
  | Some run =>
      if run_terminal (RStatus run)
      then with_runs (<[runID := set_run RunQueued None run]> (runs s)) s
      else s
  | None => s
  end.

Definition mem_RerequestJob (id : JobRunID) (now : Time) : M store JobRunID :=
  fun s =>
    match jobs s !! id with
    | None => (s, Err ErrJobRunNotFound)
    | Some orig =>
        match List.find (fun jid => bool_decide (is_next_attempt orig (getJob s jid)))
                (getRunJobs s (JRunID orig)) with
        | Some jid => (s, Ok (JID (getJob s jid)))
        | None =>
            let newID := newid (minted s) in
            let s1 := putJob newID (retryJob newID orig now) (with_minted (S (minted s)) s) in
            let s2 := with_runJobs
              (<[JRunID orig := getRunJobs s1 (JRunID orig) ++ [newID]]> (runJobs s1)) s1 in
            match byJobKey s2 !! JRunID orig with
            | None => (s2, Panic)  (** assignment to an entry of a nil map *)
            | Some idx =>
                (reopenRun (JRunID orig)
                   (with_byJobKey (<[JRunID orig := <[JJobKey orig := newID]> idx]> (byJobKey s2)) s2),
                 Ok newID)
            end
        end
    end.

Definition mem_MarkCollected (id : JobRunID) (now : Time) : M store unit :=
  fun s =>
    match jobs s !! id with
    | None => (s, Err ErrJobRunNotFound)
    | Some job =>
        match JActiveCollectedAt job with
        | None => (putJob id (set_collected now job) s, Ok tt)
        | Some _ => (s, Ok tt)
        end
    end.

Definition sortedRunIDsLocked (s : store) : list string :=
  sort_strings (map_to_list (runs s)).*1.

(** [Runs]: every run record, in the order of the identifiers. *)
Definition mem_Runs (s : store) : list RunRecord := omap (fun id => runs s !! id) (sortedRunIDsLocked s).

Definition gc_ready (j : JobRunRecord) : bool :=
  job_terminal (JStatus j) &&
  match JActiveCollectedAt j with None => true | Some _ => false end.

Definition gc_ready_of (s : store) (id : string) : list JobRunRecord :=
  match runs s !! id with
  | Some run =>
      if run_terminal (RStatus run)
      then List.filter gc_ready (map (getJob s) (getRunJobs s id))
      else []
  | None => []
  end.

Definition mem_ListGCReadyJobs : M store (list JobRunRecord) :=
  fun s => (s, Ok (flat_map (gc_ready_of s) (sortedRunIDsLocked s))).

#[export] Instance memory_durable_store : DurableStore store := {|
  RecordDelivery := mem_RecordDelivery;
  CreateRun := mem_CreateRun;
  GetRun := mem_GetRun;
  GetJobRun := mem_GetJobRun;
  ListJobRuns := mem_ListJobRuns;
  CountQueuedJobs := mem_CountQueuedJobs;
  ListQueuedJobs := mem_ListQueuedJobs;
  ClaimNextQueuedJob := mem_ClaimNextQueuedJob;
  ReleaseClaim := mem_ReleaseClaim;
  AckDispatched := mem_AckDispatched;
  ApplyObserved := mem_ApplyObserved;
  CancelRun := mem_CancelRun;
  ListGCReadyJobs := mem_ListGCReadyJobs;
  MarkCollected := mem_MarkCollected;
  RerequestJob := mem_RerequestJob
|}.
End durable_store.

(** ** The in-memory active store *)

Record activeStore := {
  objects : gmap string ActiveObject;
  uids : gmap string string;
  CreateCalls : nat;
  DeleteCalls : nat;
  Created : nat
}.

Definition NewActiveStore : activeStore :=
  {| objects := ∅; uids := ∅; CreateCalls := 0; DeleteCalls := 0; Created := 0 |}.

Section active_store.
Context `{Unicode}.

Definition mem_CreateOrGet (id : JobRunID) : M activeStore ActiveObject :=
  fun a =>
    match objects a !! id with
    | Some obj =>
        ({| objects := objects a; uids := uids a; CreateCalls := S (CreateCalls a);
            DeleteCalls := DeleteCalls a; Created := Created a |}, Ok obj)
    | None =>
        let name := CRName id in
        let uid0 := default "" (uids a !! name) in
        let uid := if bool_decide (uid0 = "") then "uid-" +:+ name else uid0 in
        let uids' := if bool_decide (uid0 = "") then <[name := uid]> (uids a) else uids a in
        let obj := {| ObjName := name; ObjUID := uid |} in
        ({| objects := <[id := obj]> (objects a); uids := uids';
            CreateCalls := S (CreateCalls a); DeleteCalls := DeleteCalls a;
            Created := S (Created a) |}, Ok obj)
    end.

(** [Objects]: a copy of the live objects. *)
Definition mem_Objects (a : activeStore) : gmap string ActiveObject := objects a.

Definition mem_Delete (id : JobRunID) : M activeStore unit :=
  fun a =>
    ({| objects := delete id (objects a); uids := uids a; CreateCalls := CreateCalls a;
        DeleteCalls := S (DeleteCalls a); Created := Created a |}, Ok tt).

#[export] Instance memory_active_store : ActiveExecutionStore activeStore := {|
  CreateOrGet := mem_CreateOrGet;
  DeleteActive := mem_Delete
|}.
End active_store.
