(* ===== verification/StoreInvariant.v ===== *)
(** * Invariant and monotonicity of the in-memory durable store

    [store_wf] is the well-formedness of the store's maps: identifiers,
    ownership of jobs by runs, the delivery-to-run binding, finish times, and
    the agreement of a run's terminality with its jobs.  Every operation
    preserves it and only moves existing job records forward ([job_le]); both
    are lifted to every reachable store by rule induction over [step]. *)

From S2P Require Import Prelude GoStrings RunModel SchedulerPort MemoryStore.

(** ** How a job record may evolve *)

Record job_le (a b : JobRunRecord) : Prop := {
  le_id : JID b = JID a;
  le_run : JRunID b = JRunID a;
  le_key : JJobKey b = JJobKey a;
  le_deps : JDependsOn b = JDependsOn a;
  le_cond : JCondition b = JCondition a;
  le_attempt : JAttempt b = JAttempt a;
  le_created : JCreatedAt b = JCreatedAt a;
  le_rank : jobRank (JStatus a) ≤ jobRank (JStatus b);
  le_sticky : job_terminal (JStatus a) = true →
              JStatus b = JStatus a ∧ JFinishedAt b = JFinishedAt a;
  le_known : job_known (JStatus a) = true → job_known (JStatus b) = true
}.

#[export] Instance job_le_refl : Reflexive job_le.
Proof. intros a. by constructor. Qed.

#[export] Instance job_le_trans : Transitive job_le.
Proof.
  intros a b c Hab Hbc. destruct Hab, Hbc. constructor; try congruence; try lia; try tauto.
  intros Ht. destruct (le_sticky0 Ht) as [Hs Hf]. rewrite Hs in *.
  destruct (le_sticky1 Ht) as [-> ->]. done.
Qed.

(** The records the operations write. *)
Lemma job_le_step j st fin started :
  job_known (JStatus j) = true →
  job_terminal (JStatus j) = false → jobRank (JStatus j) ≤ jobRank st → job_known st = true →
  job_le j (set_times started fin (set_status st j)).
Proof. intros Hk Ht Hr Hs. constructor; simpl; try done; congruence. Qed.

Lemma job_le_observed j target now :
  job_terminal (JStatus j) = false → job_known target = true →
  CanAdvanceJob (JStatus j) target = true → job_le j (observed_job target now j).
Proof.
  intros Ht Hk Hadv. pose proof (CanAdvanceJob_rank _ _ Hadv).
  unfold observed_job. destruct target; constructor; simpl in *; try done; congruence.
Qed.

Lemma job_le_active j name uid t :
  JStatus j = JobQueued ∨ JStatus j = JobDispatched →
  job_le j (set_active name uid t (set_status JobDispatched j)).
Proof. intros [H|H]; constructor; simpl; rewrite ?H; simpl; try done; lia. Qed.

Lemma job_le_collected j t : job_le j (set_collected t j).
Proof. by constructor. Qed.

#[export] Hint Resolve job_le_step job_le_observed job_le_active job_le_collected : forgelet.

(** ** Evolution of the store *)

Definition jobs_le (s s' : store) : Prop :=
  ∀ id j, jobs s !! id = Some j → ∃ j', jobs s' !! id = Some j' ∧ job_le j j'.

#[export] Instance jobs_le_refl : Reflexive jobs_le.
Proof. intros s id j Hj. eauto using job_le_refl. Qed.

#[export] Instance jobs_le_trans : Transitive jobs_le.
Proof.
  intros s1 s2 s3 H12 H23 id j Hj.
  destruct (H12 _ _ Hj) as (j2 & Hj2 & ?). destruct (H23 _ _ Hj2) as (j3 & ? & ?).
  exists j3. split; [done|by etrans].
Qed.

Lemma jobs_le_eq s s' : jobs s' = jobs s → jobs_le s s'.
Proof. intros E id j Hj. exists j. rewrite E. by split; [|reflexivity]. Qed.

Lemma jobs_le_put s id j j' :
  jobs s !! id = Some j → job_le j j' → jobs_le s (putJob id j' s).
Proof.
  intros Hj Hle id2 j2 Hj2. simpl. destruct (decide (id = id2)) as [<-|Hne].
  - rewrite lookup_insert_eq. exists j'. by simplify_eq.
  - rewrite lookup_insert_ne by done. exists j2. by split; [|reflexivity].
Qed.

(** A fresh record does not disturb the others. *)
Lemma jobs_le_put_new s id j' : jobs s !! id = None → jobs_le s (putJob id j' s).
Proof.
  intros Hn id2 j2 Hj2. exists j2. split; [|reflexivity].
  simpl. rewrite lookup_insert_ne; [done|]. congruence.
Qed.

(** ** Well-formedness *)

Section invariant.
Context `{MemoryEnv}.

Definition minted_id (s : store) (id : string) : Prop := ∃ n, n < minted s ∧ id = newid n.

(** Everything but the agreement between runs and jobs. *)
Record store_wf0 (s : store) : Prop := {
  wf_job_id : ∀ id j, jobs s !! id = Some j → JID j = id;
  wf_job_known : ∀ id j, jobs s !! id = Some j → job_known (JStatus j) = true;
  wf_job_minted : ∀ id j, jobs s !! id = Some j → minted_id s id ∧ minted_id s (JRunID j);
  wf_job_finished : ∀ id j, jobs s !! id = Some j →
    (job_terminal (JStatus j) = true ↔ is_Some (JFinishedAt j));
  wf_job_owned : ∀ id j, jobs s !! id = Some j → is_Some (runs s !! JRunID j) →
    id ∈ getRunJobs s (JRunID j);
  wf_run_id : ∀ r run, runs s !! r = Some run → RID run = r;
  wf_run_minted : ∀ r run, runs s !! r = Some run → minted_id s r;
  wf_run_finished : ∀ r run, runs s !! r = Some run →
    (run_terminal (RStatus run) = true ↔ is_Some (RFinishedAt run));
  wf_run_jobs : ∀ r run, runs s !! r = Some run → ∃ l, runJobs s !! r = Some l ∧ l ≠ [];
  wf_run_index : ∀ r, is_Some (runs s !! r) ↔ is_Some (byJobKey s !! r);
  wf_runJobs : ∀ r l id, runJobs s !! r = Some l → id ∈ l →
    ∃ j, jobs s !! id = Some j ∧ JRunID j = r;
  wf_index : ∀ r idx k id, byJobKey s !! r = Some idx → idx !! k = Some id →
    id ∈ getRunJobs s r ∧ JJobKey (getJob s id) = k;
  wf_delivery : ∀ k rec, deliveries s !! k = Some rec → DRRunID rec ≠ "" →
    ∃ run, runs s !! DRRunID rec = Some run ∧ RDelivery run = k;
  wf_run_delivery : ∀ r run, runs s !! r = Some run →
    ∃ rec, deliveries s !! RDelivery run = Some rec ∧ DRRunID rec = r
}.

(** All jobs of a run are terminal. *)
Definition all_terminal (s : store) (r : string) : Prop :=
  ∀ id, id ∈ getRunJobs s r → job_terminal (JStatus (getJob s id)) = true.

Definition run_agrees (s : store) (r : string) : Prop :=
  ∀ run, runs s !! r = Some run → (run_terminal (RStatus run) = true ↔ all_terminal s r).

Record store_wf (s : store) : Prop := {
  wf_base : store_wf0 s;
  wf_agree : ∀ r, run_agrees s r
}.

(** *** Lookup helpers *)

Lemma getJob_Some s id j : jobs s !! id = Some j → getJob s id = j.
Proof. unfold getJob. by intros ->. Qed.

Lemma getJob_put s id j id' :
  getJob (putJob id j s) id' = if decide (id = id') then j else getJob s id'.
Proof. unfold getJob; simpl. rewrite lookup_insert. by case_decide. Qed.

Lemma getRunJobs_Some s r l : runJobs s !! r = Some l → getRunJobs s r = l.
Proof. unfold getRunJobs. by intros ->. Qed.

Lemma elem_getRunJobs s r id : id ∈ getRunJobs s r → ∃ l, runJobs s !! r = Some l ∧ id ∈ l.
Proof.
  unfold getRunJobs. destruct (runJobs s !! r) as [l|]; simpl; [eauto|].
  intros Hin. by apply not_elem_of_nil in Hin.
Qed.

Lemma run_job_lookup s r id :
  store_wf0 s → id ∈ getRunJobs s r → ∃ j, jobs s !! id = Some j ∧ JRunID j = r.
Proof. intros Hwf (l & Hl & Hin)%elem_getRunJobs. by eapply wf_runJobs. Qed.

(** *** Primitive updates *)

(** Replacing a job record by a later version of itself. *)
Lemma putJob_wf0 s id j j' :
  store_wf0 s → jobs s !! id = Some j → job_le j j' →
  (job_terminal (JStatus j') = true ↔ is_Some (JFinishedAt j')) →
  store_wf0 (putJob id j' s).
Proof.
  intros Hwf Hj Hle Hfin.
  assert (∀ id2 j2, jobs (putJob id j' s) !! id2 = Some j2 →
    (id2 = id ∧ j2 = j') ∨ jobs s !! id2 = Some j2) as Hcase.
  { intros id2 j2. simpl. rewrite lookup_insert. case_decide; naive_solver. }
  assert (∀ id2, JJobKey (getJob (putJob id j' s) id2) = JJobKey (getJob s id2)) as Hkey.
  { intros id2. rewrite getJob_put. case_decide; [subst|done].
    by rewrite (getJob_Some _ _ _ Hj), (le_key _ _ Hle). }
  destruct Hwf, Hle. split; simpl; try done.
  - intros id2 j2 [[-> ->]|?]%Hcase; [|eauto]. rewrite le_id0. eauto.
  - intros id2 j2 [[-> ->]|?]%Hcase; eauto.
  - intros id2 j2 [[-> ->]|?]%Hcase; [|eauto]. rewrite le_run0. eauto.
  - intros id2 j2 [[-> ->]|?]%Hcase; eauto.
  - intros id2 j2 [[-> ->]|?]%Hcase; [|eauto]. rewrite le_run0. eauto.
  - intros r l id2 Hl Hin. destruct (wf_runJobs0 _ _ _ Hl Hin) as (j2 & Hj2 & Hr).
    destruct (decide (id = id2)) as [<-|Hne].
    + exists j'. rewrite lookup_insert_eq. split; [done|]. by simplify_eq.
    + exists j2. by rewrite lookup_insert_ne.
  - intros r idx k id2 Hidx Hk. rewrite Hkey. eauto.
Qed.

(** Replacing a run record keeps the rest. *)
Lemma set_run_wf0 s r run st fin :
  store_wf0 s → runs s !! r = Some run → (run_terminal st = true ↔ is_Some fin) →
  store_wf0 (with_runs (<[r := set_run st fin run]> (runs s)) s).
Proof.
  intros Hwf Hr Hfin.
  assert (∀ r2 run2, <[r := set_run st fin run]> (runs s) !! r2 = Some run2 →
    ∃ run0, runs s !! r2 = Some run0 ∧ RID run2 = RID run0 ∧ RDelivery run2 = RDelivery run0 ∧
      (run_terminal (RStatus run2) = true ↔ is_Some (RFinishedAt run2))) as Hcase.
  { intros r2 run2. rewrite lookup_insert. case_decide; subst.
    - intros [= <-]. exists run. simpl. repeat split; try done; by apply Hfin.
    - intros ?. exists run2. repeat split; try done; by eapply wf_run_finished. }
  assert (∀ r2, is_Some (<[r := set_run st fin run]> (runs s) !! r2) ↔ is_Some (runs s !! r2)) as Hdom.
  { intros r2. rewrite lookup_insert. case_decide; [subst|done]. split; eauto. }
  destruct Hwf. split; simpl; try done.
  - intros id j Hj. rewrite Hdom. eauto.
  - intros r2 run2 (run0 & ? & -> & _)%Hcase. eauto.
  - intros r2 run2 (run0 & ? & _)%Hcase. by eapply wf_run_minted0.
  - intros r2 run2 (run0 & _ & _ & _ & ?)%Hcase. done.
  - intros r2 run2 (run0 & ? & _)%Hcase. eauto.
  - intros r2. by rewrite Hdom.
  - intros k rec Hk Hne. destruct (wf_delivery0 _ _ Hk Hne) as (run0 & Hr0 & Hd).
    rewrite lookup_insert. case_decide; [subst|eauto]. eexists; split; [done|].
    simplify_eq. done.
  - intros r2 run2 (run0 & ? & _ & -> & _)%Hcase. eauto.
Qed.

(** Updates that touch neither runs, jobs nor deliveries. *)
Lemma wf0_ext s s' :
  deliveries s' = deliveries s → runs s' = runs s → jobs s' = jobs s →
  runJobs s' = runJobs s → byJobKey s' = byJobKey s → minted s' = minted s →
  store_wf0 s → store_wf0 s'.
Proof.
  intros Ed Er Ej Erj Eb Em []. split; unfold getRunJobs, getJob, minted_id in *;
    rewrite ?Ed, ?Er, ?Ej, ?Erj, ?Eb, ?Em; try done.
Qed.

Lemma agrees_ext s s' r :
  runs s' = runs s → jobs s' = jobs s → runJobs s' = runJobs s →
  run_agrees s r → run_agrees s' r.
Proof.
  intros Er Ej Erj Ha run. unfold run_agrees, all_terminal, getRunJobs, getJob in *.
  rewrite Er, Ej, Erj. apply Ha.
Qed.

Lemma wf_ext s s' :
  deliveries s' = deliveries s → runs s' = runs s → jobs s' = jobs s →
  runJobs s' = runJobs s → byJobKey s' = byJobKey s → minted s' = minted s →
  store_wf s → store_wf s'.
Proof.
  intros ?????? [Hb Ha]. split; [by eapply wf0_ext|]. intros r. by eapply agrees_ext.
Qed.

Lemma with_claimed_wf v s : store_wf s → store_wf (with_claimed v s).
Proof. by apply wf_ext. Qed.

Lemma with_ticks_wf v s : store_wf s → store_wf (with_ticks v s).
Proof. by apply wf_ext. Qed.

(** *** Agreement of runs and jobs *)

(** A job update only concerns the run that owns the job. *)
Lemma putJob_agrees_other s id j j' r :
  store_wf0 s → jobs s !! id = Some j → JRunID j ≠ r →
  run_agrees s r → run_agrees (putJob id j' s) r.
Proof.
  intros Hwf Hj Hne Ha run Hr. rewrite (Ha run Hr). unfold all_terminal.
  change (getRunJobs (putJob id j' s) r) with (getRunJobs s r).
  split; intros Hall id2 Hin; specialize (Hall id2 Hin); rewrite getJob_put in *;
    (case_decide; [subst|done]); destruct (run_job_lookup _ _ _ Hwf Hin) as (? & ? & ?);
    simplify_eq.
Qed.

(** An update that keeps a job open (or closed) keeps every agreement. *)
Lemma putJob_agrees_same s id j j' r :
  jobs s !! id = Some j → job_terminal (JStatus j') = job_terminal (JStatus j) →
  run_agrees s r → run_agrees (putJob id j' s) r.
Proof.
  intros Hj Ht Ha run Hr. rewrite (Ha run Hr). unfold all_terminal.
  change (getRunJobs (putJob id j' s) r) with (getRunJobs s r).
  pose proof (getJob_Some _ _ _ Hj) as Hg.
  split; intros Hall id2 Hin; specialize (Hall id2 Hin); rewrite getJob_put in *;
    (case_decide; [subst|done]); congruence.
Qed.

Lemma putJob_wf_same s id j j' :
  store_wf s → jobs s !! id = Some j → job_le j j' →
  job_terminal (JStatus j') = job_terminal (JStatus j) → JFinishedAt j' = JFinishedAt j →
  store_wf (putJob id j' s).
Proof.
  intros [Hb Ha] Hj Hle Ht Hf. split.
  - eapply putJob_wf0; [done..|]. rewrite Ht, Hf. by eapply wf_job_finished.
  - intros r. eapply putJob_agrees_same; eauto.
Qed.

Lemma run_statuses_elem s r st :
  st ∈ run_statuses s r ↔ ∃ id, id ∈ getRunJobs s r ∧ st = JStatus (getJob s id).
Proof.
  unfold run_statuses. change @map with @list_fmap. rewrite list_elem_of_fmap. naive_solver.
Qed.

(** The aggregate of known statuses is terminal exactly when they all are. *)
Lemma aggregate_terminal l :
  l ≠ [] → (∀ st, st ∈ l → job_known st = true) →
  run_terminal (AggregateRunStatus l) = true ↔ ∀ st, st ∈ l → job_terminal st = true.
Proof.
  intros Hne Hk. unfold AggregateRunStatus.
  destruct (agg_flags_spec l agg0) as (Hrun & Hst & Hall & Hfail & Hcan & Hsuc & Hskip).
  simpl in *. set (f := fold_left agg_step l agg0) in *.
  rewrite bool_decide_eq_false_2 by (by destruct l).
  destruct (AgRunning f) eqn:Er; simpl.
  { split; [done|]. intros Hall'. apply proj1 in Hrun.
    destruct Hrun as [?|Hin]; [done..|]. by specialize (Hall' _ Hin). }
  destruct (AgAllTerminal f) eqn:Ea; simpl.
  - assert (∀ st, st ∈ l → job_terminal st = true) as Hterm.
    { intros st Hin. apply Hall; auto. }
    destruct l as [|st l']; [done|]. split; [done|]. intros _.
    specialize (Hterm st ltac:(set_solver)) as Hst1.
    destruct (AgFailed f); [done|]. destruct (AgCancelled f); [done|].
    destruct st; simpl in *; try done.
    + rewrite (proj2 Hsuc) by (right; set_solver). done.
    + exfalso. destruct Hfail as [_ Hf]. discriminate Hf. right; set_solver.
    + exfalso. destruct Hcan as [_ Hf]. discriminate Hf. right; set_solver.
    + rewrite (proj2 Hskip) by (right; set_solver). by rewrite orb_true_r.
  - split.
    + by destruct (AgStarted f).
    + intros Hterm. exfalso. destruct Hall as [_ Hall]. discriminate Hall. auto.
Qed.

(** [refreshRunLocked] restores the agreement of its run. *)
Lemma refresh_wf s r now :
  store_wf0 s → (∀ r', r' ≠ r → run_agrees s r') →
  (∀ run, runs s !! r = Some run → run_terminal (RStatus run) = true → all_terminal s r) →
  store_wf (refreshRunLocked r now s).
Proof.
  intros Hwf Hother Hopen. unfold refreshRunLocked.
  destruct (runs s !! r) as [run|] eqn:Hr.
  2: { split; [done|]. intros r'. destruct (decide (r' = r)) as [->|]; [|by apply Hother].
       intros run' ?. congruence. }
  destruct (run_terminal (RStatus run)) eqn:Ht.
  { split; [done|]. intros r'. destruct (decide (r' = r)) as [->|]; [|by apply Hother].
    intros run' ?. simplify_eq. split; [intros _; by eapply Hopen|done]. }
  set (next := AggregateRunStatus (run_statuses s r)).
  assert (run_terminal next = true ↔ all_terminal s r) as Hagg.
  { unfold next. rewrite aggregate_terminal.
    - unfold all_terminal. split.
      + intros Hall id Hin. apply Hall, run_statuses_elem. eauto.
      + intros Hall st (id & Hin & ->)%run_statuses_elem. auto.
    - unfold run_statuses. destruct (wf_run_jobs _ Hwf _ _ Hr) as (l & Hl & Hne).
      rewrite (getRunJobs_Some _ _ _ Hl). by destruct l.
    - intros st (id & Hin & ->)%run_statuses_elem.
      destruct (run_job_lookup _ _ _ Hwf Hin) as (j & Hj & _).
      rewrite (getJob_Some _ _ _ Hj). by eapply wf_job_known. }
  destruct (CanAdvanceRun (RStatus run) next && negb (bool_decide (next = RStatus run))) eqn:Hadv.
  - split.
    + apply set_run_wf0; [done..|]. destruct (run_terminal next) eqn:Hn.
      * split; [by eexists|done].
      * rewrite <-(wf_run_finished _ Hwf _ _ Hr). by rewrite Ht.
    + intros r' run'. simpl. rewrite lookup_insert. destruct (decide (r = r')) as [<-|Hne].
      * intros [= <-]. simpl. exact Hagg.
      * intros Hr'. apply (Hother r'); [congruence|done].
  - split; [done|]. intros r'. destruct (decide (r' = r)) as [->|]; [|by apply Hother].
    intros run' ?. simplify_eq. rewrite <-Hagg, Ht. split; [done|].
    intros Hn. apply andb_false_iff in Hadv as [Hadv|Hadv].
    + unfold CanAdvanceRun in Hadv. rewrite Ht, Hn in Hadv. by case_bool_decide.
    + apply negb_false_iff, bool_decide_eq_true in Hadv. congruence.
Qed.

(** Closing (or moving) an open job and refreshing its run. *)
Lemma put_refresh_wf s id j j' now :
  store_wf s → jobs s !! id = Some j → job_terminal (JStatus j) = false → job_le j j' →
  (job_terminal (JStatus j') = true ↔ is_Some (JFinishedAt j')) →
  store_wf (refreshRunLocked (JRunID j) now (putJob id j' s)).
Proof.
  intros [Hb Ha] Hj Hopen Hle Hfin. apply refresh_wf.
  - by eapply putJob_wf0.
  - intros r' Hne. eapply putJob_agrees_other; eauto.
  - intros run Hr Ht. exfalso. assert (id ∈ getRunJobs s (JRunID j)) as Hin.
    { eapply wf_job_owned; eauto. }
    apply (Ha (JRunID j) run Hr) in Ht. specialize (Ht _ Hin).
    rewrite (getJob_Some _ _ _ Hj) in Ht. congruence.
Qed.

Lemma refresh_jobs r now s : jobs (refreshRunLocked r now s) = jobs s.
Proof.
  unfold refreshRunLocked. destruct (runs s !! r); [|done].
  destruct (run_terminal _); [done|]. by destruct (_ && _).
Qed.

End invariant.
