(* ===== verification/StoreOps.v ===== *)
(** * Every operation of the in-memory store keeps its invariant

    The operations of the port as an inductive type [op], their effect [exec]
    on the store, the step relation, and the lemmas that each operation
    preserves [store_wf] and only moves job records forward.  At the end, a
    concrete store and history, on which the theorems about the store are
    instantiated. *)

From Stdlib Require Import Ascii.
From S2P Require Import Prelude GoStrings RunModel SchedulerPort MemoryStore StoreInvariant.

(** ** Operations as data *)

Inductive op :=
  | OpRecordDelivery (d : Delivery)
  | OpCreateRun (seed : RunSeed) (now : Time)
  | OpClaimNextQueuedJob
  | OpReleaseClaim (id : JobRunID)
  | OpAckDispatched (id : JobRunID) (obj : ActiveObject) (now : Time)
  | OpApplyObserved (id : JobRunID) (phase : ObservedPhase) (now : Time)
  | OpCancelRun (id : RunID) (now : Time)
  | OpRerequestJob (id : JobRunID) (now : Time)
  | OpMarkCollected (id : JobRunID) (now : Time).

Section ops.
Context `{MemoryEnv}.

Definition exec (o : op) (s : store) : store :=
  match o with
  | OpRecordDelivery d => fst (mem_RecordDelivery d s)
  | OpCreateRun seed now => fst (mem_CreateRun seed now s)
  | OpClaimNextQueuedJob => fst (mem_ClaimNextQueuedJob s)
  | OpReleaseClaim id => fst (mem_ReleaseClaim id s)
  | OpAckDispatched id obj now => fst (mem_AckDispatched id obj now s)
  | OpApplyObserved id phase now => fst (mem_ApplyObserved id phase now s)
  | OpCancelRun id now => fst (mem_CancelRun id now s)
  | OpRerequestJob id now => fst (mem_RerequestJob id now s)
  | OpMarkCollected id now => fst (mem_MarkCollected id now s)
  end.

Inductive step : store → store → Prop :=
  | step_op o s : step s (exec o s).

Definition reachable (s : store) : Prop := rtc step NewDurableStore s.

Context `{!MemoryEnvOk}.

(** ** Fresh identifiers *)

Lemma minted_id_S s id : minted_id s id → minted_id (with_minted (S (minted s)) s) id.
Proof. intros (n & Hn & ->). exists n. simpl. split; [lia|done]. Qed.

Lemma minted_id_new s : minted_id (with_minted (S (minted s)) s) (newid (minted s)).
Proof. exists (minted s). simpl. split; [lia|done]. Qed.

Lemma not_minted s : ¬ minted_id s (newid (minted s)).
Proof. intros (n & Hn & E%newid_inj). lia. Qed.

Lemma fresh_job s : store_wf0 s → jobs s !! newid (minted s) = None.
Proof.
  intros Hwf. destruct (jobs s !! newid (minted s)) eqn:E; [|done].
  exfalso. apply (not_minted s). by apply (wf_job_minted _ Hwf _ _ E).
Qed.

Lemma fresh_run s : store_wf0 s → runs s !! newid (minted s) = None.
Proof.
  intros Hwf. destruct (runs s !! newid (minted s)) eqn:E; [|done].
  exfalso. apply (not_minted s). by apply (wf_run_minted _ Hwf _ _ E).
Qed.

(** A record as the store creates it: queued and not finished. *)
Definition fresh_record (id r : string) (j : JobRunRecord) : Prop :=
  JID j = id ∧ JRunID j = r ∧ JStatus j = JobQueued ∧ JFinishedAt j = None.

Definition addJob (j : JobRunRecord) (s : store) : store :=
  putJob (newid (minted s)) j (with_minted (S (minted s)) s).

Lemma addJob_lookup j s id :
  jobs (addJob j s) !! id = if decide (newid (minted s) = id) then Some j else jobs s !! id.
Proof. simpl. by rewrite lookup_insert. Qed.

Lemma addJob_cases j s id j' :
  jobs (addJob j s) !! id = Some j' → (id = newid (minted s) ∧ j' = j) ∨ jobs s !! id = Some j'.
Proof. rewrite addJob_lookup. case_decide; naive_solver. Qed.

Lemma addJob_getJob j s id : id ≠ newid (minted s) → getJob (addJob j s) id = getJob s id.
Proof. intros Hne. unfold getJob. rewrite addJob_lookup. by rewrite decide_False. Qed.

Lemma addJob_le j s : store_wf0 s → jobs_le s (addJob j s).
Proof.
  intros Hwf. etrans; [|apply jobs_le_put_new; exact (fresh_job s Hwf)]. by apply jobs_le_eq.
Qed.

Lemma run_job_minted s r id : store_wf0 s → id ∈ getRunJobs s r → id ≠ newid (minted s).
Proof.
  intros Hwf Hin ->. destruct (run_job_lookup _ _ _ Hwf Hin) as (j & Hj & _).
  by rewrite fresh_job in Hj.
Qed.

(** A new record whose run does not exist (yet). *)
Lemma addJob_wf0 s r j :
  store_wf0 s → fresh_record (newid (minted s)) r j → minted_id s r →
  runs s !! r = None → store_wf0 (addJob j s).
Proof.
  intros Hwf (Hid & Hr & Hst & Hf) Hm Hn. pose proof Hwf as []. split; simpl; try done.
  - intros id j' [[-> ->]|?]%addJob_cases; eauto.
  - intros id j' [[-> ->]|?]%addJob_cases; [by rewrite Hst|eauto].
  - intros id j' [[-> ->]|Hj]%addJob_cases.
    + rewrite Hr. split; [apply minted_id_new|by apply minted_id_S].
    + destruct (wf_job_minted _ _ Hj). split; by apply minted_id_S.
  - intros id j' [[-> ->]|?]%addJob_cases; [rewrite Hst, Hf; by split; [|intros []]|eauto].
  - intros id j' [[-> ->]|?]%addJob_cases; [rewrite Hr, Hn; by intros []|eauto].
  - intros r' run Hr'. eapply minted_id_S; eauto.
  - intros r' l id Hl Hin. destruct (wf_runJobs _ _ _ Hl Hin) as (j' & Hj' & Hrun).
    exists j'. split; [|done]. rewrite lookup_insert_ne; [done|].
    intros <-. by rewrite fresh_job in Hj'.
  - intros r' idx k id Hidx Hk. destruct (wf_index _ _ _ _ Hidx Hk) as [Hin Hkey].
    split; [done|]. change (JJobKey (getJob (addJob j s) id) = k).
    rewrite addJob_getJob; [done|]. by eapply run_job_minted.
Qed.

Lemma addJob_agrees s j r :
  store_wf0 s → run_agrees s r → run_agrees (addJob j s) r.
Proof.
  intros Hwf Ha run Hr. rewrite (Ha run Hr). unfold all_terminal.
  change (getRunJobs (addJob j s) r) with (getRunJobs s r).
  split; intros Hall id Hin; specialize (Hall id Hin);
    rewrite addJob_getJob in *; eauto using run_job_minted.
Qed.

(** ** RecordDelivery *)

Lemma RecordDelivery_wf d s : store_wf s → store_wf (fst (mem_RecordDelivery d s)).
Proof.
  intros [Hb Ha]. unfold mem_RecordDelivery.
  destruct (deliveries s !! DKey d) as [rec|] eqn:E; simpl; [by split|].
  split; [|intros r; by apply (agrees_ext s)].
  pose proof Hb as []. split; simpl; try done.
  - intros k rec. rewrite lookup_insert. case_decide; [|by eauto]. by intros [= <-].
  - intros r run Hr. destruct (wf_run_delivery _ _ Hr) as (rec & Hrec & Hd).
    exists rec. split; [|done]. rewrite lookup_insert_ne; [done|]. congruence.
Qed.

Lemma RecordDelivery_jobs d s : jobs (fst (mem_RecordDelivery d s)) = jobs s.
Proof. unfold mem_RecordDelivery. by case_match. Qed.

(** ** CreateRun *)

(** The jobs written by the loop so far, for the run about to be committed. *)
Record pending (s : store) (r : string) (ki : gmap string string) (ids : list string) : Prop := {
  pend_run : runs s !! r = None;
  pend_minted : minted_id s r;
  pend_all : ∀ id j, jobs s !! id = Some j → JRunID j = r → id ∈ ids;
  pend_ids : ∀ id, id ∈ ids → ∃ j, jobs s !! id = Some j ∧ JRunID j = r ∧ JStatus j = JobQueued;
  pend_index : ∀ k id, ki !! k = Some id → id ∈ ids ∧ JJobKey (getJob s id) = k
}.

Lemma newJob_fresh id r i now : fresh_record id r (newJob id r i now).
Proof. by repeat split. Qed.

Lemma pending_add s r ki ids intent now :
  store_wf0 s → pending s r ki ids →
  pending (addJob (newJob (newid (minted s)) r intent now) s) r
    (<[IJobKey intent := newid (minted s)]> ki) (ids ++ [newid (minted s)]).
Proof.
  intros Hwf []. split; simpl.
  - done.
  - by apply minted_id_S.
  - intros id j [[-> ->]|Hj]%addJob_cases Hr; apply elem_of_app; [right; set_solver|left; eauto].
  - intros id [Hin|Hin]%elem_of_app.
    + destruct (pend_ids0 _ Hin) as (j & Hj & ? & ?). exists j. split; [|done].
      rewrite lookup_insert_ne; [done|]. intros <-. by rewrite fresh_job in Hj.
    + apply list_elem_of_singleton in Hin as ->. rewrite lookup_insert_eq. eauto.
  - intros k id. rewrite lookup_insert. case_decide as Hk; subst.
    + intros [= <-]. split; [set_solver|]. unfold getJob; simpl. by rewrite lookup_insert_eq.
    + intros Hki. destruct (pend_index0 _ _ Hki) as [Hin Hkey]. split; [set_solver|].
      destruct (pend_ids0 _ Hin) as (j & Hj & _).
      change (JJobKey (getJob (addJob (newJob (newid (minted s)) r intent now) s) id) = k).
      rewrite addJob_getJob; [done|]. intros ->. by rewrite fresh_job in Hj.
Qed.

(** What the loop of [CreateRun] does, whatever its outcome. *)
Lemma createJobs_spec intents r now ki ids s s' res :
  store_wf s → pending s r ki ids →
  createJobs intents r now ki ids s = (s', res) →
  store_wf s' ∧ jobs_le s s' ∧ deliveries s' = deliveries s ∧ runs s' = runs s ∧
  runJobs s' = runJobs s ∧ byJobKey s' = byJobKey s ∧ claimed s' = claimed s ∧
  res ≠ Panic ∧
  ∀ ki' ids', res = Ok (ki', ids') →
    pending s' r ki' ids' ∧ length ids' = length ids + length intents.
Proof.
  revert ki ids s. induction intents as [|intent rest IH]; intros ki ids s Hwf Hp; simpl.
  - intros [= <- <-]. split_and!; try done. intros ki' ids' [= <- <-]. split; [done|lia].
  - destruct (ki !! IJobKey intent) eqn:Hki.
    { intros [= <- <-]. by split_and!. }
    intros Hloop. fold (addJob (newJob (newid (minted s)) r intent now) s) in Hloop.
    destruct Hwf as [Hb Ha]. pose proof Hp as [].
    apply IH in Hloop as (? & Hle & ? & ? & ? & ? & ? & ? & Hok); clear IH.
    + split_and!; try done.
      * etrans; [by apply addJob_le|done].
      * intros ki' ids' E. destruct (Hok _ _ E) as [? Hl]. split; [done|].
        rewrite Hl, length_app; simpl; lia.
    + split; [by eapply addJob_wf0; eauto using newJob_fresh|].
      intros r'. by apply addJob_agrees.
    + by apply pending_add.
Qed.

Lemma commitRun_wf s r seed now ki ids rec :
  store_wf s → pending s r ki ids → ids ≠ [] →
  deliveries s !! SDelivery seed = Some rec → DRRunID rec = "" →
  store_wf (commitRun r seed now ki ids s).
Proof.
  intros [Hb Ha] Hp Hne Hd Hempty. pose proof Hp as [].
  assert (r ≠ "") as Hrne. { destruct pend_minted0 as (n & _ & ->). apply newid_nonempty. }
  unfold commitRun, bindRun. simpl. rewrite Hd.
  set (s' := with_deliveries _ _).
  assert (∀ r', r' ≠ r → getRunJobs s' r' = getRunJobs s r') as Hrj.
  { intros r' Hr'. unfold getRunJobs, s'; simpl. by rewrite lookup_insert_ne. }
  assert (getRunJobs s' r = ids) as Hrj'.
  { unfold getRunJobs, s'; simpl. by rewrite lookup_insert_eq. }
  split.
  - pose proof Hb as []. split; simpl; try done.
    + intros id j Hj Hrun. destruct (decide (JRunID j = r)) as [<-|Hn].
      * rewrite Hrj'. eauto.
      * rewrite Hrj by done. rewrite lookup_insert_ne in Hrun by done. eauto.
    + intros r' run. rewrite lookup_insert. case_decide; [subst r'; by intros [= <-]|eauto].
    + intros r' run. rewrite lookup_insert. case_decide; [by subst r'|eauto].
    + intros r' run. rewrite lookup_insert.
      case_decide; [intros [= <-]; simpl; by split; [|intros []]|eauto].
    + intros r' run. rewrite !lookup_insert. case_decide; [by exists ids|eauto].
    + intros r'. rewrite !lookup_insert. case_decide; [by split|eauto].
    + intros r' l id. rewrite lookup_insert. case_decide; [subst r'|eauto].
      intros [= <-] Hin. destruct (pend_ids0 _ Hin) as (j & ? & ? & _). eauto.
    + intros r' idx k id. rewrite lookup_insert. case_decide; [subst r'|].
      * intros [= <-] Hk. rewrite Hrj'. by apply pend_index0.
      * rewrite Hrj by done. eauto.
    + intros k rec'. rewrite lookup_insert. case_decide; [subst k|].
      * intros [= <-] _. simpl. exists (newRun r seed now). by rewrite lookup_insert_eq.
      * intros Hk Hnr. destruct (wf_delivery _ _ Hk Hnr) as (run & Hrun & Hdel).
        exists run. rewrite lookup_insert_ne; [done|]. congruence.
    + intros r' run. rewrite lookup_insert. case_decide; [subst r'|].
      * intros [= <-]. simpl. rewrite lookup_insert_eq. by eexists.
      * intros Hr'. destruct (wf_run_delivery _ _ Hr') as (rec' & Hrec' & Hid).
        exists rec'. split; [|done]. rewrite lookup_insert_ne; [done|].
        intros E. rewrite <-E, Hd in Hrec'. simplify_eq.
        destruct (wf_run_minted _ _ Hr') as (n & _ & E'). rewrite Hempty in E'.
        by destruct (newid_nonempty n).
  - intros r' run. simpl. rewrite lookup_insert. case_decide as Hr'; [subst r'|].
    + intros [= <-]. simpl. split; [done|]. intros Hall. exfalso.
      destruct ids as [|id ids]; [done|].
      destruct (pend_ids0 id) as (j & Hj & _ & Hq); [set_solver|].
      specialize (Hall id). rewrite Hrj' in Hall. specialize (Hall ltac:(set_solver)).
      change (job_terminal (JStatus (getJob s id)) = true) in Hall.
      rewrite (getJob_Some _ _ _ Hj), Hq in Hall. done.
    + intros Hrun. rewrite (Ha r' run Hrun). unfold all_terminal. by rewrite Hrj.
Qed.

Lemma pending_start s :
  store_wf0 s → pending (with_minted (S (minted s)) s) (newid (minted s)) ∅ [].
Proof.
  intros Hwf. split; simpl.
  - by apply fresh_run.
  - apply minted_id_new.
  - intros id j Hj Hr. exfalso. apply (not_minted s). rewrite <-Hr. by eapply wf_job_minted.
  - intros id Hin. by apply not_elem_of_nil in Hin.
  - intros k id. by rewrite lookup_empty.
Qed.

Lemma with_minted_wf s : store_wf s → store_wf (with_minted (S (minted s)) s).
Proof.
  intros [[] Ha]. split; [|intros r; by apply (agrees_ext s)]. split; simpl; try done.
  - intros id j Hj. destruct (wf_job_minted _ _ Hj). split; by apply minted_id_S.
  - intros r run Hr. eapply minted_id_S; eauto.
Qed.

Lemma CreateRun_wf_le seed now s :
  store_wf s → store_wf (fst (mem_CreateRun seed now s)) ∧ jobs_le s (fst (mem_CreateRun seed now s)).
Proof.
  intros Hwf. unfold mem_CreateRun.
  destruct (deliveries s !! SDelivery seed) as [rec|] eqn:Hd; [|by split].
  case_bool_decide as Hrun.
  { unfold getRunLocked. by destruct (runs s !! DRRunID rec). }
  case_bool_decide as Hlen; [by split|].
  destruct (createJobs _ _ _ _ _ _) as [s' res] eqn:Hloop.
  pose proof (wf_base _ Hwf) as Hb.
  apply createJobs_spec in Hloop as (Hwf' & Hle & Hdel & _ & _ & _ & _ & _ & Hok);
    [|by apply with_minted_wf|by apply pending_start].
  destruct res as [[ki ids]| |]; simpl; [|by split..].
  destruct (Hok _ _ eq_refl) as [Hp Hl]. split.
  - apply commitRun_wf with rec; [done|done| |rewrite Hdel; exact Hd|done].
    intros ->. simpl in Hl. lia.
  - etrans; [apply Hle|]. apply jobs_le_eq. unfold commitRun, bindRun. by case_match.
Qed.

(** ** Claiming *)

Lemma skipJob_unfold s id j :
  jobs s !! id = Some j → job_terminal (JStatus j) = false →
  skipJob id s = refreshRunLocked (JRunID j) (clock (ticks s))
    (putJob id (set_times (JStartedAt j) (Some (clock (ticks s))) (set_status JobSkipped j))
      (with_ticks (S (ticks s)) s)).
Proof.
  intros Hj Ht. unfold skipJob. rewrite (getJob_Some _ _ _ Hj).
  unfold TransitionJob, CanTransitionJob. by rewrite Ht.
Qed.

Lemma skipJob_wf_le s id :
  store_wf s → is_Some (jobs s !! id) → store_wf (skipJob id s) ∧ jobs_le s (skipJob id s).
Proof.
  intros Hwf [j Hj]. destruct (job_terminal (JStatus j)) eqn:Ht.
  { unfold skipJob. rewrite (getJob_Some _ _ _ Hj).
    unfold TransitionJob, CanTransitionJob. rewrite Ht. by split. }
  rewrite (skipJob_unfold _ _ _ Hj Ht).
  assert (job_known (JStatus j) = true) as Hk by (by eapply wf_job_known, Hj; apply wf_base).
  assert (∀ t, job_le j (set_times (JStartedAt j) t (set_status JobSkipped j))) as Hle.
  { intros t. apply job_le_step; try done. apply jobRank_le. }
  split.
  - eapply put_refresh_wf; eauto.
    + by apply with_ticks_wf.
    + simpl. by split; [eexists|].
  - etrans; [|apply jobs_le_eq, refresh_jobs].
    etrans; [|eapply jobs_le_put; eauto]. by apply jobs_le_eq.
Qed.

Lemma claim_loop_wf_le picks s :
  store_wf s → (∀ p, p ∈ picks → is_Some (jobs s !! fst p)) →
  store_wf (fst (claim_loop picks s)) ∧ jobs_le s (fst (claim_loop picks s)).
Proof.
  revert s. induction picks as [|p picks IH]; intros s Hwf Hin; simpl; [by split|].
  assert (is_Some (jobs s !! fst p)) as Hp by (apply Hin; set_solver).
  assert (store_wf (fst (takeClaim (fst p) s)) ∧ jobs_le s (fst (takeClaim (fst p) s))) as Htake.
  { split; [by apply with_claimed_wf|by apply jobs_le_eq]. }
  destruct (dependencyStateLocked s (fst p)).
  - done.
  - apply IH; [done|]. intros; apply Hin; set_solver.
  - case_bool_decide; [done|].
    destruct (skipJob_wf_le s (fst p) Hwf Hp) as [Hwf' Hle].
    destruct (IH _ Hwf') as [? Hle'].
    + intros q Hq. destruct (Hin q) as [jq Hjq]; [set_solver|].
      destruct (Hle _ _ Hjq) as (j' & -> & _). by eexists.
    + split; [done|by etrans].
Qed.

Lemma candidates_elem s p :
  p ∈ candidates s ↔
  ∃ j, jobs s !! fst p = Some j ∧ snd p = JCreatedAt j ∧ JStatus j = JobQueued ∧ fst p ∉ claimed s.
Proof.
  unfold candidates. rewrite sort_by_elem. change @map with @list_fmap.
  rewrite list_elem_of_fmap. setoid_rewrite list_elem_of_filter. split.
  - intros ([id j] & -> & [Hq Hc] & Hin). apply elem_of_map_to_list in Hin. simpl in *. eauto.
  - destruct p as [id t]. simpl. intros (j & Hj & -> & ? & ?). exists (id, j).
    split; [done|]. split; [done|]. by apply elem_of_map_to_list.
Qed.

Lemma Claim_wf_le s :
  store_wf s → store_wf (fst (mem_ClaimNextQueuedJob s)) ∧ jobs_le s (fst (mem_ClaimNextQueuedJob s)).
Proof.
  intros Hwf. apply claim_loop_wf_le; [done|].
  intros p (j & Hj & _)%candidates_elem. by eexists.
Qed.

(** ** Acknowledging, observing, cancelling *)

Lemma AckDispatched_wf_le id obj now s :
  store_wf s →
  store_wf (fst (mem_AckDispatched id obj now s)) ∧ jobs_le s (fst (mem_AckDispatched id obj now s)).
Proof.
  intros Hwf. unfold mem_AckDispatched. destruct (jobs s !! id) as [j|] eqn:Hj; [|by split].
  assert (JStatus j = JobQueued ∨ JStatus j = JobDispatched →
    let s' := with_claimed (claimed s ∖ {[id]})
      (putJob id (set_active (ObjName obj) (ObjUID obj) now (set_status JobDispatched j)) s) in
    store_wf s' ∧ jobs_le s s') as Hput.
  { intros Hst. pose proof (job_le_active j (ObjName obj) (ObjUID obj) now Hst) as Hle.
    simpl. split.
    - apply with_claimed_wf. eapply putJob_wf_same; eauto. simpl. by destruct Hst as [-> | ->].
    - etrans; [by eapply jobs_le_put|by apply jobs_le_eq]. }
  destruct (JStatus j) eqn:Hst; try by split.
  - apply Hput. by left.
  - destruct (_ && _); [by split|]. apply Hput. by right.
Qed.

Lemma target_known phase target : JobStatusFromPhase phase = Some target → job_known target = true.
Proof. destruct phase; naive_solver. Qed.

Lemma observed_finished j target now phase :
  JobStatusFromPhase phase = Some target → JFinishedAt j = None →
  job_terminal (JStatus (observed_job target now j)) = true ↔
  is_Some (JFinishedAt (observed_job target now j)).
Proof.
  intros Hph Hf. destruct phase; simplify_eq/=; rewrite ?Hf; split; try done; try by intros [].
  all: by eexists.
Qed.

Lemma ApplyObserved_wf_le id phase now s :
  store_wf s →
  store_wf (fst (mem_ApplyObserved id phase now s)) ∧ jobs_le s (fst (mem_ApplyObserved id phase now s)).
Proof.
  intros Hwf. unfold mem_ApplyObserved. destruct (jobs s !! id) as [j|] eqn:Hj; [|by split].
  destruct (job_terminal (JStatus j)) eqn:Ht; [by split|].
  assert (JFinishedAt j = None) as Hf.
  { apply eq_None_not_Some. rewrite <-(wf_job_finished _ (wf_base _ Hwf) _ _ Hj). by rewrite Ht. }
  destruct (JobStatusFromPhase phase) as [target|] eqn:Hph; simpl.
  - destruct (CanAdvanceJob _ _) eqn:Hadv; [|by split]. simpl.
    assert (job_le j (observed_job target now j)) as Hle
      by eauto using target_known with forgelet.
    split.
    + eapply put_refresh_wf; eauto. by eapply observed_finished.
    + etrans; [by eapply jobs_le_put|apply jobs_le_eq, refresh_jobs].
  - split; [|apply jobs_le_eq, refresh_jobs]. destruct Hwf as [Hb Ha].
    apply refresh_wf; [done|auto|]. intros run Hr. by apply Ha.
Qed.

(** The state of the store inside the loop of [CancelRun]. *)
Record cancelling (s : store) (r : string) (s' : store) : Prop := {
  can_wf : store_wf0 s';
  can_le : jobs_le s s';
  can_runs : runs s' = runs s;
  can_runJobs : runJobs s' = runJobs s;
  can_other : ∀ r', r' ≠ r → run_agrees s' r'
}.

Lemma cancelJob_step s r s' now id :
  cancelling s r s' → id ∈ getRunJobs s' r →
  cancelling s r (cancelJob now s' id) ∧
  job_terminal (JStatus (getJob (cancelJob now s' id) id)) = true ∧ jobs_le s' (cancelJob now s' id).
Proof.
  intros [Hwf Hle Hr Hrj Ho] Hin.
  destruct (run_job_lookup _ _ _ Hwf Hin) as (j & Hj & Hrun).
  pose proof (wf_job_known _ Hwf _ _ Hj) as Hk.
  unfold cancelJob. rewrite (getJob_Some _ _ _ Hj). unfold TransitionJob, CanTransitionJob.
  destruct (job_terminal (JStatus j)) eqn:Ht.
  - split_and!.
    + split; try done. by eapply (wf0_ext s').
    + change (job_terminal (JStatus (getJob s' id)) = true). by rewrite (getJob_Some _ _ _ Hj).
    + by apply jobs_le_eq.
  - assert (job_le j (set_times (JStartedAt j) (Some now) (set_status JobCancelled j))) as Hlej.
    { apply job_le_step; try done. apply jobRank_le. }
    set (s2 := putJob id _ s').
    assert (jobs_le s' s2) as Hle2 by (by eapply jobs_le_put).
    split_and!.
    + split; try done.
      * eapply (wf0_ext s2); try done. eapply putJob_wf0; eauto. simpl. by split; [eexists|].
      * etrans; [done|]. etrans; [done|by apply jobs_le_eq].
      * intros r' Hne. apply (agrees_ext s2); try done. eapply putJob_agrees_other; eauto. congruence.
    + change (job_terminal (JStatus (getJob s2 id)) = true). unfold s2.
      rewrite getJob_put. by rewrite decide_True.
    + etrans; [done|by apply jobs_le_eq].
Qed.

Lemma jobs_le_terminal s s' id j :
  jobs_le s s' → jobs s !! id = Some j → job_terminal (JStatus j) = true →
  job_terminal (JStatus (getJob s' id)) = true.
Proof.
  intros Hle Hj Ht. destruct (Hle _ _ Hj) as (j' & Hj' & Hjle).
  rewrite (getJob_Some _ _ _ Hj'). by destruct (le_sticky _ _ Hjle Ht) as [-> _].
Qed.

Lemma cancel_fold s r now ids s' :
  cancelling s r s' → (∀ id, id ∈ ids → id ∈ getRunJobs s' r) →
  cancelling s r (fold_left (cancelJob now) ids s') ∧
  jobs_le s' (fold_left (cancelJob now) ids s') ∧
  ∀ id, id ∈ ids → job_terminal (JStatus (getJob (fold_left (cancelJob now) ids s') id)) = true.
Proof.
  revert s'. induction ids as [|id ids IH]; intros s' Hc Hin; simpl.
  { split_and!; [done|done|]. intros id Hi. by apply not_elem_of_nil in Hi. }
  destruct (cancelJob_step s r s' now id Hc) as (Hc' & Ht & Hle); [apply Hin; set_solver|].
  destruct (IH _ Hc') as (Hc'' & Hle' & Hall).
  { intros id' Hid'. unfold getRunJobs. rewrite (can_runJobs _ _ _ Hc').
    rewrite <-(can_runJobs _ _ _ Hc). apply Hin. set_solver. }
  split_and!; [done|by etrans|]. intros id' [->|Hid']%elem_of_cons; [|auto].
  assert (id ∈ getRunJobs s' r) as Hid by (apply Hin; set_solver).
  destruct (run_job_lookup _ _ _ (can_wf _ _ _ Hc) Hid) as (j & Hj & _).
  destruct (Hle _ _ Hj) as (j1 & Hj1 & _). rewrite (getJob_Some _ _ _ Hj1) in Ht.
  by eapply jobs_le_terminal.
Qed.

Lemma CancelRun_wf_le id now s :
  store_wf s → store_wf (fst (mem_CancelRun id now s)) ∧ jobs_le s (fst (mem_CancelRun id now s)).
Proof.
  intros Hwf. unfold mem_CancelRun. destruct (runs s !! id) as [run|] eqn:Hr; [|by split].
  destruct (run_terminal _) eqn:Ht; [by case_bool_decide|]. simpl.
  destruct Hwf as [Hb Ha].
  destruct (cancel_fold s id now (getRunJobs s id) s) as (Hc & Hle & Hall); [by split|done|].
  set (s1 := fold_left _ _ _) in *. split; [split|].
  - apply set_run_wf0; [by apply Hc|by rewrite (can_runs _ _ _ Hc)|]. by split; [eexists|].
  - intros r run'. simpl. rewrite lookup_insert. case_decide as Hne; [subst|].
    + intros [= <-]. simpl. split; [|done]. intros _ id' Hid'. apply Hall.
      unfold getRunJobs in *. simpl in Hid'. by rewrite (can_runJobs _ _ _ Hc) in Hid'.
    + intros Hr'. apply (can_other _ _ _ Hc); [congruence|done].
  - etrans; [done|by apply jobs_le_eq].
Qed.

(** ** Rerequesting *)

Definition addAttempt (j : JobRunRecord) (s : store) : store :=
  with_runJobs (<[JRunID j := getRunJobs s (JRunID j) ++ [newid (minted s)]]> (runJobs s)) (addJob j s).

Lemma addAttempt_runJobs j s r :
  getRunJobs (addAttempt j s) r =
    if decide (JRunID j = r) then getRunJobs s r ++ [newid (minted s)] else getRunJobs s r.
Proof. unfold getRunJobs; simpl. rewrite lookup_insert. case_decide; by subst. Qed.

Lemma addAttempt_wf0 s j :
  store_wf0 s → fresh_record (newid (minted s)) (JRunID j) j → minted_id s (JRunID j) →
  store_wf0 (addAttempt j s).
Proof.
  intros Hwf (Hid & _ & Hst & Hf) Hm.
  assert (∀ r id, id ∈ getRunJobs s r → id ∈ getRunJobs (addAttempt j s) r) as Hsub.
  { intros r id Hin. rewrite addAttempt_runJobs. case_decide; set_solver. }
  pose proof Hwf as []. split; simpl; try done.
  - intros id j' [[-> ->]|?]%addJob_cases; eauto.
  - intros id j' [[-> ->]|?]%addJob_cases; [by rewrite Hst|eauto].
  - intros id j' [[-> ->]|Hj]%addJob_cases.
    + split; [apply minted_id_new|by apply minted_id_S].
    + destruct (wf_job_minted _ _ Hj). split; by apply minted_id_S.
  - intros id j' [[-> ->]|?]%addJob_cases; [rewrite Hst, Hf; by split; [|intros []]|eauto].
  - intros id j' [[-> ->]|Hj]%addJob_cases Hrun; [|by eauto].
    rewrite addAttempt_runJobs, decide_True by done. set_solver.
  - intros r' run Hr'. eapply minted_id_S; eauto.
  - intros r run Hr. rewrite lookup_insert. case_decide; [|eauto].
    eexists. split; [done|]. by destruct (getRunJobs s (JRunID j)).
  - intros r l id Hl Hin. assert (id ∈ getRunJobs (addAttempt j s) r) as Hin'.
    { by rewrite (getRunJobs_Some (addAttempt j s) _ _ Hl). }
    rewrite addAttempt_runJobs in Hin'. rewrite lookup_insert.
    assert (id ∈ getRunJobs s r → ∃ j', jobs s !! id = Some j' ∧ JRunID j' = r) as Hold
      by apply (run_job_lookup _ _ _ Hwf).
    case_decide as Hr; case_decide as Hn; subst.
    + exists j. by split.
    + apply Hold. set_solver.
    + destruct (Hold Hin') as (j' & Hj' & _). by rewrite fresh_job in Hj'.
    + auto.
  - intros r idx k id Hidx Hk. destruct (wf_index _ _ _ _ Hidx Hk) as [Hin Hkey].
    split; [auto|]. change (JJobKey (getJob (addJob j s) id) = k).
    rewrite addJob_getJob; [done|]. by eapply run_job_minted.
Qed.

Lemma addAttempt_agrees_other s j r :
  store_wf0 s → JRunID j ≠ r → run_agrees s r → run_agrees (addAttempt j s) r.
Proof.
  intros Hwf Hne Ha run Hr. rewrite (addJob_agrees s j r Hwf Ha run Hr).
  unfold all_terminal. rewrite addAttempt_runJobs, decide_False by done. done.
Qed.

(** The index is updated in place with a job of the run. *)
Lemma set_index_wf0 s r idx k id :
  store_wf0 s → byJobKey s !! r = Some idx → id ∈ getRunJobs s r → JJobKey (getJob s id) = k →
  store_wf0 (with_byJobKey (<[r := <[k := id]> idx]> (byJobKey s)) s).
Proof.
  intros [] Hidx Hin Hk. split; simpl; try done.
  - intros r'. rewrite wf_run_index, lookup_insert. case_decide; [subst|done].
    rewrite Hidx. by split.
  - intros r' idx' k' id'. rewrite lookup_insert. case_decide; [subst|eauto].
    intros [= <-]. rewrite lookup_insert. case_decide; [by intros [= <-]; subst|eauto].
Qed.

Lemma RerequestJob_wf_le id now s :
  store_wf s → store_wf (fst (mem_RerequestJob id now s)) ∧ jobs_le s (fst (mem_RerequestJob id now s)).
Proof.
  intros Hwf. unfold mem_RerequestJob. destruct (jobs s !! id) as [orig|] eqn:Hj; [|by split].
  destruct (List.find _ _); [by split|].
  destruct Hwf as [Hb Ha].
  set (j := retryJob (newid (minted s)) orig now).
  cbv zeta. change (with_runJobs _ _) with (addAttempt j s).
  set (s2 := addAttempt j s).
  assert (store_wf0 s2) as Hb2.
  { apply addAttempt_wf0; [done|by repeat split|]. apply (wf_job_minted _ Hb _ _ Hj). }
  assert (jobs_le s s2) as Hle. { etrans; [by apply (addJob_le j)|by apply jobs_le_eq]. }
  assert (∀ r, r ≠ JRunID orig → run_agrees s2 r) as Ho.
  { intros r Hne. apply addAttempt_agrees_other; [done|simpl; congruence|done]. }
  destruct (byJobKey s2 !! JRunID orig) as [idx|] eqn:Hidx; simpl.
  - assert (newid (minted s) ∈ getRunJobs s2 (JRunID orig)) as Hin.
    { unfold s2. rewrite addAttempt_runJobs, decide_True by done. set_solver. }
    assert (getJob s2 (newid (minted s)) = j) as Hg.
    { unfold getJob, s2; simpl. by rewrite lookup_insert_eq. }
    set (s3 := with_byJobKey _ s2).
    assert (store_wf0 s3) as Hb3. { apply (set_index_wf0 s2); [done..|by rewrite Hg]. }
    assert (is_Some (runs s3 !! JRunID orig)) as [run Hr].
    { apply (wf_run_index _ Hb3). unfold s3; simpl. rewrite lookup_insert_eq. by eexists. }
    assert (¬ all_terminal s3 (JRunID orig)) as Hopen.
    { intros Hall. specialize (Hall _ Hin).
      change (job_terminal (JStatus (getJob s2 (newid (minted s)))) = true) in Hall.
      by rewrite Hg in Hall. }
    unfold reopenRun. rewrite Hr. destruct (run_terminal (RStatus run)) eqn:Ht.
    + split; [split|].
      * apply set_run_wf0; [done..|]. by split; [|intros []].
      * intros r run'. simpl. rewrite lookup_insert. case_decide as Hne; [subst|].
        -- intros [= <-]. simpl. split; [done|]. intros Hall. by destruct Hopen.
        -- intros Hr'. apply (Ho r); [congruence|done].
      * etrans; [done|by apply jobs_le_eq].
    + split; [split|].
      * done.
      * intros r. destruct (decide (r = JRunID orig)) as [->|Hne].
        -- intros run' Hr'. simplify_eq. rewrite Ht. by split.
        -- apply (agrees_ext s2); auto.
      * etrans; [done|by apply jobs_le_eq].
  - split; [|done]. split; [done|]. intros r. destruct (decide (r = JRunID orig)) as [->|Hne]; [|auto].
    intros run Hr. exfalso. assert (is_Some (byJobKey s2 !! JRunID orig)) as [? E]; [|congruence].
    apply (wf_run_index _ Hb2). by eexists.
Qed.

Lemma MarkCollected_wf_le id now s :
  store_wf s → store_wf (fst (mem_MarkCollected id now s)) ∧ jobs_le s (fst (mem_MarkCollected id now s)).
Proof.
  intros Hwf. unfold mem_MarkCollected. destruct (jobs s !! id) as [j|] eqn:Hj; [|by split].
  destruct (JActiveCollectedAt j); [by split|]. simpl.
  pose proof (job_le_collected j now).
  split; [by eapply putJob_wf_same|by eapply jobs_le_put].
Qed.

(** ** Every step *)

Lemma exec_wf_le o s : store_wf s → store_wf (exec o s) ∧ jobs_le s (exec o s).
Proof.
  intros Hwf. destruct o; simpl.
  - split; [by apply RecordDelivery_wf|apply jobs_le_eq, RecordDelivery_jobs].
  - by apply CreateRun_wf_le.
  - by apply Claim_wf_le.
  - split; [by apply with_claimed_wf|by apply jobs_le_eq].
  - by apply AckDispatched_wf_le.
  - by apply ApplyObserved_wf_le.
  - by apply CancelRun_wf_le.
  - by apply RerequestJob_wf_le.
  - by apply MarkCollected_wf_le.
Qed.

Lemma NewDurableStore_wf : store_wf NewDurableStore.
Proof.
  split; [|by intros r run Hr].
  split; try (intros; simplify_map_eq; done).
Qed.

Lemma reachable_wf s : reachable s → store_wf s.
Proof.
  apply (rtc_ind_r store_wf); [apply NewDurableStore_wf|].
  intros s1 s2 _ [o s'] Hwf. by apply exec_wf_le.
Qed.

Lemma steps_le s s' : store_wf s → rtc step s s' → store_wf s' ∧ jobs_le s s'.
Proof.
  intros Hwf Hsteps. induction Hsteps as [s|s s1 s' [o s0] _ IH]; [by split|].
  destruct (exec_wf_le o s0 Hwf) as [Hwf1 Hle]. destruct (IH Hwf1) as [? Hle'].
  split; [done|by etrans].
Qed.

End ops.

#[export] Hint Resolve RecordDelivery_wf with_claimed_wf : forgelet.

(** ** A concrete store and a concrete history *)

Fixpoint tally (n : nat) : string :=
  match n with O => "" | S n' => String "x"%char (tally n') end.

#[export] Instance demo_env : MemoryEnv := {|
  clock := fun n => Z.of_nat (100 + n);
  newid := fun n => "id" +:+ tally n
|}.

Lemma tally_inj m n : tally m = tally n → m = n.
Proof. revert n. induction m; intros [|n]; simpl; intros E; simplify_eq; auto. Qed.

#[export] Instance demo_env_ok : MemoryEnvOk.
Proof.
  split; simpl; [|done]. intros m n E. simplify_eq. by apply tally_inj.
Defined.

Definition demo_repo : RepositoryRef :=
  {| RepoProvider := "github"; RepoOwner := "acme"; RepoName := "app" |}.

Definition demo_key : DeliveryKey := {| KeyProvider := "github"; KeyDeliveryID := "d1" |}.

Definition demo_event : Event := {|
  EvProvider := "github"; EvName := "push"; EvDeliveryID := "d1";
  EvRepository := demo_repo; EvRef := "refs/heads/main"; EvSHA := "abc"; EvActor := "alice" |}.

Definition demo_delivery : Delivery :=
  {| DKey := demo_key; DEvent := demo_event; DPayload := "{}" |}.

Definition demo_intent (key : string) (deps : list string) (cond : string) : JobIntent := {|
  IJobKey := key; IRunnerClass := "linux"; IDependsOn := deps; IMatrix := ∅;
  IPlanDigest := ""; ICondition := cond |}.

Definition demo_seed : RunSeed := {|
  SDelivery := demo_key; SEvent := demo_event;
  SJobs := [demo_intent "build" [] ""; demo_intent "test" ["build"] ""] |}.

(** Identifiers of the demo: the run, the build job, the test job. *)
Definition demo_run : string := "id".
Definition demo_build : string := "idx".
Definition demo_test : string := "idxx".

Fixpoint exec_all (os : list op) (s : store) : store :=
  match os with
  | [] => s
  | o :: os' => exec_all os' (exec o s)
  end.

Lemma exec_all_steps os s : rtc step s (exec_all os s).
Proof.
  revert s. induction os as [|o os IH]; intros s; simpl; [done|].
  eapply rtc_l; [constructor|apply IH].
Qed.

Definition demo_start : list op :=
  [OpRecordDelivery demo_delivery; OpCreateRun demo_seed 5].

(** Two jobs created. *)
Definition demo_created : store := exec_all demo_start NewDurableStore.

(** The build job failed after running. *)
Definition demo_build_failed : store :=
  exec_all [OpClaimNextQueuedJob;
            OpAckDispatched demo_build {| ObjName := "jobrun-idx"; ObjUID := "u" |} 6;
            OpApplyObserved demo_build PhaseRunning 7;
            OpApplyObserved demo_build PhaseFailed 8] demo_created.

Lemma demo_created_reachable : reachable demo_created.
Proof. apply exec_all_steps. Qed.

Lemma demo_failed_reachable : reachable demo_build_failed.
Proof. unfold reachable. etrans; apply exec_all_steps. Qed.

Definition job_status (s : store) (id : string) : option JobRunStatus := JStatus <$> jobs s !! id.
Definition run_status (s : store) (id : string) : option WorkflowRunStatus := RStatus <$> runs s !! id.

Example demo_created_status :
  job_status demo_created demo_build = Some JobQueued ∧
  job_status demo_created demo_test = Some JobQueued ∧
  run_status demo_created demo_run = Some RunQueued.
Proof. vm_compute. done. Qed.

Example demo_failed_status :
  job_status demo_build_failed demo_build = Some JobFailed ∧
  run_status demo_build_failed demo_run = Some RunRunning.
Proof. vm_compute. done. Qed.

(** The build job's record in the two states. *)
Lemma demo_created_build :
  ∃ j, jobs demo_created !! demo_build = Some j ∧ JStatus j = JobQueued.
Proof. eexists. split; [vm_compute; reflexivity|reflexivity]. Defined.

Lemma demo_failed_build :
  ∃ j, jobs demo_build_failed !! demo_build = Some j ∧ JStatus j = JobFailed.
Proof. eexists. split; [vm_compute; reflexivity|reflexivity]. Defined.
