(* ===== verification/StoreClaims.v ===== *)
(** * Claiming queued jobs

    What [ClaimNextQueuedJob] of the in-memory store returns and how it
    changes the store: dependency gating, exclusivity, age order, progress. *)

From S2P Require Import Prelude GoStrings RunModel SchedulerPort MemoryStore StoreInvariant StoreOps.

(** ** Dependency state *)

(** The job a dependency key currently resolves to in the job's run. *)
Definition resolves (s : store) (r k id : string) : Prop :=
  default ∅ (byJobKey s !! r) !! k = Some id.

Definition deps_succeeded (s : store) (j : JobRunRecord) : Prop :=
  ∀ k, k ∈ JDependsOn j →
    ∃ id, resolves s (JRunID j) k id ∧ JStatus (getJob s id) = JobSucceeded.

Lemma deps_loop_ready s idx st keys :
  deps_loop s idx st keys = depsReady ↔
  st = depsReady ∧ ∀ k, k ∈ keys → ∃ id, idx !! k = Some id ∧ JStatus (getJob s id) = JobSucceeded.
Proof.
  revert st. induction keys as [|k keys IH]; intros st; simpl.
  { split; [|by intros []]. intros ->. split; [done|]. intros k Hk. by apply not_elem_of_nil in Hk. }
  setoid_rewrite elem_of_cons. destruct (idx !! k) as [id|] eqn:Hk.
  2: { split; [done|]. intros [_ Hall]. destruct (Hall k) as (? & ? & _); [by left|congruence]. }
  destruct (JStatus (getJob s id)) eqn:Hst; rewrite ?IH; split; try naive_solver.
  all: intros [_ Hall]; destruct (Hall k) as (? & ? & ?); [by left|congruence].
Qed.

Lemma dependency_ready s id j :
  jobs s !! id = Some j → dependencyStateLocked s id = depsReady ↔ deps_succeeded s j.
Proof.
  intros Hj. unfold dependencyStateLocked. rewrite Hj. case_bool_decide as Hlen.
  - split; [|done]. intros _ k Hk. apply nil_length_inv in Hlen. rewrite Hlen in Hk.
    by apply not_elem_of_nil in Hk.
  - rewrite deps_loop_ready. unfold deps_succeeded, resolves. naive_solver.
Qed.

(** ** The effect of the skips made while looking for a job *)

Record skips (s s' : store) : Prop := {
  sk_index : byJobKey s' = byJobKey s;
  sk_claimed : claimed s' = claimed s;
  sk_dom : ∀ id, is_Some (jobs s' !! id) ↔ is_Some (jobs s !! id);
  sk_job : ∀ id j j', jobs s !! id = Some j → jobs s' !! id = Some j' →
    j' = j ∨ (JStatus j = JobQueued ∧ JStatus j' = JobSkipped ∧ JCondition j = "" ∧ ¬ deps_succeeded s' j);
  sk_shape : ∀ id j j', jobs s !! id = Some j → jobs s' !! id = Some j' →
    j' = j ∨ ∃ t, j' = set_times (JStartedAt j) (Some t) (set_status JobSkipped j);
  sk_runJobs : runJobs s' = runJobs s;
  sk_deliveries : deliveries s' = deliveries s
}.

Section claims.
Context `{MemoryEnv} `{!MemoryEnvOk}.

Lemma refresh_tables s r now :
  runJobs (refreshRunLocked r now s) = runJobs s ∧ deliveries (refreshRunLocked r now s) = deliveries s.
Proof.
  unfold refreshRunLocked. destruct (runs s !! r); [|done].
  destruct (run_terminal _); [done|]. by destruct (_ && _).
Qed.

Lemma refresh_skips s r now :
  byJobKey (refreshRunLocked r now s) = byJobKey s ∧ claimed (refreshRunLocked r now s) = claimed s.
Proof.
  unfold refreshRunLocked. destruct (runs s !! r); [|done].
  destruct (run_terminal _); [done|]. by destruct (_ && _).
Qed.

(** Jobs only go from queued to skipped, so nothing becomes ready. *)
Lemma skip_not_succeeded s s' j :
  byJobKey s' = byJobKey s →
  (∀ id, JStatus (getJob s' id) = JobSucceeded → JStatus (getJob s id) = JobSucceeded) →
  deps_succeeded s' j → deps_succeeded s j.
Proof.
  intros Hi Hs Hd k Hk. destruct (Hd k Hk) as (id & Hres & Hst). exists id.
  split; [|auto]. unfold resolves in *. by rewrite <-Hi.
Qed.

Lemma skipJob_status s id id2 :
  JStatus (getJob (skipJob id s) id2) = JobSucceeded → JStatus (getJob s id2) = JobSucceeded.
Proof.
  unfold skipJob. set (job := getJob s id).
  destruct (TransitionJob (JStatus job) JobSkipped) as [next [e|]] eqn:Ht; [done|].
  unfold getJob at 1. rewrite refresh_jobs.
  fold (getJob (putJob id (set_times (JStartedAt job) (Some (clock (ticks s))) (set_status next job))
     (with_ticks (S (ticks s)) s)) id2).
  rewrite getJob_put. case_decide; [simpl|done].
  unfold TransitionJob in Ht. destruct (CanTransitionJob _ _); by simplify_eq.
Qed.

Lemma skipJob_skips s id j :
  jobs s !! id = Some j → JStatus j = JobQueued → JCondition j = "" →
  dependencyStateLocked s id = depsFailed → skips s (skipJob id s).
Proof.
  intros Hj Hq Hc Hd.
  assert (¬ deps_succeeded (skipJob id s) j) as Hnd.
  { intros Hs. eapply (skip_not_succeeded s) in Hs; [|..].
    - by rewrite <-(dependency_ready s id j Hj), Hd in Hs.
    - unfold skipJob. case_match. case_match; [done|].
      by rewrite (proj1 (refresh_skips _ _ _)).
    - intros. by eapply skipJob_status. }
  rewrite (skipJob_unfold s id j Hj) in * by (by rewrite Hq).
  set (s1 := putJob _ _ _) in *.
  destruct (refresh_skips s1 (JRunID j) (clock (ticks s))) as [Hi Hcl].
  destruct (refresh_tables s1 (JRunID j) (clock (ticks s))) as [Hrj Hdl].
  split; [by rewrite Hi|by rewrite Hcl|..|by rewrite Hrj|by rewrite Hdl]; setoid_rewrite refresh_jobs; simpl.
  - intros id2. rewrite lookup_insert. case_decide; [subst|done]. rewrite Hj. by split.
  - intros id2 j2 j2' Hj2. rewrite lookup_insert. case_decide; [subst|naive_solver].
    intros [= <-]. simplify_eq. by right.
  - intros id2 j2 j2' Hj2. rewrite lookup_insert. case_decide; [subst|naive_solver].
    intros [= <-]. simplify_eq. right. by eexists.
Qed.

Lemma skips_refl s : skips s s.
Proof. split; try done; intros id j j' ??; simplify_eq; by left. Qed.

Lemma skips_trans s1 s2 s3 :
  (∀ id, JStatus (getJob s3 id) = JobSucceeded → JStatus (getJob s2 id) = JobSucceeded) →
  skips s1 s2 → skips s2 s3 → skips s1 s3.
Proof.
  intros Hmon [] []. split; [congruence|congruence|naive_solver|..|congruence|congruence].
  - intros id j1 j3 Hj1 Hj3. destruct (sk_dom0 id) as [_ Hd].
    destruct Hd as [j2 Hj2]; [by eexists|].
    destruct (sk_job0 _ _ _ Hj1 Hj2) as [->|(? & ? & ? & Hns)]; [eauto|].
    destruct (sk_job1 _ _ _ Hj2 Hj3) as [->|(? & ? & ? & ?)]; [right|congruence].
    split_and!; try done. intros Hs. apply Hns. by eapply (skip_not_succeeded s2).
  - intros id j1 j3 Hj1 Hj3. destruct (sk_dom0 id) as [_ Hd].
    destruct Hd as [j2 Hj2]; [by eexists|].
    destruct (sk_shape0 _ _ _ Hj1 Hj2) as [->|(t & ->)]; [by apply (sk_shape1 id)|right].
    destruct (sk_job1 _ _ _ Hj2 Hj3) as [->|(Hq & _)]; [by eexists|done].
Qed.

Lemma skips_succeeded s s' id :
  skips s s' → JStatus (getJob s' id) = JobSucceeded → JStatus (getJob s id) = JobSucceeded.
Proof.
  intros [] Hst. unfold getJob in *. destruct (jobs s' !! id) as [j'|] eqn:Hj'; [|done].
  destruct (sk_dom0 id) as [Hd _]. destruct Hd as [j Hj]; [by eexists|]. rewrite Hj. simpl in *.
  destruct (sk_job0 _ _ _ Hj Hj') as [->|(? & ? & _)]; [done|congruence].
Qed.

(** A candidate that the loop passed over is not ready afterwards. *)
Definition passed (s' : store) (p : string * Time) : Prop :=
  ∀ j', jobs s' !! fst p = Some j' → JStatus j' = JobQueued → ¬ deps_succeeded s' j'.

Lemma passed_mono s s' p :
  skips s s' → passed s p → passed s' p.
Proof.
  intros Hsk Hp j' Hj' Hq Hs. pose proof Hsk as [].
  destruct (sk_dom0 (fst p)) as [Hd _]. destruct Hd as [j Hj]; [by eexists|].
  destruct (sk_job0 _ _ _ Hj Hj') as [->|(_ & ? & _)]; [|congruence].
  eapply Hp; [done..|]. eapply (skip_not_succeeded s); [done| |done].
  intros. by eapply skips_succeeded.
Qed.

(** A job whose dependencies have failed does not recover. *)
Lemma deps_loop_failed s s' idx st st' keys :
  (∀ id, job_terminal (JStatus (getJob s id)) = true → JStatus (getJob s' id) = JStatus (getJob s id)) →
  (∀ id, JStatus (getJob s' id) = JobSucceeded → JStatus (getJob s id) = JobSucceeded) →
  st ≠ depsFailed → deps_loop s idx st keys = depsFailed → deps_loop s' idx st' keys = depsFailed.
Proof.
  intros Hterm Hsucc. revert st st'. induction keys as [|k keys IH]; intros st st' Hst; simpl; [done|].
  destruct (idx !! k) as [id|]; [|done]. pose proof (Hterm id) as Ht. pose proof (Hsucc id) as Hs.
  destruct (JStatus (getJob s id)) eqn:E; simpl in Ht;
    try (intros; by rewrite Ht); intros Hl;
    try (rewrite Ht by done; eapply IH; [|exact Hl]; done);
    destruct (JStatus (getJob s' id)) eqn:E'; try done; try (eapply IH; [|exact Hl]; done);
    by specialize (Hs eq_refl).
Qed.

Lemma skips_terminal s s' id :
  skips s s' → job_terminal (JStatus (getJob s id)) = true → JStatus (getJob s' id) = JStatus (getJob s id).
Proof.
  intros [] Ht. unfold getJob in *. destruct (jobs s !! id) as [j|] eqn:Hj; [|done].
  destruct (sk_dom0 id) as [_ Hd]. destruct Hd as [j' Hj']; [by eexists|]. rewrite Hj'. simpl in *.
  destruct (sk_job0 _ _ _ Hj Hj') as [->|(Hq & _)]; [done|]. by rewrite Hq in Ht.
Qed.

Lemma skips_failed s s' id j :
  skips s s' → jobs s !! id = Some j → jobs s' !! id = Some j →
  dependencyStateLocked s id = depsFailed → dependencyStateLocked s' id = depsFailed.
Proof.
  intros Hsk Hj Hj'. unfold dependencyStateLocked. rewrite Hj, Hj'. case_bool_decide; [done|].
  rewrite (sk_index _ _ Hsk). apply deps_loop_failed; [..|done]; intros.
  - by eapply skips_terminal.
  - by eapply skips_succeeded.
Qed.

(** A queued job the loop passed over was not ready to begin with. *)
Lemma skips_not_passed s s1 (p : string * Time) j :
  skips s s1 → jobs s !! fst p = Some j → JStatus j = JobQueued → passed s1 p → ¬ deps_succeeded s j.
Proof.
  intros Hsk Hj Hq Hp Hs. destruct (sk_dom _ _ Hsk (fst p)) as [_ Hd].
  destruct Hd as [j' Hj']; [by eexists|].
  assert (deps_succeeded s1 j) as Hs1.
  { intros k Hk. destruct (Hs k Hk) as (id & Hres & Hst). exists id. split.
    - unfold resolves in *. by rewrite (sk_index _ _ Hsk).
    - by rewrite (skips_terminal s s1) by (done || by rewrite Hst). }
  destruct (sk_job _ _ Hsk _ _ _ Hj Hj') as [->|(_ & _ & _ & Hn)]; [by eapply Hp|done].
Qed.

(** What the loop did with a candidate it passed over whose dependencies had
    failed: it had no condition, and it is skipped now. *)
Definition closed_if_failed (s s' : store) (p : string * Time) : Prop :=
  ∀ j, jobs s !! fst p = Some j → dependencyStateLocked s (fst p) = depsFailed →
    JCondition j = "" ∧ JStatus (getJob s' (fst p)) = JobSkipped.

Lemma closed_mono s s0 s1 p : skips s0 s1 → closed_if_failed s s0 p → closed_if_failed s s1 p.
Proof.
  intros Hsk Hc j Hj Hd. destruct (Hc j Hj Hd) as [? E]. split; [done|].
  by rewrite (skips_terminal s0 s1) by (done || by rewrite E).
Qed.

Lemma closed_from s s0 s1 p : skips s s0 → skips s0 s1 → closed_if_failed s0 s1 p → closed_if_failed s s1 p.
Proof.
  intros Hsk Hsk1 Hc j Hj Hd. destruct (sk_dom _ _ Hsk (fst p)) as [_ Hdom].
  destruct Hdom as [j0 Hj0]; [by eexists|].
  destruct (sk_job _ _ Hsk _ _ _ Hj Hj0) as [->|(_ & Hst & Hcond & _)].
  - apply (Hc j Hj0). by eapply skips_failed.
  - split; [done|]. rewrite (skips_terminal s0 s1) by (done || by rewrite (getJob_Some _ _ _ Hj0), Hst).
    by rewrite (getJob_Some _ _ _ Hj0).
Qed.

Definition candidate (s : store) (p : string * Time) : Prop :=
  ∃ j, jobs s !! fst p = Some j ∧ snd p = JCreatedAt j ∧ JStatus j = JobQueued.

Lemma candidate_skips s s' p :
  skips s s' → candidate s p → (∀ j', jobs s' !! fst p = Some j' → JStatus j' ≠ JobSkipped) →
  candidate s' p.
Proof.
  intros Hsk (j & Hj & Ht & Hq) Hns. pose proof Hsk as [].
  destruct (sk_dom0 (fst p)) as [_ Hd]. destruct Hd as [j' Hj']; [by eexists|].
  destruct (sk_job0 _ _ _ Hj Hj') as [->|(_ & ? & _)]; [by exists j|]. by destruct (Hns j').
Qed.

(** The outcomes of the loop: it took the first candidate that is ready, or
    whose dependencies failed and which carries a condition; or it took none. *)
Definition took (picks : list (string * Time)) (s s' : store)
    (res : outcome error JobRunRecord) : Prop :=
  ∃ s1 pre p post j, picks = pre ++ p :: post ∧ res = Ok j ∧
    s' = with_claimed ({[fst p]} ∪ claimed s1) s1 ∧ skips s s1 ∧
    jobs s1 !! fst p = Some j ∧ JStatus j = JobQueued ∧ snd p = JCreatedAt j ∧
    (JCondition j = "" → deps_succeeded s1 j) ∧
    ∀ q, q ∈ pre → passed s1 q ∧ closed_if_failed s s1 q.

Definition took_none (picks : list (string * Time)) (s s' : store)
    (res : outcome error JobRunRecord) : Prop :=
  res = Err ErrNoQueuedJob ∧ skips s s' ∧ ∀ q, q ∈ picks → passed s' q.

Lemma skips_then s s0 s1 : skips s s0 → skips s0 s1 → skips s s1.
Proof. intros ? Hsk. eapply skips_trans; [|done..]. intros; by eapply skips_succeeded. Qed.

(** Passing over a candidate and going on with the rest. *)
Lemma pass_over p picks s s0 s' res :
  skips s s0 → passed s0 p → closed_if_failed s s0 p →
  took picks s0 s' res ∨ took_none picks s0 s' res →
  took (p :: picks) s s' res ∨ took_none (p :: picks) s s' res.
Proof.
  intros Hsk Hpass Hclosed
    [(s1 & pre & p0 & post & j0 & -> & -> & -> & Hsk1 & Hj0 & Hq0 & Ht0 & Hr & Hpre)
    |(-> & Hsk1 & Hall)].
  - left. exists s1, (p :: pre), p0, post, j0. split_and!; eauto using skips_then.
    intros q [->|Hin]%elem_of_cons; [by eauto using passed_mono, closed_mono|].
    destruct (Hpre q Hin). eauto using closed_from.
  - right. split_and!; eauto using skips_then.
    intros q [->|Hin]%elem_of_cons; [by eapply passed_mono|auto].
Qed.

Lemma take_here (p : string * Time) picks s s' res j :
  jobs s !! fst p = Some j → snd p = JCreatedAt j → JStatus j = JobQueued →
  (JCondition j = "" → deps_succeeded s j) →
  takeClaim (fst p) s = (s', res) → took (p :: picks) s s' res.
Proof.
  intros Hj Ht Hq Hr. unfold takeClaim. rewrite (getJob_Some _ _ _ Hj). intros [= <- <-].
  exists s, [], p, picks, j. split_and!; eauto using skips_refl.
  intros q Hin. by apply not_elem_of_nil in Hin.
Qed.

(** Skipping one candidate leaves the later ones candidates. *)
Lemma skip_candidates s (p : string * Time) j q :
  jobs s !! fst p = Some j → JStatus j = JobQueued → skips s (skipJob (fst p) s) →
  fst q ≠ fst p → candidate s q → candidate (skipJob (fst p) s) q.
Proof.
  intros Hj Hq Hsk Hne Hcand. eapply candidate_skips; [done..|]. intros j' Hj'.
  destruct Hcand as (jq & Hjq & _ & Hqq).
  rewrite (skipJob_unfold s (fst p) j Hj) in Hj' by (by rewrite Hq).
  rewrite refresh_jobs in Hj'. simpl in Hj'. rewrite lookup_insert_ne in Hj' by done. congruence.
Qed.

Lemma skip_passed s (p : string * Time) j :
  jobs s !! fst p = Some j → JStatus j = JobQueued → passed (skipJob (fst p) s) p.
Proof.
  intros Hj Hq j' Hj'. rewrite (skipJob_unfold s (fst p) j Hj) in Hj' by (by rewrite Hq).
  rewrite refresh_jobs in Hj'. simpl in Hj'. rewrite lookup_insert_eq in Hj'. by simplify_eq.
Qed.

Lemma skip_closed s (p : string * Time) j :
  jobs s !! fst p = Some j → JStatus j = JobQueued → JCondition j = "" →
  closed_if_failed s (skipJob (fst p) s) p.
Proof.
  intros Hj Hq Hc j' Hj' _. simplify_eq. split; [done|].
  rewrite (skipJob_unfold s (fst p) j Hj) by (by rewrite Hq).
  unfold getJob. rewrite refresh_jobs. simpl. by rewrite lookup_insert_eq.
Qed.

Lemma claim_loop_spec picks s s' res :
  store_wf s → NoDup picks.*1 → (∀ p, p ∈ picks → candidate s p) →
  claim_loop picks s = (s', res) → took picks s s' res ∨ took_none picks s s' res.
Proof.
  revert s. induction picks as [|p picks IH]; intros s Hwf Hnd Hcand; simpl.
  { intros [= <- <-]. right. split_and!; [done|apply skips_refl|]. intros q Hq.
    by apply not_elem_of_nil in Hq. }
  apply NoDup_cons in Hnd as [Hp Hnd].
  destruct (Hcand p) as (j & Hj & Ht & Hq); [set_solver|].
  destruct (dependencyStateLocked s (fst p)) eqn:Hd.
  - left. eapply take_here; eauto. intros _. by apply (dependency_ready _ _ _ Hj).
  - intros Hloop. apply (pass_over p picks s s); [apply skips_refl|..].
    + intros j' Hj' _ Hs. simplify_eq. apply (dependency_ready _ _ _ Hj) in Hs. congruence.
    + intros j' _ Hf. congruence.
    + apply IH; try done. intros; apply Hcand; set_solver.
  - rewrite (getJob_Some _ _ _ Hj). case_bool_decide as Hc.
    { left. by eapply take_here. }
    pose proof (skipJob_skips s (fst p) j Hj Hq Hc Hd) as Hsk.
    intros Hloop. eapply pass_over; [done|by eapply skip_passed|by eapply skip_closed|].
    apply IH; try done.
    + apply skipJob_wf_le; [done|by eexists].
    + intros q Hin. eapply skip_candidates; eauto; [|apply Hcand; set_solver].
      intros E. apply Hp. rewrite <-E. apply list_elem_of_fmap. eauto.
Qed.

(** ** The candidates are distinct and in age order *)

Lemma job_before_spec id1 t1 id2 t2 :
  (t1 < t2)%Z ∨ (t1 = t2 ∧ str_lt id1 id2 = true) → job_before (id1, t1) (id2, t2) = true.
Proof.
  unfold job_before. simpl. intros [Hlt|[-> Hid]]; case_bool_decide; try done; [lia|].
  by apply bool_decide_eq_true.
Qed.

Lemma job_before_asym a b : job_before a b = true → job_before b a = false.
Proof.
  unfold job_before. repeat case_bool_decide; try congruence; try lia. apply str_lt_asym.
Qed.

Lemma job_before_le_trans a b c :
  le_of job_before a b → le_of job_before b c → le_of job_before a c.
Proof.
  unfold le_of, job_before. repeat case_bool_decide; try congruence; try lia; try done.
  intros. by eapply str_le_trans.
Qed.

Lemma candidates_NoDup s : NoDup (candidates s).*1.
Proof.
  unfold candidates. rewrite sort_by_perm. change @map with @list_fmap.
  rewrite <-list_fmap_compose. change (compose fst _) with (fst : string * JobRunRecord → string).
  eapply sublist_NoDup; [apply (NoDup_fst_map_to_list (jobs s))|].
  apply fmap_sublist, sublist_filter.
Qed.

Lemma candidates_before s pre p post q :
  candidates s = pre ++ p :: post → q ∈ candidates s → job_before q p = true → q ∈ pre.
Proof.
  intros E Hin. eapply sort_by_before; [exact job_before_le_trans|exact job_before_asym|exact E|].
  unfold candidates in Hin. by rewrite sort_by_elem in Hin.
Qed.

End claims.
