(* ===== verification/StoreTheorems.v ===== *)
(** * What the in-memory store guarantees

    The properties the use cases rely on, for every store reachable from the
    empty one by the operations of the port, each with a witness on the demo
    history of [StoreDemo]; and the places where the code departs from its own
    comments. *)

From S2P Require Import Prelude GoStrings RunModel SchedulerPort MemoryStore StoreInvariant StoreOps StoreClaims.

(** ** Helper lemmas *)

Section helpers.
Context `{MemoryEnv} `{!MemoryEnvOk}.

(** A delivery bound to a run stays bound to it. *)
Definition bound (s : store) (k : DeliveryKey) (r : string) : Prop :=
  ∃ rec, deliveries s !! k = Some rec ∧ DRRunID rec = r ∧ r ≠ "".

Lemma createJobs_deliveries intents r now ki ids s :
  deliveries (fst (createJobs intents r now ki ids s)) = deliveries s.
Proof.
  revert ki ids s. induction intents as [|i rest IH]; intros ki ids s; simpl; [done|].
  destruct (ki !! IJobKey i); [done|]. by rewrite IH.
Qed.

Lemma claim_loop_deliveries picks s : deliveries (fst (claim_loop picks s)) = deliveries s.
Proof.
  assert (∀ id s', deliveries (skipJob id s') = deliveries s') as Hskip.
  { intros id s'. unfold skipJob. destruct (TransitionJob _ _) as [? [?|]]; [done|].
    unfold refreshRunLocked. simpl. destruct (runs s' !! _); [|done].
    destruct (run_terminal _); [done|]. by destruct (_ && _). }
  revert s. induction picks as [|p picks IH]; intros s; simpl; [done|].
  destruct (dependencyStateLocked s (fst p)); [done|apply IH|].
  case_bool_decide; [done|]. by rewrite IH, Hskip.
Qed.

Lemma cancel_fold_deliveries now ids s :
  deliveries (fold_left (cancelJob now) ids s) = deliveries s.
Proof.
  revert s. induction ids as [|id ids IH]; intros s; simpl; [done|]. rewrite IH.
  unfold cancelJob. by destruct (TransitionJob _ _) as [? [?|]].
Qed.

Lemma exec_bound o s k r : bound s k r → bound (exec o s) k r.
Proof.
  intros (rec & Hk & Hr & Hne). destruct o; simpl.
  - unfold mem_RecordDelivery. destruct (deliveries s !! DKey d) eqn:E; [by exists rec|].
    exists rec. simpl. rewrite lookup_insert_ne; [done|]. congruence.
  - unfold mem_CreateRun. destruct (deliveries s !! SDelivery seed) as [rec'|] eqn:E; [|by exists rec].
    case_bool_decide as Hb.
    { unfold getRunLocked. destruct (runs s !! _); by exists rec. }
    case_bool_decide; [by exists rec|].
    pose proof (createJobs_deliveries (SJobs seed) (newid (minted s)) now ∅ []
      (with_minted (S (minted s)) s)) as Hd.
    destruct (createJobs _ _ _ _ _ _) as [s' [[ki ids]|e|]]; simpl in *;
      [|exists rec; by rewrite Hd..].
    unfold commitRun, bindRun. simpl. rewrite Hd, E. exists rec. simpl.
    rewrite lookup_insert_ne; [done|]. intros <-. simplify_eq.
  - exists rec. unfold mem_ClaimNextQueuedJob. by rewrite claim_loop_deliveries.
  - by exists rec.
  - exists rec. unfold mem_AckDispatched. destruct (jobs s !! id) as [j|]; [|done].
    destruct (JStatus j); try done. by destruct (_ && _).
  - exists rec. unfold mem_ApplyObserved. destruct (jobs s !! id) as [j|]; [|done].
    destruct (job_terminal _); [done|]. destruct (JobStatusFromPhase phase); simpl.
    + destruct (CanAdvanceJob _ _); [|done]. simpl. unfold refreshRunLocked. simpl.
      destruct (runs s !! _); [|done]. destruct (run_terminal _); [done|]. by destruct (_ && _).
    + unfold refreshRunLocked. destruct (runs s !! _); [|done].
      destruct (run_terminal _); [done|]. by destruct (_ && _).
  - exists rec. unfold mem_CancelRun. destruct (runs s !! id) as [run|]; [|done].
    destruct (run_terminal _); [by case_bool_decide|]. simpl. by rewrite cancel_fold_deliveries.
  - exists rec. unfold mem_RerequestJob. destruct (jobs s !! id) as [j|]; [|done].
    destruct (List.find _ _); [done|]. simpl. destruct (byJobKey s !! _); [|done]. simpl.
    unfold reopenRun. simpl. destruct (runs s !! _); [|done]. by destruct (run_terminal _).
  - exists rec. unfold mem_MarkCollected. destruct (jobs s !! id) as [j|]; [|done].
    by destruct (JActiveCollectedAt j).
Qed.

Lemma steps_bound s s' k r : rtc step s s' → bound s k r → bound s' k r.
Proof.
  intros Hs. induction Hs as [|s s1 s' [o s0] _ IH]; [done|]. intros Hb. by apply IH, exec_bound.
Qed.

Lemma CreateRun_Ok_bound seed now s s' run b :
  store_wf s → mem_CreateRun seed now s = (s', Ok (run, b)) → bound s' (SDelivery seed) (RID run).
Proof.
  intros Hwf. unfold mem_CreateRun.
  destruct (deliveries s !! SDelivery seed) as [rec|] eqn:Hd; [|done]. case_bool_decide as Hr.
  - unfold getRunLocked. destruct (runs s !! DRRunID rec) as [run'|] eqn:Hrun; [|done].
    intros [= <- <- <-]. exists rec. rewrite (wf_run_id _ (wf_base _ Hwf) _ _ Hrun). done.
  - case_bool_decide; [done|].
    pose proof (createJobs_deliveries (SJobs seed) (newid (minted s)) now ∅ []
      (with_minted (S (minted s)) s)) as Hdel.
    destruct (createJobs _ _ _ _ _ _) as [s1 [[ki ids]|e|]]; simpl in *; try done.
    intros [= <- <- <-]. unfold commitRun, bindRun, bound. simpl. rewrite Hdel, Hd. simpl.
    rewrite lookup_insert_eq. eexists. split; [done|]. simpl. split; [done|apply newid_nonempty].
Qed.

Lemma CreateRun_bound seed now s r :
  store_wf s → bound s (SDelivery seed) r →
  ∃ run, runs s !! r = Some run ∧ mem_CreateRun seed now s = (s, Ok (run, false)).
Proof.
  intros Hwf (rec & Hk & <- & Hne).
  destruct (wf_delivery _ (wf_base _ Hwf) _ _ Hk Hne) as (run & Hrun & _).
  exists run. split; [done|]. unfold mem_CreateRun. rewrite Hk, bool_decide_eq_true_2 by done.
  unfold getRunLocked. by rewrite Hrun.
Qed.

End helpers.

(** ** The invariant and its consequences *)

(** C1. Every store reachable from the empty one is well-formed: records are
    filed under their own identifiers, every job of a run exists and belongs
    to it, the key index points at jobs of the run with that key, a job or run
    is terminal exactly when it has a finish time, bound deliveries and runs
    point at each other, and a run is terminal exactly when all of its jobs
    are. *)
Theorem store_invariant_reachable `{MemoryEnv} `{!MemoryEnvOk} s :
  reachable s → store_wf s.
Proof. apply reachable_wf. Qed.

Lemma store_invariant_reachable_witness : reachable demo_build_failed ∧ store_wf demo_build_failed.
Proof.
  split; [exact demo_failed_reachable|].
  exact (store_invariant_reachable _ demo_failed_reachable).
Defined.

(** C2. Job records only move forward: under any further sequence of
    operations a job keeps its identity and run, its rank never decreases, and
    once terminal its status and finish time never change. *)
Theorem job_records_move_forward `{MemoryEnv} `{!MemoryEnvOk} s s' id j :
  reachable s → rtc step s s' → jobs s !! id = Some j →
  ∃ j', jobs s' !! id = Some j' ∧ JRunID j' = JRunID j ∧ JJobKey j' = JJobKey j ∧
    JAttempt j' = JAttempt j ∧ jobRank (JStatus j) ≤ jobRank (JStatus j') ∧
    (job_terminal (JStatus j) = true → JStatus j' = JStatus j ∧ JFinishedAt j' = JFinishedAt j).
Proof.
  intros Hr Hs Hj. destruct (steps_le s s' (reachable_wf s Hr) Hs) as [_ Hle].
  destruct (Hle _ _ Hj) as (j' & Hj' & []). eauto 10.
Qed.

Lemma job_records_move_forward_witness :
  ∃ j', jobs (exec (OpApplyObserved demo_build PhaseSucceeded 9) demo_build_failed) !! demo_build = Some j' ∧
    JStatus j' = JobFailed.
Proof.
  destruct (jobs demo_build_failed !! demo_build) as [j|] eqn:Hj; [|by vm_compute in Hj].
  destruct (job_records_move_forward demo_build_failed
    (exec (OpApplyObserved demo_build PhaseSucceeded 9) demo_build_failed) demo_build j)
    as (j' & Hj' & _ & _ & _ & _ & Hst).
  - exact demo_failed_reachable.
  - apply rtc_once. constructor.
  - exact Hj.
  - exists j'. split; [exact Hj'|].
    assert (JStatus j = JobFailed) as E by (vm_compute in Hj; by injection Hj as <-).
    rewrite <-E. apply Hst. by rewrite E.
Defined.

(** C3. [CreateRun] is create-or-get: after it succeeded once for a delivery,
    then in every later state a replay for that delivery — with whatever
    event, jobs and time — returns the same run with created=false and writes
    nothing, and no other run of that state is bound to the delivery. *)
Theorem create_run_replay `{MemoryEnv} `{!MemoryEnvOk} s seed now s1 run b s2 seed' now' :
  reachable s → mem_CreateRun seed now s = (s1, Ok (run, b)) →
  rtc step s1 s2 → SDelivery seed' = SDelivery seed →
  (∃ run', mem_CreateRun seed' now' s2 = (s2, Ok (run', false)) ∧ RID run' = RID run) ∧
  ∀ r run2, runs s2 !! r = Some run2 → RDelivery run2 = SDelivery seed → r = RID run.
Proof.
  intros Hr Hc Hs Hk. pose proof (reachable_wf s Hr) as Hwf.
  assert (store_wf s1) as Hwf1.
  { destruct (CreateRun_wf_le seed now s Hwf) as [H1 _]. by rewrite Hc in H1. }
  destruct (steps_le s1 s2 Hwf1 Hs) as [Hwf2 _].
  pose proof (steps_bound _ _ _ _ Hs (CreateRun_Ok_bound _ _ _ _ _ _ Hwf Hc)) as Hb.
  split.
  - rewrite <-Hk in Hb. destruct (CreateRun_bound seed' now' s2 _ Hwf2 Hb) as (run' & Hrun & Heq).
    exists run'. split; [done|]. by apply (wf_run_id _ (wf_base _ Hwf2)).
  - intros r run2 Hrun2 Hd. destruct (wf_run_delivery _ (wf_base _ Hwf2) _ _ Hrun2) as (rec & Hrec & <-).
    destruct Hb as (rec' & Hrec' & <- & _). congruence.
Qed.

Lemma create_run_replay_witness :
  ∃ run', mem_CreateRun {| SDelivery := demo_key; SEvent := demo_event; SJobs := [] |} 99
            demo_build_failed = (demo_build_failed, Ok (run', false)) ∧ RID run' = demo_run.
Proof.
  destruct (create_run_replay (exec (OpRecordDelivery demo_delivery) NewDurableStore) demo_seed 5
    demo_created (newRun demo_run demo_seed 5) true demo_build_failed
    {| SDelivery := demo_key; SEvent := demo_event; SJobs := [] |} 99) as [(run' & H1 & H2) _].
  - apply rtc_once. constructor.
  - vm_compute. reflexivity.
  - apply exec_all_steps.
  - reflexivity.
  - exists run'. split; [exact H1|exact H2].
Defined.

(** What a claim may do to the rest of the store: the delivery log, the runs'
    job lists, the job index and the set of identifiers stay as they are, and a
    job record that changes was queued without a condition, its dependencies
    have not succeeded, and all that happened to it is that it was marked
    skipped and finished. *)
Record claim_frame (s s' : store) : Prop := {
  cf_deliveries : deliveries s' = deliveries s;
  cf_runJobs : runJobs s' = runJobs s;
  cf_index : byJobKey s' = byJobKey s;
  cf_dom : ∀ id, is_Some (jobs s' !! id) ↔ is_Some (jobs s !! id);
  cf_job : ∀ id j j', jobs s !! id = Some j → jobs s' !! id = Some j' → j' ≠ j →
    JStatus j = JobQueued ∧ JCondition j = "" ∧ ¬ deps_succeeded s' j ∧
    ∃ t, j' = set_times (JStartedAt j) (Some t) (set_status JobSkipped j)
}.

Lemma skips_frame s s1 c : skips s s1 → claim_frame s (with_claimed c s1).
Proof.
  intros []. split; try done. simpl. intros id j j' Hj Hj' Hne.
  destruct (sk_job _ _ _ Hj Hj') as [->|(? & ? & ? & ?)]; [done|].
  destruct (sk_shape _ _ _ Hj Hj') as [->|Hsh]; [done|]. by split_and!.
Qed.



(** C5. A claim that finds nothing reports [ErrNoQueuedJob] and nothing else,
    and then no queued unclaimed job of the store has all its dependencies
    succeeded; a claim never panics. *)
Theorem claim_finds_ready_job `{MemoryEnv} `{!MemoryEnvOk} s :
  reachable s →
  (∃ j, snd (mem_ClaimNextQueuedJob s) = Ok j) ∨
  (snd (mem_ClaimNextQueuedJob s) = Err ErrNoQueuedJob ∧
   ∀ id j, jobs (fst (mem_ClaimNextQueuedJob s)) !! id = Some j → JStatus j = JobQueued →
     id ∉ claimed s → ¬ deps_succeeded (fst (mem_ClaimNextQueuedJob s)) j).
Proof.
  intros Hr. pose proof (reachable_wf s Hr) as Hwf.
  assert (∀ p, p ∈ candidates s → candidate s p) as Hcand.
  { intros p (j0 & ? & ? & ? & _)%candidates_elem. by exists j0. }
  destruct (mem_ClaimNextQueuedJob s) as [s' res] eqn:Hc.
  destruct (claim_loop_spec _ _ _ _ Hwf (candidates_NoDup s) Hcand Hc) as
    [(s1 & pre & p & post & j0 & _ & -> & _)|(-> & Hsk & Hall)]; [left; by eexists|right].
  split; [done|]. simpl. intros id j Hj Hq Hnc.
  destruct (sk_dom _ _ Hsk id) as [Hd _]. destruct Hd as [j0 Hj0]; [by eexists|].
  destruct (sk_job _ _ Hsk _ _ _ Hj0 Hj) as [->|(_ & ? & _)]; [|congruence].
  eapply (Hall (id, JCreatedAt j0)); [|done..]. apply candidates_elem. simpl. eauto.
Qed.

Lemma claim_finds_ready_job_witness :
  (∃ j, snd (mem_ClaimNextQueuedJob demo_created) = Ok j) ∨
  snd (mem_ClaimNextQueuedJob demo_created) = Err ErrNoQueuedJob.
Proof.
  destruct (claim_finds_ready_job demo_created demo_created_reachable) as [H1|[H2 _]];
    [left; exact H1|right; exact H2].
Defined.
