(* ===== verification/StoreLifecycle.v ===== *)
(** * Cancelling, observing, rerequesting and collecting

    Functional specifications of the remaining operations of the in-memory
    store, and the places where the store departs from what its comments and
    the port promise. *)

From S2P Require Import Prelude GoStrings RunModel SchedulerPort MemoryStore StoreInvariant StoreOps.

(** ** Cancellation *)

(** What cancelling does to one job record. *)
Definition cancelled_record (now : Time) (j : JobRunRecord) : JobRunRecord :=
  if job_terminal (JStatus j) then j
  else set_times (JStartedAt j) (Some now) (set_status JobCancelled j).

Lemma cancelled_record_idem now j :
  cancelled_record now (cancelled_record now j) = cancelled_record now j.
Proof. unfold cancelled_record. destruct (job_terminal (JStatus j)) eqn:E; [by rewrite E|done]. Qed.

Lemma cancelJob_lookup now s id id' :
  is_Some (jobs s !! id) →
  jobs (cancelJob now s id) !! id' =
    if decide (id = id') then cancelled_record now <$> jobs s !! id' else jobs s !! id'.
Proof.
  intros [j Hj]. unfold cancelJob. rewrite (getJob_Some _ _ _ Hj).
  unfold TransitionJob, CanTransitionJob, cancelled_record.
  destruct (job_terminal (JStatus j)) eqn:Ht; simpl.
  - case_decide; [subst|done]. rewrite Hj. simpl. by rewrite Ht.
  - rewrite lookup_insert. case_decide; [subst|done]. rewrite Hj. simpl. by rewrite Ht.
Qed.

Lemma cancelJob_other now s id :
  runs (cancelJob now s id) = runs s ∧ runJobs (cancelJob now s id) = runJobs s ∧
  claimed (cancelJob now s id) = claimed s ∖ {[id]}.
Proof. unfold cancelJob. by destruct (TransitionJob _ _) as [? [?|]]. Qed.

Lemma cancel_fold_lookup now ids s id :
  (∀ i, i ∈ ids → is_Some (jobs s !! i)) →
  jobs (fold_left (cancelJob now) ids s) !! id =
    if decide (id ∈ ids) then cancelled_record now <$> jobs s !! id else jobs s !! id.
Proof.
  revert s. induction ids as [|i ids IH]; intros s Hin; simpl; [done|].
  assert (is_Some (jobs s !! i)) as Hi by (apply Hin; set_solver).
  rewrite IH; clear IH.
  2: { intros i' Hi'. rewrite cancelJob_lookup by done.
       destruct (Hin i') as [j Hj]; [set_solver|]. rewrite Hj. by case_decide. }
  rewrite cancelJob_lookup by done.
  destruct (decide (i = id)) as [->|Hne].
  - rewrite (decide_True (P := id ∈ id :: ids)) by set_solver.
    case_decide; [|done]. destruct (jobs s !! id); simpl; [|done]. by rewrite cancelled_record_idem.
  - by destruct (decide (id ∈ ids)); [rewrite decide_True by set_solver|rewrite decide_False by set_solver].
Qed.

Lemma cancel_fold_claimed now ids s :
  claimed (fold_left (cancelJob now) ids s) = claimed s ∖ list_to_set ids.
Proof.
  revert s. induction ids as [|i ids IH]; intros s; simpl; [set_solver|].
  rewrite IH. destruct (cancelJob_other now s i) as (_ & _ & ->). set_solver.
Qed.

(** Cancelling an open run succeeds: exactly the unfinished jobs of the
    run become cancelled at that time, finished jobs and the jobs of other
    runs keep their records, the claims of the run's jobs are released, the
    run is cancelled, and cancelling it again is a no-op success. *)
Theorem cancel_run_spec `{MemoryEnv} `{!MemoryEnvOk} s r run now :
  reachable s → runs s !! r = Some run → run_terminal (RStatus run) = false →
  ∃ s', mem_CancelRun r now s = (s', Ok tt) ∧
    runs s' !! r = Some (set_run RunCancelled (Some now) run) ∧
    (∀ id j, jobs s !! id = Some j →
       jobs s' !! id = Some (if decide (JRunID j = r) then cancelled_record now j else j)) ∧
    (∀ id, id ∈ claimed s' ↔ id ∈ claimed s ∧ id ∉ getRunJobs s r) ∧
    ∀ now', mem_CancelRun r now' s' = (s', Ok tt).
Proof.
  intros Hr Hrun Ht. pose proof (wf_base _ (reachable_wf s Hr)) as Hwf.
  unfold mem_CancelRun at 1. rewrite Hrun, Ht. eexists. split; [done|]. simpl.
  split_and!.
  - by rewrite lookup_insert_eq.
  - intros id j Hj. rewrite cancel_fold_lookup, Hj.
    2: { intros i Hi. destruct (run_job_lookup _ _ _ Hwf Hi) as (? & ? & _). by eexists. }
    simpl. destruct (decide (JRunID j = r)) as [<-|Hne].
    + rewrite decide_True; [done|]. eapply wf_job_owned; eauto.
    + rewrite decide_False; [done|]. intros Hin.
      destruct (run_job_lookup _ _ _ Hwf Hin) as (? & ? & ?). simplify_eq.
  - intros id. rewrite cancel_fold_claimed. set_solver.
  - intros now'. unfold mem_CancelRun. simpl. by rewrite lookup_insert_eq.
Qed.

Lemma cancel_run_spec_witness :
  ∃ s', mem_CancelRun demo_run 20 demo_build_failed = (s', Ok tt) ∧
        job_status s' demo_build = Some JobFailed ∧ job_status s' demo_test = Some JobCancelled.
Proof.
  destruct (runs demo_build_failed !! demo_run) as [run|] eqn:Hrun; [|by vm_compute in Hrun].
  destruct (cancel_run_spec demo_build_failed demo_run run 20 demo_failed_reachable Hrun)
    as (s' & Hc & _ & Hjobs & _).
  - vm_compute in Hrun. by injection Hrun as <-.
  - exists s'. split; [exact Hc|]. unfold job_status.
    destruct (jobs demo_build_failed !! demo_build) as [jb|] eqn:Hb; [|by vm_compute in Hb].
    destruct (jobs demo_build_failed !! demo_test) as [jt|] eqn:Ht; [|by vm_compute in Ht].
    rewrite (Hjobs _ _ Hb), (Hjobs _ _ Ht). vm_compute in Hb, Ht.
    injection Hb as <-. injection Ht as <-. split; vm_compute; reflexivity.
Defined.

(** ** Observation *)

(** The monotone projection the store promises: an observation moves an
    unfinished job to a status of higher rank and is otherwise ignored. *)
Definition project (st : JobRunStatus) (ph : ObservedPhase) : JobRunStatus :=
  if job_terminal st then st
  else match JobStatusFromPhase ph with
       | Some t => if Nat.ltb (jobRank st) (jobRank t) then t else st
       | None => st
       end.

Lemma project_idem st ph : project (project st ph) ph = project st ph.
Proof. destruct ph, st; done. Qed.

Lemma phase_target_not_cancelled ph t : JobStatusFromPhase ph = Some t → t ≠ JobCancelled.
Proof. destruct ph; naive_solver. Qed.

Lemma CanAdvanceJob_spec st ph t :
  JobStatusFromPhase ph = Some t → job_terminal st = false → job_known st = true →
  CanAdvanceJob st t = true → t = project st ph.
Proof. destruct ph, st; simpl; intros; simplify_eq/=; done. Qed.

Lemma CanAdvanceJob_refused st ph t :
  JobStatusFromPhase ph = Some t → job_terminal st = false →
  CanAdvanceJob st t = false → project st ph = st.
Proof.
  intros Hph Ht Hadv. unfold project. rewrite Ht, Hph. unfold CanAdvanceJob in Hadv.
  rewrite bool_decide_eq_false_2 in Hadv by (by eapply phase_target_not_cancelled).
  case_bool_decide as He; [done|]. by rewrite Hadv.
Qed.

Lemma apply_observed_job `{MemoryEnv} `{!MemoryEnvOk} s id j ph now :
  reachable s → jobs s !! id = Some j →
  ∃ s' j', mem_ApplyObserved id ph now s = (s', Ok tt) ∧ jobs s' !! id = Some j' ∧
    JStatus j' = project (JStatus j) ph ∧
    JFinishedAt j' =
      (if job_terminal (JStatus j) then JFinishedAt j
       else if job_terminal (project (JStatus j) ph) then Some now else None) ∧
    (∀ id', id' ≠ id → jobs s' !! id' = jobs s !! id') ∧
    claimed s' = claimed s.
Proof.
  intros Hr Hj. pose proof (wf_base _ (reachable_wf s Hr)) as Hwf.
  unfold mem_ApplyObserved. rewrite Hj. destruct (job_terminal (JStatus j)) eqn:Ht.
  { exists s, j. split_and!; try done. unfold project. by rewrite Ht. }
  assert (JFinishedAt j = None) as Hf.
  { apply eq_None_not_Some. rewrite <-(wf_job_finished _ Hwf _ _ Hj). by rewrite Ht. }
  pose proof (wf_job_known _ Hwf _ _ Hj) as Hk.
  assert (∀ r t s0, claimed (refreshRunLocked r t s0) = claimed s0) as Hcl.
  { intros r t s0. unfold refreshRunLocked. destruct (runs s0 !! r); [|done].
    destruct (run_terminal _); [done|]. by destruct (_ && _). }
  destruct (JobStatusFromPhase ph) as [t|] eqn:Hph.
  - destruct (CanAdvanceJob (JStatus j) t) eqn:Hadv; eexists _, _; (split; [done|]).
    + rewrite refresh_jobs. simpl. rewrite lookup_insert_eq. split; [done|].
      rewrite <-(CanAdvanceJob_spec _ _ _ Hph Ht Hk Hadv).
      split_and!; [..|by rewrite Hcl].
      * by destruct t.
      * destruct ph; simplify_eq/=; done.
      * intros id' Hne. by rewrite lookup_insert_ne.
    + rewrite (CanAdvanceJob_refused _ _ _ Hph Ht Hadv), Ht. by split_and!.
  - eexists _, j. split; [done|]. rewrite refresh_jobs.
    assert (project (JStatus j) ph = JStatus j) as -> by (unfold project; by rewrite Ht, Hph).
    rewrite Ht. by split_and!.
Qed.

(** [ApplyObserved] on a known job always succeeds and refines the
    monotone projection: the job's status becomes [project status phase], a
    finish time is recorded exactly when the job closes now, and no other job
    record changes. *)
Theorem apply_observed_projects `{MemoryEnv} `{!MemoryEnvOk} s id j ph now :
  reachable s → jobs s !! id = Some j →
  ∃ s' j', mem_ApplyObserved id ph now s = (s', Ok tt) ∧ jobs s' !! id = Some j' ∧
    JStatus j' = project (JStatus j) ph ∧
    JFinishedAt j' =
      (if job_terminal (JStatus j) then JFinishedAt j
       else if job_terminal (project (JStatus j) ph) then Some now else None) ∧
    (∀ id', id' ≠ id → jobs s' !! id' = jobs s !! id') ∧
    claimed s' = claimed s.
Proof. apply apply_observed_job. Qed.

Lemma apply_observed_projects_witness :
  ∃ s' j', mem_ApplyObserved demo_test PhaseRunning 30 demo_created = (s', Ok tt) ∧
           jobs s' !! demo_test = Some j' ∧ JStatus j' = JobRunning.
Proof.
  destruct (jobs demo_created !! demo_test) as [j|] eqn:Hj; [|by vm_compute in Hj].
  destruct (apply_observed_projects demo_created demo_test j PhaseRunning 30
    demo_created_reachable Hj) as (s' & j' & H1 & H2 & H3 & _).
  exists s', j'. split; [exact H1|]. split; [exact H2|]. rewrite H3.
  vm_compute in Hj. by injection Hj as <-.
Defined.

(** Replaying an observation is not the no-op the port promises
    ("Replaying the same or an earlier phase is a no-op success"): a second
    [running] observation of a running job overwrites its start time. *)
Theorem replayed_running_moves_start_time `{MemoryEnv} s id j now :
  jobs s !! id = Some j → JStatus j = JobRunning →
  ∃ s' j', mem_ApplyObserved id PhaseRunning now s = (s', Ok tt) ∧
    jobs s' !! id = Some j' ∧ JStatus j' = JobRunning ∧ JStartedAt j' = Some now.
Proof.
  intros Hj Hst. unfold mem_ApplyObserved. rewrite Hj, Hst. simpl.
  eexists _, _. split; [done|]. rewrite refresh_jobs. simpl. by rewrite lookup_insert_eq.
Qed.

Lemma replayed_running_moves_start_time_witness :
  ∃ s' j', mem_ApplyObserved demo_test PhaseRunning 40
             (exec (OpApplyObserved demo_test PhaseRunning 30) demo_created) = (s', Ok tt) ∧
           jobs s' !! demo_test = Some j' ∧ JStartedAt j' = Some 40%Z.
Proof.
  destruct (jobs (exec (OpApplyObserved demo_test PhaseRunning 30) demo_created) !! demo_test)
    as [j|] eqn:Hj; [|by vm_compute in Hj].
  destruct (replayed_running_moves_start_time
    (exec (OpApplyObserved demo_test PhaseRunning 30) demo_created) demo_test j 40 Hj)
    as (s' & j' & H1 & H2 & _ & H4).
  - vm_compute in Hj. by injection Hj as <-.
  - exists s', j'. split; [exact H1|]. split; [exact H2|exact H4].
Defined.

(** ** Rerequesting *)

Lemma find_app_None {A} (f : A → bool) l x :
  List.find f l = None → f x = true → List.find f (l ++ [x]) = Some x.
Proof.
  induction l as [|y l IH]; simpl; intros Hn Hx; [by rewrite Hx|].
  destruct (f y); [done|auto].
Qed.

Lemma find_ext_in {A} (f g : A → bool) l :
  (∀ x, x ∈ l → f x = g x) → List.find f l = List.find g l.
Proof.
  induction l as [|y l IH]; simpl; intros Hfg; [done|].
  rewrite (Hfg y) by set_solver. destruct (g y); [done|]. apply IH. set_solver.
Qed.

(** Rerequesting a job of an existing run, none of whose attempts is the
    successor of this one, records a new queued attempt with the next attempt
    number under a fresh id, points the run's job key at it, leaves the run
    open, and is idempotent: asking again returns the same id and changes
    nothing. *)
Theorem rerequest_creates_one_attempt `{MemoryEnv} `{!MemoryEnvOk} s id orig run now :
  reachable s → jobs s !! id = Some orig → runs s !! JRunID orig = Some run →
  List.find (fun jid => bool_decide (is_next_attempt orig (getJob s jid)))
    (getRunJobs s (JRunID orig)) = None →
  ∃ s' newID j run', mem_RerequestJob id now s = (s', Ok newID) ∧
    jobs s !! newID = None ∧ jobs s' !! newID = Some j ∧
    JStatus j = JobQueued ∧ JAttempt j = (JAttempt orig + 1)%Z ∧ JJobKey j = JJobKey orig ∧
    default ∅ (byJobKey s' !! JRunID orig) !! JJobKey orig = Some newID ∧
    runs s' !! JRunID orig = Some run' ∧ run_terminal (RStatus run') = false ∧
    ∀ now', mem_RerequestJob id now' s' = (s', Ok newID).
Proof.
  intros Hr Hj Hrun Hfind. pose proof (wf_base _ (reachable_wf s Hr)) as Hwf.
  assert (is_Some (byJobKey s !! JRunID orig)) as [idx Hidx].
  { apply (wf_run_index _ Hwf). by eexists. }
  pose proof (fresh_job s Hwf) as Hfresh.
  unfold mem_RerequestJob at 1. rewrite Hj, Hfind. cbv zeta.
  change (with_runJobs _ _) with (addAttempt (retryJob (newid (minted s)) orig now) s).
  set (j := retryJob (newid (minted s)) orig now). set (s2 := addAttempt j s).
  change (byJobKey s2) with (byJobKey s). rewrite Hidx.
  set (s3 := with_byJobKey _ s2). set (s' := reopenRun (JRunID orig) s3).
  assert (jobs s' = jobs s2 ∧ runJobs s' = runJobs s2 ∧ byJobKey s' = byJobKey s3) as (Ej & Erj & Eb).
  { unfold s', reopenRun. destruct (runs s3 !! _); [|done]. by destruct (run_terminal _). }
  assert (getJob s' (newid (minted s)) = j) as Hg.
  { unfold getJob. rewrite Ej. unfold s2; simpl. by rewrite lookup_insert_eq. }
  assert (∃ run', runs s' !! JRunID orig = Some run' ∧ run_terminal (RStatus run') = false)
    as (run' & Hrun' & Hopen).
  { unfold s', reopenRun. change (runs s3) with (runs s). rewrite Hrun.
    destruct (run_terminal (RStatus run)) eqn:Ht; simpl; [rewrite lookup_insert_eq|]; eauto. }
  exists s', (newid (minted s)), j, run'. split_and!; try done.
  - rewrite Ej. unfold s2; simpl. by rewrite lookup_insert_eq.
  - rewrite Eb. unfold s3; simpl. rewrite lookup_insert_eq. simpl. by rewrite lookup_insert_eq.
  - intros now'. unfold mem_RerequestJob.
    assert (jobs s' !! id = Some orig) as ->.
    { rewrite Ej. unfold s2; simpl. rewrite lookup_insert_ne; [done|]. intros <-. congruence. }
    assert (getRunJobs s' (JRunID orig) = getRunJobs s (JRunID orig) ++ [newid (minted s)]) as ->.
    { unfold getRunJobs at 1. rewrite Erj. unfold s2; simpl. by rewrite lookup_insert_eq. }
    rewrite (find_app_None _ _ (newid (minted s))).
    + by rewrite Hg.
    + rewrite <-Hfind. apply find_ext_in. intros jid Hin. do 3 f_equal.
      unfold getJob. rewrite Ej. unfold s2; simpl. rewrite lookup_insert_ne; [done|].
      intros <-. destruct (run_job_lookup _ _ _ Hwf Hin) as (? & ? & _). congruence.
    + rewrite Hg. by apply bool_decide_eq_true_2.
Qed.

Lemma rerequest_creates_one_attempt_witness :
  ∃ s' newID, mem_RerequestJob demo_build 50 demo_build_failed = (s', Ok newID) ∧
              job_status s' newID = Some JobQueued.
Proof.
  destruct (jobs demo_build_failed !! demo_build) as [j|] eqn:Hj; [|by vm_compute in Hj].
  assert (JRunID j = demo_run) as Hjr by (vm_compute in Hj; by injection Hj as <-).
  destruct (runs demo_build_failed !! JRunID j) as [run|] eqn:Hrun.
  2: { rewrite Hjr in Hrun. by vm_compute in Hrun. }
  destruct (rerequest_creates_one_attempt demo_build_failed demo_build j run 50
    demo_failed_reachable Hj Hrun) as (s' & newID & j' & run' & H1 & _ & H2 & H3 & _).
  - vm_compute in Hj. injection Hj as <-. vm_compute. reflexivity.
  - exists s', newID. split; [exact H1|]. unfold job_status. rewrite H2. simpl. by rewrite H3.
Defined.

(** ** Collection *)

Lemma gc_ready_of_elem s r j :
  j ∈ gc_ready_of s r ↔
  ∃ run id, runs s !! r = Some run ∧ run_terminal (RStatus run) = true ∧
    id ∈ getRunJobs s r ∧ j = getJob s id ∧ gc_ready j = true.
Proof.
  unfold gc_ready_of. destruct (runs s !! r) as [run|]; [|set_solver].
  destruct (run_terminal (RStatus run)) eqn:Ht.
  - rewrite list_elem_of_In, filter_In, <-list_elem_of_In. change @map with @list_fmap.
    rewrite list_elem_of_fmap. split.
    + intros [(id & -> & Hin) Hgc]. by exists run, id.
    + intros (run' & id & Hrun & _ & Hin & -> & Hgc). split; [eauto|done].
  - split; [set_solver|]. intros (run' & id & Hrun & Ht' & _). simplify_eq. congruence.
Qed.

(** [ListGCReadyJobs] lists exactly the terminal, not yet collected jobs
    of terminal runs, and leaves the store as it is. *)
Theorem gc_lists_finished_uncollected `{MemoryEnv} `{!MemoryEnvOk} s :
  reachable s →
  ∃ l, mem_ListGCReadyJobs s = (s, Ok l) ∧
    ∀ j, j ∈ l ↔ jobs s !! JID j = Some j ∧ job_terminal (JStatus j) = true ∧
                 JActiveCollectedAt j = None ∧
                 ∃ run, runs s !! JRunID j = Some run ∧ run_terminal (RStatus run) = true.
Proof.
  intros Hr. pose proof (wf_base _ (reachable_wf s Hr)) as Hwf.
  eexists. split; [done|]. intros j.
  rewrite list_elem_of_In, in_flat_map. setoid_rewrite <-list_elem_of_In.
  setoid_rewrite gc_ready_of_elem. unfold sortedRunIDsLocked, sort_strings.
  setoid_rewrite sort_by_elem. split.
  - intros (r & _ & run & id & Hrun & Ht & Hin & -> & Hgc).
    destruct (run_job_lookup _ _ _ Hwf Hin) as (j & Hj & Hjr). rewrite (getJob_Some _ _ _ Hj) in *.
    rewrite (wf_job_id _ Hwf _ _ Hj). unfold gc_ready in Hgc. breflect.
    split_and!; try done; [by destruct (JActiveCollectedAt j)|]. rewrite Hjr. eauto.
  - intros (Hj & Ht & Hc & run & Hrun & Hrt). exists (JRunID j). split.
    + apply list_elem_of_fmap. exists (JRunID j, run). split; [done|]. by apply elem_of_map_to_list.
    + exists run, (JID j). split_and!; try done.
      * eapply wf_job_owned; eauto.
      * by rewrite (getJob_Some _ _ _ Hj).
      * unfold gc_ready. by rewrite Ht, Hc.
Qed.

Lemma gc_lists_finished_uncollected_witness :
  ∃ l, mem_ListGCReadyJobs demo_build_failed = (demo_build_failed, Ok l).
Proof.
  destruct (gc_lists_finished_uncollected demo_build_failed demo_failed_reachable) as (l & H1 & _).
  exists l. exact H1.
Defined.

(** ** Runs are never forgotten, and keep their delivery *)

Section runs.
Context `{MemoryEnv} `{!MemoryEnvOk}.

Definition runs_keep (s s' : store) : Prop :=
  ∀ r run, runs s !! r = Some run → ∃ run', runs s' !! r = Some run' ∧ RDelivery run' = RDelivery run.

#[export] Instance runs_keep_preorder : PreOrder runs_keep.
Proof.
  split; [by intros s r run Hr; exists run|]. intros s1 s2 s3 H12 H23 r run Hr.
  destruct (H12 r run Hr) as (run2 & Hr2 & E2). destruct (H23 r run2 Hr2) as (run3 & Hr3 & E3).
  exists run3. split; [done|congruence].
Qed.

Lemma runs_keep_eq s s' : runs s' = runs s → runs_keep s s'.
Proof. intros E r run Hr. exists run. by rewrite E. Qed.

Lemma runs_keep_set s s' r run st fin :
  runs s !! r = Some run → runs s' = <[r := set_run st fin run]> (runs s) → runs_keep s s'.
Proof.
  intros Hr E r' run' Hr'. rewrite E, lookup_insert. case_decide as Heq; [|by exists run'].
  subst. rewrite Hr in Hr'. injection Hr' as <-. by eexists.
Qed.

Lemma refresh_runs_keep r now s : runs_keep s (refreshRunLocked r now s).
Proof.
  unfold refreshRunLocked. destruct (runs s !! r) as [run|] eqn:Hr; [|done].
  destruct (run_terminal _); [done|]. destruct (_ && _); [|done]. by eapply runs_keep_set.
Qed.

Lemma skipJob_runs_keep id s : runs_keep s (skipJob id s).
Proof.
  unfold skipJob. destruct (TransitionJob _ _) as [next [e|]]; [done|].
  etrans; [|apply refresh_runs_keep]. by apply runs_keep_eq.
Qed.

Lemma claim_runs_keep picks s : runs_keep s (fst (claim_loop picks s)).
Proof.
  revert s. induction picks as [|p picks IH]; intros s; simpl; [done|].
  destruct (dependencyStateLocked s (fst p)); [by apply runs_keep_eq|apply IH|].
  case_bool_decide; [by apply runs_keep_eq|]. etrans; [apply skipJob_runs_keep|apply IH].
Qed.

Lemma cancel_fold_runs now ids s : runs (fold_left (cancelJob now) ids s) = runs s.
Proof.
  revert s. induction ids as [|id ids IH]; intros s; simpl; [done|]. rewrite IH.
  unfold cancelJob. by destruct (TransitionJob _ _) as [next [e|]].
Qed.

Lemma createJobs_runs intents r now ki ids s : runs (fst (createJobs intents r now ki ids s)) = runs s.
Proof.
  revert ki ids s. induction intents as [|i intents IH]; intros ki ids s; simpl; [done|].
  destruct (ki !! IJobKey i); [done|]. by rewrite IH.
Qed.

Lemma bindRun_runs k r s : runs (bindRun k r s) = runs s.
Proof. unfold bindRun. by destruct (deliveries s !! k). Qed.

Lemma CreateRun_runs_keep seed now s : store_wf s → runs_keep s (fst (mem_CreateRun seed now s)).
Proof.
  intros Hwf. unfold mem_CreateRun, getRunLocked. destruct (deliveries s !! _) as [rec|]; [|done].
  case_bool_decide; [by destruct (runs s !! DRRunID rec)|]. case_bool_decide; [done|].
  pose proof (createJobs_runs (SJobs seed) (newid (minted s)) now ∅ [] (with_minted (S (minted s)) s)) as Er.
  destruct (createJobs _ _ _ _ _ _) as [s1 [[ki ids]|e|]]; simpl in *; [|by apply runs_keep_eq..].
  intros r run Hr. unfold commitRun. rewrite bindRun_runs. simpl. rewrite Er, lookup_insert_ne; [by exists run|].
  intros <-. by rewrite (fresh_run s (wf_base _ Hwf)) in Hr.
Qed.

Lemma Rerequest_runs_keep id now s : runs_keep s (fst (mem_RerequestJob id now s)).
Proof.
  unfold mem_RerequestJob. destruct (jobs s !! id) as [orig|]; [|done].
  destruct (List.find _ _); [done|]. simpl. destruct (byJobKey s !! JRunID orig); simpl; [|by apply runs_keep_eq].
  unfold reopenRun. simpl. destruct (runs s !! JRunID orig) as [run|] eqn:Hr; [|by apply runs_keep_eq].
  destruct (run_terminal _); [by eapply runs_keep_set|by apply runs_keep_eq].
Qed.

Lemma exec_runs_keep o s : store_wf s → runs_keep s (exec o s).
Proof.
  intros Hwf. destruct o; simpl.
  - apply runs_keep_eq. unfold mem_RecordDelivery. by destruct (deliveries s !! DKey d).
  - by apply CreateRun_runs_keep.
  - apply claim_runs_keep.
  - by apply runs_keep_eq.
  - apply runs_keep_eq. unfold mem_AckDispatched. by repeat case_match.
  - unfold mem_ApplyObserved. destruct (jobs s !! id) as [j|]; [|done]. destruct (job_terminal _); [done|].
    destruct (JobStatusFromPhase phase); [|apply refresh_runs_keep]. destruct (CanAdvanceJob _ _); [|done].
    etrans; [|apply refresh_runs_keep]. by apply runs_keep_eq.
  - unfold mem_CancelRun. destruct (runs s !! id) as [run|] eqn:Hr; [|done].
    destruct (run_terminal _); [by case_bool_decide|]. eapply runs_keep_set; [done|]. simpl. by rewrite cancel_fold_runs.
  - apply Rerequest_runs_keep.
  - apply runs_keep_eq. unfold mem_MarkCollected. by repeat case_match.
Qed.

(** A run that was just created belongs to its delivery. *)
Lemma created_run seed now s s' run :
  mem_CreateRun seed now s = (s', Ok (run, true)) →
  runs s' !! RID run = Some run ∧ RDelivery run = SDelivery seed.
Proof.
  unfold mem_CreateRun, getRunLocked. destruct (deliveries s !! _) as [rec|]; [|done].
  case_bool_decide; [by destruct (runs s !! DRRunID rec)|]. case_bool_decide; [done|].
  destruct (createJobs _ _ _ _ _ _) as [s1 [[ki ids]|e|]]; [|done..]. intros [= <- <-].
  unfold commitRun. rewrite bindRun_runs. simpl. by rewrite lookup_insert_eq.
Qed.

(** The new attempt is a job of the same run. *)
Lemma rerequested_job id now s s' n :
  store_wf s → mem_RerequestJob id now s = (s', Ok n) →
  ∃ j j', jobs s !! id = Some j ∧ jobs s' !! n = Some j' ∧ JRunID j' = JRunID j.
Proof.
  intros Hwf. unfold mem_RerequestJob. destruct (jobs s !! id) as [orig|]; [|done].
  destruct (List.find _ _) as [jid|] eqn:Ef.
  - intros [= <- <-]. apply find_some in Ef as [Hin _]. apply list_elem_of_In in Hin.
    destruct (run_job_lookup _ _ _ (wf_base _ Hwf) Hin) as (j & Hj & Hr). exists orig, j.
    rewrite (getJob_Some _ _ _ Hj), (wf_job_id _ (wf_base _ Hwf) _ _ Hj). by split_and!.
  - simpl. destruct (byJobKey s !! JRunID orig); [|done]. intros [= <- <-].
    exists orig, (retryJob (newid (minted s)) orig now). split_and!; [done| |done].
    unfold reopenRun. simpl. by repeat (case_match; simpl); rewrite lookup_insert_eq.
Qed.
End runs.

(** ** Departures *)

Definition dup_seed : RunSeed := {|
  SDelivery := demo_key; SEvent := demo_event;
  SJobs := [demo_intent "build" [] ""; demo_intent "build" [] ""] |}.

Definition dup_store : store :=
  exec_all [OpRecordDelivery demo_delivery; OpCreateRun dup_seed 5] NewDurableStore.

(** A failed [CreateRun] is not atomic: when two jobs share a key it
    returns an error and creates no run, yet the jobs before the duplicate
    stay in the store, queued; the dispatcher then claims such an orphan. *)
Theorem failed_create_run_leaves_claimable_orphan :
  snd (mem_CreateRun dup_seed 5 (exec (OpRecordDelivery demo_delivery) NewDurableStore))
    = Err (ErrDuplicateJobKey "build" demo_run) ∧
  runs dup_store !! demo_run = None ∧
  job_status dup_store demo_build = Some JobQueued ∧
  (JID <$> match snd (mem_ClaimNextQueuedJob dup_store) with Ok j => Some j | _ => None end)
    = Some demo_build.
Proof. vm_compute. done. Qed.

(** Rerequesting such an orphan panics: its run has no key index, and
    the code assigns into the missing (nil) map. *)
Theorem rerequest_orphan_panics : snd (mem_RerequestJob demo_build 9 dup_store) = Panic.
Proof. vm_compute. done. Qed.

(** The failed build is retried and succeeds, then the test job succeeds. *)
Definition retried : store :=
  exec_all [OpApplyObserved demo_test PhaseSkipped 9;
            OpRerequestJob demo_build 10;
            OpApplyObserved "idxxx" PhaseSucceeded 11] demo_build_failed.

(** A rerun cannot turn a run green: the failed first attempt stays in
    the run's job list and in its aggregate, so after the new attempt
    succeeded the run is failed again. *)
Theorem rerun_success_leaves_run_failed :
  reachable retried ∧
  job_status retried demo_build = Some JobFailed ∧
  job_status retried "idxxx" = Some JobSucceeded ∧
  run_status retried demo_run = Some RunFailed.
Proof.
  split; [|by vm_compute]. unfold reachable. etrans; [apply demo_failed_reachable|apply exec_all_steps].
Qed.
