(* ===== verification/StoreAttempts.v ===== *)
(** * The attempts of a job (internal/storage/memory/store.go)

    The jobs of a run with one key are its attempts, numbered without gaps; the
    index of the run names the latest.  A run whose jobs depend on each other's
    keys once each keeps that: every dependency resolves.  [attempts_ok] holds of
    every store reached by creating such runs. *)

From S2P Require Import Prelude GoStrings RunModel SchedulerPort MemoryStore StoreInvariant StoreOps StoreClaims StoreLifecycle.

Implicit Types s : store.

(** Attempts of the same job of the same run. *)
Definition same_slot (a b : JobRunRecord) : Prop := JRunID a = JRunID b ∧ JJobKey a = JJobKey b.

Record attempts_ok (s : store) : Prop := {
  at_index : ∀ id j, jobs s !! id = Some j → ∃ idx id' j', byJobKey s !! JRunID j = Some idx ∧
    idx !! JJobKey j = Some id' ∧ jobs s !! id' = Some j' ∧ same_slot j j' ∧ (JAttempt j ≤ JAttempt j')%Z;
  at_unique : ∀ i1 i2 j1 j2, jobs s !! i1 = Some j1 → jobs s !! i2 = Some j2 →
    same_slot j1 j2 → JAttempt j1 = JAttempt j2 → i1 = i2;
  at_all : ∀ id j, jobs s !! id = Some j → (1 ≤ JAttempt j)%Z ∧
    ∀ a, (1 ≤ a ≤ JAttempt j)%Z → ∃ i k, jobs s !! i = Some k ∧ same_slot j k ∧ JAttempt k = a;
  at_deps : ∀ id j, jobs s !! id = Some j → NoDup (JDependsOn j) ∧
    ∀ k, k ∈ JDependsOn j → ∃ i' j', jobs s !! i' = Some j' ∧ JRunID j' = JRunID j ∧ JJobKey j' = k;
  at_claimed : ∀ id, id ∈ claimed s → is_Some (jobs s !! id)
}.

(** Runs whose jobs have distinct keys, and depend on some of them once each. *)
Definition seed_ok (seed : RunSeed) : Prop :=
  NoDup (map IJobKey (SJobs seed)) ∧
  ∀ i, i ∈ SJobs seed → NoDup (IDependsOn i) ∧ ∀ k, k ∈ IDependsOn i → k ∈ map IJobKey (SJobs seed).

Lemma NewDurableStore_attempts : attempts_ok NewDurableStore.
Proof. split; intros *; simpl; try (by rewrite lookup_empty); set_solver. Qed.

(** ** Operations that create no job *)

(** The same jobs under the same keys, changed only as [job_le] allows. *)
Record static (s s' : store) : Prop := {
  st_le : jobs_le s s';
  st_dom : ∀ id, is_Some (jobs s' !! id) → is_Some (jobs s !! id);
  st_index : byJobKey s' = byJobKey s;
  st_runJobs : runJobs s' = runJobs s
}.

#[export] Instance static_refl : Reflexive static.
Proof. intros s. by split. Qed.

#[export] Instance static_trans : Transitive static.
Proof. intros s1 s2 s3 [] []. split; [by etrans|auto|congruence..]. Qed.

(** A job before and after. *)
Lemma static_back s s' id j' :
  static s s' → jobs s' !! id = Some j' → ∃ j, jobs s !! id = Some j ∧ job_le j j'.
Proof.
  intros [] Hj'. destruct (st_dom0 id) as [j Hj]; [by eexists|]. exists j. split; [done|].
  destruct (st_le0 _ _ Hj) as (j1 & ? & ?). by simplify_eq.
Qed.

Lemma same_slot_le a a' b b' : job_le a a' → job_le b b' → same_slot a' b' ↔ same_slot a b.
Proof. intros [] []. unfold same_slot. by rewrite le_run, le_key, le_run0, le_key0. Qed.

Lemma static_attempts s s' :
  static s s' → (∀ id, id ∈ claimed s' → is_Some (jobs s !! id)) → attempts_ok s → attempts_ok s'.
Proof.
  intros Hst Hc [Hi Hu Hd Hdep _]. pose proof (fun id j' => static_back s s' id j' Hst) as Hback.
  pose proof (st_le _ _ Hst) as Hle. split.
  - intros id j' (j & Hj & Hl)%Hback. destruct (Hi _ _ Hj) as (idx & i1 & j1 & E & E' & Hj1 & Hs & Ha).
    destruct (Hle _ _ Hj1) as (j1' & Hj1' & Hl1). exists idx, i1, j1'. rewrite (st_index _ _ Hst).
    rewrite (le_run _ _ Hl), (le_key _ _ Hl), (le_attempt _ _ Hl), (le_attempt _ _ Hl1). split_and!; try done.
    by apply (same_slot_le _ _ _ _ Hl Hl1).
  - intros i1 i2 j1' j2' (j1 & Hj1 & Hl1)%Hback (j2 & Hj2 & Hl2)%Hback Hs%(same_slot_le _ _ _ _ Hl1 Hl2).
    rewrite (le_attempt _ _ Hl1), (le_attempt _ _ Hl2). eauto.
  - intros id j' (j & Hj & Hl)%Hback. rewrite (le_attempt _ _ Hl). destruct (Hd _ _ Hj) as [? Hall]. split; [done|].
    intros a (i & k & Hk & Hs & Ha)%Hall. destruct (Hle _ _ Hk) as (k' & Hk' & Hlk).
    exists i, k'. rewrite (le_attempt _ _ Hlk). split_and!; try done. by apply (same_slot_le _ _ _ _ Hl Hlk).
  - intros id j' (j & Hj & Hl)%Hback. destruct (Hdep _ _ Hj) as [Hnd Hres]. rewrite (le_deps _ _ Hl). split; [done|].
    intros k Hk. destruct (Hres k Hk) as (i1 & j1 & Hj1 & Hr & Hkey). destruct (Hle _ _ Hj1) as (j1' & Hj1' & Hl1).
    exists i1, j1'. rewrite (le_run _ _ Hl1), (le_key _ _ Hl1), (le_run _ _ Hl). done.
  - intros id Hin. destruct (Hc id Hin) as [j Hj]. destruct (Hle _ _ Hj) as (j' & ? & _). by eexists.
Qed.

Lemma insert_dom s id j j' i :
  jobs s !! id = Some j → is_Some (<[id := j']> (jobs s) !! i) → is_Some (jobs s !! i).
Proof. intros Hj. rewrite lookup_insert. case_decide; [subst; eauto|done]. Qed.

Lemma static_put s id j j' :
  jobs s !! id = Some j → job_le j j' → static s (putJob id j' s).
Proof.
  intros Hj Hl. split; [by eapply jobs_le_put| |done..]. intros i. by eapply insert_dom.
Qed.

Lemma static_same s s' :
  jobs s' = jobs s → byJobKey s' = byJobKey s → runJobs s' = runJobs s → static s s'.
Proof. intros E ??. split; [by apply jobs_le_eq|by rewrite E|done..]. Qed.

Lemma refresh_static r now s : static s (refreshRunLocked r now s).
Proof. apply static_same; [apply refresh_jobs|..]; unfold refreshRunLocked; by repeat case_match. Qed.

Section ops.
Context `{MemoryEnv} `{!MemoryEnvOk}.

Lemma cancel_fold_index now ids s : byJobKey (fold_left (cancelJob now) ids s) = byJobKey s.
Proof.
  revert s. induction ids as [|id ids IH]; intros s; simpl; [done|]. rewrite IH. unfold cancelJob.
  by destruct (TransitionJob _ _) as [? [|]].
Qed.

Lemma cancel_fold_runJobs now ids s : runJobs (fold_left (cancelJob now) ids s) = runJobs s.
Proof.
  revert s. induction ids as [|id ids IH]; intros s; simpl; [done|]. rewrite IH. unfold cancelJob.
  by destruct (TransitionJob _ _) as [? [|]].
Qed.

Definition creates (o : op) : Prop :=
  match o with OpCreateRun _ _ | OpRerequestJob _ _ => True | _ => False end.

Lemma claim_static s :
  store_wf s → static s (fst (mem_ClaimNextQueuedJob s)) ∧
  ∀ id, id ∈ claimed (fst (mem_ClaimNextQueuedJob s)) → id ∈ claimed s ∨ is_Some (jobs s !! id).
Proof.
  intros Hwf. pose proof (Claim_wf_le s Hwf) as [_ Hle]. unfold mem_ClaimNextQueuedJob in *.
  destruct (claim_loop (candidates s) s) as [s' res] eqn:E. simpl in *.
  apply claim_loop_spec in E as
    [(s1 & pre & p & post & j & _ & _ & -> & [] & Hj & _)|(_ & [] & _)]; [..|done|apply candidates_NoDup|].
  - split; [split; [done|apply sk_dom|done..]|]. simpl. rewrite sk_claimed. intros id. rewrite elem_of_union, elem_of_singleton.
    intros [->|?]; [right; apply sk_dom; by eexists|by left].
  - split; [split; [done|apply sk_dom|done..]|]. rewrite sk_claimed. auto.
  - intros p (j & ? & ? & ? & _)%candidates_elem. by exists j.
Qed.

Lemma exec_static o s :
  store_wf s → ¬ creates o →
  static s (exec o s) ∧ ∀ id, id ∈ claimed (exec o s) → id ∈ claimed s ∨ is_Some (jobs s !! id).
Proof.
  intros Hwf Hc. pose proof (exec_wf_le o s Hwf) as [_ Hle].
  destruct o as [d|?|  |id|id obj now|id phase now|r now|?|id now]; simpl in *; try (by destruct Hc); try clear Hc.
  - unfold mem_RecordDelivery in *. destruct (deliveries s !! DKey d); (split; [by apply static_same|auto]).
  - by apply claim_static.
  - split; [by apply static_same|]. simpl. intros i. set_solver.
  - unfold mem_AckDispatched in *. destruct (jobs s !! id) as [j|] eqn:Hj; [|by split; [|auto]].
    assert (∀ st, jobs_le s (with_claimed (claimed s ∖ {[id]})
              (putJob id (set_active (ObjName obj) (ObjUID obj) now (set_status st j)) s)) →
            static s (with_claimed (claimed s ∖ {[id]}) (putJob id (set_active (ObjName obj) (ObjUID obj) now (set_status st j)) s)) ∧
            ∀ i, i ∈ claimed s ∖ {[id]} → i ∈ claimed s ∨ is_Some (jobs s !! i)) as Hput.
    { intros st Hst. split; [|set_solver]. split; [done| |done..]. intros i. by eapply insert_dom. }
    destruct (JStatus j); try (by split; [|auto]); [by apply Hput|]. destruct (_ && _); [by split; [|auto]|by apply Hput].
  - unfold mem_ApplyObserved in *. destruct (jobs s !! id) as [j|] eqn:Hj; [|by split; [|auto]].
    destruct (job_terminal _); [by split; [|auto]|].
    assert (∀ r s', claimed (refreshRunLocked r now s') = claimed s') as Hcl by (intros; unfold refreshRunLocked; by repeat case_match).
    destruct (JobStatusFromPhase phase) as [target|].
    + destruct (CanAdvanceJob _ _); [|by split; [|auto]]. simpl in *. rewrite Hcl. split; [|auto].
      etrans; [|apply refresh_static]. split; [|intros i; by eapply insert_dom|done..].
      etrans; [exact Hle|]. apply jobs_le_eq. by rewrite refresh_jobs.
    + simpl. rewrite Hcl. split; [apply refresh_static|auto].
  - unfold mem_CancelRun in *. destruct (runs s !! r) as [run|] eqn:Hr; [|by split; [|auto]].
    destruct (run_terminal _); [by case_bool_decide; (split; [|auto])|]. simpl in *. split; [split; simpl|].
    + exact Hle.
    + intros i. rewrite cancel_fold_lookup; [|intros i' Hi'; destruct (run_job_lookup _ _ _ (wf_base _ Hwf) Hi') as (j & Hj & _); eauto].
      case_decide; [|done]. destruct (jobs s !! i); [eauto|by intros []].
    + apply cancel_fold_index.
    + apply cancel_fold_runJobs.
    + intros i. rewrite cancel_fold_claimed. set_solver.
  - unfold mem_MarkCollected in *. destruct (jobs s !! id) as [j|] eqn:Hj; [|by split; [|auto]].
    destruct (JActiveCollectedAt j); simpl; [by split; [|auto]|]. split; [|auto]. split; [done| |done..].
    intros i. by eapply insert_dom.
Qed.

(** ** A new run *)

(** The loop of [CreateRun] for the run [r], after the intents [made]. *)
Record creating (s0 s : store) (r : string) (ki : gmap string string) (made : list JobIntent) : Prop := {
  cr_kept : ∀ id j, jobs s0 !! id = Some j → jobs s !! id = Some j;
  cr_job : ∀ id j, jobs s !! id = Some j → jobs s0 !! id = Some j ∨
    (JRunID j = r ∧ ki !! JJobKey j = Some id ∧ JAttempt j = 1%Z ∧
     ∃ i, i ∈ made ∧ JJobKey j = IJobKey i ∧ JDependsOn j = IDependsOn i);
  cr_made : ∀ i, i ∈ made → ∃ id j, jobs s !! id = Some j ∧ JRunID j = r ∧ JJobKey j = IJobKey i;
  cr_keys : ∀ k, is_Some (ki !! k) → k ∈ map IJobKey made;
  cr_rest : byJobKey s = byJobKey s0 ∧ claimed s = claimed s0 ∧ deliveries s = deliveries s0 ∧ runs s = runs s0;
  cr_fresh : ∀ n, minted s ≤ n → jobs s !! newid n = None
}.

Lemma creating_add s0 s r ki made i now :
  creating s0 s r ki made → IJobKey i ∉ map IJobKey made →
  creating s0 (addJob (newJob (newid (minted s)) r i now) s) r (<[IJobKey i := newid (minted s)]> ki) (made ++ [i]).
Proof.
  intros [Hk Hj Hm Hks Hr Hf] Hi. pose proof (Hf (minted s) ltac:(lia)) as Hnew. split; simpl.
  - intros id j Hj0. rewrite lookup_insert_ne; [by apply Hk|]. intros <-. apply Hk in Hj0. congruence.
  - intros id j [[-> ->]|Hid]%addJob_cases.
    + right. simpl. rewrite lookup_insert_eq. split_and!; try done. exists i. set_solver.
    + destruct (Hj id j Hid) as [?|(? & Hki & ? & i' & ? & ? & ?)]; [by left|right].
      rewrite lookup_insert_ne. { split_and!; try done. exists i'. set_solver. }
      intros E. apply Hi. rewrite E. apply Hks. by eexists.
  - intros i' [Hin| ->%list_elem_of_singleton]%elem_of_app.
    + destruct (Hm _ Hin) as (id & j & Hid & ? & ?). exists id, j. rewrite lookup_insert_ne; [done|]. congruence.
    + eexists _, _. by rewrite lookup_insert_eq.
  - intros k. rewrite lookup_insert, map_app. case_decide; [set_solver|]. intros ?%Hks. set_solver.
  - done.
  - intros n Hn. rewrite lookup_insert_ne; [apply Hf; lia|]. intros E%newid_inj. lia.
Qed.

Lemma createJobs_creating intents r now ki ids s0 s made :
  creating s0 s r ki made → NoDup (map IJobKey (made ++ intents)) →
  ∃ s' ki' ids', createJobs intents r now ki ids s = (s', Ok (ki', ids')) ∧ creating s0 s' r ki' (made ++ intents).
Proof.
  revert ki ids s made. induction intents as [|i intents IH]; intros ki ids s made Hc Hnd; simpl.
  { rewrite app_nil_r. eauto. }
  assert (IJobKey i ∉ map IJobKey made) as Hi.
  { rewrite map_app in Hnd. simpl in Hnd. apply NoDup_app in Hnd as (_ & Hd & _). intros Hin. apply (Hd _ Hin). by left. }
  destruct (ki !! IJobKey i) eqn:Hki.
  { destruct Hi. eapply cr_keys; [exact Hc|]. by eexists. }
  change (i :: intents) with ([i] ++ intents) in *. rewrite app_assoc in *.
  apply (IH _ _ _ (made ++ [i])); [|done]. by apply creating_add.
Qed.

(** The jobs of the new run are first attempts, under their keys. *)
Lemma created_attempts s0 s s' r ki seed :
  seed_ok seed → attempts_ok s0 → (∀ id j, jobs s0 !! id = Some j → JRunID j ≠ r) →
  creating s0 s r ki (SJobs seed) →
  jobs s' = jobs s → byJobKey s' = <[r := ki]> (byJobKey s) → claimed s' = claimed s →
  attempts_ok s'.
Proof.
  intros [_ Hdeps] [Hi Hu Hd Hdep Hcl] Hr [Hk Hj Hm Hks (Eb & Ec & _) _] Ej' Eb' Ec'.
  assert (∀ i1 j1 j2, jobs s0 !! i1 = Some j1 → JRunID j2 = r → same_slot j1 j2 → False) as Hcross.
  { intros i1 j1 j2 H1 H2 [E _]. by apply (Hr _ _ H1); congruence. }
  split; rewrite ?Ej', ?Eb', ?Ec', ?Eb, ?Ec.
  - intros id j Hid. destruct (Hj _ _ Hid) as [H0'|(Er & Hki & Ha & _)].
    + destruct (Hi _ _ H0') as (idx & i' & j' & ? & ? & ? & ? & ?). exists idx, i', j'.
      rewrite lookup_insert_ne by (intros E; exact (Hr _ _ H0' (eq_sym E))). split_and!; auto.
    + exists ki, id, j. rewrite Er, lookup_insert_eq. by split_and!.
  - intros i1 i2 j1 j2 H1 H2 Hs Ha. destruct (Hj _ _ H1) as [G1|(R1 & K1 & _)], (Hj _ _ H2) as [G2|(R2 & K2 & _)].
    + eauto.
    + by destruct (Hcross i1 j1 j2).
    + destruct (Hcross i2 j2 j1); try done. by destruct Hs.
    + destruct Hs as [_ E]. rewrite E in K1. congruence.
  - intros id j Hid. destruct (Hj _ _ Hid) as [G|(_ & _ & Ha & _)].
    + destruct (Hd _ _ G) as [? Hall]. split; [done|]. intros a (i & k & ? & ? & ?)%Hall. exists i, k. auto.
    + rewrite Ha. split; [lia|]. intros a ?. exists id, j. split_and!; [done..|lia].
  - intros id j Hid. destruct (Hj _ _ Hid) as [H0'|(Er & _ & _ & i & Hin & _ & ->)].
    + destruct (Hdep _ _ H0') as [? Hres]. split; [done|]. intros k (i' & j' & ? & ? & ?)%Hres. exists i', j'. auto.
    + destruct (Hdeps i Hin) as [? Hsub]. split; [done|]. intros k (i' & -> & Hin')%Hsub%list_elem_of_fmap.
      destruct (Hm _ Hin') as (id' & j' & ? & ? & ?). exists id', j'. split_and!; [done|congruence|done].
  - intros id (j & Hj0)%Hcl. exists j. by apply Hk.
Qed.

Lemma CreateRun_attempts seed now s :
  store_wf s → seed_ok seed → attempts_ok s → attempts_ok (fst (mem_CreateRun seed now s)).
Proof.
  intros Hwf Hseed Hat. unfold mem_CreateRun. destruct (deliveries s !! _) as [rec|] eqn:Hd; [|done].
  case_bool_decide. { unfold getRunLocked. by destruct (runs s !! _). }
  case_bool_decide; [done|]. pose proof (wf_base _ Hwf) as Hb. set (s0 := with_minted (S (minted s)) s).
  destruct (createJobs_creating (SJobs seed) (newid (minted s)) now ∅ [] s0 s0 []) as (s' & ki & ids & E & Hc).
  { split; simpl; try done; [by left|set_solver|intros k; rewrite lookup_empty; by intros []|].
    intros n Hn. destruct (jobs s !! newid n) eqn:E; [|done].
    destruct (wf_job_minted _ Hb _ _ E) as [(n' & ? & E') _]. apply newid_inj in E'. lia. }
  { apply Hseed. }
  rewrite E. simpl. eapply (created_attempts s0 s' _ (newid (minted s)) ki seed); try done.
  - by eapply (static_attempts s); [apply static_same|apply (at_claimed _ Hat)|].
  - intros id j Hj Er. destruct (wf_job_minted _ Hb _ _ Hj) as [_ Hm]. rewrite Er in Hm. by apply (not_minted s).
  - unfold commitRun, bindRun. by case_match.
  - unfold commitRun, bindRun. by case_match.
  - unfold commitRun, bindRun. by case_match.
Qed.
End ops.

(** ** A retry *)

Section retry.
Context `{MemoryEnv} `{!MemoryEnvOk}.

(** No job is the next attempt: this one is the last. *)
Lemma no_next_is_last s id j :
  attempts_ok s → jobs s !! id = Some j → (∀ i k, jobs s !! i = Some k → JRunID k = JRunID j → ¬ is_next_attempt j k) →
  ∀ i k, jobs s !! i = Some k → same_slot j k → (JAttempt k ≤ JAttempt j)%Z.
Proof.
  intros Hat Hj Hno i k Hk Hs. destruct (Z.le_gt_cases (JAttempt k) (JAttempt j)) as [?|Hlt]; [done|]. exfalso.
  destruct (proj2 (at_all _ Hat _ _ Hk) (JAttempt j + 1)%Z) as (i3 & j3 & H3 & [Hr Hkey] & Ha).
  { pose proof (proj1 (at_all _ Hat _ _ Hj)). lia. }
  destruct Hs as [Er Ek]. apply (Hno i3 j3); [done|congruence|]. split; [congruence|done].
Qed.

Lemma add_attempt_attempts s s' id j idx now :
  attempts_ok s → jobs s !! id = Some j → jobs s !! newid (minted s) = None → byJobKey s !! JRunID j = Some idx →
  (∀ i k, jobs s !! i = Some k → same_slot j k → (JAttempt k ≤ JAttempt j)%Z) →
  jobs s' = <[newid (minted s) := retryJob (newid (minted s)) j now]> (jobs s) →
  byJobKey s' = <[JRunID j := <[JJobKey j := newid (minted s)]> idx]> (byJobKey s) → claimed s' = claimed s →
  attempts_ok s'.
Proof.
  set (n := newid (minted s)). set (new := retryJob n j now). intros [Hi Hu Hd Hdep Hcl] Hj Hfresh Hidx Hlast Ej Eb Ec.
  assert (∀ i k, jobs s' !! i = Some k ↔ (i = n ∧ k = new) ∨ jobs s !! i = Some k) as Hjobs.
  { intros i k. rewrite Ej, lookup_insert. case_decide as E; [subst i|]; naive_solver. }
  assert (∀ k, same_slot j k ↔ same_slot new k) as Hslot by done.
  split.
  - intros i k Hk. rewrite Eb. destruct (decide (same_slot j k)) as [[Er Ek]|Hne].
    + exists (<[JJobKey j := n]> idx), n, new. rewrite <-Er, <-Ek, !lookup_insert_eq. split_and!; try done.
      * apply Hjobs. by left.
      * apply Hjobs in Hk as [[_ ->]|Hk]; simpl; [lia|]. assert (JAttempt k ≤ JAttempt j)%Z by (by eapply Hlast). lia.
    + apply Hjobs in Hk as [[_ ->]|Hk]; [by destruct Hne|]. destruct (Hi _ _ Hk) as (idx' & i' & j' & E & E' & Hj' & Hs & Ha).
      assert (jobs s' !! i' = Some j') as Hj'' by (apply Hjobs; by right).
      rewrite lookup_insert. case_decide as Er; [|exists idx', i', j'; by split_and!].
      rewrite <-Er, Hidx in E. injection E as <-. eexists _, i', j'. split; [done|].
      rewrite lookup_insert_ne by (intros Ek; by apply Hne). by split_and!.
  - intros i1 i2 j1 j2 [[-> ->]|H1]%Hjobs [[-> ->]|H2]%Hjobs Hs Ha; [done|..|eauto]; exfalso; simpl in Ha.
    + specialize (Hlast _ _ H2 Hs). lia.
    + destruct Hs as [Er Ek]. specialize (Hlast _ _ H1 (conj (eq_sym Er) (eq_sym Ek))). lia.
  - destruct (Hd _ _ Hj) as [Hone Hbelow]. intros i k [[-> ->]|Hk]%Hjobs.
    + simpl. split; [lia|]. intros a Ha. destruct (decide (a = JAttempt j + 1)%Z) as [->|Hne].
      * exists n, new. split; [apply Hjobs; by left|done].
      * destruct (Hbelow a ltac:(lia)) as (i3 & j3 & ? & ? & ?). exists i3, j3. split; [apply Hjobs; by right|done].
    + destruct (Hd _ _ Hk) as [? Hall]. split; [done|]. intros a (i3 & j3 & ? & ? & ?)%Hall.
      exists i3, j3. split; [apply Hjobs; by right|done].
  - assert (∀ k, k ∈ JDependsOn j → ∃ i' j', jobs s' !! i' = Some j' ∧ JRunID j' = JRunID j ∧ JJobKey j' = k) as Hnew.
    { intros k (i' & j' & ? & ?)%(Hdep _ _ Hj). exists i', j'. split; [apply Hjobs; by right|done]. }
    intros i k [[-> ->]|Hk]%Hjobs; [split; [by apply (Hdep _ _ Hj)|exact Hnew]|].
    destruct (Hdep _ _ Hk) as [? Hres]. split; [done|]. intros key (i' & j' & ? & ?)%Hres.
    exists i', j'. split; [apply Hjobs; by right|done].
  - rewrite Ec. intros i [k Hk]%Hcl. exists k. apply Hjobs. by right.
Qed.

Lemma RerequestJob_attempts id now s :
  store_wf s → attempts_ok s → attempts_ok (fst (mem_RerequestJob id now s)).
Proof.
  intros Hwf Hat. pose proof (wf_base _ Hwf) as Hb. unfold mem_RerequestJob.
  destruct (jobs s !! id) as [j|] eqn:Hj; [|done]. destruct (List.find _ _) as [jid|] eqn:Hfind; [done|].
  destruct (at_index _ Hat _ _ Hj) as (idx & _ & _ & Hidx & _).
  cbv zeta. simpl. rewrite Hidx. simpl.
  eapply (add_attempt_attempts s _ id j idx now); try done; [by apply fresh_job| |..];
    [|unfold reopenRun; simpl; by repeat case_match..].
  apply no_next_is_last with id; try done. intros i k Hk Hr Hn.
  assert (i ∈ getRunJobs s (JRunID j)) as Hin.
  { rewrite <-Hr. apply (wf_job_owned _ Hb _ _ Hk). apply (wf_run_index _ Hb). rewrite Hr. eauto. }
  pose proof (find_none _ _ Hfind i ltac:(by apply list_elem_of_In)) as Hf. simpl in Hf.
  rewrite (getJob_Some _ _ _ Hk) in Hf. by breflect.
Qed.

(** ** Every operation *)

(** No job is listed twice for its run. *)
Definition listed_once s : Prop := ∀ r, NoDup (getRunJobs s r).

Lemma createJobs_once intents r now ki ids s :
  NoDup ids → (∀ n, minted s ≤ n → newid n ∉ ids) →
  let x := createJobs intents r now ki ids s in
  runJobs (fst x) = runJobs s ∧ match snd x with Ok (_, ids') => NoDup ids' | _ => True end.
Proof.
  revert ki ids s. induction intents as [|i intents IH]; intros ki ids s Hnd Hf; simpl; [done|].
  destruct (ki !! IJobKey i); [done|].
  edestruct (IH (<[IJobKey i:=newid (minted s)]> ki) (ids ++ [newid (minted s)])) as [Hrj Hids].
  3: { split; [exact Hrj|exact Hids]. }
  - apply NoDup_app. split_and!; [done| |apply NoDup_singleton].
    intros x Hx ->%list_elem_of_singleton. by apply (Hf (minted s)).
  - simpl. intros n Hn. rewrite not_elem_of_app, list_elem_of_singleton. split; [apply Hf; lia|].
    intros E%newid_inj. lia.
Qed.

Lemma CreateRun_once seed now s : listed_once s → listed_once (fst (mem_CreateRun seed now s)).
Proof.
  intros Ho. unfold mem_CreateRun. destruct (deliveries s !! _) as [rec|]; [|done].
  case_bool_decide. { unfold getRunLocked. by destruct (runs s !! _). }
  case_bool_decide; [done|]. set (s0 := with_minted (S (minted s)) s).
  destruct (createJobs_once (SJobs seed) (newid (minted s)) now ∅ [] s0) as [Hrj Hids].
  { constructor. } { intros n _. apply not_elem_of_nil. }
  destruct (createJobs _ _ _ _ _ _) as [s' [[ki ids]|e|]]; simpl in *; intros r; unfold getRunJobs;
    [|rewrite Hrj; apply Ho..].
  unfold commitRun, bindRun. case_match; simpl; rewrite Hrj, lookup_insert; case_decide; try exact Hids; apply Ho.
Qed.

Lemma RerequestJob_once id now s :
  store_wf s → listed_once s → listed_once (fst (mem_RerequestJob id now s)).
Proof.
  intros Hwf Ho. unfold mem_RerequestJob. destruct (jobs s !! id) as [j|]; [|done].
  destruct (List.find _ _); [done|]. cbv zeta. simpl.
  assert (∀ r, NoDup (default [] (<[JRunID j := getRunJobs s (JRunID j) ++ [newid (minted s)]]> (runJobs s) !! r))) as Hnew.
  { intros r. rewrite lookup_insert. case_decide; [|apply Ho]. simpl. apply NoDup_app.
    split_and!; [apply Ho| |apply NoDup_singleton]. intros x Hx ->%list_elem_of_singleton.
    by eapply run_job_minted; [apply Hwf|exact Hx|]. }
  destruct (byJobKey s !! JRunID j); simpl; intros r; [|apply Hnew].
  unfold getRunJobs, reopenRun. repeat case_match; apply Hnew.
Qed.

Lemma exec_once o s : store_wf s → listed_once s → listed_once (exec o s).
Proof.
  intros Hwf Ho. destruct o; try (by apply CreateRun_once); try (by apply RerequestJob_once).
  all: match goal with |- listed_once (exec ?o _) => destruct (exec_static o _ Hwf) as [Hst _]; [by intros []|] end;
    intros r; unfold getRunJobs; rewrite (st_runJobs _ _ Hst); apply Ho.
Qed.

Definition seeded (o : op) : Prop := match o with OpCreateRun seed _ => seed_ok seed | _ => True end.

Lemma exec_attempts o s : store_wf s → seeded o → attempts_ok s → attempts_ok (exec o s).
Proof.
  intros Hwf Hseed Hat. destruct o; try (by apply CreateRun_attempts); try (by apply RerequestJob_attempts).
  all: match goal with |- attempts_ok (exec ?o _) => destruct (exec_static o _ Hwf) as [Hst Hcl]; [by intros []|] end;
    eapply static_attempts; [exact Hst| |exact Hat]; intros i [Hi|Hi]%Hcl; [by apply (at_claimed _ Hat)|exact Hi].
Qed.

Inductive seeded_step : store → store → Prop :=
  | seeded_exec o s : seeded o → seeded_step s (exec o s).

Lemma seeded_attempts s : rtc seeded_step NewDurableStore s → store_wf s ∧ attempts_ok s.
Proof.
  revert s. apply rtc_ind_r.
  - split; [apply NewDurableStore_wf|apply NewDurableStore_attempts].
  - intros s _ _ [o s0 Ho] [Hwf Hat]. split; [by apply exec_wf_le|by apply exec_attempts].
Qed.

(** C39. In a store whose runs were created from well-formed seeds, the attempts of a
    job are numbered 1, 2, ... without gaps and without repetition, the key index
    of the run names the last of them, so that a dependency is judged by its last
    attempt, and every dependency resolves. *)
Theorem attempts_are_numbered s id j :
  rtc seeded_step NewDurableStore s → jobs s !! id = Some j →
  (1 ≤ JAttempt j)%Z ∧
  (∀ i k, jobs s !! i = Some k → same_slot j k → JAttempt k = JAttempt j → i = id) ∧
  (∀ a, (1 ≤ a ≤ JAttempt j)%Z → ∃ i k, jobs s !! i = Some k ∧ same_slot j k ∧ JAttempt k = a) ∧
  (∃ last k, resolves s (JRunID j) (JJobKey j) last ∧ jobs s !! last = Some k ∧
     ∀ i k', jobs s !! i = Some k' → same_slot j k' → (JAttempt k' ≤ JAttempt k)%Z) ∧
  ∀ key, key ∈ JDependsOn j → ∃ i, resolves s (JRunID j) key i.
Proof.
  intros [Hwf Hat]%seeded_attempts Hj. destruct (at_all _ Hat _ _ Hj) as [Hone Hall].
  destruct (at_index _ Hat _ _ Hj) as (idx & last & k & Hidx & Hlast & Hk & [Er Ek] & Ha). unfold resolves.
  split_and!; [done|..|done| |].
  - intros i k' Hk' [Er' Ek'] Ea. symmetry. by eapply (at_unique _ Hat); [done..|].
  - exists last, k. rewrite Hidx. split_and!; try done. intros i k' Hk' [Er' Ek'].
    destruct (at_index _ Hat _ _ Hk') as (idx' & last' & k2 & E & E' & Hk2 & _ & Ha').
    rewrite <-Er', Hidx in E. injection E as <-. rewrite <-Ek', Hlast in E'. injection E' as <-. by simplify_eq.
  - intros key Hkey. destruct (at_deps _ Hat _ _ Hj) as [_ Hdep]. destruct (Hdep _ Hkey) as (i & k' & Hk' & Er' & <-).
    destruct (at_index _ Hat _ _ Hk') as (idx' & i' & _ & E & E' & _). rewrite Er' in E. exists i'. by rewrite E.
Qed.
End retry.

(** ** A retried job *)

Lemma seeded_all os s : Forall seeded os → rtc seeded_step s (exec_all os s).
Proof.
  intros Hos. revert s. induction Hos as [|o os Ho _ IH]; intros s; simpl; [done|].
  eapply rtc_l; [by apply seeded_exec|apply IH].
Qed.

Definition retry_history : list op :=
  demo_start ++ [OpClaimNextQueuedJob; OpAckDispatched demo_build {| ObjName := "jobrun-idx"; ObjUID := "u" |} 6;
    OpApplyObserved demo_build PhaseRunning 7; OpApplyObserved demo_build PhaseFailed 8;
    OpRerequestJob demo_build 9; OpRerequestJob demo_build 10].

Definition retried_store : store := exec_all retry_history NewDurableStore.

Lemma demo_seed_ok : seed_ok demo_seed.
Proof.
  split; [repeat constructor; set_solver|]. intros i [->|[->|Hi%not_elem_of_nil]%elem_of_cons]%elem_of_cons; [..|done]; simpl.
  - split; [constructor|set_solver].
  - split; [repeat constructor; set_solver|set_solver].
Qed.

Lemma retried_seeded : rtc seeded_step NewDurableStore retried_store.
Proof. apply seeded_all. repeat (apply Forall_cons; split; [first [exact demo_seed_ok|exact I]|]). constructor. Qed.

(** The second attempt, asked for twice, is made once. *)
Lemma attempts_are_numbered_witness :
  ∃ i k, jobs retried_store !! i = Some k ∧ JJobKey k = "build" ∧ JAttempt k = 1%Z.
Proof.
  destruct (jobs retried_store !! "idxxx") as [j|] eqn:Hj; [|vm_compute in Hj; discriminate Hj].
  destruct (attempts_are_numbered retried_store "idxxx" j retried_seeded Hj) as (_ & _ & Hall & _).
  assert (JJobKey j = "build" ∧ JAttempt j = 2%Z) as [Hk Ha] by (vm_compute in Hj; injection Hj as <-; split; reflexivity).
  destruct (Hall 1%Z) as (i & k & Hi & [_ E] & Ek); [rewrite Ha; lia|]. exists i, k.
  split; [exact Hi|]. split; [rewrite <-E; exact Hk|exact Ek].
Defined.
