(* ===== verification/Scheduler.v ===== *)
(** * The scheduling use cases (internal/run/scheduler)

    [Ingestor], [Dispatcher], [Projector], [Collector] and [Canceler], written
    against the ports of [SchedulerPort].  [DurableSpec] and [ActiveSpec] state
    what the use cases need from the two stores; the theorems here are proved
    from these interfaces, which [SchedulerMemory] discharges for the in-memory
    stores.  A crash between two store calls is the state in which the first
    call has run and the second has not. *)

From S2P Require Import Prelude GoStrings RunModel SchedulerPort.

Local Open Scope go_scope.

(** ** Use cases *)

(** The compiler port: job intents for an event and its payload. *)
Definition Compiler := Event → string → outcome error (list JobIntent).

Fixpoint firstInvalid `{Unicode} (js : list JobIntent) : option string :=
  match js with
  | [] => None
  | j :: js' => match Validate j with Some msg => Some msg | None => firstInvalid js' end
  end.

Section usecases.
Context `{Unicode} {D A : Type} `{DurableStore D} `{ActiveExecutionStore A}.

Definition Ingest (compile : Compiler) (now : Time) (d : Delivery) : M D (RunID * bool) :=
  let* (rec, _) := mapErr (ErrWrap "record delivery") (RecordDelivery d) in
  if bool_decide (DRRunID rec ≠ "") then mret (DRRunID rec, false)
  else match compile (DEvent d) (DRPayload rec) with
       | Err e => mfail (ErrWrap "compile for delivery" e)
       | Panic => fun s => (s, Panic)
       | Ok js =>
           match firstInvalid js with
           | Some msg => mfail (ErrWrap "delivery" (ErrOther msg))
           | None =>
               if bool_decide (length js = 0) then mret ("", false)
               else
                 let* (run, created) := mapErr (ErrWrap "create run for delivery")
                   (CreateRun {| SDelivery := DKey d; SEvent := DEvent d; SJobs := js |} now) in
                 mret (RID run, created)
           end
       end.

(** Operations on the pair of stores. *)
Definition inD {X} (m : M D X) : M (D * A) X :=
  fun s => match m (fst s) with (d, r) => ((d, snd s), r) end.
Definition inA {X} (m : M A X) : M (D * A) X :=
  fun s => match m (snd s) with (a, r) => ((fst s, a), r) end.

Definition dispatchable (st : JobRunStatus) : bool :=
  bool_decide (st = JobQueued) || bool_decide (st = JobDispatched).

Definition Dispatch (now : Time) (id : JobRunID) : M (D * A) unit :=
  let* job := mapErr (ErrWrap "load before dispatch") (inD (GetJobRun id)) in
  if negb (dispatchable (JStatus job)) then mfail (ErrJobNotDispatchable id (JStatus job))
  else
    let* obj := mapErr (ErrWrap "ensure active object") (inA (CreateOrGet id)) in
    mapErr (ErrWrap "ack dispatch")
      (inD (AckDispatched id {| ObjName := CRName id; ObjUID := ObjUID obj |} now)).

Definition DispatchNext (now : Time) : M (D * A) JobRunRecord :=
  let* job := inD ClaimNextQueuedJob in
  fun s =>
    match Dispatch now (JID job) s with
    | (s', Ok _) => (s', Ok job)
    | (s', Err e) =>
        match inD (ReleaseClaim (JID job)) s' with
        | (s'', Ok _) => (s'', Err (ErrWrap "dispatch" e))
        | (s'', Err relErr) =>
            (s'', Err (ErrWrap "dispatch" (ErrJoin e (ErrWrap "release claim" relErr))))
        | (s'', Panic) => (s'', Panic)
        end
    | (s', Panic) => (s', Panic)
    end.

Definition Project (now : Time) (id : JobRunID) (phase : ObservedPhase) : M D unit :=
  mapErr (ErrWrap "apply observed") (ApplyObserved id phase now).

Fixpoint collect_loop (now : Time) (js : list JobRunRecord) (collected : nat) : M (D * A) nat :=
  match js with
  | [] => mret collected
  | j :: js' =>
      let* _ := mapErr (ErrWrap "delete active object") (inA (DeleteActive (JID j))) in
      let* _ := mapErr (ErrWrap "mark collected") (inD (MarkCollected (JID j) now)) in
      collect_loop now js' (S collected)
  end.

Definition Collect (now : Time) : M (D * A) nat :=
  let* js := mapErr (ErrWrap "list gc-ready jobs") (inD ListGCReadyJobs) in
  collect_loop now js 0.

Definition Cancel (now : Time) (id : RunID) : M D unit :=
  mapErr (ErrWrap "cancel run") (CancelRun id now).

End usecases.

(** ** What the use cases need from the stores *)

(** [d_run s k] is [None] for an unrecorded delivery, [Some ""] for a recorded
    one without a run, and [Some r] for one bound to run [r]. *)
Class DurableSpec (D : Type) `{DurableStore D} := {
  d_inv : D → Prop;
  d_run : D → DeliveryKey → option RunID;
  d_job : D → JobRunID → option JobRunRecord;
  d_claimed : D → JobRunID → Prop;
  d_gcready : D → JobRunID → Prop;

  law_record : ∀ d s, d_inv s → ∃ s' rec b,
    RecordDelivery d s = (s', Ok (rec, b)) ∧ d_inv s' ∧
    DRRunID rec = default "" (d_run s (DKey d)) ∧
    d_run s' (DKey d) = Some (DRRunID rec) ∧
    ∃ b', RecordDelivery d s' = (s', Ok (rec, b'));
  law_create : ∀ seed now s s' run b, d_inv s →
    CreateRun seed now s = (s', Ok (run, b)) →
    d_inv s' ∧ d_run s' (SDelivery seed) = Some (RID run) ∧ RID run ≠ "";
  law_record_known : ∀ d s, d_inv s → is_Some (d_run s (DKey d)) →
    ∃ rec, RecordDelivery d s = (s, Ok (rec, false));
  law_get : ∀ id s, d_inv s →
    GetJobRun id s = (s, match d_job s id with Some j => Ok j | None => Err ErrJobRunNotFound end);
  law_claim : ∀ s s' j, d_inv s → ClaimNextQueuedJob s = (s', Ok j) →
    d_inv s' ∧ d_job s' (JID j) = Some j ∧ JStatus j = JobQueued ∧ d_claimed s' (JID j);
  law_release : ∀ id s, d_inv s → ∃ s', ReleaseClaim id s = (s', Ok tt) ∧ d_inv s' ∧
    ¬ d_claimed s' id ∧ ∀ id', d_job s' id' = d_job s id';
  law_ack : ∀ id obj now s j, d_inv s → d_job s id = Some j →
    JStatus j = JobQueued ∨
      (JStatus j = JobDispatched ∧ (JActiveName j = "" ∨ JActiveName j = ObjName obj)) →
    ∃ s' j', AckDispatched id obj now s = (s', Ok tt) ∧ d_inv s' ∧ ¬ d_claimed s' id ∧
      d_job s' id = Some j' ∧ JStatus j' = JobDispatched ∧ JActiveName j' = ObjName obj ∧
      JActiveUID j' = ObjUID obj ∧ ∀ id', id' ≠ id → d_job s' id' = d_job s id';
  law_gc : ∀ s, d_inv s → ∃ l, ListGCReadyJobs s = (s, Ok l) ∧
    ∀ id, id ∈ map JID l ↔ d_gcready s id;
  law_gc_terminal : ∀ s id, d_inv s → d_gcready s id →
    ∃ j, d_job s id = Some j ∧ job_terminal (JStatus j) = true;
  law_mark : ∀ id now s j, d_inv s → d_job s id = Some j →
    ∃ s', MarkCollected id now s = (s', Ok tt) ∧ d_inv s' ∧
      (∀ id', d_gcready s' id' ↔ d_gcready s id' ∧ id' ≠ id) ∧
      (∀ id', JStatus <$> d_job s' id' = JStatus <$> d_job s id')
}.

Class ActiveSpec (A : Type) `{ActiveExecutionStore A} := {
  a_obj : A → JobRunID → option ActiveObject;
  law_create_or_get : ∀ id a, ∃ a' obj, CreateOrGet id a = (a', Ok obj) ∧
    a_obj a' id = Some obj ∧ (∀ o, a_obj a id = Some o → obj = o) ∧
    ∀ id', id' ≠ id → a_obj a' id' = a_obj a id';
  law_delete : ∀ id a, ∃ a', DeleteActive id a = (a', Ok tt) ∧ a_obj a' id = None ∧
    ∀ id', id' ≠ id → a_obj a' id' = a_obj a id'
}.

(** ** Ingestion *)

Section ingestion.
Context `{Unicode} {D : Type} `{DurableSpec D}.

Lemma Ingest_after_record compile now d (s s' : D) rec b :
  RecordDelivery d s = (s', Ok (rec, b)) →
  RecordDelivery d s' = (s', Ok (rec, b)) ∨ (∃ b', RecordDelivery d s' = (s', Ok (rec, b'))) →
  Ingest compile now d s = Ingest compile now d s'.
Proof.
  intros E [E'|[b' E']]; unfold Ingest, mbind, mapErr; by rewrite E, E'.
Qed.

Lemma Ingest_bound compile now d (s : D) r :
  d_inv s → d_run s (DKey d) = Some r → r ≠ "" → Ingest compile now d s = (s, Ok (r, false)).
Proof.
  intros Hi Hr Hne. destruct (law_record d s Hi) as (s' & rec & b & E & _ & Hrec & _).
  destruct (law_record_known d s Hi) as (rec' & E'); [by rewrite Hr; eexists|].
  rewrite E in E'. simplify_eq. rewrite Hr in Hrec. simpl in Hrec.
  unfold Ingest, mbind, mapErr. rewrite E. simpl. rewrite bool_decide_eq_true_2 by congruence.
  by rewrite Hrec.
Qed.

Lemma Ingest_ok_bound compile now d (s s' : D) r b :
  d_inv s → Ingest compile now d s = (s', Ok (r, b)) → r ≠ "" →
  d_inv s' ∧ d_run s' (DKey d) = Some r.
Proof.
  intros Hi. destruct (law_record d s Hi) as (s1 & rec & b1 & E & Hi1 & Hrec & Hrun & _).
  unfold Ingest, mbind, mapErr. rewrite E. simpl. case_bool_decide as Hb.
  { intros [= <- <- <-] _. done. }
  destruct (compile _ _) as [js|e|]; [|done..]. destruct (firstInvalid js); [done|].
  case_bool_decide; [intros [= <- <- <-] ?; done|].
  destruct (CreateRun _ now s1) as [s2 [[run c]|e|]] eqn:Ec; [|done..].
  intros [= <- <- <-] _. destruct (law_create _ _ _ _ _ _ Hi1 Ec) as (? & ? & _). done.
Qed.

End ingestion.

(** ** Dispatch *)

Section dispatch.
Context `{Unicode} {D A : Type} `{DurableSpec D} `{ActiveSpec A}.

(** A job the dispatcher may still (re)dispatch under its deterministic name. *)
Definition may_dispatch (id : JobRunID) (j : JobRunRecord) : Prop :=
  JStatus j = JobQueued ∨
  (JStatus j = JobDispatched ∧ (JActiveName j = "" ∨ JActiveName j = CRName id)).

Lemma Dispatch_ok now id (d : D) (a : A) j :
  d_inv d → d_job d id = Some j → may_dispatch id j →
  ∃ d' a' j' obj, Dispatch now id (d, a) = ((d', a'), Ok tt) ∧ d_inv d' ∧
    d_job d' id = Some j' ∧ JStatus j' = JobDispatched ∧ JActiveName j' = CRName id ∧
    JActiveUID j' = ObjUID obj ∧ a_obj a' id = Some obj ∧ ¬ d_claimed d' id ∧
    (∀ o, a_obj a id = Some o → obj = o) ∧
    (∀ id', id' ≠ id → d_job d' id' = d_job d id') ∧
    (∀ id', id' ≠ id → a_obj a' id' = a_obj a id').
Proof.
  intros Hi Hj Hst.
  destruct (law_create_or_get id a) as (a' & obj & Ec & Ho & Hsame & Hoth).
  destruct (law_ack id {| ObjName := CRName id; ObjUID := ObjUID obj |} now d j Hi Hj)
    as (d' & j' & Ea & Hi' & Hcl & Hj' & Hs' & Hn' & Hu' & Hoth').
  { destruct Hst as [?|[? [?|?]]]; [by left|right; split; auto..]. }
  exists d', a', j', obj. split; [|by split_and!].
  unfold Dispatch, mbind, mapErr, inD, inA. simpl. rewrite (law_get id d Hi), Hj.
  assert (dispatchable (JStatus j) = true) as ->.
  { unfold dispatchable. by destruct Hst as [-> | [-> _]]. }
  simpl. rewrite Ec. simpl. by rewrite Ea.
Qed.

End dispatch.

(** ** Collection *)

Section collection.
Context {D A : Type} `{DurableSpec D} `{ActiveSpec A}.

Lemma collect_loop_ok now js n (d : D) (a : A) :
  d_inv d → (∀ id, id ∈ map JID js → is_Some (d_job d id)) →
  ∃ d' a', collect_loop now js n (d, a) = ((d', a'), Ok (n + length js)) ∧ d_inv d' ∧
    (∀ id, d_gcready d' id ↔ d_gcready d id ∧ id ∉ map JID js) ∧
    (∀ id, JStatus <$> d_job d' id = JStatus <$> d_job d id) ∧
    (∀ id, id ∈ map JID js → a_obj a' id = None) ∧
    (∀ id, id ∉ map JID js → a_obj a' id = a_obj a id).
Proof.
  revert n d a. induction js as [|j js IH]; intros n d a Hi Hjs; simpl.
  { exists d, a. rewrite Nat.add_0_r. split_and!; try done; set_solver. }
  destruct (Hjs (JID j)) as [j0 Hj0]; [set_solver|].
  destruct (law_delete (JID j) a) as (a1 & Ed & Hgone & Hoth).
  destruct (law_mark (JID j) now d j0 Hi Hj0) as (d1 & Em & Hi1 & Hgc1 & Hst1).
  destruct (IH (S n) d1 a1 Hi1) as (d' & a' & El & Hi' & Hgc & Hst & Hg & Hk).
  { intros id Hin. specialize (Hst1 id). destruct (Hjs id) as [jx Hjx]; [set_solver|].
    rewrite Hjx in Hst1. by destruct (d_job d1 id). }
  exists d', a'. unfold mbind, mapErr, inD, inA. simpl. rewrite Ed. simpl. rewrite Em. simpl.
  rewrite El. split_and!; try done.
  - do 2 f_equal. lia.
  - intros id. rewrite Hgc, Hgc1. set_solver.
  - intros id. by rewrite Hst, Hst1.
  - intros id Hin. destruct (decide (id ∈ map JID js)) as [|Hn]; [auto|].
    rewrite Hk by done. apply elem_of_cons in Hin as [->|?]; [done|]. by destruct Hn.
  - intros id Hin. rewrite Hk, Hoth; set_solver.
Qed.

End collection.
