(* ===== verification/SchedulerMemory.v ===== *)
(** * The use cases are crash-safe

    The properties of ingestion, dispatch and collection, proved from the
    store interfaces of [Scheduler], and the in-memory stores as instances of
    these interfaces. *)

From S2P Require Import Prelude GoStrings RunModel SchedulerPort MemoryStore StoreInvariant StoreOps StoreClaims Scheduler StoreTheorems.

Local Open Scope go_scope.

(** ** The in-memory stores satisfy the interfaces *)

Definition mem_gcready (s : store) (id : string) : Prop :=
  ∃ j run, jobs s !! id = Some j ∧ job_terminal (JStatus j) = true ∧ JActiveCollectedAt j = None ∧
    runs s !! JRunID j = Some run ∧ run_terminal (RStatus run) = true.

Section instances.
Context `{MemoryEnv} `{!MemoryEnvOk}.

Lemma mem_law_record d s :
  store_wf s → ∃ s' rec b,
    mem_RecordDelivery d s = (s', Ok (rec, b)) ∧ store_wf s' ∧
    DRRunID rec = default "" (DRRunID <$> deliveries s !! DKey d) ∧
    DRRunID <$> deliveries s' !! DKey d = Some (DRRunID rec) ∧
    ∃ b', mem_RecordDelivery d s' = (s', Ok (rec, b')).
Proof.
  intros Hwf. pose proof (RecordDelivery_wf d s Hwf) as Hwf'. unfold mem_RecordDelivery in *.
  destruct (deliveries s !! DKey d) as [rec|] eqn:E.
  - exists s, rec, false. rewrite E. split_and!; eauto.
  - eexists _, _, true. split; [done|]. simpl in *. rewrite lookup_insert_eq. split_and!; eauto.
Qed.

Lemma mem_law_gc s :
  store_wf s → ∃ l, mem_ListGCReadyJobs s = (s, Ok l) ∧ ∀ id, id ∈ map JID l ↔ mem_gcready s id.
Proof.
  intros [Hwf _]. eexists. split; [done|]. intros id. change @map with @list_fmap at 1.
  rewrite list_elem_of_fmap. setoid_rewrite list_elem_of_In. setoid_rewrite in_flat_map.
  setoid_rewrite <-list_elem_of_In. unfold sortedRunIDsLocked, sort_strings.
  setoid_rewrite sort_by_elem. unfold gc_ready_of. split.
  - intros (j & -> & r & _ & Hin). destruct (runs s !! r) as [run|] eqn:Hrun; [|set_solver].
    destruct (run_terminal (RStatus run)) eqn:Ht; [|set_solver].
    apply list_elem_of_In, filter_In in Hin as [Hin Hgc]. apply list_elem_of_In in Hin.
    change @map with @list_fmap in Hin. apply list_elem_of_fmap in Hin as (id & -> & Hid).
    destruct (run_job_lookup _ _ _ Hwf Hid) as (j & Hj & Hjr).
    rewrite (getJob_Some _ _ _ Hj) in *. rewrite (wf_job_id _ Hwf _ _ Hj).
    unfold gc_ready in Hgc. breflect. exists j, run. rewrite Hjr.
    split_and!; try done. by destruct (JActiveCollectedAt j).
  - intros (j & run & Hj & Ht & Hc & Hrun & Hrt). exists j.
    rewrite (wf_job_id _ Hwf _ _ Hj). split; [done|]. exists (JRunID j). split.
    + apply list_elem_of_fmap. exists (JRunID j, run). split; [done|]. by apply elem_of_map_to_list.
    + rewrite Hrun, Hrt. apply list_elem_of_In, filter_In. split.
      * apply list_elem_of_In. change @map with @list_fmap. apply list_elem_of_fmap.
        exists id. rewrite (getJob_Some _ _ _ Hj). split; [done|]. eapply wf_job_owned; eauto.
      * unfold gc_ready. by rewrite Ht, Hc.
Qed.

Lemma mem_law_mark id now s j :
  store_wf s → jobs s !! id = Some j →
  ∃ s', mem_MarkCollected id now s = (s', Ok tt) ∧ store_wf s' ∧
    (∀ id', mem_gcready s' id' ↔ mem_gcready s id' ∧ id' ≠ id) ∧
    (∀ id', JStatus <$> jobs s' !! id' = JStatus <$> jobs s !! id').
Proof.
  intros Hwf Hj. destruct (MarkCollected_wf_le id now s Hwf) as [Hwf' _].
  unfold mem_MarkCollected in *. rewrite Hj in *.
  destruct (JActiveCollectedAt j) as [t|] eqn:Hc; simpl in *; eexists; split_and!; try done.
  - intros id'. split; [|by intros []]. intros Hg. split; [done|]. intros ->.
    destruct Hg as (j' & run & ? & _ & ? & _). simplify_eq.
  - intros id'. unfold mem_gcready. simpl. rewrite lookup_insert.
    destruct (decide (id = id')) as [<-|Hne].
    + split; [|by intros []]. intros (j' & run & ? & _ & ? & _). by simplify_eq.
    + split; [|by intros []]. intros ?. split; [done|congruence].
  - intros id'. simpl. rewrite lookup_insert. case_decide; [subst|done]. by rewrite Hj.
Qed.

Lemma mem_law_ack id obj now s j :
  store_wf s → jobs s !! id = Some j →
  JStatus j = JobQueued ∨
    (JStatus j = JobDispatched ∧ (JActiveName j = "" ∨ JActiveName j = ObjName obj)) →
  ∃ s' j', mem_AckDispatched id obj now s = (s', Ok tt) ∧ store_wf s' ∧ id ∉ claimed s' ∧
    jobs s' !! id = Some j' ∧ JStatus j' = JobDispatched ∧ JActiveName j' = ObjName obj ∧
    JActiveUID j' = ObjUID obj ∧ ∀ id', id' ≠ id → jobs s' !! id' = jobs s !! id'.
Proof.
  intros Hwf Hj Hst. destruct (AckDispatched_wf_le id obj now s Hwf) as [Hwf' _].
  unfold mem_AckDispatched in *. rewrite Hj in *.
  set (j' := set_active (ObjName obj) (ObjUID obj) now (set_status JobDispatched j)) in *.
  set (s' := with_claimed (claimed s ∖ {[id]}) (putJob id j' s)) in *.
  assert (jobs s' !! id = Some j' ∧ id ∉ claimed s' ∧
    ∀ id', id' ≠ id → jobs s' !! id' = jobs s !! id') as (? & ? & ?).
  { unfold s'; simpl. rewrite lookup_insert_eq. split_and!; [done|set_solver|].
    intros id' Hne. by rewrite lookup_insert_ne. }
  exists s', j'. destruct Hst as [Hq|[Hd Hn]].
  - rewrite Hq in *. by split_and!.
  - rewrite Hd in *. assert (bool_decide (JActiveName j ≠ "") &&
      bool_decide (JActiveName j ≠ ObjName obj) = false) as E.
    { destruct Hn as [-> | ->]; [done|]. rewrite andb_false_iff. right.
      apply bool_decide_eq_false_2. intros Hn. by apply Hn. }
    rewrite E in *. by split_and!.
Qed.

#[export] Instance memory_durable_spec : DurableSpec store.
Proof.
  refine {| d_inv := store_wf;
            d_run := fun s k => DRRunID <$> deliveries s !! k;
            d_job := fun s id => jobs s !! id;
            d_claimed := fun s id => id ∈ claimed s;
            d_gcready := mem_gcready |}; simpl.
  - apply mem_law_record.
  - intros seed now s s' run b Hwf Hc.
    destruct (CreateRun_wf_le seed now s Hwf) as [Hwf' _]. rewrite Hc in Hwf'.
    destruct (CreateRun_Ok_bound _ _ _ _ _ _ Hwf Hc) as (rec & Hk & Hr & Hne).
    split_and!; [done| |done]. by rewrite Hk, <-Hr.
  - intros d s Hwf [r Hr]. unfold mem_RecordDelivery.
    destruct (deliveries s !! DKey d) as [rec|]; [by exists rec|done].
  - intros id s _. unfold mem_GetJobRun. by destruct (jobs s !! id).
  - intros s s' j Hwf Hc. destruct (Claim_wf_le s Hwf) as [Hwf' _]. rewrite Hc in Hwf'.
    split; [done|].
    assert (∀ p, p ∈ candidates s → candidate s p) as Hcand.
    { intros p (j0 & ? & ? & ? & _)%candidates_elem. by exists j0. }
    destruct (claim_loop_spec _ _ _ _ Hwf (candidates_NoDup s) Hcand Hc) as
      [(s1 & pre & p & post & j0 & _ & Heq & -> & _ & Hj0 & Hq & _)|[? _]]; [|done].
    injection Heq as <-. rewrite (wf_job_id _ (wf_base _ Hwf') (fst p) j Hj0).
    split_and!; [done..|]. simpl. set_solver.
  - intros id s Hwf. eexists. split; [done|]. split_and!; [by apply with_claimed_wf| |done].
    simpl. set_solver.
  - apply mem_law_ack.
  - apply mem_law_gc.
  - intros s id _ (j & run & Hj & Ht & _). eauto.
  - apply mem_law_mark.
Defined.

End instances.

#[export] Instance memory_active_spec `{Unicode} : ActiveSpec activeStore.
Proof.
  refine {| a_obj := fun a id => objects a !! id |}; simpl.
  - intros id a. unfold mem_CreateOrGet. destruct (objects a !! id) as [o|] eqn:E.
    + eexists _, o. split; [done|]. simpl. split_and!; try done. by intros o' [= <-].
    + eexists _, _. split; [done|]. simpl. rewrite lookup_insert_eq. split_and!; try done.
      intros id' Hne. by rewrite lookup_insert_ne.
  - intros id a. eexists. split; [done|]. simpl. rewrite lookup_delete_eq. split; [done|].
    intros id' Hne. by rewrite lookup_delete_ne.
Defined.

#[export] Instance demo_unicode : Unicode := ascii_unicode.

(** ** Ingestion *)

Definition demo_compiler : Compiler := fun _ _ => Ok (SJobs demo_seed).
Definition broken_compiler : Compiler := fun _ _ => Err (ErrOther "boom").

(** Exactly-once ingestion: once a delivery produced a run, ingesting it
    again — even with a compiler that now fails — returns that run with
    created=false and leaves the store untouched. *)
Theorem ingest_replay_is_noop `{Unicode} {D} `{DurableSpec D} compile now d (s s1 : D) r b
    compile' now' :
  d_inv s → Ingest compile now d s = (s1, Ok (r, b)) → r ≠ "" →
  Ingest compile' now' d s1 = (s1, Ok (r, false)).
Proof.
  intros Hi Hin Hne. destruct (Ingest_ok_bound _ _ _ _ _ _ _ Hi Hin Hne) as [Hi1 Hr].
  by apply Ingest_bound.
Qed.

Lemma ingest_replay_is_noop_witness :
  Ingest broken_compiler 77 demo_delivery demo_created = (demo_created, Ok (demo_run, false)).
Proof.
  apply (ingest_replay_is_noop demo_compiler 5 demo_delivery NewDurableStore demo_created
    demo_run true broken_compiler 77).
  - exact NewDurableStore_wf.
  - vm_compute. reflexivity.
  - discriminate.
Defined.

(** Window W0: if the process dies after recording a delivery and before
    creating its run, ingesting the delivery again ends exactly as an
    uninterrupted ingestion would have. *)
Theorem ingest_survives_crash_after_record `{Unicode} {D} `{DurableSpec D} compile now d (s s' : D) rec b :
  d_inv s → RecordDelivery d s = (s', Ok (rec, b)) →
  Ingest compile now d s' = Ingest compile now d s.
Proof.
  intros Hi E. destruct (law_record d s Hi) as (s1 & rec1 & b1 & E1 & _ & _ & _ & Hagain).
  rewrite E in E1. simplify_eq. symmetry. eapply Ingest_after_record; eauto.
Qed.

Lemma ingest_survives_crash_after_record_witness :
  Ingest demo_compiler 5 demo_delivery (exec (OpRecordDelivery demo_delivery) NewDurableStore)
  = Ingest demo_compiler 5 demo_delivery NewDurableStore.
Proof.
  destruct (mem_RecordDelivery demo_delivery NewDurableStore) as [s1 [[rec b]|e|]] eqn:E;
    [|by vm_compute in E..].
  replace (exec (OpRecordDelivery demo_delivery) NewDurableStore) with s1 by (simpl; by rewrite E).
  apply (ingest_survives_crash_after_record demo_compiler 5 demo_delivery NewDurableStore s1 rec b).
  - exact NewDurableStore_wf.
  - exact E.
Defined.

(** ** Dispatch *)

(** C10. Windows W1 and W2: dispatching a queued job (or one already
    dispatched under its name) succeeds, and starting over after a crash —
    before the active object was created, after it was created but before the
    acknowledgement, or after everything — reaches a dispatched job bound to
    one and the same active object. *)
Theorem dispatch_converges_after_crash `{Unicode} {D A} `{DurableSpec D} `{ActiveSpec A}
    now now' id (d : D) (a : A) j :
  d_inv d → d_job d id = Some j → may_dispatch id j →
  ∃ d' a' obj, Dispatch now id (d, a) = ((d', a'), Ok tt) ∧ a_obj a' id = Some obj ∧
    ∀ s, s = (d, a) ∨ s = (d, fst (CreateOrGet id a)) ∨ s = (d', a') →
      ∃ d'' a'' j'', Dispatch now' id s = ((d'', a''), Ok tt) ∧
        d_job d'' id = Some j'' ∧ JStatus j'' = JobDispatched ∧ JActiveName j'' = CRName id ∧
        JActiveUID j'' = ObjUID obj ∧ a_obj a'' id = Some obj.
Proof.
  intros Hi Hj Hm.
  destruct (Dispatch_ok now id d a j Hi Hj Hm) as
    (d' & a' & j' & obj & E & Hi' & Hj' & Hs' & Hn' & Hu' & Ho & _ & Hsame & _).
  destruct (law_create_or_get id a) as (a1 & o1 & Ec & Ho1 & Hs1 & _).
  assert (obj = o1) as <-.
  { unfold Dispatch, mbind, mapErr, inD, inA in E. simpl in E. rewrite (law_get id d Hi), Hj in E.
    destruct (negb _); [done|]. simpl in E. rewrite Ec in E. simpl in E.
    destruct (AckDispatched _ _ _ d) as [d0 r0]. destruct r0; simplify_eq. congruence. }
  exists d', a', obj. split_and!; [done..|]. intros s Hcase.
  assert (∃ d0 a0 j0, s = (d0, a0) ∧ d_inv d0 ∧ d_job d0 id = Some j0 ∧ may_dispatch id j0 ∧
    (a0 = a ∨ a_obj a0 id = Some obj)) as (d0 & a0 & j0 & -> & Hi0 & Hj0 & Hm0 & Ha0).
  { destruct Hcase as [->|[->| ->]].
    - exists d, a, j. by split_and!; [..|left].
    - rewrite Ec. exists d, a1, j. by split_and!; [..|right].
    - exists d', a', j'. split_and!; try done; [|by right]. right. auto. }
  destruct (Dispatch_ok now' id d0 a0 j0 Hi0 Hj0 Hm0) as
    (d2 & a2 & j2 & obj2 & E2 & _ & Hj2 & Hs2 & Hn2 & Hu2 & Ho2 & _ & Hsame2 & _).
  assert (obj2 = obj) as ->.
  { destruct Ha0 as [->|Ha0]; [|by apply Hsame2].
    unfold Dispatch, mbind, mapErr, inD, inA in E2. simpl in E2.
    rewrite (law_get id d0 Hi0), Hj0 in E2. destruct (negb _); [done|]. simpl in E2.
    rewrite Ec in E2. simpl in E2. destruct (AckDispatched _ _ _ d0) as [d9 r9].
    destruct r9; simplify_eq. congruence. }
  exists d2, a2, j2. by split_and!.
Qed.

Lemma dispatch_converges_after_crash_witness :
  ∃ d' a' obj, Dispatch 6 demo_build (demo_created, NewActiveStore) = ((d', a'), Ok tt) ∧
               objects a' !! demo_build = Some obj.
Proof.
  destruct demo_created_build as (j & Hj & Hst).
  destruct (dispatch_converges_after_crash 6 7 demo_build demo_created NewActiveStore j)
    as (d' & a' & obj & E & Ho & _).
  - exact (reachable_wf _ demo_created_reachable).
  - exact Hj.
  - left. exact Hst.
  - exists d', a', obj. split; [exact E|exact Ho].
Defined.

(** A cancelled, finished or running job is refused before anything
    happens: neither store changes, so no active object is created for it. *)
Theorem dispatch_refuses_closed_job `{Unicode} {D A} `{DurableSpec D} `{ActiveExecutionStore A}
    now id (d : D) (a : A) j :
  d_inv d → d_job d id = Some j → JStatus j ≠ JobQueued → JStatus j ≠ JobDispatched →
  Dispatch now id (d, a) = ((d, a), Err (ErrJobNotDispatchable id (JStatus j))).
Proof.
  intros Hi Hj Hq Hd. unfold Dispatch, mbind, mapErr, inD. simpl.
  rewrite (law_get id d Hi), Hj. unfold dispatchable. by rewrite !bool_decide_eq_false_2.
Qed.

Lemma dispatch_refuses_closed_job_witness :
  Dispatch 9 demo_build (demo_build_failed, NewActiveStore)
  = ((demo_build_failed, NewActiveStore), Err (ErrJobNotDispatchable demo_build JobFailed)).
Proof.
  destruct demo_failed_build as (j & Hj & Hst). rewrite <-Hst.
  apply (dispatch_refuses_closed_job 9 demo_build demo_build_failed NewActiveStore j).
  - exact (reachable_wf _ demo_failed_reachable).
  - exact Hj.
  - rewrite Hst. discriminate.
  - rewrite Hst. discriminate.
Defined.

(** C37. When the active store fails, [DispatchNext] reports the error and
    releases the claim: the job is still queued and can be claimed again. *)
Theorem failed_dispatch_releases_claim `{Unicode} {D A} `{DurableSpec D} `{ActiveExecutionStore A}
    now (d d1 : D) (a a1 : A) j e :
  d_inv d → ClaimNextQueuedJob d = (d1, Ok j) → CreateOrGet (JID j) a = (a1, Err e) →
  ∃ d2, DispatchNext now (d, a) =
          ((d2, a1), Err (ErrWrap "dispatch" (ErrWrap "ensure active object" e))) ∧
    d_job d2 (JID j) = Some j ∧ JStatus j = JobQueued ∧ ¬ d_claimed d2 (JID j).
Proof.
  intros Hi Hc He. destruct (law_claim _ _ _ Hi Hc) as (Hi1 & Hj & Hq & _).
  destruct (law_release (JID j) d1 Hi1) as (d2 & Er & _ & Hcl & Hsame).
  exists d2. split_and!; [|by rewrite Hsame|done|done].
  unfold DispatchNext, Dispatch, mbind, mapErr, inD, inA. simpl. rewrite Hc. simpl.
  rewrite (law_get _ _ Hi1), Hj, Hq. simpl. rewrite He. simpl. by rewrite Er.
Qed.

(** An active store whose creation always fails. *)
Definition failing_active : ActiveExecutionStore unit := {|
  CreateOrGet := fun _ => mfail (ErrOther "apiserver down");
  DeleteActive := fun _ => mret tt
|}.

Lemma failed_dispatch_releases_claim_witness :
  ∃ d2 e, @DispatchNext _ store unit _ failing_active 6 (demo_created, tt) = ((d2, tt), Err e) ∧
          demo_build ∉ claimed d2.
Proof.
  destruct (mem_ClaimNextQueuedJob demo_created) as [d1 [j|e|]] eqn:Hc; [|by vm_compute in Hc..].
  assert (JID j = demo_build) as Hid by (vm_compute in Hc; by injection Hc as _ <-).
  destruct (@failed_dispatch_releases_claim _ store unit _ _ failing_active 6 demo_created d1 tt tt j
    (ErrOther "apiserver down")) as (d2 & H1 & _ & _ & H4).
  - exact (reachable_wf _ demo_created_reachable).
  - exact Hc.
  - reflexivity.
  - eexists d2, _. split; [exact H1|]. rewrite <-Hid. exact H4.
Defined.

(** ** Collection *)

(** Window W4: [Collect] deletes the active object of exactly the
    GC-ready jobs (so never that of an unfinished job), changes no job status,
    and a following pass — in particular after a crash that lost a mark, since
    the active store is arbitrary — finds nothing left to do. *)
Theorem collect_deletes_exactly_ready `{DurableSpec D} `{ActiveSpec A} now now' (d : D) (a : A) :
  d_inv d →
  ∃ d' a' n, Collect now (d, a) = ((d', a'), Ok n) ∧
    (∀ id, d_gcready d id → a_obj a' id = None) ∧
    (∀ id j, d_job d id = Some j → job_terminal (JStatus j) = false → a_obj a' id = a_obj a id) ∧
    (∀ id, ¬ d_gcready d id → a_obj a' id = a_obj a id) ∧
    (∀ id, JStatus <$> d_job d' id = JStatus <$> d_job d id) ∧
    Collect now' (d', a') = ((d', a'), Ok 0).
Proof.
  intros Hi. destruct (law_gc d Hi) as (l & El & Hl).
  destruct (collect_loop_ok now l 0 d a Hi) as (d' & a' & E & Hi' & Hgc & Hst & Hgone & Hkeep).
  { intros id Hin%Hl. destruct (law_gc_terminal d id Hi Hin) as (j & -> & _). by eexists. }
  exists d', a', (length l). split_and!; try done.
  - unfold Collect, mbind at 1, mapErr, inD. simpl. rewrite El. exact E.
  - intros id Hin. apply Hgone. by apply Hl.
  - intros id j Hj Ht. apply Hkeep. rewrite Hl. intros Hg.
    destruct (law_gc_terminal d id Hi Hg) as (j' & Hj' & Ht'). congruence.
  - intros id Hn. apply Hkeep. by rewrite Hl.
  - destruct (law_gc d' Hi') as (l' & El' & Hl').
    unfold Collect, mbind at 1, mapErr, inD. simpl. rewrite El'. simpl.
    destruct l' as [|j l']; [done|]. exfalso.
    assert (JID j ∈ map JID (j :: l')) as Hin by set_solver.
    apply Hl', Hgc in Hin as [Hin Hn]. apply Hn. by apply Hl.
Qed.

Lemma collect_deletes_exactly_ready_witness :
  ∃ d' a' n, Collect 60 (demo_build_failed, NewActiveStore) = ((d', a'), Ok n).
Proof.
  destruct (collect_deletes_exactly_ready 60 61 demo_build_failed NewActiveStore)
    as (d' & a' & n & E & _).
  - exact (reachable_wf _ demo_failed_reachable).
  - exists d', a', n. exact E.
Defined.
