(* ===== verification/Masking.v ===== *)
(** * Secret masking (internal/runtime/executor/mask)

    [Masker] keeps the registered secret values; [Apply] replaces each of them
    by three stars before a line is logged; [Handler] does so for the message
    and the string attributes of a log record.  The theorems show that no
    registered value survives [Apply] and where the log handler's guarantee
    ends. *)

From Stdlib Require Import Ascii.
From S2P Require Import Prelude GoStrings.

(** ** The masker *)

(** The registered values in registration order. *)
Record Masker := { vals : list string }.

Definition NewMasker : Masker := {| vals := [] |}.

Definition AddValue (v : string) (m : Masker) : Masker :=
  if bool_decide (v = "") then m
  else if existsb (fun e => bool_decide (e = v)) (vals m) then m
  else {| vals := vals m ++ [v] |}.

(** [sort.SliceStable] with longer values first. *)
Definition longest_first (l : list string) : list string :=
  sort_by (fun a b => Nat.ltb (String.length b) (String.length a)) l.

Definition mask_one (s v : string) : string :=
  if bool_decide (v ≠ "") then replace_all s v "***" else s.

Definition ApplyMask (m : Masker) (s : string) : string :=
  if bool_decide (length (vals m) = 0) then s
  else fold_left mask_one (longest_first (vals m)) s.

(** ** The log handler *)

(** An attribute value: a string, a group of attributes, or another kind,
    of which only the rendering matters. *)
Inductive SlogValue :=
  | StringValue (s : string)
  | GroupValue (attrs : list (string * SlogValue))
  | OtherValue (rendered : string).

Record LogRecord := { Message : string; Attrs : list (string * SlogValue) }.

(** The wrapped [slog.Handler]. *)
Class SlogHandler (H : Type) := {
  slog_Enabled : H → Z → bool;
  slog_Handle : H → LogRecord → H * bool;
  slog_WithAttrs : H → list (string * SlogValue) → H;
  slog_WithGroup : H → string → H
}.

Record Handler (H : Type) := { inner : H; masker : Masker }.
Arguments inner {H}.
Arguments masker {H}.

Definition mask_attr (m : Masker) (a : string * SlogValue) : string * SlogValue :=
  match snd a with
  | StringValue s => (fst a, StringValue (ApplyMask m s))
  | _ => a
  end.

Definition mask_record (m : Masker) (r : LogRecord) : LogRecord :=
  {| Message := ApplyMask m (Message r); Attrs := map (mask_attr m) (Attrs r) |}.

Section handler.
Context {H : Type} `{SlogHandler H}.

Definition Enabled (h : Handler H) (level : Z) : bool := slog_Enabled (inner h) level.

Definition Handle (h : Handler H) (r : LogRecord) : Handler H * bool :=
  let '(i, ok) := slog_Handle (inner h) (mask_record (masker h) r) in
  ({| inner := i; masker := masker h |}, ok).

Definition WithAttrs (h : Handler H) (attrs : list (string * SlogValue)) : Handler H :=
  {| inner := slog_WithAttrs (inner h) attrs; masker := masker h |}.

Definition WithGroup (h : Handler H) (name : string) : Handler H :=
  {| inner := slog_WithGroup (inner h) name; masker := masker h |}.

End handler.

(** ** Replacement *)

Definition star_free (w : string) : Prop := byte_in "*"%char w = false.

Lemma replace_skip old new k s : replace_go old new k s = replace_go old new 0 (str_drop k s).
Proof. revert s. induction k as [|k IH]; intros [|c s]; simpl; auto. Qed.

(** One step of a replacement by stars: an occurrence at the front, or a copied byte. *)
Lemma replace_stars_cases v s :
  v ≠ "" →
  (s = "" ∧ replace_all s v "***" = "") ∨
  (∃ t, s = v +:+ t ∧ String.length t < String.length s ∧
        replace_all s v "***" = "***" +:+ replace_all t v "***") ∨
  (∃ c t, s = String c t ∧ has_prefix s v = false ∧
        replace_all s v "***" = String c (replace_all t v "***")).
Proof.
  intros Hv. destruct s as [|c s]; [by left|right].
  unfold replace_all. simpl. destruct (has_prefix (String c s) v) eqn:E; [left|right].
  - apply has_prefix_spec in E as [t Ht]. destruct v as [|d v]; [done|]. simpl in *. simplify_eq.
    exists t. split_and!; [done|rewrite app_str_length; lia|].
    rewrite replace_skip, Nat.sub_0_r, str_drop_app. done.
  - by exists c, s.
Qed.

(** A star-free prefix of the result was copied from the input. *)
Lemma replace_prefix v w s b :
  v ≠ "" → star_free w → replace_all s v "***" = w +:+ b → ∃ b0, s = w +:+ b0.
Proof.
  intros Hv. revert s. induction w as [|c w IH]; intros s Hf Heq; [by exists s|].
  unfold star_free in Hf. simpl in Hf. apply orb_false_iff in Hf as [Hc Hf].
  apply bool_decide_eq_false in Hc.
  destruct (replace_stars_cases v s Hv) as [[-> E]|[(t & -> & _ & E)|(d & t & -> & _ & E)]];
    rewrite E in Heq; simpl in Heq; [done|congruence|].
  injection Heq as -> Heq. destruct (IH t Hf Heq) as [b0 ->]. by exists b0.
Qed.

(** A star-free word of the result is a word of the input, and never the replaced value. *)
Lemma replace_occurrence v w s a b :
  v ≠ "" → w ≠ "" → star_free w → replace_all s v "***" = a +:+ w +:+ b →
  w ≠ v ∧ ∃ a0 b0, s = a0 +:+ w +:+ b0.
Proof.
  intros Hv Hw Hf. revert a.
  induction s as [s IH] using (induction_ltof1 _ String.length). unfold ltof in IH.
  intros a Heq. destruct w as [|w0 w]; [done|].
  assert (w0 ≠ "*"%char) as Hw0.
  { unfold star_free in Hf. simpl in Hf. intros ->. by rewrite bool_decide_eq_true_2 in Hf. }
  destruct (replace_stars_cases v s Hv) as [[-> E]|[(t & -> & Hlt & E)|(d & t & -> & Hp & E)]];
    rewrite E in Heq.
  - by destruct a.
  - assert (∃ a', replace_all t v "***" = a' +:+ String w0 w +:+ b) as [a' Ha'].
    { destruct a as [|? [|? [|? a]]]; simpl in Heq; simplify_eq. by exists a. }
    destruct (IH t Hlt a' Ha') as (Hne & a0 & b0 & ->).
    split; [done|]. exists (v +:+ a0), b0. by rewrite app_str_assoc.
  - destruct a as [|a1 a]; simpl in Heq.
    + destruct (replace_prefix v (String w0 w) (String d t) b Hv Hf) as [b0 Hb0].
      { by rewrite E. }
      split; [|by exists "", b0]. intros <-. rewrite Hb0 in Hp. by rewrite has_prefix_app in Hp.
    + injection Heq as -> Heq. destruct (IH t) with (a := a) as (Hne & a0 & b0 & ->); [simpl; lia|done|].
      split; [done|]. by exists (String a1 a0), b0.
Qed.

(** ** Masking *)

Lemma mask_one_keeps_absent v w s :
  w ≠ "" → star_free w → contains s w = false → contains (mask_one s v) w = false.
Proof.
  intros Hw Hf Hs. unfold mask_one. case_bool_decide as Hv; [|done].
  apply contains_false. intros a b Heq.
  destruct (replace_occurrence v w s a b Hv Hw Hf Heq) as (_ & a0 & b0 & ->).
  rewrite contains_false in Hs. by destruct (Hs a0 b0).
Qed.

Lemma mask_all_keeps_absent l w s :
  w ≠ "" → star_free w → contains s w = false → contains (fold_left mask_one l s) w = false.
Proof.
  intros Hw Hf. revert s. induction l as [|v l IH]; intros s Hs; simpl; [done|].
  by apply IH, mask_one_keeps_absent.
Qed.

Lemma mask_all_hides l w s :
  w ≠ "" → star_free w → w ∈ l → contains (fold_left mask_one l s) w = false.
Proof.
  intros Hw Hf. revert s. induction l as [|v l IH]; intros s Hin; simpl; [set_solver|].
  destruct (decide (w ∈ l)) as [|Hn]; [auto|].
  assert (w = v) as <- by set_solver.
  apply mask_all_keeps_absent; [done..|]. unfold mask_one.
  rewrite bool_decide_eq_true_2 by done. apply contains_false. intros a b Heq.
  by destruct (replace_occurrence w w s a b Hw Hw Hf Heq).
Qed.

Lemma apply_hides m v s : v ∈ vals m → v ≠ "" → star_free v → contains (ApplyMask m s) v = false.
Proof.
  intros Hin Hv Hf. unfold ApplyMask. case_bool_decide as Hl; [destruct (vals m); [set_solver|done]|].
  apply mask_all_hides; [done..|]. by apply sort_by_elem.
Qed.

Lemma mask_all_absent l s :
  (∀ w, w ∈ l → contains s w = false) → fold_left mask_one l s = s.
Proof.
  induction l as [|v l IH]; intros Hn; simpl; [done|].
  unfold mask_one at 2. case_bool_decide as Hv.
  - rewrite replace_absent by (apply Hn; set_solver). apply IH. set_solver.
  - apply IH. set_solver.
Qed.

Lemma AddValue_spec v m w : w ∈ vals (AddValue v m) ↔ w ∈ vals m ∨ (w = v ∧ v ≠ "").
Proof.
  unfold AddValue. case_bool_decide as Hv; [naive_solver|].
  destruct (existsb _ _) eqn:E; simpl; [|set_solver].
  apply existsb_exists in E as (e & He%list_elem_of_In & ->%bool_decide_eq_true). naive_solver.
Qed.

(** Masking is complete and changes nothing else: whatever was registered
    before and after it, a registered non-empty value without a star does not
    occur in any masked text, and a text in which no registered value occurs is
    returned unchanged. *)
Theorem masked_text_hides_registered m v s :
  v ≠ "" → star_free v →
  (∀ later, contains (ApplyMask (foldr AddValue (AddValue v m) later) s) v = false) ∧
  ((∀ w, w ∈ vals m → contains s w = false) → ApplyMask m s = s).
Proof.
  intros Hv Hf. split.
  - intros later.
    assert (v ∈ vals (foldr AddValue (AddValue v m) later)) as Hin.
    { induction later as [|x l IH]; simpl; apply AddValue_spec; naive_solver. }
    by apply apply_hides.
  - intros Hn. unfold ApplyMask. case_bool_decide; [done|]. apply mask_all_absent.
    intros w Hw. apply Hn. by apply sort_by_elem in Hw.
Qed.

Lemma masked_text_hides_registered_witness :
  contains (ApplyMask (AddValue "tok" (AddValue "token" NewMasker)) "a token, a tok") "token" = false.
Proof.
  apply (proj1 (masked_text_hides_registered NewMasker "token" "a token, a tok"
    ltac:(discriminate) ltac:(reflexivity)) ["tok"]).
Defined.

(** The log handler masks the message and the string attributes of the
    record: the inner handler receives a record in which no registered
    star-free value occurs in either. *)
Theorem handler_masks_record {H} `{SlogHandler H} (h : Handler H) r v :
  v ∈ vals (masker h) → v ≠ "" → star_free v →
  ∃ r', Handle h r = ({| inner := fst (slog_Handle (inner h) r'); masker := masker h |},
                      snd (slog_Handle (inner h) r')) ∧
    contains (Message r') v = false ∧
    length (Attrs r') = length (Attrs r) ∧
    ∀ k s, (k, StringValue s) ∈ Attrs r' → contains s v = false.
Proof.
  intros Hin Hv Hf. pose proof (fun s => apply_hides (masker h) v s Hin Hv Hf) as Hhide.
  exists (mask_record (masker h) r). split_and!; simpl.
  - unfold Handle. by destruct (slog_Handle _ _).
  - apply Hhide.
  - by rewrite length_map.
  - intros k s (a & Ha & _)%list_elem_of_In%in_map_iff. destruct a as [k' val]. unfold mask_attr in Ha.
    destruct val; simpl in Ha; simplify_eq. apply Hhide.
Qed.

(** A handler that collects what it is given, on which the record is checked. *)
#[export] Instance collecting_handler : SlogHandler (list (list (string * SlogValue) * LogRecord)) := {|
  slog_Enabled := fun _ _ => true;
  slog_Handle := fun out r => (out ++ [([], r)], true);
  slog_WithAttrs := fun out attrs => out ++ [(attrs, {| Message := ""; Attrs := [] |})];
  slog_WithGroup := fun out _ => out
|}.

Definition demo_masker : Masker := AddValue "hunter2" NewMasker.

Lemma handler_masks_record_witness :
  ∃ r', Handle {| inner := []; masker := demo_masker |}
          {| Message := "pw hunter2"; Attrs := [("pw", StringValue "hunter2")] |} =
        ({| inner := [([], r')]; masker := demo_masker |}, true) ∧
        contains (Message r') "hunter2" = false.
Proof.
  destruct (handler_masks_record {| inner := []; masker := demo_masker |}
    {| Message := "pw hunter2"; Attrs := [("pw", StringValue "hunter2")] |} "hunter2")
    as (r' & E & Hm & _).
  - vm_compute. apply list_elem_of_here.
  - discriminate.
  - reflexivity.
  - exists r'. split; [exact E|exact Hm].
Defined.

(** Attributes bound with [WithAttrs], and attributes inside a group, reach the
    inner handler as they are. *)
Example with_attrs_are_not_masked :
  inner (WithAttrs {| inner := []; masker := demo_masker |} [("pw", StringValue "hunter2")]) =
    [([("pw", StringValue "hunter2")], {| Message := ""; Attrs := [] |})] ∧
  mask_attr demo_masker ("g", GroupValue [("pw", StringValue "hunter2")]) =
    ("g", GroupValue [("pw", StringValue "hunter2")]).
Proof. done. Qed.

(** Two registered values that overlap in the text: replacing the first leaves
    a fragment of the second. *)
Example overlapping_values_leave_fragment :
  ApplyMask (AddValue "cdef" (AddValue "abcd" NewMasker)) "abcdef" = "***ef".
Proof. done. Qed.
