(* ===== verification/StepCommands.v ===== *)
(** * What steps tell the executor (executor/command, executor/filecommand)

    [ParseCommand] recognises the workflow commands a step prints
    ([::name k=v,...::message]); [ParseKVFile], [ApplyKVs] and [ParsePathFile]
    read the files behind GITHUB_ENV, GITHUB_OUTPUT and GITHUB_PATH.  Printing
    functions, the inverse a step would use, state the round trips. *)

From Stdlib Require Import Ascii.
From S2P Require Import Prelude GoStrings.

Local Open Scope go_scope.

(** ** Workflow commands *)

(** A nil [Parameters] map is [None]. *)
Record Command := {
  CmdName : string;
  Parameters : option (gmap string string);
  CmdMessage : string
}.

Definition knownCommands : list string :=
  ["add-mask"; "group"; "endgroup"; "warning"; "error"; "notice"; "debug"].

Definition parse_param (out : gmap string string) (part : string) : gmap string string :=
  if bool_decide (part = "") then out
  else match index part "=" with
       | Some (S _ as eq) => <[str_take eq part := str_drop (eq + 1) part]> out
       | _ => out
       end.

Definition parseParams (s : string) : gmap string string :=
  fold_left parse_param (split_on ","%char s) ∅.

Definition ParseCommand `{Unicode} (line : string) : option Command :=
  if negb (has_prefix line "::") then None
  else
    let rest := str_drop 2 line in
    match index rest "::" with
    | None => None
    | Some end_ =>
        let head := str_take end_ rest in
        let message := str_drop (end_ + 2) rest in
        let '(name, params) :=
          match index head " " with
          | Some idx => (str_take idx head, Some (parseParams (str_drop (idx + 1) head)))
          | None => (head, None)
          end in
        let cname := to_lower (trim_space name) in
        if bool_decide (cname ∈ knownCommands)
        then Some {| CmdName := cname; Parameters := params; CmdMessage := message |}
        else None
    end.

(** ** File commands *)

Record KV := { Key : string; Val : string }.

#[export] Instance KV_eq_dec : EqDecision KV.
Proof. solve_decision. Defined.

Inductive KVError :=
  | MalformedOpener (line : string)
  | HeredocNotClosed (key delim : string)
  | MalformedLine (line : string).

Definition splitLines (s : string) : list string :=
  let s := replace_all s cr_nl nl in
  if bool_decide (s = "") then []
  else split_on (ascii_of_N 10) (trim_suffix s nl).

(** The loop of [ParseKVFile]; [open] holds the key, the delimiter and the
    body so far while the inner loop is reading a heredoc. *)
Fixpoint kv_loop `{Unicode} (open : option (string * string * list string)) (out : list KV)
    (lines : list string) : outcome KVError (list KV) :=
  match lines, open with
  | [], None => Ok out
  | [], Some (key, delim, _) => Err (HeredocNotClosed key delim)
  | line :: rest, Some (key, delim, body) =>
      if bool_decide (line = delim)
      then kv_loop None (out ++ [{| Key := key; Val := join body nl |}]) rest
      else kv_loop (Some (key, delim, body ++ [line])) out rest
  | line :: rest, None =>
      if bool_decide (trim_space line = "") then kv_loop None out rest
      else match index line "<<" with
           | Some (S _ as idx) =>
               let key := trim_space (str_take idx line) in
               let delim := trim_space (str_drop (idx + 2) line) in
               if bool_decide (key = "") || bool_decide (delim = "")
               then Err (MalformedOpener line)
               else kv_loop (Some (key, delim, [])) out rest
           | _ =>
               match index line "=" with
               | Some (S _ as eq) =>
                   kv_loop None (out ++ [{| Key := trim_space (str_take eq line);
                                            Val := str_drop (eq + 1) line |}]) rest
               | _ => Err (MalformedLine line)
               end
           end
  end.

Definition ParseKVFile `{Unicode} (data : string) : outcome KVError (list KV) :=
  kv_loop None [] (splitLines data).

Definition ApplyKVs (env : gmap string string) (kvs : list KV) : gmap string string :=
  fold_left (fun e kv => <[Key kv := Val kv]> e) kvs env.

Definition ParsePathFile `{Unicode} (data : string) : list string :=
  List.filter (fun line => negb (bool_decide (trim_space line = ""))) (splitLines data).

(** ** Printing *)

Definition print_param (p : string * string) : string := fst p +:+ "=" +:+ snd p.

Definition print_command (name : string) (params : option (list (string * string)))
    (message : string) : string :=
  "::" +:+ name +:+
  match params with None => "" | Some ps => " " +:+ join (map print_param ps) "," end +:+
  "::" +:+ message.

(** Names and values a command line can carry. *)
Definition param_ok (p : string * string) : Prop :=
  fst p ≠ "" ∧ byte_in "="%char (fst p) = false ∧ byte_in ","%char (fst p +:+ snd p) = false ∧
  byte_in ":"%char (fst p +:+ snd p) = false.

(** A value is written as [NAME=value] when the line reads back as one, and as
    a heredoc otherwise. *)
Definition plain_value (v : string) : bool :=
  negb (byte_in (ascii_of_N 10) v) && negb (byte_in "<"%char v).

Definition print_kv (delim : string) (kv : KV) : list string :=
  if plain_value (Val kv) then [Key kv +:+ "=" +:+ Val kv]
  else (Key kv +:+ "<<" +:+ delim) :: split_on (ascii_of_N 10) (Val kv) ++ [delim].

Definition print_lines (lines : list string) : string :=
  foldr (fun l rest => l +:+ nl +:+ rest) "" lines.

Definition print_kvs (delim : string) (kvs : list KV) : string :=
  print_lines (concat (map (print_kv delim) kvs)).

Definition delim_ok `{Unicode} (d : string) : Prop :=
  d ≠ "" ∧ trim_space d = d ∧ byte_in (ascii_of_N 10) d = false ∧
  byte_in (ascii_of_N 13) d = false.

Definition kv_ok `{Unicode} (d : string) (kv : KV) : Prop :=
  Key kv ≠ "" ∧ trim_space (Key kv) = Key kv ∧
  byte_in "="%char (Key kv) = false ∧ byte_in "<"%char (Key kv) = false ∧
  byte_in (ascii_of_N 10) (Key kv) = false ∧
  byte_in (ascii_of_N 13) (Key kv +:+ Val kv) = false ∧
  d ∉ split_on (ascii_of_N 10) (Val kv).

(** ** Round trip of commands *)

Lemma byte_in_join c l sep :
  byte_in c sep = false → Forall (fun w => byte_in c w = false) l → byte_in c (join l sep) = false.
Proof.
  intros Hs Hl. induction Hl as [|w l Hw Hl IH]; [done|]. destruct l as [|w' l]; [done|].
  change (join (w :: w' :: l) sep) with (w +:+ sep +:+ join (w' :: l) sep).
  by rewrite !byte_in_app, Hw, Hs, IH.
Qed.

Lemma parse_print_param m p :
  param_ok p → parse_param m (print_param p) = <[fst p := snd p]> m.
Proof.
  destruct p as [k v]. intros (Hk & Heq & _). simpl in *. unfold parse_param, print_param. simpl.
  destruct k as [|c k]; [done|]. rewrite bool_decide_eq_false_2 by done.
  rewrite (index_byte_app (String c k) "="%char v Heq). simpl String.length. cbv iota.
  change (S (String.length k)) with (String.length (String c k)).
  rewrite str_take_app. by rewrite (str_drop_app_S (String c k) "="%char v).
Qed.

Lemma parse_print_params ps :
  Forall param_ok ps → parseParams (join (map print_param ps) ",") = fold_left (fun m p => <[fst p := snd p]> m) ps ∅.
Proof.
  intros Hps. unfold parseParams. destruct ps as [|p0 ps0]; [done|].
  rewrite split_on_join; [|done|].
  - generalize (∅ : gmap string string). induction Hps as [|p ps Hp Hps IH]; intros m; [done|].
    simpl. by rewrite (parse_print_param m p Hp), IH.
  - apply Forall_map. eapply Forall_impl; [exact Hps|]. intros [k v] (_ & _ & Hc & _).
    simpl in *. rewrite byte_in_app in Hc. unfold print_param. simpl. rewrite byte_in_app. exact Hc.
Qed.

Lemma known_command_shape `{Unicode} name :
  name ∈ knownCommands →
  to_lower (trim_space name) = name ∧ byte_in ":"%char name = false ∧ byte_in " "%char name = false.
Proof.
  unfold knownCommands. rewrite !elem_of_cons, elem_of_nil.
  intros Hn. repeat destruct Hn as [->|Hn]; [vm_compute; done..|done].
Qed.

(** Round trip of workflow commands: printing a known command with
    well-formed, distinct parameters and any message (colons included) and
    parsing the line gives the command back. *)
Theorem command_round_trip `{Unicode} name params message :
  name ∈ knownCommands →
  (∀ ps, params = Some ps → Forall param_ok ps ∧ NoDup ps.*1) →
  ParseCommand (print_command name params message) =
    Some {| CmdName := name; Parameters := list_to_map <$> params; CmdMessage := message |}.
Proof.
  intros Hn Hps. destruct (known_command_shape name Hn) as (Hid & Hcol & Hsp).
  set (tail := match params with
               | None => "" | Some ps => " " +:+ join (map print_param ps) "," end).
  assert (byte_in ":"%char tail = false) as Ht.
  { unfold tail. destruct params as [ps|]; [|done]. destruct (Hps ps eq_refl) as [Hok _].
    simpl. apply byte_in_join; [done|]. apply Forall_map. eapply Forall_impl; [exact Hok|].
    intros [k v] (_ & _ & _ & Hc). simpl in *. rewrite byte_in_app in Hc.
    unfold print_param. simpl. rewrite byte_in_app. simpl. done. }
  unfold ParseCommand, print_command. fold tail. rewrite has_prefix_app.
  change (negb true) with false. cbv iota.
  change (str_drop 2 ("::" +:+ name +:+ tail +:+ "::" +:+ message))
    with (name +:+ tail +:+ "::" +:+ message).
  rewrite <-app_str_assoc. cbv zeta.
  rewrite (index_app_free (name +:+ tail) ":"%char ":" message)
    by (by rewrite byte_in_app, Hcol, Ht).
  rewrite str_take_app. change 2 with (String.length "::"). rewrite str_drop_app_len.
  unfold tail. destruct params as [ps|].
  - simpl. rewrite (index_byte_app name " "%char) by done. rewrite str_take_app.
    rewrite str_drop_app_S. rewrite Hid, bool_decide_eq_true_2 by done.
    destruct (Hps ps eq_refl) as [Hok Hnd]. rewrite parse_print_params by done.
    rewrite fold_insert_map by done. by rewrite map_union_empty.
  - rewrite app_str_nil_r. rewrite (index_absent_byte name " "%char " ") by done.
    rewrite Hid, bool_decide_eq_true_2 by done. done.
Qed.

Lemma command_round_trip_witness :
  @ParseCommand ascii_unicode
    (print_command "error" (Some [("file", "a.go"); ("line", "3")]) "bad: x::y") =
  Some {| CmdName := "error"; Parameters := Some {["file" := "a.go"; "line" := "3"]};
          CmdMessage := "bad: x::y" |}.
Proof.
  apply (@command_round_trip ascii_unicode "error" (Some [("file", "a.go"); ("line", "3")])).
  - vm_compute. do 4 apply list_elem_of_further. apply list_elem_of_here.
  - intros ps [= <-]. split.
    + repeat constructor; discriminate.
    + apply (bool_decide_unpack _). vm_compute. exact I.
Defined.

(** ** Round trip of file commands *)

Lemma byte_in_split c sep s w :
  byte_in c s = false → w ∈ split_on sep s → byte_in c w = false.
Proof.
  revert w. induction s as [|d s IH]; intros w; simpl.
  - intros _ ->%list_elem_of_singleton. done.
  - intros [Hd Hs]%orb_false_iff. destruct (bool_decide (d = sep)).
    + intros [->|Hw]%elem_of_cons; [done|auto].
    + destruct (split_on sep s) as [|x xs] eqn:E.
      * intros ->%list_elem_of_singleton. simpl. by rewrite Hd.
      * intros [->|Hw]%elem_of_cons; simpl; [rewrite Hd; simpl; apply IH; set_solver|].
        apply IH; set_solver.
Qed.

Lemma sep_split sep s w : w ∈ split_on sep s → byte_in sep w = false.
Proof.
  revert w. induction s as [|d s IH]; intros w; simpl.
  - by intros ->%list_elem_of_singleton.
  - case_bool_decide as Hsep; [intros [->|Hw]%elem_of_cons; [done|auto]|].
    destruct (split_on sep s) as [|x xs] eqn:E.
    + intros ->%list_elem_of_singleton. simpl. by rewrite bool_decide_eq_false_2.
    + intros [->|Hw]%elem_of_cons; simpl.
      * rewrite bool_decide_eq_false_2 by done. apply IH. set_solver.
      * apply IH. set_solver.
Qed.

(** The lines of a printed file are read back. *)
Lemma splitLines_print lines :
  Forall (fun l => byte_in (ascii_of_N 10) l = false ∧ byte_in (ascii_of_N 13) l = false) lines →
  splitLines (print_lines lines) = lines.
Proof.
  intros Hl. unfold splitLines.
  assert (byte_in (ascii_of_N 13) (print_lines lines) = false) as Hcr.
  { induction Hl as [|l ls [_ Hl] _ IH]; [done|].
    change (print_lines (l :: ls)) with (l +:+ nl +:+ print_lines ls).
    by rewrite !byte_in_app, Hl, IH. }
  rewrite replace_absent.
  2:{ apply contains_false. intros a b Heq. rewrite Heq, !byte_in_app in Hcr. simpl in Hcr.
      by destruct (byte_in _ a). }
  destruct lines as [|l0 ls]; [done|].
  assert (print_lines (l0 :: ls) = join (l0 :: ls) nl +:+ nl) as ->.
  { clear. revert l0. induction ls as [|l1 ls IH]; intros l0; [simpl; done|].
    change (print_lines (l0 :: l1 :: ls)) with (l0 +:+ nl +:+ print_lines (l1 :: ls)).
    change (join (l0 :: l1 :: ls) nl) with (l0 +:+ nl +:+ join (l1 :: ls) nl).
    by rewrite IH, !app_str_assoc. }
  rewrite bool_decide_eq_false_2.
  2:{ intros Hz. apply (f_equal String.length) in Hz. rewrite app_str_length in Hz. simpl in Hz. lia. }
  rewrite trim_suffix_app. apply split_on_join; [done|].
  eapply Forall_impl; [exact Hl|]. by intros l [??].
Qed.

Lemma kv_heredoc_loop `{Unicode} key delim body out ls rest :
  delim ∉ ls →
  kv_loop (Some (key, delim, body)) out (ls ++ delim :: rest) =
  kv_loop None (out ++ [{| Key := key; Val := join (body ++ ls) nl |}]) rest.
Proof.
  revert body. induction ls as [|l ls IH]; intros body Hd; simpl.
  - rewrite bool_decide_eq_true_2 by done. by rewrite app_nil_r.
  - rewrite bool_decide_eq_false_2 by set_solver. rewrite IH by set_solver.
    by rewrite <-app_assoc.
Qed.

Lemma kv_loop_plain `{UnicodeLaws} d kv out rest :
  kv_ok d kv → plain_value (Val kv) = true →
  kv_loop None out ((Key kv +:+ "=" +:+ Val kv) :: rest) = kv_loop None (out ++ [kv]) rest.
Proof.
  destruct kv as [k v]. intros (Hk & Ht & Heq & Hlt & _) Hp. simpl in *.
  apply andb_true_iff in Hp as [_ Hv%negb_true_iff].
  rewrite bool_decide_eq_false_2.
  2:{ apply (trim_space_keeps _ "="%char); [|done..]. by rewrite byte_in_app, orb_true_r. }
  rewrite (index_absent_byte _ "<"%char "<<"); [|done|by rewrite byte_in_app, Hlt].
  rewrite (index_byte_app k "="%char v Heq). destruct k as [|c k]; [done|].
  simpl String.length. cbv iota. change (S (String.length k)) with (String.length (String c k)).
  by rewrite str_take_app, (str_drop_app_S (String c k)), Ht.
Qed.

Lemma kv_loop_opener `{UnicodeLaws} d kv out rest :
  delim_ok d → kv_ok d kv →
  kv_loop None out ((Key kv +:+ "<<" +:+ d) :: rest) = kv_loop (Some (Key kv, d, [])) out rest.
Proof.
  destruct kv as [k v]. intros (Hd & Htd & _) (Hk & Ht & Heq & Hlt & _). simpl in *.
  rewrite bool_decide_eq_false_2.
  2:{ apply (trim_space_keeps _ "<"%char); [|done..]. by rewrite byte_in_app, orb_true_r. }
  change (String "<" (String "<" d)) with ("<<" +:+ d).
  rewrite (index_app_free k "<"%char "<" d Hlt). destruct k as [|c k]; [done|].
  simpl String.length. cbv iota. change (S (String.length k)) with (String.length (String c k)).
  change 2 with (String.length "<<").
  rewrite str_take_app, (str_drop_app_len (String c k) "<<" d), Ht, Htd.
  by rewrite !bool_decide_eq_false_2.
Qed.

Lemma kv_loop_print `{UnicodeLaws} d kv out rest :
  delim_ok d → kv_ok d kv →
  kv_loop None out (print_kv d kv ++ rest) = kv_loop None (out ++ [kv]) rest.
Proof.
  intros Hd Hkv. unfold print_kv. destruct (plain_value (Val kv)) eqn:Hp.
  { by apply (kv_loop_plain d). }
  rewrite <-app_comm_cons, kv_loop_opener by done. rewrite <-app_assoc.
  change ([d] ++ rest) with (d :: rest).
  destruct Hkv as (_ & _ & _ & _ & _ & _ & Hnd). rewrite kv_heredoc_loop by done.
  change ([] ++ ?l) with l. unfold nl, byte_str. rewrite join_split_on. by destruct kv.
Qed.

Lemma print_kv_lines `{Unicode} d kv :
  delim_ok d → kv_ok d kv →
  Forall (fun l => byte_in (ascii_of_N 10) l = false ∧ byte_in (ascii_of_N 13) l = false)
    (print_kv d kv).
Proof.
  intros (_ & _ & Hdn & Hdr) (_ & _ & _ & _ & Hkn & Hr & _). rewrite byte_in_app in Hr.
  apply orb_false_iff in Hr as [Hkr Hvr]. unfold print_kv.
  destruct (plain_value (Val kv)) eqn:Hp.
  - apply andb_true_iff in Hp as [Hv%negb_true_iff _]. constructor; [|done].
    by rewrite !byte_in_app, Hkn, Hkr, Hv, Hvr.
  - constructor; [by rewrite !byte_in_app, Hkn, Hkr, Hdn, Hdr|].
    apply Forall_app. split; [|by repeat constructor].
    apply Forall_forall. intros w Hw. split; [by eapply sep_split|by eapply byte_in_split].
Qed.

Lemma ApplyKVs_lookup env kvs k :
  ApplyKVs env kvs !! k =
    match find (fun kv => bool_decide (Key kv = k)) (reverse kvs) with
    | Some kv => Some (Val kv) | None => env !! k end.
Proof.
  induction kvs as [|kv kvs IH] using rev_ind; [done|].
  unfold ApplyKVs. rewrite fold_left_app. simpl. rewrite reverse_snoc. simpl.
  case_bool_decide as Hk; [subst; by rewrite lookup_insert_eq|].
  by rewrite lookup_insert_ne.
Qed.

(** Round trip of the environment file: a file written with one
    [NAME=value] line or one heredoc per variable parses to exactly the
    variables written, in order, whatever lines the values contain; and folding
    them into the environment gives each name its last value and leaves the
    others alone. *)
Theorem kv_file_round_trip `{UnicodeLaws} d kvs env k :
  delim_ok d → Forall (kv_ok d) kvs →
  ParseKVFile (print_kvs d kvs) = Ok kvs ∧
  ApplyKVs env kvs !! k =
    match find (fun kv => bool_decide (Key kv = k)) (reverse kvs) with
    | Some kv => Some (Val kv) | None => env !! k end.
Proof.
  intros Hd Hkvs. split; [|apply ApplyKVs_lookup]. unfold ParseKVFile, print_kvs.
  rewrite splitLines_print.
  2:{ induction Hkvs as [|kv kvs Hkv _ IH]; simpl; [done|].
      apply Forall_app. by split; [apply print_kv_lines|]. }
  change kvs with ([] ++ kvs) at 2. generalize (@nil KV) as out.
  induction Hkvs as [|kv kvs Hkv _ IH]; intros out; simpl; [by rewrite app_nil_r|].
  rewrite kv_loop_print by done. rewrite IH. by rewrite <-app_assoc.
Qed.

Definition demo_kvs : list KV :=
  [{| Key := "A"; Val := "1" |}; {| Key := "B"; Val := "x" +:+ nl +:+ "y=<<z" |};
   {| Key := "A"; Val := "2" |}].

Lemma kv_file_round_trip_witness :
  @ParseKVFile ascii_unicode (print_kvs "EOF" demo_kvs) = Ok demo_kvs ∧
  ApplyKVs ∅ demo_kvs !! "A" = Some "2".
Proof.
  apply (@kv_file_round_trip ascii_unicode ascii_unicode_laws "EOF" demo_kvs ∅ "A").
  - repeat split; discriminate.
  - repeat constructor; try discriminate; apply (bool_decide_unpack _); vm_compute; exact I.
Defined.

(** A heredoc that is not closed is an error, even when complete variables
    came before it: nothing of such a file takes effect. *)
Theorem unclosed_heredoc_is_error `{UnicodeLaws} d kvs kv tail :
  delim_ok d → Forall (kv_ok d) kvs → kv_ok d kv → d ∉ tail →
  Forall (fun l => byte_in (ascii_of_N 10) l = false ∧ byte_in (ascii_of_N 13) l = false) tail →
  ParseKVFile (print_lines (concat (map (print_kv d) kvs) ++
                            (Key kv +:+ "<<" +:+ d) :: tail)) =
    Err (HeredocNotClosed (Key kv) d).
Proof.
  intros Hd Hkvs Hkv Hn Ht. unfold ParseKVFile. rewrite splitLines_print.
  2:{ apply Forall_app. split.
      - induction Hkvs as [|kv' kvs Hkv' _ IH]; simpl; [done|].
        apply Forall_app. by split; [apply print_kv_lines|].
      - constructor; [|done]. destruct Hd as (_ & _ & Hdn & Hdr).
        destruct Hkv as (_ & _ & _ & _ & Hkn & Hr & _). rewrite byte_in_app in Hr.
        apply orb_false_iff in Hr as [Hkr _]. by rewrite !byte_in_app, Hkn, Hkr, Hdn, Hdr. }
  generalize (@nil KV) as out.
  induction Hkvs as [|kv' kvs Hkv' _ IH]; intros out.
  - change (concat (map (print_kv d) []) ++ ?l) with l. rewrite kv_loop_opener by done. generalize (@nil string) as body. clear Ht.
    induction tail as [|l tail IHt]; intros body; simpl; [done|].
    rewrite bool_decide_eq_false_2 by set_solver. apply IHt. set_solver.
  - simpl concat. rewrite <-app_assoc, kv_loop_print by done. apply IH.
Qed.

Lemma unclosed_heredoc_is_error_witness :
  @ParseKVFile ascii_unicode (print_lines (concat (map (print_kv "EOF") demo_kvs) ++
    ["C" +:+ "<<" +:+ "EOF"; "no end"])) = Err (HeredocNotClosed "C" "EOF").
Proof.
  apply (@unclosed_heredoc_is_error ascii_unicode ascii_unicode_laws "EOF" demo_kvs
    {| Key := "C"; Val := "" |} ["no end"]).
  - repeat split; discriminate.
  - repeat constructor; try discriminate; apply (bool_decide_unpack _); vm_compute; exact I.
  - repeat constructor; try discriminate; apply (bool_decide_unpack _); vm_compute; exact I.
  - apply (bool_decide_unpack _); vm_compute; exact I.
  - repeat constructor.
Defined.

(** A plain line whose value contains two less-than signs is read as a heredoc opener. *)
Example shift_in_value_opens_heredoc :
  @ParseKVFile ascii_unicode ("FOO=a<<b" +:+ nl) = Err (HeredocNotClosed "FOO=a" "b").
Proof. done. Qed.
