(* ===== verification/Base64.v ===== *)
(** * Base64 (encoding/base64)

    The URL alphabet without padding ([base64.RawURLEncoding]), and the standard
    alphabet with padding ([base64.StdEncoding]): the encoders, the decoders, which
    skip line breaks, read groups of four digits and ignore the unused bits, and
    their round trips. *)

From Stdlib Require Import Ascii.
From S2P Require Import Prelude GoStrings.

Local Open Scope N_scope.

(** The digit of a six-bit value. *)
Definition b64_char (n : N) : ascii :=
  ascii_of_N
    (if n <? 26 then n + 65
     else if n <? 52 then n - 26 + 97
     else if n <? 62 then n - 52 + 48
     else if n =? 62 then 45 else 95).

(** The value of a digit. *)
Definition b64_value (c : ascii) : option N :=
  let n := N_of_ascii c in
  if (65 <=? n) && (n <=? 90) then Some (n - 65)
  else if (97 <=? n) && (n <=? 122) then Some (n - 97 + 26)
  else if (48 <=? n) && (n <=? 57) then Some (n - 48 + 52)
  else if n =? 45 then Some 62
  else if n =? 95 then Some 63
  else None.

Fixpoint b64_encode (s : string) : string :=
  match s with
  | "" => ""
  | String a "" =>
      let x := N_of_ascii a in
      String (b64_char (x / 4)) (String (b64_char (x mod 4 * 16)) "")
  | String a (String b "") =>
      let x := N_of_ascii a in
      let y := N_of_ascii b in
      String (b64_char (x / 4)) (String (b64_char (x mod 4 * 16 + y / 16))
        (String (b64_char (y mod 16 * 4)) ""))
  | String a (String b (String c s')) =>
      let x := N_of_ascii a in
      let y := N_of_ascii b in
      let z := N_of_ascii c in
      String (b64_char (x / 4)) (String (b64_char (x mod 4 * 16 + y / 16))
        (String (b64_char (y mod 16 * 4 + z / 64)) (String (b64_char (z mod 64)) (b64_encode s'))))
  end.

(** Digits with the line breaks removed; [None] at a byte outside the alphabet. *)
Fixpoint b64_digits (s : string) : option (list N) :=
  match s with
  | "" => Some []
  | String c s' =>
      if (N_of_ascii c =? 10) || (N_of_ascii c =? 13) then b64_digits s'
      else v ← b64_value c; vs ← b64_digits s'; Some (v :: vs)
  end.

Fixpoint b64_bytes (ds : list N) : option string :=
  match ds with
  | [] => Some ""
  | [_] => None
  | [p; q] => Some (String (ascii_of_N (p * 4 + q / 16)) "")
  | [p; q; r] =>
      Some (String (ascii_of_N (p * 4 + q / 16)) (String (ascii_of_N (q mod 16 * 16 + r / 4)) ""))
  | p :: q :: r :: t :: ds' =>
      rest ← b64_bytes ds';
      Some (String (ascii_of_N (p * 4 + q / 16)) (String (ascii_of_N (q mod 16 * 16 + r / 4))
              (String (ascii_of_N (r mod 4 * 64 + t)) rest)))
  end.

Definition b64_decode (s : string) : option string := ds ← b64_digits s; b64_bytes ds.

(** ** Round trip *)

(** All six-bit values, checked one by one. *)
Definition digit_ok (n : N) : bool :=
  bool_decide (b64_value (b64_char n) = Some n) &&
  negb (N_of_ascii (b64_char n) =? 10) && negb (N_of_ascii (b64_char n) =? 13) &&
  negb (N_of_ascii (b64_char n) =? 46).

Lemma digit_ok_all n : n < 64 → digit_ok n = true.
Proof.
  intros Hn. assert (forallb digit_ok (map N.of_nat (seq 0 64)) = true) as Hall by by vm_compute.
  rewrite forallb_forall in Hall. apply Hall, in_map_iff. exists (N.to_nat n).
  split; [lia|]. apply in_seq. lia.
Qed.

Lemma b64_digits_cons n s :
  n < 64 → b64_digits (String (b64_char n) s) = (fun vs => n :: vs) <$> b64_digits s.
Proof.
  intros Hn. pose proof (digit_ok_all n Hn) as Hd. unfold digit_ok in Hd.
  repeat apply andb_true_iff in Hd as [Hd ?]. breflect.
  simpl. repeat match goal with E : (_ =? _) = false |- _ => rewrite E; clear E end.
  simpl. rewrite Hd. simpl. by destruct (b64_digits s).
Qed.

Lemma byte_bound a : N_of_ascii a < 256.
Proof. apply N_ascii_bounded. Qed.

Lemma regroup2 x y : x / 4 * 4 + (x mod 4 * 16 + y / 16) / 16 = x + y / 16 / 16.
Proof.
  rewrite N.add_comm with (n := x mod 4 * 16), N.div_add by done.
  rewrite (N.div_mod x 4) at 3 by done. lia.
Qed.

(** The bytes of a group are rebuilt from its digits. *)
Lemma byte1 x y : x < 256 → y < 256 → x / 4 * 4 + (x mod 4 * 16 + y / 16) / 16 = x.
Proof. intros. rewrite regroup2. rewrite N.Div0.div_div, (N.div_small y) by lia. lia. Qed.

Lemma byte2 x y z :
  y < 256 → z < 256 →
  (x mod 4 * 16 + y / 16) mod 16 * 16 + (y mod 16 * 4 + z / 64) / 4 = y.
Proof.
  intros Hy Hz. rewrite N.add_comm with (n := x mod 4 * 16), N.Div0.mod_add.
  rewrite N.mod_small by (apply N.Div0.div_lt_upper_bound; lia).
  rewrite N.add_comm with (n := y mod 16 * 4), N.div_add by done.
  rewrite N.Div0.div_div, (N.div_small z) by lia.
  rewrite (N.div_mod y 16) at 3 by done. lia.
Qed.

Lemma byte3 y z : z < 256 → (y mod 16 * 4 + z / 64) mod 4 * 64 + z mod 64 = z.
Proof.
  intros Hz. rewrite N.add_comm with (n := y mod 16 * 4), N.Div0.mod_add.
  rewrite N.mod_small by (apply N.Div0.div_lt_upper_bound; lia).
  rewrite (N.div_mod z 64) at 3 by done. lia.
Qed.

(** Each digit is below 64. *)
Lemma digit_bounds x y z :
  x < 256 → y < 256 → z < 256 →
  x / 4 < 64 ∧ x mod 4 * 16 + y / 16 < 64 ∧ y mod 16 * 4 + z / 64 < 64 ∧ z mod 64 < 64.
Proof.
  intros. pose proof (N.mod_lt x 4 ltac:(done)). pose proof (N.mod_lt y 16 ltac:(done)).
  pose proof (N.mod_lt z 64 ltac:(done)).
  assert (x / 4 < 64) by (apply N.Div0.div_lt_upper_bound; lia).
  assert (y / 16 < 16) by (apply N.Div0.div_lt_upper_bound; lia).
  assert (z / 64 < 4) by (apply N.Div0.div_lt_upper_bound; lia). lia.
Qed.

(** Induction in steps of three bytes. *)
Lemma string_ind3 (P : string → Prop) :
  P "" → (∀ a, P (String a "")) → (∀ a b, P (String a (String b ""))) →
  (∀ a b c s, P s → P (String a (String b (String c s)))) → ∀ s, P s.
Proof.
  intros H0 H1 H2 H3. fix IH 1. intros [|a [|b [|c s]]]; [exact H0|apply H1|apply H2|].
  apply H3, IH.
Qed.

Theorem b64_round_trip s : b64_decode (b64_encode s) = Some s.
Proof.
  unfold b64_decode. induction s as [|a|a b|a b c s IH] using string_ind3; [done|..];
    cbn [b64_encode].
  - destruct (digit_bounds (N_of_ascii a) 0 0) as (H1 & H2 & _); [apply byte_bound|done..|].
    rewrite N.div_0_l, N.add_0_r in H2 by done.
    rewrite b64_digits_cons, b64_digits_cons by done. simpl.
    pose proof (byte1 (N_of_ascii a) 0 (byte_bound a) ltac:(done)) as E.
    rewrite N.div_0_l, N.add_0_r in E by done. rewrite E. by rewrite ascii_N_embedding.
  - destruct (digit_bounds (N_of_ascii a) (N_of_ascii b) 0) as (H1 & H2 & H3 & _);
      [apply byte_bound..|done|].
    rewrite N.div_0_l, N.add_0_r in H3 by done.
    rewrite !b64_digits_cons by done. simpl.
    pose proof (byte2 (N_of_ascii a) (N_of_ascii b) 0 (byte_bound b) ltac:(done)) as E.
    rewrite N.div_0_l, N.add_0_r in E by done.
    rewrite E, byte1 by apply byte_bound. by rewrite !ascii_N_embedding.
  - destruct (digit_bounds (N_of_ascii a) (N_of_ascii b) (N_of_ascii c)) as (H1 & H2 & H3 & H4);
      [apply byte_bound..|].
    rewrite !b64_digits_cons by done.
    destruct (b64_digits (b64_encode s)) as [ds|]; [|done]. simpl in *. rewrite IH. simpl.
    rewrite byte1, byte2, byte3 by apply byte_bound. by rewrite !ascii_N_embedding.
Qed.

(** No encoded text contains a dot, the separator of a token. *)
Lemma b64_char_not_dot n : n < 64 → b64_char n ≠ "."%char.
Proof.
  intros Hn E. pose proof (digit_ok_all n Hn) as Hd. unfold digit_ok in Hd. breflect.
  rewrite E in *. done.
Qed.

Lemma b64_no_dot s : byte_in "."%char (b64_encode s) = false.
Proof.
  induction s as [|a|a b|a b c s IH] using string_ind3; [done|..]; cbn [b64_encode].
  - destruct (digit_bounds (N_of_ascii a) 0 0) as (H1 & H2 & _); [apply byte_bound|done..|].
    rewrite N.div_0_l, N.add_0_r in H2 by done.
    cbn [byte_in]. by rewrite !bool_decide_eq_false_2 by (apply not_eq_sym, b64_char_not_dot; done).
  - destruct (digit_bounds (N_of_ascii a) (N_of_ascii b) 0) as (H1 & H2 & H3 & _);
      [apply byte_bound..|done|].
    rewrite N.div_0_l, N.add_0_r in H3 by done.
    cbn [byte_in]. by rewrite !bool_decide_eq_false_2 by (apply not_eq_sym, b64_char_not_dot; done).
  - destruct (digit_bounds (N_of_ascii a) (N_of_ascii b) (N_of_ascii c)) as (H1 & H2 & H3 & H4);
      [apply byte_bound..|].
    cbn [byte_in]. by rewrite !bool_decide_eq_false_2 by (apply not_eq_sym, b64_char_not_dot; done).
Qed.

(** ** The standard alphabet with padding *)

Definition std_char (n : N) : ascii :=
  ascii_of_N
    (if n <? 26 then n + 65
     else if n <? 52 then n - 26 + 97
     else if n <? 62 then n - 52 + 48
     else if n =? 62 then 43 else 47).

Definition std_value (c : ascii) : option N :=
  let n := N_of_ascii c in
  if (65 <=? n) && (n <=? 90) then Some (n - 65)
  else if (97 <=? n) && (n <=? 122) then Some (n - 97 + 26)
  else if (48 <=? n) && (n <=? 57) then Some (n - 48 + 52)
  else if n =? 43 then Some 62
  else if n =? 47 then Some 63
  else None.

Fixpoint std_encode (s : string) : string :=
  match s with
  | "" => ""
  | String a "" =>
      let x := N_of_ascii a in
      String (std_char (x / 4)) (String (std_char (x mod 4 * 16)) "==")
  | String a (String b "") =>
      let x := N_of_ascii a in
      let y := N_of_ascii b in
      String (std_char (x / 4)) (String (std_char (x mod 4 * 16 + y / 16))
        (String (std_char (y mod 16 * 4)) "="))
  | String a (String b (String c s')) =>
      let x := N_of_ascii a in
      let y := N_of_ascii b in
      let z := N_of_ascii c in
      String (std_char (x / 4)) (String (std_char (x mod 4 * 16 + y / 16))
        (String (std_char (y mod 16 * 4 + z / 64)) (String (std_char (z mod 64)) (std_encode s'))))
  end.

Definition is_break (c : ascii) : bool := (N_of_ascii c =? 10) || (N_of_ascii c =? 13).

Fixpoint drop_breaks (s : string) : string :=
  match s with
  | "" => ""
  | String c s' => if is_break c then drop_breaks s' else String c (drop_breaks s')
  end.

(** Groups of four; a group with padding ends the text. *)
Fixpoint std_groups (s : string) : option string :=
  match s with
  | "" => Some ""
  | String a (String b (String c (String d rest))) =>
      p ← std_value a; q ← std_value b;
      if bool_decide (c = "="%char) then
        if bool_decide (d = "="%char ∧ rest = "") then Some (String (ascii_of_N (p * 4 + q / 16)) "") else None
      else
        r ← std_value c;
        if bool_decide (d = "="%char) then
          if bool_decide (rest = "")
          then Some (String (ascii_of_N (p * 4 + q / 16)) (String (ascii_of_N (q mod 16 * 16 + r / 4)) ""))
          else None
        else
          t ← std_value d; tl ← std_groups rest;
          Some (String (ascii_of_N (p * 4 + q / 16)) (String (ascii_of_N (q mod 16 * 16 + r / 4))
                  (String (ascii_of_N (r mod 4 * 64 + t)) tl)))
  | _ => None
  end.

Definition std_decode (s : string) : option string := std_groups (drop_breaks s).

(** ** Round trip *)

Definition std_digit_ok (n : N) : bool :=
  bool_decide (std_value (std_char n) = Some n) && negb (is_break (std_char n)) &&
  negb (is_space (std_char n)) && ascii_byte (std_char n) &&
  negb (bool_decide (std_char n = "="%char)).

Lemma std_digit_ok_all n : n < 64 → std_digit_ok n = true.
Proof.
  intros Hn. assert (forallb std_digit_ok (map N.of_nat (seq 0 64)) = true) as Hall by by vm_compute.
  rewrite forallb_forall in Hall. apply Hall, in_map_iff. exists (N.to_nat n).
  split; [lia|]. apply in_seq. lia.
Qed.

Lemma std_char_facts n : n < 64 →
  std_value (std_char n) = Some n ∧ is_space (std_char n) = false ∧ ascii_byte (std_char n) = true ∧
  std_char n ≠ "="%char.
Proof.
  intros Hn. pose proof (std_digit_ok_all n Hn) as Hd. unfold std_digit_ok in Hd. breflect. by split_and!.
Qed.

(** Text without white space. *)
Lemma no_space_drop s : no_space s = true → drop_breaks s = s.
Proof.
  induction s as [|c s IH]; cbn [no_space drop_breaks]; intros Hs; [done|]. breflect. rewrite IH by done.
  assert (is_break c = false) as ->; [|done]. unfold is_break. apply orb_false_iff.
  split; apply N.eqb_neq; intros E; assert (is_space c = true); try congruence;
    rewrite <-(ascii_N_embedding c), E; reflexivity.
Qed.

(** Encoded text, shown group by group. *)
Lemma std_encode_plain s : no_space (std_encode s) = true ∧ all_ascii (std_encode s) = true.
Proof.
  assert (∀ n t, n < 64 → no_space t = true ∧ all_ascii t = true →
    no_space (String (std_char n) t) = true ∧ all_ascii (String (std_char n) t) = true) as Hcons.
  { intros n t Hn [H1 H2]. destruct (std_char_facts n Hn) as (_ & Hsp & Ha & _). cbn [no_space all_ascii].
    by rewrite Hsp, Ha, H1, H2. }
  induction s as [|a|a b|a b c s IH] using string_ind3; [done|..]; cbn [std_encode].
  - destruct (digit_bounds (N_of_ascii a) 0 0) as (H1 & H2 & _); [apply byte_bound|done..|].
    rewrite N.div_0_l, N.add_0_r in H2 by done. auto.
  - destruct (digit_bounds (N_of_ascii a) (N_of_ascii b) 0) as (H1 & H2 & H3 & _); [apply byte_bound..|done|].
    rewrite N.div_0_l, N.add_0_r in H3 by done. auto.
  - destruct (digit_bounds (N_of_ascii a) (N_of_ascii b) (N_of_ascii c)) as (H1 & H2 & H3 & H4);
      [apply byte_bound..|]. auto.
Qed.

Lemma std_groups_encode s : std_groups (std_encode s) = Some s.
Proof.
  induction s as [|a|a b|a b c s IH] using string_ind3; [done|..]; cbn [std_encode std_groups].
  - destruct (digit_bounds (N_of_ascii a) 0 0) as (H1 & H2 & _); [apply byte_bound|done..|].
    rewrite N.div_0_l, N.add_0_r in H2 by done.
    destruct (std_char_facts _ H1) as (-> & _), (std_char_facts _ H2) as (-> & _). cbn [mbind option_bind].
    rewrite !bool_decide_eq_true_2 by done.
    pose proof (byte1 (N_of_ascii a) 0 (byte_bound a) ltac:(done)) as E.
    rewrite N.div_0_l, N.add_0_r in E by done. rewrite E. by rewrite ascii_N_embedding.
  - destruct (digit_bounds (N_of_ascii a) (N_of_ascii b) 0) as (H1 & H2 & H3 & _); [apply byte_bound..|done|].
    rewrite N.div_0_l, N.add_0_r in H3 by done.
    destruct (std_char_facts _ H1) as (-> & _), (std_char_facts _ H2) as (-> & _).
    destruct (std_char_facts _ H3) as (-> & _ & _ & Hne). cbn [mbind option_bind].
    rewrite bool_decide_eq_false_2 by done. rewrite !bool_decide_eq_true_2 by done.
    pose proof (byte2 (N_of_ascii a) (N_of_ascii b) 0 (byte_bound b) ltac:(done)) as E.
    rewrite N.div_0_l, N.add_0_r in E by done.
    rewrite E, byte1 by apply byte_bound. by rewrite !ascii_N_embedding.
  - destruct (digit_bounds (N_of_ascii a) (N_of_ascii b) (N_of_ascii c)) as (H1 & H2 & H3 & H4);
      [apply byte_bound..|].
    destruct (std_char_facts _ H1) as (-> & _), (std_char_facts _ H2) as (-> & _).
    destruct (std_char_facts _ H3) as (-> & _ & _ & Hne), (std_char_facts _ H4) as (-> & _ & _ & Hne').
    cbn [mbind option_bind]. rewrite !bool_decide_eq_false_2 by done. rewrite IH. cbn [mbind option_bind].
    rewrite byte1, byte2, byte3 by apply byte_bound. by rewrite !ascii_N_embedding.
Qed.

Theorem std_round_trip s : std_decode (std_encode s) = Some s.
Proof. unfold std_decode. rewrite no_space_drop by apply std_encode_plain. apply std_groups_encode. Qed.

(** ** Wrapped text *)

Fixpoint strip_space (s : string) : string :=
  match s with
  | "" => ""
  | String c s' => if is_space c then strip_space s' else String c (strip_space s')
  end.

Lemma join_cons_empty w ws : join (w :: ws) "" = w +:+ join ws "".
Proof. destruct ws; simpl; [by rewrite app_str_nil_r|done]. Qed.

Lemma join_fields_ascii w s : join (fields_ascii w s) "" = w +:+ strip_space s.
Proof.
  revert w. induction s as [|c s IH]; intros w; cbn [fields_ascii strip_space].
  - case_bool_decide as Hw; [by subst|]. simpl. by rewrite app_str_nil_r.
  - destruct (is_space c).
    + case_bool_decide as Hw; simpl app; [subst; by rewrite IH|]. by rewrite join_cons_empty, IH.
    + by rewrite IH, app_str_assoc.
Qed.

Lemma join_fields `{Unicode} s : all_ascii s = true → join (fields s) "" = strip_space s.
Proof. intros Ha. unfold fields. rewrite Ha. apply join_fields_ascii. Qed.
