(* ===== verification/Identity.v ===== *)
(** * Executor identities (internal/security/identity)

    Tokens of [LocalIssuer], their verification by [LocalVerifier], and the
    replay cache.  The MAC (HMAC-SHA256) and the JSON codec of the claims are
    parameters of the class [TokenCodec]; what is used of the codec is the law
    that decoding undoes encoding on ASCII claims.  A [time.Time] is counted in
    nanoseconds from Go's zero time, so [IsZero] is equality with 0. *)

From Stdlib Require Import Ascii.
From S2P Require Import Prelude GoStrings RunModel Base64.

Local Open Scope Z_scope.

Definition Audience : string := "forgelet-control-plane".
Definition ScopePlanRead : string := "plan:read".
Definition ScopeSecretsRead : string := "secrets:read".
Definition ScopeStatusWrite : string := "status:write".
Definition ScopeObservedWrite : string := "observed:write".

(** One hour. *)
Definition MaxTTL : Z := 3600 * 1000000000.

Record Identity := {
  IdAudience : string;
  IdNamespace : string;
  IdPodUID : string;
  IdJobRunID : JobRunID;
  IdScopes : list string;
  IdTokenID : string;
  IdIssuedAt : Time;
  IdExpiresAt : Time
}.

Definition HasScope (id : Identity) (scope : string) : bool :=
  existsb (fun s => bool_decide (s = scope)) (IdScopes id).

(** Every verification failure wraps [ErrInvalidToken]. *)
Inductive IdentityError :=
  | ErrInvalidToken (why : string)
  | ErrTokenSource (why : string)
  | ErrEncodeClaims (why : string).

(** Claims whose strings are ASCII. *)
Definition ascii_claims (id : Identity) : bool :=
  all_ascii (IdAudience id) && all_ascii (IdNamespace id) && all_ascii (IdPodUID id) &&
  all_ascii (IdJobRunID id) && forallb all_ascii (IdScopes id) && all_ascii (IdTokenID id).

(** [hmac.New(sha256.New, key)], [json.Marshal] and [json.Unmarshal]. *)
Class TokenCodec := {
  mac : string → string → string;
  marshal : Identity → outcome string string;
  unmarshal : string → outcome string Identity
}.

Class TokenCodecLaws `{TokenCodec} : Prop := {
  unmarshal_marshal : ∀ id p, ascii_claims id = true → marshal id = Ok p → unmarshal p = Ok id
}.

(** The claims [Issue] encodes: the missing issue time and token id filled in. *)
Definition fill_claims (now2 : Time) (tid : string) (id : Identity) : Identity := {|
  IdAudience := IdAudience id; IdNamespace := IdNamespace id; IdPodUID := IdPodUID id;
  IdJobRunID := IdJobRunID id; IdScopes := IdScopes id;
  IdTokenID := if bool_decide (IdTokenID id = "") then tid else IdTokenID id;
  IdIssuedAt := if bool_decide (IdIssuedAt id = 0) then now2 else IdIssuedAt id;
  IdExpiresAt := IdExpiresAt id |}.

Section tokens.
Context `{TokenCodec}.

(** [now1] and [now2] are the two clock readings, [rng] the result of the
    token id source. *)
Definition Issue (key : string) (now1 now2 : Time) (rng : outcome string string) (id : Identity)
    : outcome IdentityError string :=
  if bool_decide (IdAudience id ≠ Audience) then Err (ErrInvalidToken "audience")
  else if bool_decide (IdNamespace id = "") || bool_decide (IdPodUID id = "")
            || bool_decide (IdJobRunID id = "")
  then Err (ErrInvalidToken "required bindings")
  else if bool_decide (IdExpiresAt id = 0) || bool_decide (IdExpiresAt id > now1 + MaxTTL)
  then Err (ErrInvalidToken "expiry")
  else
    match (if bool_decide (IdTokenID id = "") then rng else Ok "") with
    | Err e => Err (ErrTokenSource e)
    | Panic => Panic
    | Ok tid =>
        match marshal (fill_claims now2 tid id) with
        | Err e => Err (ErrEncodeClaims e)
        | Panic => Panic
        | Ok payload => Ok (b64_encode payload +:+ "." +:+ b64_encode (mac key payload))
        end
    end.

Definition splitToken (raw : string) : outcome IdentityError (string * string) :=
  match split_on "."%char raw with
  | [p; s] =>
      match b64_decode p with
      | None => Err (ErrInvalidToken "payload decode")
      | Some payload =>
          match b64_decode s with
          | None => Err (ErrInvalidToken "signature decode")
          | Some sig => Ok (payload, sig)
          end
      end
  | _ => Err (ErrInvalidToken "malformed token")
  end.

Definition VerifyLocal (key : string) (now : Time) (maxSkew : Z) (raw : string)
    : outcome IdentityError Identity :=
  match splitToken raw with
  | Err e => Err e
  | Panic => Panic
  | Ok (payload, sig) =>
      if negb (bool_decide (sig = mac key payload)) then Err (ErrInvalidToken "bad signature")
      else match unmarshal payload with
           | Err e => Err (ErrInvalidToken ("malformed claims: " +:+ e))
           | Panic => Panic
           | Ok id =>
               if bool_decide (IdAudience id ≠ Audience) then Err (ErrInvalidToken "wrong audience")
               else if negb (bool_decide (IdExpiresAt id > now)) then Err (ErrInvalidToken "token expired")
               else if bool_decide (IdIssuedAt id > now + maxSkew)
               then Err (ErrInvalidToken "issued in the future")
               else Ok id
           end
  end.

End tokens.

(** ** The replay cache *)

Record NonceCache := { seen : gmap string Time; ttl : Z }.

Definition NewMemoryNonceCache (ttl : Z) : NonceCache := {| seen := ∅; ttl := ttl |}.

Definition Claim (now : Time) (tokenID : string) (c : NonceCache) : NonceCache * bool :=
  if match seen c !! tokenID with Some exp => bool_decide (now < exp) | None => false end
  then (c, false)
  else
    let kept := if bool_decide ((1024 < size (seen c))%nat)
                then filter (fun p => now < snd p) (seen c) else seen c in
    ({| seen := <[tokenID := now + ttl c]> kept; ttl := ttl c |}, true).

(** A sequence of claims, each with its clock reading. *)
Fixpoint claims (cs : list (Time * string)) (c : NonceCache) : NonceCache :=
  match cs with
  | [] => c
  | (now, t) :: cs' => claims cs' (fst (Claim now t c))
  end.

(** ** Facts about tokens *)

Lemma split_token `{TokenCodec} p s : splitToken (b64_encode p +:+ "." +:+ b64_encode s) = Ok (p, s).
Proof.
  unfold splitToken. change ("." +:+ ?x) with (String "."%char x).
  rewrite split_on_app_free by apply b64_no_dot.
  rewrite (split_on_free _ (b64_encode s)) by apply b64_no_dot.
  by rewrite !b64_round_trip.
Qed.

Lemma Issue_Ok `{TokenCodec} key now1 now2 rng id raw :
  Issue key now1 now2 rng id = Ok raw →
  IdAudience id = Audience ∧ IdNamespace id ≠ "" ∧ IdPodUID id ≠ "" ∧ IdJobRunID id ≠ "" ∧
  IdExpiresAt id ≠ 0 ∧ IdExpiresAt id ≤ now1 + MaxTTL ∧
  ∃ tid payload, (IdTokenID id = "" → rng = Ok tid) ∧
    marshal (fill_claims now2 tid id) = Ok payload ∧
    raw = b64_encode payload +:+ "." +:+ b64_encode (mac key payload).
Proof.
  unfold Issue. case_bool_decide as Ha; [done|].
  destruct (_ || _ || _) eqn:E1; [done|]. breflect.
  destruct (bool_decide (IdExpiresAt id = 0) || _) eqn:E2; [done|]. breflect.
  destruct (if bool_decide (IdTokenID id = "") then rng else Ok "") as [tid|e|] eqn:Er; [|done..].
  destruct (marshal _) as [payload|e|] eqn:Em; [|done..]. intros [= <-].
  split_and!; [done..|lia|]. exists tid, payload. split_and!; [|done..].
  intros Hz. by rewrite bool_decide_eq_true_2 in Er.
Qed.

Lemma VerifyLocal_Ok `{TokenCodec} key now skew raw id :
  VerifyLocal key now skew raw = Ok id →
  ∃ payload, splitToken raw = Ok (payload, mac key payload) ∧ unmarshal payload = Ok id ∧
    IdAudience id = Audience ∧ now < IdExpiresAt id ∧ IdIssuedAt id ≤ now + skew.
Proof.
  unfold VerifyLocal. destruct (splitToken raw) as [[payload sig]|e|]; [|done..].
  case_bool_decide as Hs; simpl; [|done]. subst sig.
  destruct (unmarshal payload) as [i|e|] eqn:E; [|done..].
  case_bool_decide as Ha; [done|].
  case_bool_decide as He; simpl; [|done]. case_bool_decide as Hi; [done|]. intros [= <-].
  exists payload. split_and!; [done..|lia|lia].
Qed.

Lemma issued_verifies `{TokenCodecLaws} key now1 now2 rng id raw :
  Issue key now1 now2 rng id = Ok raw →
  (∀ tid, rng = Ok tid → all_ascii tid = true) → ascii_claims id = true →
  ∃ tid, let id' := fill_claims now2 tid id in
    ∀ now skew, VerifyLocal key now skew raw =
      if bool_decide (IdExpiresAt id' ≤ now) then Err (ErrInvalidToken "token expired")
      else if bool_decide (now + skew < IdIssuedAt id') then Err (ErrInvalidToken "issued in the future")
      else Ok id'.
Proof.
  intros Hi Hrng Hasc.
  destruct (Issue_Ok _ _ _ _ _ _ Hi) as (Ha & _ & _ & _ & _ & _ & tid & payload & Htid & Hm & ->).
  exists tid. cbv zeta.
  intros now skew. unfold VerifyLocal. rewrite split_token, bool_decide_eq_true_2 by done.
  simpl negb. cbv iota.
  assert (ascii_claims (fill_claims now2 tid id) = true) as Hasc'.
  { unfold ascii_claims in *. simpl. breflect.
    repeat (apply andb_true_iff; split); try done. case_bool_decide as Hz; auto. }
  rewrite (unmarshal_marshal _ _ Hasc' Hm). rewrite (bool_decide_eq_false_2 (IdAudience _ ≠ _)).
  2:{ intros Hne. by apply Hne. }
  destruct (decide (IdExpiresAt id ≤ now)) as [Hle|Hgt]; simpl.
  - rewrite (bool_decide_eq_false_2 (IdExpiresAt id > now)) by lia. simpl.
    by rewrite bool_decide_eq_true_2 by done.
  - rewrite (bool_decide_eq_true_2 (IdExpiresAt id > now)) by lia. simpl.
    rewrite (bool_decide_eq_false_2 (IdExpiresAt id ≤ now)) by done.
    destruct (decide ((if bool_decide (IdIssuedAt id = 0) then now2 else IdIssuedAt id) > now + skew)).
    + by rewrite !bool_decide_eq_true_2 by lia.
    + by rewrite !bool_decide_eq_false_2 by lia.
Qed.

(** Issue and verify agree: a token the issuer mints verifies under the
    same key until it expires and not before the skew allows, yields the
    claims that were issued, bound to the pod and job run they name, and its
    lifetime is at most one hour. *)
Theorem issue_verify_round_trip `{TokenCodecLaws} key now1 now2 rng id raw :
  Issue key now1 now2 rng id = Ok raw →
  (∀ tid, rng = Ok tid → all_ascii tid = true) → ascii_claims id = true →
  ∃ id', IdNamespace id' = IdNamespace id ∧ IdPodUID id' = IdPodUID id ∧
    IdJobRunID id' = IdJobRunID id ∧ IdScopes id' = IdScopes id ∧
    IdExpiresAt id' = IdExpiresAt id ∧ IdExpiresAt id' ≤ now1 + MaxTTL ∧
    IdNamespace id ≠ "" ∧ IdPodUID id ≠ "" ∧ IdJobRunID id ≠ "" ∧
    ∀ now skew, VerifyLocal key now skew raw =
      if bool_decide (IdExpiresAt id' ≤ now) then Err (ErrInvalidToken "token expired")
      else if bool_decide (now + skew < IdIssuedAt id') then Err (ErrInvalidToken "issued in the future")
      else Ok id'.
Proof.
  intros Hi Hrng Hasc. destruct (Issue_Ok _ _ _ _ _ _ Hi) as (_ & Hn & Hp & Hj & _ & Hexp & _).
  destruct (issued_verifies key now1 now2 rng id raw Hi Hrng Hasc) as [tid Hv].
  exists (fill_claims now2 tid id). by split_and!.
Qed.

(** A codec for one identity, to instantiate the parameters. *)
Definition demo_identity : Identity := {|
  IdAudience := Audience; IdNamespace := "forgelet-jobs"; IdPodUID := "pod-1";
  IdJobRunID := "job-1"; IdScopes := [ScopePlanRead; ScopeSecretsRead];
  IdTokenID := "tok-1"; IdIssuedAt := 1000; IdExpiresAt := 2000 |}.

#[export] Instance Identity_eq_dec : EqDecision Identity.
Proof. solve_decision. Defined.

Definition demo_codec : TokenCodec := {|
  mac := fun key p => key +:+ p;
  marshal := fun id => if bool_decide (id = demo_identity) then Ok "demo" else Err "unsupported";
  unmarshal := fun p => if bool_decide (p = "demo") then Ok demo_identity else Err "syntax"
|}.

Lemma demo_codec_laws : @TokenCodecLaws demo_codec.
Proof. split. intros id p _. simpl. case_bool_decide as E; [|done]. by intros [= <-]; subst. Qed.

Lemma issue_verify_round_trip_witness :
  ∃ raw id', @Issue demo_codec "k" 1000 1000 (Ok "tok-1") demo_identity = Ok raw ∧
    IdJobRunID id' = "job-1" ∧ IdExpiresAt id' = 2000 ∧
    @VerifyLocal demo_codec "k" 3000 0 raw =
      (if bool_decide (IdExpiresAt id' ≤ 3000) then Err (ErrInvalidToken "token expired")
       else if bool_decide (3000 + 0 < IdIssuedAt id') then Err (ErrInvalidToken "issued in the future")
       else Ok id').
Proof.
  destruct (@Issue demo_codec "k" 1000 1000 (Ok "tok-1") demo_identity) as [raw|e|] eqn:E;
    [|by vm_compute in E..].
  destruct (@issue_verify_round_trip demo_codec demo_codec_laws "k" 1000 1000 (Ok "tok-1")
    demo_identity raw E) as (id' & _ & _ & Hj & _ & He & _ & _ & _ & _ & Hv).
  - intros tid [= <-]. reflexivity.
  - reflexivity.
  - exists raw, id'. split; [reflexivity|]. split; [exact Hj|]. split; [exact He|exact (Hv 3000 0)].
Defined.

(** ** The replay cache refuses repetitions *)

(** Whether the cache refuses [t] at [now]. *)
Definition live (now : Time) (t : string) (c : NonceCache) : bool :=
  match seen c !! t with Some exp => bool_decide (now < exp) | None => false end.

Lemma Claim_live now t c :
  Claim now t c =
    if live now t c then (c, false)
    else ({| seen := <[t := now + ttl c]> (if bool_decide ((1024 < size (seen c))%nat)
                then filter (fun p => now < snd p) (seen c) else seen c); ttl := ttl c |}, true).
Proof. done. Qed.

Lemma Claim_seen now t c :
  seen (fst (Claim now t c)) !! t =
    if snd (Claim now t c) then Some (now + ttl c) else seen c !! t.
Proof.
  rewrite Claim_live. destruct (live now t c); simpl; [done|].
  by rewrite lookup_insert_eq.
Qed.

Lemma Claim_ttl now t c : ttl (fst (Claim now t c)) = ttl c.
Proof. rewrite Claim_live. by destruct (live now t c). Qed.

(** An entry that has not expired is neither evicted nor overwritten. *)
Lemma Claim_keeps now t c u exp :
  now < exp → seen c !! u = Some exp → seen (fst (Claim now t c)) !! u = Some exp.
Proof.
  intros Hlt Hu. rewrite Claim_live. unfold live.
  destruct (match seen c !! t with Some e => bool_decide (now < e) | None => false end) eqn:E;
    simpl; [done|].
  destruct (decide (t = u)) as [->|Hne].
  - rewrite Hu in E. by rewrite bool_decide_eq_true_2 in E.
  - rewrite lookup_insert_ne by done. case_bool_decide; [|done].
    apply map_lookup_filter_Some. by split.
Qed.

Lemma claims_keep cs c u exp :
  Forall (fun p => fst p < exp) cs → seen c !! u = Some exp → seen (claims cs c) !! u = Some exp.
Proof.
  intros Hcs. revert c. induction Hcs as [|[now t] cs Hlt _ IH]; intros c Hu; simpl; [done|].
  by apply IH, Claim_keeps.
Qed.

(** No replay: once a token id is accepted, it is refused for its whole
    TTL, whatever other claims happen in between and however often the cache
    evicts expired entries; an id never seen, or one whose entry has expired,
    is accepted. *)
Theorem accepted_token_is_not_replayed t now c cs now' :
  snd (Claim now t c) = true →
  Forall (fun p => fst p < now + ttl c) cs →
  let c' := claims cs (fst (Claim now t c)) in
  (now' < now + ttl c → Claim now' t c' = (c', false)) ∧
  (now + ttl c ≤ now' → snd (Claim now' t c') = true) ∧
  (∀ u, seen c' !! u = None → snd (Claim now' u c') = true).
Proof.
  intros Hok Hcs c'.
  assert (seen c' !! t = Some (now + ttl c)) as Ht.
  { apply claims_keep; [done|]. by rewrite Claim_seen, Hok. }
  split_and!.
  - intros Hlt. unfold Claim. rewrite Ht. by rewrite bool_decide_eq_true_2.
  - intros Hge. unfold Claim. rewrite Ht. by rewrite bool_decide_eq_false_2 by lia.
  - intros u Hu. unfold Claim. by rewrite Hu.
Qed.

Lemma accepted_token_is_not_replayed_witness :
  snd (Claim 12 "a" (claims [(11, "b"); (11, "a")] (fst (Claim 10 "a" (NewMemoryNonceCache 5))))) = false.
Proof.
  destruct (accepted_token_is_not_replayed "a" 10 (NewMemoryNonceCache 5) [(11, "b"); (11, "a")] 12)
    as (H & _ & _).
  - reflexivity.
  - repeat constructor.
  - exact (f_equal snd (H ltac:(reflexivity))).
Defined.

(** Eviction removes only expired entries and keeps the cache from growing
    beyond the live ones once it holds more than 1024. *)
Lemma Claim_evicts now t c u exp :
  (1024 < size (seen c))%nat → snd (Claim now t c) = true → u ≠ t →
  seen (fst (Claim now t c)) !! u = Some exp ↔ seen c !! u = Some exp ∧ now < exp.
Proof.
  intros Hsz Hok Hne. rewrite Claim_live in *.
  destruct (live now t c); simpl in *; [done|].
  rewrite lookup_insert_ne, bool_decide_eq_true_2 by done. by rewrite map_lookup_filter_Some.
Qed.
