(* ===== verification/Authorization.v ===== *)
(** * Authorization (internal/security/policy, internal/security/tokenreview)

    The pure decisions of [policy.go] and the production verifier, which turns
    a projected service-account token into an identity through the Kubernetes
    TokenReview API and the pod's label.  The Kubernetes client is a parameter:
    [review] is the TokenReview call and [getPod] the pod lookup. *)

From Stdlib Require Import Ascii.
From S2P Require Import Prelude GoStrings RunModel Identity.

(** ** Policy *)

Inductive TrustLevel :=
  | TrustTrusted
  | TrustSameRepo
  | TrustFork
  | TrustOther (raw : string).

#[export] Instance TrustLevel_eq_dec : EqDecision TrustLevel.
Proof. solve_decision. Defined.

Record Ref := { RefScope : string; RefName : string }.

#[export] Instance Ref_eq_dec : EqDecision Ref.
Proof. solve_decision. Defined.

#[export] Instance Ref_countable : Countable Ref.
Proof.
  refine (inj_countable' (fun r => (RefScope r, RefName r))
            (fun p => {| RefScope := fst p; RefName := snd p |}) _).
  by intros [].
Defined.

(** [ErrNotAuthorized] with the bound and the requested job run. *)
Inductive PolicyError := ErrNotAuthorized (bound requested : JobRunID).

Definition AuthorizeExecution (id : Identity) (jobRun : JobRunID) : outcome PolicyError unit :=
  if bool_decide (IdJobRunID id ≠ jobRun) then Err (ErrNotAuthorized (IdJobRunID id) jobRun)
  else Ok tt.

Definition AuthorizeObservation (id : Identity) (jobRun : JobRunID) : outcome PolicyError unit :=
  if HasScope id ScopeObservedWrite then Ok tt
  else if bool_decide (IdJobRunID id = jobRun) then Ok tt
  else Err (ErrNotAuthorized (IdJobRunID id) jobRun).

Record DeniedRef := { DeniedRefOf : Ref; Reason : string }.

Record Decision := { Allowed : list Ref; Denied : list DeniedRef }.

Definition deny (d : Decision) (r : Ref) (reason : string) : Decision :=
  {| Allowed := Allowed d; Denied := Denied d ++ [{| DeniedRefOf := r; Reason := reason |}] |}.

Definition allow (d : Decision) (r : Ref) : Decision :=
  {| Allowed := Allowed d ++ [r]; Denied := Denied d |}.

Definition DecideSecrets (id : Identity) (requested planRefs : list Ref) (trust : TrustLevel)
    : Decision :=
  let d := {| Allowed := []; Denied := [] |} in
  if negb (HasScope id ScopeSecretsRead)
  then fold_left (fun d r => deny d r ("identity lacks scope " +:+ ScopeSecretsRead)) requested d
  else if bool_decide (trust = TrustFork)
  then fold_left (fun d r => deny d r "fork-pull-request runs receive no secrets") requested d
  else
    let allowed : gset Ref := list_to_set planRefs in
    fold_left (fun d r =>
      if bool_decide (r ∈ allowed) then allow d r
      else deny d r "not referenced by the job plan") requested d.

(** ** The TokenReview verifier *)

Record ReviewStatus := {
  Authenticated : bool;
  ReviewError : string;
  Username : string;
  Extra : gmap string (list string)
}.

Record Pod := { PodUIDOf : string; PodLabels : gmap string string }.

Definition PodUIDExtraKey : string := "authentication.k8s.io/pod-uid".
Definition PodNameExtraKey : string := "authentication.k8s.io/pod-name".
Definition podUIDExtraKeyNew : string := "authentication.kubernetes.io/pod-uid".
Definition podNameExtraKeyNew : string := "authentication.kubernetes.io/pod-name".
Definition DefaultJobRunLabel : string := "ci.forgelet.dev/jobrun-id".

Inductive ReviewErr :=
  | ReviewConfig
  | ReviewInvalid (why : string).

(** [BindingSource]: namespace, pod name and pod UID to a job run. *)
Definition BindingSource := string → string → string → outcome string JobRunID.

Definition InMemoryBindings (byUID : gmap string JobRunID) : BindingSource := fun _ _ podUID =>
  match byUID !! podUID with
  | None => Err ("pod " +:+ podUID +:+ " is not bound to any job run")
  | Some id => Ok id
  end.

Definition PodLabelBindings (getPod : string → string → outcome string Pod) (label : string)
    : BindingSource := fun namespace podName podUID =>
  match getPod namespace podName with
  | Err e => Err ("load pod: " +:+ e)
  | Panic => Panic
  | Ok pod =>
      if bool_decide (PodUIDOf pod ≠ podUID) then Err "uid does not match the reviewed one"
      else
        let id := default "" (PodLabels pod !! label) in
        if bool_decide (id = "") then Err "pod has no job run label" else Ok id
  end.

Record Verifier := {
  VAudience : string;
  VNamespace : string;
  VSAName : string;
  VScopes : list string;
  VBindings : option BindingSource
}.

Definition parseServiceAccount (username : string) : outcome ReviewErr (string * string) :=
  if negb (has_prefix username "system:serviceaccount:")
  then Err (ReviewInvalid "not a service account")
  else
    let '(ns, sa, ok) := cut (trim_prefix username "system:serviceaccount:") ":" in
    if negb ok || bool_decide (ns = "") || bool_decide (sa = "") || contains sa ":"
    then Err (ReviewInvalid "malformed service account username")
    else Ok (ns, sa).

Definition extra_lookup (extra : gmap string (list string)) (oldKey newKey : string) : option string :=
  match extra !! oldKey with
  | Some [v] => Some v
  | _ => match extra !! newKey with Some [v] => Some v | _ => None end
  end.

Definition extras (extra : gmap string (list string)) : outcome ReviewErr (string * string) :=
  match extra_lookup extra PodUIDExtraKey podUIDExtraKeyNew with
  | None => Err (ReviewInvalid "no pod uid extra")
  | Some podUID =>
      match extra_lookup extra PodNameExtraKey podNameExtraKeyNew with
      | None => Err (ReviewInvalid "no pod name extra")
      | Some podName => Ok (podUID, podName)
      end
  end.

Definition VerifyReview (review : string → list string → outcome string ReviewStatus)
    (v : Verifier) (now : Time) (raw : string) : outcome ReviewErr Identity :=
  match VBindings v with
  | None => Err ReviewConfig
  | Some bindings =>
      if bool_decide (VAudience v = "") || bool_decide (VNamespace v = "")
           || bool_decide (VSAName v = "")
      then Err ReviewConfig
      else
        match review raw [VAudience v] with
        | Err e => Err (ReviewInvalid ("review failed: " +:+ e))
        | Panic => Panic
        | Ok st =>
            if negb (Authenticated st)
            then Err (ReviewInvalid (if bool_decide (ReviewError st = "")
                                     then "token not authenticated" else ReviewError st))
            else
              match parseServiceAccount (Username st) with
              | Err e => Err e
              | Panic => Panic
              | Ok (ns, sa) =>
                  if bool_decide (ns ≠ VNamespace v) then Err (ReviewInvalid "namespace")
                  else if bool_decide (sa ≠ VSAName v) then Err (ReviewInvalid "service account")
                  else
                    match extras (Extra st) with
                    | Err e => Err e
                    | Panic => Panic
                    | Ok (podUID, podName) =>
                        match bindings ns podName podUID with
                        | Err e => Err (ReviewInvalid e)
                        | Panic => Panic
                        | Ok jobRunID =>
                            Ok {| IdAudience := VAudience v; IdNamespace := ns;
                                  IdPodUID := podUID; IdJobRunID := jobRunID;
                                  IdScopes := VScopes v;
                                  IdTokenID := "sa:" +:+ sa +:+ ":" +:+ podUID;
                                  IdIssuedAt := now; IdExpiresAt := 0 |}
                        end
                    end
              end
        end
  end.

(** ** Secret decisions *)

Lemma fold_deny_allowed (reason : string) l d :
  Allowed (fold_left (fun d r => deny d r reason) l d) = Allowed d ∧
  DeniedRefOf <$> Denied (fold_left (fun d r => deny d r reason) l d) = (DeniedRefOf <$> Denied d) ++ l.
Proof.
  revert d. induction l as [|r l IH]; intros d; simpl; [by rewrite app_nil_r|].
  destruct (IH (deny d r reason)) as [-> ->]. split; [done|].
  simpl. rewrite fmap_app, <-app_assoc. done.
Qed.

Lemma fold_decide (ok : Ref → bool) (reason : string) l d :
  Allowed (fold_left (fun d r => if ok r then allow d r else deny d r reason) l d) =
    Allowed d ++ List.filter ok l ∧
  DeniedRefOf <$> Denied (fold_left (fun d r => if ok r then allow d r else deny d r reason) l d) =
    (DeniedRefOf <$> Denied d) ++ List.filter (fun r => negb (ok r)) l.
Proof.
  revert d. induction l as [|r l IH]; intros d; simpl; [by rewrite !app_nil_r|].
  destruct (ok r) eqn:E; simpl; destruct (IH (if ok r then allow d r else deny d r reason)) as [H1 H2];
    rewrite E in H1, H2; rewrite H1, H2; simpl.
  - by rewrite <-app_assoc.
  - rewrite fmap_app, <-app_assoc. done.
Qed.

Lemma HasScope_spec id s : HasScope id s = true ↔ s ∈ IdScopes id.
Proof.
  unfold HasScope. rewrite existsb_exists. split.
  - intros (x & Hx%list_elem_of_In & ->%bool_decide_eq_true). done.
  - intros Hs. exists s. split; [by apply list_elem_of_In|by apply bool_decide_eq_true].
Qed.

(** Secret delivery: the allowed references are, in the order requested,
    exactly the requested ones the plan names — provided the identity has
    secrets:read and the run is not from a fork, and none otherwise; every
    other requested reference is listed as denied. *)
Theorem secrets_allowed_iff_authorized id requested planRefs trust :
  let may := bool_decide (ScopeSecretsRead ∈ IdScopes id) && negb (bool_decide (trust = TrustFork)) in
  let d := DecideSecrets id requested planRefs trust in
  Allowed d = List.filter (fun r => may && bool_decide (r ∈ planRefs)) requested ∧
  DeniedRefOf <$> Denied d =
    List.filter (fun r => negb (may && bool_decide (r ∈ planRefs))) requested.
Proof.
  assert (∀ l : list Ref, List.filter (fun _ => false) l = [] ∧ List.filter (fun _ => true) l = l) as Hc.
  { intros l. induction l as [|r l [IH1 IH2]]; simpl; [done|]. by rewrite IH2. }
  simpl. unfold DecideSecrets. destruct (HasScope id ScopeSecretsRead) eqn:Hs; simpl.
  - apply HasScope_spec in Hs. rewrite (bool_decide_eq_true_2 (_ ∈ IdScopes id)) by done. simpl.
    case_bool_decide as Ht; simpl.
    + destruct (Hc requested) as [-> ->].
      apply (fold_deny_allowed "fork-pull-request runs receive no secrets" requested
        {| Allowed := []; Denied := [] |}).
    + destruct (fold_decide (fun r => bool_decide (r ∈ (list_to_set planRefs : gset Ref)))
        "not referenced by the job plan" requested {| Allowed := []; Denied := [] |}) as [-> ->].
      simpl. split; apply List.filter_ext; intros r; [|f_equal]; apply bool_decide_ext;
        by rewrite elem_of_list_to_set.
  - assert (¬ ScopeSecretsRead ∈ IdScopes id) as Hn.
    { intros Hin%HasScope_spec. congruence. }
    rewrite (bool_decide_eq_false_2 (_ ∈ IdScopes id)) by done. simpl.
    destruct (Hc requested) as [-> ->].
    apply (fold_deny_allowed ("identity lacks scope " +:+ ScopeSecretsRead) requested
      {| Allowed := []; Denied := [] |}).
Qed.

(** ** Verified pods *)

Lemma parseServiceAccount_Ok username ns sa :
  parseServiceAccount username = Ok (ns, sa) →
  username = "system:serviceaccount:" +:+ ns +:+ ":" +:+ sa ∧ ns ≠ "" ∧ sa ≠ "" ∧
  contains sa ":" = false.
Proof.
  unfold parseServiceAccount, trim_prefix.
  destruct (has_prefix username _) eqn:Hp; [|done].
  apply has_prefix_spec in Hp as [rest ->]. simpl negb. cbv iota. rewrite str_drop_app.
  destruct (cut rest ":") as [[ns' sa'] ok] eqn:Hc.
  destruct (negb ok || _ || _ || _) eqn:E; [done|]. intros [= -> ->]. breflect. subst.
  apply cut_Some in Hc as ->. done.
Qed.

Lemma VerifyReview_Ok review v now raw id :
  VerifyReview review v now raw = Ok id →
  ∃ st bindings podName, VBindings v = Some bindings ∧ review raw [VAudience v] = Ok st ∧
    Authenticated st = true ∧
    Username st = "system:serviceaccount:" +:+ VNamespace v +:+ ":" +:+ VSAName v ∧
    extras (Extra st) = Ok (IdPodUID id, podName) ∧
    bindings (VNamespace v) podName (IdPodUID id) = Ok (IdJobRunID id) ∧
    IdNamespace id = VNamespace v ∧ IdAudience id = VAudience v ∧ IdScopes id = VScopes v.
Proof.
  unfold VerifyReview. destruct (VBindings v) as [bindings|]; [|done].
  destruct (_ || _ || _); [done|]. destruct (review raw [VAudience v]) as [st|e|] eqn:Hr; [|done..].
  destruct (Authenticated st) eqn:Ha; simpl; [|done].
  destruct (parseServiceAccount (Username st)) as [[ns sa]|e|] eqn:Hp; [|done..].
  case_bool_decide as Hns; [done|]. case_bool_decide as Hsa; [done|]. subst.
  destruct (extras (Extra st)) as [[podUID podName]|e|] eqn:Hx; [|done..].
  destruct (bindings _ podName podUID) as [job|e|] eqn:Hb; [|done..]. intros [= <-]. simpl.
  apply parseServiceAccount_Ok in Hp as (Hu & _). exists st, bindings, podName. by split_and!.
Qed.

Lemma PodLabelBindings_Ok getPod label ns name uid job :
  PodLabelBindings getPod label ns name uid = Ok job →
  ∃ pod, getPod ns name = Ok pod ∧ PodUIDOf pod = uid ∧ PodLabels pod !! label = Some job ∧ job ≠ "".
Proof.
  unfold PodLabelBindings. destruct (getPod ns name) as [pod|e|]; [|done..].
  case_bool_decide as Hu; [done|]. case_bool_decide as Hl; [done|]. intros [= <-].
  exists pod. destruct (PodLabels pod !! label); simpl in *; done.
Qed.

(** An executor reaches only its own job: when the production verifier
    accepts a token and the policy lets its identity act on a job run (or, for
    a verifier that does not grant observed:write, observe it), then the API
    server authenticated the token for our audience as the executor service
    account of the configured namespace, and the pod with the reviewed UID
    carries that job run's id in its label. *)
Theorem verified_pod_acts_only_on_its_job review getPod v label now raw id job :
  VBindings v = Some (PodLabelBindings getPod label) →
  VerifyReview review v now raw = Ok id →
  AuthorizeExecution id job = Ok tt ∨
    (ScopeObservedWrite ∉ VScopes v ∧ AuthorizeObservation id job = Ok tt) →
  ∃ st podName pod, review raw [VAudience v] = Ok st ∧ Authenticated st = true ∧
    Username st = "system:serviceaccount:" +:+ VNamespace v +:+ ":" +:+ VSAName v ∧
    extras (Extra st) = Ok (PodUIDOf pod, podName) ∧
    getPod (VNamespace v) podName = Ok pod ∧ PodLabels pod !! label = Some job ∧ job ≠ "".
Proof.
  intros Hb Hv Hauth.
  destruct (VerifyReview_Ok _ _ _ _ _ Hv) as
    (st & bindings & podName & Hb' & Hr & Ha & Hu & Hx & Hbind & _ & _ & Hsc).
  rewrite Hb in Hb'. injection Hb' as <-.
  apply PodLabelBindings_Ok in Hbind as (pod & Hp & Hpu & Hl & Hne).
  assert (IdJobRunID id = job) as <-.
  { destruct Hauth as [He|[Hno Ho]].
    - unfold AuthorizeExecution in He. by case_bool_decide.
    - unfold AuthorizeObservation in Ho. destruct (HasScope id ScopeObservedWrite) eqn:Hs.
      + apply HasScope_spec in Hs. by rewrite Hsc in Hs.
      + by case_bool_decide. }
  exists st, podName, pod. rewrite Hpu. by split_and!.
Qed.

(** A cluster with one executor pod. *)
Definition demo_review (raw : string) (auds : list string) : outcome string ReviewStatus :=
  if bool_decide (raw = "tok" ∧ auds = ["forgelet-control-plane"])
  then Ok {| Authenticated := true; ReviewError := "";
             Username := "system:serviceaccount:forgelet-jobs:forgelet-executor";
             Extra := {[ PodUIDExtraKey := ["u1"]; podNameExtraKeyNew := ["pod-1"] ]} |}
  else Err "unauthorized".

Definition demo_getPod (ns name : string) : outcome string Pod :=
  if bool_decide (ns = "forgelet-jobs" ∧ name = "pod-1")
  then Ok {| PodUIDOf := "u1"; PodLabels := {[ DefaultJobRunLabel := "job-1" ]} |}
  else Err "not found".

Definition demo_verifier : Verifier := {|
  VAudience := "forgelet-control-plane"; VNamespace := "forgelet-jobs";
  VSAName := "forgelet-executor"; VScopes := [ScopePlanRead];
  VBindings := Some (PodLabelBindings demo_getPod DefaultJobRunLabel) |}.

Lemma verified_pod_acts_only_on_its_job_witness :
  ∃ podName pod, demo_getPod "forgelet-jobs" podName = Ok pod ∧
    PodLabels pod !! DefaultJobRunLabel = Some "job-1".
Proof.
  destruct (VerifyReview demo_review demo_verifier 7 "tok") as [id|e|] eqn:E; [|by vm_compute in E..].
  assert (IdJobRunID id = "job-1") as Hj by (vm_compute in E; by injection E as <-).
  destruct (verified_pod_acts_only_on_its_job demo_review demo_getPod demo_verifier
    DefaultJobRunLabel 7 "tok" id "job-1") as (st & podName & pod & _ & _ & _ & _ & Hp & Hl & _).
  - reflexivity.
  - exact E.
  - left. unfold AuthorizeExecution. rewrite Hj. reflexivity.
  - exists podName, pod. split; [exact Hp|exact Hl].
Defined.
