(* ===== verification/Secrets.v ===== *)
(** * Secrets at rest (internal/security/secret)

    The keyring, the key file, and envelope encryption.  AES-GCM is the class
    [AEAD], with what the code relies on: opening succeeds exactly on what
    sealing produced, and a sealed text is longer than its plaintext.  The
    random source is the byte string still to be read. *)

From Stdlib Require Import Ascii.
From S2P Require Import Prelude GoStrings.

(** ** Keyring *)

(** A versioned master key; versions are 32-bit. *)
Record MasterKey := { Version : N; Material : string }.

Record StaticKeyring := { keys : gmap N MasterKey; currentVer : N }.

Inductive SecretError :=
  | KeyringError (why : string)
  | KeyFileError (why : string)
  | CipherError (why : string)
  | RandomError (what : string).

Fixpoint add_keys (ring : gmap N MasterKey) (ks : list MasterKey)
    : outcome SecretError (gmap N MasterKey) :=
  match ks with
  | [] => Ok ring
  | k :: ks' =>
      if bool_decide (Version k = 0%N) then Err (KeyringError "key version 0 is reserved")
      else if bool_decide (String.length (Material k) ≠ 32)
      then Err (KeyringError "material must be 32 bytes")
      else match ring !! Version k with
           | Some _ => Err (KeyringError "duplicate key version")
           | None => add_keys (<[Version k := k]> ring) ks'
           end
  end.

Definition NewStaticKeyring (current : N) (ks : list MasterKey) : outcome SecretError StaticKeyring :=
  if bool_decide (length ks = 0) then Err (KeyringError "keyring needs at least one key")
  else match add_keys ∅ ks with
       | Err e => Err e
       | Panic => Panic
       | Ok ring =>
           match ring !! current with
           | None => Err (KeyringError "current version not among keys")
           | Some _ => Ok {| keys := ring; currentVer := current |}
           end
       end.

Definition Current (r : StaticKeyring) : MasterKey :=
  default {| Version := 0; Material := "" |} (keys r !! currentVer r).

Definition KeyOf (r : StaticKeyring) (version : N) : option MasterKey := keys r !! version.

(** ** The key file *)

Definition hex_value (c : ascii) : option N :=
  let n := N_of_ascii c in
  if (48 <=? n)%N && (n <=? 57)%N then Some (n - 48)%N
  else if (97 <=? n)%N && (n <=? 102)%N then Some (n - 87)%N
  else if (65 <=? n)%N && (n <=? 70)%N then Some (n - 55)%N
  else None.

Fixpoint hex_decode (s : string) : option string :=
  match s with
  | "" => Some ""
  | String a (String b s') =>
      x ← hex_value a; y ← hex_value b; rest ← hex_decode s';
      Some (String (ascii_of_N (x * 16 + y)) rest)
  | String _ "" => None
  end.

(** The 32 bytes the file holds in hexadecimal. *)
Definition hex_key (s : string) : option string :=
  match hex_decode s with
  | Some d => if bool_decide (String.length d = 32) then Some d else None
  | None => None
  end.

Definition key_material `{Unicode} (data : string) : option string :=
  let s := trim_space data in
  match (if bool_decide (String.length s = 64) then hex_key s else None) with
  | Some m => Some m
  | None =>
      if bool_decide (String.length data = 32) then Some data
      else if bool_decide (String.length data = 33) && bool_decide (str_drop 32 data = nl)
      then Some (str_take 32 data)
      else hex_key s
  end.

Definition NewFileKeyring `{Unicode} (file : outcome string string)
    : outcome SecretError StaticKeyring :=
  match file with
  | Err e => Err (KeyFileError e)
  | Panic => Panic
  | Ok data =>
      match key_material data with
      | None => Err (KeyFileError "must be 32 raw bytes or 64 hex chars")
      | Some m => NewStaticKeyring 1 [{| Version := 1; Material := m |}]
      end
  end.

(** ** Envelope encryption *)

Class AEAD := {
  gcm_seal : string → string → string → string → string;
  gcm_open : string → string → string → string → option string
}.

Class AEADLaws `{AEAD} : Prop := {
  gcm_open_spec : ∀ key nonce c aad p,
    gcm_open key nonce c aad = Some p ↔ c = gcm_seal key nonce p aad;
  gcm_seal_length : ∀ key nonce p aad,
    String.length (gcm_seal key nonce p aad) = String.length p + 16
}.

(** [aes.NewCipher] accepts keys of 16, 24 and 32 bytes. *)
Definition newGCM (key : string) : outcome SecretError string :=
  if bool_decide (String.length key ∈ [16; 24; 32]) then Ok key else Err (CipherError "init cipher").

Definition NonceSize : nat := 12.

Record Sealed := {
  Nonce : string;
  Ciphertext : string;
  WrappedDEK : string;
  MasterKeyVersion : N
}.

(** [io.ReadFull] of [n] bytes. *)
Definition readFull (n : nat) (rng : string) : option (string * string) :=
  if bool_decide (n ≤ String.length rng) then Some (str_take n rng, str_drop n rng) else None.

Section cipher.
Context `{AEAD}.

(** The sealed value and the rest of the random source. *)
Definition Seal (ring : StaticKeyring) (plaintext aad rng : string)
    : outcome SecretError (Sealed * string) :=
  let mk := Current ring in
  match readFull 32 rng with
  | None => Err (RandomError "data key")
  | Some (dek, rng) =>
      match newGCM dek with
      | Err e => Err e
      | Panic => Panic
      | Ok payloadGCM =>
          match readFull NonceSize rng with
          | None => Err (RandomError "payload nonce")
          | Some (nonce, rng) =>
              let ciphertext := gcm_seal payloadGCM nonce plaintext aad in
              match newGCM (Material mk) with
              | Err e => Err e
              | Panic => Panic
              | Ok wrapGCM =>
                  match readFull NonceSize rng with
                  | None => Err (RandomError "wrap nonce")
                  | Some (wrapNonce, rng) =>
                      Ok ({| Nonce := nonce; Ciphertext := ciphertext;
                             WrappedDEK := wrapNonce +:+ gcm_seal wrapGCM wrapNonce dek aad;
                             MasterKeyVersion := Version mk |}, rng)
                  end
              end
          end
      end
  end.

Definition Open (ring : StaticKeyring) (s : Sealed) (aad : string) : outcome SecretError string :=
  match KeyOf ring (MasterKeyVersion s) with
  | None => Err (CipherError "master key version not available")
  | Some mk =>
      match newGCM (Material mk) with
      | Err e => Err e
      | Panic => Panic
      | Ok wrapGCM =>
          if bool_decide (String.length (WrappedDEK s) < NonceSize + 1)
          then Err (CipherError "wrapped data key too short")
          else
            match gcm_open wrapGCM (str_take NonceSize (WrappedDEK s))
                    (str_drop NonceSize (WrappedDEK s)) aad with
            | None => Err (CipherError "unwrap data key")
            | Some dek =>
                match newGCM dek with
                | Err e => Err e
                | Panic => Panic
                | Ok payloadGCM =>
                    if bool_decide (String.length (Nonce s) ≠ NonceSize)
                    then Err (CipherError "payload nonce size mismatch")
                    else match gcm_open payloadGCM (Nonce s) (Ciphertext s) aad with
                         | None => Err (CipherError "open payload")
                         | Some plaintext => Ok plaintext
                         end
                end
            end
      end
  end.

Definition Rewrap (ring : StaticKeyring) (s : Sealed) (aad rng : string)
    : outcome SecretError (Sealed * string) :=
  match Open ring s aad with
  | Err e => Err e
  | Panic => Panic
  | Ok plaintext => Seal ring plaintext aad rng
  end.

End cipher.

Definition nul : string := byte_str 0.

Definition SecretAAD (scope name : string) : string :=
  "forgelet-secret" +:+ nul +:+ scope +:+ nul +:+ name.

(** ** The keyring invariant *)

Definition ring_ok (r : StaticKeyring) : Prop :=
  is_Some (keys r !! currentVer r) ∧
  ∀ v k, keys r !! v = Some k → Version k = v ∧ v ≠ 0%N ∧ String.length (Material k) = 32.

Lemma add_keys_ok ring ks ring' :
  (∀ v k, ring !! v = Some k → Version k = v ∧ v ≠ 0%N ∧ String.length (Material k) = 32) →
  add_keys ring ks = Ok ring' →
  ∀ v k, ring' !! v = Some k → Version k = v ∧ v ≠ 0%N ∧ String.length (Material k) = 32.
Proof.
  revert ring. induction ks as [|k0 ks IH]; intros ring Hr; simpl; [by intros [= <-]|].
  case_bool_decide as Hv; [done|]. case_bool_decide as Hl; [done|].
  destruct (ring !! Version k0); [done|]. apply IH. intros v k.
  rewrite lookup_insert. case_decide as E; [|apply Hr]. intros [= <-]. by subst.
Qed.

Lemma NewStaticKeyring_ok current ks r :
  NewStaticKeyring current ks = Ok r → ring_ok r ∧ currentVer r = current.
Proof.
  unfold NewStaticKeyring. case_bool_decide; [done|].
  destruct (add_keys ∅ ks) as [ring|e|] eqn:E; [|done..].
  destruct (ring !! current) as [k|] eqn:Hc; [|done]. intros [= <-]. split; [|done]. split; simpl.
  - by rewrite Hc.
  - eapply add_keys_ok; [|exact E]. intros v k' Hv. by rewrite lookup_empty in Hv.
Qed.

Lemma Current_ok r : ring_ok r → keys r !! currentVer r = Some (Current r) ∧
  Version (Current r) = currentVer r ∧ String.length (Material (Current r)) = 32.
Proof.
  intros [[k Hk] Hall]. unfold Current. rewrite Hk. simpl.
  by destruct (Hall _ _ Hk) as (? & ? & ?).
Qed.

Lemma newGCM_32 key : String.length key = 32 → newGCM key = Ok key.
Proof. intros Hl. unfold newGCM. rewrite bool_decide_eq_true_2; [done|]. rewrite Hl. set_solver. Qed.

Lemma str_drop_length n s : String.length (str_drop n s) = String.length s - n.
Proof. revert s; induction n as [|n IH]; intros [|c s]; simpl; auto. Qed.

(** ** Sealing and opening *)

(** What a sealed value of [ring] looks like. *)
Definition seals `{AEAD} (mk : MasterKey) (plaintext aad : string) (s : Sealed) : Prop :=
  ∃ dek wrapNonce, String.length dek = 32 ∧ String.length wrapNonce = NonceSize ∧
    String.length (Nonce s) = NonceSize ∧ MasterKeyVersion s = Version mk ∧
    Ciphertext s = gcm_seal dek (Nonce s) plaintext aad ∧
    WrappedDEK s = wrapNonce +:+ gcm_seal (Material mk) wrapNonce dek aad.

Lemma Seal_ok `{AEAD} ring plaintext aad rng :
  ring_ok ring → 32 + NonceSize + NonceSize ≤ String.length rng →
  ∃ s rng', Seal ring plaintext aad rng = Ok (s, rng') ∧ seals (Current ring) plaintext aad s.
Proof.
  intros Hr Hlen. destruct (Current_ok ring Hr) as (_ & _ & Hm). unfold Seal, readFull.
  unfold NonceSize in *.
  rewrite bool_decide_eq_true_2 by lia.
  assert (String.length (str_take 32 rng) = 32) as Hd by (apply str_take_length; lia).
  rewrite (newGCM_32 _ Hd). pose proof (str_drop_length 32 rng) as Hl1.
  rewrite bool_decide_eq_true_2 by lia. rewrite (newGCM_32 _ Hm).
  pose proof (str_drop_length 12 (str_drop 32 rng)) as Hl2.
  rewrite bool_decide_eq_true_2 by lia.
  eexists _, _. split; [done|]. exists (str_take 32 rng), (str_take 12 (str_drop 12 (str_drop 32 rng))).
  split_and!; try reflexivity; apply str_take_length; unfold NonceSize; lia.
Qed.

Lemma Open_seals `{AEADLaws} ring mk plaintext aad s :
  KeyOf ring (MasterKeyVersion s) = Some mk → String.length (Material mk) = 32 →
  seals mk plaintext aad s → Open ring s aad = Ok plaintext.
Proof.
  intros Hk Hm (dek & wn & Hd & Hw & Hn & _ & Hc & Hwd). unfold Open. rewrite Hk, (newGCM_32 _ Hm), Hwd.
  rewrite bool_decide_eq_false_2.
  2:{ rewrite app_str_length, gcm_seal_length, Hw. lia. }
  rewrite <-Hw, str_take_app, str_drop_app.
  rewrite (proj2 (gcm_open_spec _ _ _ _ dek)) by done. rewrite (newGCM_32 _ Hd).
  rewrite bool_decide_eq_false_2 by (rewrite Hn, Hw; naive_solver).
  by rewrite (proj2 (gcm_open_spec _ _ _ _ plaintext)).
Qed.

Lemma Open_Ok `{AEADLaws} ring s aad p :
  Open ring s aad = Ok p →
  ∃ mk dek, KeyOf ring (MasterKeyVersion s) = Some mk ∧
    str_drop NonceSize (WrappedDEK s) =
      gcm_seal (Material mk) (str_take NonceSize (WrappedDEK s)) dek aad ∧
    Ciphertext s = gcm_seal dek (Nonce s) p aad.
Proof.
  unfold Open. destruct (KeyOf ring _) as [mk|]; [|done]. unfold newGCM.
  case_bool_decide; [|done]. case_bool_decide; [done|].
  destruct (gcm_open (Material mk) _ _ aad) as [dek|] eqn:E1; [|done].
  case_bool_decide; [|done]. case_bool_decide; [done|].
  destruct (gcm_open dek _ _ aad) as [p'|] eqn:E2; [|done]. intros [= <-].
  apply gcm_open_spec in E1, E2. by exists mk, dek.
Qed.

(** Secrets survive key rotation: what is sealed under a keyring opens,
    with the same identity, under every keyring that retains the sealing key;
    rewrapping it there with enough random bytes succeeds, moves it to the new
    current key, and it still opens to the same plaintext; and whatever opens
    at all was sealed under the named master key for that same identity. *)
Theorem secret_survives_rotation `{AEADLaws} cur1 ks1 r1 cur2 ks2 r2 plaintext aad rng rng2 :
  NewStaticKeyring cur1 ks1 = Ok r1 → NewStaticKeyring cur2 ks2 = Ok r2 →
  KeyOf r2 cur1 = KeyOf r1 cur1 →
  56 ≤ String.length rng → 56 ≤ String.length rng2 →
  ∃ s rest s' rest', Seal r1 plaintext aad rng = Ok (s, rest) ∧
    Open r2 s aad = Ok plaintext ∧
    Rewrap r2 s aad rng2 = Ok (s', rest') ∧ MasterKeyVersion s' = cur2 ∧
    Open r2 s' aad = Ok plaintext ∧
    (∀ aad' p, Open r2 s' aad' = Ok p →
      ∃ dek, Ciphertext s' = gcm_seal dek (Nonce s') p aad' ∧
        str_drop NonceSize (WrappedDEK s') =
          gcm_seal (Material (Current r2)) (str_take NonceSize (WrappedDEK s')) dek aad').
Proof.
  intros H1 H2 Hkeep Hl1 Hl2.
  destruct (NewStaticKeyring_ok _ _ _ H1) as [Hok1 Hcur1].
  destruct (NewStaticKeyring_ok _ _ _ H2) as [Hok2 Hcur2].
  destruct (Current_ok r1 Hok1) as (Hk1 & Hv1 & Hm1).
  destruct (Current_ok r2 Hok2) as (Hk2 & Hv2 & Hm2).
  destruct (Seal_ok r1 plaintext aad rng Hok1 Hl1) as (s & rest & Es & Hs).
  destruct (Seal_ok r2 plaintext aad rng2 Hok2 Hl2) as (s' & rest' & Es' & Hs').
  assert (Open r2 s aad = Ok plaintext) as Ho.
  { apply (Open_seals r2 (Current r1)); [|done..]. destruct Hs as (? & ? & _ & _ & _ & Hv & _).
    rewrite Hv, Hv1, Hcur1, Hkeep. unfold KeyOf. by rewrite <-Hcur1. }
  assert (MasterKeyVersion s' = cur2) as Hv'.
  { destruct Hs' as (? & ? & _ & _ & _ & Hv & _). congruence. }
  assert (KeyOf r2 (MasterKeyVersion s') = Some (Current r2)) as Hk'.
  { unfold KeyOf. rewrite Hv', <-Hcur2. done. }
  exists s, rest, s', rest'. split_and!; try done.
  - unfold Rewrap. by rewrite Ho.
  - by apply (Open_seals r2 (Current r2)).
  - intros aad' p (mk & dek & Hk & Hw & Hc)%Open_Ok. rewrite Hk' in Hk. simplify_eq. by exists dek.
Qed.

(** A transparent AEAD with a constant tag, to instantiate the parameters. *)
Definition demo_tag : string := "0123456789abcdef".

Definition demo_aead : AEAD := {|
  gcm_seal := fun _ _ p _ => p +:+ demo_tag;
  gcm_open := fun _ _ c _ => if has_suffix c demo_tag then Some (trim_suffix c demo_tag) else None
|}.

Lemma has_suffix_spec s p : has_suffix s p = true → s = trim_suffix s p +:+ p.
Proof.
  intros Hs. unfold trim_suffix. rewrite Hs. unfold has_suffix in Hs. breflect.
  rewrite <-H0 at 2. by rewrite str_take_drop.
Qed.

Lemma demo_aead_laws : @AEADLaws demo_aead.
Proof.
  split; simpl; intros.
  - destruct (has_suffix c demo_tag) eqn:E.
    + apply has_suffix_spec in E. split; [intros [= <-]; done|]. intros ->. by rewrite trim_suffix_app.
    + split; [done|]. intros ->. unfold has_suffix in E. exfalso.
      rewrite app_str_length, Nat.add_sub, str_drop_app, bool_decide_eq_true_2 in E by done.
      rewrite andb_true_r in E. apply Nat.leb_gt in E. lia.
  - by rewrite app_str_length.
Qed.

Definition demo_bytes32 : string := "0123456789abcdef0123456789abcdef".
Definition demo_rng : string := demo_bytes32 +:+ demo_bytes32.
Definition key_of_version (v : N) : MasterKey := {| Version := v; Material := demo_bytes32 |}.

Lemma secret_survives_rotation_witness :
  ∃ r1 r2 s rest, NewStaticKeyring 1 [key_of_version 1] = Ok r1 ∧
    NewStaticKeyring 2 [key_of_version 1; key_of_version 2] = Ok r2 ∧
    @Seal demo_aead r1 "hunter2" (SecretAAD "repository" "PW") demo_rng = Ok (s, rest) ∧
    @Open demo_aead r2 s (SecretAAD "repository" "PW") = Ok "hunter2".
Proof.
  destruct (NewStaticKeyring 1 [key_of_version 1]) as [r1|e|] eqn:E1; [|by vm_compute in E1..].
  destruct (NewStaticKeyring 2 [key_of_version 1; key_of_version 2]) as [r2|e|] eqn:E2;
    [|by vm_compute in E2..].
  destruct (@secret_survives_rotation demo_aead demo_aead_laws 1 [key_of_version 1] r1 2
    [key_of_version 1; key_of_version 2] r2 "hunter2" (SecretAAD "repository" "PW") demo_rng demo_rng
    E1 E2) as (s & rest & s' & rest' & Hs & Ho & _).
  - vm_compute in E1, E2. by injection E1 as <-; injection E2 as <-.
  - apply Nat.leb_le. reflexivity.
  - apply Nat.leb_le. reflexivity.
  - exists r1, r2, s, rest. split; [reflexivity|]. split; [reflexivity|]. split; [exact Hs|exact Ho].
Defined.

(** ** Secret identities are distinct *)

Lemma sep_app_inj c a b a' b' :
  byte_in c a = false → byte_in c a' = false → a +:+ String c b = a' +:+ String c b' →
  a = a' ∧ b = b'.
Proof.
  revert a'. induction a as [|x a IH]; intros [|x' a']; simpl; intros Ha Ha' Heq; simplify_eq.
  - done.
  - by rewrite bool_decide_eq_true_2 in Ha'.
  - by rewrite bool_decide_eq_true_2 in Ha.
  - apply orb_false_iff in Ha as [_ Ha]. apply orb_false_iff in Ha' as [_ Ha'].
    destruct (IH a' Ha Ha') as [-> ->]; done.
Qed.

(** Two secrets never share their associated data: scopes contain no NUL byte,
    so the scope and the name can be read off. *)
Lemma SecretAAD_inj scope name scope' name' :
  byte_in (ascii_of_N 0) scope = false → byte_in (ascii_of_N 0) scope' = false →
  SecretAAD scope name = SecretAAD scope' name' → scope = scope' ∧ name = name'.
Proof.
  intros Hs Hs' Heq. apply (sep_app_inj (ascii_of_N 0)); [done..|].
  unfold SecretAAD in Heq. apply str_app_inj_len in Heq as [_ Heq]; [|done].
  apply str_app_inj_len in Heq as [_ Heq]; [|done]. exact Heq.
Qed.

(** ** Key files *)

Definition hex_digit (n : N) : ascii := ascii_of_N (if (n <? 10)%N then n + 48 else n + 87).

Fixpoint hex_encode (s : string) : string :=
  match s with
  | "" => ""
  | String c s' =>
      String (hex_digit (N_of_ascii c / 16)) (String (hex_digit (N_of_ascii c mod 16)) (hex_encode s'))
  end.

Definition hex_digit_ok (n : N) : bool :=
  bool_decide (hex_value (hex_digit n) = Some n) && ascii_byte (hex_digit n) &&
  negb (is_space (hex_digit n)).

Lemma hex_digits_ok n :
  (n < 16)%N → hex_value (hex_digit n) = Some n ∧ ascii_byte (hex_digit n) = true ∧
    is_space (hex_digit n) = false.
Proof.
  intros Hn. assert (forallb hex_digit_ok (map N.of_nat (seq 0 16)) = true) as Hall by by vm_compute.
  rewrite forallb_forall in Hall. assert (hex_digit_ok n = true) as Hd.
  { apply Hall, in_map_iff. exists (N.to_nat n). split; [lia|]. apply in_seq. lia. }
  unfold hex_digit_ok in Hd. by breflect.
Qed.

Lemma byte_nibbles c : (N_of_ascii c / 16 < 16)%N ∧ (N_of_ascii c mod 16 < 16)%N.
Proof.
  pose proof (N_ascii_bounded c). split; [apply N.Div0.div_lt_upper_bound; lia|by apply N.mod_lt].
Qed.

Lemma hex_encode_spec s :
  hex_decode (hex_encode s) = Some s ∧ all_ascii (hex_encode s) = true ∧
  no_space (hex_encode s) = true ∧ String.length (hex_encode s) = 2 * String.length s.
Proof.
  induction s as [|c s (IH1 & IH2 & IH3 & IH4)]; [done|]. cbn [hex_encode].
  destruct (byte_nibbles c) as [Hhi Hlo].
  destruct (hex_digits_ok _ Hhi) as (Vh & Ah & Sh). destruct (hex_digits_ok _ Hlo) as (Vl & Al & Sl).
  split_and!; cbn [hex_decode all_ascii no_space String.length].
  - rewrite Vh, Vl. simpl. rewrite IH1. simpl. do 2 f_equal.
    rewrite N.mul_comm, <-N.div_mod by done. by rewrite ascii_N_embedding.
  - by rewrite Ah, Al, IH2.
  - by rewrite Sh, Sl, IH3.
  - lia.
Qed.

Lemma key_material_hex `{Unicode} m t :
  String.length m = 32 → t = "" ∨ t = nl → key_material (hex_encode m +:+ t) = Some m.
Proof.
  intros Hm Ht. destruct (hex_encode_spec m) as (Hd & Ha & Hn & Hl).
  assert (trim_space (hex_encode m +:+ t) = hex_encode m) as Htr.
  { destruct Ht as [-> | ->]; apply trim_space_text; try done; try (destruct m; done).
    - by rewrite app_str_nil_r.
    - clear -Ha. induction (hex_encode m); simpl in *; breflect; [done|]. apply andb_true_iff. auto. }
  unfold key_material. rewrite Htr, bool_decide_eq_true_2 by lia.
  unfold hex_key. by rewrite Hd, bool_decide_eq_true_2.
Qed.

Lemma key_material_raw `{UnicodeLaws} m t :
  String.length m = 32 → t = "" ∨ t = nl → key_material (m +:+ t) = Some m.
Proof.
  intros Hm Ht. unfold key_material.
  pose proof (trim_space_length (m +:+ t)) as Hle. rewrite app_str_length, Hm in Hle.
  assert (String.length t ≤ 1) by (destruct Ht as [-> | ->]; simpl; lia).
  rewrite (bool_decide_eq_false_2 (String.length (trim_space _) = 64)) by lia.
  destruct Ht as [-> | ->].
  - rewrite app_str_nil_r, bool_decide_eq_true_2 by done. done.
  - rewrite app_str_length, Hm, bool_decide_eq_false_2 by done.
    pose proof (str_drop_app m nl) as Hd. pose proof (str_take_app m nl) as Htk.
    rewrite Hm in Hd, Htk. rewrite Hd, Htk. by rewrite !bool_decide_eq_true_2.
Qed.

(** Every documented form of a key file loads the same key: 32 raw bytes or
    64 hexadecimal digits, with or without a final line break, give a keyring
    whose current key, version 1, is exactly those bytes. *)
Theorem key_file_round_trip `{UnicodeLaws} m t file :
  String.length m = 32 → t = "" ∨ t = nl → file = m +:+ t ∨ file = hex_encode m +:+ t →
  ∃ ring, NewFileKeyring (Ok file) = Ok ring ∧ ring_ok ring ∧
    Current ring = {| Version := 1; Material := m |}.
Proof.
  intros Hm Ht Hf.
  assert (key_material file = Some m) as E.
  { destruct Hf as [-> | ->]; [by apply key_material_raw|by apply key_material_hex]. }
  exists {| keys := {[ 1%N := {| Version := 1; Material := m |} ]}; currentVer := 1 |}.
  assert (NewFileKeyring (Ok file) =
    Ok {| keys := {[ 1%N := {| Version := 1; Material := m |} ]}; currentVer := 1 |}) as Hr.
  { unfold NewFileKeyring. rewrite E. unfold NewStaticKeyring. simpl.
    rewrite bool_decide_eq_false_2 by (rewrite Hm; naive_solver). rewrite lookup_empty. simpl.
    by rewrite lookup_insert_eq. }
  split; [exact Hr|]. split; [|by unfold Current; simpl; rewrite lookup_singleton_eq].
  unfold NewFileKeyring in Hr. rewrite E in Hr. by apply NewStaticKeyring_ok in Hr as [? _].
Qed.

Lemma key_file_round_trip_witness :
  ∃ ring, @NewFileKeyring ascii_unicode (Ok (hex_encode demo_bytes32 +:+ nl)) = Ok ring ∧
    Current ring = {| Version := 1; Material := demo_bytes32 |}.
Proof.
  destruct (@key_file_round_trip ascii_unicode ascii_unicode_laws demo_bytes32 nl
    (hex_encode demo_bytes32 +:+ nl)) as (ring & E & _ & Hc).
  - reflexivity.
  - right. reflexivity.
  - right. reflexivity.
  - exists ring. split; [exact E|exact Hc].
Defined.
