(* ===== verification/Syntax.v ===== *)
(** * The workflow syntax (internal/workflow/syntax)

    The abstract syntax of [diagnostic.go] and the validating parser of
    [parse.go], from the node tree of the YAML library (a parameter of
    [Parse]) to a [Workflow] or the list of all diagnostics.  The parser's
    [diags] field is the state of a small monad; a callback that fills a
    variable of its caller returns the new value of that variable.  Nil and
    empty maps are not distinguished. *)

From stdpp Require Import pretty.
From S2P Require Import Prelude GoStrings.

(** ** Abstract syntax *)

Record Diagnostic := {
  DFile : string; DLine : Z; DColumn : Z; DPath : string; DMessage : string
}.

Record Position := { PosLine : Z; PosColumn : Z }.

Record PushTrigger := { Branches : list string; BranchesIgnore : list string }.

Record Triggers := {
  Push : option PushTrigger;
  PullRequest : option PushTrigger;
  OnSchedule : list string
}.

Record Step := {
  StPos : Position;
  StName : string;
  StIf : string;
  StRun : string;
  StUses : string;
  StWith : gmap string string;
  StContinueOnError : bool;
  StEnv : gmap string string
}.

Record Job := {
  JobID : string;
  JobPos : Position;
  JobName : string;
  RunsOn : string;
  JobIf : string;
  Needs : list string;
  Matrix : gmap string (list string);
  JobEnv : gmap string string;
  Steps : list Step
}.

Record Workflow := { WFile : string; WName : string; On : Triggers; Jobs : list Job }.

(** ** YAML nodes *)

Inductive NodeKind := DocumentNode | SequenceNode | MappingNode | ScalarNode | OtherNode.

#[export] Instance NodeKind_eq_dec : EqDecision NodeKind.
Proof. solve_decision. Defined.

Inductive Node :=
  MkNode (kind : NodeKind) (tag value : string) (line column : Z) (content : list Node).

Definition Kind (n : Node) : NodeKind := let 'MkNode k _ _ _ _ _ := n in k.
Definition Tag (n : Node) : string := let 'MkNode _ t _ _ _ _ := n in t.
Definition NValue (n : Node) : string := let 'MkNode _ _ v _ _ _ := n in v.
Definition Line (n : Node) : Z := let 'MkNode _ _ _ l _ _ := n in l.
Definition Column (n : Node) : Z := let 'MkNode _ _ _ _ c _ := n in c.
Definition Content (n : Node) : list Node := let 'MkNode _ _ _ _ _ c := n in c.

(** The pairs [(Content[i], Content[i+1])] for even [i] with [i+1 < len]. *)
Fixpoint pairs (l : list Node) : list (Node * Node) :=
  match l with
  | k :: v :: l' => (k, v) :: pairs l'
  | _ => []
  end.

Definition unwrapDoc (n : Node) : Node :=
  match Kind n, Content n with
  | DocumentNode, c :: _ => c
  | _, _ => n
  end.

(** ** The parser monad *)

Definition P (A : Type) : Type := list Diagnostic → list Diagnostic * A.
Definition pret {A} (a : A) : P A := fun d => (d, a).
Definition pbind {A B} (m : P A) (k : A → P B) : P B := fun d => let '(d', a) := m d in k a d'.

Declare Scope parse_scope.
Notation "'do' x '<-' m ';;' k" := (pbind m (fun x => k))
  (at level 10, x pattern, m at level 99, k at level 200) : parse_scope.
Local Open Scope parse_scope.

Fixpoint pfold {A B} (f : A → B → P B) (l : list A) (acc : B) : P B :=
  match l with
  | [] => pret acc
  | x :: l' => do acc' <- f x acc;; pfold f l' acc'
  end.

Definition subsetMessage : string := "field is not in the supported subset".

Definition pos (n : Node) : Position := {| PosLine := Line n; PosColumn := Column n |}.

Section parser.
Context `{Unicode} (file : string).

Definition fail (node : Node) (path msg : string) : P unit := fun d =>
  (d ++ [{| DFile := file; DLine := Line node; DColumn := Column node; DPath := path;
            DMessage := msg |}], tt).

Definition kindName (n : Node) : string :=
  match Kind n with
  | MappingNode => "mapping"
  | SequenceNode => "sequence"
  | ScalarNode => "scalar (" +:+ quote (NValue n) +:+ ")"
  | _ => "alias/other"
  end.

(** [mapping]: the callback updates an accumulator that stands for the
    variables it captures. *)
Definition mapping {B} (node : Node) (path : string) (allowed : list string)
    (visit : Node → Node → B → P B) (acc : B) : P B :=
  if bool_decide (Kind node ≠ MappingNode)
  then do _ <- fail node path ("expected mapping, got " +:+ kindName node);; pret acc
  else pfold (fun '(key, value) acc =>
         if bool_decide (NValue key ∉ allowed)
         then do _ <- fail key path (quote (NValue key) +:+ " " +:+ subsetMessage);; pret acc
         else visit key value acc) (pairs (Content node)) acc.

Definition scalarString (node : Node) (path : string) : P string :=
  if bool_decide (Kind node ≠ ScalarNode) || bool_decide (Tag node ∈ ["!!int"; "!!bool"; "!!float"])
  then do _ <- fail node path ("expected string, got " +:+ kindName node);; pret ""
  else pret (NValue node).

Definition conditionString (node : Node) (path : string) : P string :=
  if bool_decide (Tag node = "!!bool") then pret (NValue node) else scalarString node path.

Definition stringSeq (node : Node) (path : string) : P (list string) :=
  if bool_decide (Kind node ≠ SequenceNode)
  then do _ <- fail node path "expected sequence of strings";; pret []
  else pfold (fun item out => do s <- scalarString item path;; pret (out ++ [s])) (Content node) [].

Definition envMap (node : Node) (path : string) : P (gmap string string) :=
  if bool_decide (Kind node ≠ MappingNode)
  then do _ <- fail node path "expected mapping of env name to string value";; pret ∅
  else pfold (fun '(key, value) env =>
         do s <- scalarString value (path +:+ "." +:+ NValue key);;
         pret (<[NValue key := s]> env)) (pairs (Content node)) ∅.

Definition parseNeeds (node : Node) (path : string) : P (list string) :=
  if bool_decide (Kind node = ScalarNode)
  then do s <- scalarString node path;; pret [s]
  else stringSeq node path.

End parser.

(** Letters, digits, '-' and '_', not starting with a digit or '-'. *)
Definition ident_start (c : Ascii.ascii) : bool :=
  is_lower c || is_upper c || N.eqb (byte_code c) 95.
Definition ident_byte (c : Ascii.ascii) : bool :=
  ident_start c || is_digit c || N.eqb (byte_code c) 45.

Fixpoint all_bytes (f : Ascii.ascii → bool) (s : string) : bool :=
  match s with "" => true | String c s' => f c && all_bytes f s' end.

Definition isIdentifier (s : string) : bool :=
  match s with
  | "" => false
  | String c s' => ident_start c && all_bytes ident_byte s'
  end.

Definition TrimRefPrefix (ref : string) : string := trim_prefix ref "refs/heads/".

Section parser2.
Context `{Unicode} (file : string).

Definition parsePush (node : Node) : P (option PushTrigger) :=
  if bool_decide (Kind node ≠ MappingNode)
  then if bool_decide (Kind node = ScalarNode) &&
          (bool_decide (Tag node = "!!null") || bool_decide (NValue node = ""))
       then pret (Some {| Branches := []; BranchesIgnore := [] |})
       else do _ <- fail file node ".on.push" "expected mapping of push filters";; pret None
  else
    do t <- mapping file node ".on.push" ["branches"; "branches-ignore"]
      (fun key value t =>
        if bool_decide (NValue key = "branches")
        then do bs <- stringSeq file value ".on.push.branches";;
             pret {| Branches := bs; BranchesIgnore := BranchesIgnore t |}
        else do bs <- stringSeq file value ".on.push.branches-ignore";;
             pret {| Branches := Branches t; BranchesIgnore := bs |})
      {| Branches := []; BranchesIgnore := [] |};;
    pret (Some t).

Definition parseSchedule (node : Node) (path : string) : P (list string) :=
  if bool_decide (Kind node ≠ SequenceNode)
  then do _ <- fail file node path "expected sequence of {cron: expression}";; pret []
  else
    do res <- pfold (fun item '(idx, out) =>
      let ipath := path +:+ "[" +:+ pretty (idx : nat) +:+ "]" in
      if bool_decide (Kind item ≠ MappingNode)
      then do _ <- fail file item ipath "expected mapping with a cron key";; pret (S idx, out)
      else
        do _ <- mapping file item ipath ["cron"] (fun _ _ acc => pret acc) tt;;
        do out' <- pfold (fun '(key, value) out =>
          if bool_decide (NValue key = "cron")
          then do s <- scalarString file value (ipath +:+ ".cron");; pret (out ++ [s])
          else pret out) (pairs (Content item)) out;;
        pret (S idx, out')) (Content node) (0, []);;
    pret (snd res).

Definition set_push (t : option PushTrigger) (o : Triggers) : Triggers :=
  {| Push := t; PullRequest := PullRequest o; OnSchedule := OnSchedule o |}.
Definition set_pr (t : option PushTrigger) (o : Triggers) : Triggers :=
  {| Push := Push o; PullRequest := t; OnSchedule := OnSchedule o |}.
Definition set_schedule (l : list string) (o : Triggers) : Triggers :=
  {| Push := Push o; PullRequest := PullRequest o; OnSchedule := l |}.

Definition parseOn (node : Node) (o : Triggers) : P Triggers :=
  match Kind node with
  | ScalarNode =>
      if bool_decide (NValue node = "push")
      then pret (set_push (Some {| Branches := []; BranchesIgnore := [] |}) o)
      else if bool_decide (NValue node = "pull_request")
      then pret (set_pr (Some {| Branches := []; BranchesIgnore := [] |}) o)
      else do _ <- fail file node ".on" (quote (NValue node) +:+ " " +:+ subsetMessage);; pret o
  | MappingNode =>
      do _ <- mapping file node ".on" ["push"; "pull_request"; "schedule"]
        (fun _ _ acc => pret acc) tt;;
      pfold (fun '(key, value) o =>
        if bool_decide (NValue key = "push")
        then do t <- parsePush value;; pret (set_push t o)
        else if bool_decide (NValue key = "pull_request")
        then do t <- parsePush value;; pret (set_pr t o)
        else if bool_decide (NValue key = "schedule")
        then do l <- parseSchedule value ".on.schedule";; pret (set_schedule l o)
        else pret o) (pairs (Content node)) o
  | _ => do _ <- fail file node ".on" "expected a trigger name or a trigger mapping";; pret o
  end.

Definition parseStrategy (node : Node) (path : string) : P (gmap string (list string)) :=
  if bool_decide (Kind node ≠ MappingNode)
  then do _ <- fail file node path "expected mapping with a matrix key";; pret ∅
  else mapping file node path ["matrix"] (fun _ v matrix =>
    if bool_decide (Kind v ≠ MappingNode)
    then do _ <- fail file v (path +:+ ".matrix") "expected mapping of axis name to value list";;
         pret matrix
    else pfold (fun '(axis, values) m =>
      if negb (isIdentifier (NValue axis))
      then do _ <- fail file axis (path +:+ ".matrix") "axis names must be identifiers";; pret m
      else do vs <- stringSeq file values (path +:+ ".matrix." +:+ NValue axis);;
           pret (<[NValue axis := vs]> m)) (pairs (Content v)) ∅) ∅.

(** A step under construction with the flags [hasRun] and [hasUses]. *)
Record StepAcc := { accStep : Step; hasRun : bool; hasUses : bool }.

Definition upd (f : Step → Step) (a : StepAcc) : StepAcc :=
  {| accStep := f (accStep a); hasRun := hasRun a; hasUses := hasUses a |}.

Definition visitStep (path : string) (key value : Node) (a : StepAcc) : P StepAcc :=
  let st := accStep a in
  if bool_decide (NValue key = "name") then
    do s <- scalarString file value (path +:+ ".name");;
      pret (upd (fun st => {| StPos := StPos st; StName := s; StIf := StIf st; StRun := StRun st;
        StUses := StUses st; StWith := StWith st; StContinueOnError := StContinueOnError st;
        StEnv := StEnv st |}) a)
  else if bool_decide (NValue key = "if") then
    do s <- conditionString file value (path +:+ ".if");;
      pret (upd (fun st => {| StPos := StPos st; StName := StName st; StIf := s; StRun := StRun st;
        StUses := StUses st; StWith := StWith st; StContinueOnError := StContinueOnError st;
        StEnv := StEnv st |}) a)
  else if bool_decide (NValue key = "run") then
    do s <- scalarString file value (path +:+ ".run");;
      pret {| accStep := {| StPos := StPos st; StName := StName st; StIf := StIf st; StRun := s;
        StUses := StUses st; StWith := StWith st; StContinueOnError := StContinueOnError st;
        StEnv := StEnv st |}; hasRun := true; hasUses := hasUses a |}
  else if bool_decide (NValue key = "uses") then
    do s <- scalarString file value (path +:+ ".uses");;
      pret {| accStep := {| StPos := StPos st; StName := StName st; StIf := StIf st;
        StRun := StRun st; StUses := s; StWith := StWith st;
        StContinueOnError := StContinueOnError st; StEnv := StEnv st |};
        hasRun := hasRun a; hasUses := true |}
  else if bool_decide (NValue key = "with") then
    do m <- envMap file value (path +:+ ".with");;
      pret (upd (fun st => {| StPos := StPos st; StName := StName st; StIf := StIf st;
        StRun := StRun st; StUses := StUses st; StWith := m;
        StContinueOnError := StContinueOnError st; StEnv := StEnv st |}) a)
  else if bool_decide (NValue key = "continue-on-error") then
    if bool_decide (Tag value ≠ "!!bool")
      then do _ <- fail file value (path +:+ ".continue-on-error") "expected boolean";; pret a
      else pret (upd (fun st => {| StPos := StPos st; StName := StName st; StIf := StIf st;
        StRun := StRun st; StUses := StUses st; StWith := StWith st;
        StContinueOnError := bool_decide (NValue value = "true"); StEnv := StEnv st |}) a)
  else if bool_decide (NValue key = "env") then
    do m <- envMap file value (path +:+ ".env");;
      pret (upd (fun st => {| StPos := StPos st; StName := StName st; StIf := StIf st;
        StRun := StRun st; StUses := StUses st; StWith := StWith st;
        StContinueOnError := StContinueOnError st; StEnv := m |}) a)
  else pret a.

Definition newStep (item : Node) : Step := {|
  StPos := pos item; StName := ""; StIf := ""; StRun := ""; StUses := ""; StWith := ∅;
  StContinueOnError := false; StEnv := ∅ |}.

Definition parseStep (path : string) (item : Node) : P Step :=
  do a <- mapping file item path
    ["name"; "if"; "run"; "uses"; "with"; "continue-on-error"; "env"]
    (visitStep path) {| accStep := newStep item; hasRun := false; hasUses := false |};;
  do _ <- (if hasRun a && hasUses a
           then fail file item path "`run` and `uses` are mutually exclusive" else pret tt);;
  do _ <- (if negb (hasRun a) && negb (hasUses a)
           then fail file item path ("expected " +:+ quote "run" +:+ " or " +:+ quote "uses") else pret tt);;
  pret (accStep a).

Definition parseSteps (node : Node) (jobID : string) : P (list Step) :=
  if bool_decide (Kind node ≠ SequenceNode)
  then do _ <- fail file node (".jobs." +:+ jobID +:+ ".steps") "expected sequence of steps";; pret []
  else
    do res <- pfold (fun item '(idx, steps) =>
      do st <- parseStep (".jobs." +:+ jobID +:+ ".steps[" +:+ pretty (idx : nat) +:+ "]") item;;
      pret (S idx, steps ++ [st])) (Content node) (0, []);;
    pret (snd res).

Definition zeroJobAST : Job := {|
  JobID := ""; JobPos := {| PosLine := 0; PosColumn := 0 |}; JobName := ""; RunsOn := "";
  JobIf := ""; Needs := []; Matrix := ∅; JobEnv := ∅; Steps := [] |}.

Definition visitJob (path jobID : string) (key value : Node) (j : Job) : P Job :=
  if bool_decide (NValue key = "name") then
    do s <- scalarString file value (path +:+ ".name");;
      pret {| JobID := JobID j; JobPos := JobPos j; JobName := s; RunsOn := RunsOn j;
        JobIf := JobIf j; Needs := Needs j; Matrix := Matrix j; JobEnv := JobEnv j; Steps := Steps j |}
  else if bool_decide (NValue key = "runs-on") then
    do s <- scalarString file value (path +:+ ".runs-on");;
      pret {| JobID := JobID j; JobPos := JobPos j; JobName := JobName j; RunsOn := s;
        JobIf := JobIf j; Needs := Needs j; Matrix := Matrix j; JobEnv := JobEnv j; Steps := Steps j |}
  else if bool_decide (NValue key = "if") then
    do s <- conditionString file value (path +:+ ".if");;
      pret {| JobID := JobID j; JobPos := JobPos j; JobName := JobName j; RunsOn := RunsOn j;
        JobIf := s; Needs := Needs j; Matrix := Matrix j; JobEnv := JobEnv j; Steps := Steps j |}
  else if bool_decide (NValue key = "needs") then
    do l <- parseNeeds file value (path +:+ ".needs");;
      pret {| JobID := JobID j; JobPos := JobPos j; JobName := JobName j; RunsOn := RunsOn j;
        JobIf := JobIf j; Needs := l; Matrix := Matrix j; JobEnv := JobEnv j; Steps := Steps j |}
  else if bool_decide (NValue key = "strategy") then
    do m <- parseStrategy value (path +:+ ".strategy");;
      pret {| JobID := JobID j; JobPos := JobPos j; JobName := JobName j; RunsOn := RunsOn j;
        JobIf := JobIf j; Needs := Needs j; Matrix := m; JobEnv := JobEnv j; Steps := Steps j |}
  else if bool_decide (NValue key = "env") then
    do m <- envMap file value (path +:+ ".env");;
      pret {| JobID := JobID j; JobPos := JobPos j; JobName := JobName j; RunsOn := RunsOn j;
        JobIf := JobIf j; Needs := Needs j; Matrix := Matrix j; JobEnv := m; Steps := Steps j |}
  else if bool_decide (NValue key = "steps") then
    do l <- parseSteps value jobID;;
      pret {| JobID := JobID j; JobPos := JobPos j; JobName := JobName j; RunsOn := RunsOn j;
        JobIf := JobIf j; Needs := Needs j; Matrix := Matrix j; JobEnv := JobEnv j; Steps := l |}
  else pret j.

Definition parseJob (node : Node) (jobID : string) : P Job :=
  let path := ".jobs." +:+ jobID in
  mapping file node path ["name"; "runs-on"; "if"; "needs"; "strategy"; "env"; "steps"]
    (visitJob path jobID) zeroJobAST.

Definition parseJobs (node : Node) (jobs : list Job) : P (list Job) :=
  if bool_decide (Kind node ≠ MappingNode)
  then do _ <- fail file node ".jobs" "expected mapping of job id to job";; pret jobs
  else pfold (fun '(key, value) jobs =>
    let jobID := NValue key in
    if negb (isIdentifier jobID)
    then do _ <- fail file key ".jobs" ("job id " +:+ quote jobID +:+
           " must start with a letter or '_' and contain only alphanumerics, '-' or '_'");;
         pret jobs
    else
      do j <- parseJob value jobID;;
      pret (jobs ++ [{| JobID := jobID; JobPos := pos key; JobName := JobName j;
        RunsOn := RunsOn j; JobIf := JobIf j; Needs := Needs j; Matrix := Matrix j;
        JobEnv := JobEnv j; Steps := Steps j |}])) (pairs (Content node)) jobs.

Definition visitWorkflow (key value : Node) (wf : Workflow) : P Workflow :=
  if bool_decide (NValue key = "name") then
    do s <- scalarString file value ".name";;
      pret {| WFile := WFile wf; WName := s; On := On wf; Jobs := Jobs wf |}
  else if bool_decide (NValue key = "on") then
    do o <- parseOn value (On wf);;
      pret {| WFile := WFile wf; WName := WName wf; On := o; Jobs := Jobs wf |}
  else if bool_decide (NValue key = "jobs") then
    do l <- parseJobs value (Jobs wf);;
      pret {| WFile := WFile wf; WName := WName wf; On := On wf; Jobs := l |}
  else pret wf.

Definition parseWorkflow (root : Node) : P Workflow :=
  mapping file root "" ["name"; "on"; "jobs"] visitWorkflow
    {| WFile := file; WName := ""; On := {| Push := None; PullRequest := None; OnSchedule := [] |};
       Jobs := [] |}.

(** [Parse], with [unmarshal] the YAML library. *)
Definition Parse (unmarshal : string → outcome string Node) (data : string)
    : outcome (list Diagnostic) Workflow :=
  match unmarshal data with
  | Err e => Err [{| DFile := file; DLine := 1; DColumn := 1; DPath := "$";
                     DMessage := "invalid YAML: " +:+ e |}]
  | Panic => Panic
  | Ok doc =>
      let '(diags, wf) := parseWorkflow (unwrapDoc doc) [] in
      if Nat.ltb 0 (length diags) then Err diags else Ok wf
  end.

End parser2.
