(* ===== verification/SyntaxTheorems.v ===== *)
(** * What the parser accepts, and what it reads

    [Subset] says which node trees are workflows of the supported subset, and
    [Meaning] what such a tree says, both without diagnostics or an order of
    evaluation.  The parser accepts exactly the trees of the subset and returns
    their meaning: [yields ok a m] says that the parsing function [m] adds a
    diagnostic unless [ok], and returns [a] when [ok]. *)

From Stdlib Require Import Ascii.
From S2P Require Import Prelude GoStrings Syntax.

Local Open Scope parse_scope.

(** ** The entries of a mapping *)

Definition entry := (Node * Node)%type.

(** The values of a key, in order; a key may be repeated. *)
Definition at_key (key : string) (l : list entry) : list Node :=
  map snd (List.filter (fun p => String.eqb (NValue (fst p)) key) l).

Definition last_at (key : string) (l : list entry) : option Node := last (at_key key l).

Definition has (key : string) (l : list entry) : bool :=
  existsb (fun p => String.eqb (NValue (fst p)) key) l.

Lemma at_key_snoc key l k v :
  at_key key (l ++ [(k, v)]) = at_key key l ++ (if String.eqb (NValue k) key then [v] else []).
Proof. unfold at_key. rewrite List.filter_app, map_app. simpl. by destruct (String.eqb _ _). Qed.

Lemma last_at_snoc key l k v :
  last_at key (l ++ [(k, v)]) = if String.eqb (NValue k) key then Some v else last_at key l.
Proof.
  unfold last_at. rewrite at_key_snoc. destruct (String.eqb _ _); [by rewrite last_snoc|].
  by rewrite app_nil_r.
Qed.

Lemma has_snoc key l k v : has key (l ++ [(k, v)]) = has key l || String.eqb (NValue k) key.
Proof. unfold has. rewrite existsb_app. simpl. by rewrite orb_false_r. Qed.

(** ** The supported subset *)

Module Subset.

Definition scalar (v : Node) : Prop := Kind v = ScalarNode ∧ Tag v ∉ ["!!int"; "!!bool"; "!!float"].
Definition boolean (v : Node) : Prop := Tag v = "!!bool".
Definition condition_text (v : Node) : Prop := boolean v ∨ scalar v.
Definition strings (v : Node) : Prop := Kind v = SequenceNode ∧ Forall scalar (Content v).
Definition needs (v : Node) : Prop := scalar v ∨ strings v.
Definition table (v : Node) : Prop :=
  Kind v = MappingNode ∧ Forall (fun p => scalar (snd p)) (pairs (Content v)).

(** The keys a mapping may have, with what their values must be. *)
Definition schema := list (string * (Node → Prop)).

Fixpoint rule (sc : schema) (key : string) : option (Node → Prop) :=
  match sc with
  | [] => None
  | (k, P) :: sc' => if String.eqb key k then Some P else rule sc' key
  end.

Definition allowed (sc : schema) (p : entry) : Prop :=
  match rule sc (NValue (fst p)) with Some P => P (snd p) | None => False end.

(** A mapping with no key outside the schema. *)
Definition fields (sc : schema) (n : Node) : Prop :=
  Kind n = MappingNode ∧ Forall (allowed sc) (pairs (Content n)).

Definition filters : Node → Prop := fields [("branches", strings); ("branches-ignore", strings)].

(** [push:] without filters is an empty value. *)
Definition push (v : Node) : Prop :=
  (Kind v = ScalarNode ∧ (Tag v = "!!null" ∨ NValue v = "")) ∨ filters v.

Definition schedule (v : Node) : Prop :=
  Kind v = SequenceNode ∧ Forall (fields [("cron", scalar)]) (Content v).

Definition trigger_schema : schema := [("push", push); ("pull_request", push); ("schedule", schedule)].

Definition triggers (v : Node) : Prop :=
  (Kind v = ScalarNode ∧ NValue v ∈ ["push"; "pull_request"]) ∨ fields trigger_schema v.

Definition matrix (v : Node) : Prop :=
  Kind v = MappingNode ∧
  Forall (fun p => isIdentifier (NValue (fst p)) = true ∧ strings (snd p)) (pairs (Content v)).

Definition strategy : Node → Prop := fields [("matrix", matrix)].

Definition step_schema : schema :=
  [("name", scalar); ("if", condition_text); ("run", scalar); ("uses", scalar); ("with", table);
   ("continue-on-error", boolean); ("env", table)].

(** A step is a script or an action, and not both. *)
Definition step (n : Node) : Prop :=
  fields step_schema n ∧
  (let l := pairs (Content n) in xorb (has "run" l) (has "uses" l) = true).

Definition steps (v : Node) : Prop := Kind v = SequenceNode ∧ Forall step (Content v).

Definition job_schema : schema :=
  [("name", scalar); ("runs-on", scalar); ("if", condition_text); ("needs", needs); ("strategy", strategy);
   ("env", table); ("steps", steps)].

Definition jobs (v : Node) : Prop :=
  Kind v = MappingNode ∧
  Forall (fun p => isIdentifier (NValue (fst p)) = true ∧ fields job_schema (snd p)) (pairs (Content v)).

Definition root_schema : schema := [("name", scalar); ("on", triggers); ("jobs", jobs)].

Definition workflow : Node → Prop := fields root_schema.

End Subset.

(** ** What a tree of the subset says *)

Module Meaning.

(** Of a repeated key the last value counts. *)
Definition text (key : string) (l : list entry) : string := default "" (NValue <$> last_at key l).

Definition strings (v : Node) : list string := map NValue (Content v).

Definition table (v : Node) : gmap string string :=
  fold_left (fun m p => <[NValue (fst p) := NValue (snd p)]> m) (pairs (Content v)) ∅.

Definition no_filters : PushTrigger := {| Branches := []; BranchesIgnore := [] |}.

Definition filters (l : list entry) : PushTrigger := {|
  Branches := default [] (strings <$> last_at "branches" l);
  BranchesIgnore := default [] (strings <$> last_at "branches-ignore" l) |}.

Definition push (v : Node) : PushTrigger :=
  match Kind v with MappingNode => filters (pairs (Content v)) | _ => no_filters end.

Definition crons (item : Node) : list string := map NValue (at_key "cron" (pairs (Content item))).

Definition schedule (v : Node) : list string := concat (map crons (Content v)).

Definition or_keep {A B} (f : A → B) (o : option A) (b : B) : B := match o with Some a => f a | None => b end.

Definition trigger_map (o : Triggers) (l : list entry) : Triggers := {|
  Push := or_keep (fun v => Some (push v)) (last_at "push" l) (Push o);
  PullRequest := or_keep (fun v => Some (push v)) (last_at "pull_request" l) (PullRequest o);
  OnSchedule := or_keep schedule (last_at "schedule" l) (OnSchedule o) |}.

Definition triggers (o : Triggers) (v : Node) : Triggers :=
  match Kind v with
  | ScalarNode => if String.eqb (NValue v) "push" then set_push (Some no_filters) o
                  else set_pr (Some no_filters) o
  | _ => trigger_map o (pairs (Content v))
  end.

Definition matrix (v : Node) : gmap string (list string) :=
  fold_left (fun m p => <[NValue (fst p) := strings (snd p)]> m) (pairs (Content v)) ∅.

Definition strategy (l : list entry) : gmap string (list string) := default ∅ (matrix <$> last_at "matrix" l).

Definition needs (v : Node) : list string :=
  match Kind v with ScalarNode => [NValue v] | _ => strings v end.

Definition step (at_ : Position) (l : list entry) : Step := {|
  StPos := at_; StName := text "name" l; StIf := text "if" l; StRun := text "run" l; StUses := text "uses" l;
  StWith := default ∅ (table <$> last_at "with" l);
  StContinueOnError := default false ((fun v => bool_decide (NValue v = "true")) <$> last_at "continue-on-error" l);
  StEnv := default ∅ (table <$> last_at "env" l) |}.

Definition step_of (item : Node) : Step := step (pos item) (pairs (Content item)).

Definition job (id : string) (at_ : Position) (l : list entry) : Job := {|
  JobID := id; JobPos := at_; JobName := text "name" l; RunsOn := text "runs-on" l; JobIf := text "if" l;
  Needs := default [] (needs <$> last_at "needs" l);
  Matrix := default ∅ ((fun v => strategy (pairs (Content v))) <$> last_at "strategy" l);
  JobEnv := default ∅ (table <$> last_at "env" l);
  Steps := default [] ((fun v => map step_of (Content v)) <$> last_at "steps" l) |}.

Definition job_of (p : entry) : Job := job (NValue (fst p)) (pos (fst p)) (pairs (Content (snd p))).

Definition jobs (v : Node) : list Job := map job_of (pairs (Content v)).

Definition workflow (file : string) (l : list entry) : Workflow := {|
  WFile := file; WName := text "name" l;
  On := fold_left triggers (at_key "on" l) {| Push := None; PullRequest := None; OnSchedule := [] |};
  Jobs := concat (map jobs (at_key "jobs" l)) |}.

Definition workflow_of (file : string) (root : Node) : Workflow := workflow file (pairs (Content root)).

End Meaning.

Lemma text_snoc key l k v :
  Meaning.text key (l ++ [(k, v)]) = if String.eqb (NValue k) key then NValue v else Meaning.text key l.
Proof. unfold Meaning.text. rewrite last_at_snoc. by destruct (String.eqb _ _). Qed.

(** ** A logic for the parser monad *)

(** Diagnostics are only added. *)
Definition grows {A} (m : P A) : Prop := ∀ d, ∃ l, fst (m d) = d ++ l.

Definition yields {A} (ok : Prop) (a : A) (m : P A) : Prop :=
  grows m ∧ ∀ d, (ok → m d = (d, a)) ∧ (fst (m d) = d → ok).

Lemma grows_ret_parse {A} (a : A) : grows (pret a).
Proof. intros d. exists []. by rewrite app_nil_r. Qed.

Lemma grows_fail_parse file n path msg : grows (fail file n path msg).
Proof. intros d. by eexists. Qed.

Lemma grows_bind_parse {A B} (m : P A) (k : A → P B) : grows m → (∀ a, grows (k a)) → grows (pbind m k).
Proof.
  intros Hm Hk d. unfold pbind. destruct (Hm d) as [l Hl]. destruct (m d) as [d' a]. simpl in Hl. subst d'.
  destruct (Hk a (d ++ l)) as [l' Hl']. exists (l ++ l'). by rewrite Hl', app_assoc.
Qed.

Lemma grows_pfold_parse {A B} (g : A → B → P B) l acc : (∀ x acc, grows (g x acc)) → grows (pfold g l acc).
Proof.
  intros Hg. revert acc. induction l as [|x l IH]; intros acc; simpl; [apply grows_ret_parse|].
  apply grows_bind_parse; [apply Hg|]. intros acc'. apply IH.
Qed.

Lemma yields_iff {A} (ok ok' : Prop) (a a' : A) m : yields ok a m → (ok ↔ ok') → (ok → a = a') → yields ok' a' m.
Proof.
  intros [Hg Hm] Hok Ha. split; [done|]. intros d. destruct (Hm d) as [H1 H2]. split; [|tauto].
  intros Ho. rewrite <-Ha by tauto. apply H1. tauto.
Qed.

Lemma yields_ret {A} (ok : Prop) (a : A) : ok → yields ok a (pret a).
Proof. split; [apply grows_ret_parse|done]. Qed.

Lemma yields_fail {A} (ok : Prop) (a : A) file n path msg (k : unit → P A) :
  ¬ ok → (∀ u, grows (k u)) → yields ok a (do u <- fail file n path msg;; k u).
Proof.
  intros Hn Hk. split; [by apply grows_bind_parse, Hk; apply grows_fail_parse|]. intros d. split; [done|].
  unfold pbind, fail. simpl. match goal with |- context [k tt ?d'] => destruct (Hk tt d') as [l ->] end.
  rewrite <-app_assoc. intros E. rewrite <-(app_nil_r d) in E at 2. by apply app_inv_head in E.
Qed.

Lemma yields_bind {A B} (ok ok' : Prop) (a : A) (b : B) m (k : A → P B) :
  yields ok a m → (∀ x, grows (k x)) → (ok → yields ok' b (k a)) → yields (ok ∧ ok') b (pbind m k).
Proof.
  intros [Hg Hm] Hgk Hk. split; [by apply grows_bind_parse|]. intros d. destruct (Hm d) as [H1 H2]. unfold pbind. split.
  - intros [Ho Ho']. rewrite H1 by done. by apply (proj2 (Hk Ho) d).
  - destruct (Hg d) as [l Hl]. destruct (m d) as [d' x] eqn:Em. simpl in Hl. subst d'. intros E.
    destruct (Hgk x (d ++ l)) as [l' Hl']. rewrite Hl', <-app_assoc in E. rewrite <-(app_nil_r d) in E at 2.
    apply app_inv_head, app_eq_nil in E as [-> ->]. rewrite !app_nil_r in *. simpl in H2.
    pose proof (H2 eq_refl) as Ho. split; [done|]. specialize (H1 Ho). injection H1 as ->.
    by apply (proj2 (Hk Ho) d).
Qed.

Lemma yields_if {A} (ok : Prop) (a : A) (b : bool) m1 m2 :
  (b = true → yields ok a m1) → (b = false → yields ok a m2) → yields ok a (if b then m1 else m2).
Proof. destruct b; auto. Qed.

(** A loop, with [F pre] the accumulator after the elements [pre]. *)
Lemma yields_pfold {A B} (okx : A → Prop) (F : list A → B) (g : A → B → P B) l :
  (∀ x acc, grows (g x acc)) → (∀ pre x, yields (okx x) (F (pre ++ [x])) (g x (F pre))) →
  yields (Forall okx l) (F l) (pfold g l (F [])).
Proof.
  intros Hg Hx.
  assert (∀ post pre, yields (Forall okx post) (F (pre ++ post)) (pfold g post (F pre))) as Hall.
  { induction post as [|x post IH]; intros pre; simpl; [rewrite app_nil_r; by apply yields_ret|].
    eapply yields_iff; [eapply yields_bind; [apply Hx|intros; by apply grows_pfold_parse|intros _; apply IH]| |].
    - by rewrite Forall_cons.
    - intros _. by rewrite <-app_assoc. }
  apply (Hall l []).
Qed.

Create HintDb grows.
#[local] Hint Resolve grows_ret_parse grows_fail_parse : grows.

(** Decompose a parser into its combinators. *)
Ltac grow :=
  repeat (match goal with
  | |- grows (pret _) => apply grows_ret_parse
  | |- grows (fail _ _ _ _) => apply grows_fail_parse
  | |- grows (pbind _ _) => apply grows_bind_parse
  | |- grows (pfold _ _ _) => apply grows_pfold_parse
  | |- grows (match ?x with _ => _ end) => destruct x
  | |- grows (match ?x with _ => _ end _) => destruct x
  | |- grows _ => progress cbv beta zeta
  | |- ∀ _, _ => intros ?
  | |- grows _ => solve [auto with grows]
  end).

Section rules.
Context `{Unicode} (file : string).

Lemma grows_scalar n path : grows (scalarString file n path).
Proof. unfold scalarString. grow. Qed.
#[local] Hint Resolve grows_scalar : grows.

Lemma grows_condition n path : grows (conditionString file n path).
Proof. unfold conditionString. grow. Qed.

Lemma grows_strings n path : grows (stringSeq file n path).
Proof. unfold stringSeq. grow. Qed.

Lemma grows_env n path : grows (envMap file n path).
Proof. unfold envMap. grow. Qed.
#[local] Hint Resolve grows_condition grows_strings grows_env : grows.

Lemma grows_mapping {B} n path allowed (visit : Node → Node → B → P B) acc :
  (∀ k v acc, grows (visit k v acc)) → grows (mapping file n path allowed visit acc).
Proof. intros Hv. unfold mapping. grow. Qed.

Lemma grows_needs n path : grows (parseNeeds file n path).
Proof. unfold parseNeeds. grow. Qed.

Lemma grows_push n : grows (parsePush file n).
Proof. unfold parsePush. grow. apply grows_mapping. grow. Qed.
#[local] Hint Resolve grows_needs grows_push : grows.

Lemma grows_schedule n path : grows (parseSchedule file n path).
Proof. unfold parseSchedule. grow. apply grows_mapping. grow. Qed.
#[local] Hint Resolve grows_schedule : grows.

Lemma grows_on n o : grows (parseOn file n o).
Proof. unfold parseOn. grow. apply grows_mapping. grow. Qed.

Lemma grows_strategy n path : grows (parseStrategy file n path).
Proof. unfold parseStrategy. grow. apply grows_mapping. grow. Qed.

Lemma grows_visitStep path k v a : grows (visitStep file path k v a).
Proof. unfold visitStep. grow. Qed.
#[local] Hint Resolve grows_on grows_strategy grows_visitStep : grows.

Lemma grows_step path item : grows (parseStep file path item).
Proof. unfold parseStep. grow. apply grows_mapping. grow. Qed.
#[local] Hint Resolve grows_step : grows.

Lemma grows_steps n jobID : grows (parseSteps file n jobID).
Proof. unfold parseSteps. grow. Qed.
#[local] Hint Resolve grows_steps : grows.

Lemma grows_visitJob path jobID k v j : grows (visitJob file path jobID k v j).
Proof. unfold visitJob. grow. Qed.
#[local] Hint Resolve grows_visitJob : grows.

Lemma grows_job n jobID : grows (parseJob file n jobID).
Proof. unfold parseJob. apply grows_mapping. grow. Qed.
#[local] Hint Resolve grows_job : grows.

Lemma grows_jobs n jobs : grows (parseJobs file n jobs).
Proof. unfold parseJobs. grow. Qed.
#[local] Hint Resolve grows_jobs : grows.

Lemma grows_visitWorkflow k v wf : grows (visitWorkflow file k v wf).
Proof. unfold visitWorkflow. grow. Qed.
#[local] Hint Resolve grows_visitWorkflow : grows.

(** *** Values *)

Lemma scalar_yields v path : yields (Subset.scalar v) (NValue v) (scalarString file v path).
Proof.
  unfold scalarString, Subset.scalar. apply yields_if; intros E.
  - apply yields_fail; [|grow]. intros [Hk Ht]. apply orb_true_iff in E as [E|E]; breflect; naive_solver.
  - apply yields_ret. apply orb_false_iff in E as [E1 E2]. breflect. split; [by apply dec_stable|done].
Qed.

Lemma condition_yields v path : yields (Subset.condition_text v) (NValue v) (conditionString file v path).
Proof.
  unfold conditionString. apply yields_if; intros E; breflect; [apply yields_ret; by left|].
  eapply yields_iff; [apply scalar_yields| |done]. unfold Subset.condition_text, Subset.boolean. tauto.
Qed.

Lemma strings_yields v path : yields (Subset.strings v) (Meaning.strings v) (stringSeq file v path).
Proof.
  unfold stringSeq, Subset.strings. apply yields_if; intros E; breflect.
  { apply yields_fail; [by intros []|grow]. }
  apply dec_stable in E. eapply yields_iff; [apply (yields_pfold Subset.scalar (fun pre => map NValue pre))|naive_solver|done].
  - grow.
  - intros pre x. eapply yields_iff; [eapply yields_bind; [apply scalar_yields|grow|]| |].
    + intros _. by apply (yields_ret True).
    + naive_solver.
    + intros _. by rewrite map_app.
Qed.

Lemma table_yields v path : yields (Subset.table v) (Meaning.table v) (envMap file v path).
Proof.
  unfold envMap, Subset.table. apply yields_if; intros E; breflect.
  { apply yields_fail; [by intros []|grow]. }
  apply dec_stable in E. eapply yields_iff; [apply (yields_pfold (fun p => Subset.scalar (snd p))
    (fun pre => fold_left (fun m p => <[NValue (fst p) := NValue (snd p)]> m) pre ∅))|naive_solver|done].
  - grow.
  - intros pre [k x]. eapply yields_iff; [eapply yields_bind; [apply scalar_yields|grow|]| |].
    + intros _. by apply (yields_ret True).
    + simpl. tauto.
    + intros _. by rewrite fold_left_app.
Qed.

Lemma needs_yields v path : yields (Subset.needs v) (Meaning.needs v) (parseNeeds file v path).
Proof.
  unfold parseNeeds, Subset.needs, Meaning.needs. apply yields_if; intros E; breflect.
  - rewrite E. eapply yields_iff; [eapply yields_bind; [apply scalar_yields|grow|]| |done].
    + intros _. by apply (yields_ret True).
    + unfold Subset.strings. rewrite E. naive_solver.
  - eapply yields_iff; [apply strings_yields| |]; unfold Subset.scalar.
    + naive_solver.
    + by destruct (Kind v).
Qed.

(** *** Mappings *)

Lemma rule_allowed sc key : Subset.rule sc key = None ↔ key ∉ map fst sc.
Proof.
  induction sc as [|[k Q] sc IH]; simpl; [split; [by intros _ ?%not_elem_of_nil|done]|].
  rewrite not_elem_of_cons, <-IH. destruct (String.eqb_spec key k); naive_solver.
Qed.

(** A mapping, with [F pre] the accumulator after the entries [pre]. *)
Lemma mapping_yields {B} (sc : Subset.schema) (F : list entry → B) n path visit :
  (∀ k v acc, grows (visit k v acc)) →
  (∀ pre k v Q, Subset.rule sc (NValue k) = Some Q → yields (Q v) (F (pre ++ [(k, v)])) (visit k v (F pre))) →
  yields (Subset.fields sc n) (F (pairs (Content n))) (mapping file n path (map fst sc) visit (F [])).
Proof.
  intros Hg Hv. unfold mapping, Subset.fields. apply yields_if; intros E; breflect.
  { apply yields_fail; [by intros []|grow]. }
  apply dec_stable in E. eapply yields_iff; [apply (yields_pfold (Subset.allowed sc) F)|naive_solver|done].
  - grow.
  - intros pre [k v]. unfold Subset.allowed. simpl. apply yields_if; intros Ek; breflect.
    + apply rule_allowed in Ek. rewrite Ek. apply yields_fail; [by intros []|grow].
    + destruct (Subset.rule sc (NValue k)) as [Q|] eqn:Er; [by apply Hv|]. by apply rule_allowed in Er.
Qed.

End rules.

(** Of the accumulator only the field of the visited key changes. *)
Ltac visited :=
  rewrite ?text_snoc, ?last_at_snoc, ?has_snoc; simpl.

(** The visit functions: the key decides the schema's rule and the branch. *)
Ltac by_key k :=
  intros Hrule; simpl in Hrule;
  repeat match type of Hrule with
  | (if String.eqb (NValue k) ?key then _ else _) = _ =>
      let E := fresh in destruct (String.eqb_spec (NValue k) key) as [E|E]
  end; [injection Hrule as <-..|discriminate Hrule].

Section rules2.
Context `{Unicode} (file : string).

#[local] Hint Resolve grows_scalar grows_condition grows_strings grows_env grows_needs grows_push grows_schedule
  grows_on grows_strategy grows_visitStep grows_step grows_steps grows_visitJob grows_job grows_jobs
  grows_visitWorkflow : grows.

(** A value that fills a field. *)
Lemma yields_field {A B} (ok : Prop) (a : A) (b : B) m (f : A → B) :
  yields ok a m → (ok → f a = b) → yields ok b (do x <- m;; pret (f x)).
Proof.
  intros Hm Hf. eapply yields_iff; [eapply yields_bind; [exact Hm|grow|intros _; by apply (yields_ret True (f a))]| |].
  - naive_solver.
  - naive_solver.
Qed.

Definition new_acc (at_ : Position) (l : list entry) : StepAcc :=
  {| accStep := Meaning.step at_ l; hasRun := has "run" l; hasUses := has "uses" l |}.

Lemma visitStep_yields path at_ pre k v Q :
  Subset.rule Subset.step_schema (NValue k) = Some Q →
  yields (Q v) (new_acc at_ (pre ++ [(k, v)])) (visitStep file path k v (new_acc at_ pre)).
Proof.
  unfold new_acc, Meaning.step, visitStep. visited.
  by_key k; (match goal with E : NValue k = _ |- _ => rewrite !E end); simpl;
    repeat (case_bool_decide; [try discriminate|try congruence]).
  all: try (eapply yields_field; [first [apply scalar_yields|apply condition_yields|apply table_yields]|]; intros _).
  all: rewrite ?orb_false_r, ?orb_true_r; try reflexivity.
  all: unfold Subset.boolean; first [by apply yields_ret|by apply yields_fail; [|grow]].
Qed.

(** A check between two parts of a parsing function. *)
Lemma yields_check {A} (ok : Prop) (a : A) (b : bool) n path msg (k : unit → P A) :
  (∀ u, grows (k u)) → yields ok a (k tt) →
  yields (b = false ∧ ok) a (do u <- (if b then fail file n path msg else pret tt);; k u).
Proof.
  intros Hg Hk. apply (yields_bind (b = false) ok tt); [|done|done]. destruct b; [|by apply yields_ret].
  split; [apply grows_fail_parse|]. intros d. split; [done|]. unfold fail. simpl. intros E.
  rewrite <-(app_nil_r d) in E at 2. by apply app_inv_head in E.
Qed.

Lemma parseStep_yields path item : yields (Subset.step item) (Meaning.step_of item) (parseStep file path item).
Proof.
  unfold parseStep, Subset.step. eapply yields_iff; [eapply yields_bind| |].
  - apply (mapping_yields file Subset.step_schema (new_acc (pos item))); [grow|].
    intros pre k v Q. apply visitStep_yields.
  - grow.
  - intros _. apply yields_check; [grow|]. apply yields_check; [grow|]. by apply (yields_ret True).
  - simpl. destruct (has "run" _), (has "uses" _); simpl; naive_solver.
  - done.
Qed.

Lemma parseSteps_yields v jobID :
  yields (Subset.steps v) (map Meaning.step_of (Content v)) (parseSteps file v jobID).
Proof.
  unfold parseSteps, Subset.steps. apply yields_if; intros E; breflect.
  { apply yields_fail; [by intros []|grow]. }
  apply dec_stable in E. eapply yields_iff; [eapply yields_bind| |].
  - apply (yields_pfold Subset.step (fun pre => (length pre, map Meaning.step_of pre))); [grow|].
    intros pre x. eapply yields_field; [apply parseStep_yields|]. intros _.
    rewrite length_app, map_app. simpl. by rewrite Nat.add_1_r.
  - grow.
  - intros _. by apply (yields_ret True).
  - naive_solver.
  - done.
Qed.

(** *** Triggers *)

Lemma filters_yields v :
  yields (Subset.filters v) (Some (Meaning.filters (pairs (Content v))))
    (do t <- mapping file v ".on.push" ["branches"; "branches-ignore"]
      (fun key value t =>
        if bool_decide (NValue key = "branches")
        then do bs <- stringSeq file value ".on.push.branches";;
             pret {| Branches := bs; BranchesIgnore := BranchesIgnore t |}
        else do bs <- stringSeq file value ".on.push.branches-ignore";;
             pret {| Branches := Branches t; BranchesIgnore := bs |})
      {| Branches := []; BranchesIgnore := [] |};;
     pret (Some t)).
Proof.
  eapply yields_field; [|done].
  apply (mapping_yields file [("branches", Subset.strings); ("branches-ignore", Subset.strings)] Meaning.filters);
    [grow|].
  intros pre k w Q. unfold Meaning.filters. visited.
  by_key k; (match goal with E : NValue k = _ |- _ => rewrite !E end); simpl;
    repeat (case_bool_decide; [try discriminate|try congruence]);
    (eapply yields_field; [apply strings_yields|done]).
Qed.

Lemma push_yields v : yields (Subset.push v) (Some (Meaning.push v)) (parsePush file v).
Proof.
  unfold parsePush, Subset.push, Meaning.push. apply yields_if; intros E; breflect.
  - apply yields_if; intros E2.
    + apply andb_true_iff in E2 as [E2 E3]. breflect. rewrite E2. apply yields_ret. left. split; [done|].
      apply orb_true_iff in E3 as [E3|E3]; breflect; auto.
    + apply yields_fail; [|grow]. intros [[Hk Ht]|[? _]]; [|done].
      rewrite bool_decide_eq_true_2 in E2 by done. simpl in E2. apply orb_false_iff in E2 as [E2 E3].
      breflect. naive_solver.
  - apply dec_stable in E. eapply yields_iff; [apply filters_yields| |by rewrite E].
    rewrite E. naive_solver.
Qed.

(** The keys checked first, and the values in a second loop. *)
Definition any_value (sc : Subset.schema) : Subset.schema := map (fun r => (fst r, fun _ => True)) sc.

Definition value_ok (sc : Subset.schema) (p : entry) : Prop :=
  match Subset.rule sc (NValue (fst p)) with Some Q => Q (snd p) | None => True end.

Lemma fields_split sc n :
  Subset.fields sc n ↔ Subset.fields (any_value sc) n ∧ Forall (value_ok sc) (pairs (Content n)).
Proof.
  assert (∀ p, Subset.allowed sc p ↔ Subset.allowed (any_value sc) p ∧ value_ok sc p) as Hp.
  { intros [k v]. unfold Subset.allowed, value_ok, any_value. simpl.
    assert (Subset.rule (map (fun r => (fst r, fun _ : Node => True)) sc) (NValue k) =
            (fun _ => fun _ => True) <$> Subset.rule sc (NValue k)) as ->.
    { induction sc as [|[k' Q] sc IH]; simpl; [done|]. by destruct (String.eqb _ _). }
    destruct (Subset.rule sc (NValue k)); simpl; tauto. }
  unfold Subset.fields. rewrite !Forall_forall. naive_solver.
Qed.

Lemma keys_yields sc n path :
  yields (Subset.fields (any_value sc) n) tt (mapping file n path (map fst (any_value sc)) (fun _ _ acc => pret acc) tt).
Proof.
  apply (mapping_yields file (any_value sc) (fun _ => tt)); [grow|]. intros pre k v Q Hr.
  apply yields_ret. revert Hr. unfold any_value. induction sc as [|[k' Q'] sc IH]; simpl; [done|].
  destruct (String.eqb _ _); [by intros [= <-]|done].
Qed.

Lemma crons_snoc pre k w :
  map NValue (at_key "cron" (pre ++ [(k, w)])) =
  map NValue (at_key "cron" pre) ++ (if String.eqb (NValue k) "cron" then [NValue w] else []).
Proof. rewrite at_key_snoc, map_app. by destruct (String.eqb _ _). Qed.

Lemma schedule_yields v path : yields (Subset.schedule v) (Meaning.schedule v) (parseSchedule file v path).
Proof.
  unfold parseSchedule, Subset.schedule. apply yields_if; intros E; breflect.
  { apply yields_fail; [by intros []|grow]. }
  apply dec_stable in E. eapply yields_iff; [eapply yields_field| |].
  - apply (yields_pfold (Subset.fields [("cron", Subset.scalar)])
      (fun pre => (length pre, concat (map Meaning.crons pre)))); [grow; apply grows_mapping; grow|].
    intros pre x. apply yields_if; intros Ex; breflect.
    { apply yields_fail; [by intros []|grow]. }
    eapply yields_iff; [eapply yields_bind; [apply (keys_yields [("cron", Subset.scalar)])|grow|intros _]| |].
    + eapply yields_field; [|by intros _].
      rewrite <-(app_nil_r (concat (map Meaning.crons pre))) at 1.
      apply (yields_pfold (value_ok [("cron", Subset.scalar)])
        (fun es => concat (map Meaning.crons pre) ++ map NValue (at_key "cron" es))); [grow|].
      intros es [k w]. unfold value_ok. simpl. rewrite crons_snoc. destruct (String.eqb_spec (NValue k) "cron") as [Ek|Ek].
      * rewrite bool_decide_eq_true_2 by done. eapply yields_field; [apply scalar_yields|]. intros _. by rewrite app_assoc.
      * rewrite bool_decide_eq_false_2 by done. rewrite app_nil_r. by apply yields_ret.
    + symmetry. apply fields_split.
    + intros _. rewrite length_app, map_app, concat_app. simpl. by rewrite Nat.add_1_r, app_nil_r.
  - done.
  - simpl. naive_solver.
  - done.
Qed.

Lemma trigger_map_nil o : Meaning.trigger_map o [] = o.
Proof. by destruct o. Qed.

Lemma triggers_yields v o : yields (Subset.triggers v) (Meaning.triggers o v) (parseOn file v o).
Proof.
  unfold parseOn, Subset.triggers, Meaning.triggers. destruct (Kind v) eqn:Ek.
  1,2,5: apply yields_fail; [|grow]; unfold Subset.fields; rewrite Ek; naive_solver.
  2: { destruct (String.eqb_spec (NValue v) "push") as [E|E].
       - rewrite bool_decide_eq_true_2 by done. apply yields_ret. left. split; [done|]. rewrite E. by left.
       - rewrite bool_decide_eq_false_2 by done. case_bool_decide as E2.
         + apply yields_ret. left. split; [done|]. rewrite E2. right. by left.
         + apply yields_fail; [|grow]. unfold Subset.fields. rewrite Ek. intros [[_ Hin]|[? _]]; [|done].
           apply elem_of_cons in Hin as [?|[?|?%not_elem_of_nil]%elem_of_cons]; done. }
  eapply yields_iff; [eapply yields_bind; [apply (keys_yields Subset.trigger_schema)|grow|intros _]| |done].
  - rewrite <-(trigger_map_nil o) at 2.
    apply (yields_pfold (value_ok Subset.trigger_schema) (Meaning.trigger_map o)); [grow|].
    intros pre [k w]. unfold value_ok, Subset.trigger_schema, Meaning.trigger_map. simpl. visited.
    repeat match goal with |- context [String.eqb (NValue k) ?key] =>
      let E := fresh "E" in destruct (String.eqb_spec (NValue k) key) as [E|E] end; try congruence.
    + rewrite bool_decide_eq_true_2 by done. eapply yields_field; [apply push_yields|done].
    + rewrite bool_decide_eq_false_2, bool_decide_eq_true_2 by done. eapply yields_field; [apply push_yields|done].
    + rewrite !bool_decide_eq_false_2, bool_decide_eq_true_2 by done. eapply yields_field; [apply schedule_yields|done].
    + rewrite !bool_decide_eq_false_2 by done. by apply yields_ret.
  - rewrite <-(fields_split Subset.trigger_schema). naive_solver.
Qed.

(** *** Jobs *)

Lemma matrix_yields path v :
  yields (Forall (fun p => isIdentifier (NValue (fst p)) = true ∧ Subset.strings (snd p)) (pairs (Content v)))
    (Meaning.matrix v)
    (pfold (fun '(axis, values) m =>
       if negb (isIdentifier (NValue axis))
       then do _ <- fail file axis (path +:+ ".matrix") "axis names must be identifiers";; pret m
       else do vs <- stringSeq file values (path +:+ ".matrix." +:+ NValue axis);;
            pret (<[NValue axis := vs]> m)) (pairs (Content v)) ∅).
Proof.
  apply (yields_pfold _ (fun pre => fold_left (fun m p => <[NValue (fst p) := Meaning.strings (snd p)]> m) pre ∅)); [grow|].
  intros pre [axis vs]. rewrite fold_left_app. simpl. apply yields_if; intros E; breflect.
  - apply yields_fail; [naive_solver congruence|grow].
  - eapply yields_iff; [eapply yields_field; [apply strings_yields|by intros _]|naive_solver|done].
Qed.

Lemma strategy_yields v path :
  yields (Subset.strategy v) (Meaning.strategy (pairs (Content v))) (parseStrategy file v path).
Proof.
  unfold parseStrategy. apply yields_if; intros E; breflect.
  { apply yields_fail; [by intros []|grow]. }
  apply dec_stable in E. unfold Subset.strategy.
  apply (mapping_yields file [("matrix", Subset.matrix)] Meaning.strategy); [grow|].
  intros pre k w Q Hr. simpl in Hr. destruct (String.eqb_spec (NValue k) "matrix") as [Ek|]; [|done]. injection Hr as <-.
  unfold Meaning.strategy at 1. rewrite last_at_snoc, Ek. simpl. apply yields_if; intros Ew; breflect.
  { apply yields_fail; [by intros []|grow]. }
  apply dec_stable in Ew. eapply yields_iff; [apply matrix_yields| |done]. unfold Subset.matrix. tauto.
Qed.

Lemma visitJob_yields path jobID id at_ pre k v Q :
  Subset.rule Subset.job_schema (NValue k) = Some Q →
  yields (Q v) (Meaning.job id at_ (pre ++ [(k, v)])) (visitJob file path jobID k v (Meaning.job id at_ pre)).
Proof.
  unfold Meaning.job, visitJob. visited.
  by_key k; (match goal with E : NValue k = _ |- _ => rewrite !E end); simpl;
    repeat (case_bool_decide; [try discriminate|try congruence]).
  all: eapply yields_field;
    [first [apply scalar_yields|apply condition_yields|apply table_yields|apply needs_yields
           |apply strategy_yields|apply parseSteps_yields]|by intros _].
Qed.

Lemma parseJob_yields v jobID :
  yields (Subset.fields Subset.job_schema v)
    (Meaning.job "" {| PosLine := 0; PosColumn := 0 |} (pairs (Content v))) (parseJob file v jobID).
Proof.
  apply (mapping_yields file Subset.job_schema (Meaning.job "" {| PosLine := 0; PosColumn := 0 |})); [grow|].
  intros pre k w Q. apply visitJob_yields.
Qed.

Lemma parseJobs_yields v jobs : yields (Subset.jobs v) (jobs ++ Meaning.jobs v) (parseJobs file v jobs).
Proof.
  unfold parseJobs, Subset.jobs. apply yields_if; intros E; breflect.
  { apply yields_fail; [by intros []|grow]. }
  apply dec_stable in E. rewrite <-(app_nil_r jobs) at 2.
  eapply yields_iff; [apply (yields_pfold
    (fun p => isIdentifier (NValue (fst p)) = true ∧ Subset.fields Subset.job_schema (snd p))
    (fun pre => jobs ++ map Meaning.job_of pre))|naive_solver|done]; [grow|].
  intros pre [k w]. simpl. apply yields_if; intros Ek; breflect.
  - apply yields_fail; [naive_solver congruence|grow].
  - eapply yields_iff; [eapply yields_field; [apply parseJob_yields|by intros _]|naive_solver|].
    intros _. by rewrite map_app, app_assoc.
Qed.

(** *** The workflow *)

Lemma visitWorkflow_yields pre k v Q :
  Subset.rule Subset.root_schema (NValue k) = Some Q →
  yields (Q v) (Meaning.workflow file (pre ++ [(k, v)])) (visitWorkflow file k v (Meaning.workflow file pre)).
Proof.
  unfold Meaning.workflow, visitWorkflow. visited. rewrite !at_key_snoc.
  by_key k; (match goal with E : NValue k = _ |- _ => rewrite !E end); simpl;
    repeat (case_bool_decide; [try discriminate|try congruence]); rewrite ?app_nil_r.
  - eapply yields_field; [apply scalar_yields|done].
  - eapply yields_field; [apply triggers_yields|]. intros _. by rewrite fold_left_app.
  - eapply yields_field; [apply parseJobs_yields|]. intros _. rewrite map_app, concat_app. simpl. by rewrite app_nil_r.
Qed.

Lemma parseWorkflow_yields root :
  yields (Subset.workflow root) (Meaning.workflow_of file root) (parseWorkflow file root).
Proof.
  apply (mapping_yields file Subset.root_schema (Meaning.workflow file)); [grow|].
  intros pre k v Q. apply visitWorkflow_yields.
Qed.
End rules2.

(** The parser run on a root without diagnostics so far. *)
Lemma parseWorkflow_cases `{Unicode} file root :
  let '(ds, wf) := parseWorkflow file root [] in
  (ds = [] ↔ Subset.workflow root) ∧ (ds = [] → wf = Meaning.workflow_of file root).
Proof.
  destruct (parseWorkflow_yields file root) as [_ Hy]. destruct (Hy []) as [H1 H2].
  destruct (parseWorkflow file root []) as [ds wf]. simpl in H2. split; [split; [apply H2|]|].
  - intros Hs. specialize (H1 Hs). congruence.
  - intros Hd. specialize (H1 (H2 Hd)). congruence.
Qed.

Lemma Parse_workflow `{Unicode} file unmarshal data wf :
  Parse file unmarshal data = Ok wf →
  ∃ doc, unmarshal data = Ok doc ∧ parseWorkflow file (unwrapDoc doc) [] = ([], wf).
Proof.
  unfold Parse. destruct (unmarshal data) as [doc|e|]; [|done..].
  destruct (parseWorkflow file (unwrapDoc doc) []) as [[|d ds] wf'] eqn:E; simpl; [|done].
  intros [= <-]. by exists doc.
Qed.

(** C36. The parser accepts exactly the supported subset and loses nothing of
    what a document of it says. A document parses if and only if its root
    belongs to the subset: the root, every job, step, strategy and matrix, and
    the [on], [push], [pull_request] and [schedule] mappings have no key but the
    supported ones, each with a value of its kind; job ids and matrix axes are
    identifiers; and every step has a [run] or a [uses] key and not both. And the
    result is then the workflow that the document says: of a repeated key the
    last value (a repeated [on] or [jobs] adds to the earlier one), the
    triggers, crons, matrix axes, tables and steps as they are written, the jobs
    in their order. *)
Theorem parsed_workflow_is_in_subset `{Unicode} file unmarshal data wf :
  Parse file unmarshal data = Ok wf ↔
  ∃ doc, unmarshal data = Ok doc ∧ Subset.workflow (unwrapDoc doc) ∧
         wf = Meaning.workflow_of file (unwrapDoc doc).
Proof.
  split.
  - intros (doc & Hu & E)%Parse_workflow. exists doc. pose proof (parseWorkflow_cases file (unwrapDoc doc)) as Hc.
    rewrite E in Hc. destruct Hc as [Hs Hw]. split_and!; [done|by apply Hs|by apply Hw].
  - intros (doc & Hu & Hs & ->). unfold Parse. rewrite Hu.
    pose proof (parseWorkflow_cases file (unwrapDoc doc)) as Hc.
    destruct (parseWorkflow file (unwrapDoc doc) []) as [ds wf]. destruct Hc as [Hok Hw].
    apply Hok in Hs as ->. simpl. by rewrite Hw.
Qed.

(** A job of an accepted document has an identifier for its key. *)
Lemma parsed_job_ids `{Unicode} file unmarshal data wf :
  Parse file unmarshal data = Ok wf → Forall (fun j => isIdentifier (JobID j) = true) (Jobs wf).
Proof.
  intros (doc & _ & E)%Parse_workflow. pose proof (parseWorkflow_cases file (unwrapDoc doc)) as Hc.
  rewrite E in Hc. destruct Hc as [Hok Hw]. rewrite Hw by done. destruct (proj1 Hok eq_refl) as [_ Hall].
  rewrite Forall_forall in Hall. apply Forall_forall. simpl.
  unfold at_key. generalize (pairs (Content (unwrapDoc doc))) Hall. clear.
  induction l as [|[k v] l IH]; intros Hall j; simpl; [by intros ?%not_elem_of_nil|].
  assert (∀ p, p ∈ l → Subset.allowed Subset.root_schema p) as Hl by (intros p Hp; apply Hall; by right).
  destruct (String.eqb_spec (NValue k) "jobs") as [Ek|Ek]; simpl; [|by apply IH].
  intros [Hj|Hj]%elem_of_app; [|by eapply IH].
  specialize (Hall (k, v) ltac:(by left)). unfold Subset.allowed in Hall. simpl in Hall. rewrite Ek in Hall.
  destruct Hall as [_ Hjobs]. rewrite Forall_forall in Hjobs.
  unfold Meaning.jobs in Hj. change @map with @list_fmap in Hj. apply list_elem_of_fmap in Hj as (p & -> & Hp).
  by destruct (Hjobs p Hp).
Qed.

(** A one-job workflow. *)
Definition scalar (v : string) : Node := MkNode ScalarNode "!!str" v 1 1 [].
Definition mapnode (kvs : list (string * Node)) : Node :=
  MkNode MappingNode "!!map" "" 1 1 (concat (map (fun p => [scalar (fst p); snd p]) kvs)).
Definition seqnode (l : list Node) : Node := MkNode SequenceNode "!!seq" "" 1 1 l.

Definition demo_step_node : Node := mapnode [("run", scalar "make")].
Definition demo_workflow_node : Node :=
  mapnode [("name", scalar "ci"); ("on", scalar "push");
    ("jobs", mapnode
      [("test", mapnode [("runs-on", scalar "linux");
         ("strategy", mapnode [("matrix", mapnode [("os", seqnode [scalar "a"; scalar "b"])])]);
         ("steps", seqnode [demo_step_node])]);
       ("deploy", mapnode [("runs-on", scalar "linux"); ("needs", scalar "test");
         ("steps", seqnode [demo_step_node])])])].

Definition demo_workflow : Workflow :=
  snd (parseWorkflow (H := ascii_unicode) "ci.yml" demo_workflow_node []).

Lemma parsed_workflow_is_in_subset_witness :
  Subset.workflow demo_workflow_node ∧ demo_workflow = Meaning.workflow_of "ci.yml" demo_workflow_node.
Proof.
  destruct (proj1 (@parsed_workflow_is_in_subset ascii_unicode "ci.yml" (fun _ => Ok demo_workflow_node) ""
    demo_workflow)) as (doc & E & Hk & Hm).
  - reflexivity.
  - injection E as <-. split; [exact Hk|exact Hm].
Defined.

(** A step without a script or an action is refused. *)
Example empty_step_is_refused :
  ¬ ∃ wf, @Parse ascii_unicode "ci.yml" (fun _ => Ok (mapnode [("jobs", mapnode [("test",
    mapnode [("steps", seqnode [mapnode [("name", scalar "nothing")]])])])])) "" = Ok wf.
Proof. intros [wf E]. vm_compute in E. discriminate E. Qed.
