(* ===== verification/Compiler.v ===== *)
(** * The workflow compiler (internal/workflow/compiler)

    From the syntax tree to job instances: ordering by [needs] ([topoSort]),
    the matrix ([expandMatrix]), the builtin whitelist ([parseUses],
    [nearest], [editDistance]), [Compile] itself, the trigger filters and the
    bridge to the scheduler's job intents. *)

From Stdlib Require Import Ascii.
From S2P Require Import Prelude GoStrings RunModel Syntax.

(** ** Errors *)

Inductive CompileError :=
  | DuplicateJob (id : string)
  | UnknownNeed (id dep : string)
  | NeedsCycle (id : string)
  | EmptyAxis (id axis : string)
  | NilWorkflow
  | NoJobs
  | EmptyRunsOn (id : string)
  | NoSteps (id : string)
  | EmptyRun (id : string) (step : nat)
  | BadUses (id : string) (step : nat) (msg : string).

(** ** Ordering by needs *)

Fixpoint index_jobs (jobs : list Job) (byID : gmap string Job)
    : outcome CompileError (gmap string Job) :=
  match jobs with
  | [] => Ok byID
  | j :: rest =>
      match byID !! JobID j with
      | Some _ => Err (DuplicateJob (JobID j))
      | None => index_jobs rest (<[JobID j := j]> byID)
      end
  end.

Definition unknown_need (byID : gmap string Job) (j : Job) : option string :=
  find (fun dep => bool_decide (byID !! dep = None)) (Needs j).

Fixpoint check_needs (byID : gmap string Job) (jobs : list Job) : option CompileError :=
  match jobs with
  | [] => None
  | j :: rest =>
      match unknown_need byID j with
      | Some dep => Some (UnknownNeed (JobID j) dep)
      | None => check_needs byID rest
      end
  end.

Inductive Mark := Visiting | Done.

#[export] Instance Mark_eq_dec : EqDecision Mark.
Proof. solve_decision. Defined.

(** The variables [state] and [out] of the depth-first search. *)
Record Search := { state : gmap string Mark; out : list Job }.

Definition mark (id : string) (m : Mark) (s : Search) : Search :=
  {| state := <[id := m]> (state s); out := out s |}.

(** The loop [for dep := range deps { visit(byID[dep]) }]; a missing job would
    be a nil pointer, hence [Panic]. *)
Fixpoint visit_deps (visit : Job → Search → outcome CompileError Search) (byID : gmap string Job)
    (deps : list string) (s : Search) : outcome CompileError Search :=
  match deps with
  | [] => Ok s
  | dep :: deps' =>
      match byID !! dep with
      | None => Panic
      | Some dj =>
          match visit dj s with
          | Ok s' => visit_deps visit byID deps' s'
          | Err e => Err e
          | Panic => Panic
          end
      end
  end.

(** [visit]; the fuel bounds the recursion depth, and running out of it is
    [Panic]. *)
Fixpoint visit (fuel : nat) (byID : gmap string Job) (j : Job) (s : Search)
    : outcome CompileError Search :=
  match fuel with
  | O => Panic
  | S fuel' =>
      match state s !! JobID j with
      | Some Done => Ok s
      | Some Visiting => Err (NeedsCycle (JobID j))
      | None =>
          match visit_deps (visit fuel' byID) byID (Needs j) (mark (JobID j) Visiting s) with
          | Ok s' => Ok {| state := <[JobID j := Done]> (state s'); out := out s' ++ [j] |}
          | Err e => Err e
          | Panic => Panic
          end
      end
  end.

Fixpoint visit_all (fuel : nat) (byID : gmap string Job) (jobs : list Job) (s : Search)
    : outcome CompileError Search :=
  match jobs with
  | [] => Ok s
  | j :: rest =>
      match visit fuel byID j s with
      | Ok s' => visit_all fuel byID rest s'
      | Err e => Err e
      | Panic => Panic
      end
  end.

Definition topoSort (jobs : list Job) : outcome CompileError (list Job) :=
  match index_jobs jobs ∅ with
  | Err e => Err e
  | Panic => Panic
  | Ok byID =>
      match check_needs byID jobs with
      | Some e => Err e
      | None =>
          match visit_all (S (length jobs)) byID jobs {| state := ∅; out := [] |} with
          | Ok s => Ok (out s)
          | Err e => Err e
          | Panic => Panic
          end
      end
  end.

(** ** Builtin actions *)

Record Builtin := { BName : string; Inputs : list string }.

Definition Registry : gmap string Builtin :=
  {[ "actions/checkout" := {| BName := "actions/checkout";
       Inputs := ["repository"; "ref"; "token"; "fetch-depth"; "persist-credentials"] |};
     "actions/cache" := {| BName := "actions/cache"; Inputs := ["key"; "restore-keys"; "path"] |};
     "actions/upload-artifact" := {| BName := "actions/upload-artifact";
       Inputs := ["name"; "path"; "retention-days"] |};
     "actions/download-artifact" := {| BName := "actions/download-artifact";
       Inputs := ["name"; "path"] |} ]}.

Record BuiltinCall := { Action : string; CallVersion : string; CallInputs : gmap string string }.

Record Warning := { WarnJob : string; WarnStep : nat; Msg : string }.

Definition zeroWarning : Warning := {| WarnJob := ""; WarnStep := 0; Msg := "" |}.

Definition min3 (a b c : nat) : nat :=
  let m := if Nat.ltb b a then b else a in if Nat.ltb c m then c else m.

(** One row of the table: [prev] is the rest of the previous row from column
    [j-1] on, [left] is [cur[j-1]]. *)
Fixpoint edit_row (ca : ascii) (b : string) (prev : list nat) (left : nat) : list nat :=
  match b, prev with
  | String cb b', diag :: ((up :: _) as prev') =>
      let cost := if bool_decide (ca = cb) then 0 else 1 in
      let v := min3 (up + 1) (left + 1) (diag + cost) in
      v :: edit_row ca b' prev' v
  | _, _ => []
  end.

Fixpoint edit_rows (a b : string) (i : nat) (prev : list nat) : list nat :=
  match a with
  | "" => prev
  | String ca a' => edit_rows a' b (S i) (i :: edit_row ca b prev i)
  end.

Definition editDistance (a b : string) : nat :=
  List.nth (String.length b) (edit_rows a b 1 (seq 0 (S (String.length b)))) 0.

Section compile.
Context `{Unicode} `{MapRange}.

(** The registry entry within edit distance 2, if any. *)
Definition nearest (s : string) : string :=
  fst (fold_left (fun '(best, bestDist) '(n, _) =>
         let d := editDistance (to_lower s) n in
         if Nat.ltb d bestDist then (n, d) else (best, bestDist))
       (range_map Registry) ("", 3)).

Definition registryNames : list string := sort_strings (map fst (range_map Registry)).

(** The error of [parseUses] is its text, which [Compile] inspects. *)
Definition parseUses (uses : string) : outcome string (string * string) :=
  let '(action, version, ok) := cut (trim_space uses) "@" in
  if negb ok || bool_decide (action = "") || bool_decide (version = "")
  then Err ("uses " +:+ quote uses +:+ " must be <owner>/<repo>@<ref>")
  else match Registry !! action with
       | Some _ => Ok (action, version)
       | None =>
           let hint := nearest action in
           if bool_decide (hint ≠ "")
           then Err ("action " +:+ quote uses +:+ " is not a forgelet builtin; did you mean "
                     +:+ quote hint +:+ "?")
           else Err ("action " +:+ quote uses +:+ " is not a forgelet builtin (available: "
                     +:+ join registryNames ", " +:+ ")")
       end.

Definition compileBuiltin (jobID : string) (idx : nat) (st : Step)
    : outcome string (BuiltinCall * Warning) :=
  match parseUses (StUses st) with
  | Err e => Err e
  | Panic => Panic
  | Ok (action, version) =>
      let supported := match Registry !! action with Some b => Inputs b | None => [] end in
      let '(inputs, warn) :=
        fold_left (fun '(inputs, warn) '(k, v) =>
          if bool_decide (k ∉ supported)
          then (inputs, {| WarnJob := jobID; WarnStep := idx;
                 Msg := "input " +:+ quote k +:+ " is not supported by " +:+ action |})
          else (<[k := v]> inputs, warn)) (range_map (StWith st)) (∅, zeroWarning) in
      Ok ({| Action := action; CallVersion := version; CallInputs := inputs |}, warn)
  end.

(** ** The compiled workflow *)

Record CStep := {
  CName : string;
  CIf : string;
  CRun : string;
  CUses : option BuiltinCall;
  CRawUses : string;
  CRawWith : gmap string string;
  CContinueOnError : bool;
  CEnv : gmap string string
}.

(** A nil [Matrix] is [None]. *)
Record JobInstance := {
  InstKey : string;
  DisplayName : string;
  InstRunnerClass : string;
  InstIf : string;
  InstDependsOn : list string;
  InstMatrix : option (gmap string string);
  InstEnv : gmap string string;
  InstSteps : list CStep
}.

Record Compiled := {
  CompName : string;
  CompJobs : list JobInstance;
  Warnings : list Warning;
  cpush : option PushTrigger;
  cpr : option PushTrigger;
  cschedule : list string
}.

Definition displayName (j : Job) : string :=
  if bool_decide (JobName j ≠ "") then JobName j else JobID j.

(** ** Matrix expansion *)

Definition set_matrix (key name : string) (m : option (gmap string string)) (i : JobInstance)
    : JobInstance := {|
  InstKey := key; DisplayName := name; InstRunnerClass := InstRunnerClass i; InstIf := InstIf i;
  InstDependsOn := InstDependsOn i; InstMatrix := m; InstEnv := InstEnv i; InstSteps := InstSteps i |}.

(** The axis [axis] appended to every combination. *)
Definition add_axis (combos : list (list string)) (axis : string) (values : list string)
    : list (list string) :=
  concat (map (fun combo => map (fun value => combo ++ [axis +:+ "=" +:+ value]) values) combos).

(** The matrix assignment and the values of one combination. *)
Definition read_combo (combo : list string) : gmap string string * list string :=
  fold_left (fun '(m, parts) part =>
    let eq := default 0 (index part "=") in
    (<[str_take eq part := str_drop (eq + 1) part]> m, parts ++ [str_drop (eq + 1) part]))
    combo (∅, []).

Definition combo_instance (job : Job) (inst : JobInstance) (combo : list string) : JobInstance :=
  let '(m, parts) := read_combo combo in
  set_matrix (JobID job +:+ "[" +:+ join parts "," +:+ "]")
    (DisplayName inst +:+ " (" +:+ join parts ", " +:+ ")") (Some m) inst.

Definition expandMatrix (job : Job) (inst : JobInstance) : outcome CompileError (list JobInstance) :=
  if bool_decide (size (Matrix job) = 0)
  then Ok [set_matrix (InstKey inst) (DisplayName inst) None inst]
  else match find (fun p => bool_decide (length (snd p) = 0)) (range_map (Matrix job)) with
       | Some p => Err (EmptyAxis (JobID job) (fst p))
       | None =>
           let axes := sort_strings (map fst (range_map (Matrix job))) in
           let combos := fold_left (fun combos axis =>
             add_axis combos axis (default [] (Matrix job !! axis))) axes [[]] in
           Ok (map (combo_instance job inst) combos)
       end.

(** ** Compile *)

Definition ir_step (st : Step) (run : string) (uses : option BuiltinCall) (rawUses : string)
    (rawWith : gmap string string) : CStep := {|
  CName := StName st; CIf := StIf st; CRun := run; CUses := uses; CRawUses := rawUses;
  CRawWith := rawWith; CContinueOnError := StContinueOnError st; CEnv := StEnv st |}.

Definition warn_if (w : Warning) (ws : list Warning) : list Warning :=
  if bool_decide (Msg w ≠ "") then ws ++ [w] else ws.

(** One step: the IR step and the warnings so far. *)
Definition compileStep (jobID : string) (i : nat) (st : Step) (ws : list Warning)
    : outcome CompileError (CStep * list Warning) :=
  if bool_decide (trim_space (StRun st) = "") && bool_decide (StUses st = "")
  then Err (EmptyRun jobID i)
  else if bool_decide (StUses st ≠ "") then
    match compileBuiltin jobID i st with
    | Ok (call, warn) => Ok (ir_step st "" (Some call) "" ∅, warn_if warn ws)
    | Panic => Panic
    | Err berr =>
        if contains berr "did you mean" then Err (BadUses jobID i berr)
        else if contains berr "not a forgelet builtin"
        then Ok (ir_step st "" None (StUses st) (StWith st), ws)
        else Err (BadUses jobID i berr)
    end
  else Ok (ir_step st (StRun st) None "" ∅, ws).

Fixpoint compileSteps (jobID : string) (i : nat) (sts : list Step) (out : list CStep)
    (ws : list Warning) : outcome CompileError (list CStep * list Warning) :=
  match sts with
  | [] => Ok (out, ws)
  | st :: rest =>
      match compileStep jobID i st ws with
      | Ok (c, ws') => compileSteps jobID (S i) rest (out ++ [c]) ws'
      | Err e => Err e
      | Panic => Panic
      end
  end.

Definition compileJob (job : Job) (ws : list Warning)
    : outcome CompileError (list JobInstance * list Warning) :=
  if bool_decide (trim_space (RunsOn job) = "") then Err (EmptyRunsOn (JobID job))
  else if bool_decide (length (Steps job) = 0) then Err (NoSteps (JobID job))
  else
    match compileSteps (JobID job) 0 (Steps job) [] ws with
    | Err e => Err e
    | Panic => Panic
    | Ok (steps, ws') =>
        match expandMatrix job {| InstKey := JobID job; DisplayName := displayName job;
                InstRunnerClass := RunsOn job; InstIf := JobIf job; InstDependsOn := Needs job;
                InstMatrix := None; InstEnv := JobEnv job; InstSteps := steps |} with
        | Err e => Err e
        | Panic => Panic
        | Ok insts => Ok (insts, ws')
        end
    end.

Fixpoint compileJobs (jobs : list Job) (out : list JobInstance) (ws : list Warning)
    : outcome CompileError (list JobInstance * list Warning) :=
  match jobs with
  | [] => Ok (out, ws)
  | job :: rest =>
      match compileJob job ws with
      | Ok (insts, ws') => compileJobs rest (out ++ insts) ws'
      | Err e => Err e
      | Panic => Panic
      end
  end.

Definition Compile (wf : option Workflow) : outcome CompileError Compiled :=
  match wf with
  | None => Err NilWorkflow
  | Some wf =>
      if bool_decide (length (Jobs wf) = 0) then Err NoJobs
      else match topoSort (Jobs wf) with
           | Err e => Err e
           | Panic => Panic
           | Ok ordered =>
               match compileJobs ordered [] [] with
               | Err e => Err e
               | Panic => Panic
               | Ok (jobs, ws) =>
                   Ok {| CompName := WName wf; CompJobs := jobs; Warnings := ws;
                         cpush := Push (On wf); cpr := PullRequest (On wf);
                         cschedule := OnSchedule (On wf) |}
               end
           end
  end.

(** The scheduler's view; [PlanDigest] and [Condition] stay empty. *)
Definition instance_intent (i : JobInstance) : JobIntent := {|
  IJobKey := InstKey i; IRunnerClass := InstRunnerClass i; IDependsOn := InstDependsOn i;
  IMatrix := default ∅ (InstMatrix i); IPlanDigest := ""; ICondition := "" |}.

Definition JobIntents (c : Compiled) : list JobIntent := map instance_intent (CompJobs c).

Definition Schedules (c : Compiled) : list string := cschedule c.

End compile.
