(* ===== verification/TopoSort.v ===== *)
(** * Ordering jobs by their needs

    [topoSort] terminates within its fuel, orders the jobs so that needs come
    first, and fails exactly on duplicate ids, unknown needs and cycles. *)

From S2P Require Import Prelude GoStrings Syntax Compiler.

Definition ids (l : list Job) : list string := map JobID l.

Lemma ids_app a b : ids (a ++ b) = ids a ++ ids b.
Proof. apply map_app. Qed.

Lemma ids_snoc l x : ids (l ++ [x]) = ids l ++ [JobID x].
Proof. apply map_app. Qed.

(** [b] is needed by [a]. *)
Definition needs (byID : gmap string Job) (a b : string) : Prop :=
  ∃ j, byID !! a = Some j ∧ b ∈ Needs j.

(** Every job comes after the jobs it needs. *)
Definition needs_first (l : list Job) : Prop :=
  ∀ a x b, l = a ++ x :: b → ∀ d, d ∈ Needs x → d ∈ ids a.

Section search.
Context (byID : gmap string Job).
Hypothesis by_id : ∀ k j, byID !! k = Some j → JobID j = k.
Hypothesis known : ∀ k j d, byID !! k = Some j → d ∈ Needs j → is_Some (byID !! d).

(** The invariant of the search; [stack] holds the jobs being visited. *)
Record search_ok (stack : list string) (s : Search) : Prop := {
  so_visiting : ∀ id, state s !! id = Some Visiting ↔ id ∈ stack;
  so_done : ∀ id, state s !! id = Some Done ↔ id ∈ ids (out s);
  so_nodup : NoDup (ids (out s));
  so_first : needs_first (out s);
  so_jobs : ∀ x, x ∈ out s → byID !! JobID x = Some x
}.

(** Jobs not yet visited: what the fuel must cover. *)
Definition unvisited (s : Search) : nat := size (dom byID ∖ dom (state s)).

(** How the state may change: marks of finished jobs stay, marks are only added. *)
Definition grows (s s' : Search) : Prop :=
  dom (state s) ⊆ dom (state s') ∧
  ∀ id, state s !! id = Some Done → state s' !! id = Some Done.

Lemma grows_unvisited s s' : grows s s' → unvisited s' ≤ unvisited s.
Proof. intros [Hd _]. unfold unvisited. apply subseteq_size. set_solver. Qed.

Lemma grows_trans s1 s2 s3 : grows s1 s2 → grows s2 s3 → grows s1 s3.
Proof. intros [? ?] [? ?]. split; [set_solver|auto]. Qed.

(** What a visit returns. *)
Definition visited (stack : list string) (s : Search) (todo : list string)
    (r : outcome CompileError Search) : Prop :=
  match r with
  | Ok s' => search_ok stack s' ∧ grows s s' ∧ ∀ id, id ∈ todo → state s' !! id = Some Done
  | Err e => ∃ k, e = NeedsCycle k ∧ tc (needs byID) k k
  | Panic => False
  end.

Lemma mark_ok stack s j :
  search_ok stack s → state s !! JobID j = None →
  search_ok (JobID j :: stack) (mark (JobID j) Visiting s) ∧ grows s (mark (JobID j) Visiting s).
Proof.
  intros [Hv Hd Hn Hf Hj] Hnone. split; [split; simpl; try done|split; simpl].
  - intros id. rewrite lookup_insert, elem_of_cons. case_decide as E; [subst; naive_solver|].
    rewrite Hv. naive_solver.
  - intros id. rewrite lookup_insert. case_decide as E; [|apply Hd]. subst.
    split; [done|]. intros Hin%Hd. congruence.
  - rewrite dom_insert_L. set_solver.
  - intros id Hid. rewrite lookup_insert_ne; [done|]. congruence.
Qed.

Lemma unvisited_mark s j :
  byID !! JobID j = Some j → state s !! JobID j = None →
  unvisited (mark (JobID j) Visiting s) < unvisited s.
Proof.
  intros Hj Hnone. unfold unvisited. apply subset_size. simpl. rewrite dom_insert_L.
  apply elem_of_dom_2 in Hj. apply not_elem_of_dom in Hnone. set_solver.
Qed.

(** A finished job goes behind everything it needs. *)
Lemma finish_ok stack s j :
  byID !! JobID j = Some j → JobID j ∉ stack → search_ok (JobID j :: stack) s →
  (∀ d, d ∈ Needs j → state s !! d = Some Done) →
  search_ok stack {| state := <[JobID j := Done]> (state s); out := out s ++ [j] |}.
Proof.
  intros Hj Hns [Hv Hd Hn Hf Hjobs] Hdeps.
  assert (JobID j ∉ ids (out s)) as Hout.
  { intros Hin%Hd. rewrite (proj2 (Hv (JobID j))) in Hin by set_solver. done. }
  split; simpl.
  - intros id. rewrite lookup_insert. case_decide as E; [subst; naive_solver|].
    rewrite Hv. set_solver.
  - intros id. rewrite lookup_insert, ids_snoc, elem_of_app. case_decide as E.
    + subst. split; [|done]. intros _. right. by apply list_elem_of_singleton.
    + rewrite Hd, list_elem_of_singleton. naive_solver.
  - rewrite ids_snoc. apply NoDup_app. split_and!; [done| |apply NoDup_singleton].
    intros id Hin ->%list_elem_of_singleton. done.
  - intros a x b Heq d Hin. destruct b as [|y b] using rev_ind.
    + apply app_inj_tail in Heq as [<- <-]. by apply Hd, Hdeps.
    + clear IHb. rewrite app_comm_cons, app_assoc in Heq.
      apply app_inj_tail in Heq as [Heq _]. by apply (Hf a x b).
  - intros x [Hx| ->%list_elem_of_singleton]%elem_of_app; auto.
Qed.

Lemma visit_deps_ok (f : Job → Search → outcome CompileError Search) stack j fuel deps s :
  byID !! JobID j = Some j → (∀ d, d ∈ deps → d ∈ Needs j) →
  (∀ dj s, byID !! JobID dj = Some dj → search_ok stack s →
     tc (needs byID) (JobID j) (JobID dj) → unvisited s < fuel →
     visited stack s [JobID dj] (f dj s)) →
  search_ok stack s → unvisited s < fuel → visited stack s deps (visit_deps f byID deps s).
Proof.
  intros Hj Hdeps Hf. revert s. induction deps as [|d deps IH]; intros s Hs Hfuel; simpl.
  { split_and!; [done|by split|set_solver]. }
  destruct (known _ _ d Hj) as [dj Hdj]; [set_solver|]. rewrite Hdj.
  pose proof (by_id _ _ Hdj) as Hid. specialize (Hf dj s) as Hv. rewrite Hid in Hv.
  assert (tc (needs byID) (JobID j) d) as Htc by (apply tc_once; exists j; set_solver).
  specialize (Hv Hdj Hs Htc Hfuel).
  destruct (f dj s) as [s1|e|]; simpl in *; [|done..].
  destruct Hv as (Hs1 & Hg1 & Hd1).
  pose proof (grows_unvisited _ _ Hg1).
  specialize (IH ltac:(set_solver) s1 Hs1 ltac:(lia)).
  destruct (visit_deps f byID deps s1) as [s2|e|]; simpl in *; [|done..].
  destruct IH as (Hs2 & Hg2 & Hd2). split_and!; [done|by eapply grows_trans|].
  intros id [->|Hin]%elem_of_cons; [|auto]. apply Hg2, Hd1. set_solver.
Qed.

Lemma visit_ok fuel stack j s :
  byID !! JobID j = Some j → search_ok stack s →
  (∀ k, k ∈ stack → tc (needs byID) k (JobID j)) → unvisited s < fuel →
  visited stack s [JobID j] (visit fuel byID j s).
Proof.
  revert stack j s. induction fuel as [|fuel IH]; intros stack j s Hj Hs Hpath Hfuel; [lia|].
  simpl. destruct (state s !! JobID j) as [[]|] eqn:E.
  - exists (JobID j). split; [done|]. by apply Hpath, (so_visiting _ _ Hs).
  - split_and!; [done|by split|]. by intros id ->%list_elem_of_singleton.
  - destruct (mark_ok stack s j Hs E) as [Hm Hg].
    pose proof (unvisited_mark s j Hj E) as Hlt.
    assert (visited (JobID j :: stack) (mark (JobID j) Visiting s) (Needs j)
      (visit_deps (visit fuel byID) byID (Needs j) (mark (JobID j) Visiting s))) as Hv.
    { apply (visit_deps_ok (visit fuel byID) _ j fuel); try done; [|lia].
      intros dj s0 Hdj Hs0 Htc Hf0. apply IH; [done..| |done].
      intros k [->|Hk]%elem_of_cons; [done|]. etrans; [by apply Hpath|done]. }
    destruct (visit_deps _ _ _ _) as [s1|e|]; simpl in *; [|done..].
    destruct Hv as (Hs1 & Hg1 & Hd1). split_and!.
    + apply finish_ok; try done. intros Hin%(so_visiting _ _ Hs). congruence.
    + destruct (grows_trans _ _ _ Hg Hg1) as [Hd Hdone]. split; simpl.
      * rewrite dom_insert_L. set_solver.
      * intros id Hid. rewrite lookup_insert. case_decide; [done|auto].
    + intros id ->%list_elem_of_singleton. by rewrite lookup_insert_eq.
Qed.

Lemma visit_all_ok fuel jobs s :
  (∀ j, j ∈ jobs → byID !! JobID j = Some j) → search_ok [] s → unvisited s < fuel →
  visited [] s (ids jobs) (visit_all fuel byID jobs s).
Proof.
  revert s. induction jobs as [|j jobs IH]; intros s Hjobs Hs Hfuel; simpl.
  { split_and!; [done|by split|set_solver]. }
  pose proof (visit_ok fuel [] j s ltac:(apply Hjobs; set_solver) Hs ltac:(set_solver) Hfuel) as Hv.
  destruct (visit fuel byID j s) as [s1|e|]; simpl in *; [|done..].
  destruct Hv as (Hs1 & Hg1 & Hd1). pose proof (grows_unvisited _ _ Hg1).
  specialize (IH s1 ltac:(set_solver) Hs1 ltac:(lia)).
  destruct (visit_all fuel byID jobs s1) as [s2|e|]; simpl in *; [|done..].
  destruct IH as (Hs2 & Hg2 & Hd2). split_and!; [done|by eapply grows_trans|].
  intros id [->|Hin]%elem_of_cons; [|auto]. apply Hg2, Hd1. set_solver.
Qed.

(** An order with needs first rules out cycles. *)
Lemma needs_first_closed l a b :
  needs_first l → (∀ x, x ∈ l → byID !! JobID x = Some x) →
  a ∈ ids l → tc (needs byID) a b → b ∈ ids l.
Proof.
  intros Hf Hj Ha Htc. induction Htc as [a b Hn|a b c Hn _ IH].
  - apply list_elem_of_In, in_map_iff in Ha as (x & <- & Hx%list_elem_of_In).
    destruct Hn as (j & Hj' & Hb). rewrite (Hj x Hx) in Hj'. simplify_eq.
    apply list_elem_of_split in Hx as (l1 & l2 & ->).
    pose proof (Hf l1 j l2 eq_refl b Hb) as Hin. rewrite ids_app. set_solver.
  - apply IH. apply list_elem_of_In, in_map_iff in Ha as (x & <- & Hx%list_elem_of_In).
    destruct Hn as (j & Hj' & Hb). rewrite (Hj x Hx) in Hj'. simplify_eq.
    apply list_elem_of_split in Hx as (l1 & l2 & ->).
    pose proof (Hf l1 j l2 eq_refl b Hb) as Hin. rewrite ids_app. set_solver.
Qed.

Lemma needs_first_acyclic l k :
  needs_first l → NoDup (ids l) → (∀ x, x ∈ l → byID !! JobID x = Some x) →
  k ∈ ids l → ¬ tc (needs byID) k k.
Proof.
  revert k. induction l as [|x l IH] using rev_ind; intros k Hf Hnd Hj Hk Htc; [set_solver|].
  assert (needs_first l) as Hfl.
  { intros a y b -> d Hd. apply (Hf a y (b ++ [x])); [|done]. by rewrite <-app_assoc. }
  rewrite ids_snoc in Hk, Hnd. apply NoDup_app in Hnd as (Hnd & Hdis & _).
  destruct (decide (k ∈ ids l)) as [Hin|Hnin].
  { apply (IH k); try done. intros y Hy. apply Hj. set_solver. }
  assert (k = JobID x) as -> by set_solver.
  assert (∃ d, needs byID (JobID x) d ∧ (d = JobID x ∨ tc (needs byID) d (JobID x))) as (d & Hn & Hd).
  { inversion Htc; subst; eauto. }
  destruct Hn as (j & Hj' & Hdn). rewrite (Hj x) in Hj' by set_solver. simplify_eq.
  pose proof (Hf l j [] eq_refl d Hdn) as Hin. apply Hnin.
  destruct Hd as [->|Hd]; [done|]. apply (needs_first_closed l d); try done.
  intros y Hy. apply Hj. set_solver.
Qed.
End search.

(** ** Indexing and checking *)

Lemma index_jobs_spec jobs m :
  match index_jobs jobs m with
  | Ok m' => NoDup (ids jobs) ∧ (∀ id, id ∈ ids jobs → m !! id = None) ∧
      ∀ k j, m' !! k = Some j ↔ m !! k = Some j ∨ (j ∈ jobs ∧ JobID j = k)
  | Err _ => ¬ (NoDup (ids jobs) ∧ ∀ id, id ∈ ids jobs → m !! id = None)
  | Panic => False
  end.
Proof.
  revert m. induction jobs as [|j jobs IH]; intros m; simpl.
  { split_and!; [constructor|set_solver|]. intros k j. split; [by left|]. set_solver. }
  destruct (m !! JobID j) as [j'|] eqn:Ej.
  { intros [_ Hnone]. specialize (Hnone (JobID j)). rewrite Ej in Hnone.
    discriminate Hnone. set_solver. }
  specialize (IH (<[JobID j := j]> m)).
  assert (∀ id, id ∈ ids jobs → <[JobID j:=j]> m !! id = None ↔ id ≠ JobID j ∧ m !! id = None) as Hins.
  { intros id _. rewrite lookup_insert. case_decide; naive_solver. }
  destruct (index_jobs jobs (<[JobID j := j]> m)) as [m'|e|]; [|..|done].
  - destruct IH as (Hnd & Hnone & Hm'). split_and!.
    + constructor; [|done]. intros Hin. by destruct (proj1 (Hins _ Hin) (Hnone _ Hin)).
    + intros id [->|Hin]%elem_of_cons; [done|]. by apply Hins, Hnone.
    + intros k j0. rewrite Hm', lookup_insert, elem_of_cons. case_decide as E; [|naive_solver].
      subst. split; [intros [[= ->]|[? ?]]; naive_solver|].
      intros [H|[[->|Hin] Hk]]; [congruence|by left|right; naive_solver].
  - intros [Hnd Hnone]. apply NoDup_cons in Hnd as [Hnin Hnd]. apply IH. split; [done|].
    intros id Hin. apply Hins; [done|]. split; [|apply Hnone; set_solver]. naive_solver.
Qed.

Lemma check_needs_spec byID jobs :
  check_needs byID jobs = None ↔ ∀ j d, j ∈ jobs → d ∈ Needs j → is_Some (byID !! d).
Proof.
  induction jobs as [|j jobs IH]; simpl; [set_solver|].
  unfold unknown_need. destruct (find _ (Needs j)) as [dep|] eqn:E.
  - apply find_some in E as [Hin%list_elem_of_In Hd%bool_decide_eq_true].
    split; [done|]. intros Hall. destruct (Hall j dep) as [x Hx]; [set_solver|done|congruence].
  - rewrite IH. split.
    + intros Hall j' d [->|Hj]%elem_of_cons Hd; [|eauto].
      pose proof (find_none _ _ E d (proj1 (list_elem_of_In _ _) Hd)) as Hn.
      apply bool_decide_eq_false in Hn. destruct (byID !! d); [by eexists|done].
    + intros Hall j' d Hj Hd. apply (Hall j'); set_solver.
Qed.

(** ** Correctness *)

Definition need_of (jobs : list Job) (a b : string) : Prop :=
  ∃ j, j ∈ jobs ∧ JobID j = a ∧ b ∈ Needs j.

(** Distinct ids, known needs, no cycle. *)
Definition valid_needs (jobs : list Job) : Prop :=
  NoDup (ids jobs) ∧ (∀ j d, j ∈ jobs → d ∈ Needs j → d ∈ ids jobs) ∧
  ∀ k, ¬ tc (need_of jobs) k k.

Lemma need_of_needs byID jobs :
  (∀ k j, byID !! k = Some j ↔ j ∈ jobs ∧ JobID j = k) →
  ∀ a b, needs byID a b ↔ need_of jobs a b.
Proof. intros Hm a b. unfold needs, need_of. naive_solver. Qed.

Lemma tc_iff {A} (R R' : relation A) x y : (∀ a b, R a b ↔ R' a b) → tc R x y ↔ tc R' x y.
Proof.
  intros HR. split; induction 1;
    [apply tc_once|eapply tc_l| apply tc_once|eapply tc_l]; try done; by apply HR.
Qed.

Lemma elem_of_ids j jobs : j ∈ jobs → JobID j ∈ ids jobs.
Proof. intros Hj. apply list_elem_of_In, in_map, list_elem_of_In, Hj. Qed.

Lemma ids_elem k jobs : k ∈ ids jobs → ∃ j, j ∈ jobs ∧ JobID j = k.
Proof. intros (j & <- & Hj%list_elem_of_In)%list_elem_of_In%in_map_iff. by exists j. Qed.

Lemma NoDup_ids jobs : NoDup (ids jobs) → NoDup jobs.
Proof. apply (NoDup_fmap_1 JobID). Qed.

Lemma size_index (byID : gmap string Job) jobs :
  NoDup (ids jobs) → (∀ k j, byID !! k = Some j ↔ j ∈ jobs ∧ JobID j = k) →
  size (dom byID) ≤ length jobs.
Proof.
  intros Hnd Hm. transitivity (size (list_to_set (ids jobs) : gset string)).
  - apply subseteq_size. intros k [j Hj]%elem_of_dom. apply Hm in Hj as [Hj <-].
    apply elem_of_list_to_set. by apply elem_of_ids.
  - rewrite size_list_to_set by done. unfold ids. by rewrite length_map.
Qed.

Lemma tc_source jobs k k' : tc (need_of jobs) k k' → k ∈ ids jobs.
Proof. intros Htc. inversion Htc as [? ? Hn|? ? ? Hn]; destruct Hn as (j & Hj & <- & _); by apply elem_of_ids. Qed.

Lemma search_start byID : search_ok byID [] {| state := ∅; out := [] |}.
Proof.
  split; simpl; [intros id; rewrite lookup_empty; set_solver..|constructor|by intros []|set_solver].
Qed.

(** The search over the indexed jobs. *)
Lemma search_all byID jobs :
  NoDup (ids jobs) → (∀ k j, byID !! k = Some j ↔ j ∈ jobs ∧ JobID j = k) →
  (∀ j d, j ∈ jobs → d ∈ Needs j → is_Some (byID !! d)) →
  match visit_all (S (length jobs)) byID jobs {| state := ∅; out := [] |} with
  | Ok s => out s ≡ₚ jobs ∧ needs_first (out s) ∧ ∀ k, ¬ tc (need_of jobs) k k
  | Err _ => ∃ k, tc (need_of jobs) k k
  | Panic => False
  end.
Proof.
  intros Hnd Hm Hknown.
  assert (∀ x y, tc (needs byID) x y ↔ tc (need_of jobs) x y) as Htc
    by (intros x y; by apply tc_iff, need_of_needs).
  assert (unvisited byID {| state := ∅; out := [] |} < S (length jobs)) as Hfuel.
  { unfold unvisited. simpl. rewrite dom_empty_L, difference_empty_L.
    pose proof (size_index byID jobs Hnd Hm). lia. }
  pose proof (visit_all_ok byID ltac:(naive_solver) ltac:(naive_solver) (S (length jobs)) jobs
    {| state := ∅; out := [] |} ltac:(naive_solver) (search_start byID) Hfuel) as Hv.
  destruct (visit_all _ _ _ _) as [s|e|]; simpl in Hv; [|naive_solver|done].
  destruct Hv as ([_ Hdone Hnd' Hfirst Hjobs] & _ & Hall). split_and!; [|done|].
  - apply NoDup_Permutation; [by apply NoDup_ids..|]. intros x. split.
    + intros Hx%Hjobs. by apply Hm in Hx as [? _].
    + intros Hx. pose proof (Hall _ (elem_of_ids _ _ Hx)) as (y & Hy & Hxy)%Hdone%ids_elem.
      pose proof (Hjobs y Hy) as Hby. rewrite Hxy in Hby.
      assert (byID !! JobID x = Some x) as Hbx by by apply Hm. congruence.
  - intros k Hk. pose proof (tc_source _ _ _ Hk) as Hin. apply Htc in Hk. revert Hk.
    eapply needs_first_acyclic; try done; [naive_solver..|]. by apply Hdone, Hall.
Qed.

Lemma topoSort_cases jobs :
  match topoSort jobs with
  | Ok l => valid_needs jobs ∧ l ≡ₚ jobs ∧ needs_first l
  | Err _ => ¬ valid_needs jobs
  | Panic => False
  end.
Proof.
  unfold topoSort. pose proof (index_jobs_spec jobs ∅) as Hidx.
  destruct (index_jobs jobs ∅) as [byID|e|]; [| |done].
  2:{ intros (Hnd & _). destruct Hidx. split; [done|]. intros id _. apply lookup_empty. }
  destruct Hidx as (Hnd & _ & Hm).
  assert (∀ k j, byID !! k = Some j ↔ j ∈ jobs ∧ JobID j = k) as Hm'.
  { intros k j. rewrite Hm, lookup_empty. naive_solver. }
  clear Hm. pose proof (check_needs_spec byID jobs) as Hchk.
  assert (∀ d, is_Some (byID !! d) ↔ d ∈ ids jobs) as Hids.
  { intros d. split; [intros [j [Hj <-]%Hm']; by apply elem_of_ids|].
    intros (j & Hj)%ids_elem. exists j. by apply Hm'. }
  destruct (check_needs byID jobs) as [e|].
  { intros (_ & Hk & _). assert (Some e = None); [|done]. apply Hchk. intros j d Hj Hd.
    by eapply Hids, Hk. }
  pose proof (proj1 Hchk eq_refl) as Hknown.
  pose proof (search_all byID jobs Hnd Hm' Hknown) as Hs.
  destruct (visit_all _ _ _ _) as [s|e|]; [| |done].
  - destruct Hs as (Hp & Hf & Hac). split_and!; try done. split_and!; try done.
    intros j d Hj Hd. by eapply Hids, Hknown.
  - intros (_ & _ & Hac). destruct Hs as [k Hk]. by destruct (Hac k).
Qed.

(** C33. Dependency order: [topoSort] always returns (its recursion never runs
    past the number of jobs), succeeds exactly when job ids are distinct, every
    need names a job and there is no cycle, and then returns the same jobs with
    each one behind everything it needs. *)
Theorem topoSort_correct jobs :
  topoSort jobs ≠ Panic ∧
  ((∃ l, topoSort jobs = Ok l) ↔ valid_needs jobs) ∧
  (∀ l, topoSort jobs = Ok l → l ≡ₚ jobs ∧ needs_first l).
Proof.
  pose proof (topoSort_cases jobs) as Hc. destruct (topoSort jobs) as [l|e|]; [| |done].
  - destruct Hc as (Hv & Hp & Hf). split_and!; [done| |by intros l' [= <-]]. split; [done|by eexists].
  - split_and!; [done| |done]. split; [by intros [l ?]|done].
Qed.
