(* ===== verification/MatrixExpansion.v ===== *)
(** * Matrix expansion

    [expandMatrix] produces one instance per assignment of values to axes, in
    an order that does not depend on Go's map iteration, and, for values
    without commas, with pairwise distinct keys. *)

From Stdlib Require Import Ascii.
From S2P Require Import Prelude GoStrings RunModel Syntax Compiler.

(** Assignments of values to [axes], the first axis varying slowest. *)
Definition assignments (matrix : gmap string (list string)) (axes : list string)
    : list (list (string * string)) :=
  fold_left (fun cs axis =>
    concat (map (fun c => map (fun v => c ++ [(axis, v)]) (default [] (matrix !! axis))) cs))
    axes [[]].

Definition part_of (p : string * string) : string := fst p +:+ "=" +:+ snd p.

Lemma concat_map_map {A B C} (f : B → C) (g : A → list B) l :
  map f (concat (map g l)) = concat (map (fun x => map f (g x)) l).
Proof. induction l as [|x l IH]; simpl; [done|]. by rewrite map_app, IH. Qed.

Lemma combos_assignments (matrix : gmap string (list string)) axes :
  fold_left (fun combos axis => add_axis combos axis (default [] (matrix !! axis))) axes [[]] =
  map (map part_of) (assignments matrix axes).
Proof.
  unfold assignments. change [[]] with (map (map part_of) [[]]) at 1.
  generalize ([[]] : list (list (string * string))) as cs.
  induction axes as [|a axes IH]; intros cs; simpl; [done|]. rewrite <-IH. f_equal.
  unfold add_axis. rewrite concat_map_map, map_map. f_equal. apply map_ext. intros c.
  rewrite map_map. apply map_ext. intros v. by rewrite map_app.
Qed.

Lemma assignments_snoc matrix axes a :
  assignments matrix (axes ++ [a]) =
  concat (map (fun c => map (fun v => c ++ [(a, v)]) (default [] (matrix !! a)))
            (assignments matrix axes)).
Proof. unfold assignments. by rewrite fold_left_app. Qed.

Lemma in_concat_map {A B} (f : A → list B) l y : y ∈ concat (map f l) ↔ ∃ x, x ∈ l ∧ y ∈ f x.
Proof.
  induction l as [|x l IH]; simpl; [set_solver|]. rewrite elem_of_app, IH. set_solver.
Qed.

Lemma in_map_elem {A B} (f : A → B) l y : y ∈ map f l ↔ ∃ x, y = f x ∧ x ∈ l.
Proof. apply list_elem_of_fmap. Qed.

Lemma assignments_elem matrix axes c :
  c ∈ assignments matrix axes ↔
    map fst c = axes ∧ ∀ a v, (a, v) ∈ c → v ∈ default [] (matrix !! a).
Proof.
  revert c. induction axes as [|a axes IH] using rev_ind; intros c.
  { unfold assignments. simpl. rewrite list_elem_of_singleton. split; [intros ->; set_solver|].
    intros [Hc _]. by destruct c. }
  rewrite assignments_snoc, in_concat_map. split.
  - intros (c' & Hc' & (v & -> & Hv)%in_map_elem). apply IH in Hc' as [Hf Hall].
    rewrite map_app, Hf. split; [done|]. intros a' v' [Hin|Hin%list_elem_of_singleton]%elem_of_app; [auto|].
    by simplify_eq.
  - intros [Hf Hall]. destruct c as [|[a' v] c' _] using rev_ind; [by destruct axes|].
    rewrite map_app in Hf. simpl in Hf. apply app_inj_tail in Hf as [Hf ->].
    exists c'. split; [apply IH; split; [done|]; intros; apply Hall; set_solver|].
    apply in_map_elem. exists v. split; [done|]. apply Hall. set_solver.
Qed.

(** The number of assignments. *)
Fixpoint prod (l : list nat) : nat := match l with [] => 1 | n :: l' => n * prod l' end.

Lemma prod_snoc l n : prod (l ++ [n]) = prod l * n.
Proof. induction l as [|m l IH]; simpl; [lia|]. rewrite IH. lia. Qed.

Lemma assignments_length matrix axes :
  length (assignments matrix axes) = prod (map (fun a => length (default [] (matrix !! a))) axes).
Proof.
  induction axes as [|a axes IH] using rev_ind; [done|].
  rewrite assignments_snoc, map_app. simpl. rewrite prod_snoc, <-IH. clear IH.
  induction (assignments matrix axes) as [|c cs IHc]; simpl; [done|].
  rewrite length_app, length_map, IHc. lia.
Qed.

Lemma assignments_NoDup matrix axes :
  (∀ a, a ∈ axes → NoDup (default [] (matrix !! a))) → NoDup (assignments matrix axes).
Proof.
  induction axes as [|a axes IH] using rev_ind; intros Hnd; [apply NoDup_singleton|].
  rewrite assignments_snoc. specialize (IH ltac:(set_solver)). specialize (Hnd a ltac:(set_solver)).
  induction IH as [|c cs Hc Hcs IHcs]; simpl; [constructor|]. apply NoDup_app. split_and!; [| |done].
  - change @map with @list_fmap. apply NoDup_fmap_2_strong; [|done].
    intros v v' _ _ Heq. by apply app_inj_tail in Heq as [_ [= ->]].
  - intros x (v & -> & _)%in_map_elem (c' & Hc' & (v' & Heq & _)%in_map_elem)%in_concat_map.
    apply app_inj_tail in Heq as [-> _]. done.
Qed.

(** ** Reading a combination back *)

Lemma read_combo_spec c :
  (∀ a v, (a, v) ∈ c → byte_in "="%char a = false) → NoDup (map fst c) →
  read_combo (map part_of c) = (list_to_map c, map snd c).
Proof.
  intros Hfree Hnd. unfold read_combo.
  assert (∀ (m : gmap string string) ps, fold_left (fun '(m, parts) part =>
      let eq := default 0 (index part "=") in
      (<[str_take eq part := str_drop (eq + 1) part]> m, parts ++ [str_drop (eq + 1) part]))
      (map part_of c) (m, ps) =
    (fold_left (fun m p => <[fst p := snd p]> m) c m, ps ++ map snd c)) as Hgen.
  { clear Hnd. induction c as [|[a v] c IH]; intros m ps; simpl; [by rewrite app_nil_r|].
    change (part_of (a, v)) with (a +:+ String "="%char v).
    rewrite (index_byte_app a "="%char v) by (apply (Hfree a v); set_solver). simpl default.
    rewrite str_take_app, str_drop_app_S, IH by (intros a' v' ?; apply (Hfree a' v'); by right).
    by rewrite <-app_assoc. }
  rewrite Hgen. f_equal. rewrite fold_insert_map by done. by rewrite map_union_empty.
Qed.

(** ** Keys *)

Lemma join_comma_inj (l l' : list string) :
  length l = length l' →
  Forall (fun w => byte_in ","%char w = false) l → Forall (fun w => byte_in ","%char w = false) l' →
  join l "," = join l' "," → l = l'.
Proof.
  intros Hlen Hl Hl' Heq. destruct l as [|x l], l' as [|x' l']; try done.
  rewrite <-(split_on_join ","%char (x :: l)) by done. rewrite <-(split_on_join ","%char (x' :: l')) by done.
  by rewrite Heq.
Qed.

Lemma app_str_inj_r a b c : a +:+ c = b +:+ c → a = b.
Proof.
  intros Heq. assert (String.length a = String.length b) as Hl.
  { apply (f_equal String.length) in Heq. rewrite !app_str_length in Heq. lia. }
  by apply str_app_inj_len in Heq as [-> _].
Qed.

Lemma map_fst_snd_inj {A B} (c c' : list (A * B)) :
  map fst c = map fst c' → map snd c = map snd c' → c = c'.
Proof.
  revert c'. induction c as [|[a b] c IH]; intros [|[a' b'] c']; simpl; intros H1 H2; try done.
  simplify_eq. f_equal. auto.
Qed.

(** ** The theorem *)

Section expansion.
Context `{MapRange} (job : Job) (inst : JobInstance).

Definition matrix_axes : list string := sort_strings (map fst (range_map (Matrix job))).

Lemma matrix_axes_elem a : a ∈ matrix_axes ↔ is_Some (Matrix job !! a).
Proof.
  unfold matrix_axes, sort_strings. rewrite sort_by_elem, in_map_elem. split.
  - intros ([k v] & -> & Hkv%range_map_elem). by eexists.
  - intros [v Hv]. exists (a, v). split; [done|]. by apply range_map_elem.
Qed.

Lemma matrix_axes_NoDup : NoDup matrix_axes.
Proof.
  unfold matrix_axes, sort_strings. rewrite sort_by_perm.
  change @map with @list_fmap. rewrite range_map_perm. apply NoDup_fst_map_to_list.
Qed.

(** The assignment an instance carries. *)
Definition is_assignment (m : gmap string string) : Prop :=
  dom m = dom (Matrix job) ∧
  ∀ a v, m !! a = Some v → v ∈ default [] (Matrix job !! a).

Lemma assignment_map m :
  is_assignment m ↔ ∃ c, c ∈ assignments (Matrix job) matrix_axes ∧ list_to_map c = m.
Proof.
  split.
  - intros [Hdom Hv]. exists (map (fun a => (a, default "" (m !! a))) matrix_axes). split.
    + apply assignments_elem. rewrite map_map. simpl. split; [apply map_id|].
      intros a v (a' & [= -> ->] & Ha)%in_map_elem. apply matrix_axes_elem in Ha.
      apply elem_of_dom in Ha. rewrite <-Hdom in Ha. apply elem_of_dom in Ha as [v Hm].
      rewrite Hm. simpl. by apply Hv.
    + apply map_eq. intros a. destruct (m !! a) as [v|] eqn:E.
      * apply elem_of_list_to_map.
        { change @map with @list_fmap. rewrite <-list_fmap_compose. simpl.
          rewrite list_fmap_id. apply matrix_axes_NoDup. }
        apply in_map_elem. exists a. rewrite E. split; [done|]. apply matrix_axes_elem, elem_of_dom.
        rewrite <-Hdom. by apply elem_of_dom_2 in E.
      * apply not_elem_of_list_to_map_1. change @map with @list_fmap.
        rewrite <-list_fmap_compose. simpl. rewrite list_fmap_id.
        rewrite matrix_axes_elem, <-elem_of_dom, <-Hdom, elem_of_dom, E. by intros [? ?].
  - intros (c & [Hf Hall]%assignments_elem & <-).
    assert (NoDup c.*1) as Hnd by (change (NoDup (map fst c)); rewrite Hf; apply matrix_axes_NoDup).
    split.
    + apply set_eq. intros a. rewrite dom_list_to_map_L, elem_of_list_to_set.
      change (c.*1) with (map fst c). rewrite Hf, matrix_axes_elem. by rewrite elem_of_dom.
    + intros a v Hm. apply elem_of_list_to_map in Hm; [|done]. by apply Hall.
Qed.
End expansion.

Lemma axes_order_irrelevant (r1 r2 : MapRange) (m : gmap string (list string)) :
  sort_strings (map fst (@range_map r1 _ m)) = sort_strings (map fst (@range_map r2 _ m)).
Proof.
  apply sort_strings_unique. change @map with @list_fmap. by rewrite !range_map_perm.
Qed.

Lemma find_empty_axis `{MapRange} (job : Job) :
  (∀ a vs, Matrix job !! a = Some vs → vs ≠ []) →
  find (fun p => bool_decide (length (snd p) = 0)) (range_map (Matrix job)) = None.
Proof.
  intros Hne. destruct (find _ _) as [[a vs]|] eqn:E; [|done].
  apply find_some in E as [Hin%list_elem_of_In Hl%bool_decide_eq_true].
  apply range_map_elem in Hin. exfalso. apply (Hne a vs Hin). by destruct vs.
Qed.

(** The instances are those of the assignments. *)
Lemma expandMatrix_instances `{MapRange} job inst :
  Matrix job ≠ ∅ → (∀ a vs, Matrix job !! a = Some vs → vs ≠ []) →
  (∀ a, is_Some (Matrix job !! a) → byte_in "="%char a = false) →
  expandMatrix job inst =
    Ok (map (fun c => set_matrix (JobID job +:+ "[" +:+ join (map snd c) "," +:+ "]")
               (DisplayName inst +:+ " (" +:+ join (map snd c) ", " +:+ ")")
               (Some (list_to_map c)) inst)
          (assignments (Matrix job) (matrix_axes job))).
Proof.
  intros Hm Hne Hfree. unfold expandMatrix.
  rewrite bool_decide_eq_false_2 by by rewrite map_size_empty_iff.
  rewrite find_empty_axis by done. rewrite combos_assignments, map_map. f_equal.
  apply map_ext_in. intros c Hc%list_elem_of_In. unfold combo_instance.
  apply assignments_elem in Hc as [Hf _]. rewrite read_combo_spec; [done| |].
  - intros a v Hin. apply Hfree, matrix_axes_elem. rewrite <-Hf. apply in_map_elem. by exists (a, v).
  - rewrite Hf. apply matrix_axes_NoDup.
Qed.

(** The values of an instance's matrix in the order of the axes. *)
Definition instance_values `{MapRange} (job : Job) (i : JobInstance) : list string :=
  map (fun a => default "" (default ∅ (InstMatrix i) !! a)) (matrix_axes job).

Lemma values_of_assignment (c : list (string * string)) :
  NoDup (map fst c) →
  map (fun a => default "" ((list_to_map c : gmap string string) !! a)) (map fst c) = map snd c.
Proof.
  intros Hnd. rewrite map_map. apply map_ext_in. intros [a v] Hin%list_elem_of_In. simpl.
  by rewrite (elem_of_list_to_map_1 c a v).
Qed.

(** C35. The matrix is expanded completely and deterministically: when every
    axis has values (and names without an equals sign, as the parser
    guarantees), the instances carry exactly the assignments of one listed
    value per axis, as many as the product of the axis sizes; each has the job's
    key and display name extended by its values in the order of the axes, and
    the dependencies, steps, runner class, condition and environment of the
    job; the result is the same for every iteration order of the map; and if
    values are comma-free and not repeated within an axis, the instance keys are
    pairwise distinct. *)
Theorem matrix_instances_are_all_assignments (r1 r2 : MapRange) job inst :
  Matrix job ≠ ∅ → (∀ a vs, Matrix job !! a = Some vs → vs ≠ []) →
  (∀ a, is_Some (Matrix job !! a) → byte_in "="%char a = false) →
  ∃ insts, @expandMatrix r1 job inst = Ok insts ∧ @expandMatrix r2 job inst = Ok insts ∧
    (∀ m, is_assignment job m ↔ ∃ i, i ∈ insts ∧ InstMatrix i = Some m) ∧
    length insts = prod (map (fun a => length (default [] (Matrix job !! a))) (@matrix_axes r1 job)) ∧
    (∀ i, i ∈ insts → InstDependsOn i = InstDependsOn inst ∧ InstSteps i = InstSteps inst ∧
       InstRunnerClass i = InstRunnerClass inst ∧ InstIf i = InstIf inst ∧ InstEnv i = InstEnv inst ∧
       InstKey i = JobID job +:+ "[" +:+ join (@instance_values r1 job i) "," +:+ "]" ∧
       DisplayName i = DisplayName inst +:+ " (" +:+ join (@instance_values r1 job i) ", " +:+ ")") ∧
    ((∀ a vs, Matrix job !! a = Some vs → NoDup vs ∧ Forall (fun v => byte_in ","%char v = false) vs) →
       NoDup (map InstKey insts)).
Proof.
  intros Hm Hne Hfree. eexists. split; [by apply (@expandMatrix_instances r1)|].
  assert (@matrix_axes r2 job = @matrix_axes r1 job) as Hax by apply axes_order_irrelevant.
  split_and!.
  - rewrite (@expandMatrix_instances r2) by done. by rewrite Hax.
  - intros m. rewrite (@assignment_map r1). split.
    + intros (c & Hc & <-). eexists. split; [apply in_map_elem; by exists c|done].
    + intros (i & (c & -> & Hc)%in_map_elem & Hi). simpl in Hi. injection Hi as <-. by exists c.
  - by rewrite length_map, assignments_length.
  - intros i (c & -> & [Hf _]%assignments_elem)%in_map_elem. unfold instance_values. simpl.
    rewrite <-Hf, values_of_assignment; [done|]. rewrite Hf. apply matrix_axes_NoDup.
  - intros Hvals. rewrite map_map. simpl. change @map with @list_fmap at 1.
    apply NoDup_fmap_2_strong.
    + intros c c' [Hf Hc]%assignments_elem [Hf' Hc']%assignments_elem Heq.
      apply app_str_inj_l, (app_str_inj_l "["), app_str_inj_r in Heq.
      apply map_fst_snd_inj; [congruence|]. apply join_comma_inj; [|..|done].
      { rewrite !length_map. by rewrite <-(length_map fst c), Hf, <-Hf', length_map. }
      all: apply Forall_forall; intros v ([a v'] & -> & Hin)%in_map_elem; simpl.
      * specialize (Hc a v' Hin). destruct (Matrix job !! a) as [vs|] eqn:E; simpl in Hc; [|set_solver].
        destruct (Hvals a vs E) as [_ HF]. rewrite Forall_forall in HF. auto.
      * specialize (Hc' a v' Hin). destruct (Matrix job !! a) as [vs|] eqn:E; simpl in Hc'; [|set_solver].
        destruct (Hvals a vs E) as [_ HF]. rewrite Forall_forall in HF. auto.
    + apply assignments_NoDup. intros a [vs Hvs]%matrix_axes_elem. rewrite Hvs. simpl.
      by destruct (Hvals a vs Hvs).
Qed.

Definition other_order : MapRange :=
  {| range_map := fun _ m => reverse (map_to_list m);
     range_map_perm := fun _ m => reverse_Permutation (map_to_list m) |}.

Definition demo_matrix_job : Job := {|
  JobID := "test"; JobPos := {| PosLine := 1; PosColumn := 1 |}; JobName := ""; RunsOn := "linux";
  JobIf := ""; Needs := []; Matrix := {[ "os" := ["linux"; "mac"]; "go" := ["1.26"; "1.27"] ]};
  JobEnv := ∅; Steps := [] |}.

Definition demo_inst : JobInstance := {|
  InstKey := "test"; DisplayName := "test"; InstRunnerClass := "linux"; InstIf := "";
  InstDependsOn := []; InstMatrix := None; InstEnv := ∅; InstSteps := [] |}.

Lemma demo_matrix_cases (P : string → list string → Prop) :
  P "os" ["linux"; "mac"] → P "go" ["1.26"; "1.27"] →
  ∀ a vs, Matrix demo_matrix_job !! a = Some vs → P a vs.
Proof.
  intros H1 H2 a vs Ha. simpl in Ha. rewrite lookup_insert in Ha.
  case_decide; [subst; by injection Ha as <-|]. rewrite lookup_singleton in Ha.
  case_decide; [subst; by injection Ha as <-|done].
Defined.

Lemma matrix_instances_are_all_assignments_witness :
  ∃ insts, @expandMatrix some_order demo_matrix_job demo_inst = Ok insts ∧
    @expandMatrix other_order demo_matrix_job demo_inst = Ok insts ∧
    length insts = 4 ∧ NoDup (map InstKey insts).
Proof.
  destruct (matrix_instances_are_all_assignments some_order other_order demo_matrix_job demo_inst)
    as (insts & E1 & E2 & _ & Hlen & _ & Hnd).
  - intros E. apply (f_equal (fun m => m !! "os")) in E. vm_compute in E. discriminate E.
  - apply demo_matrix_cases; discriminate.
  - intros a [vs Hvs]. revert a vs Hvs. apply demo_matrix_cases; reflexivity.
  - exists insts. split; [exact E1|]. split; [exact E2|]. split.
    + rewrite Hlen. vm_compute. reflexivity.
    + apply Hnd. apply demo_matrix_cases; (split; [apply (bool_decide_unpack _); vm_compute; exact I|]);
        repeat constructor.
Defined.

(** Instance keys contain the values only; two assignments with the same values
    joined by commas share a key. *)
Example comma_values_collide :
  ∃ insts, @expandMatrix some_order
    {| JobID := "t"; JobPos := {| PosLine := 1; PosColumn := 1 |}; JobName := ""; RunsOn := "linux";
       JobIf := ""; Needs := []; Matrix := {[ "a" := ["x"; "x,y"]; "b" := ["y,z"; "z"] ]};
       JobEnv := ∅; Steps := [] |} demo_inst = Ok insts ∧
    map InstKey insts = ["t[x,y,z]"; "t[x,z]"; "t[x,y,y,z]"; "t[x,y,z]"].
Proof. eexists. split; vm_compute; reflexivity. Qed.
