(* ===== verification/CompilerTheorems.v ===== *)
(** * What the compiler hands to the scheduler

    Every instance of a compiled workflow comes from one of its jobs, has at
    least one step, each step being a script, a builtin call or a foreign
    action, and every job intent passes the scheduler's validation.  The edit
    distance of its suggestions: [editDistance] fills a table row by row; the
    specification is the cost of the cheapest edit script. *)

From Stdlib Require Import Ascii.
From S2P Require Import Prelude GoStrings RunModel SchedulerPort Scheduler Syntax SyntaxTheorems Compiler TopoSort.

(** [edits a b n]: a script of [n] insertions, deletions and substitutions
    turns [a] into [b]. *)
Inductive edits : list ascii → list ascii → nat → Prop :=
  | ed_nil : edits [] [] 0
  | ed_keep c a b n : edits a b n → edits (c :: a) (c :: b) n
  | ed_subst c d a b n : edits a b n → edits (c :: a) (d :: b) (S n)
  | ed_del c a b n : edits a b n → edits (c :: a) b (S n)
  | ed_ins d a b n : edits a b n → edits a (d :: b) (S n).

#[export] Hint Constructors edits : forgelet.

(** The cost of the cheapest script. *)
Definition dist (a b : list ascii) (n : nat) : Prop :=
  edits a b n ∧ ∀ m, edits a b m → n ≤ m.

Lemma edits_app a b n a' b' m : edits a b n → edits a' b' m → edits (a ++ a') (b ++ b') (n + m).
Proof. induction 1; simpl; auto with forgelet. Qed.

Lemma edits_rev a b n : edits a b n → edits (rev a) (rev b) n.
Proof.
  induction 1 as [|c a b n _ IH|c d a b n _ IH|c a b n _ IH|d a b n _ IH]; simpl; [constructor|..].
  - rewrite <-(Nat.add_0_r n). apply edits_app; auto with forgelet.
  - rewrite <-Nat.add_1_r. apply edits_app; auto with forgelet.
  - rewrite <-(app_nil_r (rev b)), <-Nat.add_1_r. apply edits_app; auto with forgelet.
  - rewrite <-(app_nil_r (rev a)), <-Nat.add_1_r. apply edits_app; auto with forgelet.
Qed.

(** The last operation of a script. *)
Lemma edits_snoc_inv a x b y n :
  edits (a ++ [x]) (b ++ [y]) n →
  (∃ m, n = S m ∧ edits a (b ++ [y]) m) ∨ (∃ m, n = S m ∧ edits (a ++ [x]) b m) ∨
  (∃ m, edits a b m ∧ m + (if bool_decide (x = y) then 0 else 1) ≤ n).
Proof.
  intros He. apply edits_rev in He. rewrite !rev_app_distr in He. simpl in He.
  inversion He as [|c a' b' n' H|c d a' b' n' H|c a' b' n' H|d a' b' n' H]; subst;
    apply edits_rev in H; simpl in H; rewrite ?rev_app_distr, ?rev_involutive in H; simpl in H.
  - right; right. exists n. rewrite bool_decide_eq_true_2 by done. split; [done|lia].
  - right; right. exists n'. split; [done|]. case_bool_decide; lia.
  - left. by exists n'.
  - right; left. by exists n'.
Qed.

Lemma edits_nil_l b n : edits [] b n → length b ≤ n.
Proof. revert n. induction b as [|y b IH]; intros n He; inversion He; subst; simpl; [lia|]. apply le_n_S. auto. Qed.

Lemma edits_nil_r a n : edits a [] n → length a ≤ n.
Proof. revert n. induction a as [|x a IH]; intros n He; inversion He; subst; simpl; [lia|]. apply le_n_S. auto. Qed.

Lemma dist_nil_l b : dist [] b (length b).
Proof. split; [|apply edits_nil_l]. induction b; simpl; auto with forgelet. Qed.

Lemma dist_nil_r a : dist a [] (length a).
Proof. split; [|apply edits_nil_r]. induction a; simpl; auto with forgelet. Qed.

Lemma min3_spec a b c : min3 a b c = Nat.min a (Nat.min b c).
Proof.
  unfold min3. destruct (Nat.ltb_spec b a); [destruct (Nat.ltb_spec c b)|destruct (Nat.ltb_spec c a)]; lia.
Qed.

(** The recurrence of the table. *)
Lemma dist_snoc a x b y up left diag :
  dist a (b ++ [y]) up → dist (a ++ [x]) b left → dist a b diag →
  dist (a ++ [x]) (b ++ [y])
    (min3 (up + 1) (left + 1) (diag + if bool_decide (x = y) then 0 else 1)).
Proof.
  intros [Hup Mup] [Hl Ml] [Hd Md]. rewrite min3_spec. split.
  - assert (edits (a ++ [x]) (b ++ [y]) (up + 1)) as E1.
    { rewrite <-(app_nil_r (b ++ [y])). apply edits_app; auto with forgelet. }
    assert (edits (a ++ [x]) (b ++ [y]) (left + 1)) as E2.
    { rewrite <-(app_nil_r (a ++ [x])). apply edits_app; auto with forgelet. }
    assert (edits (a ++ [x]) (b ++ [y]) (diag + if bool_decide (x = y) then 0 else 1)) as E3.
    { apply edits_app; [done|]. case_bool_decide; subst; auto with forgelet. }
    destruct (Nat.min_dec (left + 1) (diag + if bool_decide (x = y) then 0 else 1)) as [-> | ->];
      [destruct (Nat.min_dec (up + 1) (left + 1)) as [-> | ->]
      |destruct (Nat.min_dec (up + 1) (diag + if bool_decide (x = y) then 0 else 1)) as [-> | ->]];
      done.
  - intros m [(m' & -> & H)|[(m' & -> & H)|(m' & H & Hle)]]%edits_snoc_inv.
    + specialize (Mup _ H). lia.
    + specialize (Ml _ H). lia.
    + specialize (Md _ H). lia.
Qed.

(** [row_of p q b l]: [l] holds the distances from [p] to [q] extended by each
    prefix of [b]. *)
Fixpoint row_of (p q : list ascii) (b : string) (l : list nat) : Prop :=
  match b, l with
  | "", [n] => dist p q n
  | String c b', n :: l' => dist p q n ∧ row_of p (q ++ [c]) b' l'
  | _, _ => False
  end.

Lemma row_of_head p q b l : row_of p q b l → ∃ n l', l = n :: l' ∧ dist p q n.
Proof. destruct b, l as [|n [|]]; simpl; intros; try done; naive_solver. Qed.

Lemma edit_row_ok ca p q b prev left :
  row_of p q b prev → dist (p ++ [ca]) q left →
  row_of (p ++ [ca]) q b (left :: edit_row ca b prev left).
Proof.
  revert q prev left. induction b as [|cb b IH]; intros q prev left Hp Hl.
  { by destruct prev as [|? [|]]. }
  destruct prev as [|diag prev]; [done|]. destruct Hp as [Hd Hp].
  destruct (row_of_head _ _ _ _ Hp) as (up & l' & -> & Hup). cbn [edit_row row_of].
  split; [done|]. apply IH; [done|]. by apply dist_snoc.
Qed.

Lemma first_row q b : row_of [] q b (seq (length q) (S (String.length b))).
Proof.
  revert q. induction b as [|c b IH]; intros q; [apply dist_nil_l|].
  cbn [String.length seq row_of]. split; [apply dist_nil_l|].
  specialize (IH (q ++ [c])). rewrite length_app in IH. simpl in IH. by rewrite Nat.add_1_r in IH.
Qed.

Lemma edit_rows_ok a b p prev :
  row_of p [] b prev →
  row_of (p ++ String.list_ascii_of_string a) [] b (edit_rows a b (S (length p)) prev).
Proof.
  revert p prev. induction a as [|ca a IH]; intros p prev Hp; simpl; [by rewrite app_nil_r|].
  pose proof (IH (p ++ [ca]) (S (length p) :: edit_row ca b prev (S (length p)))) as IH'.
  rewrite length_app in IH'. simpl in IH'. rewrite Nat.add_1_r, <-app_assoc in IH'. apply IH'.
  apply edit_row_ok; [done|]. pose proof (dist_nil_r (p ++ [ca])) as Hd.
  rewrite length_app in Hd. simpl in Hd. by rewrite Nat.add_1_r in Hd.
Qed.

Lemma row_last p q b l :
  row_of p q b l → dist p (q ++ String.list_ascii_of_string b) (List.nth (String.length b) l 0).
Proof.
  revert q l. induction b as [|c b IH]; intros q [|n l] Hr; simpl in Hr; try done.
  - destruct l; [|done]. by rewrite app_nil_r.
  - destruct Hr as [_ Hr]. simpl. specialize (IH (q ++ [c]) l Hr).
    by rewrite <-app_assoc in IH.
Qed.

(** [editDistance] is the Levenshtein distance: some script of exactly that
    many single-byte edits turns [a] into [b], and no script is shorter. *)
Theorem editDistance_is_minimal a b :
  edits (String.list_ascii_of_string a) (String.list_ascii_of_string b) (editDistance a b) ∧
  ∀ n, edits (String.list_ascii_of_string a) (String.list_ascii_of_string b) n →
       editDistance a b ≤ n.
Proof.
  apply (row_last (String.list_ascii_of_string a) [] b), (edit_rows_ok a b []), (first_row []).
Qed.

Example checkout_typo : editDistance "actions/chekout" "actions/checkout" = 1.
Proof. reflexivity. Qed.

(** ** Compiled workflows *)

(** A compiled step is exactly one of the three kinds. *)
Definition step_shape `{Unicode} (s : CStep) : Prop :=
  (trim_space (CRun s) ≠ "" ∧ CUses s = None ∧ CRawUses s = "") ∨
  (CRun s = "" ∧ is_Some (CUses s) ∧ CRawUses s = "") ∨
  (CRun s = "" ∧ CUses s = None ∧ CRawUses s ≠ "").

(** The instances of a job. *)
Definition instance_of `{Unicode} (j : Job) (i : JobInstance) : Prop :=
  (InstKey i = JobID j ∨ has_prefix (InstKey i) (JobID j +:+ "[") = true) ∧
  InstDependsOn i = Needs j ∧ InstRunnerClass i = RunsOn j ∧ trim_space (RunsOn j) ≠ "" ∧
  InstIf i = JobIf j ∧ length (InstSteps i) = length (Steps j) ∧ InstSteps i ≠ [] ∧
  Forall step_shape (InstSteps i).

Section compile.
Context `{Unicode} `{MapRange}.

Lemma compileStep_shape jobID i st ws c ws' :
  compileStep jobID i st ws = Ok (c, ws') → step_shape c.
Proof.
  unfold compileStep, step_shape. destruct (_ && _) eqn:E; [done|].
  destruct (bool_decide (StUses st ≠ "")) eqn:Hu; breflect.
  - destruct (compileBuiltin jobID i st) as [[call w]|e|]; [|..|done].
    + intros [= <- <-]. right; left. simpl. split_and!; [done|by eexists|done].
    + destruct (contains e _); [done|]. destruct (contains e _); [|done].
      intros [= <- <-]. by right; right.
  - apply dec_stable in Hu. rewrite Hu in E. rewrite andb_true_r in E. breflect.
    intros [= <- <-]. by left.
Qed.

Lemma compileSteps_shape jobID i sts out ws cs ws' :
  Forall step_shape out → compileSteps jobID i sts out ws = Ok (cs, ws') →
  Forall step_shape cs ∧ length cs = length out + length sts.
Proof.
  revert i out ws. induction sts as [|st sts IH]; intros i out ws Hout; simpl.
  { intros [= <- <-]. split; [done|lia]. }
  destruct (compileStep jobID i st ws) as [[c w]|e|] eqn:E; [|done..]. intros Hc.
  apply IH in Hc as [HF Hl].
  - split; [done|]. rewrite Hl, length_app. simpl. lia.
  - apply Forall_app. split; [done|]. constructor; [|done]. by eapply compileStep_shape.
Qed.

(** The matrix changes only the key, the name and the assignment. *)
Lemma expandMatrix_fields job inst insts :
  InstKey inst = JobID job → expandMatrix job inst = Ok insts → insts ≠ [] ∧
  ∀ i, i ∈ insts →
    (InstKey i = JobID job ∨ has_prefix (InstKey i) (JobID job +:+ "[") = true) ∧
    InstDependsOn i = InstDependsOn inst ∧ InstRunnerClass i = InstRunnerClass inst ∧
    InstIf i = InstIf inst ∧ InstSteps i = InstSteps inst.
Proof.
  intros Hk. unfold expandMatrix. case_bool_decide as Hs.
  { intros [= <-]. split; [done|]. intros i ->%list_elem_of_singleton. simpl. auto. }
  destruct (find _ _) eqn:Ef; [done|]. intros [= <-]. split.
  - assert (∀ axes cs, (∀ a, a ∈ axes → default [] (Matrix job !! a) ≠ []) → cs ≠ [] →
      fold_left (fun combos axis => add_axis combos axis (default [] (Matrix job !! axis))) axes cs
        ≠ []) as Hne.
    { intros axes. induction axes as [|a axes IH]; intros cs Hall Hcs; simpl; [done|].
      apply IH; [set_solver|]. unfold add_axis. destruct cs as [|c cs]; [done|]. simpl.
      specialize (Hall a ltac:(set_solver)). by destruct (default [] (Matrix job !! a)). }
    intros Hz. apply map_eq_nil in Hz. revert Hz. apply Hne; [|done].
    intros a Ha. apply sort_by_elem in Ha. change @map with @list_fmap in Ha.
    apply list_elem_of_fmap in Ha as ([k vs] & -> & Hin). pose proof Hin as Hin'.
    apply range_map_elem in Hin'. simpl. rewrite Hin'. simpl. intros ->.
    apply list_elem_of_In in Hin. pose proof (find_none _ _ Ef _ Hin) as Hn. done.
  - intros i Hi. change @map with @list_fmap in Hi. apply list_elem_of_fmap in Hi as (c & -> & _).
    unfold combo_instance. destruct (read_combo c) as [m parts]. simpl. split_and!; try done.
    right. apply has_prefix_spec. exists (join parts "," +:+ "]"). by rewrite app_str_assoc.
Qed.

Lemma compileJob_instances job ws insts ws' :
  compileJob job ws = Ok (insts, ws') → insts ≠ [] ∧ ∀ i, i ∈ insts → instance_of job i.
Proof.
  unfold compileJob. case_bool_decide as Hr; [done|]. case_bool_decide as Hst; [done|].
  destruct (compileSteps _ _ _ _ _) as [[steps w]|e|] eqn:Es; [|done..].
  destruct (expandMatrix job _) as [is_|e|] eqn:Ex; [|done..]. intros [= <- <-].
  apply expandMatrix_fields in Ex as [Hne Hall]; [|done]. split; [done|]. intros i Hi.
  destruct (Hall i Hi) as (Hk & Hd & Hrc & Hif & Hsteps). simpl in *.
  apply compileSteps_shape in Es as [HF Hl]; [|constructor]. simpl in Hl.
  unfold instance_of. rewrite Hsteps. split_and!; try done. intros ->. by destruct (Steps job).
Qed.

Lemma compileJobs_instances jobs out ws insts ws' :
  compileJobs jobs out ws = Ok (insts, ws') →
  (∀ i, i ∈ insts → i ∈ out ∨ ∃ j, j ∈ jobs ∧ instance_of j i) ∧
  (∀ j, j ∈ jobs → ∃ i, i ∈ insts ∧ instance_of j i) ∧ (∀ i, i ∈ out → i ∈ insts).
Proof.
  revert out ws. induction jobs as [|job jobs IH]; intros out ws; simpl.
  { intros [= <- <-]. split_and!; [auto|set_solver|done]. }
  destruct (compileJob job ws) as [[is_ w]|e|] eqn:Ej; [|done..]. intros Hc.
  apply compileJob_instances in Ej as [Hne Hall]. apply IH in Hc as (H1 & H2 & H3). split_and!.
  - intros i Hi. destruct (H1 i Hi) as [[Hin|Hin]%elem_of_app|(j & Hj & Hij)]; [by left|right..].
    + exists job. split; [set_solver|auto].
    + exists j. split; [set_solver|done].
  - intros j [->|Hj]%elem_of_cons; [|auto]. destruct is_ as [|i is_]; [done|].
    exists i. split; [apply H3; set_solver|apply Hall; set_solver].
  - intros i Hi. apply H3. set_solver.
Qed.
End compile.

(** An identifier is not blank, nor is a key that starts with one. *)
Lemma ident_start_spec c : ident_start c = true → ascii_byte c = true ∧ is_space c = false.
Proof. destruct c as [[] [] [] [] [] [] [] []]; vm_compute; auto. Qed.

Lemma key_not_blank `{UnicodeLaws} id key :
  isIdentifier id = true → key = id ∨ has_prefix key (id +:+ "[") = true → trim_space key ≠ "".
Proof.
  intros Hid Hk. destruct id as [|c id]; [done|]. simpl in Hid. apply andb_true_iff in Hid as [Hc _].
  apply ident_start_spec in Hc as [Ha Hs].
  assert (∃ t, key = String c t) as [t ->].
  { destruct Hk as [->|[t ->]%has_prefix_spec]; by eexists. }
  apply (trim_space_keeps _ c); [|done..]. simpl. by rewrite bool_decide_eq_true_2.
Qed.

Lemma firstInvalid_None `{Unicode} l : (∀ j, j ∈ l → Validate j = None) → firstInvalid l = None.
Proof.
  induction l as [|j l IH]; intros Hall; simpl; [done|].
  rewrite (Hall j) by set_solver. apply IH. set_solver.
Qed.

(** C34. From file to intents: the workflow parsed from a document compiles to
    instances that each belong to one of its jobs (key, needs, runner class,
    condition, one compiled step of a definite kind per step), every job has
    at least one, and the scheduler's validation accepts all their intents. *)
Theorem compiled_workflow_is_accepted `{UnicodeLaws} `{MapRange} file unmarshal data wf c :
  Parse file unmarshal data = Ok wf → Compile (Some wf) = Ok c →
  (∀ i, i ∈ CompJobs c → ∃ j, j ∈ Jobs wf ∧ instance_of j i) ∧
  (∀ j, j ∈ Jobs wf → ∃ i, i ∈ CompJobs c ∧ instance_of j i) ∧
  JobIntents c ≠ [] ∧ firstInvalid (JobIntents c) = None.
Proof.
  intros Hp Hc. apply parsed_job_ids in Hp as Hjobs.
  unfold Compile in Hc. case_bool_decide as Hne; [done|].
  pose proof (topoSort_cases (Jobs wf)) as Ht. destruct (topoSort (Jobs wf)) as [l|e|]; [|done..].
  destruct Ht as (_ & Hperm & _).
  destruct (compileJobs l [] []) as [[insts ws]|e|] eqn:Ec; [|done..]. injection Hc as <-.
  apply compileJobs_instances in Ec as (Hfrom & Heach & _). simpl.
  assert (∀ i, i ∈ insts → ∃ j, j ∈ Jobs wf ∧ instance_of j i) as Hinst.
  { intros i Hi. destruct (Hfrom i Hi) as [?|(j & Hj & Hij)]; [set_solver|].
    exists j. by rewrite <-Hperm. }
  assert (∀ j, j ∈ Jobs wf → ∃ i, i ∈ insts ∧ instance_of j i) as Hjob.
  { intros j. rewrite <-Hperm. apply Heach. }
  split_and!; [done..| |].
  - intros Hz. apply map_eq_nil in Hz. simpl in Hz. subst insts.
    destruct (Jobs wf) as [|j js]; [done|]. destruct (Hjob j) as (i & Hi & _); set_solver.
  - apply firstInvalid_None. intros x Hx. change @map with @list_fmap in Hx.
    apply list_elem_of_fmap in Hx as (i & -> & Hi). destruct (Hinst i Hi) as (j & Hj & Hij).
    destruct Hij as (Hk & _ & Hrc & Hr & _). rewrite Forall_forall in Hjobs.
    specialize (Hjobs j Hj) as Hid. unfold Validate. simpl. rewrite Hrc.
    rewrite !bool_decide_eq_false_2; [done|done|by eapply key_not_blank].
Qed.

Definition demo_compiled : outcome CompileError Compiled :=
  @Compile ascii_unicode some_order (Some demo_workflow).

Lemma compiled_workflow_is_accepted_witness :
  ∃ c, demo_compiled = Ok c ∧ @firstInvalid ascii_unicode (JobIntents c) = None.
Proof.
  destruct demo_compiled as [c|e|] eqn:E; [|by vm_compute in E..].
  destruct (@compiled_workflow_is_accepted ascii_unicode ascii_unicode_laws some_order "ci.yml"
    (fun _ => Ok demo_workflow_node) "" demo_workflow c) as (_ & _ & _ & Hv).
  - reflexivity.
  - exact E.
  - exists c. split; [reflexivity|exact Hv].
Defined.

(** A job that needs a matrix job depends on a key no instance has: [deploy]
    needs [test], whose instances are [test[a]] and [test[b]]. *)
Example needs_of_matrix_job_dangle :
  ∃ c, demo_compiled = Ok c ∧
    map (fun i => (IJobKey i, IDependsOn i)) (JobIntents c) =
      [("test[a]", []); ("test[b]", []); ("deploy", ["test"])].
Proof. eexists. split; vm_compute; reflexivity. Qed.
