(* ===== verification/GoFloat.v ===== *)
(** * Go's float64, as far as the expression engine uses it

    IEEE 754 binary64 values are the [spec_float]s of the standard library.
    Decimal text is converted by exact rational arithmetic and one rounding,
    as [strconv.ParseFloat] does.  The class [FloatText] stands for what is not
    written out: hexadecimal and underscored literals, and the shortest
    formatting of non-integral numbers. *)

From Stdlib Require Import Ascii Floats.SpecFloat.
From stdpp Require Import pretty.
From S2P Require Import Prelude GoStrings.

Local Open Scope Z_scope.

Abbreviation float64 := spec_float (only parsing).

Definition f_prec : Z := 53.
Definition f_emax : Z := 1024.

Definition f_zero : spec_float := S754_zero false.
Definition f_one : spec_float := binary_normalize f_prec f_emax 1 0 false.

Definition f_eqb (x y : spec_float) : bool := SFeqb x y.
Definition f_ltb (x y : spec_float) : bool := SFltb x y.

Definition is_nan (x : spec_float) : bool := match x with S754_nan => true | _ => false end.
Definition is_inf (x : spec_float) : bool := match x with S754_infinity _ => true | _ => false end.

Definition with_sign (neg : bool) (z : Z) : Z := if neg then - z else z.

(** The integer value of a float, truncated towards zero; [None] for NaN and
    infinities. *)
Definition trunc_Z (x : spec_float) : option Z :=
  match x with
  | S754_zero _ => Some 0
  | S754_finite s m e =>
      Some (with_sign s (if Z.leb 0 e then Zpos m * 2 ^ e else Zpos m / 2 ^ (- e)))
  | _ => None
  end.

(** Whether [f == math.Trunc(f)]. *)
Definition is_integral (x : spec_float) : bool :=
  match x with
  | S754_zero _ => true
  | S754_finite _ m e => Z.leb 0 e || Z.eqb (Zpos m mod 2 ^ (- e)) 0
  | S754_infinity _ => true
  | S754_nan => false
  end.

(** ** Decimal text *)

(** [(-1)^neg * m * 10^e], rounded once; [None] on overflow ([ErrRange]). *)
Definition of_decimal (neg : bool) (m : Z) (e : Z) : option spec_float :=
  let r :=
    match m with
    | Zpos _ =>
        if Z.leb 0 e then binary_normalize f_prec f_emax (with_sign neg (m * 10 ^ e)) 0 neg
        else
          let '(mz, ez, loc) := SFdiv_core_binary f_prec f_emax m 0 (10 ^ (- e)) 0 in
          binary_round_aux f_prec f_emax neg mz ez loc
    | _ => S754_zero neg
    end in
  if is_inf r then None else Some r.

Definition digit_value (c : ascii) : Z := Z.of_N (byte_code c) - 48.

(** The digits at the front: their value and count, and the rest. *)
Fixpoint read_digits (acc : Z) (n : nat) (s : string) : Z * nat * string :=
  match s with
  | String c s' =>
      if is_digit c then read_digits (acc * 10 + digit_value c) (S n) s' else (acc, n, s)
  | "" => (acc, n, "")
  end.

Class FloatText := {
  parse_other : string → option spec_float;
  format_g : spec_float → string
}.

Definition split_sign (s : string) : bool * bool * string :=
  match s with
  | String "+" s' => (true, false, s')
  | String "-" s' => (true, true, s')
  | _ => (false, false, s)
  end%char.

(** The exponent part; [None] is a syntax error. *)
Definition read_exponent (s : string) : option Z :=
  match s with
  | "" => Some 0
  | String c s' =>
      if bool_decide (lower_byte c = "e"%char) then
        let '(_, neg, ds) := split_sign s' in
        let '(e, n, rest) := read_digits 0 0 ds in
        if bool_decide (n = 0%nat) || bool_decide (rest ≠ "") then None else Some (with_sign neg e)
      else None
  end.

(** [strconv.ParseFloat(s, 64)]; [None] is an error. *)
Definition ParseFloat `{FloatText} (s : string) : option spec_float :=
  let '(signed, neg, body) := split_sign s in
  let lower := map_bytes lower_byte body in
  if bool_decide (lower = "inf") || bool_decide (lower = "infinity") then Some (S754_infinity neg)
  else if bool_decide (lower = "nan") && negb signed then Some S754_nan
  else if has_prefix lower "0x" || byte_in "_"%char s then parse_other s
  else
    let '(m1, n1, r1) := read_digits 0 0 body in
    let '(m2, n2, r2) :=
      match r1 with String "." r => read_digits m1 0 r | _ => (m1, 0%nat, r1) end%char in
    if bool_decide (n1 = 0%nat) && bool_decide (n2 = 0%nat) then None
    else e ← read_exponent r2; of_decimal neg m2 (e - Z.of_nat n2).

(** [FormatNumber] *)
Definition FormatNumber `{FloatText} (f : spec_float) : string :=
  if is_nan f then "NaN"
  else if is_inf f then "Infinity"
  else match trunc_Z f with
       | Some z => if is_integral f && Z.ltb (Z.abs z) (10 ^ 15) then pretty z else format_g f
       | None => format_g f
       end.

Definition demo_float_text : FloatText := {| parse_other := fun _ => None; format_g := fun _ => "?" |}.

(** ** Sanity checks *)

Example parse_half : @ParseFloat demo_float_text "0.5" = Some (S754_finite false 4503599627370496 (-53)).
Proof. vm_compute. done. Qed.

(** 0.1 rounds to the float every IEEE implementation prints as 0x1.999999999999ap-4. *)
Example parse_tenth :
  @ParseFloat demo_float_text "0.1" = Some (S754_finite false 7205759403792794 (-56)).
Proof. vm_compute. done. Qed.

Example parse_42 : FormatNumber (H := demo_float_text) <$> @ParseFloat demo_float_text "42.0" = Some "42".
Proof. vm_compute. done. Qed.

Example parse_range : @ParseFloat demo_float_text "1e400" = None.
Proof. vm_compute. done. Qed.
