(* ===== verification/ExprSyntax.v ===== *)
(** * Expression values, lexer and parser (internal/workflow/expression)

    The tagged values of [value.go], the lexer of [lexer.go] and the
    recursive-descent parser of [parser.go].  The lexer's state is the text
    still to be read with the position; the parser's state is the list of
    tokens still to be read, which ends with [tkEOF].  An object is the list of
    its bindings in the order in which Go would range over the map. *)

From Stdlib Require Import Ascii Floats.SpecFloat.
From S2P Require Import Prelude GoStrings GoFloat.

(** ** Values *)

Inductive Value :=
  | Null
  | BoolOf (b : bool)
  | NumOf (f : spec_float)
  | StrOf (s : string)
  | ArrOf (vs : list Value)
  | ObjOf (m : list (string * Value)).

Definition Truthy (v : Value) : bool :=
  match v with
  | Null => false
  | BoolOf b => b
  | NumOf f => negb (f_eqb f f_zero) && negb (is_nan f)
  | StrOf s => bool_decide (s ≠ "")
  | ArrOf _ | ObjOf _ => true
  end.

Definition key_less (a b : string * string) : bool := str_lt (fst a) (fst b).

(** [Value.String] *)
Fixpoint render `{FloatText} (v : Value) : string :=
  match v with
  | Null => ""
  | BoolOf true => "true"
  | BoolOf false => "false"
  | NumOf f => FormatNumber f
  | StrOf s => s
  | ArrOf vs => join (map render vs) ","
  | ObjOf m =>
      join (map (fun p => fst p +:+ "=" +:+ snd p)
              (sort_by key_less (map (fun p => (fst p, render (snd p))) m))) ","
  end.

(** ** Tokens *)

Inductive Tok :=
  | TEOF
  | TIdent (text : string)
  | TNumber (num : spec_float) (text : string)
  | TString (str : string)
  | TPunct (text : string).

(** A token with its byte offset, line and column. *)
Record Token := { tok : Tok; tstart : Z; tline : Z; tcol : Z }.

Record ParseError := { PEOffset : Z; PELine : Z; PEColumn : Z; PEMsg : string }.

Record Lexer := { src : string; lpos : Z; line : Z; col : Z }.

Definition newLexer (s : string) : Lexer := {| src := s; lpos := 0; line := 1; col := 1 |}.

(** [advance] over the byte [c], leaving [rest]. *)
Definition advance (c : ascii) (rest : string) (l : Lexer) : Lexer :=
  if bool_decide (byte_code c = 10%N)
  then {| src := rest; lpos := lpos l + 1; line := line l + 1; col := 1 |}
  else {| src := rest; lpos := lpos l + 1; line := line l; col := col l + 1 |}.

Definition here (l : Lexer) (t : Tok) : Token :=
  {| tok := t; tstart := lpos l; tline := line l; tcol := col l |}.

Definition errf (l : Lexer) (msg : string) : ParseError :=
  {| PEOffset := lpos l; PELine := line l; PEColumn := col l; PEMsg := msg |}.

Definition isIdentStart (c : ascii) : bool := is_lower c || is_upper c || N.eqb (byte_code c) 95.
Definition isIdentPart (c : ascii) : bool := isIdentStart c || is_digit c || N.eqb (byte_code c) 45.

Definition is_blank (c : ascii) : bool :=
  N.eqb (byte_code c) 32 || N.eqb (byte_code c) 9 || N.eqb (byte_code c) 13 || N.eqb (byte_code c) 10.

(** The scanning loops, each on the text still to be read. *)
Fixpoint skip_blanks (s : string) (l : Lexer) : Lexer :=
  match s with
  | String c s' => if is_blank c then skip_blanks s' (advance c s' l) else l
  | "" => l
  end.

Fixpoint scan_ident (s : string) (l : Lexer) : string * Lexer :=
  match s with
  | String c s' =>
      if isIdentPart c then let '(t, l') := scan_ident s' (advance c s' l) in (String c t, l')
      else ("", l)
  | "" => ("", l)
  end.

Definition digit_next (s : string) : bool := match s with String c _ => is_digit c | "" => false end.

Fixpoint scan_number (hasDot : bool) (s : string) (l : Lexer) : string * Lexer :=
  match s with
  | String c s' =>
      if is_digit c then let '(t, l') := scan_number hasDot s' (advance c s' l) in (String c t, l')
      else if bool_decide (c = "."%char) && negb hasDot && digit_next s'
      then let '(t, l') := scan_number true s' (advance c s' l) in (String c t, l')
      else ("", l)
  | "" => ("", l)
  end.

(** The body of a string after the opening quote; [None]: unterminated.  The
    flag [quoted] is set after a quote that may be the first of a pair. *)
Fixpoint scan_string (quoted : bool) (s : string) (l : Lexer) : option (string * Lexer) :=
  match s with
  | "" => if quoted then Some ("", l) else None
  | String c s' =>
      if quoted then
        if bool_decide (c = "'"%char)
        then '(t, l') ← scan_string false s' (advance c s' l); Some (String c t, l')
        else Some ("", l)
      else if bool_decide (c = "'"%char) then scan_string true s' (advance c s' l)
      else '(t, l') ← scan_string false s' (advance c s' l); Some (String c t, l')
  end.

(** [string(c)] of a byte: the UTF-8 text of the code point. *)
Definition rune_string (c : ascii) : string :=
  if ascii_byte c then String c ""
  else byte_str (192 + byte_code c / 64) +:+ byte_str (128 + byte_code c mod 64).

Definition two_byte_ops : list string := ["&&"; "||"; "=="; "!="; "<="; ">="].
Definition one_byte_ops : list ascii :=
  ["!"; "<"; ">"; "."; "["; "]"; "("; ")"; ","]%char.

Section lexer.
Context `{Unicode} `{FloatText}.

Definition next_token (l0 : Lexer) : outcome ParseError (Token * Lexer) :=
  let l := skip_blanks (src l0) l0 in
  match src l with
  | "" => Ok (here l TEOF, l)
  | String c rest =>
      if isIdentStart c then
        let '(t, l') := scan_ident (src l) l in Ok (here l (TIdent t), l')
      else if is_digit c || (bool_decide (c = "-"%char) && digit_next rest) then
        let '(digits, l') :=
          if bool_decide (c = "-"%char)
          then let '(t, l') := scan_number false rest (advance c rest l) in (String c t, l')
          else scan_number false (src l) l in
        match ParseFloat digits with
        | Some num => Ok (here l (TNumber num digits), l')
        | None => Err (errf l ("bad number " +:+ quote digits))
        end
      else if bool_decide (c = "'"%char) then
        match scan_string false rest (advance c rest l) with
        | Some (str, l') => Ok (here l (TString str), l')
        | None => Err (errf l "unterminated string")
        end
      else
        match find (fun op => has_prefix (src l) op) two_byte_ops, rest with
        | Some op, String d rest' =>
            Ok (here l (TPunct op), advance d rest' (advance c rest l))
        | _, _ =>
            if bool_decide (c ∈ one_byte_ops)
            then Ok (here l (TPunct (String c "")), advance c rest l)
            else if bool_decide (byte_code c = 34%N)
            then Err (errf l "double-quoted strings are not supported; use single quotes")
            else if bool_decide (c ∈ ["+"; "-"; "*"; "/"; "%"]%char)
            then Err (errf l ("arithmetic operator " +:+ quote (rune_string c) +:+
                              " is not in the supported subset"))
            else Err (errf l ("unexpected character " +:+ quote (rune_string c)))
        end
  end.

(** [tokens]; every call but the last consumes a byte, so one more than the
    length of the text is fuel enough. *)
Fixpoint lex (fuel : nat) (l : Lexer) : outcome ParseError (list Token) :=
  match fuel with
  | O => Panic
  | S fuel' =>
      match next_token l with
      | Err e => Err e
      | Panic => Panic
      | Ok (t, l') =>
          match tok t with
          | TEOF => Ok [t]
          | _ => match lex fuel' l' with
                 | Ok ts => Ok (t :: ts)
                 | Err e => Err e
                 | Panic => Panic
                 end
          end
      end
  end.

Definition tokens (s : string) : outcome ParseError (list Token) :=
  lex (S (String.length s)) (newLexer s).

End lexer.

(** ** The parser *)

Inductive node :=
  | literalNode (v : Value)
  | identNode (name : string)
  | memberNode (obj prop : node)
  | unaryNode (op : string) (x : node)
  | binaryNode (op : string) (l r : node)
  | callNode (name : string) (args : list node).

Definition eof_token : Token := {| tok := TEOF; tstart := 0; tline := 0; tcol := 0 |}.

Definition cur (ts : list Token) : Token := match ts with t :: _ => t | [] => eof_token end.

(** [match]: the tokens after a punctuation mark. *)
Definition match_tok (text : string) (ts : list Token) : option (list Token) :=
  match ts with
  | t :: ts' => match tok t with
                | TPunct p => if bool_decide (p = text) then Some ts' else None
                | _ => None
                end
  | [] => None
  end.

Definition compare_ops : list string := ["=="; "!="; "<"; "<="; ">"; ">="].

Section parser.
Context `{Unicode}.

Definition describe (t : Tok) : string :=
  match t with
  | TEOF => "end of expression"
  | TIdent s => "identifier " +:+ quote s
  | TNumber _ s => "number " +:+ s
  | TString s => "string " +:+ quote s
  | TPunct s => quote s
  end.

Definition errAt (t : Token) (msg : string) : ParseError :=
  {| PEOffset := tstart t; PELine := tline t; PEColumn := tcol t; PEMsg := msg |}.

(** A parsing function: the node and the tokens left. *)
Definition parsed : Type := outcome ParseError (node * list Token).

(** The loops of [parseOr] and [parseAnd]: [sub] parses an operand. *)
Fixpoint binary_loop (fuel : nat) (sub : list Token → parsed) (op : string) (lhs : node)
    (ts : list Token) : parsed :=
  match fuel with
  | O => Panic
  | S fuel' =>
      match match_tok op ts with
      | None => Ok (lhs, ts)
      | Some ts' =>
          match sub ts' with
          | Ok (rhs, ts'') => binary_loop fuel' sub op (binaryNode op lhs rhs) ts''
          | Err e => Err e
          | Panic => Panic
          end
      end
  end.

(** The loop of [parseCompare]. *)
Fixpoint compare_loop (fuel : nat) (sub : list Token → parsed) (lhs : node)
    (ts : list Token) : parsed :=
  match fuel with
  | O => Panic
  | S fuel' =>
      match tok (cur ts), ts with
      | TPunct op, _ :: ts' =>
          if bool_decide (op ∈ compare_ops) then
            match sub ts' with
            | Ok (rhs, ts'') => compare_loop fuel' sub (binaryNode op lhs rhs) ts''
            | Err e => Err e
            | Panic => Panic
            end
          else Ok (lhs, ts)
      | _, _ => Ok (lhs, ts)
      end
  end.

(** The loop of [parsePostfix]: [prim] parses a primary, [expr] an index. *)
Fixpoint postfix_loop (fuel : nat) (prim expr : list Token → parsed) (x : node)
    (ts : list Token) : parsed :=
  match fuel with
  | O => Panic
  | S fuel' =>
      match match_tok "." ts with
      | Some ts' =>
          match prim ts' with
          | Err e => Err e
          | Panic => Panic
          | Ok (identNode name, ts'') =>
              postfix_loop fuel' prim expr (memberNode x (literalNode (StrOf name))) ts''
          | Ok (literalNode (NumOf f), ts'') =>
              postfix_loop fuel' prim expr (memberNode x (literalNode (NumOf f))) ts''
          | Ok (_, ts'') => Err (errAt (cur ts'') "expected property name after '.'")
          end
      | None =>
          match match_tok "[" ts with
          | Some ts' =>
              match expr ts' with
              | Err e => Err e
              | Panic => Panic
              | Ok (idx, ts'') =>
                  match match_tok "]" ts'' with
                  | None => Err (errAt (cur ts'') "expected ']'")
                  | Some ts''' => postfix_loop fuel' prim expr (memberNode x idx) ts'''
                  end
              end
          | None => Ok (x, ts)
          end
      end
  end.

(** The argument loop of [parsePrimary]. *)
Fixpoint args_loop (fuel : nat) (expr : list Token → parsed) (name : string) (args : list node)
    (ts : list Token) : parsed :=
  match fuel with
  | O => Panic
  | S fuel' =>
      match expr ts with
      | Err e => Err e
      | Panic => Panic
      | Ok (arg, ts') =>
          match match_tok "," ts' with
          | Some ts'' => args_loop fuel' expr name (args ++ [arg]) ts''
          | None =>
              match match_tok ")" ts' with
              | Some ts'' => Ok (callNode name (args ++ [arg]), ts'')
              | None => Err (errAt (cur ts') "expected ',' or ')' in argument list")
              end
          end
      end
  end.

(** [parseUnary] over a postfix parser. *)
Fixpoint unary_loop (postfix : list Token → parsed) (ts : list Token) : parsed :=
  match match_tok "!" ts, ts with
  | Some _, _ :: ts' =>
      match unary_loop postfix ts' with
      | Ok (x, ts'') => Ok (unaryNode "!" x, ts'')
      | Err e => Err e
      | Panic => Panic
      end
  | _, _ => postfix ts
  end.

(** [parsePrimary], with [expr] for the nested [parseOr]. *)
Definition primary (fuel : nat) (expr : list Token → parsed) (ts : list Token) : parsed :=
  let t := cur ts in
  let unexpected := Err (errAt t ("unexpected " +:+ describe (tok t))) in
  match tok t, ts with
  | TNumber f _, _ :: ts' => Ok (literalNode (NumOf f), ts')
  | TString s, _ :: ts' => Ok (literalNode (StrOf s), ts')
  | TIdent text, _ :: ts' =>
      if bool_decide (text = "null") then Ok (literalNode Null, ts')
      else if bool_decide (text = "true") then Ok (literalNode (BoolOf true), ts')
      else if bool_decide (text = "false") then Ok (literalNode (BoolOf false), ts')
      else match match_tok "(" ts' with
           | Some ts'' =>
               match match_tok ")" ts'' with
               | Some ts''' => Ok (callNode text [], ts''')
               | None => args_loop fuel expr text [] ts''
               end
           | None => Ok (identNode text, ts')
           end
  | TPunct p, _ :: ts' =>
      if bool_decide (p = "(") then
        match expr ts' with
        | Err e => Err e
        | Panic => Panic
        | Ok (inner, ts'') =>
            match match_tok ")" ts'' with
            | Some ts''' => Ok (inner, ts''')
            | None => Err (errAt (cur ts'') "expected ')'")
            end
        end
      else unexpected
  | _, _ => unexpected
  end.

(** The levels above, each over the one below. *)
Definition postfix (fuel : nat) (expr : list Token → parsed) (ts : list Token) : parsed :=
  match primary fuel expr ts with
  | Ok (x, ts') => postfix_loop fuel (primary fuel expr) expr x ts'
  | Err e => Err e
  | Panic => Panic
  end.

Definition unary (fuel : nat) (expr : list Token → parsed) (ts : list Token) : parsed :=
  unary_loop (postfix fuel expr) ts.

Definition comparison (fuel : nat) (expr : list Token → parsed) (ts : list Token) : parsed :=
  match unary fuel expr ts with
  | Ok (x, ts') => compare_loop fuel (unary fuel expr) x ts'
  | Err e => Err e
  | Panic => Panic
  end.

Definition conjunction (fuel : nat) (expr : list Token → parsed) (ts : list Token) : parsed :=
  match comparison fuel expr ts with
  | Ok (x, ts') => binary_loop fuel (comparison fuel expr) "&&" x ts'
  | Err e => Err e
  | Panic => Panic
  end.

(** [parseOr], the entry of the recursion; [fuel] bounds its depth and the
    iterations of the loops inside. *)
Fixpoint parseOr (fuel : nat) (ts : list Token) : parsed :=
  match fuel with
  | O => Panic
  | S fuel' =>
      match conjunction fuel' (parseOr fuel') ts with
      | Ok (x, ts') => binary_loop fuel' (conjunction fuel' (parseOr fuel')) "||" x ts'
      | Err e => Err e
      | Panic => Panic
      end
  end.

Definition parse_tokens (ts : list Token) : outcome ParseError node :=
  match parseOr (S (length ts)) ts with
  | Err e => Err e
  | Panic => Panic
  | Ok (n, rest) =>
      match tok (cur rest) with
      | TEOF => Ok n
      | t => Err (errAt (cur rest) ("unexpected " +:+ describe t +:+ " after expression"))
      end
  end.

Definition parse `{FloatText} (expr : string) : outcome ParseError node :=
  match tokens expr with
  | Err e => Err e
  | Panic => Panic
  | Ok ts => parse_tokens ts
  end.

End parser.
