(* ===== verification/ExprParserFacts.v ===== *)
(** * The expression parser: totality, and insensitivity to context

    Two facts about every parsing function, each proved once by the structure
    of the parser.  [total_at]: on a token list of a given length it neither
    runs out of fuel nor stays put.  [sim]: a successful parse is not affected by more
    fuel, by the positions of the tokens, or by what follows the parsed part
    when that is the end of the text or a closing parenthesis. *)

From Stdlib Require Import Ascii Floats.SpecFloat.
From S2P Require Import Prelude GoStrings GoFloat ExprSyntax.

Section parser_facts.
Context `{Unicode}.

(** ** Totality *)

Definition consumes (ts : list Token) (r : parsed) : Prop :=
  match r with Ok (_, rest) => length rest < length ts | Err _ => True | Panic => False end.

Definition total_at (n : nat) (p : list Token → parsed) : Prop :=
  ∀ ts, length ts ≤ n → consumes ts (p ts).

(** A loop may consume nothing. *)
Definition keeps (ts : list Token) (r : parsed) : Prop :=
  match r with Ok (_, rest) => length rest ≤ length ts | Err _ => True | Panic => False end.

Lemma match_tok_length text ts ts' : match_tok text ts = Some ts' → length ts = S (length ts').
Proof. destruct ts as [|t ts]; simpl; [done|]. destruct (tok t); try done. case_bool_decide; naive_solver. Qed.

Lemma match_tok_cons text t ts ts' : match_tok text (t :: ts) = Some ts' → ts' = ts.
Proof. simpl. destruct (tok t); try done. case_bool_decide; congruence. Qed.

Lemma total_at_mono n m p : m ≤ n → total_at n p → total_at m p.
Proof. intros Hle Hp ts Hl. apply Hp. lia. Qed.

Lemma binary_loop_total fuel n sub op lhs ts :
  total_at n sub → length ts ≤ n → length ts < fuel → keeps ts (binary_loop fuel sub op lhs ts).
Proof.
  intros Hsub. revert lhs ts. induction fuel as [|fuel IH]; intros lhs ts Hn Hf; [lia|]. simpl.
  destruct (match_tok op ts) as [ts'|] eqn:E; [|simpl; lia]. apply match_tok_length in E.
  pose proof (Hsub ts' ltac:(lia)) as Hc. destruct (sub ts') as [[x ts'']|e|]; simpl in *; try done.
  specialize (IH (binaryNode op lhs x) ts'' ltac:(lia) ltac:(lia)).
  destruct (binary_loop _ _ _ _ _) as [[y r]|e|]; simpl in *; try done. lia.
Qed.

Lemma compare_loop_total fuel n sub lhs ts :
  total_at n sub → length ts ≤ n → length ts < fuel → keeps ts (compare_loop fuel sub lhs ts).
Proof.
  intros Hsub. revert lhs ts. induction fuel as [|fuel IH]; intros lhs ts Hn Hf; [lia|]. simpl.
  destruct ts as [|t ts']; [simpl; lia|]. simpl. destruct (tok t); simpl; try lia.
  case_bool_decide; simpl; [|lia]. simpl in *.
  pose proof (Hsub ts' ltac:(lia)) as Hc. destruct (sub ts') as [[x ts'']|e|]; simpl in *; try done.
  specialize (IH (binaryNode text lhs x) ts'' ltac:(lia) ltac:(lia)).
  destruct (compare_loop _ _ _ _) as [[y r]|e|]; simpl in *; try done. lia.
Qed.

Lemma postfix_loop_total fuel n prim expr x ts :
  total_at n prim → total_at n expr → length ts ≤ n → length ts < fuel →
  keeps ts (postfix_loop fuel prim expr x ts).
Proof.
  intros Hp He. revert x ts. induction fuel as [|fuel IH]; intros x ts Hn Hf; [lia|]. simpl.
  destruct (match_tok "." ts) as [ts'|] eqn:E.
  - apply match_tok_length in E. pose proof (Hp ts' ltac:(lia)) as Hc.
    destruct (prim ts') as [[y ts'']|e|]; simpl in *; try done.
    assert (∀ z, keeps ts (postfix_loop fuel prim expr z ts'')) as Hz.
    { intros z. specialize (IH z ts'' ltac:(lia) ltac:(lia)).
      destruct (postfix_loop _ _ _ _ _) as [[? r]|e|]; simpl in *; try done. lia. }
    destruct y as [[]| | | | |]; simpl; try done; apply Hz.
  - destruct (match_tok "[" ts) as [ts'|] eqn:E'; [|simpl; lia]. apply match_tok_length in E'.
    pose proof (He ts' ltac:(lia)) as Hc. destruct (expr ts') as [[y ts'']|e|]; simpl in *; try done.
    destruct (match_tok "]" ts'') as [ts3|] eqn:E3; [|done]. apply match_tok_length in E3.
    specialize (IH (memberNode x y) ts3 ltac:(lia) ltac:(lia)).
    destruct (postfix_loop _ _ _ _ _) as [[? r]|e|]; simpl in *; try done. lia.
Qed.

Lemma args_loop_total fuel n expr name args ts :
  total_at n expr → length ts ≤ n → length ts < fuel → keeps ts (args_loop fuel expr name args ts).
Proof.
  intros He. revert args ts. induction fuel as [|fuel IH]; intros args ts Hn Hf; [lia|]. simpl.
  pose proof (He ts ltac:(lia)) as Hc. destruct (expr ts) as [[y ts']|e|]; simpl in *; try done.
  destruct (match_tok "," ts') as [ts2|] eqn:E2.
  - apply match_tok_length in E2. specialize (IH (args ++ [y]) ts2 ltac:(lia) ltac:(lia)).
    destruct (args_loop _ _ _ _ _) as [[? r]|e|]; simpl in *; try done. lia.
  - destruct (match_tok ")" ts') as [ts3|] eqn:E3; [|done]. apply match_tok_length in E3. simpl. lia.
Qed.

Lemma primary_total fuel n expr :
  (∀ m, m < n → total_at m expr) → n ≤ fuel → total_at n (primary fuel expr).
Proof.
  intros He Hf ts Hn. unfold primary. destruct ts as [|t ts]; [done|]. simpl in *.
  destruct (tok t); simpl; try done.
  - repeat (case_bool_decide; [simpl; lia|]).
    destruct (match_tok "(" ts) as [ts2|] eqn:E2; [|simpl; lia]. apply match_tok_length in E2.
    destruct (match_tok ")" ts2) as [ts3|] eqn:E3; [apply match_tok_length in E3; simpl; lia|].
    pose proof (args_loop_total fuel (length ts2) expr text [] ts2 (He (length ts2) ltac:(lia)) ltac:(lia) ltac:(lia)) as Hc.
    destruct (args_loop _ _ _ _ _) as [[? r]|e|]; simpl in *; try done. lia.
  - lia.
  - lia.
  - case_bool_decide; [|done]. pose proof (He (length ts) ltac:(lia) ts ltac:(lia)) as Hc.
    destruct (expr ts) as [[x ts2]|e|]; simpl in *; try done.
    destruct (match_tok ")" ts2) as [ts3|] eqn:E3; [|done]. apply match_tok_length in E3. simpl. lia.
Qed.

(** An operand followed by a loop. *)
Lemma then_loop_total n (p : list Token → parsed) (k : node → list Token → parsed) :
  total_at n p → (∀ x ts, length ts < n → keeps ts (k x ts)) →
  total_at n (fun ts => match p ts with Ok (x, ts') => k x ts' | Err e => Err e | Panic => Panic end).
Proof.
  intros Hp Hk ts Hn. specialize (Hp ts Hn). destruct (p ts) as [[x ts']|e|]; simpl in *; try done.
  specialize (Hk x ts' ltac:(lia)). destruct (k x ts') as [[y r]|e|]; simpl in *; try done. lia.
Qed.

Lemma postfix_total fuel n expr :
  (∀ m, m < n → total_at m expr) → n ≤ fuel → total_at n (postfix fuel expr).
Proof.
  intros He Hf. apply then_loop_total; [by apply primary_total|]. intros x ts Hl.
  apply (postfix_loop_total _ (length ts)); try lia; [|by apply He].
  apply (total_at_mono n); [lia|]. by apply primary_total.
Qed.

Lemma unary_total fuel n expr :
  (∀ m, m < n → total_at m expr) → n ≤ fuel → total_at n (unary fuel expr).
Proof.
  intros He Hf. pose proof (postfix_total fuel n expr He Hf) as Hp. intros ts.
  induction ts as [|t ts IH]; intros Hn; [exact (Hp [] Hn)|]. unfold unary. cbn [unary_loop].
  destruct (match_tok "!" (t :: ts)); [|by apply Hp].
  simpl in Hn. specialize (IH ltac:(lia)). unfold unary in IH.
  destruct (unary_loop _ ts) as [[x r]|e|]; simpl in *; try done. lia.
Qed.

Lemma comparison_total fuel n expr :
  (∀ m, m < n → total_at m expr) → n ≤ fuel → total_at n (comparison fuel expr).
Proof.
  intros He Hf. apply then_loop_total; [by apply unary_total|]. intros x ts Hl.
  apply (compare_loop_total _ (length ts)); try lia.
  apply (total_at_mono n); [lia|]. by apply unary_total.
Qed.

Lemma conjunction_total fuel n expr :
  (∀ m, m < n → total_at m expr) → n ≤ fuel → total_at n (conjunction fuel expr).
Proof.
  intros He Hf. apply then_loop_total; [by apply comparison_total|]. intros x ts Hl.
  apply (binary_loop_total _ (length ts)); try lia.
  apply (total_at_mono n); [lia|]. by apply comparison_total.
Qed.

Lemma parseOr_total fuel : ∀ n, n < fuel → total_at n (parseOr fuel).
Proof.
  induction fuel as [|fuel IH]; intros n Hn; [lia|].
  assert (total_at n (conjunction fuel (parseOr fuel))) as Hc.
  { apply conjunction_total; [|lia]. intros m Hm. apply IH. lia. }
  apply then_loop_total; [done|]. intros x ts Hl.
  apply (binary_loop_total _ (length ts)); try lia. by apply (total_at_mono n); [lia|].
Qed.

(** ** More fuel changes nothing *)

Definition settles (p q : list Token → parsed) : Prop := ∀ ts, p ts ≠ Panic → q ts = p ts.

Lemma then_loop_settles p q k k' :
  settles p q → (∀ x, settles (k x) (k' x)) →
  settles (fun ts => match p ts with Ok (x, ts') => k x ts' | Err e => Err e | Panic => Panic end)
          (fun ts => match q ts with Ok (x, ts') => k' x ts' | Err e => Err e | Panic => Panic end).
Proof.
  intros Hp Hk ts Hn. rewrite (Hp ts); destruct (p ts) as [[x ts']|e|]; try done. by apply Hk.
Qed.

Ltac settle_loop IH :=
  lazymatch goal with
  | H : context [match ?p ?ts with Ok _ => _ | Err _ => _ | Panic => _ end], Hs : settles ?p _ |- _ =>
      rewrite (Hs ts) by (intros E; by rewrite E in H);
      destruct (p ts) as [[? ?]| |] eqn:?; try done
  end; try (apply IH; [lia|done]).

Lemma binary_loop_settles f f' p q op lhs :
  f ≤ f' → settles p q → settles (binary_loop f p op lhs) (binary_loop f' q op lhs).
Proof.
  intros Hf Hs. revert f' lhs Hf. induction f as [|f IH]; intros [|f'] lhs Hf ts Hn; simpl in *;
    try done; [lia|]. destruct (match_tok op ts) as [ts'|]; [|done]. settle_loop IH.
Qed.

Lemma compare_loop_settles f f' p q lhs :
  f ≤ f' → settles p q → settles (compare_loop f p lhs) (compare_loop f' q lhs).
Proof.
  intros Hf Hs. revert f' lhs Hf. induction f as [|f IH]; intros [|f'] lhs Hf ts Hn; simpl in *;
    try done; [lia|]. destruct (tok (cur ts)); try done. destruct ts as [|t ts]; [done|].
  case_bool_decide; [|done]. settle_loop IH.
Qed.

Lemma postfix_loop_settles f f' p q e e' x :
  f ≤ f' → settles p q → settles e e' → settles (postfix_loop f p e x) (postfix_loop f' q e' x).
Proof.
  intros Hf Hs He. revert f' x Hf. induction f as [|f IH]; intros [|f'] x Hf ts Hn; simpl in *;
    try done; [lia|]. destruct (match_tok "." ts) as [ts'|].
  - settle_loop IH. destruct n as [[]| | | | |]; try done; apply IH; (lia || done).
  - destruct (match_tok "[" ts) as [ts'|]; [|done]. settle_loop IH.
    destruct (match_tok "]" _); [|done]. apply IH; [lia|done].
Qed.

Lemma args_loop_settles f f' e e' name args :
  f ≤ f' → settles e e' → settles (args_loop f e name args) (args_loop f' e' name args).
Proof.
  intros Hf He. revert f' args Hf. induction f as [|f IH]; intros [|f'] args Hf ts Hn; simpl in *;
    try done; [lia|]. settle_loop IH. destruct (match_tok "," _); [|done]. apply IH; [lia|done].
Qed.

Lemma primary_settles f f' e e' : f ≤ f' → settles e e' → settles (primary f e) (primary f' e').
Proof.
  intros Hf He ts Hn. unfold primary in *. destruct (tok (cur ts)), ts as [|t ts]; try done.
  - repeat (case_bool_decide; [done|]). destruct (match_tok "(" ts) as [ts2|]; [|done].
    destruct (match_tok ")" ts2); [done|]. by apply args_loop_settles.
  - case_bool_decide; [|done]. settle_loop He.
Qed.

Lemma unary_loop_settles p q : settles p q → settles (unary_loop p) (unary_loop q).
Proof.
  intros Hs ts. induction ts as [|t ts IH]; intros Hn; [by apply Hs|]. cbn [unary_loop] in *.
  destruct (match_tok "!" (t :: ts)); [|by apply Hs].
  rewrite IH; [done|]. intros E. by rewrite E in Hn.
Qed.

Lemma conjunction_settles f f' e e' :
  f ≤ f' → settles e e' → settles (conjunction f e) (conjunction f' e').
Proof.
  intros Hf He. pose proof (primary_settles f f' e e' Hf He) as Hp.
  assert (settles (unary f e) (unary f' e')) as Hu.
  { apply unary_loop_settles, then_loop_settles; [done|]. intros. by apply postfix_loop_settles. }
  assert (settles (comparison f e) (comparison f' e')) as Hc.
  { apply then_loop_settles; [done|]. intros. by apply compare_loop_settles. }
  apply then_loop_settles; [done|]. intros. by apply binary_loop_settles.
Qed.

Lemma parseOr_settles f f' : f ≤ f' → settles (parseOr f) (parseOr f').
Proof.
  revert f'. induction f as [|f IH]; intros [|f'] Hf; try (intros ts Hn; done); [lia|].
  assert (settles (conjunction f (parseOr f)) (conjunction f' (parseOr f'))) as Hc.
  { apply conjunction_settles; [lia|]. apply IH. lia. }
  apply then_loop_settles; [done|]. intros. apply binary_loop_settles; [lia|done].
Qed.

(** ** Simulation *)

Section simulation.
Context (more : list Token).

(** The second list reads like the first up to its end, where it goes on with [more]. *)
Inductive Rel : list Token → list Token → Prop :=
  | Rel_cons t t' ts ts' : tok t = tok t' → tok t ≠ TEOF → Rel ts ts' → Rel (t :: ts) (t' :: ts')
  | Rel_end t : tok t = TEOF → Rel [t] more.

(** [more] starts with the end of the text or a closing parenthesis. *)
Definition closing : Prop := tok (cur more) = TEOF ∨ tok (cur more) = TPunct ")".

Definition sim (p q : list Token → parsed) : Prop :=
  ∀ ts ts' n r, Rel ts ts' → p ts = Ok (n, r) → ∃ r', q ts' = Ok (n, r') ∧ Rel r r'.

(** An operand never starts at the end of the text or at a closing parenthesis. *)
Definition needs_token (p : list Token → parsed) : Prop :=
  ∀ ts x, tok (cur ts) = TEOF ∨ tok (cur ts) = TPunct ")" → p ts ≠ Ok x.

Hypothesis Hmore : closing.

Lemma Rel_match text ts ts' :
  Rel ts ts' →
  match match_tok text ts with
  | Some r => ∃ r', match_tok text ts' = Some r' ∧ Rel r r'
  | None => (text ≠ ")" → match_tok text ts' = None) ∧
            (match_tok text ts' = None ∨ tok (cur ts) = TEOF)
  end.
Proof.
  intros [t t' r r' Heq Hne Hr|t Ht]; simpl.
  - rewrite <-Heq. destruct (tok t) eqn:E; simpl; auto. case_bool_decide; eauto.
  - rewrite Ht. split; [|by right]. intros Hne. pose proof Hmore as Hm. unfold closing in Hm.
    destruct more as [|m ms]; [done|]. simpl in *.
    destruct Hm as [E|E]; rewrite E; [done|]. case_bool_decide; congruence.
Qed.

Lemma Rel_cur ts ts' : Rel ts ts' → tok (cur ts) ≠ TEOF → tok (cur ts') = tok (cur ts).
Proof. intros [t t' r r' Heq Hne Hr|t Ht] Hc; simpl in *; congruence. Qed.

Lemma binary_loop_sim f f' p q op lhs :
  f ≤ f' → op ≠ ")" → sim p q → sim (binary_loop f p op lhs) (binary_loop f' q op lhs).
Proof.
  intros Hf Hop Hs. revert f' lhs Hf. induction f as [|f IH]; intros [|f'] lhs Hf ts ts' n r Hr Hp;
    simpl in Hp; try done; [lia|]. simpl.
  pose proof (Rel_match op ts ts' Hr) as Hm. destruct (match_tok op ts) as [ts1|].
  - destruct Hm as (ts1' & -> & Hr1). destruct (p ts1) as [[x ts2]|e|] eqn:E; try done.
    destruct (Hs _ _ _ _ Hr1 E) as (ts2' & -> & Hr2). apply (IH f' _ ltac:(lia) ts2 ts2' n r Hr2 Hp).
  - destruct Hm as [-> _]; [|done]. injection Hp as <- <-. eauto.
Qed.

Lemma compare_loop_sim f f' p q lhs :
  f ≤ f' → sim p q → sim (compare_loop f p lhs) (compare_loop f' q lhs).
Proof.
  intros Hf Hs. revert f' lhs Hf. induction f as [|f IH]; intros [|f'] lhs Hf ts ts' n r Hr Hp;
    simpl in Hp; try done; [lia|]. simpl. destruct Hr as [t t' r0 r0' Heq Hne Hr|t Ht]; simpl in *.
  - rewrite <-Heq.
    destruct (tok t) eqn:Et; try (injection Hp as <- <-; eexists; split; [done|constructor; congruence]).
    case_bool_decide; [|injection Hp as <- <-; eexists; split; [done|constructor; congruence]].
    destruct (p r0) as [[x ts2]|e|] eqn:E; try done.
    destruct (Hs _ _ _ _ Hr E) as (ts2' & -> & Hr2). apply (IH f' _ ltac:(lia) ts2 ts2' n r Hr2 Hp).
  - rewrite Ht in Hp. injection Hp as <- <-. exists more. split; [|by constructor].
    pose proof Hmore as Hm. unfold closing in Hm.
    destruct more as [|m ms]; [done|]. simpl in *. destruct Hm as [E|E]; rewrite E; done.
Qed.

Lemma postfix_loop_sim f f' p q e e' x :
  f ≤ f' → sim p q → sim e e' → sim (postfix_loop f p e x) (postfix_loop f' q e' x).
Proof.
  intros Hf Hs He. revert f' x Hf. induction f as [|f IH]; intros [|f'] x Hf ts ts' n r Hr Hp;
    simpl in Hp; try done; [lia|]. simpl.
  pose proof (Rel_match "." ts ts' Hr) as Hm. destruct (match_tok "." ts) as [ts1|].
  { destruct Hm as (ts1' & -> & Hr1). destruct (p ts1) as [[y ts2]|er|] eqn:E; try done.
    destruct (Hs _ _ _ _ Hr1 E) as (ts2' & -> & Hr2).
    destruct y as [[]| | | | |]; try done; apply (IH f' _ ltac:(lia) ts2 ts2' n r Hr2 Hp). }
  destruct Hm as [-> _]; [|done].
  pose proof (Rel_match "[" ts ts' Hr) as Hm. destruct (match_tok "[" ts) as [ts1|].
  - destruct Hm as (ts1' & -> & Hr1). destruct (e ts1) as [[y ts2]|er|] eqn:E; try done.
    destruct (He _ _ _ _ Hr1 E) as (ts2' & -> & Hr2).
    pose proof (Rel_match "]" ts2 ts2' Hr2) as Hm. destruct (match_tok "]" ts2) as [ts3|]; [|done].
    destruct Hm as (ts3' & -> & Hr3). apply (IH f' _ ltac:(lia) ts3 ts3' n r Hr3 Hp).
  - destruct Hm as [-> _]; [|done]. injection Hp as <- <-. eauto.
Qed.

Lemma args_loop_sim f f' e e' name args :
  f ≤ f' → sim e e' → sim (args_loop f e name args) (args_loop f' e' name args).
Proof.
  intros Hf He. revert f' args Hf. induction f as [|f IH]; intros [|f'] args Hf ts ts' n r Hr Hp;
    simpl in Hp; try done; [lia|]. simpl.
  destruct (e ts) as [[y ts1]|er|] eqn:E; try done.
  destruct (He _ _ _ _ Hr E) as (ts1' & -> & Hr1).
  pose proof (Rel_match "," ts1 ts1' Hr1) as Hm. destruct (match_tok "," ts1) as [ts2|].
  - destruct Hm as (ts2' & -> & Hr2). apply (IH f' _ ltac:(lia) ts2 ts2' n r Hr2 Hp).
  - destruct Hm as [-> _]; [|done]. pose proof (Rel_match ")" ts1 ts1' Hr1) as Hm.
    destruct (match_tok ")" ts1) as [ts2|]; [|done]. destruct Hm as (ts2' & -> & Hr2).
    injection Hp as <- <-. eauto.
Qed.

Lemma args_loop_needs f e name args : needs_token e → needs_token (args_loop f e name args).
Proof.
  intros He [|t ts] x Hc; destruct f as [|f]; simpl; try done;
    destruct (e _) as [y|er|] eqn:E; try done; exfalso; by eapply He.
Qed.

Lemma primary_sim f f' e e' :
  f ≤ f' → sim e e' → needs_token e → sim (primary f e) (primary f' e').
Proof.
  intros Hf He Hn ts ts' n r Hr Hp. unfold primary in *.
  destruct Hr as [t t' r0 r0' Heq Hne Hr|t Ht]; simpl in *; [|by rewrite Ht in Hp].
  rewrite <-Heq. destruct (tok t) eqn:Et; try done; try (injection Hp as <- <-; eauto).
  - repeat (case_bool_decide; [injection Hp as <- <-; by eauto|]).
    pose proof (Rel_match "(" r0 r0' Hr) as Hm. destruct (match_tok "(" r0) as [ts2|].
    + destruct Hm as (ts2' & -> & Hr2). pose proof (Rel_match ")" ts2 ts2' Hr2) as Hm.
      destruct (match_tok ")" ts2) as [ts3|].
      * destruct Hm as (ts3' & -> & Hr3). injection Hp as <- <-. eauto.
      * destruct Hm as [_ [->|Heof]]; [by eapply args_loop_sim|].
        exfalso. eapply args_loop_needs; [exact Hn|by left|exact Hp].
    + destruct Hm as [-> _]; [|done]. injection Hp as <- <-. eauto.
  - case_bool_decide; [|done]. destruct (e r0) as [[x ts2]|er|] eqn:E; try done.
    destruct (He _ _ _ _ Hr E) as (ts2' & -> & Hr2).
    pose proof (Rel_match ")" ts2 ts2' Hr2) as Hm. destruct (match_tok ")" ts2) as [ts3|]; [|done].
    destruct Hm as (ts3' & -> & Hr3). injection Hp as <- <-. eauto.
Qed.

Lemma then_loop_sim p q k k' :
  sim p q → (∀ x, sim (k x) (k' x)) →
  sim (fun ts => match p ts with Ok (x, ts') => k x ts' | Err e => Err e | Panic => Panic end)
      (fun ts => match q ts with Ok (x, ts') => k' x ts' | Err e => Err e | Panic => Panic end).
Proof.
  intros Hp Hk ts ts' n r Hr E. destruct (p ts) as [[x ts1]|er|] eqn:E1; try done.
  destruct (Hp _ _ _ _ Hr E1) as (ts1' & -> & Hr1). by apply (Hk x ts1 ts1' n r Hr1).
Qed.

Lemma postfix_sim f f' e e' :
  f ≤ f' → sim e e' → needs_token e → sim (postfix f e) (postfix f' e').
Proof.
  intros Hf He Hn. apply then_loop_sim; [by apply primary_sim|]. intros x.
  apply postfix_loop_sim; [done| |done]. by apply primary_sim.
Qed.

Lemma unary_loop_sim p q : sim p q → sim (unary_loop p) (unary_loop q).
Proof.
  intros Hs ts. induction ts as [|t ts IH]; intros ts' n r Hr Hp; [inversion Hr|].
  pose proof (Rel_match "!" _ _ Hr) as Hm. cbn [unary_loop] in Hp.
  destruct (match_tok "!" (t :: ts)) as [ts1|] eqn:Em.
  - destruct Hm as (ts1' & Em' & Hr1). destruct ts' as [|t' ts']; [done|].
    apply match_tok_cons in Em as ->. pose proof Em' as ->%match_tok_cons.
    cbn [unary_loop]. rewrite Em'. destruct (unary_loop p ts) as [[x ts2]|er|] eqn:E; try done.
    destruct (IH _ _ _ Hr1 eq_refl) as (ts2' & -> & Hr2). injection Hp as <- <-. eauto.
  - destruct Hm as [Em' _]. specialize (Em' ltac:(done)).
    destruct (Hs _ _ _ _ Hr Hp) as (r' & E & Hr'). exists r'. split; [|done].
    destruct ts' as [|t' ts']; [done|]. cbn [unary_loop]. by rewrite Em'.
Qed.

Lemma unary_sim f f' e e' : f ≤ f' → sim e e' → needs_token e → sim (unary f e) (unary f' e').
Proof. intros. by apply unary_loop_sim, postfix_sim. Qed.

Lemma comparison_sim f f' e e' :
  f ≤ f' → sim e e' → needs_token e → sim (comparison f e) (comparison f' e').
Proof.
  intros. apply then_loop_sim; [by apply unary_sim|]. intros x. by apply compare_loop_sim, unary_sim.
Qed.

Lemma conjunction_sim f f' e e' :
  f ≤ f' → sim e e' → needs_token e → sim (conjunction f e) (conjunction f' e').
Proof.
  intros. apply then_loop_sim; [by apply comparison_sim|]. intros x.
  by apply binary_loop_sim; [| |apply comparison_sim].
Qed.
End simulation.

(** The first operand decides: nothing parses at the end of the text. *)
Lemma primary_needs f e : needs_token (primary f e).
Proof. intros [|t ts] x Hc; simpl in Hc; unfold primary; simpl; [done|]. by destruct Hc as [-> | ->]. Qed.

Lemma then_loop_needs p k :
  needs_token p →
  needs_token (fun ts => match p ts with Ok (x, ts') => k x ts' | Err e => Err e | Panic => Panic end).
Proof. intros Hp ts x Hc. destruct (p ts) as [y|e|] eqn:E; try done. exfalso. by eapply Hp. Qed.

Lemma unary_needs f e : needs_token (unary f e).
Proof.
  intros ts x Hc. unfold unary. assert (unary_loop (postfix f e) ts = postfix f e ts) as ->.
  { destruct ts as [|t ts]; simpl in *; [done|]. by destruct Hc as [-> | ->]. }
  by apply then_loop_needs; [apply primary_needs|].
Qed.

Lemma parseOr_needs f : needs_token (parseOr f).
Proof.
  destruct f as [|f]; [done|]. apply then_loop_needs, then_loop_needs, then_loop_needs, unary_needs.
Qed.

Lemma parseOr_sim more f f' : closing more → f ≤ f' → sim more (parseOr f) (parseOr f').
Proof.
  intros Hm. revert f'. induction f as [|f IH]; intros [|f'] Hf; try (intros ?????; done); [lia|].
  assert (sim more (conjunction f (parseOr f)) (conjunction f' (parseOr f'))) as Hc.
  { apply conjunction_sim; [done|lia| |apply parseOr_needs]. apply IH. lia. }
  apply then_loop_sim; [done|]. intros x. apply binary_loop_sim; [done|lia|done|done].
Qed.
End parser_facts.
