(* ===== verification/ExprPrint.v ===== *)
(** * Printing expressions

    A printer with the fewest parentheses, and the proof that the parser reads
    its token sequence back: operator precedence, left associativity, member
    access, indexing and calls. *)

From Stdlib Require Import Ascii Floats.SpecFloat.
From S2P Require Import Prelude GoStrings GoFloat ExprSyntax ExprParserFacts.

(** ** Induction over nodes *)

Lemma node_induction (P : node → Prop) :
  (∀ v, P (literalNode v)) → (∀ s, P (identNode s)) →
  (∀ o p, P o → P p → P (memberNode o p)) → (∀ op x, P x → P (unaryNode op x)) →
  (∀ op l r, P l → P r → P (binaryNode op l r)) →
  (∀ name args, Forall P args → P (callNode name args)) → ∀ n, P n.
Proof.
  intros Hl Hi Hm Hu Hb Hc. fix IH 1. intros [v|s|o p|op x|op l r|name args].
  - apply Hl.
  - apply Hi.
  - apply Hm; apply IH.
  - apply Hu, IH.
  - apply Hb; apply IH.
  - apply Hc. induction args as [|a args IHa]; constructor; [apply IH|exact IHa].
Qed.

(** ** The printer *)

Fixpoint all_ident (s : string) : bool :=
  match s with "" => true | String c s' => isIdentPart c && all_ident s' end.

Definition ident_like (s : string) : bool :=
  match s with "" => false | String c s' => isIdentStart c && all_ident s' end.

(** A name that the parser does not take for a literal. *)
Definition ident_ok (s : string) : bool :=
  ident_like s && negb (bool_decide (s ∈ ["null"; "true"; "false"])).

(** The parser level of a node: 0 for [||], 1 for [&&], 2 for comparisons, 3 for
    [!], 4 for member access, 5 for the rest. *)
Definition prec (n : node) : nat :=
  match n with
  | binaryNode op _ _ => if bool_decide (op = "||") then 0 else if bool_decide (op = "&&") then 1 else 2
  | unaryNode _ _ => 3
  | memberNode _ _ => 4
  | _ => 5
  end.

Fixpoint commas (ls : list (list Tok)) : list Tok :=
  match ls with
  | [] => []
  | [l] => l
  | l :: ls' => l ++ TPunct "," :: commas ls'
  end.

Section printer.
Context `{Unicode} (num_text : spec_float → string).

Definition print_value (v : Value) : Tok :=
  match v with
  | Null => TIdent "null"
  | BoolOf true => TIdent "true"
  | BoolOf false => TIdent "false"
  | NumOf f => TNumber f (num_text f)
  | StrOf s => TString s
  | ArrOf _ | ObjOf _ => TEOF
  end.

Definition parens (b : bool) (l : list Tok) : list Tok :=
  if b then TPunct "(" :: l ++ [TPunct ")"] else l.

(** [pr k n]: the tokens of [n] where the parser expects level [k]. *)
Fixpoint pr (k : nat) (n : node) : list Tok :=
  parens (Nat.ltb (prec n) k)
    match n with
    | literalNode v => [print_value v]
    | identNode s => [TIdent s]
    | memberNode o (literalNode (StrOf s) as p) =>
        if ident_ok s then pr 4 o ++ [TPunct "."; TIdent s]
        else pr 4 o ++ TPunct "[" :: pr 0 p ++ [TPunct "]"]
    | memberNode o p => pr 4 o ++ TPunct "[" :: pr 0 p ++ [TPunct "]"]
    | unaryNode op x => TPunct op :: pr 3 x
    | binaryNode op l r => pr (prec n) l ++ TPunct op :: pr (S (prec n)) r
    | callNode name args => TIdent name :: TPunct "(" :: commas (map (pr 0) args) ++ [TPunct ")"]
    end.

Definition literal_ok (v : Value) : bool :=
  match v with ArrOf _ | ObjOf _ => false | _ => true end.

(** The trees the parser produces. *)
Fixpoint printable (n : node) : bool :=
  match n with
  | literalNode v => literal_ok v
  | identNode s => ident_ok s
  | memberNode o p => printable o && printable p
  | unaryNode op x => bool_decide (op = "!") && printable x
  | binaryNode op l r =>
      bool_decide (op ∈ "||" :: "&&" :: compare_ops) && printable l && printable r
  | callNode name args => ident_ok name && forallb printable args
  end.

(** ** Eventual results

    [ev p ts n rest]: with enough fuel, [p] reads [n] off [ts] and leaves [rest]. *)

Definition at0 (t : Tok) : Token := {| tok := t; tstart := 0; tline := 0; tcol := 0 |}.

Definition toks (l : list Tok) : list Token := map at0 l.

Lemma toks_app a b : toks (a ++ b) = toks a ++ toks b.
Proof. apply map_app. Qed.

Lemma toks_cons t l : toks (t :: l) = at0 t :: toks l.
Proof. done. Qed.

Definition ev (p : nat → list Token → parsed) (ts : list Token) (n : node) (rest : list Token) : Prop :=
  ∃ f0, ∀ f, f0 ≤ f → p f ts = Ok (n, rest).

(** The same for a loop, whose fuel is that of the iteration and that of the operands. *)
Definition evl (p : nat → nat → list Token → parsed) (ts : list Token) (n : node) (rest : list Token) : Prop :=
  ∃ f0, ∀ g f, f0 ≤ g → f0 ≤ f → p g f ts = Ok (n, rest).

(** The parser level by level. *)
Definition lev (k f : nat) : list Token → parsed :=
  match k with
  | 0 => parseOr f
  | 1 => conjunction f (parseOr f)
  | 2 => comparison f (parseOr f)
  | 3 => unary f (parseOr f)
  | 4 => postfix f (parseOr f)
  | _ => primary f (parseOr f)
  end.

Definition loop (k : nat) (lhs : node) (g f : nat) : list Token → parsed :=
  match k with
  | 0 => binary_loop g (lev 1 f) "||" lhs
  | 1 => binary_loop g (lev 2 f) "&&" lhs
  | 2 => compare_loop g (lev 3 f) lhs
  | _ => postfix_loop g (lev 5 f) (lev 0 f) lhs
  end.

(** What follows must not continue the expression at level [k] or above. *)
Definition conts (k : nat) : list string :=
  match k with
  | 0 => "||" :: "&&" :: compare_ops ++ ["."; "["; "("]
  | 1 => "&&" :: compare_ops ++ ["."; "["; "("]
  | 2 => compare_ops ++ ["."; "["; "("]
  | 3 | 4 => ["."; "["; "("]
  | _ => ["("]
  end.

Definition stops (k : nat) (ts : list Token) : Prop :=
  ∀ p, tok (cur ts) = TPunct p → p ∉ conts k.

Lemma stops_S k ts : stops k ts → stops (S k) ts.
Proof.
  intros Hs p Hp Hin. apply (Hs p Hp). revert Hin. clear.
  destruct k as [|[|[|[|[|k]]]]]; simpl; set_solver.
Qed.

Lemma stops_le k k' ts : k ≤ k' → stops k ts → stops k' ts.
Proof. induction 1; auto using stops_S. Qed.

Lemma stops_match k ts p : stops k ts → p ∈ conts k → match_tok p ts = None.
Proof.
  intros Hs Hp. destruct ts as [|t ts]; simpl; [done|].
  destruct (tok t) eqn:E; try done. case_bool_decide; [subst|done].
  exfalso. by apply (Hs p E).
Qed.

Lemma stops_punct k t rest : t ∉ conts k → stops k (at0 (TPunct t) :: rest).
Proof. intros Ht p [= <-]. done. Qed.

(** A loop that has nothing to do. *)
Lemma loop_done k n rest : k ∈ [0; 1; 2; 4] → stops k rest → evl (loop k n) rest n rest.
Proof.
  intros Hk Hs. exists 1. intros [|g] f Hg Hf; [lia|].
  assert (k = 0 ∨ k = 1 ∨ k = 2 ∨ k = 4) as [-> | [-> | [-> | ->]]] by set_solver; simpl.
  - by rewrite (stops_match 0) by (try done; set_solver).
  - by rewrite (stops_match 1) by (try done; set_solver).
  - destruct rest as [|t ts]; simpl; [done|]. destruct (tok t) eqn:E; try done.
    rewrite bool_decide_eq_false_2; [done|]. intros Hin. apply (Hs text E). simpl. set_solver.
  - rewrite (stops_match 4) by (try done; set_solver).
    by rewrite (stops_match 4) by (try done; set_solver).
Qed.

(** An operand, then the loop of its level. *)
Lemma lev_then_loop k ts x ts' m r :
  k ∈ [0; 1; 2; 4] → ev (lev (S k)) ts x ts' → evl (loop k x) ts' m r → ev (lev k) ts m r.
Proof.
  intros Hk [f0 Hf0] [f1 Hf1]. exists (S (f0 + f1)). intros [|f] Hf; [lia|].
  assert (k = 0 ∨ k = 1 ∨ k = 2 ∨ k = 4) as [-> | [-> | [-> | ->]]] by set_solver.
  - simpl. pose proof (Hf0 f ltac:(lia)) as E. simpl in E. rewrite E. apply (Hf1 f f); lia.
  - specialize (Hf0 (S f) ltac:(lia)). change (comparison (S f) (parseOr (S f)) ts = Ok (x, ts')) in Hf0.
    change (conjunction (S f) (parseOr (S f)) ts = Ok (m, r)). unfold conjunction. rewrite Hf0.
    apply (Hf1 (S f) (S f)); lia.
  - specialize (Hf0 (S f) ltac:(lia)). change (unary (S f) (parseOr (S f)) ts = Ok (x, ts')) in Hf0.
    change (comparison (S f) (parseOr (S f)) ts = Ok (m, r)). unfold comparison. rewrite Hf0.
    apply (Hf1 (S f) (S f)); lia.
  - specialize (Hf0 (S f) ltac:(lia)). change (primary (S f) (parseOr (S f)) ts = Ok (x, ts')) in Hf0.
    change (postfix (S f) (parseOr (S f)) ts = Ok (m, r)). unfold postfix. rewrite Hf0.
    apply (Hf1 (S f) (S f)); lia.
Qed.

(** One more operand of a binary operator. *)
Lemma loop_step k op lhs x ts ts' m r :
  k < 3 → op ∈ "||" :: "&&" :: compare_ops → prec (binaryNode op lhs x) = k →
  ev (lev (S k)) ts x ts' → evl (loop k (binaryNode op lhs x)) ts' m r →
  evl (loop k lhs) (at0 (TPunct op) :: ts) m r.
Proof.
  intros Hk Hop Hp [f0 Hf0] [f1 Hf1]. exists (S (f0 + f1)). intros [|g] f Hg Hf; [lia|].
  specialize (Hf0 f ltac:(lia)). specialize (Hf1 g f ltac:(lia) ltac:(lia)). unfold prec in Hp.
  destruct (decide (op = "||")) as [->|H1]; [rewrite bool_decide_eq_true_2 in Hp by done; subst k|].
  { cbn [loop binary_loop match_tok at0 tok]. rewrite bool_decide_eq_true_2 by done.
    rewrite Hf0. exact Hf1. }
  rewrite (bool_decide_eq_false_2 (op = "||")) in Hp by done.
  destruct (decide (op = "&&")) as [->|H2]; [rewrite bool_decide_eq_true_2 in Hp by done; subst k|].
  { cbn [loop binary_loop match_tok at0 tok]. rewrite bool_decide_eq_true_2 by done.
    rewrite Hf0. exact Hf1. }
  rewrite (bool_decide_eq_false_2 (op = "&&")) in Hp by done. subst k.
  cbn [loop compare_loop cur at0 tok]. rewrite bool_decide_eq_true_2 by set_solver.
  rewrite Hf0. exact Hf1.
Qed.

(** Member access. *)
Lemma dot_step x s ts m r :
  ident_ok s = true → stops 5 ts →
  evl (loop 4 (memberNode x (literalNode (StrOf s)))) ts m r →
  evl (loop 4 x) (at0 (TPunct ".") :: at0 (TIdent s) :: ts) m r.
Proof.
  intros Hs Hst [f1 Hf1]. exists (S f1). intros [|g] [|f] Hg Hf; try lia.
  specialize (Hf1 g (S f) ltac:(lia) ltac:(lia)).
  unfold ident_ok in Hs. apply andb_true_iff in Hs as [_ Hk%negb_true_iff%bool_decide_eq_false].
  cbn [loop postfix_loop match_tok at0 tok]. rewrite bool_decide_eq_true_2 by done.
  unfold lev at 1, primary. cbn [cur tok at0].
  rewrite !bool_decide_eq_false_2 by set_solver.
  rewrite (stops_match 5) by (try done; set_solver). exact Hf1.
Qed.

Lemma bracket_step x p ts ts' m r :
  ev (lev 0) ts p (at0 (TPunct "]") :: ts') → evl (loop 4 (memberNode x p)) ts' m r →
  evl (loop 4 x) (at0 (TPunct "[") :: ts) m r.
Proof.
  intros [f0 Hf0] [f1 Hf1]. exists (S (f0 + f1)). intros [|g] f Hg Hf; [lia|].
  specialize (Hf0 f ltac:(lia)). specialize (Hf1 g f ltac:(lia) ltac:(lia)).
  cbn [loop postfix_loop match_tok at0 tok].
  rewrite (bool_decide_eq_false_2 ("[" = ".")) by done.
  rewrite (bool_decide_eq_true_2 ("[" = "[")) by done. rewrite Hf0.
  cbn [match_tok at0 tok]. rewrite bool_decide_eq_true_2 by done. exact Hf1.
Qed.

(** ** Primaries *)

Lemma ev_literal v rest :
  literal_ok v = true → ev (lev 5) (at0 (print_value v) :: rest) (literalNode v) rest.
Proof. intros Hv. exists 0. intros f _. by destruct v as [|[]| | | |]. Qed.

Lemma ev_ident s rest :
  ident_ok s = true → stops 5 rest → ev (lev 5) (at0 (TIdent s) :: rest) (identNode s) rest.
Proof.
  intros Hs Hst. exists 0. intros f _. unfold ident_ok in Hs.
  apply andb_true_iff in Hs as [_ Hk%negb_true_iff%bool_decide_eq_false].
  unfold lev, primary. cbn [cur tok at0]. rewrite !bool_decide_eq_false_2 by set_solver.
  by rewrite (stops_match 5) by (try done; set_solver).
Qed.

Lemma ev_parens ts n rest :
  ev (lev 0) ts n (at0 (TPunct ")") :: rest) → ev (lev 5) (at0 (TPunct "(") :: ts) n rest.
Proof.
  intros [f0 Hf0]. exists f0. intros f Hf. specialize (Hf0 f Hf). simpl in Hf0.
  unfold lev, primary. cbn [cur tok at0]. rewrite bool_decide_eq_true_2 by done.
  by rewrite Hf0.
Qed.

(** ** From one level to the level above *)

Lemma lev_step k ts n rest :
  k < 5 → stops k rest → (k = 3 → match_tok "!" ts = None) →
  ev (lev (S k)) ts n rest → ev (lev k) ts n rest.
Proof.
  intros Hk Hst Hb He. destruct (decide (k = 3)) as [->|Hne].
  - destruct He as [f0 Hf0]. exists f0. intros f Hf. specialize (Hf0 f Hf). specialize (Hb eq_refl).
    change (unary_loop (postfix f (parseOr f)) ts = Ok (n, rest)).
    change (postfix f (parseOr f) ts = Ok (n, rest)) in Hf0.
    destruct ts as [|t ts]; [done|]. cbn [unary_loop]. by rewrite Hb.
  - assert (k ∈ [0; 1; 2; 4]) as Hin.
    { destruct k as [|[|[|[|[|k]]]]]; try lia; set_solver. }
    eapply lev_then_loop; [done|exact He|]. by apply loop_done.
Qed.

Lemma climb k j ts n rest :
  k ≤ j → j ≤ 5 → stops k rest → (k ≤ 3 → 3 < j → match_tok "!" ts = None) →
  ev (lev j) ts n rest → ev (lev k) ts n rest.
Proof.
  intros Hkj. revert ts n rest. induction Hkj as [|j Hkj IH]; intros ts n rest Hj Hst Hb He; [done|].
  apply IH; [lia|done|intros; apply Hb; lia|].
  apply lev_step; [lia|by eapply stops_le|intros ->; apply Hb; lia|done].
Qed.

Definition left_loops (n : node) : Prop :=
  ∀ k rest m r, k ∈ [0; 1; 2; 4] → stops (S k) rest → evl (loop k n) rest m r →
    ev (lev k) (toks (pr k n) ++ rest) m r.

Definition reads_back (n : node) : Prop :=
  ∀ k rest, k ≤ 5 → stops k rest → ev (lev k) (toks (pr k n) ++ rest) n rest.

(** What has to be shown of a node: reading it at its own level. *)
Definition own_level (n : node) : Prop :=
  match prec n with
  | 3 | 5 => ∀ rest, stops (prec n) rest → ev (lev (prec n)) (toks (pr 0 n) ++ rest) n rest
  | k => ∀ rest m r, stops (S k) rest → evl (loop k n) rest m r →
           ev (lev k) (toks (pr 0 n) ++ rest) m r
  end.

Lemma pr_parens k n : pr k n = parens (Nat.ltb (prec n) k) (pr 0 n).
Proof. by destruct n. Qed.

Lemma prec_cases n :
  prec n = 0 ∨ prec n = 1 ∨ prec n = 2 ∨ prec n = 3 ∨ prec n = 4 ∨ prec n = 5.
Proof. destruct n; simpl; repeat case_bool_decide; auto 6. Qed.

Lemma head_not_bang n rest : 4 ≤ prec n → match_tok "!" (toks (pr 0 n) ++ rest) = None.
Proof.
  revert rest. induction n as [v|s|o p IHo _|op x _|op l r _ _|name args _] using node_induction;
    intros rest Hp; simpl in Hp; try (repeat case_bool_decide; lia).
  - by destruct v as [|[]| | | |].
  - done.
  - assert (∀ rest', match_tok "!" (toks (pr 4 o) ++ rest') = None) as Ho.
    { intros rest'. rewrite pr_parens. destruct (Nat.ltb_spec (prec o) 4); [done|]. by apply IHo. }
    assert (∃ tl, pr 0 (memberNode o p) = pr 4 o ++ tl) as [tl ->].
    { destruct p as [[]| | | | |]; simpl; try destruct (ident_ok _); eauto. }
    rewrite toks_app, <-app_assoc. apply Ho.
  - done.
Qed.

Lemma own_level_reads n : own_level n → reads_back n ∧ left_loops n.
Proof.
  intros Ho.
  assert (∀ rest, stops (prec n) rest → ev (lev (prec n)) (toks (pr 0 n) ++ rest) n rest) as Hown.
  { intros rest Hst. unfold own_level in Ho.
    destruct (prec_cases n) as [E | [E | [E | [E | [E | E]]]]]; rewrite E in *; auto;
      (apply Ho; [by apply stops_S|apply loop_done; [set_solver|done]]). }
  assert (reads_back n) as Hr.
  { assert (∀ k rest, k ≤ prec n → stops k rest → ev (lev k) (toks (pr 0 n) ++ rest) n rest) as Hlow.
    { intros k rest Hk Hst. destruct (decide (k = prec n)) as [->|]; [by apply Hown|].
      apply (climb k (prec n)); try done; [destruct (prec_cases n); lia| |].
      - intros _ H3. apply head_not_bang. lia.
      - apply Hown. eapply stops_le; [|done]. lia. }
    intros k rest Hk Hst. rewrite pr_parens. destruct (Nat.ltb_spec (prec n) k) as [Hlt|Hge].
    - cbn [parens]. rewrite toks_cons, toks_app, <-app_comm_cons, <-app_assoc.
      apply (climb k 5); try done. apply ev_parens. apply Hlow; [lia|].
      apply stops_punct. set_solver.
    - by apply Hlow. }
  split; [done|]. intros k rest m r Hk Hst Hl.
  destruct (decide (prec n = k)) as [<-|Hne].
  - rewrite pr_parens, Nat.ltb_irrefl. cbn [parens]. unfold own_level in Ho.
    destruct (prec_cases n) as [E | [E | [E | [E | [E | E]]]]]; rewrite E in *; auto; set_solver.
  - apply (lev_then_loop k _ n rest); [done| |done].
    assert (S k ≤ 5) by (destruct (decide (k ≤ 4)); [lia|set_solver]).
    specialize (Hr (S k) rest ltac:(lia) Hst). rewrite pr_parens in *.
    destruct (Nat.ltb_spec (prec n) k), (Nat.ltb_spec (prec n) (S k)); try lia; done.
Qed.

(** ** Calls *)

Lemma ev_args name args done_args rest :
  args ≠ [] → Forall reads_back args →
  ∃ f0, ∀ g f, f0 ≤ g → f0 ≤ f →
    args_loop g (lev 0 f) name done_args (toks (commas (map (pr 0) args)) ++ at0 (TPunct ")") :: rest)
    = Ok (callNode name (done_args ++ args), rest).
Proof.
  intros Hne Hall. revert done_args. induction Hall as [|a args Ha Hall IH]; intros done_args; [done|].
  destruct args as [|b args].
  - destruct (Ha 0 (at0 (TPunct ")") :: rest) ltac:(lia)) as [f0 Hf0].
    { apply stops_punct. set_solver. }
    exists (S f0). intros [|g] f Hg Hf; [lia|]. simpl map. cbn [commas args_loop].
    rewrite Hf0 by lia. simpl. done.
  - destruct (IH ltac:(done) (done_args ++ [a])) as [f1 Hf1].
    destruct (Ha 0 (at0 (TPunct ",") :: toks (commas (map (pr 0) (b :: args))) ++ at0 (TPunct ")") :: rest)
                ltac:(lia)) as [f0 Hf0].
    { apply stops_punct. set_solver. }
    exists (S (f0 + f1)). intros [|g] f Hg Hf; [lia|].
    change (commas (map (pr 0) (a :: b :: args)))
      with (pr 0 a ++ TPunct "," :: commas (map (pr 0) (b :: args))).
    rewrite toks_app, toks_cons, <-app_assoc, <-app_comm_cons. cbn [args_loop].
    rewrite Hf0 by lia. cbn [match_tok at0 tok]. rewrite bool_decide_eq_true_2 by done.
    rewrite Hf1 by lia. by rewrite <-app_assoc.
Qed.

Lemma ev_call name args rest :
  ident_ok name = true → Forall reads_back args →
  ev (lev 5) (toks (pr 0 (callNode name args)) ++ rest) (callNode name args) rest.
Proof.
  intros Hn Hall. unfold ident_ok in Hn.
  apply andb_true_iff in Hn as [_ Hk%negb_true_iff%bool_decide_eq_false].
  change (pr 0 (callNode name args))
    with (TIdent name :: TPunct "(" :: commas (map (pr 0) args) ++ [TPunct ")"]).
  rewrite !toks_cons, toks_app, <-!app_comm_cons, <-app_assoc. change (toks [TPunct ")"] ++ rest) with (at0 (TPunct ")") :: rest).
  assert (∃ f0, ∀ f, f0 ≤ f →
    match match_tok ")" (toks (commas (map (pr 0) args)) ++ at0 (TPunct ")") :: rest) with
    | Some ts => Ok (callNode name [], ts)
    | None => args_loop f (lev 0 f) name [] (toks (commas (map (pr 0) args)) ++ at0 (TPunct ")") :: rest)
    end = Ok (callNode name args, rest)) as [f0 Hf0].
  { destruct args as [|a args]; [by exists 0|].
    destruct (ev_args name (a :: args) [] rest) as [f0 Hf0]; [done|done|]. exists f0. intros f Hf.
    specialize (Hf0 f f Hf Hf).
    destruct (match_tok ")" _) eqn:E; [|done]. exfalso.
    destruct f as [|f]; [done|]. cbn [args_loop] in Hf0.
    destruct (toks (commas (map (pr 0) (a :: args))) ++ at0 (TPunct ")") :: rest) as [|t ts] eqn:Ets; [done|].
    simpl in E. destruct (tok t) eqn:Et; try done. case_bool_decide; [subst|done].
    destruct (lev 0 (S f) (t :: ts)) as [[x r]|e|] eqn:El; try done.
    eapply (parseOr_needs (S f)); [|exact El]. by right. }
  exists f0. intros f Hf. specialize (Hf0 f Hf). unfold lev, primary. cbn [cur tok at0].
  rewrite !bool_decide_eq_false_2 by set_solver. cbn [match_tok at0 tok].
  rewrite bool_decide_eq_true_2 by done. exact Hf0.
Qed.

(** ** Every node *)

Lemma binary_own op l r :
  op ∈ "||" :: "&&" :: compare_ops → left_loops l → reads_back r → own_level (binaryNode op l r).
Proof.
  intros Hop Hl Hr. assert (prec (binaryNode op l r) < 3) as Hk by (simpl; repeat case_bool_decide; lia).
  assert (∀ rest m res, stops (S (prec (binaryNode op l r))) rest →
    evl (loop (prec (binaryNode op l r)) (binaryNode op l r)) rest m res →
    ev (lev (prec (binaryNode op l r))) (toks (pr 0 (binaryNode op l r)) ++ rest) m res) as Hgoal.
  { intros rest m res Hst He.
    change (pr 0 (binaryNode op l r)) with
      (pr (prec (binaryNode op l r)) l ++ TPunct op :: pr (S (prec (binaryNode op l r))) r).
    rewrite toks_app, toks_cons, <-app_assoc, <-app_comm_cons. apply Hl.
    - destruct (prec _) as [|[|[|k]]]; try lia; set_solver.
    - apply stops_punct. clear -Hop. simpl.
      repeat case_bool_decide; subst; simpl; set_solver.
    - eapply loop_step; try done. apply Hr; [lia|done]. }
  unfold own_level. destruct (prec (binaryNode op l r)) as [|[|[|k]]]; try lia; done.
Qed.

Lemma member_own o p : left_loops o → reads_back p → own_level (memberNode o p).
Proof.
  intros Ho Hp rest m r Hst He.
  assert ((∃ s, p = literalNode (StrOf s) ∧ ident_ok s = true ∧
            pr 0 (memberNode o p) = pr 4 o ++ [TPunct "."; TIdent s]) ∨
          pr 0 (memberNode o p) = pr 4 o ++ TPunct "[" :: pr 0 p ++ [TPunct "]"]) as [(s & -> & Hs & ->) | ->].
  { destruct p as [[]| | | | |]; simpl; try destruct (ident_ok _) eqn:?; eauto 6. }
  - rewrite toks_app, <-app_assoc. apply Ho; [set_solver|apply stops_punct; set_solver|].
    by apply dot_step.
  - rewrite toks_app, toks_cons, toks_app, <-app_assoc, <-app_comm_cons, <-app_assoc.
    apply Ho; [set_solver|apply stops_punct; set_solver|].
    eapply bracket_step; [|exact He]. apply (Hp 0); [lia|]. apply stops_punct. set_solver.
Qed.

Lemma printable_reads n : printable n = true → reads_back n ∧ left_loops n.
Proof.
  induction n as [v|s|o p IHo IHp|op x IHx|op l r IHl IHr|name args IHargs] using node_induction;
    intros Hp; apply own_level_reads; simpl in Hp; rewrite ?andb_true_iff, ?bool_decide_eq_true in Hp.
  - intros rest _. by apply ev_literal.
  - intros rest Hst. by apply ev_ident.
  - apply member_own; naive_solver.
  - destruct Hp as [-> Hx]. intros rest Hst. change (pr 0 (unaryNode "!" x)) with (TPunct "!" :: pr 3 x).
    rewrite toks_cons, <-app_comm_cons.
    destruct (IHx Hx) as [Hr _]. destruct (Hr 3 rest ltac:(lia) Hst) as [f0 Hf0]. exists f0. intros f Hf. specialize (Hf0 f Hf).
    change (unary_loop (postfix f (parseOr f)) (toks (pr 3 x) ++ rest) = Ok (x, rest)) in Hf0.
    change (unary_loop (postfix f (parseOr f)) (at0 (TPunct "!") :: toks (pr 3 x) ++ rest)
            = Ok (unaryNode "!" x, rest)).
    cbn [unary_loop match_tok at0 tok]. rewrite bool_decide_eq_true_2 by done. by rewrite Hf0.
  - destruct Hp as [[Hop Hl] Hr]. apply binary_own; [done|by apply IHl|by apply IHr].
  - destruct Hp as [Hn Hargs]. intros rest Hst. apply ev_call; [done|].
    rewrite forallb_forall in Hargs. rewrite Forall_forall in *. intros a Ha.
    apply (IHargs a Ha), Hargs. by apply list_elem_of_In.
Qed.

(** A printed tree has no end marker in it. *)
Lemma commas_no_eof ls : Forall (Forall (.≠ TEOF)) ls → Forall (.≠ TEOF) (commas ls).
Proof.
  induction 1 as [|l ls Hl _ IH]; [constructor|]. destruct ls as [|l' ls]; [done|].
  change (Forall (.≠ TEOF) (l ++ TPunct "," :: commas (l' :: ls))). apply Forall_app_2; [done|].
  by constructor.
Qed.

Lemma parens_no_eof b l : Forall (.≠ TEOF) l → Forall (.≠ TEOF) (parens b l).
Proof. intros Hl. destruct b; simpl; [|done]. constructor; [done|]. apply Forall_app_2; auto. Qed.

Lemma pr_no_eof n k : printable n = true → Forall (.≠ TEOF) (pr k n).
Proof.
  revert k. induction n as [v|s|o p IHo IHp|op x IHx|op l r IHl IHr|name args IHargs] using node_induction;
    intros k Hp; rewrite pr_parens; apply parens_no_eof; simpl in Hp; rewrite ?andb_true_iff in Hp.
  - constructor; [|done]. by destruct v as [|[]| | | |].
  - by constructor.
  - destruct Hp as [Ho Hp].
    assert (Forall (.≠ TEOF) (pr 4 o ++ TPunct "[" :: pr 0 p ++ [TPunct "]"])) as Hb.
    { apply Forall_app_2; [by apply IHo|]. constructor; [done|]. apply Forall_app_2; [by apply IHp|].
      by constructor. }
    destruct p as [[]| | | | |]; try exact Hb. simpl in *. destruct (ident_ok _); [|exact Hb].
    apply Forall_app_2; [by apply IHo|]. by repeat constructor.
  - destruct Hp as [_ Hx]. constructor; [done|]. by apply IHx.
  - destruct Hp as [[_ Hl] Hr]. apply Forall_app_2; [by apply IHl|]. constructor; [done|]. by apply IHr.
  - destruct Hp as [_ Hargs]. do 2 (constructor; [done|]). apply Forall_app_2; [|by constructor].
    apply commas_no_eof. apply Forall_map. rewrite forallb_forall in Hargs. rewrite Forall_forall in *.
    intros a Ha. apply IHargs; [done|]. apply Hargs. by apply list_elem_of_In.
Qed.

Lemma rel_printed (l : list Tok) ts last :
  Forall (.≠ TEOF) l → Forall2 (fun t t' => tok t = t') ts l → tok last = TEOF →
  Rel [last] (toks l ++ [eof_token]) (ts ++ [last]).
Proof.
  intros Hl Hts Hlast. induction Hts as [|t t' ts l Ht _ IH]; [by constructor|].
  inversion Hl; subst. simpl. constructor; [done|done|by apply IH].
Qed.

(** From an eventual parse to [parse_tokens], whatever the positions. *)
Lemma parse_tokens_ev l ts n :
  Forall (.≠ TEOF) l → map tok ts = l ++ [TEOF] →
  ev (lev 0) (toks l ++ [eof_token]) n [eof_token] → parse_tokens ts = Ok n.
Proof.
  intros Hl Hts [f0 Hf0].
  destruct ts as [|last body _] using rev_ind; [by destruct l|].
  rewrite map_app in Hts. apply app_inj_2 in Hts as [Hbody [= Hlast]]; [|done].
  set (all := body ++ [last]). unfold parse_tokens.
  pose proof (parseOr_total (S (length all)) (length all) ltac:(lia) all ltac:(lia)) as Ht.
  set (big := f0 + S (length all)).
  destruct (parseOr_sim [last] f0 big) with (ts := toks l ++ [eof_token])
    (ts' := all) (n := n) (r := [eof_token]) as (r & E & Hrel).
  - by left.
  - lia.
  - apply rel_printed; [done| |done]. rewrite <-Hbody. clear. induction body; by constructor.
  - by apply Hf0.
  - rewrite (parseOr_settles (S (length all)) big) in E; [|lia|].
    + rewrite E. inversion Hrel; simplify_eq; simpl; by rewrite Hlast.
    + by destruct (parseOr _ all).
Qed.

(** Reading back a printed tree, whatever the positions of its tokens. *)
Lemma parse_printed n ts :
  printable n = true → map tok ts = pr 0 n ++ [TEOF] → parse_tokens ts = Ok n.
Proof.
  intros Hp Hts. eapply parse_tokens_ev; [by apply pr_no_eof|done|].
  destruct (printable_reads n Hp) as [Hr _]. by apply (Hr 0); [lia|].
Qed.
End printer.
