(* ===== verification/ExprLex.v ===== *)
(** * The lexer: totality, insensitivity to what follows, and round trip

    [lex] never runs out of fuel; a token is read the same way when the text
    goes on with a blank or a closing parenthesis; and a printed expression,
    spelled as text, is lexed and parsed back. *)

From Stdlib Require Import Ascii Floats.SpecFloat.
From S2P Require Import Prelude GoStrings GoFloat ExprSyntax ExprParserFacts ExprPrint.

#[global] Instance is_eof_dec (t : Tok) : Decision (t = TEOF).
Proof. destruct t; [by left|by right..]. Defined.

(** ** Scanning and what follows *)

(** A text that ends any token before it. *)
Definition breaks (suf : string) : bool :=
  match suf with "" => true | String c _ => bool_decide (c = ")"%char) || is_blank c end.

Lemma breaks_head c suf : breaks (String c suf) = true →
  isIdentPart c = false ∧ is_digit c = false ∧ c ≠ "."%char ∧ c ≠ "'"%char ∧
  (∀ d, String d (String c "") ∉ two_byte_ops).
Proof.
  intros Hb.
  assert (isIdentPart c = false ∧ is_digit c = false ∧
    bool_decide (c = "."%char) = false ∧ bool_decide (c = "'"%char) = false ∧
    bool_decide (c ∈ ["&"; "|"; "="]%char) = false) as (H1 & H2 & H3 & H4 & H5).
  { change (breaks (String c suf)) with (bool_decide (c = ")"%char) || is_blank c) in Hb. clear suf. revert Hb.
    destruct c as [[] [] [] [] [] [] [] []]; vm_compute; intros Hb; try (discriminate Hb || done). }
  apply bool_decide_eq_false in H3, H4, H5. repeat split; try done.
  intros d Hd. apply H5. unfold two_byte_ops in Hd. set_solver.
Qed.

Lemma advance_src c rest l : src (advance c rest l) = rest.
Proof. unfold advance. by case_bool_decide. Qed.

Lemma digit_next_app s suf : breaks suf = true → digit_next (s +:+ suf) = digit_next s.
Proof. intros Hb. destruct s; [|done]. destruct suf as [|c suf]; [done|].
  simpl. by destruct (breaks_head c suf Hb) as (_ & -> & _). Qed.

Lemma skip_blanks_ext s suf l l' :
  src l = s → src l' = s +:+ suf → src (skip_blanks s l) ≠ "" →
  src (skip_blanks (s +:+ suf) l') = src (skip_blanks s l) +:+ suf.
Proof.
  revert l l'. induction s as [|c s IH]; intros l l' Hl Hl' Hne; simpl in *; [congruence|].
  destruct (is_blank c); [|by rewrite Hl, Hl']. apply IH; rewrite ?advance_src; done.
Qed.

Lemma skip_blanks_all s suf l l' :
  src l = s → src l' = s +:+ suf → src (skip_blanks s l) = "" →
  ∃ l1, src l1 = suf ∧ skip_blanks (s +:+ suf) l' = skip_blanks suf l1.
Proof.
  revert l l'. induction s as [|c s IH]; intros l l' Hl Hl' Hne; simpl in *; [by exists l'|].
  destruct (is_blank c); [|congruence].
  apply (IH (advance c s l) (advance c (s +:+ suf) l')); rewrite ?advance_src; done.
Qed.

Lemma scan_ident_ext s suf l l' t l1 :
  breaks suf = true → src l = s → src l' = s +:+ suf → scan_ident s l = (t, l1) →
  ∃ l1', scan_ident (s +:+ suf) l' = (t, l1') ∧ src l1' = src l1 +:+ suf.
Proof.
  intros Hb. revert l l' t l1. induction s as [|c s IH]; intros l l' t l1 Hl Hl' E; simpl in *.
  - injection E as <- <-. exists l'. rewrite Hl, Hl'. split; [|done].
    destruct suf as [|c suf]; [done|]. simpl. by destruct (breaks_head c suf Hb) as [-> _].
  - destruct (isIdentPart c); [|injection E as <- <-; exists l'; by rewrite Hl].
    destruct (scan_ident s _) as [t0 l0] eqn:E0. injection E as <- <-.
    edestruct (IH _ (advance c (s +:+ suf) l') _ _ (advance_src _ _ _) (advance_src _ _ _) E0) as (l1' & -> & ?).
    by exists l1'.
Qed.

Lemma scan_number_ext dot s suf l l' t l1 :
  breaks suf = true → src l = s → src l' = s +:+ suf → scan_number dot s l = (t, l1) →
  ∃ l1', scan_number dot (s +:+ suf) l' = (t, l1') ∧ src l1' = src l1 +:+ suf.
Proof.
  intros Hb. revert dot l l' t l1. induction s as [|c s IH]; intros dot l l' t l1 Hl Hl' E; simpl in *.
  - injection E as <- <-. exists l'. rewrite Hl, Hl'. split; [|done].
    destruct suf as [|c suf]; [done|]. simpl. destruct (breaks_head c suf Hb) as (_ & -> & Hd & _).
    by rewrite (bool_decide_eq_false_2 _ Hd).
  - rewrite digit_next_app by done.
    assert (∀ d, (let '(t0, l0) := scan_number d s (advance c s l) in (String c t0, l0)) = (t, l1) →
      ∃ l1', (let '(t0, l0) := scan_number d (s +:+ suf) (advance c (s +:+ suf) l') in (String c t0, l0))
             = (t, l1') ∧ src l1' = src l1 +:+ suf) as Hgo.
    { intros d Ed. destruct (scan_number d s _) as [t0 l0] eqn:E0. injection Ed as <- <-.
      edestruct (IH d _ (advance c (s +:+ suf) l') _ _ (advance_src _ _ _) (advance_src _ _ _) E0) as (l1' & -> & ?).
      by exists l1'. }
    destruct (is_digit c); [by apply Hgo|]. destruct (_ && _ && _); [by apply Hgo|].
    injection E as <- <-. exists l'. by rewrite Hl.
Qed.

Lemma scan_string_ext q s suf l l' t l1 :
  breaks suf = true → src l = s → src l' = s +:+ suf → scan_string q s l = Some (t, l1) →
  ∃ l1', scan_string q (s +:+ suf) l' = Some (t, l1') ∧ src l1' = src l1 +:+ suf.
Proof.
  intros Hb. revert q l l' t l1. induction s as [|c s IH]; intros q l l' t l1 Hl Hl' E; simpl in *.
  - destruct q; [|done]. injection E as <- <-. exists l'. rewrite Hl, Hl'. split; [|done].
    destruct suf as [|c suf]; [done|]. simpl. destruct (breaks_head c suf Hb) as (_ & _ & _ & Hd & _).
    by rewrite (bool_decide_eq_false_2 _ Hd).
  - assert (∀ q', ('(t0, l0) ← scan_string q' s (advance c s l); Some (String c t0, l0)) = Some (t, l1) →
      ∃ l1', ('(t0, l0) ← scan_string q' (s +:+ suf) (advance c (s +:+ suf) l'); Some (String c t0, l0))
             = Some (t, l1') ∧ src l1' = src l1 +:+ suf) as Hgo.
    { intros d Ed. destruct (scan_string d s _) as [[t0 l0]|] eqn:E0; [|done]. injection Ed as <- <-.
      edestruct (IH d _ (advance c (s +:+ suf) l') _ _ (advance_src _ _ _) (advance_src _ _ _) E0) as (l1' & -> & ?).
      by exists l1'. }
    destruct q.
    + case_bool_decide; [by apply Hgo|]. injection E as <- <-. exists l'. by rewrite Hl.
    + case_bool_decide; [|by apply Hgo].
      apply (IH true (advance c s l) (advance c (s +:+ suf) l')); rewrite ?advance_src; done.
Qed.

Section lexer.
Context `{Unicode} `{FloatText}.

Lemma find_same {A} (f g : A → bool) l : (∀ x, x ∈ l → f x = g x) → find f l = find g l.
Proof.
  induction l as [|x l IH]; intros E; [done|]. simpl. rewrite (E x) by set_solver.
  destruct (g x); [done|]. apply IH. set_solver.
Qed.

Lemma has_prefix_two c d s a b :
  has_prefix (String c (String d s)) (String a (String b "")) = bool_decide (c = a ∧ d = b).
Proof.
  apply eq_true_iff_eq. rewrite has_prefix_spec, bool_decide_eq_true. split.
  - intros [t [= -> -> ->]]. done.
  - intros [-> ->]. by exists s.
Qed.

Lemma two_byte_shape op : op ∈ two_byte_ops → ∃ a b, op = String a (String b "").
Proof.
  revert op. apply Forall_forall. unfold two_byte_ops. repeat (constructor; [eauto|]). constructor.
Qed.

Lemma two_byte_ext c rest suf :
  breaks suf = true →
  find (fun op => has_prefix (String c (rest +:+ suf)) op) two_byte_ops =
  find (fun op => has_prefix (String c rest) op) two_byte_ops.
Proof.
  intros Hb. apply find_same. intros op Hop. destruct (two_byte_shape op Hop) as (a & b & ->).
  destruct rest as [|d rest]; simpl.
  - assert (has_prefix (String c "") (String a (String b "")) = false) as ->.
    { apply not_true_is_false. rewrite has_prefix_spec. intros [t Et]. simplify_eq. }
    destruct suf as [|d suf].
    { apply not_true_is_false. rewrite has_prefix_spec. intros [t Et]. simplify_eq. }
    rewrite has_prefix_two. apply bool_decide_eq_false. intros [-> ->].
    destruct (breaks_head b suf Hb) as (_ & _ & _ & _ & Hn). by apply (Hn a).
  - by rewrite !has_prefix_two.
Qed.

(** A token is read the same way, wherever the text starts and whatever breaks it off. *)
Lemma next_token_ext l l' suf t l1 :
  breaks suf = true → src l' = src l +:+ suf → next_token l = Ok (t, l1) → tok t ≠ TEOF →
  ∃ t' l1', next_token l' = Ok (t', l1') ∧ tok t' = tok t ∧ src l1' = src l1 +:+ suf.
Proof.
  intros Hb Hs E Hne. unfold next_token in *.
  set (k := skip_blanks (src l) l) in *. set (k' := skip_blanks (src l') l') in *.
  destruct (src k) as [|c rest] eqn:Ek; [by injection E as <- <-|].
  assert (src k' = String c (rest +:+ suf)) as Ek'.
  { unfold k'. rewrite Hs, (skip_blanks_ext (src l) suf l l') by (try done; by fold k; rewrite Ek).
    fold k. by rewrite Ek. }
  rewrite Ek'. clearbody k k'.
  destruct (isIdentStart c).
  { destruct (scan_ident (String c rest) k) as [w kw] eqn:Es. injection E as <- <-.
    destruct (scan_ident_ext (String c rest) suf k k' w kw) as (lw & Ew & Hw); [done..|].
    change (String c (rest +:+ suf)) with (String c rest +:+ suf). rewrite Ew. eauto. }
  rewrite digit_next_app by done.
  destruct (is_digit c || bool_decide (c = "-"%char) && digit_next rest).
  { destruct (if bool_decide (c = "-"%char) then _ else _) as [w kw] eqn:Es.
    assert (∃ lw, (if bool_decide (c = "-"%char)
                   then let '(t0, l0) := scan_number false (rest +:+ suf) (advance c (rest +:+ suf) k') in
                        (String c t0, l0)
                   else scan_number false (String c (rest +:+ suf)) k') = (w, lw) ∧
                  src lw = src kw +:+ suf) as (lw & -> & Hw).
    { case_bool_decide.
      - destruct (scan_number false rest _) as [w0 kw0] eqn:E0. injection Es as <- <-.
        destruct (scan_number_ext false rest suf _ (advance c (rest +:+ suf) k') w0 kw0 Hb
                    (advance_src _ _ _) (advance_src _ _ _) E0) as (lw & -> & ?). eauto.
      - by apply (scan_number_ext false (String c rest) suf k k' w kw). }
    destruct (ParseFloat w); [|done]. injection E as <- <-. eauto. }
  destruct (bool_decide (c = "'"%char)).
  { destruct (scan_string false rest _) as [[w kw]|] eqn:Es; [|done]. injection E as <- <-.
    destruct (scan_string_ext false rest suf _ (advance c (rest +:+ suf) k') w kw Hb
                (advance_src _ _ _) (advance_src _ _ _) Es) as (lw & -> & ?). eauto. }
  rewrite two_byte_ext by done.
  destruct (find _ two_byte_ops) as [op|] eqn:Ef.
  { destruct rest as [|d rest].
    { exfalso. apply find_some in Ef as [Hop%list_elem_of_In Hp].
      destruct (two_byte_shape op Hop) as (a & b & ->). apply has_prefix_spec in Hp as [x Hx]. done. }
    injection E as <- <-. simpl. eexists _, _. split; [done|]. by rewrite !advance_src. }
  destruct (bool_decide (c ∈ one_byte_ops)).
  { injection E as <- <-. eexists _, _. split; [done|]. by rewrite !advance_src. }
  repeat case_bool_decide; done.
Qed.

(** At the end of the text, the lexer goes on with what follows. *)
Lemma next_token_end l l' suf t l1 :
  src l' = src l +:+ suf → next_token l = Ok (t, l1) → tok t = TEOF →
  ∃ l0, src l0 = suf ∧ next_token l' = next_token l0.
Proof.
  intros Hs E Ht. unfold next_token in E. set (k := skip_blanks (src l) l) in *.
  assert (src k = "") as Ek.
  { destruct (src k) as [|c rest]; [done|]. exfalso. revert E.
    destruct (isIdentStart c). { destruct (scan_ident _ _). by intros [= <- <-]. }
    destruct (is_digit c || _).
    { destruct (if bool_decide _ then _ else _) as [w kw]. destruct (ParseFloat w); [|done].
      by intros [= <- <-]. }
    destruct (bool_decide (c = "'"%char)).
    { destruct (scan_string _ _ _) as [[w kw]|]; [|done]. by intros [= <- <-]. }
    destruct (find _ two_byte_ops), rest; repeat case_bool_decide; try done; by intros [= <- <-]. }
  destruct (skip_blanks_all (src l) suf l l') as (l0 & Hl0 & El0); [done..|].
  exists l0. split; [done|]. unfold next_token. rewrite Hs, El0, Hl0. done.
Qed.

(** ** Totality *)

Lemma skip_blanks_length s l : src l = s → String.length (src (skip_blanks s l)) ≤ String.length s.
Proof.
  revert l. induction s as [|c s IH]; intros l Hl; simpl; [by rewrite Hl|].
  destruct (is_blank c); [|by rewrite Hl]. specialize (IH (advance c s l) (advance_src _ _ _)). lia.
Qed.

Lemma scan_ident_length s l t l1 :
  src l = s → scan_ident s l = (t, l1) → String.length s = String.length t + String.length (src l1).
Proof.
  revert l t l1. induction s as [|c s IH]; intros l t l1 Hl E; simpl in E.
  - injection E as <- <-. by rewrite Hl.
  - destruct (isIdentPart c); [|injection E as <- <-; by rewrite Hl].
    destruct (scan_ident s _) as [t0 l0] eqn:E0. injection E as <- <-. simpl.
    f_equal. eapply IH; [|exact E0]. apply advance_src.
Qed.

Lemma scan_number_length dot s l t l1 :
  src l = s → scan_number dot s l = (t, l1) →
  String.length s = String.length t + String.length (src l1).
Proof.
  revert dot l t l1. induction s as [|c s IH]; intros dot l t l1 Hl E; simpl in E.
  - injection E as <- <-. by rewrite Hl.
  - destruct (is_digit c); [|destruct (_ && _ && _)]; [| |injection E as <- <-; by rewrite Hl];
      destruct (scan_number _ s _) as [t0 l0] eqn:E0; injection E as <- <-; simpl; f_equal;
      (eapply IH; [|exact E0]; apply advance_src).
Qed.

Lemma scan_string_length q s l t l1 :
  src l = s → scan_string q s l = Some (t, l1) → String.length (src l1) ≤ String.length s.
Proof.
  revert q l t l1. induction s as [|c s IH]; intros q l t l1 Hl E; simpl in E.
  - destruct q; [|done]. injection E as <- <-. by rewrite Hl.
  - assert (∀ q', ('(t0, l0) ← scan_string q' s (advance c s l); Some (String c t0, l0)) = Some (t, l1) →
      String.length (src l1) ≤ S (String.length s)) as Hgo.
    { intros q' E'. destruct (scan_string q' s _) as [[t0 l0]|] eqn:E0; [|done]. injection E' as <- <-.
      apply IH in E0; [lia|]. apply advance_src. }
    destruct q; case_bool_decide; try (by eapply Hgo); simpl.
    + injection E as <- <-. by rewrite Hl.
    + apply IH in E; [lia|]. apply advance_src.
Qed.

Lemma next_token_consumes l :
  match next_token l with
  | Ok (t, l1) => tok t ≠ TEOF → String.length (src l1) < String.length (src l)
  | Err _ => True
  | Panic => False
  end.
Proof.
  unfold next_token. pose proof (skip_blanks_length (src l) l eq_refl) as Hk.
  set (k := skip_blanks (src l) l) in *. destruct (src k) as [|c rest] eqn:Ek; [done|].
  simpl in Hk. destruct (isIdentStart c) eqn:Ei.
  { destruct (scan_ident (String c rest) k) as [w kw] eqn:Es. intros _.
    pose proof (scan_ident_length _ _ _ _ Ek Es) as Hw. simpl in Hw, Es.
    assert (isIdentPart c = true) as Hc by (unfold isIdentPart; by rewrite Ei). rewrite Hc in Es.
    destruct (scan_ident rest _). injection Es as <- <-. simpl in Hw. lia. }
  destruct (is_digit c || bool_decide (c = "-"%char) && digit_next rest) eqn:En.
  { destruct (if bool_decide (c = "-"%char) then _ else _) as [w kw] eqn:Es.
    destruct (ParseFloat w); [|done]. intros _. revert Es. case_bool_decide as Hc.
    - destruct (scan_number false rest _) as [w0 kw0] eqn:E0. intros [= <- <-].
      apply scan_number_length in E0; [lia|]. apply advance_src.
    - rewrite andb_false_l, orb_false_r in En. cbn [scan_number]. rewrite En.
      destruct (scan_number false rest _) as [w0 kw0] eqn:E0. intros [= <- <-].
      apply scan_number_length in E0; [lia|]. apply advance_src. }
  destruct (bool_decide (c = "'"%char)).
  { destruct (scan_string false rest _) as [[w kw]|] eqn:Es; [|done].
    apply scan_string_length in Es; [simpl; lia|]. apply advance_src. }
  destruct (find _ two_byte_ops), rest as [|d rest]; repeat case_bool_decide; try done;
    intros _; rewrite advance_src; simpl in *; lia.
Qed.

Lemma lex_total f l : String.length (src l) < f → lex f l ≠ Panic.
Proof.
  revert l. induction f as [|f IH]; intros l Hf; [lia|]. simpl.
  pose proof (next_token_consumes l) as Hc. destruct (next_token l) as [[t l1]|e|]; [|done..].
  destruct (decide (tok t = TEOF)) as [->|Ht]; [done|]. specialize (Hc Ht).
  specialize (IH l1 ltac:(lia)). by destruct (tok t), (lex f l1).
Qed.

Lemma parse_total s : parse s ≠ Panic.
Proof.
  unfold parse, tokens. pose proof (lex_total (S (String.length s)) (newLexer s)) as Hl.
  destruct (lex _ _) as [ts|e|]; [|done|exfalso; apply Hl; simpl; (lia || done)].
  unfold parse_tokens.
  pose proof (parseOr_total (S (length ts)) (length ts) ltac:(lia) ts ltac:(lia)) as Ht.
  destruct (parseOr _ ts) as [[n rest]|e|]; [|done..]. by destruct (tok (cur rest)).
Qed.

(** ** Composition *)

(** Whatever the position, [s] is read as the tokens [L]. *)
Definition lexes (s : string) (L : list Tok) : Prop :=
  ∀ l f, src l = s → String.length s < f → ∃ ts, lex f l = Ok ts ∧ map tok ts = L.

Lemma lex_S f l t l1 :
  next_token l = Ok (t, l1) →
  lex (S f) l = match tok t with
                | TEOF => Ok [t]
                | _ => match lex f l1 with Ok ts => Ok (t :: ts) | Err e => Err e | Panic => Panic end
                end.
Proof. intros E. simpl. by rewrite E. Qed.

Lemma lex_ext f ts l l' suf L f' :
  breaks suf = true → lexes suf L → lex f l = Ok ts → src l' = src l +:+ suf →
  String.length (src l') < f' →
  ∃ body last ts', ts = body ++ [last] ∧ tok last = TEOF ∧ Forall (.≠ TEOF) (map tok body) ∧
    lex f' l' = Ok ts' ∧ map tok ts' = map tok body ++ L.
Proof.
  intros Hb HL. revert ts l l' f'. induction f as [|f IH]; intros ts l l' f' E Hs Hf; [done|].
  simpl in E. destruct (next_token l) as [[t l1]|e|] eqn:En; try done.
  destruct (decide (tok t = TEOF)) as [Ht|Ht].
  - rewrite Ht in E. injection E as <-.
    destruct (next_token_end l l' suf t l1 Hs En Ht) as (l0 & Hl0 & E0).
    destruct (HL l0 f' Hl0) as (ts' & E' & Hm).
    { rewrite Hs, app_str_length in Hf. lia. }
    exists [], t, ts'. repeat split; try done.
    destruct f' as [|f']; [done|]. simpl in *. by rewrite E0.
  - destruct (next_token_ext l l' suf t l1 Hb Hs En Ht) as (t' & l1' & En' & Ht' & Hs1).
    assert (∃ ts1, lex f l1 = Ok ts1 ∧ ts = t :: ts1) as (ts1 & E1 & ->).
    { destruct (tok t), (lex f l1); try done; simplify_eq; eauto. }
    destruct f' as [|f']; [lia|].
    assert (String.length (src l1') < f') as Hf'.
    { pose proof (next_token_consumes l') as Hc. rewrite En' in Hc. specialize (Hc ltac:(congruence)). lia. }
    destruct (IH ts1 l1 l1' f' E1 Hs1 Hf') as (body & last & ts' & -> & Hlast & Hbody & E' & Hm).
    exists (t :: body), last, (t' :: ts'). repeat split; try done; [by constructor| |].
    + rewrite (lex_S _ _ _ _ En'), E'. destruct (tok t') eqn:?; [congruence|done..].
    + simpl. by rewrite Hm, Ht'.
Qed.

Lemma lexes_empty : lexes "" [TEOF].
Proof.
  intros l [|f] Hl Hf; [simpl in Hf; lia|]. exists [here l TEOF]. simpl. unfold next_token. rewrite Hl.
  simpl. rewrite Hl. done.
Qed.

(** What the lexer returns does not depend on where the text is. *)
Lemma tokens_lexes s ts :
  tokens s = Ok ts →
  ∃ body last, ts = body ++ [last] ∧ tok last = TEOF ∧ Forall (.≠ TEOF) (map tok body) ∧
    lexes s (map tok ts).
Proof.
  intros E. unfold tokens in E.
  destruct (lex_ext _ ts (newLexer s) (newLexer s) "" [TEOF] (S (String.length s)) eq_refl lexes_empty E)
    as (body & last & ts' & -> & Hlast & Hb & _); [by rewrite app_str_nil_r|simpl; lia|].
  exists body, last. repeat split; try done. intros l f Hl Hf.
  destruct (lex_ext _ _ (newLexer s) l "" [TEOF] f eq_refl lexes_empty E)
    as (body' & last' & ts2 & Eb & Hlast' & _ & E2 & Hm); [by rewrite app_str_nil_r|by rewrite Hl|].
  apply app_inj_2 in Eb as [<- [= <-]]; [|done]. exists ts2. split; [done|].
  by rewrite Hm, map_app, <-Hlast.
Qed.

Lemma lexes_tokens s L : lexes s L → ∃ ts, tokens s = Ok ts ∧ map tok ts = L.
Proof. intros HL. apply (HL (newLexer s)); [done|lia]. Qed.

Lemma lexes_app s body suf L :
  breaks suf = true → lexes s (body ++ [TEOF]) → lexes suf L → lexes (s +:+ suf) (body ++ L).
Proof.
  intros Hb Hs HL l f Hl Hf.
  destruct (Hs (newLexer s) (S (String.length s)) eq_refl ltac:(lia)) as (ts & E & Hm).
  destruct (lex_ext _ ts (newLexer s) l suf L f Hb HL E Hl) as (body' & last & ts' & -> & Hlast & _ & E' & Hm');
    [by rewrite Hl|].
  exists ts'. split; [done|]. rewrite Hm'. f_equal.
  rewrite map_app in Hm. apply app_inj_2 in Hm as [-> _]; done.
Qed.

Lemma lexes_blank s L : lexes s L → lexes (String " " s) L.
Proof.
  intros HL l f Hl Hf. simpl in Hf.
  destruct (HL (advance " " s l) f (advance_src _ _ _) ltac:(lia)) as (ts & E & Hm).
  exists ts. split; [|done]. destruct f as [|f]; [done|]. simpl in *.
  assert (next_token l = next_token (advance " " s l)) as ->; [|done].
  unfold next_token. rewrite Hl, advance_src. done.
Qed.
End lexer.
