(* ===== verification/ExprRoundTrip.v ===== *)
(** * Expressions: the parser is total and inverts the printer

    [print_expr] spells the tokens of [ExprPrint.pr] with a blank after each.
    The theorems of the expression language's front end. *)

From Stdlib Require Import Ascii Floats.SpecFloat.
From S2P Require Import Prelude GoStrings GoFloat ExprSyntax ExprParserFacts ExprPrint ExprLex.

(** Quotes inside a string literal are doubled. *)
Fixpoint double_quotes (s : string) : string :=
  match s with
  | "" => ""
  | String c s' => if bool_decide (c = "'"%char) then String c (String c (double_quotes s'))
                   else String c (double_quotes s')
  end.

Definition spell (t : Tok) : string :=
  match t with
  | TEOF => ""
  | TIdent s => s
  | TNumber _ text => text
  | TString s => String "'" (double_quotes s +:+ "'")
  | TPunct p => p
  end.

Fixpoint spell_all (l : list Tok) : string :=
  match l with [] => "" | t :: l' => spell t +:+ String " " (spell_all l') end.

(** The texts the lexer reads as one number. *)
Fixpoint digits_dot (dot : bool) (s : string) : bool :=
  match s with
  | "" => true
  | String c s' =>
      if is_digit c then digits_dot dot s'
      else bool_decide (c = "."%char) && negb dot && digit_next s' && digits_dot true s'
  end.

Definition number_like (s : string) : bool :=
  match s with
  | "" => false
  | String c s' => if bool_decide (c = "-"%char) then digit_next s' && digits_dot false s'
                   else is_digit c && digits_dot false s'
  end.

Section round_trip.
Context `{Unicode} `{FloatText}.

Definition spellable (t : Tok) : Prop :=
  match t with
  | TEOF => False
  | TIdent s => ident_like s = true
  | TNumber f text => number_like text = true ∧ ParseFloat text = Some f
  | TString _ => True
  | TPunct p => p ∈ two_byte_ops ++ map (fun c => String c "") one_byte_ops
  end.

Lemma scan_ident_all s l : src l = s → all_ident s = true →
  ∃ l1, scan_ident s l = (s, l1) ∧ src l1 = "".
Proof.
  revert l. induction s as [|c s IH]; intros l Hl Hs; simpl in *; [by exists l|].
  apply andb_true_iff in Hs as [-> Hs].
  destruct (IH (advance c s l) (advance_src _ _ _) Hs) as (l1 & -> & ?). by exists l1.
Qed.

Lemma scan_number_all dot s l : src l = s → digits_dot dot s = true →
  ∃ l1, scan_number dot s l = (s, l1) ∧ src l1 = "".
Proof.
  revert dot l. induction s as [|c s IH]; intros dot l Hl Hs; simpl in *; [by exists l|].
  destruct (is_digit c).
  - destruct (IH dot (advance c s l) (advance_src _ _ _) Hs) as (l1 & -> & ?). by exists l1.
  - apply andb_true_iff in Hs as [-> Hs].
    destruct (IH true (advance c s l) (advance_src _ _ _) Hs) as (l1 & -> & ?). by exists l1.
Qed.

Lemma scan_string_doubled s l :
  src l = double_quotes s +:+ "'" →
  ∃ l1, scan_string false (double_quotes s +:+ "'") l = Some (s, l1) ∧ src l1 = "".
Proof.
  revert l. induction s as [|c s IH]; intros l Hl; simpl.
  - exists (advance "'" "" l). by rewrite advance_src.
  - destruct (bool_decide (c = "'"%char)) eqn:Ec; simpl; rewrite !Ec.
    + apply bool_decide_eq_true in Ec as ->.
      edestruct (IH (advance "'" (double_quotes s +:+ "'")
        (advance "'" (String "'" (double_quotes s +:+ "'")) l)) (advance_src _ _ _)) as (l1 & -> & ?).
      by exists l1.
    + edestruct (IH (advance c (double_quotes s +:+ "'") l) (advance_src _ _ _)) as (l1 & -> & ?).
      by exists l1.
Qed.

Lemma skip_nonblank c rest l : src l = String c rest → is_blank c = false → skip_blanks (src l) l = l.
Proof. intros -> Hc. simpl. by rewrite Hc. Qed.

(** The first byte of a token settles the branch of the lexer. *)
Lemma ident_start_blank c : isIdentStart c = true → is_blank c = false.
Proof. destruct c as [[] [] [] [] [] [] [] []]; vm_compute; done. Qed.

Lemma digit_facts c : is_digit c = true → is_blank c = false ∧ isIdentStart c = false ∧ c ≠ "-"%char.
Proof.
  intros Hc. assert (is_blank c = false ∧ isIdentStart c = false ∧ bool_decide (c = "-"%char) = false) as (H1 & H2 & H3).
  { revert Hc. destruct c as [[] [] [] [] [] [] [] []]; vm_compute; done. }
  apply bool_decide_eq_false in H3. done.
Qed.

Lemma next_token_spelled t l :
  spellable t → src l = spell t → ∃ t' l1, next_token l = Ok (t', l1) ∧ tok t' = t ∧ src l1 = "".
Proof.
  destruct t as [|s|f text|s|p]; simpl; intros Ht Hl; [done| | | |].
  - destruct s as [|c s]; [done|]. simpl in Ht. apply andb_true_iff in Ht as [Hc Hs].
    unfold next_token. rewrite (skip_nonblank c s l Hl (ident_start_blank c Hc)), Hl, Hc.
    destruct (scan_ident_all (String c s) l Hl) as (l1 & -> & ?); [|eauto].
    simpl. unfold isIdentPart. by rewrite Hc.
  - destruct Ht as [Hn Hf]. destruct text as [|c s]; [done|]. simpl in Hn.
    case_bool_decide as Hc.
    + subst c. apply andb_true_iff in Hn as [Hd Hn].
      unfold next_token. rewrite (skip_nonblank _ s l Hl eq_refl), Hl. simpl. rewrite Hd.
      destruct (scan_number_all false s (advance "-" s l) (advance_src _ _ _) Hn) as (l1 & -> & ?).
      rewrite Hf. eauto.
    + apply andb_true_iff in Hn as [Hd Hn]. destruct (digit_facts c Hd) as (Hb & Hi & _).
      unfold next_token. rewrite (skip_nonblank c s l Hl Hb), Hl, Hi, Hd. simpl orb. cbv iota.
      rewrite bool_decide_eq_false_2 by done.
      destruct (scan_number_all false (String c s) l Hl) as (l1 & -> & ?); [simpl; by rewrite Hd|].
      rewrite Hf. eauto.
  - unfold next_token. rewrite (skip_nonblank _ _ l Hl eq_refl), Hl. simpl.
    destruct (scan_string_doubled s (advance "'" (double_quotes s +:+ "'") l) (advance_src _ _ _))
      as (l1 & -> & ?). eauto.
  - assert (Forall (fun p => src l = p →
      ∃ t' l1, next_token l = Ok (t', l1) ∧ tok t' = TPunct p ∧ src l1 = "")
      (two_byte_ops ++ map (fun c => String c "") one_byte_ops)) as Hall.
    { clear. repeat (apply Forall_cons; split; [intros Hl; unfold next_token;
        rewrite (skip_nonblank _ _ l Hl eq_refl), Hl; eexists _, _; split; [reflexivity|];
        split; [done|by rewrite advance_src]|]). apply Forall_nil. done. }
    rewrite Forall_forall in Hall. by apply Hall.
Qed.

Lemma lexes_spelled t : spellable t → lexes (spell t) [t; TEOF].
Proof.
  intros Ht l f Hl Hf. destruct (next_token_spelled t l Ht Hl) as (t' & l1 & E & Ht' & Hl1).
  destruct f as [|[|f]]; [lia| |].
  - exfalso. pose proof (next_token_consumes l) as Hc. rewrite E in Hc.
    specialize (Hc ltac:(rewrite Ht'; by destruct t)). rewrite Hl in Hc. lia.
  - rewrite (lex_S _ _ _ _ E). destruct (lexes_empty l1 (S f) Hl1 ltac:(simpl; lia)) as (ts & -> & Hm).
    exists (t' :: ts). simpl. rewrite Hm, Ht'. split; [|done]. by destruct t.
Qed.

Lemma lexes_spell_all L : Forall spellable L → lexes (spell_all L) (L ++ [TEOF]).
Proof.
  induction 1 as [|t L Ht _ IH]; [apply lexes_empty|]. simpl.
  apply (lexes_app (spell t) [t]); [done|by apply lexes_spelled|]. by apply lexes_blank.
Qed.

(** ** Expressions as text *)

Context (num_text : spec_float → string).

Definition print_expr (n : node) : string := spell_all (pr num_text 0 n).

(** A number literal has a text that stands for it. *)
Definition num_ok (f : spec_float) : Prop :=
  number_like (num_text f) = true ∧ ParseFloat (num_text f) = Some f.

Fixpoint nums_ok (n : node) : Prop :=
  match n with
  | literalNode (NumOf f) => num_ok f
  | literalNode _ | identNode _ => True
  | memberNode o p => nums_ok o ∧ nums_ok p
  | unaryNode _ x => nums_ok x
  | binaryNode _ l r => nums_ok l ∧ nums_ok r
  | callNode _ args => foldr (fun a P => nums_ok a ∧ P) True args
  end.

Lemma commas_spellable ls : Forall (Forall spellable) ls → Forall spellable (commas ls).
Proof.
  induction 1 as [|l ls Hl _ IH]; [constructor|]. destruct ls as [|l' ls]; [done|].
  change (Forall spellable (l ++ TPunct "," :: commas (l' :: ls))). apply Forall_app_2; [done|].
  constructor; [|done]. unfold spellable. set_solver.
Qed.

Lemma punct_spellable p :
  p ∈ ["("; ")"; "["; "]"; "."; "!"; "||"; "&&"] ++ compare_ops → spellable (TPunct p).
Proof. unfold spellable, compare_ops, two_byte_ops, one_byte_ops. simpl. set_solver. Qed.

Lemma pr_spellable n k : printable n = true → nums_ok n → Forall spellable (pr num_text k n).
Proof.
  assert (∀ p l, p ∈ ["("; ")"; "["; "]"; "."; "!"; "||"; "&&"] ++ compare_ops →
    Forall spellable l → Forall spellable (TPunct p :: l)) as Hcons.
  { intros p l Hp Hl. constructor; [by apply punct_spellable|done]. }
  revert k. induction n as [v|s|o p IHo IHp|op x IHx|op l r IHl IHr|name args IHargs] using node_induction;
    intros k Hp Hn; rewrite pr_parens; simpl in Hp, Hn; rewrite ?andb_true_iff, ?bool_decide_eq_true in Hp;
    match goal with |- Forall _ (parens ?b ?l) => assert (Forall spellable l) as Hall;
      [|destruct b; [apply Hcons; [set_solver|apply Forall_app_2; [done|apply Hcons; [set_solver|constructor]]]|done]] end.
  - constructor; [|constructor]. by destruct v as [|[]| | | |].
  - constructor; [|constructor]. unfold ident_ok in Hp. by apply andb_true_iff in Hp as [? _].
  - destruct Hp as [Ho Hp], Hn as [Hno Hnp].
    assert (Forall spellable (pr num_text 4 o ++ TPunct "[" :: pr num_text 0 p ++ [TPunct "]"])) as Hb.
    { apply Forall_app_2; [by apply IHo|]. apply Hcons; [set_solver|].
      apply Forall_app_2; [by apply IHp|]. apply Hcons; [set_solver|constructor]. }
    destruct p as [[]| | | | |]; try exact Hb. simpl in *. destruct (ident_ok _) eqn:Ei; [|exact Hb].
    unfold ident_ok in Ei. apply andb_true_iff in Ei as [Ei _].
    apply Forall_app_2; [by apply IHo|]. apply Hcons; [set_solver|]. by repeat constructor.
  - destruct Hp as [-> Hx]. apply Hcons; [set_solver|by apply IHx].
  - destruct Hp as [[Hop Hl] Hr], Hn as [Hnl Hnr].
    apply Forall_app_2; [by apply IHl|]. apply Hcons; [set_solver|by apply IHr].
  - destruct Hp as [Hname Hargs]. unfold ident_ok in Hname. apply andb_true_iff in Hname as [Hname _].
    constructor; [done|]. apply Hcons; [set_solver|].
    apply Forall_app_2; [|apply Hcons; [set_solver|constructor]].
    apply commas_spellable. induction IHargs as [|a args Ha _ IH]; [constructor|].
    simpl in Hargs, Hn. apply andb_true_iff in Hargs as [Hpa Hargs]. destruct Hn as [Hna Hn].
    constructor; [by apply Ha|by apply IH].
Qed.

(** Printing a tree and parsing the text gives the tree back. *)
Lemma parse_printed_text n : printable n = true → nums_ok n → parse (print_expr n) = Ok n.
Proof.
  intros Hp Hn. unfold parse.
  destruct (lexes_tokens _ _ (lexes_spell_all _ (pr_spellable n 0 Hp Hn))) as (ts & E & Hm).
  change (spell_all (pr num_text 0 n)) with (print_expr n) in E. rewrite E.
  by apply (parse_printed num_text).
Qed.
End round_trip.

(** ** The theorems of the front end *)

(** For every text, [parse] returns a tree or a [ParseError]: neither the
    scanner nor the recursive descent runs away. *)
Theorem parse_terminates `{Unicode} `{FloatText} (expr : string) :
  (∃ n, parse expr = Ok n) ∨ (∃ e, parse expr = Err e).
Proof. pose proof (parse_total expr). destruct (parse expr); naive_solver. Qed.

(** C32. The parser inverts the printer: the text of a tree with the fewest
    parentheses parses to that tree.  It pins the precedence of [||], [&&],
    comparisons, [!] and member access, left associativity, the escaping of
    quotes in strings, property access by name and by index, and calls. *)
Theorem parse_inverts_printer `{Unicode} `{FloatText} (num_text : spec_float → string) (n : node)
    (Hp : printable n = true) (Hn : nums_ok num_text n) :
  parse (print_expr num_text n) = Ok n.
Proof. by apply parse_printed_text. Qed.

(** [ (a || !b['it''s'].c) && f(1, x == 2) ] *)
Definition demo_tree : node :=
  binaryNode "&&"
    (binaryNode "||" (identNode "a")
       (unaryNode "!" (memberNode (memberNode (identNode "b") (literalNode (StrOf "it's")))
                         (literalNode (StrOf "c")))))
    (callNode "f" [literalNode (NumOf (S754_finite false 4503599627370496 (-52)));
                   binaryNode "==" (identNode "x") (literalNode (StrOf ""))]).

Definition demo_num_text (_ : spec_float) : string := "1".

Lemma parse_inverts_printer_witness :
  let U := ascii_unicode in let F := demo_float_text in
  printable demo_tree = true ∧ nums_ok demo_num_text demo_tree ∧
  print_expr demo_num_text demo_tree = "( a || ! b [ 'it''s' ] . c ) && f ( 1 , x == '' ) " ∧
  parse (print_expr demo_num_text demo_tree) = Ok demo_tree.
Proof.
  split; [reflexivity|]. split.
  - cbn. unfold num_ok. repeat split; vm_compute; reflexivity.
  - split; [vm_compute; reflexivity|].
    apply (parse_inverts_printer (H := ascii_unicode) (H0 := demo_float_text) demo_num_text demo_tree);
      [reflexivity|]. cbn. unfold num_ok. repeat split; vm_compute; reflexivity.
Defined.
