(* ===== verification/ExprEval.v ===== *)
(** * Expression evaluation (internal/workflow/expression)

    [eval.go], [env.go], [functions.go], [conditions.go], [interpolate.go] and
    the pure part of [hashfiles.go].  An evaluation returns a value or one of
    the typed errors.  Parameters: the JSON codec of [encoding/json]
    ([JSONText]), the conversion of a float outside the range of [int]
    ([IntConv]), and the workspace hasher, an interface of the source. *)

From Stdlib Require Import Ascii Floats.SpecFloat.
From stdpp Require Import pretty.
From S2P Require Import Prelude GoStrings GoFloat ExprSyntax.

(** ** Errors *)

Inductive ExprError :=
  | ParseErr (e : ParseError)
  | ContextUnavailableError (Want : string) (Available : list string)
  | NotSupportedError (What : string)
  | EvalError (Expr Msg : string)
  | UnterminatedTemplate (tpl : string)
  | TemplateError (inner : string) (e : ExprError).

Abbreviation result A := (outcome ExprError A).

(** ** Parameters *)

(** What [encoding/json] decodes to and encodes from. *)
Inductive Any :=
  | ANil
  | ABool (b : bool)
  | ANumber (text : string)
  | AFloat (f : spec_float)
  | AString (s : string)
  | ASlice (l : list Any)
  | AMap (m : list (string * Any)).

Class JSONText := {
  json_Marshal : Any → string + string;
  json_Decode : string → string + Any
}.

(** [int(f)] where the specification of Go leaves the result open. *)
Class IntConv := { int_of_other : spec_float → Z }.

Record Env := {
  contexts : gmap string Value;
  hasher : option (list string → string + string)
}.

Section strings.
Context `{Unicode} `{FloatText}.
Local Open Scope Z_scope.

(** [strconv.Atoi]; [None] is an error. *)
Definition Atoi (s : string) : option Z :=
  let '(_, neg, body) := split_sign s in
  let '(v, n, rest) := read_digits 0 0 body in
  if bool_decide (n = 0%nat) || bool_decide (rest ≠ "") then None
  else let z := with_sign neg v in
       if Z.leb (- 2 ^ 63) z && Z.ltb z (2 ^ 63) then Some z else None.

(** [int(f)] *)
Definition int_of_float `{IntConv} (f : spec_float) : Z :=
  match trunc_Z f with
  | Some z => if Z.leb (- 2 ^ 63) z && Z.ltb z (2 ^ 63) then z else int_of_other f
  | None => int_of_other f
  end.

(** ** Coercions and comparison (eval.go) *)

Definition toNumber (v : Value) : option spec_float :=
  match v with
  | NumOf f => Some f
  | BoolOf true => Some f_one
  | BoolOf false => Some f_zero
  | StrOf s => ParseFloat (trim_space s)
  | _ => None
  end.

Definition is_num (v : Value) : bool := match v with NumOf _ => true | _ => false end.

Definition looseEqual (l r : Value) : bool :=
  match l, r with
  | Null, Null => true
  | BoolOf a, BoolOf b => Bool.eqb a b
  | NumOf a, NumOf b => f_eqb a b
  | StrOf a, StrOf b => equal_fold a b
  | ArrOf _, ArrOf _ | ObjOf _, ObjOf _ => bool_decide (render l = render r)
  | Null, StrOf s => bool_decide (s = "")
  | StrOf s, Null => bool_decide (s = "")
  | _, _ =>
      if is_num l || is_num r then
        match toNumber l, toNumber r with
        | Some a, Some b => f_eqb a b
        | _, _ => false
        end
      else equal_fold (render l) (render r)
  end.

(** [strings.Compare] *)
Definition Compare (a b : string) : Datatypes.comparison :=
  if str_lt a b then Lt else if bool_decide (a = b) then Eq else Gt.

(** [compare]; [None] is [ok = false]. *)
Definition compare (l r : Value) : option Datatypes.comparison :=
  let strings :=
    match l, r with
    | StrOf a, StrOf b => Some (Compare (to_lower a) (to_lower b))
    | _, _ => None
    end in
  match toNumber l, toNumber r with
  | Some a, Some b =>
      if is_num l || is_num r
      then Some (if f_ltb a b then Lt else if f_ltb b a then Gt else Eq)
      else strings
  | _, _ => strings
  end.

Fixpoint assoc {A} (m : list (string * A)) (key : string) : option A :=
  match m with
  | [] => None
  | (k, v) :: m' => if bool_decide (k = key) then Some v else assoc m' key
  end.

(** [objKey], over the bindings in the order of the [range] *)
Fixpoint first_folded (m : list (string * Value)) (key : string) : Value :=
  match m with
  | [] => Null
  | (k, v) :: m' => if equal_fold k key then v else first_folded m' key
  end.

Definition objKey (m : list (string * Value)) (key : string) : Value :=
  match assoc m key with Some v => v | None => first_folded m key end.

(** ** Environments (env.go) *)

Definition NewEnv : Env := {| contexts := ∅; hasher := None |}.

Definition With (e : Env) (name : string) (v : Value) : Env :=
  {| contexts := <[to_lower name := v]> (contexts e); hasher := hasher e |}.

Definition Lookup (e : Env) (name : string) : option Value := contexts e !! to_lower name.

Definition Available `{MapRange} (e : Env) : list string := map fst (range_map (contexts e)).

Definition JobStatusSuccess : string := "success".
Definition JobStatusFailure : string := "failure".
Definition JobStatusCancelled : string := "cancelled".
Definition jobStatusContext : string := "__jobstatus".
Definition hasherContextKey : string := "__workspacehasher".

Definition WithJobStatus (e : Env) (status : string) : Env := With e jobStatusContext (StrOf status).

Definition jobStatus (e : Env) : string :=
  match Lookup e jobStatusContext with Some (StrOf s) => s | _ => JobStatusSuccess end.

Definition WithWorkspaceHasher (e : Env) (h : list string → string + string) : Env :=
  {| contexts := contexts (With e hasherContextKey (StrOf "registered")); hasher := Some h |}.

(** ** Functions (functions.go) *)

Definition fn_error {A} (msg : string) : result A := Err (EvalError "" msg).

Definition arity (name : string) (args : list Value) (want : list nat) : option ExprError :=
  if bool_decide (length args ∈ want) then None
  else Some (EvalError "" (name +:+ "() takes " +:+ pretty (N.of_nat (hd 0%nat want)) +:+
              " argument(s), got " +:+ pretty (N.of_nat (length args)))).

(** The loop of [formatGitHub]; [skip] counts the bytes already taken. *)
Fixpoint format_loop (skip : nat) (args : list Value) (tpl : string) : result string :=
  match tpl with
  | "" => Ok ""
  | String c rest =>
      match skip with
      | S k => format_loop k args rest
      | O =>
          if bool_decide (c = "{"%char) then
            if has_prefix tpl "{{" then
              match format_loop 1 args rest with Ok t => Ok (String "{" t) | e => e end
            else match index tpl "}" with
                 | None => fn_error "format(): unterminated { in template"
                 | Some stop =>
                     let bad := fn_error ("format(): bad placeholder " +:+ quote (str_take (stop + 1) tpl)) in
                     match Atoi (str_take (stop - 1) rest) with
                     | None => bad
                     | Some idx =>
                         if Z.ltb idx 0 then bad
                         else match args !! Z.to_nat idx with
                              | None => bad
                              | Some v =>
                                  match format_loop stop args rest with
                                  | Ok t => Ok (render v +:+ t)
                                  | e => e
                                  end
                              end
                     end
                 end
          else if bool_decide (c = "}"%char) then
            if has_prefix tpl "}}" then
              match format_loop 1 args rest with Ok t => Ok (String "}" t) | e => e end
            else fn_error "format(): stray } in template"
          else match format_loop 0 args rest with Ok t => Ok (String c t) | e => e end
      end
  end.

Definition formatGitHub (tpl : string) (args : list Value) : result Value :=
  match format_loop 0 args tpl with Ok s => Ok (StrOf s) | Err e => Err e | Panic => Panic end.

Fixpoint valueToAny (v : Value) : Any :=
  match v with
  | Null => ANil
  | BoolOf b => ABool b
  | NumOf f => ANumber (FormatNumber f)
  | StrOf s => AString s
  | ArrOf vs => ASlice (map valueToAny vs)
  | ObjOf m => AMap (map (fun p => (fst p, valueToAny (snd p))) m)
  end.

Fixpoint anyToValue (raw : Any) : Value :=
  match raw with
  | ANil => Null
  | ABool b => BoolOf b
  | ANumber text => match ParseFloat text with Some f => NumOf f | None => StrOf text end
  | AFloat f => NumOf f
  | AString s => StrOf s
  | ASlice l => ArrOf (map anyToValue l)
  | AMap m => ObjOf (map (fun p => (fst p, anyToValue (snd p))) m)
  end.

(** [hashFilesFn] (hashfiles.go) *)
Fixpoint hash_patterns (args : list Value) : result (list string) :=
  match args with
  | [] => Ok []
  | StrOf s :: args' =>
      if contains s (byte_str 0) then fn_error "hashFiles(): invalid pattern"
      else match hash_patterns args' with
           | Ok ps => Ok (s :: ps)
           | Err e => Err e
           | Panic => Panic
           end
  | _ :: _ => fn_error "hashFiles(): patterns must be strings"
  end.

Definition hashFilesFn (env : Env) (args : list Value) : result Value :=
  match args with
  | [] => fn_error "hashFiles() takes at least one pattern"
  | _ =>
      match hash_patterns args with
      | Err e => Err e
      | Panic => Panic
      | Ok patterns =>
          match hasher env with
          | None => Err (NotSupportedError "function hashFiles() outside a workspace context")
          | Some h => match h patterns with
                      | inl err => fn_error ("hashFiles(): " +:+ err)
                      | inr sum => Ok (StrOf sum)
                      end
          end
      end
  end.

Definition with_arity (name : string) (args : list Value) (want : list nat) (r : result Value) : result Value :=
  match arity name args want with Some e => Err e | None => r end.

Definition arg (args : list Value) (i : nat) : Value := nth i args Null.

(** The table [functions]; [None]: no such function. *)
Definition functions `{JSONText} (name : string) : option (Env → list Value → result Value) :=
  if bool_decide (name = "hashfiles") then Some hashFilesFn
  else if bool_decide (name = "success") then
    Some (fun env _ => Ok (BoolOf (bool_decide (jobStatus env = JobStatusSuccess))))
  else if bool_decide (name = "failure") then
    Some (fun env _ => Ok (BoolOf (bool_decide (jobStatus env = JobStatusFailure))))
  else if bool_decide (name = "cancelled") then
    Some (fun env _ => Ok (BoolOf (bool_decide (jobStatus env = JobStatusCancelled))))
  else if bool_decide (name = "always") then Some (fun _ _ => Ok (BoolOf true))
  else if bool_decide (name = "contains") then
    Some (fun _ args => with_arity "contains" args [2%nat]
      match arg args 0 with
      | ArrOf items => Ok (BoolOf (existsb (fun item => looseEqual item (arg args 1)) items))
      | v => Ok (BoolOf (contains (to_lower (render v)) (to_lower (render (arg args 1)))))
      end)
  else if bool_decide (name = "startswith") then
    Some (fun _ args => with_arity "startsWith" args [2%nat]
      (Ok (BoolOf (has_prefix (to_lower (render (arg args 0))) (to_lower (render (arg args 1)))))))
  else if bool_decide (name = "endswith") then
    Some (fun _ args => with_arity "endsWith" args [2%nat]
      (Ok (BoolOf (has_suffix (to_lower (render (arg args 0))) (to_lower (render (arg args 1)))))))
  else if bool_decide (name = "format") then
    Some (fun _ args => match args with
      | [] => fn_error "format() needs a template"
      | tpl :: rest => formatGitHub (render tpl) rest
      end)
  else if bool_decide (name = "join") then
    Some (fun _ args => with_arity "join" args [1; 2]%nat
      (let sep := if bool_decide (length args = 2%nat) then render (arg args 1) else "," in
       match arg args 0 with
       | ArrOf items => Ok (StrOf (join (map render items) sep))
       | v => Ok (StrOf (render v))
       end))
  else if bool_decide (name = "tojson") then
    Some (fun _ args => with_arity "toJSON" args [1%nat]
      match json_Marshal (valueToAny (arg args 0)) with
      | inl err => fn_error ("toJSON: " +:+ err)
      | inr b => Ok (StrOf b)
      end)
  else if bool_decide (name = "fromjson") then
    Some (fun _ args => with_arity "fromJSON" args [1%nat]
      match json_Decode (render (arg args 0)) with
      | inl err => fn_error ("fromJSON: " +:+ err)
      | inr raw => Ok (anyToValue raw)
      end)
  else None.
End strings.

(** ** Evaluation (eval.go) *)

Section eval.
Context `{Unicode} `{FloatText} `{JSONText} `{IntConv} `{MapRange}.
Local Open Scope Z_scope.

(** [evalMember] on the two values *)
Definition member_value (obj prop : Value) : Value :=
  match obj, prop with
  | ObjOf m, StrOf key => objKey m key
  | ArrOf vs, NumOf f =>
      let idx := int_of_float f in
      if Z.ltb idx 0 || Z.leb (Z.of_nat (length vs)) idx then Null
      else nth (Z.to_nat idx) vs Null
  | _, _ => Null
  end.

(** The strict operators of [evalBinary] *)
Definition binary_value (op : string) (l r : Value) (expr : string) : result Value :=
  let ordered (f : Datatypes.comparison → bool) :=
    Ok (BoolOf (match compare l r with Some c => f c | None => false end)) in
  if bool_decide (op = "==") then Ok (BoolOf (looseEqual l r))
  else if bool_decide (op = "!=") then Ok (BoolOf (negb (looseEqual l r)))
  else if bool_decide (op = "<") then ordered (fun c => match c with Lt => true | _ => false end)
  else if bool_decide (op = "<=") then ordered (fun c => match c with Gt => false | _ => true end)
  else if bool_decide (op = ">") then ordered (fun c => match c with Gt => true | _ => false end)
  else if bool_decide (op = ">=") then ordered (fun c => match c with Lt => false | _ => true end)
  else Err (EvalError expr ("unknown operator " +:+ op)).

Local Open Scope go_scope.

Fixpoint evalNode (n : node) (env : Env) (expr : string) : result Value :=
  match n with
  | literalNode v => Ok v
  | identNode name =>
      match Lookup env name with
      | None => Err (ContextUnavailableError name (Available env))
      | Some v => Ok v
      end
  | memberNode o p =>
      let! obj := evalNode o env expr in
      let! prop := evalNode p env expr in
      Ok (member_value obj prop)
  | unaryNode _ x =>
      let! v := evalNode x env expr in
      Ok (BoolOf (negb (Truthy v)))
  | binaryNode op l r =>
      let! lv := evalNode l env expr in
      if bool_decide (op = "&&") && negb (Truthy lv) then Ok lv
      else if bool_decide (op = "||") && Truthy lv then Ok lv
      else let! rv := evalNode r env expr in
           if bool_decide (op = "&&") || bool_decide (op = "||") then Ok rv
           else binary_value op lv rv expr
  | callNode name args =>
      match functions (to_lower name) with
      | None => Err (NotSupportedError ("function " +:+ name +:+ "()"))
      | Some fn =>
          let! vs := (fix evalArgs (l : list node) : result (list Value) :=
            match l with
            | [] => Ok []
            | a :: l' => let! v := evalNode a env expr in
                         let! vs := evalArgs l' in
                         Ok (v :: vs)
            end) args in
          fn env vs
      end
  end.

(** [Eval]; [None] is the nil environment. *)
Definition Eval (expr : string) (env : option Env) : result Value :=
  match parse expr with
  | Err e => Err (ParseErr e)
  | Panic => Panic
  | Ok ast => evalNode ast (match env with Some e => e | None => NewEnv end) expr
  end.

(** ** Templates (interpolate.go) *)

(** The loop of [Interpolate]; [skip] counts the bytes already taken. *)
Fixpoint interpolate_loop (skip : nat) (whole : string) (env : option Env) (tpl : string) : result string :=
  match tpl with
  | "" => Ok ""
  | String c rest =>
      match skip with
      | S k => interpolate_loop k whole env rest
      | O =>
          if has_prefix tpl "${{" then
            match index tpl "}}" with
            | None => Err (UnterminatedTemplate whole)
            | Some stop =>
                let inner := trim_space (str_take (stop - 3) (str_drop 3 tpl)) in
                match Eval inner env with
                | Err e => Err (TemplateError inner e)
                | Panic => Panic
                | Ok v => let! t := interpolate_loop (stop + 1) whole env rest in Ok (render v +:+ t)
                end
            end
          else let! t := interpolate_loop 0 whole env rest in Ok (String c t)
      end
  end.

Definition Interpolate (tpl : string) (env : option Env) : result string :=
  interpolate_loop 0 tpl env tpl.

Definition HasExpression (s : string) : bool := contains s "${{".

(** ** Conditions (conditions.go) *)

Definition mentionsStatusFunction (cond : string) : bool :=
  existsb (contains (to_lower cond)) ["success("; "failure("; "cancelled("; "always("].

(** The text [success() && (cond)]. *)
Definition guarded (cond : string) : string := "success() && (" +:+ cond +:+ ")".

(** The conditions that do not get the implicit guard. *)
Definition unguarded (cond : string) : bool :=
  mentionsStatusFunction cond || contains (to_lower cond) "needs." || contains (to_lower cond) "job.".

Definition EvaluateCondition (raw : string) (env : option Env) : result bool :=
  let cond := trim_space raw in
  let eval (c : string) := let! v := Eval c env in Ok (Truthy v) in
  if bool_decide (cond = "") then Ok true
  else if contains cond "${{" then
    let! rendered := Interpolate cond env in
    let cond' := trim_space rendered in
    if bool_decide (cond' = "") then Ok true else eval cond'
  else if negb (unguarded cond) then eval (guarded cond)
  else eval cond.
End eval.

(** ** Error texts (errors.go) *)

Definition ParseError_Error (e : ParseError) : string :=
  "expression parse error at " +:+ pretty (PELine e) +:+ ":" +:+ pretty (PEColumn e) +:+ ": " +:+ PEMsg e.

Fixpoint error_text `{Unicode} (e : ExprError) : string :=
  match e with
  | ParseErr e => ParseError_Error e
  | ContextUnavailableError want available =>
      "expression: context " +:+ quote want +:+ " is not available in this phase (available: " +:+
      join (sort_strings available) ", " +:+ ")"
  | NotSupportedError what => "expression: " +:+ what +:+ " is not supported in this build"
  | EvalError expr msg => "expression eval error in " +:+ quote expr +:+ ": " +:+ msg
  | UnterminatedTemplate tpl => "expression: unterminated ${{ in template: " +:+ tpl
  | TemplateError inner e => "expression: template " +:+ quote inner +:+ ": " +:+ error_text e
  end.
