(* ===== verification/ExprTheorems.v ===== *)
(** * Properties of expression evaluation (internal/workflow/expression)

    The implicit guard of conditions: [EvaluateCondition] wraps a condition that
    names no status function in [success() && (...)], as text.  For a condition
    that is an expression the wrapped text parses to the conjunction of the two
    trees; the theorems say what follows for its value, and what happens to a text
    that is not one.  Then templates and [format] as the concatenation of their
    pieces, the symmetry of loose equality, and the places where the text-level
    treatment shows. *)

From Stdlib Require Import Ascii Floats.SpecFloat.
From stdpp Require Import pretty.
From S2P Require Import Prelude GoStrings GoFloat ExprSyntax ExprParserFacts ExprPrint ExprLex ExprEval.

Section guard.
Context `{Unicode} `{FloatText}.

Definition guard_tokens : list Tok :=
  [TIdent "success"; TPunct "("; TPunct ")"; TPunct "&&"; TPunct "("].

Lemma lex_cons f l t l1 L s :
  next_token l = Ok (t, l1) → tok t ≠ TEOF → src l1 = s → String.length s < f → lexes s L →
  ∃ ts, lex (S f) l = Ok ts ∧ map tok ts = tok t :: L.
Proof.
  intros E Ht Hs Hf HL. rewrite (lex_S _ _ _ _ E). destruct (HL l1 f Hs Hf) as (ts & -> & Hm).
  exists (t :: ts). simpl. rewrite Hm. by destruct (tok t).
Qed.

Lemma lexes_cons s s' t L :
  (∀ l, src l = s → ∃ tk l1, next_token l = Ok (tk, l1) ∧ tok tk = t ∧ src l1 = s') →
  t ≠ TEOF → lexes s' L → lexes s (t :: L).
Proof.
  intros Hstep Ht HL l f Hl Hf. destruct (Hstep l Hl) as (tk & l1 & E & <- & Hl1).
  destruct f as [|f]; [lia|]. eapply lex_cons; try done.
  pose proof (next_token_consumes l) as Hc. rewrite E in Hc. specialize (Hc Ht).
  rewrite Hl in Hc. subst s'. lia.
Qed.

Ltac read_token :=
  let l := fresh "l" in let Hl := fresh "Hl" in
  intros l Hl; unfold next_token; rewrite Hl; simpl; rewrite ?advance_src; simpl;
  rewrite ?Hl; simpl; eexists _, _; split; [reflexivity|]; split; [done|by rewrite ?advance_src].

Lemma lexes_guarded cond L : lexes cond (L ++ [TEOF]) →
  lexes (guarded cond) (guard_tokens ++ L ++ [TPunct ")"; TEOF]).
Proof.
  intros Hc. unfold guarded, guard_tokens. cbn [app].
  apply (lexes_cons _ ("() && (" +:+ cond +:+ ")")); [read_token|done|].
  apply (lexes_cons _ (") && (" +:+ cond +:+ ")")); [read_token|done|].
  apply (lexes_cons _ (" && (" +:+ cond +:+ ")")); [read_token|done|].
  apply (lexes_cons _ (" (" +:+ cond +:+ ")")); [read_token|done|].
  apply (lexes_cons _ (cond +:+ ")")); [read_token|done|].
  apply lexes_app; [done|done|].
  apply (lexes_cons _ ""); [read_token|done|]. apply lexes_empty.
Qed.

(** A parsed text parses the same way before a closing parenthesis. *)
Lemma parsed_before_paren ts body last n :
  ts = body ++ [last] → tok last = TEOF → Forall (.≠ TEOF) (map tok body) → parse_tokens ts = Ok n →
  ev (lev 0) (toks (map tok body) ++ [at0 (TPunct ")"); eof_token]) n [at0 (TPunct ")"); eof_token].
Proof.
  intros -> Hlast Hbody E. unfold parse_tokens in E.
  destruct (parseOr _ _) as [[n' rest]|e|] eqn:Ep; [|done..].
  destruct (tok (cur rest)) eqn:Er; [|done..]. injection E as ->.
  exists (S (length (body ++ [last]))). intros f Hf.
  destruct (parseOr_sim [at0 (TPunct ")"); eof_token] (S (length (body ++ [last]))) f
    ltac:(by right) Hf (body ++ [last]) (toks (map tok body) ++ [at0 (TPunct ")"); eof_token]) n rest)
    as (r & Er' & Hrel); [|done|].
  - clear -Hbody Hlast. induction body as [|t body IH]; [by constructor|].
    simpl in *. inversion Hbody; subst. constructor; [done|done|by apply IH].
  - simpl. rewrite Er'. inversion Hrel; subst; [|done]. simpl in Er. by destruct (tok t).
Qed.

(** The tree of the wrapped text. *)
Lemma parse_guarded cond n :
  parse cond = Ok n → parse (guarded cond) = Ok (binaryNode "&&" (callNode "success" []) n).
Proof.
  unfold parse. destruct (tokens cond) as [ts|e|] eqn:Et; [|done..]. intros Ep.
  destruct (tokens_lexes _ _ Et) as (body & last & Hts & Hlast & Hbody & HL).
  assert (map tok ts = map tok body ++ [TEOF]) as Hm by (by rewrite Hts, map_app, <-Hlast).
  rewrite Hm in HL.
  destruct (lexes_tokens _ _ (lexes_guarded _ _ HL)) as (ts' & -> & Hm').
  apply (parse_tokens_ev (guard_tokens ++ map tok body ++ [TPunct ")"])).
  - apply Forall_app_2; [unfold guard_tokens; by repeat constructor|]. apply Forall_app_2; [done|].
    by repeat constructor.
  - rewrite Hm', <-!app_assoc. done.
  - rewrite toks_app, <-app_assoc. unfold guard_tokens.
    apply (climb 0 1); [lia|lia|done|lia|].
    eapply (lev_then_loop 1 _ (callNode "success" []) (at0 (TPunct "&&") :: at0 (TPunct "(") ::
        toks (map tok body ++ [TPunct ")"]) ++ [eof_token])); [set_solver| |].
    + apply (climb 2 5); [lia|lia|apply stops_punct; set_solver|done|].
      apply (ev_call (fun _ => "") "success" []); [done|constructor].
    + eapply loop_step; [lia|set_solver|done| |apply loop_done; [set_solver|done]].
      apply (climb 2 5); [lia|lia|done|done|]. apply ev_parens.
      rewrite toks_app, <-app_assoc. by eapply parsed_before_paren.
Qed.
End guard.

(** ** Evaluation *)

(** ** Decimal numbers *)

Lemma digit_char_N (x : N) : (x < 10)%N →
  is_digit (pretty_N_char x) = true ∧ digit_value (pretty_N_char x) = Z.of_N x.
Proof.
  intros Hx. assert (x ∈ [0; 1; 2; 3; 4; 5; 6; 7; 8; 9]%N) as Hin.
  { destruct x as [|[[[[]|[]|]|[[]|[]|]|]|[[[]|[]|]|[[]|[]|]|]|]]; try lia; set_solver. }
  repeat (apply elem_of_cons in Hin as [-> | Hin]; [by split; vm_compute|]). set_solver.
Qed.

Lemma read_pretty_go (x : N) s :
  (0 < x)%N → ∃ d, (0 < d) ∧
    ∀ k, read_digits 0 k (pretty_N_go x s) = read_digits (Z.of_N x) (k + d) s.
Proof.
  revert s. induction (N.lt_wf_0 x) as [x _ IH]; intros s Hx.
  rewrite pretty_N_go_step by done.
  assert (x mod 10 < 10)%N as Hm by (apply N.mod_lt; lia).
  destruct (digit_char_N _ Hm) as [Hd Hv].
  assert (∀ acc k t, read_digits acc k (String (pretty_N_char (x mod 10)) t) =
    read_digits (acc * 10 + Z.of_N (x mod 10)) (S k) t) as Hstep.
  { intros acc k t. cbn [read_digits]. by rewrite Hd, Hv. }
  pose proof (N.div_mod x 10 ltac:(lia)) as Hdm.
  destruct (decide (x / 10 = 0)%N) as [E|Hne].
  - exists 1. split; [lia|]. intros k. rewrite E. rewrite pretty_N_go_0, Hstep.
    f_equal; [lia|lia].
  - destruct (IH (x / 10)%N (N.div_lt x 10 Hx eq_refl) (String (pretty_N_char (x mod 10)) s) (proj1 (N.neq_0_lt_0 _) Hne))
      as (d & Hd0 & E). exists (S d). split; [lia|]. intros k. rewrite E, Hstep. f_equal; lia.
Qed.

Lemma pretty_go_digits (x : N) s :
  (0 < x)%N → digit_next (pretty_N_go x s) = true ∧
    byte_in "}" (pretty_N_go x s) = byte_in "}" s.
Proof.
  revert s. induction (N.lt_wf_0 x) as [x _ IH]; intros s Hx.
  rewrite pretty_N_go_step by done.
  assert (x mod 10 < 10)%N as Hm by (apply N.mod_lt; lia).
  destruct (digit_char_N _ Hm) as [Hd _].
  assert (byte_in "}" (String (pretty_N_char (x mod 10)) s) = byte_in "}" s) as Hb.
  { simpl. rewrite bool_decide_eq_false_2; [done|]. intros E. rewrite <-E in Hd. by vm_compute in Hd. }
  destruct (decide (x / 10 = 0)%N) as [->|Hne].
  - rewrite pretty_N_go_0. by split.
  - destruct (IH (x / 10)%N (N.div_lt x 10 Hx eq_refl) (String (pretty_N_char (x mod 10)) s) (proj1 (N.neq_0_lt_0 _) Hne))
      as [-> ->]. by rewrite Hb.
Qed.

Lemma Atoi_pretty (n : N) : (Z.of_N n < 2 ^ 63)%Z → Atoi (pretty n) = Some (Z.of_N n).
Proof.
  intros Hn. unfold Atoi.
  assert (split_sign (pretty n) = (false, false, pretty n) ∧
    ∃ d, 0 < d ∧ read_digits 0 0 (pretty n) = (Z.of_N n, d, "")) as [-> (d & Hd & ->)].
  { destruct (decide (n = 0%N)) as [->|Hne]; [by split; [|exists 1]; vm_compute; auto|].
    assert (pretty n = pretty_N_go n "") as ->.
    { unfold pretty, pretty_N. by rewrite decide_False. }
    destruct (pretty_go_digits n "" ltac:(lia)) as [Hdig _].
    destruct (read_pretty_go n "" ltac:(lia)) as (d & Hd & E). split.
    - destruct (pretty_N_go n "") as [|c r]; [done|]. simpl in Hdig.
      destruct c as [[] [] [] [] [] [] [] []]; done.
    - exists d. split; [done|]. rewrite E. done. }
  rewrite bool_decide_eq_false_2 by lia. simpl orb. cbv iota.
  rewrite (proj2 (Z.leb_le _ _)), (proj2 (Z.ltb_lt _ _)); simpl; lia || done.
Qed.

Lemma pretty_no_brace (n : N) : byte_in "}" (pretty n) = false ∧ digit_next (pretty n) = true.
Proof.
  destruct (decide (n = 0%N)) as [->|Hne]; [done|].
  assert (pretty n = pretty_N_go n "") as -> by (unfold pretty, pretty_N; by rewrite decide_False).
  by destruct (pretty_go_digits n "" ltac:(lia)) as [-> ->].
Qed.

(** ** [format] *)

Inductive piece := Lit (s : string) | Arg (i : nat).

(** The braces of a literal are doubled. *)
Fixpoint double_braces (s : string) : string :=
  match s with
  | "" => ""
  | String c s' => if bool_decide (c ∈ ["{"; "}"]%char) then String c (String c (double_braces s'))
                   else String c (double_braces s')
  end.

Fixpoint template (ps : list piece) : string :=
  match ps with
  | [] => ""
  | Lit s :: ps' => double_braces s +:+ template ps'
  | Arg i :: ps' => "{" +:+ pretty (N.of_nat i) +:+ "}" +:+ template ps'
  end.

Section format.
Context `{Unicode} `{FloatText}.

Fixpoint filled (args : list Value) (ps : list piece) : string :=
  match ps with
  | [] => ""
  | Lit s :: ps' => s +:+ filled args ps'
  | Arg i :: ps' => render (nth i args Null) +:+ filled args ps'
  end.

Lemma format_skip args a b : format_loop (String.length a) args (a +:+ b) = format_loop 0 args b.
Proof. induction a as [|c a IH]; simpl; [done|exact IH]. Qed.

Lemma format_lit args s rest t :
  format_loop 0 args rest = Ok t → format_loop 0 args (double_braces s +:+ rest) = Ok (s +:+ t).
Proof.
  intros Hr. induction s as [|c s IH]; [done|]. cbn [double_braces].
  destruct (decide (c ∈ ["{"; "}"]%char)) as [Hc|Hc].
  - rewrite bool_decide_eq_true_2 by done.
    assert (c = "{"%char ∨ c = "}"%char) as [-> | ->] by set_solver.
    + change (String "{" (String "{" (double_braces s)) +:+ rest)
        with (String "{" (String "{" (double_braces s +:+ rest))).
      assert (has_prefix (String "{" (String "{" (double_braces s +:+ rest))) "{{" = true) as Hp
        by (apply has_prefix_spec; by exists (double_braces s +:+ rest)).
      cbn [format_loop]. rewrite Hp. rewrite bool_decide_eq_true_2 by done.
      by rewrite IH.
    + change (String "}" (String "}" (double_braces s)) +:+ rest)
        with (String "}" (String "}" (double_braces s +:+ rest))).
      assert (has_prefix (String "}" (String "}" (double_braces s +:+ rest))) "}}" = true) as Hp
        by (apply has_prefix_spec; by exists (double_braces s +:+ rest)).
      cbn [format_loop]. rewrite Hp. rewrite bool_decide_eq_false_2 by done.
      rewrite bool_decide_eq_true_2 by done. by rewrite IH.
  - rewrite bool_decide_eq_false_2 by done.
    change (String c (double_braces s) +:+ rest) with (String c (double_braces s +:+ rest)).
    cbn [format_loop]. rewrite !bool_decide_eq_false_2 by set_solver. by rewrite IH.
Qed.

Lemma format_arg args i rest t :
  i < length args → (Z.of_nat (length args) < 2 ^ 63)%Z → format_loop 0 args rest = Ok t →
  format_loop 0 args ("{" +:+ pretty (N.of_nat i) +:+ "}" +:+ rest) = Ok (render (nth i args Null) +:+ t).
Proof.
  intros Hi Hlen Hr. set (p := pretty (N.of_nat i) : string).
  destruct (pretty_no_brace (N.of_nat i)) as [Hb Hd]. fold p in Hb, Hd.
  change ("{" +:+ p +:+ "}" +:+ rest) with (String "{" (p +:+ "}" +:+ rest)).
  cbn [format_loop].
  assert (has_prefix (String "{" (p +:+ "}" +:+ rest)) "{{" = false) as ->.
  { destruct p as [|c p]; [done|]. apply not_true_is_false. rewrite has_prefix_spec.
    intros [x Hx]. simpl in Hx. simplify_eq. }
  assert (index (String "{" (p +:+ "}" +:+ rest)) "}" = Some (S (String.length p))) as ->.
  { change (String "{" (p +:+ "}" +:+ rest)) with (String "{" p +:+ String "}" rest).
    rewrite index_byte_app; [done|]. simpl. by rewrite Hb. }
  assert (str_take (S (String.length p) - 1) (p +:+ "}" +:+ rest) = p) as ->.
  { simpl. rewrite Nat.sub_0_r. apply str_take_app. }
  rewrite bool_decide_eq_true_2 by done.
  assert (Atoi p = Some (Z.of_N (N.of_nat i))) as -> by (apply Atoi_pretty; lia). rewrite (proj2 (Z.ltb_ge _ _)) by lia.
  assert (Z.to_nat (Z.of_N (N.of_nat i)) = i) as -> by lia.
  destruct (lookup_lt_is_Some_2 args i Hi) as [v Hv]. rewrite Hv.
  assert (nth i args Null = v) as -> by (by apply nth_lookup_Some).
  assert (format_loop (S (String.length p)) args (p +:+ "}" +:+ rest) = format_loop 0 args rest) as ->.
  { change (p +:+ "}" +:+ rest) with (p +:+ String "}" rest).
    replace (S (String.length p)) with (String.length (p +:+ "}")) by (rewrite app_str_length; simpl; lia).
    replace (p +:+ String "}" rest) with ((p +:+ "}") +:+ rest) by (by rewrite app_str_assoc).
    apply format_skip. }
  by rewrite Hr.
Qed.

(** [format]: a template built of literal pieces, their braces doubled, and of
    placeholders is filled piece by piece: the literals come out verbatim and
    each placeholder as the display text of its argument. *)
Theorem format_fills_template (ps : list piece) (args : list Value)
    (Hargs : Forall (fun p => match p with Arg i => i < length args | Lit _ => True end) ps)
    (Hlen : (Z.of_nat (length args) < 2 ^ 63)%Z) :
  formatGitHub (template ps) args = Ok (StrOf (filled args ps)).
Proof.
  unfold formatGitHub. assert (format_loop 0 args (template ps) = Ok (filled args ps)) as ->; [|done].
  induction Hargs as [|p ps Hp _ IH]; [done|]. destruct p as [s|i]; simpl.
  - by apply format_lit.
  - by apply format_arg.
Qed.
End format.

Lemma format_fills_template_witness :
  let U := ascii_unicode in let F := demo_float_text in
  template [Lit "{a} "; Arg 1; Arg 0; Lit "}"] = "{{a}} {1}{0}}}" ∧
  formatGitHub "{{a}} {1}{0}}}" [StrOf "x"; BoolOf true] = Ok (StrOf "{a} truex}").
Proof.
  split; [vm_compute; reflexivity|].
  apply (format_fills_template (H := ascii_unicode) (H0 := demo_float_text)
    [Lit "{a} "; Arg 1; Arg 0; Lit "}"] [StrOf "x"; BoolOf true]); [|reflexivity].
  repeat constructor.
Defined.

(** ** Templates *)

Inductive segment := Text (s : string) | Hole (e : string).

Fixpoint source_text (ss : list segment) : string :=
  match ss with
  | [] => ""
  | Text s :: ss' => s +:+ source_text ss'
  | Hole e :: ss' => "${{" +:+ e +:+ "}}" +:+ source_text ss'
  end.

(** No literal text holds a dollar sign and no hole a closing brace. *)
Definition plain (s : segment) : bool :=
  match s with Text s => negb (byte_in "$" s) | Hole e => negb (byte_in "}" e) end.

Section templates.
Context `{Unicode} `{FloatText} `{JSONText} `{IntConv} `{MapRange}.
Local Open Scope go_scope.

(** The holes are evaluated from left to right; the first error is the result. *)
Fixpoint expanded (env : option Env) (ss : list segment) : result string :=
  match ss with
  | [] => Ok ""
  | Text s :: ss' => let! t := expanded env ss' in Ok (s +:+ t)
  | Hole e :: ss' =>
      match Eval (trim_space e) env with
      | Err err => Err (TemplateError (trim_space e) err)
      | Panic => Panic
      | Ok v => let! t := expanded env ss' in Ok (render v +:+ t)
      end
  end.

Lemma interpolate_skip whole env a b :
  interpolate_loop (String.length a) whole env (a +:+ b) = interpolate_loop 0 whole env b.
Proof. induction a as [|c a IH]; simpl; [done|exact IH]. Qed.

Lemma interpolate_text whole env s rest :
  byte_in "$" s = false →
  interpolate_loop 0 whole env (s +:+ rest) =
  let! t := interpolate_loop 0 whole env rest in Ok (s +:+ t).
Proof.
  induction s as [|c s IH]; intros Hs.
  { simpl. by destruct (interpolate_loop 0 whole env rest). }
  simpl in Hs. apply orb_false_iff in Hs as [Hc Hs]. apply bool_decide_eq_false in Hc.
  change (String c s +:+ rest) with (String c (s +:+ rest)). cbn [interpolate_loop].
  assert (has_prefix (String c (s +:+ rest)) "${{" = false) as ->.
  { apply not_true_is_false. rewrite has_prefix_spec. intros [x Hx]. simpl in Hx. congruence. }
  rewrite IH by done. by destruct (interpolate_loop 0 whole env rest).
Qed.

Lemma index_close e rest :
  byte_in "}" e = false → index ("${{" +:+ e +:+ "}}" +:+ rest) "}}" = Some (3 + String.length e).
Proof.
  intros He. change ("${{" +:+ e +:+ "}}" +:+ rest) with (("${{" +:+ e) +:+ String "}" "}" +:+ rest).
  rewrite (index_app_free _ "}" "}" rest); [done|]. by rewrite byte_in_app.
Qed.

Lemma interpolate_hole whole env e rest :
  byte_in "}" e = false →
  interpolate_loop 0 whole env ("${{" +:+ e +:+ "}}" +:+ rest) =
  match Eval (trim_space e) env with
  | Err err => Err (TemplateError (trim_space e) err)
  | Panic => Panic
  | Ok v => let! t := interpolate_loop 0 whole env rest in Ok (render v +:+ t)
  end.
Proof.
  intros He. pose proof (index_close e rest He) as Hi.
  assert (has_prefix ("${{" +:+ e +:+ "}}" +:+ rest) "${{" = true) as Hp by apply has_prefix_app.
  change ("${{" +:+ e +:+ "}}" +:+ rest) with (String "$" ("{{" +:+ e +:+ "}}" +:+ rest)) in *.
  cbn [interpolate_loop]. rewrite Hp, Hi.
  assert (str_take (3 + String.length e - 3) (str_drop 3 (String "$" ("{{" +:+ e +:+ "}}" +:+ rest))) = e) as ->.
  { change (str_drop 3 (String "$" ("{{" +:+ e +:+ "}}" +:+ rest))) with (e +:+ "}}" +:+ rest).
    replace (3 + String.length e - 3) with (String.length e) by lia. apply str_take_app. }
  assert (interpolate_loop (3 + String.length e + 1) whole env ("{{" +:+ e +:+ "}}" +:+ rest) =
          interpolate_loop 0 whole env rest) as ->; [|done].
  replace ("{{" +:+ e +:+ "}}" +:+ rest) with (("{{" +:+ e +:+ "}}") +:+ rest) by (by rewrite !app_str_assoc).
  replace (3 + String.length e + 1) with (String.length ("{{" +:+ e +:+ "}}"))
    by (rewrite !app_str_length; simpl; lia).
  apply interpolate_skip.
Qed.

(** [Interpolate] on a template of literal text and placeholders is the
    left-to-right expansion: literals verbatim, each placeholder the display
    text of its trimmed expression, and the first evaluation error, wrapped with
    the expression, as the result. *)
Theorem interpolate_expands (ss : list segment) (env : option Env)
    (Hp : forallb plain ss = true) :
  Interpolate (source_text ss) env = expanded env ss.
Proof.
  unfold Interpolate. generalize (source_text ss) at 1. intros whole.
  induction ss as [|[s|e] ss IH]; [done| |]; simpl in Hp; apply andb_true_iff in Hp as [Hs Hp];
    apply negb_true_iff in Hs; cbn [source_text expanded]; specialize (IH Hp).
  - by rewrite interpolate_text, IH.
  - by rewrite interpolate_hole, IH.
Qed.

(** ** Conditions *)

(** C31. A condition that is an expression and names no status function (nor
    [needs.] or [job.]) holds only for a successful job: with any other job
    status it is false, whatever it says and even where it would fail; on
    success it is the truth value of its own tree. *)
Theorem condition_guarded_by_success (raw : string) (env : Env) (n : node)
    (Hne : trim_space raw ≠ "") (Hexp : HasExpression (trim_space raw) = false)
    (Hu : unguarded (trim_space raw) = false) (Hp : parse (trim_space raw) = Ok n) :
  EvaluateCondition raw (Some env) =
    if bool_decide (jobStatus env = JobStatusSuccess)
    then let! v := evalNode n env (guarded (trim_space raw)) in Ok (Truthy v)
    else Ok false.
Proof.
  unfold EvaluateCondition, HasExpression in *. rewrite bool_decide_eq_false_2 by done.
  rewrite Hexp, Hu. simpl negb. cbv iota. unfold Eval. rewrite (parse_guarded _ n Hp).
  cbn [evalNode].
  assert (functions (to_lower "success") =
    Some (fun env _ => Ok (BoolOf (bool_decide (jobStatus env = JobStatusSuccess))))) as -> by done.
  cbn [obind]. destruct (bool_decide (jobStatus env = JobStatusSuccess)); simpl; [|done].
  by destruct (evalNode n env _).
Qed.
End templates.

Definition demo_json : JSONText :=
  {| json_Marshal := fun _ => inl "unmodelled"; json_Decode := fun _ => inl "unmodelled" |}.
Definition demo_int : IntConv := {| int_of_other := fun _ => 0%Z |}.

Section demo.
#[local] Existing Instances ascii_unicode demo_float_text demo_json demo_int some_order.

Definition failed_env : Env := WithJobStatus (With NewEnv "github" (ObjOf [("ref", StrOf "main")])) "failure".
Definition ok_env : Env := With NewEnv "github" (ObjOf [("ref", StrOf "main")]).

Lemma interpolate_expands_witness :
  Interpolate "on ${{ github.ref }}/${{ 1 == '1' }}." (Some ok_env) = Ok "on main/true.".
Proof.
  apply (interpolate_expands [Text "on "; Hole " github.ref "; Text "/"; Hole " 1 == '1' "; Text "."]
    (Some ok_env)). vm_compute. reflexivity.
Defined.

Lemma condition_guarded_by_success_witness :
  (∃ n, parse "github.ref == 'main' || other" = Ok n) ∧
  EvaluateCondition " github.ref == 'main' || other" (Some failed_env) = Ok false ∧
  EvaluateCondition " github.ref == 'main' || other" (Some ok_env) = Ok true.
Proof.
  split; [eexists; vm_compute; reflexivity|].
  split; [rewrite (condition_guarded_by_success _ failed_env
            (binaryNode "||" (binaryNode "==" (memberNode (identNode "github") (literalNode (StrOf "ref")))
                                (literalNode (StrOf "main"))) (identNode "other")))
         |rewrite (condition_guarded_by_success _ ok_env
            (binaryNode "||" (binaryNode "==" (memberNode (identNode "github") (literalNode (StrOf "ref")))
                                (literalNode (StrOf "main"))) (identNode "other")))];
    vm_compute; (reflexivity || discriminate).
Defined.

(** The guard is added to the text.  A text that is not an expression can close
    its parenthesis and escape it: the condition below is a syntax error by
    itself, and true for a failed job. *)
Example condition_escapes_guard :
  (∃ e, parse "false) || (true" = Err e) ∧
  jobStatus failed_env = JobStatusFailure ∧
  EvaluateCondition "false) || (true" (Some failed_env) = Ok true.
Proof. split; [eexists|split]; vm_compute; reflexivity. Qed.

(** A status function named in a string literal switches the guard off. *)
Example quoted_status_function_unguards :
  EvaluateCondition "github.ref != 'always()'" (Some failed_env) = Ok true.
Proof. vm_compute. reflexivity. Qed.

(** So does any mention of [needs.] or [job.], against the comment. *)
Example needs_unguards :
  EvaluateCondition "github.ref == 'needs.x' || true" (Some failed_env) = Ok true.
Proof. vm_compute. reflexivity. Qed.

(** A placeholder ends at the first pair of closing braces, also inside a string literal. *)
Example braces_in_string_end_placeholder :
  (∃ n, parse "'}}'" = Ok n) ∧ ∃ e, Interpolate "${{ '}}' }}" (Some ok_env) = Err (TemplateError "'" e).
Proof. split; eexists; vm_compute; reflexivity. Qed.

(** Of two keys that differ in case, the one Go happens to range over first is found. *)
Example objKey_depends_on_range_order :
  objKey [("Ref", StrOf "a"); ("rEF", StrOf "b")] "ref" = StrOf "a" ∧
  objKey [("rEF", StrOf "b"); ("Ref", StrOf "a")] "ref" = StrOf "b".
Proof. split; vm_compute; reflexivity. Qed.
End demo.

(** ** Object properties *)

Lemma assoc_Some {A} (m : list (string * A)) key v : assoc m key = Some v → (key, v) ∈ m.
Proof.
  induction m as [|[k w] m IH]; simpl; [done|]. case_bool_decide; intros Hv; simplify_eq; set_solver.
Qed.

Lemma assoc_lookup {A} (m : list (string * A)) key v :
  NoDup m.*1 → (key, v) ∈ m → assoc m key = Some v.
Proof.
  induction m as [|[k w] m IH]; simpl; intros Hnd Hin; [set_solver|].
  inversion Hnd as [|?? Hk Hnd']; subst. apply elem_of_cons in Hin as [[= -> ->]|Hin].
  - by rewrite bool_decide_eq_true_2.
  - rewrite bool_decide_eq_false_2; [by apply IH|]. intros ->. apply Hk.
    apply list_elem_of_fmap. by exists (key, v).
Qed.

Section objects.
Context `{Unicode}.

Lemma first_folded_spec m key :
  (∃ k v, (k, v) ∈ m ∧ equal_fold k key = true ∧ first_folded m key = v) ∨
  ((∀ k v, (k, v) ∈ m → equal_fold k key = false) ∧ first_folded m key = Null).
Proof.
  induction m as [|[k v] m IH]; simpl; [right; set_solver|].
  destruct (equal_fold k key) eqn:E; [left; exists k, v; set_solver|].
  destruct IH as [(k' & v' & Hin & E' & Hf)|[Hno Hf]]; [left|right].
  - exists k', v'. set_solver.
  - split; [|done]. intros k' v' [[= -> ->]|Hin]%elem_of_cons; [done|by eapply Hno].
Qed.

(** Property access on an object does not depend on the order in which Go
    ranges over the map, as long as at most one key equals the name up to case. *)
Theorem objKey_order_irrelevant (m m' : list (string * Value)) (key : string)
    (Hnd : NoDup m.*1) (Hperm : m ≡ₚ m')
    (Hone : ∀ k1 k2, k1 ∈ m.*1 → k2 ∈ m.*1 → equal_fold k1 key = true → equal_fold k2 key = true → k1 = k2) :
  objKey m key = objKey m' key.
Proof.
  assert (NoDup m'.*1) as Hnd' by (by rewrite <-Hperm).
  unfold objKey. destruct (assoc m key) as [v|] eqn:E.
  - apply assoc_Some in E. rewrite Hperm in E. by rewrite (assoc_lookup m' key v).
  - destruct (assoc m' key) as [v|] eqn:E'.
    { apply assoc_Some in E'. rewrite <-Hperm in E'. rewrite (assoc_lookup m key v) in E by done. done. }
    destruct (first_folded_spec m key) as [(k & v & Hin & Hf & ->)|[Hno ->]],
             (first_folded_spec m' key) as [(k' & v' & Hin' & Hf' & ->)|[Hno' ->]].
    + rewrite <-Hperm in Hin'.
      assert (k = k') as ->.
      { apply Hone; try done; [by apply (list_elem_of_fmap_2 fst) in Hin|by apply (list_elem_of_fmap_2 fst) in Hin']. }
      apply (assoc_lookup m k' v) in Hin; [|done]. apply (assoc_lookup m k' v') in Hin'; [|done]. congruence.
    + rewrite Hperm in Hin. by rewrite (Hno' k v) in Hf.
    + rewrite <-Hperm in Hin'. by rewrite (Hno k' v') in Hf'.
    + done.
Qed.
End objects.

Lemma objKey_order_irrelevant_witness :
  let U := ascii_unicode in
  objKey [("Ref", StrOf "a"); ("sha", StrOf "b")] "REF" = objKey [("sha", StrOf "b"); ("Ref", StrOf "a")] "REF".
Proof.
  apply (objKey_order_irrelevant (H := ascii_unicode)).
  - repeat constructor; simpl; set_solver.
  - apply perm_swap.
  - intros k1 k2 H1 H2. simpl in *.
    repeat (apply elem_of_cons in H1 as [-> | H1]; [|]); repeat (apply elem_of_cons in H2 as [-> | H2]; [|]);
      try (by apply not_elem_of_nil in H1); try (by apply not_elem_of_nil in H2); vm_compute;
      (reflexivity || discriminate).
Defined.

(** ** Loose equality *)

Section equality.
Context `{Unicode} `{FloatText}.

Lemma f_eqb_sym a b : f_eqb a b = f_eqb b a.
Proof.
  unfold f_eqb, SFeqb, SFcompare. destruct a as [[]|[]| |[] m e], b as [[]|[]| |[] m' e']; try done;
    rewrite (Z.compare_antisym e' e); destruct (e' ?= e)%Z; simpl; try done;
    change (Pos.compare_cont Eq m m') with (m ?= m')%positive;
    change (Pos.compare_cont Eq m' m) with (m' ?= m)%positive;
    rewrite (Pos.compare_antisym m' m); by destruct (m' ?= m)%positive.
Qed.

Lemma equal_fold_sym a b :
  (∀ x y, u_equal_fold x y = u_equal_fold y x) → equal_fold a b = equal_fold b a.
Proof.
  intros Hs. unfold equal_fold. rewrite (andb_comm (all_ascii a)).
  destruct (all_ascii b && all_ascii a); [|done]. apply bool_decide_ext. by split.
Qed.

(** The operator [==] is symmetric, across all kinds of values and their
    coercions. *)
Theorem looseEqual_symmetric (l r : Value) (Hs : ∀ x y, u_equal_fold x y = u_equal_fold y x) :
  looseEqual l r = looseEqual r l.
Proof.
  assert (∀ a b : option spec_float,
    match a, b with Some x, Some y => f_eqb x y | _, _ => false end =
    match b, a with Some x, Some y => f_eqb x y | _, _ => false end) as Hn.
  { intros [x|] [y|]; try done. apply f_eqb_sym. }
  destruct l as [|a|f|s|vs|m], r as [|b|g|t|ws|m']; try done; unfold looseEqual;
    first [exact (Hn (toNumber (BoolOf _)) (toNumber (NumOf _)))
          | exact (Hn (toNumber (NumOf _)) (toNumber (BoolOf _)))
          | exact (Hn (toNumber (StrOf _)) (toNumber (NumOf _)))
          | exact (Hn (toNumber (NumOf _)) (toNumber (StrOf _)))
          | apply f_eqb_sym | by apply equal_fold_sym | by destruct a, b
          | apply bool_decide_ext; by split | idtac].
Qed.
End equality.

Lemma looseEqual_symmetric_witness :
  let U := ascii_unicode in let F := demo_float_text in
  looseEqual (StrOf " 1") (BoolOf true) = looseEqual (BoolOf true) (StrOf " 1") ∧
  looseEqual (NumOf f_one) (StrOf " 1.0 ") = true.
Proof.
  split; [|vm_compute; reflexivity].
  apply (looseEqual_symmetric (H := ascii_unicode) (H0 := demo_float_text)).
  intros x y. simpl. apply bool_decide_ext. split; congruence.
Defined.
