(* ===== verification/Globs.v ===== *)
(** * Glob patterns

    Go's [path.Match] as its library defines it, the [**] globs of
    [hashfiles.go] on top of it, and the trigger filters of [compile.go].  The
    theorems give each a declarative reading. *)

From Stdlib Require Import Ascii.
From S2P Require Import Prelude GoStrings RunModel Syntax Compiler.

(** ** [path.Match] *)

Definition byte_at (i : nat) (s : string) : N :=
  match String.get i s with Some c => byte_code c | None => 0%N end.

Definition cont_byte (lo hi : N) (b : N) : bool := N.leb lo b && N.leb b hi.

(** [utf8.DecodeRuneInString]: the rune, 0xFFFD for an invalid sequence, and its width. *)
Definition decode_rune (s : string) : N * nat :=
  let b0 := byte_at 0 s in let b1 := byte_at 1 s in let b2 := byte_at 2 s in let b3 := byte_at 3 s in
  let len := String.length s in
  let c := cont_byte 128 191 in
  if bool_decide (len = 0) then (65533%N, 0)
  else if N.ltb b0 128 then (b0, 1)
  else if N.leb 194 b0 && N.leb b0 223 && Nat.leb 2 len && c b1
  then (((b0 - 192) * 64 + (b1 - 128))%N, 2)
  else if N.leb 224 b0 && N.leb b0 239 && Nat.leb 3 len &&
          cont_byte (if N.eqb b0 224 then 160 else 128) (if N.eqb b0 237 then 159 else 191) b1 && c b2
  then (((b0 - 224) * 4096 + (b1 - 128) * 64 + (b2 - 128))%N, 3)
  else if N.leb 240 b0 && N.leb b0 244 && Nat.leb 4 len &&
          cont_byte (if N.eqb b0 240 then 144 else 128) (if N.eqb b0 244 then 143 else 191) b1 &&
          c b2 && c b3
  then (((b0 - 240) * 262144 + (b1 - 128) * 4096 + (b2 - 128) * 64 + (b3 - 128))%N, 4)
  else (65533%N, 1).

(** The length of the chunk up to the next star outside a class. *)
Fixpoint chunk_length (inrange : bool) (s : string) : nat :=
  match s with
  | "" => 0
  | String c s' =>
      if bool_decide (c = "\"%char) then
        match s' with String _ s'' => S (S (chunk_length inrange s'')) | "" => 1 end
      else if bool_decide (c = "["%char) then S (chunk_length true s')
      else if bool_decide (c = "]"%char) then S (chunk_length false s')
      else if bool_decide (c = "*"%char) && negb inrange then 0
      else S (chunk_length inrange s')
  end.

Fixpoint strip_stars (s : string) : bool * string :=
  match s with
  | String c s' => if bool_decide (c = "*"%char) then (true, snd (strip_stars s')) else (false, s)
  | "" => (false, "")
  end.

Definition scanChunk (pattern : string) : bool * string * string :=
  let '(star, p) := strip_stars pattern in
  let n := chunk_length false p in (star, str_take n p, str_drop n p).

(** [None] is [ErrBadPattern]. *)
Definition getEsc (chunk : string) : option (N * string) :=
  match chunk with
  | "" => None
  | String c rest =>
      if bool_decide (c = "-"%char) || bool_decide (c = "]"%char) then None
      else
        let body := if bool_decide (c = "\"%char) then rest else chunk in
        if bool_decide (body = "") then None
        else let '(r, n) := decode_rune body in
             let nchunk := str_drop n body in
             if (bool_decide (r = 65533%N) && bool_decide (n = 1)) || bool_decide (nchunk = "") then None
             else Some (r, nchunk)
  end.

(** The ranges of a character class; every round reads at least one byte. *)
Fixpoint class_ranges (fuel : nat) (r : N) (found : bool) (nrange : nat) (chunk : string)
    : option (bool * string) :=
  match fuel with
  | O => None
  | S fuel' =>
      if has_prefix chunk "]" && Nat.ltb 0 nrange then Some (found, str_drop 1 chunk)
      else '(lo, chunk1) ← getEsc chunk;
           '(hi, chunk2) ← (if has_prefix chunk1 "-" then getEsc (str_drop 1 chunk1) else Some (lo, chunk1));
           class_ranges fuel' r (found || (N.leb lo r && N.leb r hi)) (S nrange) chunk2
  end.

(** [matchChunk]: the rest of [s], or [None] when it failed; the outer [None] is an error. *)
Fixpoint matchChunk (fuel : nat) (failed : bool) (chunk s : string) : option (option string) :=
  match fuel with
  | O => None
  | S fuel' =>
      match chunk with
      | "" => Some (if failed then None else Some s)
      | String c rest =>
          let failed := failed || bool_decide (s = "") in
          let literal (chunk : string) :=
            match chunk with
            | "" => None
            | String d rest' =>
                if failed then matchChunk fuel' true rest' s
                else match s with
                     | String x s' => if bool_decide (d = x) then matchChunk fuel' false rest' s'
                                      else matchChunk fuel' true rest' s
                     | "" => matchChunk fuel' true rest' s
                     end
            end in
          if bool_decide (c = "["%char) then
            let '(r, s') := if failed then (0%N, s)
                            else let '(r, n) := decode_rune s in (r, str_drop n s) in
            let negated := has_prefix rest "^" in
            let body := if negated then str_drop 1 rest else rest in
            '(found, chunk') ← class_ranges (S (String.length body)) r false 0 body;
            matchChunk fuel' (failed || Bool.eqb found negated) chunk' s'
          else if bool_decide (c = "?"%char) then
            if failed then matchChunk fuel' true rest s
            else matchChunk fuel' (has_prefix s "/") rest (str_drop (snd (decode_rune s)) s)
          else if bool_decide (c = "\"%char) then literal rest
          else literal chunk
      end
  end.

Definition match_chunk (chunk s : string) : option (option string) :=
  matchChunk (S (String.length chunk)) false chunk s.

(** After a mismatch, the rest of the pattern is still checked. *)
Fixpoint check_rest (fuel : nat) (pattern : string) : option bool :=
  match fuel with
  | O => None
  | S fuel' =>
      if bool_decide (pattern = "") then Some false
      else let '(_, chunk, rest) := scanChunk pattern in
           match match_chunk chunk "" with None => None | Some _ => check_rest fuel' rest end
  end.

(** The search behind a star: the rest of the name after the chunk, found at
    some offset past the first byte and before a slash. *)
Fixpoint star_search (chunk pattern name : string) : option (option string) :=
  match name with
  | "" => Some None
  | String c name' =>
      if bool_decide (c = "/"%char) then Some None
      else match match_chunk chunk name' with
           | None => None
           | Some (Some t) =>
               if bool_decide (pattern = "") && bool_decide (t ≠ "")
               then star_search chunk pattern name' else Some (Some t)
           | Some None => star_search chunk pattern name'
           end
  end.

(** The outer loop; every chunk reads at least one byte of the pattern. *)
Fixpoint match_loop (fuel : nat) (pattern name : string) : option bool :=
  match fuel with
  | O => None
  | S fuel' =>
      if bool_decide (pattern = "") then Some (bool_decide (name = ""))
      else
        let '(star, chunk, rest) := scanChunk pattern in
        if star && bool_decide (chunk = "") then Some (negb (byte_in "/" name))
        else
          let missed :=
            match (if star then star_search chunk rest name else Some None) with
            | None => None
            | Some (Some t) => match_loop fuel' rest t
            | Some None => check_rest (S (String.length rest)) rest
            end in
          match match_chunk chunk name with
          | None => None
          | Some (Some t) =>
              if bool_decide (t = "") || bool_decide (rest ≠ "") then match_loop fuel' rest t else missed
          | Some None => missed
          end
  end.

(** [path.Match]; [None] is [ErrBadPattern]. *)
Definition path_Match (pattern name : string) : option bool :=
  match_loop (S (String.length pattern)) pattern name.

Example match_star : path_Match "release/*.x" "release/1.x" = Some true.
Proof. reflexivity. Qed.
Example match_star_slash : path_Match "release/*" "release/1/x" = Some false.
Proof. reflexivity. Qed.
Example match_class : path_Match "v[0-9]?[^a]" "v1.b" = Some true.
Proof. reflexivity. Qed.
Example match_backtrack : path_Match "*a*b" "xaaab" = Some true.
Proof. reflexivity. Qed.
Example match_bad : path_Match "a[" "b" = None.
Proof. reflexivity. Qed.
Example match_escape : path_Match "\*" "*" = Some true.
Proof. reflexivity. Qed.

(** ** Globs over path segments (hashfiles.go) *)

(** The tails of a list, the longest first. *)
Fixpoint tails {A} (l : list A) : list (list A) :=
  match l with [] => [[]] | _ :: l' => l :: tails l' end.

Fixpoint matchSegments (pat seg : list string) : option bool :=
  match pat with
  | [] => Some (bool_decide (seg = []))
  | p :: pat' =>
      if bool_decide (p = "**") then
        Some (existsb (fun seg' => match matchSegments pat' seg' with Some true => true | _ => false end)
                (tails seg))
      else match seg with
           | [] => Some false
           | s :: seg' =>
               match path_Match p s with
               | Some true => matchSegments pat' seg'
               | r => r
               end
           end
  end.

(** [strings.Trim(s, "/")] *)
Fixpoint trim_left_slash (s : string) : string :=
  match s with
  | String c s' => if bool_decide (c = "/"%char) then trim_left_slash s' else s
  | "" => ""
  end.

Fixpoint trim_right_slash (s : string) : string :=
  match s with
  | "" => ""
  | String c s' =>
      match trim_right_slash s' with
      | "" => if bool_decide (c = "/"%char) then "" else String c ""
      | t => String c t
      end
  end.

Definition trim_slashes (s : string) : string := trim_right_slash (trim_left_slash s).

(** [matchGlob] of hashfiles.go *)
Definition hash_matchGlob (pattern name : string) : option bool :=
  matchSegments (split_on "/" (trim_slashes pattern)) (split_on "/" (trim_slashes name)).

(** ** Trigger filters (compile.go) *)

(** [matchGlob] of compile.go: a malformed pattern matches nothing. *)
Definition matchGlob (pattern s : string) : bool := default false (path_Match pattern s).

Definition splitExclusions (patterns : list string) : list string * list string :=
  (filter (fun p => has_prefix p "!" = false) patterns,
   map (fun p => trim_prefix p "!") (filter (fun p => has_prefix p "!" = true) patterns)).

Definition matchesFilters (trigger : PushTrigger) (branch : string) : bool :=
  if existsb (fun p => matchGlob p branch) (BranchesIgnore trigger) then false
  else
    let '(include, exclude) := splitExclusions (Branches trigger) in
    if existsb (fun p => matchGlob p branch) exclude then false
    else if bool_decide (include = []) && bool_decide (exclude = []) then true
    else if bool_decide (include = []) then true
    else existsb (fun p => matchGlob p branch) include.

Definition MatchesPush (c : Compiled) (ref : string) : bool :=
  match cpush c with None => false | Some t => matchesFilters t (TrimRefPrefix ref) end.

Definition MatchesPullRequest (c : Compiled) (baseRef : string) : bool :=
  match cpr c with None => false | Some t => matchesFilters t (TrimRefPrefix baseRef) end.

(** ** What a [**] glob means *)

Inductive GlobMatch : list string → list string → Prop :=
  | glob_nil : GlobMatch [] []
  | glob_star pat pre seg : GlobMatch pat seg → GlobMatch ("**" :: pat) (pre ++ seg)
  | glob_segment p pat s seg :
      p ≠ "**" → path_Match p s = Some true → GlobMatch pat seg → GlobMatch (p :: pat) (s :: seg).

Lemma tails_spec {A} (l t : list A) : t ∈ tails l ↔ ∃ pre, l = pre ++ t.
Proof.
  induction l as [|x l IH]; simpl.
  - rewrite list_elem_of_singleton. split; [intros ->; by exists []|].
    intros [pre E]. symmetry in E. by apply app_nil in E as [_ ->].
  - rewrite elem_of_cons, IH. split.
    + intros [->|[pre ->]]; [by exists []|by exists (x :: pre)].
    + intros [[|y pre] E]; simpl in E; [by left|right]. simplify_eq. by exists pre.
Qed.

Lemma matchSegments_correct pat seg : matchSegments pat seg = Some true ↔ GlobMatch pat seg.
Proof.
  revert seg. induction pat as [|p pat IH]; intros seg; simpl.
  - split; [|by inversion 1].
    intros [= E]. apply bool_decide_eq_true in E as ->. constructor.
  - case_bool_decide as Hp.
    + subst p. split.
      * intros [= E]. apply existsb_exists in E as (t & Ht%list_elem_of_In & E).
        apply tails_spec in Ht as [pre ->]. constructor. apply IH.
        destruct (matchSegments pat t) as [[]|]; done.
      * inversion 1 as [|? pre t Ht|]; subst; [|done]. f_equal. apply existsb_exists.
        exists t. split; [apply list_elem_of_In, tails_spec; by exists pre|]. apply IH in Ht. by rewrite Ht.
    + destruct seg as [|s seg].
      * split; [done|]. inversion 1; subst; done.
      * split.
        -- intros E. destruct (path_Match p s) as [[]|] eqn:Em; [|done..].
           constructor; [done|done|by apply IH].
        -- inversion 1 as [|? pre t Ht|? ? ? ? Hne Em Ht]; subst; [done|]. rewrite Em. by apply IH.
Qed.

(** A [**] glob of [hashFiles] matches a path exactly when the pattern's
    segments can be laid over the path's: a [**] over any number of whole
    segments, every other segment over one that [path.Match] accepts. *)
Theorem hash_glob_matches_iff (pattern name : string) :
  hash_matchGlob pattern name = Some true ↔
  GlobMatch (split_on "/" (trim_slashes pattern)) (split_on "/" (trim_slashes name)).
Proof. apply matchSegments_correct. Qed.

Lemma existsb_glob_true ps b :
  existsb (fun p => matchGlob p b) ps = true ↔ ∃ p, p ∈ ps ∧ path_Match p b = Some true.
Proof.
  rewrite existsb_exists. unfold matchGlob. split; intros (p & Hp & E); exists p; rewrite list_elem_of_In in *.
  - split; [done|]. by destruct (path_Match p b) as [[]|].
  - by rewrite E.
Qed.

Lemma existsb_glob_false ps b :
  existsb (fun p => matchGlob p b) ps = false ↔ ∀ p, p ∈ ps → path_Match p b ≠ Some true.
Proof. rewrite <-not_true_iff_false, existsb_glob_true. naive_solver. Qed.

(** A push triggers a workflow exactly when the workflow has a push trigger, no
    [branches-ignore] pattern and no [!] exclusion matches the branch, and
    either no inclusion is declared or one matches; exclusions win whatever
    the order of the patterns. *)
Theorem push_trigger_iff (c : Compiled) (ref : string) :
  MatchesPush c ref = true ↔
  ∃ t, cpush c = Some t ∧
    (∀ p, p ∈ BranchesIgnore t → path_Match p (TrimRefPrefix ref) ≠ Some true) ∧
    (∀ p, "!" +:+ p ∈ Branches t → path_Match p (TrimRefPrefix ref) ≠ Some true) ∧
    ((∀ p, p ∈ Branches t → has_prefix p "!" = true) ∨
     ∃ p, p ∈ Branches t ∧ has_prefix p "!" = false ∧ path_Match p (TrimRefPrefix ref) = Some true).
Proof.
  unfold MatchesPush. destruct (cpush c) as [t|]; [|naive_solver].
  generalize (TrimRefPrefix ref). intros b. unfold matchesFilters, splitExclusions.
  set (exclude := map _ _). set (include := filter _ (Branches t)).
  assert (∀ p, p ∈ exclude ↔ "!" +:+ p ∈ Branches t) as Hex.
  { intros p. unfold exclude. change @map with @list_fmap. rewrite list_elem_of_fmap. split.
    - intros (q & -> & [Hq Hin]%list_elem_of_filter). apply has_prefix_spec in Hq as Hq'.
      destruct Hq' as [x ->]. unfold trim_prefix. by rewrite Hq.
    - intros Hin. exists ("!" +:+ p). unfold trim_prefix. rewrite has_prefix_app. split; [done|].
      apply list_elem_of_filter. by rewrite has_prefix_app. }
  assert (include = [] ↔ ∀ p, p ∈ Branches t → has_prefix p "!" = true) as Hinc.
  { split.
    - intros E p Hp. destruct (has_prefix p "!") eqn:Ep; [done|].
      assert (p ∈ include) as Hi by (unfold include; apply list_elem_of_filter; split; assumption). rewrite E in Hi.
      by apply not_elem_of_nil in Hi.
    - intros Hall. destruct include as [|p l] eqn:E; [done|].
      assert (p ∈ include) as Hi by (rewrite E; set_solver). apply list_elem_of_filter in Hi as [Hf Hi].
      rewrite (Hall p Hi) in Hf. done. }
  destruct (existsb _ (BranchesIgnore t)) eqn:E1.
  { apply existsb_glob_true in E1 as (p & Hp & E). split; [done|]. naive_solver. }
  rewrite existsb_glob_false in E1. destruct (existsb _ exclude) eqn:E2.
  { apply existsb_glob_true in E2 as (p & Hp & E). rewrite Hex in Hp. split; [done|]. naive_solver. }
  rewrite existsb_glob_false in E2.
  assert ((if bool_decide (include = []) && bool_decide (exclude = []) then true
           else if bool_decide (include = []) then true else existsb (fun p => matchGlob p b) include)
          = bool_decide (include = []) || existsb (fun p => matchGlob p b) include) as ->
    by (by destruct (bool_decide (include = [])), (bool_decide (exclude = []))).
  rewrite orb_true_iff, bool_decide_eq_true, existsb_glob_true, Hinc.
  split.
  - intros Hor. exists t. repeat split; [done|intros p Hp; apply E2, Hex, Hp|].
    destruct Hor as [Hall|(p & [Hf Hp]%list_elem_of_filter & E)]; [by left|right; eauto].
  - intros (t' & [= <-] & _ & _ & [Hall|(p & Hp & Hf & E)]); [by left|right].
    exists p. split; [|done]. by apply list_elem_of_filter.
Qed.

(** Behind a [**], a malformed segment is an ordinary mismatch; elsewhere it is an error. *)
Example star_swallows_bad_pattern :
  hash_matchGlob "a[/x" "b/x" = None ∧ hash_matchGlob "**/a[/x" "b/x" = Some false.
Proof. split; reflexivity. Qed.
