(* ===== verification/Plans.v ===== *)
(** * Execution plans (internal/run/plan, server.go, provider/github/action.go)

    The plan type, its validation, the plan store, and [buildPlan], which turns
    a compiled job instance into the plan the executor fetches.  Environment
    values and inputs that are secret references become [SecretRef]s.  Maps are
    ranged over in an open order ([MapRange]); the JSON digest and the fetch of
    an action's metadata are parameters. *)

From Stdlib Require Import Ascii.
From stdpp Require Import pretty.
From S2P Require Import Prelude GoStrings RunModel Syntax Compiler.

(** ** Plan data (plan.go) *)

Record SecretRef := { SRScope : string; SRName : string; SREnv : string }.

Record RunStep := { Script : string; Shell : string; RunEnv : gmap string string }.

Record BuiltinStep := { BAction : string; BVersion : string; BInputs : gmap string string }.

Record JSStep := {
  JSRepo : string;
  JSRef : string;
  JSPath : string;
  JSMain : string;
  JSScript : string;
  JSInputs : gmap string string
}.

(** [PsComposite] is never set by the sources: composite actions are expanded in place. *)
Inductive PlanStep := {
  PsID : string;
  PsName : string;
  PsIf : string;
  PsRun : RunStep;
  PsBuiltin : option BuiltinStep;
  PsJS : option JSStep;
  PsComposite : option (list PlanStep);
  PsContinueOnError : bool;
  PsWorkingDir : string
}.

Record Plan := {
  PJobRunID : JobRunID;
  PRepository : RepositoryRef;
  PEventName : string;
  PActor : string;
  PSHA : string;
  PRef : string;
  PRunnerClass : string;
  PEnv : gmap string string;
  PSteps : list PlanStep;
  PSecretRefs : list SecretRef;
  PTimeoutSecs : Z
}.

Definition noRun : RunStep := {| Script := ""; Shell := ""; RunEnv := ∅ |}.

(** SHA-256 of the canonical JSON. *)
Class PlanDigest := { plan_hash : Plan → string }.

Definition Digest `{PlanDigest} (p : option Plan) : outcome string string :=
  match p with
  | None => Err "plan: digest of nil plan"
  | Some p =>
      if bool_decide (PJobRunID p = "") then Err "plan: empty job run id"
      else if bool_decide (length (PSteps p) = 0) then Err ("plan " +:+ PJobRunID p +:+ ": no steps")
      else Ok (plan_hash p)
  end.

(** ** The plan store (support.go) *)

Definition planStore : Type := gmap JobRunID Plan.

Definition PutPlan `{PlanDigest} (p : Plan) (s : planStore) : outcome string planStore :=
  match Digest (Some p) with
  | Err e => Err e
  | Panic => Panic
  | Ok _ => Ok (<[PJobRunID p := p]> s)
  end.

Definition GetPlan (id : JobRunID) (s : planStore) : outcome string Plan :=
  match s !! id with
  | None => Err ("plan for " +:+ id +:+ " not found")
  | Some p => Ok p
  end.

(** ** Action references and metadata (action.go) *)

Record CompositeActionStep := {
  CaName : string;
  CaRun : string;
  CaUses : string;
  CaWith : gmap string string
}.

Record ActionMeta := { RunsUsing : string; Main : string; MetaSteps : list CompositeActionStep }.

Section plans.
Context `{Unicode}.

(** [ParseUses]: owner, repository, path and ref. *)
Definition ParseUses (uses0 : string) : outcome string (string * string * string * string) :=
  let uses := trim_space uses0 in
  match last_index "@" uses with
  | None => Err ("uses " +:+ quote uses +:+ " must be <owner>/<repo>[@<ref>]")
  | Some at_ =>
      let ref := str_drop (at_ + 1) uses in
      let repoPart := str_take at_ uses in
      if bool_decide (ref = "") then Err ("uses " +:+ quote uses +:+ " must be <owner>/<repo>@<ref>")
      else
        let bad := Err ("uses " +:+ quote uses +:+ " must be <owner>/<repo>[@<ref>]") in
        match split_on "/" repoPart with
        | owner :: repo :: rest =>
            if bool_decide (owner = "") || bool_decide (repo = "") then bad
            else Ok (owner, repo, join rest "/", ref)
        | _ => bad
        end
  end.

(** ** Helpers of [buildPlan] *)

(** [secretRefName]: the text between the dollar braces of a secret reference. *)
Definition secretRefName (v0 : string) : option string :=
  let v := trim_space v0 in
  if negb (has_prefix v "${{ secrets.") || negb (has_suffix v "}}") then None
  else
    let name := trim_space (trim_suffix (trim_prefix v "${{ secrets.") "}}") in
    if bool_decide (name = "") then None else Some name.

Definition truncate (s : string) (n : nat) : string :=
  if Nat.leb (String.length s) n then s else str_take n s.

(** [stDisplayName]; [None] is the panic of indexing an empty slice. *)
Definition stDisplayName (st : CStep) : option string :=
  if bool_decide (CName st ≠ "") then Some (CName st)
  else match CUses st with
       | Some call =>
           let '(_, base, ok) := cut (Action call) "/" in
           Some (if ok then base else Action call)
       | None =>
           if bool_decide (CRawUses st ≠ "") then
             let '(_, base, ok) := cut (CRawUses st) "/" in
             Some (if ok then match last_index "@" base with
                              | Some at_ => str_take at_ base
                              | None => base
                              end
                   else CRawUses st)
           else match fields (CRun st) with
                | [] => None
                | w :: _ => Some (truncate w 24)
                end
       end.

Context `{MapRange}.

(** The loop over an environment or an input map: secret references are set
    aside under the name [env k], the rest is kept. *)
Definition split_secrets (env : string → string) (m : gmap string string) (refs : list SecretRef)
    : list SecretRef * gmap string string :=
  fold_left (fun '(refs, out) '(k, v) =>
    match secretRefName v with
    | Some name => (refs ++ [{| SRScope := "repository"; SRName := name; SREnv := env k |}], out)
    | None => (refs, <[k := v]> out)
    end) (range_map m) (refs, ∅).

Definition substitute_inputs (script : string) (outer : gmap string string) : string :=
  fold_left (fun s '(k, v) =>
    replace_all (replace_all s ("${{ inputs." +:+ k +:+ " }}") v) ("${{inputs." +:+ k +:+ "}}") v)
    (range_map outer) script.

Definition substitute_spaced (v : string) (outer : gmap string string) : string :=
  fold_left (fun s '(ok, ov) => replace_all s ("${{ inputs." +:+ ok +:+ " }}") ov) (range_map outer) v.

(** One step of a composite action. *)
Definition composite_step (outer : gmap string string) (outerID : string) (i : nat)
    (cs : CompositeActionStep) : PlanStep := {|
  PsID := outerID +:+ "-" +:+ pretty i; PsName := CaName cs; PsIf := "";
  PsRun := if bool_decide (CaRun cs ≠ "")
           then {| Script := substitute_inputs (CaRun cs) outer; Shell := ""; RunEnv := ∅ |} else noRun;
  PsBuiltin := None;
  PsJS := if bool_decide (CaRun cs ≠ "") then None
          else if bool_decide (CaUses cs ≠ "")
          then Some {| JSRepo := CaUses cs; JSRef := ""; JSPath := ""; JSMain := ""; JSScript := "";
                       JSInputs := (fun v => substitute_spaced v outer) <$> CaWith cs |}
          else None;
  PsComposite := None; PsContinueOnError := false; PsWorkingDir := "" |}.

Definition expandComposite (steps : list CompositeActionStep) (outer : gmap string string)
    (outerID : string) : list PlanStep := imap (composite_step outer outerID) steps.

(** [FetchAction]; [None]: no fetcher. *)
Definition ActionFetcher : Type := string → string → string → string → outcome string ActionMeta.

Definition js_step (owner repo ref path main : string) (inputs : gmap string string) : JSStep := {|
  JSRepo := owner +:+ "/" +:+ repo; JSRef := ref; JSPath := path; JSMain := main;
  JSScript := default "" (inputs !! "script"); JSInputs := inputs |}.

Definition plan_step (id : string) (st : CStep) (run : RunStep) (b : option BuiltinStep)
    (js : option JSStep) : PlanStep := {|
  PsID := id; PsName := CName st; PsIf := CIf st; PsRun := run; PsBuiltin := b; PsJS := js;
  PsComposite := None; PsContinueOnError := CContinueOnError st; PsWorkingDir := "" |}.

(** One compiled step: the plan steps it becomes and the secret references so far. *)
Definition plan_steps_of (fetch : option ActionFetcher) (st : CStep) (refs : list SecretRef)
    : outcome string (list PlanStep * list SecretRef) :=
  match stDisplayName st with
  | None => Panic
  | Some id =>
      match CUses st with
      | Some call =>
          let '(refs', inputs) := split_secrets (fun k => "$with:" +:+ id +:+ ":" +:+ k) (CallInputs call) refs in
          Ok ([plan_step id st noRun (Some {| BAction := Action call; BVersion := CallVersion call;
                                              BInputs := inputs |}) None], refs')
      | None =>
          if bool_decide (CRawUses st ≠ "") then
            let '(owner, repo, subpath, ref) :=
              match ParseUses (CRawUses st) with
              | Ok parts => parts
              | _ => ("", CRawUses st, "", "main")
              end in
            let '(refs', inputs) := split_secrets (fun k => "$with:" +:+ id +:+ ":" +:+ k) (CRawWith st) refs in
            let js main := Ok ([plan_step id st noRun None
                                  (Some (js_step owner repo ref subpath main inputs))], refs') in
            match fetch with
            | None => js ""
            | Some f =>
                match f owner repo ref subpath with
                | Ok meta =>
                    if has_prefix (RunsUsing meta) "composite"
                    then Ok (expandComposite (MetaSteps meta) inputs id, refs')
                    else if has_prefix (RunsUsing meta) "node" then js (Main meta)
                    else js ""
                | _ => js ""
                end
            end
          else Ok ([plan_step id st {| Script := CRun st; Shell := ""; RunEnv := CEnv st |} None None], refs)
      end
  end.

Fixpoint plan_all (fetch : option ActionFetcher) (sts : list CStep) (steps : list PlanStep)
    (refs : list SecretRef) : outcome string (list PlanStep * list SecretRef) :=
  match sts with
  | [] => Ok (steps, refs)
  | st :: rest =>
      match plan_steps_of fetch st refs with
      | Ok (ps, refs') => plan_all fetch rest (steps ++ ps) refs'
      | Err e => Err e
      | Panic => Panic
      end
  end.

Definition buildPlan (fetch : option ActionFetcher) (rec : JobRunRecord) (ev : Event)
    (inst : JobInstance) : outcome string Plan :=
  let '(refs0, env) := split_secrets (fun k => k) (InstEnv inst) [] in
  match plan_all fetch (InstSteps inst) [] refs0 with
  | Err e => Err e
  | Panic => Panic
  | Ok (steps, refs) =>
      Ok {| PJobRunID := JID rec; PRepository := EvRepository ev; PEventName := EvName ev;
            PActor := EvActor ev; PSHA := EvSHA ev; PRef := EvRef ev;
            PRunnerClass := InstRunnerClass inst; PEnv := env; PSteps := steps;
            PSecretRefs := refs; PTimeoutSecs := 0 |}
  end.

End plans.
