(* ===== verification/PlanTheorems.v ===== *)
(** * What a plan carries (server.go: buildPlan, secretRefName, stDisplayName)

    The values of a plan's environment and of the inputs of its builtin steps
    are never secret references: these became entries of [PSecretRefs], which
    name secrets and hold none.  Building a plan from a compiled job always
    succeeds. *)

From Stdlib Require Import Ascii.
From stdpp Require Import pretty.
From S2P Require Import Prelude GoStrings RunModel Syntax Compiler SyntaxTheorems CompilerTheorems Plans.

Section plans.
Context `{Unicode} `{MapRange}.

(** The references a map contributes, in the order of the loop. *)
Definition refs_of (env : string → string) (ps : list (string * string)) : list SecretRef :=
  omap (fun '(k, v) => (fun name => {| SRScope := "repository"; SRName := name; SREnv := env k |})
                       <$> secretRefName v) ps.

Definition plain (p : string * string) : Prop := secretRefName (snd p) = None.

#[local] Instance plain_dec p : Decision (plain p).
Proof. unfold plain. apply _. Defined.

Lemma split_fold env ps refs (out : gmap string string) :
  fold_left (fun '(refs, out) '(k, v) =>
    match secretRefName v with
    | Some name => (refs ++ [{| SRScope := "repository"; SRName := name; SREnv := env k |}], out)
    | None => (refs, <[k := v]> out)
    end) ps (refs, out)
  = (refs ++ refs_of env ps, fold_left (fun m p => <[fst p := snd p]> m) (filter plain ps) out).
Proof.
  revert refs out. induction ps as [|[k v] ps IH]; intros refs out; [simpl; by rewrite app_nil_r|].
  rewrite filter_cons. destruct (decide (plain (k, v))) as [Hp|Hp]; unfold plain in Hp; simpl in Hp.
  - assert (refs_of env ((k, v) :: ps) = refs_of env ps) as -> by (unfold refs_of; simpl; by rewrite Hp).
    cbn [fold_left]. rewrite Hp. apply IH.
  - destruct (secretRefName v) as [name|] eqn:E; [|done].
    assert (refs_of env ((k, v) :: ps) =
      {| SRScope := "repository"; SRName := name; SREnv := env k |} :: refs_of env ps) as ->
      by (unfold refs_of; simpl; by rewrite E).
    cbn [fold_left]. rewrite E, IH, <-app_assoc. done.
Qed.

Lemma split_secrets_spec env m refs :
  fst (split_secrets env m refs) = refs ++ refs_of env (range_map m) ∧
  ∀ k v, snd (split_secrets env m refs) !! k = Some v ↔ m !! k = Some v ∧ secretRefName v = None.
Proof.
  unfold split_secrets. rewrite split_fold. simpl. split; [done|]. intros k v.
  assert (NoDup (filter plain (range_map m)).*1) as Hnd.
  { eapply sublist_NoDup; [|apply fmap_sublist, sublist_filter].
    rewrite range_map_perm. apply NoDup_fst_map_to_list. }
  rewrite fold_insert_map by done. rewrite map_union_empty.
  rewrite <-elem_of_list_to_map by done. rewrite list_elem_of_filter, range_map_elem. unfold plain. simpl. tauto.
Qed.

Lemma refs_of_elem env m ref :
  ref ∈ refs_of env (range_map m) ↔
  ∃ k v name, m !! k = Some v ∧ secretRefName v = Some name ∧
    ref = {| SRScope := "repository"; SRName := name; SREnv := env k |}.
Proof.
  unfold refs_of. rewrite list_elem_of_omap. split.
  - intros ([k v] & Hin & E). apply range_map_elem in Hin.
    destruct (secretRefName v) as [name|] eqn:En; [|done]. injection E as <-. by exists k, v, name.
  - intros (k & v & name & Hk & En & ->). exists (k, v). rewrite En. split; [|done].
    by apply range_map_elem.
Qed.

(** ** Steps *)

Lemma display_name_some `{!UnicodeLaws} st : step_shape st → is_Some (stDisplayName st).
Proof.
  intros Hst. unfold stDisplayName. case_bool_decide; [by eexists|].
  destruct (CUses st) as [call|] eqn:Eu.
  { destruct (cut _ _) as [[? ?] ?]. by eexists. }
  case_bool_decide as Hr.
  { destruct (cut _ _) as [[? ?] ?]. by eexists. }
  destruct Hst as [(Hrun & _)|[(_ & Hu & _)|(_ & _ & Hraw)]].
  - apply fields_some in Hrun. destruct (fields (CRun st)); [done|by eexists].
  - rewrite Eu in Hu. by destruct Hu.
  - done.
Qed.

(** The inputs of a step as the workflow gives them. *)
Definition step_inputs (st : CStep) : gmap string string :=
  match CUses st with
  | Some call => CallInputs call
  | None => if bool_decide (CRawUses st ≠ "") then CRawWith st else ∅
  end.

Definition input_env (id k : string) : string := "$with:" +:+ id +:+ ":" +:+ k.

Definition clean_inputs (m : gmap string string) : Prop :=
  ∀ k v, m !! k = Some v → secretRefName v = None.

Definition builtin_clean (ps : PlanStep) : Prop := ∀ b, PsBuiltin ps = Some b → clean_inputs (BInputs b).
Definition js_clean (ps : PlanStep) : Prop := ∀ j, PsJS ps = Some j → clean_inputs (JSInputs j).

(** No action the fetcher knows is a composite. *)
Definition no_composites (fetch : option ActionFetcher) : Prop :=
  ∀ f o r g p meta, fetch = Some f → f o r g p = Ok meta → has_prefix (RunsUsing meta) "composite" = false.

Lemma plan_step_clean id st run b js :
  (∀ b', b = Some b' → clean_inputs (BInputs b')) → (∀ j, js = Some j → clean_inputs (JSInputs j)) →
  Forall builtin_clean [plan_step id st run b js] ∧ Forall js_clean [plan_step id st run b js].
Proof. intros Hb Hj. split; (constructor; [|done]); intros x; simpl; auto. Qed.

Lemma composite_builtin_clean steps outer id : Forall builtin_clean (expandComposite steps outer id).
Proof.
  apply Forall_forall. intros ps Hin. unfold expandComposite in Hin.
  apply elem_of_lookup_imap in Hin as (i & cs & -> & _). by intros b.
Qed.

Lemma plan_steps_of_spec fetch st id refs :
  stDisplayName st = Some id → ∃ ps,
    plan_steps_of fetch st refs = Ok (ps, refs ++ refs_of (input_env id) (range_map (step_inputs st))) ∧
    Forall builtin_clean ps ∧ (no_composites fetch → Forall js_clean ps).
Proof.
  intros Hid. unfold plan_steps_of, step_inputs. rewrite Hid.
  destruct (CUses st) as [call|].
  { destruct (split_secrets_spec (input_env id) (CallInputs call) refs) as [Hr Hm].
    change (fun k => "$with:" +:+ id +:+ ":" +:+ k) with (input_env id).
    destruct (split_secrets _ _ _) as [refs' inputs]. simpl in *. subst refs'.
    eexists. split; [done|]. edestruct plan_step_clean as [Hb Hj]; [..|split; [exact Hb|intros _; exact Hj]].
    - intros b [= <-] k v. simpl. rewrite Hm. tauto.
    - done. }
  case_bool_decide as Hraw.
  2: { assert (range_map (∅ : gmap string string) = []) as E.
       { apply Permutation_nil. symmetry. by rewrite range_map_perm, map_to_list_empty. }
       rewrite E. simpl. rewrite app_nil_r. eexists. split; [done|].
       edestruct plan_step_clean as [Hb Hj]; [..|split; [exact Hb|intros _; exact Hj]]; done. }
  change (fun k => "$with:" +:+ id +:+ ":" +:+ k) with (input_env id).
  destruct (split_secrets_spec (input_env id) (CRawWith st) refs) as [Hr Hm].
  destruct (match ParseUses (CRawUses st) with Ok parts => parts | _ => _ end) as [[[owner repo] subpath] ref].
  destruct (split_secrets _ _ _) as [refs' inputs]. simpl in *. subst refs'.
  assert (∀ main, let ps := [plan_step id st noRun None (Some (js_step owner repo ref subpath main inputs))] in
    Forall builtin_clean ps ∧ Forall js_clean ps) as Hjs.
  { intros main. apply plan_step_clean; [done|]. intros j [= <-] k v. simpl. rewrite Hm. tauto. }
  assert (∀ main, ∃ ps, Ok (E := string) ([plan_step id st noRun None (Some (js_step owner repo ref subpath main inputs))],
      refs ++ refs_of (input_env id) (range_map (CRawWith st)))
      = Ok (ps, refs ++ refs_of (input_env id) (range_map (CRawWith st))) ∧
    Forall builtin_clean ps ∧ (no_composites fetch → Forall js_clean ps)) as Hok.
  { intros main. eexists. split; [done|]. destruct (Hjs main). auto. }
  destruct fetch as [f|]; [|apply Hok]. destruct (f owner repo ref subpath) as [meta|e|] eqn:Ef; [|apply Hok..].
  destruct (has_prefix (RunsUsing meta) "composite") eqn:Ec; [|destruct (has_prefix _ "node"); apply Hok].
  eexists. split; [done|]. split; [apply composite_builtin_clean|]. intros Hno.
  specialize (Hno f _ _ _ _ _ eq_refl Ef). congruence.
Qed.

(** The references the steps contribute. *)
Definition steps_refs (sts : list CStep) : list SecretRef :=
  concat (map (fun st => refs_of (input_env (default "" (stDisplayName st))) (range_map (step_inputs st))) sts).

Lemma plan_all_spec fetch sts steps refs :
  (∀ st, st ∈ sts → is_Some (stDisplayName st)) →
  Forall builtin_clean steps → (no_composites fetch → Forall js_clean steps) → ∃ ps,
    plan_all fetch sts steps refs = Ok (ps, refs ++ steps_refs sts) ∧
    Forall builtin_clean ps ∧ (no_composites fetch → Forall js_clean ps).
Proof.
  revert steps refs. induction sts as [|st sts IH]; intros steps refs Hid Hb Hj; simpl.
  { exists steps. unfold steps_refs. simpl. by rewrite app_nil_r. }
  destruct (Hid st) as [id E]; [by left|].
  destruct (plan_steps_of_spec fetch st id refs E) as (ps & -> & Hb1 & Hj1).
  destruct (IH (steps ++ ps) (refs ++ refs_of (input_env id) (range_map (step_inputs st))))
    as (ps2 & -> & Hb2 & Hj2).
  - intros st' Hin. apply Hid. by right.
  - by apply Forall_app.
  - intros Hno. apply Forall_app. auto.
  - exists ps2. split; [|done]. unfold steps_refs. simpl. rewrite E. simpl. by rewrite <-app_assoc.
Qed.

Lemma steps_refs_elem sts ref :
  ref ∈ steps_refs sts ↔ ∃ st k v name, st ∈ sts ∧ step_inputs st !! k = Some v ∧
    secretRefName v = Some name ∧
    ref = {| SRScope := "repository"; SRName := name; SREnv := input_env (default "" (stDisplayName st)) k |}.
Proof.
  unfold steps_refs. rewrite list_elem_of_In, in_concat. setoid_rewrite in_map_iff.
  setoid_rewrite <-list_elem_of_In. split.
  - intros (l & (st & <- & Hst) & Hin). apply refs_of_elem in Hin as (k & v & name & ?). by exists st, k, v, name.
  - intros (st & k & v & name & Hst & Hin). eexists. split; [by exists st|]. apply refs_of_elem. by exists k, v, name.
Qed.
End plans.

(** Every step of a compiled job has one of the three kinds. *)
Lemma compiled_steps_shape `{Unicode} `{MapRange} wf c i :
  Compile (Some wf) = Ok c → i ∈ CompJobs c → Forall step_shape (InstSteps i).
Proof.
  unfold Compile. case_bool_decide; [done|]. destruct (topoSort _) as [l|e|]; [|done..].
  destruct (compileJobs l [] []) as [[insts ws]|e|] eqn:Ec; [|done..]. intros [= <-]. simpl.
  apply compileJobs_instances in Ec as (Hfrom & _). intros Hi.
  destruct (Hfrom i Hi) as [Hn|(j & _ & Hij)]; [by apply not_elem_of_nil in Hn|]. by destruct Hij as (_ & _ & _ & _ & _ & _ & _ & ?).
Qed.

(** C24. Building the plan of a compiled job never fails, whatever the action
    fetcher answers.  The plan belongs to the job's record; its environment is
    the job's environment without the secret references; no input of a builtin
    step — nor, unless an action is a composite, of a JavaScript step — is a
    secret reference; and the plan's secret references are exactly those of the
    environment, under the variable they set, and of the steps' inputs, under a
    name made of the step's identifier and the input. *)
Theorem build_plan_separates_secrets `{UnicodeLaws} `{MapRange} wf c inst fetch rec ev :
  Compile (Some wf) = Ok c → inst ∈ CompJobs c →
  ∃ p, buildPlan fetch rec ev inst = Ok p ∧ PJobRunID p = JID rec ∧
    (∀ k v, PEnv p !! k = Some v ↔ InstEnv inst !! k = Some v ∧ secretRefName v = None) ∧
    Forall builtin_clean (PSteps p) ∧ (no_composites fetch → Forall js_clean (PSteps p)) ∧
    ∀ ref, ref ∈ PSecretRefs p ↔
      (∃ k v name, InstEnv inst !! k = Some v ∧ secretRefName v = Some name ∧
         ref = {| SRScope := "repository"; SRName := name; SREnv := k |}) ∨
      (∃ st k v name, st ∈ InstSteps inst ∧ step_inputs st !! k = Some v ∧ secretRefName v = Some name ∧
         ref = {| SRScope := "repository"; SRName := name;
                  SREnv := input_env (default "" (stDisplayName st)) k |}).
Proof.
  intros Hc Hi. pose proof (compiled_steps_shape _ _ _ Hc Hi) as Hshape. rewrite Forall_forall in Hshape.
  unfold buildPlan. destruct (split_secrets_spec (fun k => k) (InstEnv inst) []) as [Hr Hm].
  destruct (split_secrets _ _ _) as [refs0 env]. simpl in Hr, Hm.
  destruct (plan_all_spec fetch (InstSteps inst) [] refs0) as (ps & -> & Hb & Hj); [|done..|].
  { intros st Hin. apply display_name_some. auto. }
  eexists. split; [done|]. simpl. split_and!; try done. intros ref.
  rewrite elem_of_app, Hr, refs_of_elem, steps_refs_elem. done.
Qed.

(** A job with a secret in its environment and one in an input. *)
Definition secret_step : Step := {|
  StPos := {| PosLine := 9; PosColumn := 7 |}; StName := ""; StIf := ""; StRun := "";
  StUses := "actions/checkout@v4"; StWith := {[ "token" := "${{ secrets.PAT }}" ]};
  StContinueOnError := false; StEnv := ∅ |}.

Definition secret_job : Job := {|
  JobID := "deploy"; JobPos := {| PosLine := 3; PosColumn := 3 |}; JobName := ""; RunsOn := "linux"; JobIf := "";
  Needs := []; Matrix := ∅;
  JobEnv := {[ "TOKEN" := "${{ secrets.DEPLOY }}"; "STAGE" := "prod" ]}; Steps := [secret_step] |}.

Definition secret_workflow : Workflow := {|
  WFile := "ci.yml"; WName := "ci";
  On := {| Push := None; PullRequest := None; OnSchedule := ["0 0 * * *"] |}; Jobs := [secret_job] |}.

Definition plan_record : JobRunRecord := zeroJob.

Definition plan_event : Event := {|
  EvProvider := "github"; EvName := "push"; EvDeliveryID := "d1";
  EvRepository := {| RepoProvider := "github"; RepoOwner := "acme"; RepoName := "app" |};
  EvRef := "refs/heads/main"; EvSHA := "abc"; EvActor := "alice" |}.

Lemma build_plan_separates_secrets_witness :
  ∃ c inst p, @Compile ascii_unicode some_order (Some secret_workflow) = Ok c ∧ CompJobs c = [inst] ∧
    @buildPlan ascii_unicode some_order None plan_record plan_event inst = Ok p ∧
    {| SRScope := "repository"; SRName := "PAT"; SREnv := "$with:checkout:token" |} ∈ PSecretRefs p.
Proof.
  destruct (@Compile ascii_unicode some_order (Some secret_workflow)) as [c|e|] eqn:E; [|by vm_compute in E..].
  destruct (CompJobs c) as [|inst [|]] eqn:Ei; [exfalso|exists c, inst|exfalso];
    [vm_compute in E; injection E as <-; discriminate Ei|
    |vm_compute in E; injection E as <-; discriminate Ei].
  destruct (@build_plan_separates_secrets ascii_unicode ascii_unicode_laws some_order secret_workflow c
    inst None plan_record plan_event E) as (p & Hp & _ & _ & _ & _ & Href).
  - rewrite Ei. apply elem_of_cons. left. reflexivity.
  - exists p. split; [reflexivity|]. split; [exact Ei|]. split; [exact Hp|]. apply Href. right.
    assert (inst = default inst (head (CompJobs c))) as Hinst by (by rewrite Ei).
    vm_compute in E. injection E as <-. vm_compute in Hinst. subst inst.
    eexists _, "token", "${{ secrets.PAT }}", "PAT". split; [by left|].
    split; [vm_compute; reflexivity|]. split; vm_compute; reflexivity.
Defined.
