(* ===== verification/Reports.v ===== *)
(** * Check reports (internal/report)

    The check a durable job record is reported as.  A [Check] is what reaches
    the provider; the adapters that send it are not part of this file. *)

From S2P Require Import Prelude GoStrings RunModel.

Inductive CheckStatus := StatusQueued | StatusProgress | StatusCompleted.

(** [ConclusionNone] is the empty string of an open check. *)
Inductive CheckConclusion :=
  | ConclusionNone
  | ConclusionSuccess
  | ConclusionFailure
  | ConclusionCancelled
  | ConclusionSkipped.

Record Check := {
  CkRunID : RunID;
  CkJobRunID : JobRunID;
  CkName : string;
  CkExternalID : string;
  CkDetailsURL : string;
  CkStatus : CheckStatus;
  CkConclusion : CheckConclusion;
  CkStartedAt : option Time;
  CkCompletedAt : option Time
}.

Definition mkCheck (job : JobRunRecord) (detailsBase : string) (st : CheckStatus)
    (c : CheckConclusion) (completed : option Time) : Check := {|
  CkRunID := JRunID job; CkJobRunID := JID job; CkName := JJobKey job; CkExternalID := JID job;
  CkDetailsURL := detailsBase +:+ "/runs/" +:+ JRunID job +:+ "/jobs/" +:+ JJobKey job;
  CkStatus := st; CkConclusion := c; CkStartedAt := JStartedAt job; CkCompletedAt := completed |}.

Definition MapJobRun (job : JobRunRecord) (detailsBase : string) : outcome string Check :=
  if bool_decide (JJobKey job = "") then Err ("report: job " +:+ JID job +:+ " has empty job key")
  else
    let open st := Ok (mkCheck job detailsBase st ConclusionNone None) in
    let closed c at_ := Ok (mkCheck job detailsBase StatusCompleted c at_) in
    match JStatus job with
    | JobQueued => open StatusQueued
    | JobDispatched | JobRunning => open StatusProgress
    | JobSucceeded => closed ConclusionSuccess (JFinishedAt job)
    | JobFailed => closed ConclusionFailure (JFinishedAt job)
    | JobCancelled => closed ConclusionCancelled (JFinishedAt job)
    | JobSkipped => closed ConclusionSkipped None
    | JobStatusOther raw => Err ("report: unmapped job status " +:+ raw)
    end.

(** A check is completed exactly when the job is finished, and a completed
    check has a conclusion. *)
Lemma check_completed_iff_terminal job base c :
  MapJobRun job base = Ok c →
  (CkStatus c = StatusCompleted ↔ job_terminal (JStatus job) = true) ∧
  (CkStatus c = StatusCompleted ↔ CkConclusion c ≠ ConclusionNone) ∧
  CkExternalID c = JID job.
Proof.
  unfold MapJobRun. case_bool_decide; [done|]. destruct (JStatus job); intros E; simplify_eq/=;
    repeat split; try done.
Qed.

Lemma MapJobRun_total job base : MapJobRun job base ≠ Panic.
Proof. unfold MapJobRun. case_bool_decide; [done|]. by destruct (JStatus job). Qed.
