(* ===== verification/ObjectStore.v ===== *)
(** * Cache and artifact objects (internal/storage/s3/store.go)

    The object keys of caches and artifacts, and the resolution of a cache key
    through its restore keys.  The MinIO client is a parameter.  The theorems
    bound the sanitised keys and show that a repository never reaches another
    repository's objects. *)

From Stdlib Require Import Ascii.
From S2P Require Import Prelude GoStrings RunModel Secrets.

(** ** UTF-8

    The bytes [range] takes for the rune at the head of a string: the width of
    a well-formed encoding, and 1 for the replacement rune of any other byte. *)

Definition cont (lo hi : N) (s : string) (i : nat) : bool :=
  match String.get i s with Some c => in_range lo hi c | None => false end.

Definition rune_width (s : string) : nat :=
  match s with
  | "" => 0
  | String c _ =>
      let tail i := cont 128 191 s i in
      if in_range 194 223 c && tail 1 then 2
      else if N.eqb (byte_code c) 224 && cont 160 191 s 1 && tail 2 then 3
      else if (in_range 225 236 c || in_range 238 239 c) && tail 1 && tail 2 then 3
      else if N.eqb (byte_code c) 237 && cont 128 159 s 1 && tail 2 then 3
      else if N.eqb (byte_code c) 240 && cont 144 191 s 1 && tail 2 && tail 3 then 4
      else if in_range 241 243 c && tail 1 && tail 2 && tail 3 then 4
      else if N.eqb (byte_code c) 244 && cont 128 143 s 1 && tail 2 && tail 3 then 4
      else 1
  end%nat.

(** ** Object keys *)

Definition key_char (c : ascii) : bool :=
  is_lower c || is_upper c || is_digit c || bool_decide (c = "-"%char) || bool_decide (c = "_"%char).

(** [strings.Map] of [sanitizePrefix]: a rune outside the alphabet becomes a
    dash; [skip] counts the bytes left of the current rune. *)
Fixpoint map_runes (skip : nat) (s : string) : string :=
  match s with
  | "" => ""
  | String c s' =>
      match skip with
      | S k => map_runes k s'
      | O => String (if key_char c then c else "-"%char) (map_runes (rune_width s - 1) s')
      end
  end.

(** [strings.Trim(s, "-")] *)
Fixpoint trim_left_dash (s : string) : string :=
  match s with
  | String c s' => if bool_decide (c = "-"%char) then trim_left_dash s' else s
  | "" => ""
  end.

Fixpoint trim_right_dash (s : string) : string :=
  match s with
  | "" => ""
  | String c s' =>
      match trim_right_dash s' with
      | "" => if bool_decide (c = "-"%char) then "" else String c ""
      | t => String c t
      end
  end.

Definition sanitizePrefix (key : string) : string :=
  let sanitized := map_runes 0 key in
  let sanitized := if Nat.ltb 100 (String.length sanitized) then str_take 100 sanitized else sanitized in
  let sanitized := trim_right_dash (trim_left_dash sanitized) in
  if bool_decide (sanitized = "") then "key" else sanitized.

(** [crypto/sha256] *)
Class Sha256 := { sha256_sum : string → string }.

(** [model.Digest] *)
Definition model_Digest `{Sha256} (b : string) : string := hex_encode (sha256_sum b).

Definition sanitizeKey `{Sha256} (key : string) : string :=
  sanitizePrefix key +:+ "-" +:+ str_take 8 (hex_encode (sha256_sum key)).

(** The part of a key that names the repository. *)
Definition repo_prefix (repo : RepositoryRef) : string :=
  RepoProvider repo +:+ "/" +:+ RepoOwner repo +:+ "/" +:+ RepoName repo +:+ "/".

Definition cacheKey `{Sha256} (repo : RepositoryRef) (key : string) : string :=
  repo_prefix repo +:+ "cache/" +:+ sanitizeKey key.

Definition artifactKey (repo : RepositoryRef) (runID name : string) : string :=
  repo_prefix repo +:+ "artifacts/" +:+ runID +:+ "/" +:+ name +:+ ".tar.gz".

(** ** The store *)

(** [minio.ErrorResponse]: the code and the text of an error. *)
Record StatError := { StatCode : string; StatText : string }.

(** The MinIO client: stat, the stream of a recursive listing (an entry is a
    key or an error), and presigned URLs for an object and an expiry in minutes. *)
Class ObjectClient := {
  statObject : string → option StatError;
  listObjects : string → list (string + string);
  presignGet : string → nat → outcome string string;
  presignPut : string → nat → outcome string string
}.

(** A listing by prefix lists keys with that prefix. *)
Class ObjectClientLaws `{ObjectClient} : Prop := {
  list_prefix : ∀ p k, inl k ∈ listObjects p → has_prefix k p = true
}.

Section store.
Context `{Sha256} `{Unicode} {client : ObjectClient}.

Definition Exists (key : string) : outcome string bool :=
  match statObject key with
  | None => Ok true
  | Some e =>
      if bool_decide (StatCode e = "NoSuchKey") then Ok false
      else if contains (StatText e) "NoSuchKey" || contains (StatText e) "not found" then Ok false
      else Err ("s3: stat " +:+ key +:+ ": " +:+ StatText e)
  end.

(** The first entry of the listing that is not an error. *)
Definition first_listed (prefix : string) : option string :=
  hd_error (omap (fun e : string + string => match e with inl k => Some k | inr _ => None end) (listObjects prefix)).

(** The restore keys in order: the exact key, then any object with the prefix. *)
Fixpoint restore_loop (repo : RepositoryRef) (restoreKeys : list string) : outcome string (bool * string) :=
  match restoreKeys with
  | [] => Ok (false, "")
  | rk0 :: rest =>
      let rk := trim_space rk0 in
      if bool_decide (rk = "") then restore_loop repo rest
      else
        let rkExact := cacheKey repo rk in
        match Exists rkExact with
        | Err e => Err e
        | Panic => Panic
        | Ok true => Ok (true, rkExact)
        | Ok false =>
            match first_listed (repo_prefix repo +:+ "cache/" +:+ sanitizePrefix rk) with
            | Some key => Ok (true, key)
            | None => restore_loop repo rest
            end
        end
  end.

Definition CacheResolve (repo : RepositoryRef) (key : string) (restoreKeys : list string)
    : outcome string (bool * string) :=
  let ck := cacheKey repo key in
  match Exists ck with
  | Err e => Err e
  | Panic => Panic
  | Ok true => Ok (true, ck)
  | Ok false => restore_loop repo restoreKeys
  end.

Definition PresignedGet (key : string) (minutes : nat) : outcome string string :=
  match presignGet key minutes with Err e => Err ("s3: presign get " +:+ key +:+ ": " +:+ e) | r => r end.
Definition PresignedPut (key : string) (minutes : nat) : outcome string string :=
  match presignPut key minutes with Err e => Err ("s3: presign put " +:+ key +:+ ": " +:+ e) | r => r end.

Definition CachePutURL (repo : RepositoryRef) (key : string) : outcome string string :=
  PresignedPut (cacheKey repo key) 10.
Definition CacheGetURL (objectKey : string) : outcome string string := PresignedGet objectKey 10.
Definition ArtifactPutURL (repo : RepositoryRef) (runID name : string) : outcome string string :=
  PresignedPut (artifactKey repo runID name) 10.
Definition ArtifactGetURL (repo : RepositoryRef) (runID name : string) : outcome string string :=
  PresignedGet (artifactKey repo runID name) 10.
End store.

(** ** Sanitised keys *)

Fixpoint all_key_chars (s : string) : bool :=
  match s with "" => true | String c s' => key_char c && all_key_chars s' end.

Lemma map_runes_chars skip s : all_key_chars (map_runes skip s) = true.
Proof.
  revert skip. induction s as [|c s IH]; intros skip; simpl; [done|].
  destruct skip; [|done]. cbn [all_key_chars]. rewrite IH, andb_true_r. by destruct (key_char c) eqn:E.
Qed.

Lemma str_take_chars n s : all_key_chars s = true → all_key_chars (str_take n s) = true.
Proof.
  revert n. induction s as [|c s IH]; intros [|n]; try done.
  cbn [str_take all_key_chars]. intros [-> ?]%andb_true_iff. simpl. auto.
Qed.

Lemma no_dash_prefix c s : c ≠ "-"%char → has_prefix (String c s) "-" = false.
Proof.
  intros Hc. apply not_true_iff_false. rewrite has_prefix_spec. intros [t Ht]. simpl in Ht. congruence.
Qed.

Lemma trim_left_dash_spec s :
  (all_key_chars s = true → all_key_chars (trim_left_dash s) = true) ∧
  String.length (trim_left_dash s) ≤ String.length s ∧
  has_prefix (trim_left_dash s) "-" = false.
Proof.
  induction s as [|c s (H1 & H2 & H3)]; [done|]. cbn [trim_left_dash]. case_bool_decide as Hc.
  - split_and!; [|simpl; lia|done]. simpl. intros [_ ?]%andb_true_iff. auto.
  - split_and!; [done|done|by apply no_dash_prefix].
Qed.

(** The last byte of a string. *)
Fixpoint last_byte (s : string) : option ascii :=
  match s with
  | "" => None
  | String c "" => Some c
  | String _ s' => last_byte s'
  end.

Lemma trim_right_dash_spec s :
  (all_key_chars s = true → all_key_chars (trim_right_dash s) = true) ∧
  String.length (trim_right_dash s) ≤ String.length s ∧
  last_byte (trim_right_dash s) ≠ Some "-"%char ∧
  (has_prefix s "-" = false → has_prefix (trim_right_dash s) "-" = false).
Proof.
  induction s as [|c s (H1 & H2 & H3 & _)]; [done|]. cbn [trim_right_dash].
  destruct (trim_right_dash s) as [|d t] eqn:E.
  - case_bool_decide as Hc.
    + split_and!; [done|simpl; lia|done|done].
    + split_and!.
      * cbn [all_key_chars]. by intros [-> _]%andb_true_iff.
      * simpl. lia.
      * simpl. congruence.
      * intros _. by apply no_dash_prefix.
  - split_and!.
    + cbn [all_key_chars]. intros [-> ?]%andb_true_iff. auto.
    + simpl in *. lia.
    + done.
    + intros Hp. apply no_dash_prefix. intros ->.
      pose proof (has_prefix_app "-" s) as Ht. simpl in Ht. congruence.
Qed.

(** A sanitised cache key is a safe path segment: between 1 and 100 bytes
    of letters, digits, dash and underscore, whatever bytes the key holds, and
    it neither starts nor ends with a dash. *)
Theorem sanitized_prefix_bounds key :
  let p := sanitizePrefix key in
  1 ≤ String.length p ≤ 100 ∧ all_key_chars p = true ∧
  has_prefix p "-" = false ∧ last_byte p ≠ Some "-"%char.
Proof.
  unfold sanitizePrefix. set (m := if Nat.ltb _ _ then _ else _).
  assert (all_key_chars m = true ∧ String.length m ≤ 100) as [Hm Hl].
  { unfold m. pose proof (map_runes_chars 0 key) as Hc. destruct (Nat.ltb_spec 100 (String.length (map_runes 0 key))).
    - split; [by apply str_take_chars|]. by rewrite str_take_length by lia.
    - split; [done|lia]. }
  destruct (trim_left_dash_spec m) as (L1 & L2 & L3).
  destruct (trim_right_dash_spec (trim_left_dash m)) as (R1 & R2 & R3 & R4). cbv zeta.
  case_bool_decide as He.
  - split_and!; try done; simpl; lia.
  - split_and!; auto; try lia. destruct (trim_right_dash _); [done|simpl; lia].
Qed.

(** ** Repositories are kept apart *)

Definition slash_free (s : string) : Prop := byte_in "/"%char s = false.

(** Provider, owner and name of a repository hold no slash. *)
Definition repo_ok (r : RepositoryRef) : Prop :=
  slash_free (RepoProvider r) ∧ slash_free (RepoOwner r) ∧ slash_free (RepoName r).

Lemma slash_inj a b a' b' :
  slash_free a → slash_free a' → a +:+ "/" +:+ b = a' +:+ "/" +:+ b' → a = a' ∧ b = b'.
Proof. apply sep_app_inj. Qed.

Lemma repo_prefix_inj r r' t t' :
  repo_ok r → repo_ok r' → repo_prefix r +:+ t = repo_prefix r' +:+ t' → r = r' ∧ t = t'.
Proof.
  intros (H1 & H2 & H3) (H1' & H2' & H3'). unfold repo_prefix. rewrite !app_str_assoc. intros Heq.
  apply slash_inj in Heq as [E1 Heq]; [|done..]. apply slash_inj in Heq as [E2 Heq]; [|done..].
  apply slash_inj in Heq as [E3 Heq]; [|done..]. split; [|done].
  destruct r, r'; simpl in *; congruence.
Qed.

Lemma first_listed_prefix `{ObjectClientLaws} p k : first_listed p = Some k → has_prefix k p = true.
Proof.
  unfold first_listed. intros Hk. apply list_prefix.
  destruct (omap _ _) as [|k' l] eqn:E; [done|]. simpl in Hk. injection Hk as ->.
  assert (k ∈ k :: l) as Hin by left. rewrite <-E in Hin.
  apply list_elem_of_omap in Hin as ([k'|e] & Hin & Hs); [|done]. by injection Hs as ->.
Qed.

Lemma has_prefix_trans a b c : has_prefix a b = true → has_prefix b c = true → has_prefix a c = true.
Proof.
  rewrite !has_prefix_spec. intros [t ->] [u ->]. exists (u +:+ t). apply app_str_assoc.
Qed.

Definition in_cache_of (repo : RepositoryRef) (k : string) : Prop :=
  has_prefix k (repo_prefix repo +:+ "cache/") = true.

Lemma cacheKey_in `{Sha256} repo key : in_cache_of repo (cacheKey repo key).
Proof. apply has_prefix_spec. eexists. by rewrite app_str_assoc. Qed.

Lemma restore_loop_in `{Sha256} `{Unicode} `{ObjectClientLaws} repo rks k :
  restore_loop repo rks = Ok (true, k) → in_cache_of repo k.
Proof.
  induction rks as [|rk rks IH]; simpl; [done|]. case_bool_decide; [done|].
  destruct (Exists _) as [[]|e|]; [|..|done|done].
  - intros [= <-]. apply cacheKey_in.
  - destruct (first_listed _) as [k'|] eqn:E; [|done]. intros [= <-].
    eapply has_prefix_trans; [by apply first_listed_prefix|].
    apply has_prefix_spec. eexists. by rewrite app_str_assoc.
Qed.

(** A cache hit is an object of the requesting repository's own cache: no
    other repository's objects — caches or artifacts — have that key, so a job
    is never handed the URL of another repository's cache. *)
Theorem cache_hits_stay_in_repository `{Sha256} `{Unicode} `{ObjectClientLaws} repo key rks k :
  repo_ok repo → CacheResolve repo key rks = Ok (true, k) →
  in_cache_of repo k ∧
  (∀ repo', repo_ok repo' → has_prefix k (repo_prefix repo') = true → repo' = repo) ∧
  ∀ repo' runID name, repo_ok repo' → k ≠ artifactKey repo' runID name.
Proof.
  intros Hok Hr. assert (in_cache_of repo k) as Hin.
  { unfold CacheResolve in Hr. destruct (Exists _) as [[]|e|]; [|by eapply restore_loop_in|done..].
    injection Hr as <-. apply cacheKey_in. }
  split; [done|]. apply has_prefix_spec in Hin as [t ->]. rewrite app_str_assoc. split.
  - intros repo' Hok'. rewrite has_prefix_spec. intros [t' Ht].
    by apply repo_prefix_inj in Ht as [-> _].
  - intros repo' runID name Hok' Heq. unfold artifactKey in Heq.
    apply repo_prefix_inj in Heq as [_ Heq]; done.
Qed.

(** Artifact keys are unambiguous: for names without a slash, two
    artifacts share a key only if repository, run and name agree. *)
Theorem artifact_keys_distinct r r' run run' name name' :
  repo_ok r → repo_ok r' → slash_free run → slash_free run' →
  artifactKey r run name = artifactKey r' run' name' → r = r' ∧ run = run' ∧ name = name'.
Proof.
  intros Hr Hr' Hrun Hrun' Heq. unfold artifactKey in Heq.
  apply repo_prefix_inj in Heq as [-> Heq]; [|done..].
  apply (str_app_inj_len "artifacts/" _ "artifacts/") in Heq as [_ Heq]; [|done].
  apply slash_inj in Heq as [-> Heq]; [|done..]. split_and!; [done..|].
  assert (String.length name = String.length name') as Hl.
  { apply (f_equal String.length) in Heq. rewrite !app_str_length in Heq. lia. }
  by apply str_app_inj_len in Heq as [-> _].
Qed.

(** ** Witnesses *)

Definition shop : RepositoryRef := {| RepoProvider := "github"; RepoOwner := "acme"; RepoName := "shop" |}.

(** A bucket with one cached object, and a hash that always gives the same sum. *)
Definition one_sum : Sha256 := {| sha256_sum := fun _ => "0123456789abcdef0123456789abcdef" |}.
Definition npm_object : string := "github/acme/shop/cache/npm-linux-30313233".
Definition one_object : ObjectClient := {|
  statObject := fun k => if bool_decide (k = npm_object) then None
                         else Some {| StatCode := "NoSuchKey"; StatText := "" |};
  listObjects := fun p => if has_prefix npm_object p then [inr "retry"; inl npm_object] else [];
  presignGet := fun k _ => Ok ("https://s3/" +:+ k);
  presignPut := fun k _ => Ok ("https://s3/" +:+ k)
|}.

Lemma one_object_laws : @ObjectClientLaws one_object.
Proof.
  constructor. intros p k. simpl. destruct (has_prefix npm_object p) eqn:E.
  - intros [|[|]%elem_of_cons]%elem_of_cons; simplify_eq; [done|]. by apply not_elem_of_nil in H.
  - intros Hin. by apply not_elem_of_nil in Hin.
Qed.

Lemma cache_hits_stay_in_repository_witness :
  @CacheResolve one_sum ascii_unicode one_object shop "npm-mac" ["npm-"] = Ok (true, npm_object) ∧
  in_cache_of shop npm_object.
Proof.
  assert (@CacheResolve one_sum ascii_unicode one_object shop "npm-mac" ["npm-"] = Ok (true, npm_object)) as E
    by (vm_compute; reflexivity).
  split; [exact E|].
  apply (@cache_hits_stay_in_repository one_sum ascii_unicode one_object one_object_laws shop "npm-mac" ["npm-"]).
  - repeat split.
  - exact E.
Defined.

Lemma artifact_keys_distinct_witness :
  artifactKey shop "run1" "dist" = "github/acme/shop/artifacts/run1/dist.tar.gz" ∧ "dist" = "dist".
Proof.
  split; [vm_compute; reflexivity|].
  apply (artifact_keys_distinct shop shop "run1" "run1" "dist" "dist"); try (repeat split; fail); try reflexivity;
    repeat split.
Defined.
