(* ===== verification/Server.v ===== *)
(** * The control-plane driver (internal/server/server.go)

    The state of [Server] and the operations that drive it: the source of
    workflows, ingestion with the building of plans, deferred conditions, the
    dispatch drain, rerequests and check reports.  The stores are the ports of
    [SchedulerPort].  Metrics and tracing are left out; a report that the
    provider refuses is only logged by the source, so the model keeps the list
    of reports made. *)

From S2P Require Import Prelude GoStrings GoFloat RunModel SchedulerPort Scheduler.
From S2P Require Import Syntax Compiler Globs ExprSyntax ExprEval Identity Authorization Plans Reports.

Local Open Scope go_scope.

(** [json.Unmarshal] of the two fields the server reads from a payload:
    [pull_request.head.repo.fork] ([None]: not JSON) and [pull_request.base.ref]. *)
Class EventJSON := {
  head_repo_fork : string → option bool;
  base_ref : string → string
}.

Record server (D A : Type) := {
  sdurable : D;
  sactive : A;
  splans : planStore;
  sinstances : gmap RunID (list JobInstance);
  strust : gmap JobRunID TrustLevel;
  sreports : list (RunRecord * Check)
}.
Arguments sdurable {D A} s.
Arguments sactive {D A} s.
Arguments splans {D A} s.
Arguments sinstances {D A} s.
Arguments strust {D A} s.
Arguments sreports {D A} s.

Section fields.
Context {D A : Type}.

Definition with_sdurable (v : D) (s : server D A) : server D A :=
  {| sdurable := v; sactive := sactive s; splans := splans s; sinstances := sinstances s;
     strust := strust s; sreports := sreports s |}.
Definition with_stores (v : D * A) (s : server D A) : server D A :=
  {| sdurable := fst v; sactive := snd v; splans := splans s; sinstances := sinstances s;
     strust := strust s; sreports := sreports s |}.
Definition with_splans v (s : server D A) : server D A :=
  {| sdurable := sdurable s; sactive := sactive s; splans := v; sinstances := sinstances s;
     strust := strust s; sreports := sreports s |}.
Definition with_sinstances v (s : server D A) : server D A :=
  {| sdurable := sdurable s; sactive := sactive s; splans := splans s; sinstances := v;
     strust := strust s; sreports := sreports s |}.
Definition with_strust v (s : server D A) : server D A :=
  {| sdurable := sdurable s; sactive := sactive s; splans := splans s; sinstances := sinstances s;
     strust := v; sreports := sreports s |}.
Definition with_sreports v (s : server D A) : server D A :=
  {| sdurable := sdurable s; sactive := sactive s; splans := splans s; sinstances := sinstances s;
     strust := strust s; sreports := v |}.

(** Store operations on the server's state. *)
Definition onD {X} (m : M D X) : M (server D A) X :=
  fun s => let '(d, r) := m (sdurable s) in (with_sdurable d s, r).
Definition onDA {X} (m : M (D * A) X) : M (server D A) X :=
  fun s => let '(v, r) := m (sdurable s, sactive s) in (with_stores v s, r).

(** An operation whose error is dropped ([_ = f()]). *)
Definition ignore {X} (m : M (server D A) X) : M (server D A) unit :=
  fun s => match m s with
           | (s', Panic) => (s', Panic)
           | (s', _) => (s', Ok tt)
           end.
End fields.

(** ** Trust and conditions *)

Definition trustFor `{EventJSON} (d : Delivery) : TrustLevel :=
  if bool_decide (EvName (DEvent d) ≠ "pull_request") then TrustTrusted
  else match head_repo_fork (DPayload d) with
       | None => TrustSameRepo
       | Some true => TrustFork
       | Some false => TrustSameRepo
       end.

Definition githubResultName (s : JobRunStatus) : string :=
  match s with
  | JobSucceeded => "success"
  | JobFailed => "failure"
  | JobCancelled => "cancelled"
  | JobSkipped => "skipped"
  | _ => "pending"
  end.

Definition githubContextValue (ev : Event) : Value :=
  ObjOf [("event_name", StrOf (EvName ev)); ("ref", StrOf (EvRef ev)); ("sha", StrOf (EvSHA ev));
         ("actor", StrOf (EvActor ev));
         ("repository", ObjOf [("owner", StrOf (RepoOwner (EvRepository ev)));
            ("name", StrOf (RepoName (EvRepository ev)));
            ("full_name", StrOf (RepoOwner (EvRepository ev) +:+ "/" +:+ RepoName (EvRepository ev)))])].

Section conditions.
Context `{Unicode} `{MapRange}.

Definition isDeferredCondition (cond : string) : bool :=
  let lower := to_lower cond in
  contains lower "needs." || contains lower "success(" || contains lower "failure(" ||
  contains lower "cancelled(" || contains lower "always(".

(** The first sibling with the key [dep] that failed or was cancelled sets the status. *)
Definition dep_status (runs : list JobRunRecord) (jobStatus dep : string) : string :=
  match find (fun r => bool_decide (JJobKey r = dep) &&
                       (bool_decide (JStatus r = JobFailed) || bool_decide (JStatus r = JobCancelled))) runs with
  | None => jobStatus
  | Some r => if bool_decide (JStatus r = JobCancelled) then "cancelled" else "failure"
  end.

Definition needs_map (runs : list JobRunRecord) : gmap string Value :=
  fold_left (fun m r => <[JJobKey r := ObjOf [("result", StrOf (githubResultName (JStatus r)))]]> m) runs ∅.

Definition jobConditionEnv (ev : Event) (rec : JobRunRecord) (runs : list JobRunRecord) : Env :=
  let jobStatus := fold_left (dep_status runs) (JDependsOn rec) "success" in
  WithJobStatus
    (With (With (With NewEnv "github" (githubContextValue ev))
            "needs" (ObjOf (range_map (needs_map runs))))
       "job" (ObjOf [("status", StrOf jobStatus)])) jobStatus.
End conditions.

(** ** The workflow source *)

Record WorkflowFile := { FName : string; FData : string }.

Section source.
Context `{Unicode} `{MapRange} `{EventJSON}.
Context (load : RepositoryRef → string → outcome string (list WorkflowFile)).
Context (unmarshal : string → outcome string Node).

Inductive SourceError :=
  | LoadError (msg : string)
  | SyntaxError (ds : list Diagnostic)
  | CompError (e : CompileError).

Definition matches (ev : Event) (payload : string) (c : Compiled) : bool :=
  if bool_decide (EvName ev = "push") then MatchesPush c (EvRef ev)
  else if bool_decide (EvName ev = "pull_request") then MatchesPullRequest c (base_ref payload)
  else bool_decide (0 < length (Schedules c)).

Fixpoint matched_files (ev : Event) (payload : string) (files : list WorkflowFile)
    (out : list JobInstance) : outcome SourceError (list JobInstance) :=
  match files with
  | [] => Ok out
  | f :: rest =>
      match Parse (FName f) unmarshal (FData f) with
      | Err ds => Err (SyntaxError ds)
      | Panic => Panic
      | Ok wf =>
          match Compile (Some wf) with
          | Err e => Err (CompError e)
          | Panic => Panic
          | Ok c => matched_files ev payload rest
                      (if matches ev payload c then out ++ CompJobs c else out)
          end
      end
  end.

Definition matchedJobs (ev : Event) (payload : string) : outcome SourceError (list JobInstance) :=
  if bool_decide (EvName ev ∉ ["push"; "pull_request"; "schedule"]) then Ok []
  else
    let ref := if bool_decide (EvName ev = "schedule") then EvRef ev else EvSHA ev in
    match load (EvRepository ev) ref with
    | Err e => Err (LoadError e)
    | Panic => Panic
    | Ok files => matched_files ev payload files []
    end.

(** [workflowSource.Compile]: the intents carry the job's condition. *)
Definition source_intent (j : JobInstance) : JobIntent := {|
  IJobKey := InstKey j; IRunnerClass := InstRunnerClass j; IDependsOn := InstDependsOn j;
  IMatrix := default ∅ (InstMatrix j); IPlanDigest := ""; ICondition := InstIf j |}.

Definition source_error (e : SourceError) : error := ErrWrap "workflow source" (ErrOther "").

Definition SourceCompile : Scheduler.Compiler := fun ev payload =>
  match matchedJobs ev payload with
  | Ok jobs => Ok (map source_intent jobs)
  | Err e => Err (source_error e)
  | Panic => Panic
  end.
End source.

(** ** Driver operations *)

Section driver.
Context `{Unicode} `{FloatText} `{JSONText} `{IntConv} `{MapRange} `{PlanDigest} `{EventJSON}.
Context {D A : Type} `{DurableStore D} `{ActiveExecutionStore A}.
Context (detailsBase : string).

Abbreviation S := (server D A).

Definition projectObserved (now : Time) (id : JobRunID) (phase : ObservedPhase) : M S unit :=
  onD (Project now id phase).

(** Every failure is logged and ends the report. *)
Definition reportCheck (id : JobRunID) : M S unit :=
  ignore
    (let* job := onD (GetJobRun id) in
     let* run := onD (GetRun (JRunID job)) in
     fun s =>
       match MapJobRun job detailsBase with
       | Ok check => (with_sreports (sreports s ++ [(run, check)]) s, Ok tt)
       | Err e => (s, Err (ErrOther e))
       | Panic => (s, Panic)
       end).

(** *** Deferred conditions *)

(** No dependency of the job is still open. *)
Definition deps_closed (rec : JobRunRecord) (all : list JobRunRecord) : bool :=
  forallb (fun dep => forallb (fun sib =>
    negb (bool_decide (JJobKey sib = dep) && negb (job_terminal (JStatus sib)))) all) (JDependsOn rec).

(** One queued job; the result says whether it was closed. *)
Definition settle_job (now : Time) (run : RunRecord) (all : list JobRunRecord) (rec : JobRunRecord)
    : M S bool :=
  if bool_decide (JCondition rec = "") || negb (isDeferredCondition (JCondition rec)) then mret false
  else if negb (deps_closed rec all) then mret false
  else
    let close phase :=
      let* _ := ignore (projectObserved now (JID rec) phase) in
      let* _ := reportCheck (JID rec) in
      mret true in
    match EvaluateCondition (JCondition rec) (Some (jobConditionEnv (REvent run) rec all)) with
    | Err _ => close PhaseFailed
    | Panic => fun s => (s, Panic)
    | Ok true => mret false
    | Ok false => close PhaseSkipped
    end.

Fixpoint settle_jobs (now : Time) (run : RunRecord) (all qs : list JobRunRecord) (progress : bool)
    : M S bool :=
  match qs with
  | [] => mret progress
  | rec :: qs' =>
      let* p := settle_job now run all rec in
      settle_jobs now run all qs' (progress || p)
  end.

(** An operation that failed is skipped ([continue]). *)
Definition or_else {X Y} (m : M S X) (k : X → M S Y) (d : M S Y) : M S Y :=
  fun s => match m s with
           | (s', Ok x) => k x s'
           | (s', Err _) => d s'
           | (s', Panic) => (s', Panic)
           end.

Fixpoint settle_runs (now : Time) (byRun : list (RunID * list JobRunRecord)) (progress : bool)
    : M S bool :=
  match byRun with
  | [] => mret progress
  | (runID, qs) :: rest =>
      or_else (onD (GetRun runID))
        (fun run =>
           or_else (onD (ListJobRuns runID))
             (fun all => let* p := settle_jobs now run all qs progress in settle_runs now rest p)
             (settle_runs now rest progress))
        (settle_runs now rest progress)
  end.

(** [byRun[j.RunID] = append(byRun[j.RunID], j)] *)
Definition by_run (queued : list JobRunRecord) : gmap RunID (list JobRunRecord) :=
  fold_left (fun m j => <[JRunID j := default [] (m !! JRunID j) ++ [j]]> m) queued ∅.

(** One round of the loop; [false]: the loop ends. *)
Definition settle_round (now : Time) : M S bool :=
  or_else (onD ListQueuedJobs)
    (fun queued => if bool_decide (length queued = 0) then mret false
                   else settle_runs now (range_map (by_run queued)) false)
    (mret false).

Fixpoint settle_loop (fuel : nat) (now : Time) : M S unit :=
  match fuel with
  | O => fun s => (s, Panic)
  | Datatypes.S fuel' =>
      let* progress := settle_round now in
      if progress then settle_loop fuel' now else mret tt
  end.

(** The loop of the source has no bound; [fuel] stands for the rounds it is given. *)
Definition evaluateDeferredConditions (fuel : nat) (now : Time) : M S unit := settle_loop fuel now.

(** *** The dispatch drain *)

Fixpoint drain (fuel : nat) (now : Time) (n : nat) : M S (nat * option error) :=
  match fuel with
  | O => fun s => (s, Panic)
  | Datatypes.S fuel' => fun s =>
      match onDA (DispatchNext now) s with
      | (s', Ok job) => (let* _ := reportCheck (JID job) in drain fuel' now (n + 1)) s'
      | (s', Err ErrNoQueuedJob) => (s', Ok (n, None))
      | (s', Err e) => (s', Ok (n, Some e))
      | (s', Panic) => (s', Panic)
      end
  end.

Definition DispatchOnce (fuel : nat) (now : Time) : M S (nat * option error) :=
  let* _ := evaluateDeferredConditions fuel now in
  drain fuel now 0.

Definition CollectOnce (now : Time) : M S nat := onDA (Collect now).

(** *** Plans of a new run *)

Definition set_trust (id : JobRunID) (t : TrustLevel) : M S unit :=
  fun s => (with_strust (<[id := t]> (strust s)) s, Ok tt).

Definition put_plan (p : Plan) : M S unit :=
  fun s => match PutPlan p (splans s) with
           | Ok ps => (with_splans ps s, Ok tt)
           | Err e => (s, Err (ErrWrap "store plan" (ErrOther e)))
           | Panic => (s, Panic)
           end.

Definition store_plan (fetch : option ActionFetcher) (ev : Event) (trust : TrustLevel)
    (rec : JobRunRecord) (inst : JobInstance) : M S unit :=
  match buildPlan fetch rec ev inst with
  | Err e => mfail (ErrWrap "build plan" (ErrOther e))
  | Panic => fun s => (s, Panic)
  | Ok p =>
      let* _ := put_plan p in
      let* _ := set_trust (JID rec) trust in
      reportCheck (JID rec)
  end.

(** One job of the run. *)
Definition plan_job (fetch : option ActionFetcher) (now : Time) (ev : Event) (trust : TrustLevel)
    (insts : list JobInstance) (runs : list JobRunRecord) (rec : JobRunRecord) : M S unit :=
  match find (fun i => bool_decide (InstKey i = JJobKey rec)) insts with
  | None => mfail (ErrOther ("server: job " +:+ JJobKey rec +:+ " missing from compiled set"))
  | Some inst =>
      if bool_decide (InstIf inst ≠ "") && negb (isDeferredCondition (InstIf inst)) then
        match EvaluateCondition (InstIf inst) (Some (jobConditionEnv ev rec runs)) with
        | Err _ => mfail (ErrWrap "invalid if" (ErrOther (InstIf inst)))
        | Panic => fun s => (s, Panic)
        | Ok false =>
            let* _ := mapErr (ErrWrap "skip job") (projectObserved now (JID rec) PhaseSkipped) in
            reportCheck (JID rec)
        | Ok true => store_plan fetch ev trust rec inst
        end
      else store_plan fetch ev trust rec inst
  end.

Fixpoint plan_jobs (fetch : option ActionFetcher) (now : Time) (ev : Event) (trust : TrustLevel)
    (insts : list JobInstance) (runs todo : list JobRunRecord) : M S unit :=
  match todo with
  | [] => mret tt
  | rec :: rest =>
      let* _ := plan_job fetch now ev trust insts runs rec in
      plan_jobs fetch now ev trust insts runs rest
  end.

(** [jobs] is the result of [matchedJobs] on the delivery. *)
Definition buildPlans (fetch : option ActionFetcher) (now : Time)
    (jobs : outcome SourceError (list JobInstance)) (d : Delivery) (runID : RunID)
    (trust : TrustLevel) : M S unit :=
  match jobs with
  | Err e => mfail (ErrWrap "rebuild jobs" (source_error e))
  | Panic => fun s => (s, Panic)
  | Ok insts =>
      let* _ := (fun s => (with_sinstances (<[runID := insts]> (sinstances s)) s, Ok tt)) in
      let* runs := mapErr (ErrWrap "list jobs") (onD (ListJobRuns runID)) in
      plan_jobs fetch now (DEvent d) trust insts runs runs
  end.

(** [Server.Ingest]: the run, whether it was created, and the error of [buildPlans]. *)
Definition ServerIngest (load : RepositoryRef → string → outcome string (list WorkflowFile))
    (unmarshal : string → outcome string Node) (fetch : option ActionFetcher) (now : Time)
    (d : Delivery) : M S (RunID * bool * option error) :=
  let* (runID, created) := onD (Ingest (SourceCompile load unmarshal) now d) in
  if bool_decide (runID = "") || negb created then mret (runID, created, None)
  else fun s =>
    match buildPlans fetch now (matchedJobs load unmarshal (DEvent d) (DPayload d)) d runID (trustFor d) s with
    | (s', Ok _) => (s', Ok (runID, created, None))
    | (s', Err e) => (s', Ok (runID, created, Some e))
    | (s', Panic) => (s', Panic)
    end.

(** *** Rerequest *)

Definition rename_plan (id : JobRunID) (p : Plan) : Plan := {|
  PJobRunID := id; PRepository := PRepository p; PEventName := PEventName p; PActor := PActor p;
  PSHA := PSHA p; PRef := PRef p; PRunnerClass := PRunnerClass p; PEnv := PEnv p;
  PSteps := PSteps p; PSecretRefs := PSecretRefs p; PTimeoutSecs := PTimeoutSecs p |}.

Definition Rerequest (now : Time) (id : JobRunID) : M S JobRunID :=
  let* newID := onD (RerequestJob id now) in
  let* _ := (fun s => match GetPlan id (splans s) with
                      | Ok old => ignore (put_plan (rename_plan newID old)) s
                      | _ => (s, Ok tt)
                      end) in
  let* _ := (fun s => match strust s !! id with
                      | Some t => set_trust newID t s
                      | None => (s, Ok tt)
                      end) in
  let* _ := reportCheck newID in
  mret newID.
End driver.
