(* ===== verification/ServerConditions.v ===== *)
(** * The dispatch tick: deferred conditions and the drain (server.go, conditions.go)

    [Server.DispatchOnce] first settles the deferred conditions and then
    dispatches until no job can be claimed.  [Server.evaluateDeferredConditions]
    closes the queued jobs whose [if:] waits for their dependencies and turns out
    false; its loop has no bound in the source.  Over the in-memory store it ends,
    because every round that goes on has closed a queued job, and when it ends
    every deferred condition that could be decided holds.  Evaluation of a
    condition never panics.  The drain ends and leaves no job that could have been
    dispatched; each dispatch turns a queued job into a dispatched one and gives
    its claim back. *)

From S2P Require Import Prelude GoStrings RunModel SchedulerPort MemoryStore StoreInvariant StoreOps StoreClaims Scheduler SchedulerMemory.
From S2P Require Import GoFloat ExprSyntax ExprParserFacts ExprPrint ExprLex ExprEval Reports Server.

Local Open Scope go_scope.

(** ** Evaluation is total *)

Section totality.
Context `{Unicode} `{FloatText} `{JSONText} `{IntConv} `{MapRange}.

Lemma obind_total {E A B} (r : outcome E A) (k : A → outcome E B) :
  r ≠ Panic → (∀ a, k a ≠ Panic) → (let! x := r in k x) ≠ Panic.
Proof. intros Hr Hk. destruct r; [apply Hk|done|done]. Qed.

Lemma format_loop_total skip args tpl : format_loop skip args tpl ≠ Panic.
Proof.
  revert skip. induction tpl as [|c tpl IH]; intros skip; cbn [format_loop]; [done|].
  unfold fn_error. repeat (case_match; try done); subst; by (eapply IH || (exfalso; eapply IH)).
Qed.

Lemma hash_patterns_total args : hash_patterns args ≠ Panic.
Proof.
  unfold fn_error. induction args as [|v args IH]; simpl; [done|].
  destruct v; try done. destruct (contains _ _); [done|]. by destruct (hash_patterns args).
Qed.

Lemma with_arity_total name args want r : r ≠ Panic → with_arity name args want r ≠ Panic.
Proof. unfold with_arity. by destruct (arity _ _ _). Qed.

Lemma functions_total name fn env args : functions name = Some fn → fn env args ≠ Panic.
Proof.
  unfold functions, fn_error.
  repeat (case_bool_decide; [intros [= <-]; try apply with_arity_total; try done;
    repeat (case_match; try done)|]); [| |done].
  - unfold hashFilesFn, fn_error. pose proof (hash_patterns_total args).
    by repeat (case_match; try done).
  - unfold formatGitHub. pose proof (format_loop_total 0 l (render v)).
    by destruct (format_loop _ _ _).
Qed.

Lemma evalNode_total n env expr : evalNode n env expr ≠ Panic.
Proof.
  induction n as [v|s|o p IHo IHp|op x IHx|op l r IHl IHr|name args IHargs] using node_induction; cbn [evalNode].
  - done.
  - by destruct (Lookup env s).
  - by apply obind_total; [|intros; apply obind_total].
  - by apply obind_total.
  - apply obind_total; [done|]. intros lv. do 2 (case_match; [done|]).
    apply obind_total; [done|]. intros rv. case_match; [done|].
    unfold binary_value. by repeat (case_match; try done).
  - destruct (functions (to_lower name)) as [fn|] eqn:Ef; [|done].
    apply obind_total; [|intros vs; by eapply functions_total].
    induction IHargs as [|a l Ha _ IH]; [done|].
    apply obind_total; [done|]. intros v. by apply obind_total.
Qed.

Lemma Eval_total expr env : Eval expr env ≠ Panic.
Proof.
  unfold Eval. pose proof (parse_total expr). destruct (parse expr); [apply evalNode_total|done..].
Qed.

Lemma interpolate_loop_total skip whole env tpl : interpolate_loop skip whole env tpl ≠ Panic.
Proof.
  revert skip. induction tpl as [|c tpl IH]; intros skip; cbn [interpolate_loop]; [done|].
  destruct skip as [|k]; [|apply IH]. destruct (has_prefix _ _).
  - destruct (index _ _) as [stop|]; [|done].
    pose proof (Eval_total (trim_space (str_take (stop - 3) (str_drop 3 (String c tpl)))) env) as He.
    destruct (Eval _ env); [|done|done]. apply obind_total; [apply IH|done].
  - apply obind_total; [apply IH|done].
Qed.

Lemma EvaluateCondition_total raw env : EvaluateCondition raw env ≠ Panic.
Proof.
  assert (∀ c, (let! v := Eval c env in Ok (Truthy v)) ≠ Panic) as He
    by (intros c; by apply obind_total; [apply Eval_total|]).
  unfold EvaluateCondition, Interpolate. case_bool_decide; [done|].
  destruct (contains _ _); [|destruct (negb _); apply He].
  apply obind_total; [apply interpolate_loop_total|]. intros c. case_bool_decide; [done|apply He].
Qed.
End totality.

(** ** What a pass over the queued jobs may do to the store *)

(** The job waits for a condition that the driver decides. *)
Definition deferred `{Unicode} (j : JobRunRecord) : bool :=
  negb (bool_decide (JCondition j = "")) && isDeferredCondition (JCondition j).

(** The record of a run that was refreshed. *)
Definition refreshed (run run' : RunRecord) : Prop :=
  run_terminal (RStatus run) = false ∧ ∃ st fin, run' = set_run st fin run.

(** Queued jobs with a deferred condition may have been closed as failed or
    skipped, and the open runs of these jobs refreshed; everything else of the
    store is kept. *)
Record settled `{Unicode} (s s' : store) : Prop := {
  se_jobs : ∀ id, jobs s' !! id = jobs s !! id ∨
    ∃ j j', jobs s !! id = Some j ∧ jobs s' !! id = Some j' ∧ JStatus j = JobQueued ∧
            deferred j = true ∧ (JStatus j' = JobFailed ∨ JStatus j' = JobSkipped);
  se_runs : ∀ r, runs s' !! r = runs s !! r ∨
    ∃ run run', runs s !! r = Some run ∧ runs s' !! r = Some run' ∧ refreshed run run' ∧
      ∃ id j, jobs s !! id = Some j ∧ JRunID j = r ∧ jobs s' !! id ≠ Some j;
  se_deliveries : deliveries s' = deliveries s;
  se_index : byJobKey s' = byJobKey s;
  se_runJobs : runJobs s' = runJobs s;
  se_claimed : claimed s' = claimed s
}.

(** A job that was changed is closed, and stays as it is. *)
Lemma settled_keeps `{Unicode} s1 s2 s3 id j :
  settled s1 s2 → settled s2 s3 → jobs s1 !! id = Some j → jobs s2 !! id ≠ Some j →
  jobs s3 !! id = jobs s2 !! id.
Proof.
  intros H12 H23 Hj Hne.
  destruct (se_jobs _ _ H12 id) as [E12|(j1 & j' & _ & Hj' & _ & _ & Hst)]; [congruence|].
  destruct (se_jobs _ _ H23 id) as [E23|(k & k' & Hk & _ & Hq & _)]; [done|].
  destruct Hst; congruence.
Qed.

#[export] Instance settled_refl `{Unicode} : Reflexive settled.
Proof. intros s. split; try done; intros; by left. Qed.

#[export] Instance settled_trans `{Unicode} : Transitive settled.
Proof.
  intros s1 s2 s3 H12 H23. pose proof (settled_keeps s1 s2 s3) as Hkeep. split.
  - intros id. destruct (se_jobs _ _ H12 id) as [E12|(j & j' & Hj & Hj' & Hq & Hd & Hst)].
    + destruct (se_jobs _ _ H23 id) as [E23|(k & k' & Hk & Hk' & ?)]; [left; congruence|].
      right. exists k, k'. by rewrite <-E12.
    + right. exists j, j'. rewrite (Hkeep id j) by (done || (destruct Hst; congruence)).
      by split_and!.
  - intros r. destruct (se_runs _ _ H12 r) as [E12|(run & run' & Hr & Hr' & Hrf & id & j & Hj & Hjr & Hne)].
    + destruct (se_runs _ _ H23 r) as [E23|(run & run' & Hr & Hr' & Hrf & id & j & Hj & Hjr & Hne)];
        [left; congruence|right].
      exists run, run'. split_and!; try done; [congruence|].
      destruct (se_jobs _ _ H12 id) as [E|(j1 & j2 & Hj1 & Hj2 & Hq & _ & Hst)]; [exists id, j; by rewrite <-E|].
      exfalso. destruct (se_jobs _ _ H23 id) as [E|(k & k' & Hk & _ & Hqk & _)]; [congruence|].
      destruct Hst; congruence.
    + right. assert (∃ id j, jobs s1 !! id = Some j ∧ JRunID j = r ∧ jobs s3 !! id ≠ Some j) as Hc.
      { exists id, j. by rewrite (Hkeep id j). }
      destruct (se_runs _ _ H23 r) as [E23|(run2 & run3 & Hr2 & Hr3 & (_ & st3 & f3 & ->) & _)].
      * exists run, run'. by rewrite E23.
      * destruct Hrf as (Ht & st2 & f2 & ->). assert (run2 = set_run st2 f2 run) as -> by congruence.
        exists run, (set_run st3 f3 run). split_and!; [done|by rewrite Hr3| |done].
        split; [done|by exists st3, f3].
  - by rewrite (se_deliveries _ _ H23), (se_deliveries _ _ H12).
  - by rewrite (se_index _ _ H23), (se_index _ _ H12).
  - by rewrite (se_runJobs _ _ H23), (se_runJobs _ _ H12).
  - by rewrite (se_claimed _ _ H23), (se_claimed _ _ H12).
Qed.

(** The queued jobs of a store. *)
Definition queued_jobs (s : store) : gmap string JobRunRecord :=
  filter (fun p => JStatus (snd p) = JobQueued) (jobs s).

Lemma queued_jobs_lookup s id j :
  queued_jobs s !! id = Some j ↔ jobs s !! id = Some j ∧ JStatus j = JobQueued.
Proof. unfold queued_jobs. by rewrite map_lookup_filter_Some. Qed.

Lemma settled_queued `{Unicode} s s' : settled s s' → queued_jobs s' ⊆ queued_jobs s.
Proof.
  intros Hs. apply map_subseteq_spec. intros id j [Hj Hq]%queued_jobs_lookup.
  apply queued_jobs_lookup. destruct (se_jobs _ _ Hs id) as [E|(j0 & j' & _ & Hj' & _ & _ & Hst)].
  - by rewrite <-E.
  - rewrite Hj in Hj'. injection Hj' as <-. destruct Hst; congruence.
Qed.

(** Some queued job is no longer queued. *)
Definition closed_one (s s' : store) : Prop :=
  ∃ id j j', jobs s !! id = Some j ∧ JStatus j = JobQueued ∧
             jobs s' !! id = Some j' ∧ JStatus j' ≠ JobQueued.

Lemma closed_one_r `{Unicode} s s1 s2 : closed_one s s1 → settled s1 s2 → closed_one s s2.
Proof.
  intros (id & j & j' & Hj & Hq & Hj' & Hnq) Hs. exists id, j.
  destruct (se_jobs _ _ Hs id) as [E|(k & k' & Hk & _ & Hqk & _)]; [exists j'; by rewrite E|congruence].
Qed.

Lemma closed_one_smaller `{Unicode} s s' :
  settled s s' → closed_one s s' → size (queued_jobs s') < size (queued_jobs s).
Proof.
  intros Hs (id & j & j' & Hj & Hq & Hj' & Hnq). apply map_subset_size, map_subset_alt.
  split; [by apply settled_queued|]. exists id. split.
  - apply eq_None_not_Some. intros [k [Hk Hqk]%queued_jobs_lookup]. congruence.
  - exists j. by apply queued_jobs_lookup.
Qed.

(** ** One pass *)

Section pass.
Context `{Unicode} `{FloatText} `{JSONText} `{IntConv} `{MapRange}.
Context `{MemoryEnv} `{!MemoryEnvOk} {A : Type} (base : string).

Lemma reportCheck_frame id (v : server store A) :
  ∃ v', reportCheck base id v = (v', Ok tt) ∧ sdurable v' = sdurable v ∧
        sactive v' = sactive v ∧ splans v' = splans v ∧ strust v' = strust v ∧
        sinstances v' = sinstances v ∧
        ∃ more, sreports v' = sreports v ++ more ∧
          ∀ p, p ∈ more → ∃ j, jobs (sdurable v) !! id = Some j ∧ MapJobRun j base = Ok (snd p).
Proof.
  assert (∃ more, sreports v = sreports v ++ more ∧ ∀ p, p ∈ more →
    ∃ j, jobs (sdurable v) !! id = Some j ∧ MapJobRun j base = Ok (snd p)) as Hno.
  { exists []. rewrite app_nil_r. split; [done|]. intros p Hp. by apply not_elem_of_nil in Hp. }
  unfold reportCheck, ignore, mbind, onD. simpl. unfold mem_GetJobRun, mem_GetRun, getRunLocked.
  destruct (jobs (sdurable v) !! id) as [j|] eqn:Hj; simpl; [|by eexists].
  destruct (runs (sdurable v) !! JRunID j) as [r|]; simpl; [|by eexists].
  pose proof (MapJobRun_total j base). destruct (MapJobRun j base) as [c|e|] eqn:Hm; [|by eexists|done].
  eexists. split_and!; [done..|]. exists [(r, c)]. split; [done|].
  intros p ->%list_elem_of_singleton. by exists j.
Qed.

(** The status that a phase closes a job with. *)
Definition closing (ph : ObservedPhase) (st : JobRunStatus) : Prop :=
  (ph = PhaseFailed ∧ st = JobFailed) ∨ (ph = PhaseSkipped ∧ st = JobSkipped).

(** Closing a job that was queued in [s0] and may have been closed since. *)
Lemma close_settled s0 s id j ph st now s' r :
  closing ph st → store_wf s → settled s0 s →
  jobs s0 !! id = Some j → JStatus j = JobQueued → deferred j = true →
  mem_ApplyObserved id ph now s = (s', r) →
  r = Ok tt ∧ store_wf s' ∧ settled s s' ∧ closed_one s0 s' ∧
  (∃ j', jobs s' !! id = Some j' ∧ (JStatus j' = JobFailed ∨ JStatus j' = JobSkipped)) ∧
  (∀ id2 k, jobs s !! id2 = Some k → jobs s' !! id2 ≠ Some k →
    id2 = id ∧ k = j ∧ jobs s' !! id = Some (observed_job st now j)).
Proof.
  intros Hph Hwf Hs Hj Hq Hd Hap.
  destruct (ApplyObserved_wf_le id ph now s Hwf) as [Hwf' _]. rewrite Hap in Hwf'. simpl in Hwf'.
  unfold mem_ApplyObserved in Hap. destruct (se_jobs _ _ Hs id) as [E|(k & k' & Hk & Hk' & _ & _ & Hst)].
  - assert (JobStatusFromPhase ph = Some st ∧ (st = JobFailed ∨ st = JobSkipped) ∧
      CanAdvanceJob JobQueued st = true) as (Et & Ht & Ea)
      by (destruct Hph as [[-> ->]|[-> ->]]; split_and!; auto).
    rewrite E, Hj, Hq in Hap. cbn [job_terminal] in Hap. rewrite Et, Ea in Hap. injection Hap as <- <-.
    assert (JStatus (observed_job st now j) = st) as Hot by (by destruct Ht as [-> | ->]).
    assert (st ≠ JobQueued) as Hnq by (by destruct Ht as [-> | ->]).
    assert (observed_job st now j ≠ j) as Hne by congruence.
    set (s1 := putJob id (observed_job st now j) s) in *.
    assert (jobs (refreshRunLocked (JRunID j) now s1) = <[id := observed_job st now j]> (jobs s)) as Ej
      by apply refresh_jobs.
    destruct (refresh_skips s1 (JRunID j) now) as [Hi Hcl].
    destruct (refresh_tables s1 (JRunID j) now) as [Hrj Hdl].
    split_and!; try done.
    + split; try done.
      * intros id2. rewrite Ej, lookup_insert. case_decide; [subst|by left]. right.
        exists j, (observed_job st now j). rewrite E, Hot. by split_and!.
      * intros r. unfold refreshRunLocked. simpl. destruct (runs s !! JRunID j) as [run|] eqn:Hr; [|by left].
        destruct (run_terminal (RStatus run)) eqn:Ht2; [by left|].
        destruct (_ && _); [|by left]. simpl. rewrite lookup_insert. case_decide; [subst r|by left].
        right. exists run. eexists. split_and!; [done|done|split; [done|by eexists _, _]|].
        exists id, j. rewrite lookup_insert_eq, E. split_and!; [done..|]. congruence.
    + exists id, j, (observed_job st now j). rewrite Ej, Hot, lookup_insert_eq. by split_and!.
    + exists (observed_job st now j). rewrite Ej, Hot, lookup_insert_eq. by split_and!.
    + intros id2 k Hk. rewrite Ej, lookup_insert. case_decide; [subst id2|done].
      intros _. rewrite lookup_insert_eq. rewrite E, Hj in Hk. injection Hk as <-. done.
  - assert (job_terminal (JStatus k') = true) as Ht by (by destruct Hst as [-> | ->]).
    rewrite Hk', Ht in Hap. injection Hap as <- <-. split_and!; try done.
    + exists id, k, k'. split_and!; try done; [congruence|]. by destruct Hst as [-> | ->].
    + by exists k'.
Qed.

(** The jobs of a run as [ListJobRuns] returns them. *)
Definition run_listing (s : store) (r : string) : list JobRunRecord := map (getJob s) (getRunJobs s r).

(** Read in the store [m], the deferred condition of [j] closes the job with
    the status [st]: its dependencies are closed, and the condition is invalid
    or false. *)
Definition decided (m : store) (j : JobRunRecord) (st : JobRunStatus) : Prop :=
  ∃ run, runs m !! JRunID j = Some run ∧ deferred j = true ∧
    deps_closed j (run_listing m (JRunID j)) = true ∧
    match EvaluateCondition (JCondition j)
            (Some (jobConditionEnv (REvent run) j (run_listing m (JRunID j)))) with
    | Err _ => st = JobFailed
    | Ok false => st = JobSkipped
    | _ => False
    end.

(** What a pass that started in the store [s0] does to a server. Every job it
    changes is closed by its condition, as read in a store of the pass; and
    check reports of closed jobs are appended. *)
Record settles (s0 : store) (now : Time) (v v' : server store A) : Prop := {
  sv_store : settled (sdurable v) (sdurable v');
  sv_decided : ∀ id j, jobs (sdurable v) !! id = Some j → jobs (sdurable v') !! id ≠ Some j →
    ∃ m st, settled s0 m ∧ settled m (sdurable v') ∧ jobs m !! id = Some j ∧ decided m j st ∧
            jobs (sdurable v') !! id = Some (observed_job st now j);
  sv_active : sactive v' = sactive v;
  sv_plans : splans v' = splans v;
  sv_instances : sinstances v' = sinstances v;
  sv_trust : strust v' = strust v;
  sv_reports : ∃ more, sreports v' = sreports v ++ more ∧
    ∀ p, p ∈ more → ∃ id j', jobs (sdurable v') !! id = Some j' ∧
      (JStatus j' = JobFailed ∨ JStatus j' = JobSkipped) ∧ MapJobRun j' base = Ok (snd p)
}.

#[export] Instance settles_refl s0 now : Reflexive (settles s0 now).
Proof.
  intros v. split; try done. exists []. rewrite app_nil_r. split; [done|].
  intros p Hp. by apply not_elem_of_nil in Hp.
Qed.

Lemma settles_trans s0 s1 now v1 v2 v3 :
  settled s0 s1 → settles s0 now v1 v2 → settles s1 now v2 v3 → settles s0 now v1 v3.
Proof.
  intros Hs H12 H23. pose proof (sv_store _ _ _ _ H12) as S12. pose proof (sv_store _ _ _ _ H23) as S23. split.
  - by etrans.
  - intros id j Hj Hne. assert (jobs (sdurable v2) !! id = Some j ∨ jobs (sdurable v2) !! id ≠ Some j) as [E|E].
    { destruct (se_jobs _ _ S12 id) as [E|(k & k' & Hk & Hk' & Hq & _ & Hst)]; [left; congruence|].
      right. destruct Hst; congruence. }
    + destruct (sv_decided _ _ _ _ H23 id j E Hne) as (m & st & Hm & Hm' & Hmj & Hd & Hj').
      exists m, st. split_and!; try done. by etrans.
    + destruct (sv_decided _ _ _ _ H12 id j Hj E) as (m & st & Hm & Hm' & Hmj & Hd & Hj').
      exists m, st. rewrite (settled_keeps _ _ _ id j S12 S23 Hj E). split_and!; try done. by etrans.
  - by rewrite (sv_active _ _ _ _ H23), (sv_active _ _ _ _ H12).
  - by rewrite (sv_plans _ _ _ _ H23), (sv_plans _ _ _ _ H12).
  - by rewrite (sv_instances _ _ _ _ H23), (sv_instances _ _ _ _ H12).
  - by rewrite (sv_trust _ _ _ _ H23), (sv_trust _ _ _ _ H12).
  - destruct (sv_reports _ _ _ _ H12) as (m1 & E1 & Hm1), (sv_reports _ _ _ _ H23) as (m2 & E2 & Hm2).
    exists (m1 ++ m2). rewrite E2, E1, app_assoc. split; [done|].
    intros p [Hp|Hp]%elem_of_app; [|by apply Hm2].
    destruct (Hm1 p Hp) as (id & j' & Hj' & Hst & Hc). exists id, j'. split_and!; try done.
    destruct (se_jobs _ _ S23 id) as [E|(k & k' & Hk & _ & Hq & _)]; [congruence|].
    destruct Hst; congruence.
Qed.

(** The condition of a queued job is decided and holds, or cannot be decided yet. *)
Definition condition_holds (run : RunRecord) (all : list JobRunRecord) (j : JobRunRecord) : Prop :=
  deferred j = true → deps_closed j all = true →
  EvaluateCondition (JCondition j) (Some (jobConditionEnv (REvent run) j all)) = Ok true.

(** A step of the pass that started in [s0]: it keeps the invariants and, if
    it reports progress, has closed a job; otherwise it changed nothing. *)
Definition pass_step (s0 : store) (now : Time) (v v' : server store A) (b : bool) (stay : Prop) : Prop :=
  store_wf (sdurable v') ∧ settles s0 now v v' ∧
  (b = true → closed_one s0 (sdurable v')) ∧ (b = false → v' = v ∧ stay).

Lemma settle_job_step s0 m now run all rec (v : server store A) :
  store_wf (sdurable v) → settled s0 m → settled m (sdurable v) →
  runs m !! JRunID rec = Some run → all = run_listing m (JRunID rec) →
  jobs s0 !! JID rec = Some rec → JStatus rec = JobQueued →
  ∃ v' b, settle_job base now run all rec v = (v', Ok b) ∧
          pass_step s0 now v v' b (condition_holds run all rec).
Proof.
  intros Hwf Hs0 Hs1 Hrun Hall Hj Hq. assert (settled s0 (sdurable v)) as Hs by (by etrans).
  unfold settle_job.
  assert (∀ stay : Prop, stay → pass_step s0 now v v false stay) as Hstay.
  { intros stay Hstay. by split_and!; [|reflexivity|..]. }
  assert (∀ ph st (stay : Prop), closing ph st → decided m rec st → ∃ v' b,
    (let* _ := ignore (projectObserved now (JID rec) ph) in
     let* _ := reportCheck base (JID rec) in mret true) v = (v', Ok b) ∧ pass_step s0 now v v' b stay) as Hclose.
  { intros ph st stay Hph Hdec. assert (deferred rec = true) as Hd by (by destruct Hdec as (? & ? & ? & _)).
    unfold mbind, ignore, projectObserved, onD, Project, mapErr. simpl.
    destruct (mem_ApplyObserved (JID rec) ph now (sdurable v)) as [s' r] eqn:Hap.
    destruct (close_settled s0 (sdurable v) (JID rec) rec ph st now s' r Hph Hwf Hs Hj Hq Hd Hap)
      as (-> & Hwf' & Hst' & Hc & Hcl & Hch).
    destruct (reportCheck_frame (JID rec) (with_sdurable s' v)) as
      (v' & -> & Hv' & Ha & Hp & Ht & Hi & more & Hr & Hmore). simpl in *.
    exists v', true. split; [done|]. unfold pass_step. rewrite Hv'. split_and!; try done.
    split; rewrite ?Hv'; try done.
    - intros id j Hjd Hne. destruct (Hch id j Hjd Hne) as (-> & -> & Hob). exists m, st.
      split_and!; try done; [by etrans|].
      destruct (se_jobs _ _ Hs1 (JID rec)) as [E|(k & k' & _ & Hk' & _ & _ & Hst)]; [congruence|].
      destruct Hst; congruence.
    - exists more. split; [done|]. intros p Hpm. destruct (Hmore p Hpm) as (j & Hjs & Hm).
      destruct Hcl as (j' & Hj' & Hst). exists (JID rec), j'. split_and!; try done. congruence. }
  case_bool_decide as Hc; simpl.
  { exists v, false. split; [done|]. apply Hstay. intros Hd. unfold deferred in Hd.
    by rewrite bool_decide_eq_true_2 in Hd. }
  destruct (isDeferredCondition (JCondition rec)) eqn:Hdef; simpl.
  2: { exists v, false. split; [done|]. apply Hstay. intros Hd. unfold deferred in Hd.
       by rewrite Hdef, andb_false_r in Hd. }
  assert (deferred rec = true) as Hd by (unfold deferred; by rewrite Hdef, bool_decide_eq_false_2).
  destruct (deps_closed rec all) eqn:Hdeps; simpl.
  2: { exists v, false. split; [done|]. apply Hstay. intros _. by rewrite Hdeps. }
  pose proof (EvaluateCondition_total (JCondition rec) (Some (jobConditionEnv (REvent run) rec all))) as Ht.
  destruct (EvaluateCondition _ _) as [[]|e|] eqn:He; [| | |done].
  - exists v, false. split; [done|]. apply Hstay. intros _ _. exact He.
  - apply (Hclose PhaseSkipped JobSkipped); [by right|]. exists run. rewrite <-Hall, He. by split_and!.
  - apply (Hclose PhaseFailed JobFailed); [by left|]. exists run. rewrite <-Hall, He. by split_and!.
Qed.

Lemma settle_jobs_step s0 m now r run qs progress (v : server store A) :
  store_wf (sdurable v) → settled s0 m → settled m (sdurable v) → runs m !! r = Some run →
  (∀ rec, rec ∈ qs → jobs s0 !! JID rec = Some rec ∧ JStatus rec = JobQueued ∧ JRunID rec = r) →
  (progress = true → closed_one s0 (sdurable v)) →
  ∃ v' b, settle_jobs base now run (run_listing m r) qs progress v = (v', Ok b) ∧
    pass_step s0 now v v' b (progress = false ∧
      ∀ rec, rec ∈ qs → condition_holds run (run_listing m r) rec).
Proof.
  revert progress v. induction qs as [|rec qs IH]; intros progress v Hwf Hs0 Hs1 Hrun Hqs Hp; simpl.
  { exists v, progress. split; [done|]. split_and!; [done|reflexivity|done|]. intros ->.
    split_and!; [done..|]. intros rec Hin. by apply not_elem_of_nil in Hin. }
  destruct (Hqs rec) as (Hj & Hq & Hr); [by left|].
  destruct (settle_job_step s0 m now run (run_listing m r) rec v Hwf Hs0 Hs1) as
    (v1 & b1 & E1 & Hwf1 & Hs1' & Hc1 & Hn1); [congruence|congruence|done|done|].
  pose proof (sv_store _ _ _ _ Hs1') as Hst1.
  destruct (IH (progress || b1) v1 Hwf1 Hs0) as (v2 & b2 & E2 & Hwf2 & Hs2 & Hc2 & Hn2).
  - by etrans.
  - done.
  - intros rec' Hin. apply Hqs. by right.
  - destruct b1; [auto|]. rewrite orb_false_r. intros Hpt. eapply closed_one_r; [by apply Hp|done].
  - exists v2, b2. unfold mbind. rewrite E1, E2. split; [done|].
    split_and!; [done|exact (settles_trans _ _ _ _ _ _ (reflexivity s0) Hs1' Hs2)|done|].
    intros Hb. destruct (Hn2 Hb) as (-> & Hor & Hall). apply orb_false_elim in Hor as [-> ->].
    destruct Hn1 as [-> Hst]; [done|]. split_and!; [done..|].
    intros rec' [->|Hin]%elem_of_cons; auto.
Qed.

(** Every deferred condition of these jobs that can be decided holds. *)
Definition conditions_hold (s : store) (r : string) (qs : list JobRunRecord) : Prop :=
  ∀ run rec, runs s !! r = Some run → rec ∈ qs → condition_holds run (run_listing s r) rec.

Lemma settle_runs_step s0 now byRun progress (v : server store A) :
  store_wf (sdurable v) → settled s0 (sdurable v) →
  (∀ r qs rec, (r, qs) ∈ byRun → rec ∈ qs →
    jobs s0 !! JID rec = Some rec ∧ JStatus rec = JobQueued ∧ JRunID rec = r) →
  (progress = true → closed_one s0 (sdurable v)) →
  ∃ v' b, settle_runs base now byRun progress v = (v', Ok b) ∧
    pass_step s0 now v v' b (progress = false ∧
      ∀ r qs, (r, qs) ∈ byRun → conditions_hold (sdurable v) r qs).
Proof.
  revert progress v. induction byRun as [|[r qs] rest IH]; intros progress v Hwf Hs Hqs Hp; simpl.
  { exists v, progress. split; [done|]. split_and!; [done|reflexivity|done|]. intros ->.
    split_and!; [done..|]. intros r qs Hin. by apply not_elem_of_nil in Hin. }
  assert (∀ r' qs' rec, (r', qs') ∈ rest → rec ∈ qs' →
    jobs s0 !! JID rec = Some rec ∧ JStatus rec = JobQueued ∧ JRunID rec = r') as Hrest.
  { intros r' qs' rec Hin. apply (Hqs r' qs'). by right. }
  unfold or_else, onD. simpl. unfold mem_GetRun, getRunLocked, mem_ListJobRuns.
  assert (with_sdurable (sdurable v) v = v) as Ev by (by destruct v).
  destruct (runs (sdurable v) !! r) as [run|] eqn:Hrun.
  2: { rewrite Ev. destruct (IH progress v Hwf Hs Hrest Hp) as (v' & b & E & Hwf' & Hs' & Hc & Hn).
       exists v', b. split; [done|]. split_and!; [done..|]. intros Hb.
       destruct (Hn Hb) as (-> & -> & Hall). split_and!; [done..|].
       intros r' qs' [[= -> ->]|Hin]%elem_of_cons; [|auto]. intros run rec Hr. congruence. }
  rewrite Ev, Hrun, Ev.
  destruct (settle_jobs_step s0 (sdurable v) now r run qs progress v Hwf Hs)
    as (v1 & b1 & E1 & Hwf1 & Hs1 & Hc1 & Hn1); [reflexivity|done| |done|].
  { intros rec. apply (Hqs r). by left. }
  pose proof (sv_store _ _ _ _ Hs1) as Hst1.
  destruct (IH b1 v1 Hwf1) as (v2 & b2 & E2 & Hwf2 & Hs2 & Hc2 & Hn2); [by etrans|done..|].
  exists v2, b2. unfold mbind. unfold run_listing in E1. rewrite E1, E2. split; [done|].
  split_and!; [done|exact (settles_trans _ _ _ _ _ _ (reflexivity s0) Hs1 Hs2)|done|]. intros Hb. destruct (Hn2 Hb) as (-> & -> & Hall).
  destruct Hn1 as (-> & -> & Hst); [done|]. split_and!; [done..|].
  intros r' qs' [[= -> ->]|Hin]%elem_of_cons; [|auto].
  intros run' rec Hr' Hin. rewrite Hrun in Hr'. injection Hr' as <-. auto.
Qed.

(** Grouping by run keeps every job and adds none. *)
Lemma by_run_spec queued :
  (∀ r qs rec, by_run queued !! r = Some qs → rec ∈ qs → rec ∈ queued ∧ JRunID rec = r) ∧
  (∀ rec, rec ∈ queued → ∃ qs, by_run queued !! JRunID rec = Some qs ∧ rec ∈ qs).
Proof.
  unfold by_run. induction queued as [|j l [IH1 IH2]] using rev_ind.
  { split; [done|]. intros rec Hin. by apply not_elem_of_nil in Hin. }
  rewrite fold_left_app. simpl. set (m := fold_left _ l ∅) in *. split.
  - intros r qs rec. rewrite lookup_insert. case_decide as Hr; [|by intros; set_solver].
    subst r. intros [= <-]. rewrite elem_of_app, elem_of_app, !list_elem_of_singleton.
    intros [Hin| ->]; [|by auto]. destruct (m !! JRunID j) as [qs|] eqn:E; simpl in Hin.
    + destruct (IH1 _ _ _ E Hin). auto.
    + by apply not_elem_of_nil in Hin.
  - intros rec. rewrite elem_of_app, list_elem_of_singleton. rewrite lookup_insert.
    intros [Hin| ->]; case_decide as Hr; try done.
    + destruct (IH2 rec Hin) as (qs & Hqs & Hin'). rewrite Hr, Hqs. simpl. eexists. split; [done|].
      apply elem_of_app. by left.
    + auto.
    + eexists. split; [done|]. apply elem_of_app. right. by left.
Qed.

Lemma all_jobs_elem s j : store_wf0 s → j ∈ all_jobs s ↔ jobs s !! JID j = Some j.
Proof.
  intros Hwf. unfold all_jobs. rewrite list_elem_of_fmap. split.
  - intros ([id j'] & -> & Hin%elem_of_map_to_list). simpl. by rewrite (wf_job_id _ Hwf _ _ Hin).
  - intros Hj. exists (JID j, j). split; [done|]. by apply elem_of_map_to_list.
Qed.

(** Every queued job of the store whose run exists, and whose deferred
    condition can be decided, is to run. *)
Definition conditions_settled (s : store) : Prop :=
  ∀ id j run, jobs s !! id = Some j → JStatus j = JobQueued → runs s !! JRunID j = Some run →
    condition_holds run (run_listing s (JRunID j)) j.

Lemma settle_round_step now (v : server store A) :
  store_wf (sdurable v) →
  ∃ v' b, settle_round base now v = (v', Ok b) ∧
    pass_step (sdurable v) now v v' b (conditions_settled (sdurable v)).
Proof.
  intros Hwf. pose proof (wf_base _ Hwf) as Hb. unfold settle_round, or_else, onD. simpl.
  assert (with_sdurable (sdurable v) v = v) as -> by (by destruct v).
  set (queued := sort_by _ _).
  assert (∀ rec, rec ∈ queued ↔ jobs (sdurable v) !! JID rec = Some rec ∧ JStatus rec = JobQueued) as Hin.
  { intros rec. unfold queued. rewrite sort_by_elem, list_elem_of_filter, all_jobs_elem by done. tauto. }
  destruct (by_run_spec queued) as [Hsound Hcomplete].
  case_bool_decide as Hlen.
  { exists v, false. split; [done|]. split_and!; [done|reflexivity|done|]. intros _. split; [done|].
    intros id j run Hj Hq _. apply nil_length_inv in Hlen.
    assert (j ∈ queued) as Hjq.
    { apply Hin. by rewrite (wf_job_id _ Hb _ _ Hj). }
    rewrite Hlen in Hjq. by apply not_elem_of_nil in Hjq. }
  destruct (settle_runs_step (sdurable v) now (range_map (by_run queued)) false v Hwf)
    as (v' & b & E & Hwf' & Hs' & Hc & Hn); [reflexivity| |done|].
  { intros r qs rec Hr Hrec. apply range_map_elem in Hr. destruct (Hsound r qs rec Hr Hrec) as [? ?].
    by split_and!; [apply Hin..|]. }
  exists v', b. split; [exact E|]. split_and!; [done..|]. intros Hbf.
  destruct (Hn Hbf) as (-> & _ & Hall). split; [done|]. intros id j run Hj Hq Hrun.
  assert (j ∈ queued) as Hjq.
  { apply Hin. by rewrite (wf_job_id _ Hb _ _ Hj). }
  destruct (Hcomplete j Hjq) as (qs & Hqs & Hjqs). apply range_map_elem in Hqs.
  exact (Hall _ _ Hqs run j Hrun Hjqs).
Qed.

(** ** The loop *)

Lemma settle_loop_ends fuel now (v : server store A) :
  store_wf (sdurable v) → size (queued_jobs (sdurable v)) < fuel →
  ∃ v', settle_loop base fuel now v = (v', Ok tt) ∧ store_wf (sdurable v') ∧
        settles (sdurable v) now v v' ∧ conditions_settled (sdurable v').
Proof.
  revert v. induction fuel as [|fuel IH]; intros v Hwf Hf; [lia|]. simpl. unfold mbind.
  destruct (settle_round_step now v Hwf) as (v1 & b & E & Hwf1 & Hs1 & Hc & Hn). rewrite E.
  destruct b.
  - pose proof (closed_one_smaller _ _ (sv_store _ _ _ _ Hs1) (Hc eq_refl)).
    destruct (IH v1 Hwf1) as (v2 & E2 & Hwf2 & Hs2 & Hall); [lia|].
    exists v2. split_and!; [done|done| |done]. eapply settles_trans; [|exact Hs1|exact Hs2].
    exact (sv_store _ _ _ _ Hs1).
  - destruct Hn as [-> Hall]; [done|]. exists v. by split_and!; [..|reflexivity|].
Qed.

End pass.

(** ** The property *)

Lemma pair_result {A B} (p : A * B) b : snd p = b → p = (fst p, b).
Proof. by destruct p; simpl; intros ->. Qed.

Definition server_of {D A} (d : D) (a : A) : server D A :=
  {| sdurable := d; sactive := a; splans := ∅; sinstances := ∅; strust := ∅; sreports := [] |}.

(** The build job has failed; the report job waits for it under a condition. *)
Definition report_waits : store :=
  exec_all [OpRecordDelivery demo_delivery;
            OpCreateRun {| SDelivery := demo_key; SEvent := demo_event;
              SJobs := [demo_intent "build" [] ""; demo_intent "report" ["build"] "success()"] |} 5;
            OpClaimNextQueuedJob;
            OpAckDispatched "idx" {| ObjName := "jobrun-idx"; ObjUID := "u" |} 6;
            OpApplyObserved "idx" PhaseFailed 8] NewDurableStore.

(** C22. Over the in-memory store [evaluateDeferredConditions] ends: with one
    round more than there are queued jobs it returns. Every job it changed was
    queued with a deferred condition and closed dependencies, and is closed now:
    failed when the condition, evaluated in a store of the pass, was an error,
    skipped when it was false. The runs of these jobs may have been refreshed
    and check reports of closed jobs appended; the other jobs and runs, the
    deliveries, the indexes, the claims, the plans, the trust levels, the
    instances and the active executions are as before. Afterwards every deferred
    condition of a queued job that can be decided (the job's run exists and its
    dependencies are closed) evaluates to true. (Over a store that fails to
    close a job the loop of the source does not end.) *)
Theorem deferred_conditions_settle `{Unicode} `{FloatText} `{JSONText} `{IntConv} `{MapRange}
    `{MemoryEnv} `{!MemoryEnvOk} {A : Type} (base : string) fuel now (v : server store A) :
  store_wf (sdurable v) → size (queued_jobs (sdurable v)) < fuel →
  ∃ v', evaluateDeferredConditions base fuel now v = (v', Ok tt) ∧
        store_wf (sdurable v') ∧ settles base (sdurable v) now v v' ∧
        conditions_settled (sdurable v').
Proof. intros Hwf Hf. by apply settle_loop_ends. Qed.

Section witness.
#[local] Existing Instances ascii_unicode demo_float_text some_order.
#[local] Instance no_json : JSONText :=
  {| json_Marshal := fun _ => inl "no JSON"; json_Decode := fun _ => inl "no JSON" |}.
#[local] Instance no_int : IntConv := {| int_of_other := fun _ => 0%Z |}.

Lemma deferred_conditions_settle_witness :
  ∃ v', evaluateDeferredConditions "http://forgelet" 2 9 (server_of report_waits NewActiveStore) = (v', Ok tt) ∧
        settles "http://forgelet" report_waits 9 (server_of report_waits NewActiveStore) v' ∧
        conditions_settled (sdurable v').
Proof.
  destruct (deferred_conditions_settle "http://forgelet" 2 9 (server_of report_waits NewActiveStore))
    as (v' & E & _ & Hs & Hc).
  - apply reachable_wf, exec_all_steps.
  - vm_compute. lia.
  - exists v'. split; [exact E|split; [exact Hs|exact Hc]].
Defined.

(** The pass skips the report job. *)
Example report_skipped :
  JStatus (getJob (sdurable (fst (evaluateDeferredConditions "http://forgelet" 2 9
    (server_of report_waits NewActiveStore)))) "idxx") = JobSkipped.
Proof. vm_compute. reflexivity. Qed.
End witness.

(** ** The drain *)

(** No queued job that nobody has claimed is ready. *)
Definition nothing_ready (s : store) : Prop :=
  ∀ id j, jobs s !! id = Some j → JStatus j = JobQueued → id ∉ claimed s → ¬ deps_succeeded s j.

Section claim.
Context `{MemoryEnv} `{!MemoryEnvOk}.

Lemma skips_queued s s' : skips s s' → queued_jobs s' ⊆ queued_jobs s.
Proof.
  intros Hsk. apply map_subseteq_spec. intros id j [Hj Hq]%queued_jobs_lookup.
  apply queued_jobs_lookup. destruct (sk_dom _ _ Hsk id) as [Hd _].
  destruct Hd as [j0 Hj0]; [by eexists|].
  destruct (sk_job _ _ Hsk _ _ _ Hj0 Hj) as [->|(_ & ? & _)]; [done|congruence].
Qed.

(** The outcomes of a claim. *)
Lemma claim_cases s s' res :
  store_wf s → mem_ClaimNextQueuedJob s = (s', res) →
  store_wf s' ∧ queued_jobs s' ⊆ queued_jobs s ∧
  ((∃ j, res = Ok j ∧ jobs s' !! JID j = Some j ∧ JStatus j = JobQueued ∧ JID j ∉ claimed s ∧
         claimed s' = {[JID j]} ∪ claimed s) ∨
   (res = Err ErrNoQueuedJob ∧ claimed s' = claimed s ∧ nothing_ready s')).
Proof.
  intros Hwf Hc. destruct (Claim_wf_le s Hwf) as [Hwf' _]. rewrite Hc in Hwf'. split; [done|].
  assert (∀ p, p ∈ candidates s → candidate s p) as Hcand.
  { intros p (j0 & ? & ? & ? & _)%candidates_elem. by exists j0. }
  destruct (claim_loop_spec _ _ _ _ Hwf (candidates_NoDup s) Hcand Hc) as
    [(s1 & pre & p & post & j & Hsplit & -> & -> & Hsk & Hj & Hq & _)|(-> & Hsk & Hall)].
  - split; [exact (skips_queued _ _ Hsk)|]. left. exists j.
    assert (p ∈ candidates s) as (_ & _ & _ & _ & Hnc)%candidates_elem by (rewrite Hsplit; set_solver).
    rewrite (wf_job_id _ (wf_base _ Hwf') (fst p) j Hj).
    split_and!; try done. simpl. by rewrite (sk_claimed _ _ Hsk).
  - split; [by apply skips_queued|]. right. split_and!; [done|apply (sk_claimed _ _ Hsk)|].
    intros id j Hj Hq Hnc. rewrite (sk_claimed _ _ Hsk) in Hnc.
    destruct (sk_dom _ _ Hsk id) as [Hd _]. destruct Hd as [j0 Hj0]; [by eexists|].
    destruct (sk_job _ _ Hsk _ _ _ Hj0 Hj) as [->|(_ & ? & _)]; [|congruence].
    eapply (Hall (id, JCreatedAt j0)); [|done..]. apply candidates_elem. simpl. eauto.
Qed.

(** One [DispatchNext]: a queued job becomes dispatched, or none is ready. *)
Lemma dispatch_next_cases `{Unicode} {A} `{ActiveSpec A} now s (a : A) s' a' res :
  store_wf s → DispatchNext now (s, a) = ((s', a'), res) →
  store_wf s' ∧ claimed s' = claimed s ∧ queued_jobs s' ⊆ queued_jobs s ∧
  ((∃ j j', res = Ok j ∧ is_Some (queued_jobs s !! JID j) ∧ jobs s' !! JID j = Some j' ∧
            JStatus j' = JobDispatched) ∨
   (res = Err ErrNoQueuedJob ∧ nothing_ready s')).
Proof.
  intros Hwf. unfold DispatchNext, mbind at 1, inD at 1. simpl.
  destruct (mem_ClaimNextQueuedJob s) as [s1 r1] eqn:Hc.
  destruct (claim_cases _ _ _ Hwf Hc) as (Hwf1 & Hq1 & [(j & -> & Hj & Hq & Hnc & Hcl)|(-> & Hcl & Hn)]).
  2: { intros [= <- <- <-]. split_and!; auto. }
  destruct (law_create_or_get (JID j) a) as (a1 & obj & Eo & _).
  unfold Dispatch, mbind, mapErr, inD, inA. simpl. unfold mem_GetJobRun. rewrite Hj, Hq. simpl.
  rewrite Eo. simpl. unfold mem_AckDispatched. rewrite Hj, Hq. intros [= <- <- <-].
  destruct (AckDispatched_wf_le (JID j) {| ObjName := CRName (JID j); ObjUID := ObjUID obj |} now s1 Hwf1)
    as [Hwf2 _]. unfold mem_AckDispatched in Hwf2. rewrite Hj, Hq in Hwf2.
  split_and!; [exact Hwf2| | |].
  - simpl. rewrite Hcl. set_solver.
  - etrans; [|exact Hq1]. apply map_subseteq_spec. intros id jx [Hjx Hqx]%queued_jobs_lookup.
    apply queued_jobs_lookup. simpl in Hjx. rewrite lookup_insert in Hjx. case_decide; [|done].
    injection Hjx as <-. done.
  - left. eexists j, _. split_and!; [done| | |].
    + exists j. eapply lookup_weaken; [|exact Hq1]. by apply queued_jobs_lookup.
    + simpl. by rewrite lookup_insert_eq.
    + done.
Qed.

End claim.

Section drain.
Context `{Unicode} `{FloatText} `{JSONText} `{IntConv} `{MapRange}.
Context `{MemoryEnv} `{!MemoryEnvOk} {A : Type} `{ActiveSpec A} (base : string).

Lemma drain_ends fuel now n (v : server store A) :
  store_wf (sdurable v) → size (queued_jobs (sdurable v)) < fuel →
  ∃ v' k, drain base fuel now n v = (v', Ok (n + k, None)) ∧ store_wf (sdurable v') ∧
    claimed (sdurable v') = claimed (sdurable v) ∧
    queued_jobs (sdurable v') ⊆ queued_jobs (sdurable v) ∧
    size (queued_jobs (sdurable v')) + k ≤ size (queued_jobs (sdurable v)) ∧
    nothing_ready (sdurable v').
Proof.
  revert n v. induction fuel as [|fuel IH]; intros n v Hwf Hf; [lia|]. simpl. unfold onDA.
  destruct (DispatchNext now (sdurable v, sactive v)) as [[s1 a1] res] eqn:E.
  destruct (dispatch_next_cases _ _ _ _ _ _ Hwf E) as
    (Hwf1 & Hcl & Hq & [(j & j' & -> & [jq Hjq] & Hj' & Hst)|(-> & Hn)]).
  2: { exists (with_stores (s1, a1) v), 0. rewrite Nat.add_0_r. split_and!; try done.
       simpl. pose proof (map_subseteq_size _ _ Hq). lia. }
  unfold mbind. destruct (reportCheck_frame base (JID j) (with_stores (s1, a1) v))
    as (v1 & -> & Hd & _). simpl in Hd.
  assert (size (queued_jobs s1) < size (queued_jobs (sdurable v))) as Hlt.
  { apply map_subset_size, map_subset_alt. split; [done|]. exists (JID j). split; [|by eexists].
    apply eq_None_not_Some. intros [k [Hk Hqk]%queued_jobs_lookup]. congruence. }
  destruct (IH (n + 1) v1) as (v2 & k & E2 & Hwf2 & Hcl2 & Hq2 & Hk & Hn2); [by rewrite Hd|rewrite Hd; lia|].
  rewrite Hd in *. exists v2, (S k). rewrite E2. replace (n + S k) with (n + 1 + k) by lia.
  split_and!; [done|done|congruence|by etrans|lia|done].
Qed.
End drain.

(** ** A concrete tick *)

(** Jobs [build], [lint] (needs build) and [report] (needs lint, with a
    condition on lint's result). *)
Definition chain_seed : RunSeed := {|
  SDelivery := demo_key; SEvent := demo_event;
  SJobs := [demo_intent "build" [] ""; demo_intent "lint" ["build"] "";
            demo_intent "report" ["lint"] "needs.lint.result == 'success'"] |}.

(** The build job has failed; the other two are queued. *)
Definition chain_build_failed : store :=
  exec_all [OpRecordDelivery demo_delivery; OpCreateRun chain_seed 5; OpClaimNextQueuedJob;
            OpAckDispatched "idx" {| ObjName := "jobrun-idx"; ObjUID := "u" |} 6;
            OpApplyObserved "idx" PhaseFailed 8] NewDurableStore.

Definition chain_server : server store activeStore := server_of chain_build_failed NewActiveStore.

Lemma chain_wf : store_wf (sdurable chain_server).
Proof. apply reachable_wf, exec_all_steps. Qed.

#[local] Existing Instances ascii_unicode demo_float_text some_order.
#[local] Existing Instances no_json no_int.

Definition chain_tick := DispatchOnce "http://forgelet" 3 9 chain_server.

(** The drain skips lint while it looks for a job to claim, and then claims
    report, whose condition it no longer looks at: report is dispatched although
    its condition is false of the store the tick leaves. *)
Theorem drain_dispatches_false_condition :
  let s := sdurable (fst chain_tick) in
  JStatus (getJob s "idxx") = JobSkipped ∧ JStatus (getJob s "idxxx") = JobDispatched ∧
  deps_closed (getJob s "idxxx") (run_listing s "id") = true ∧
  EvaluateCondition (JCondition (getJob s "idxxx"))
    (Some (jobConditionEnv demo_event (getJob s "idxxx") (run_listing s "id"))) = Ok false.
Proof. vm_compute. split_and!; reflexivity. Qed.

(** ** The property *)

(** C23. A dispatch tick over the in-memory stores ends without an error: given
    more rounds than there are queued jobs it settles the deferred conditions,
    then dispatches [n] jobs one by one, gives every claim back, and stops only
    when no queued unclaimed job has all its dependencies succeeded; each
    dispatch takes a job out of the queue. *)
Theorem dispatch_once_drains `{Unicode} `{FloatText} `{JSONText} `{IntConv} `{MapRange}
    `{MemoryEnv} `{!MemoryEnvOk} {A : Type} `{ActiveSpec A} (base : string) fuel now (v : server store A) :
  store_wf (sdurable v) → size (queued_jobs (sdurable v)) < fuel →
  ∃ v1 v' n, evaluateDeferredConditions base fuel now v = (v1, Ok tt) ∧
    conditions_settled (sdurable v1) ∧
    DispatchOnce base fuel now v = (v', Ok (n, None)) ∧ store_wf (sdurable v') ∧
    nothing_ready (sdurable v') ∧ claimed (sdurable v') = claimed (sdurable v1) ∧
    size (queued_jobs (sdurable v')) + n ≤ size (queued_jobs (sdurable v1)) ∧
    queued_jobs (sdurable v') ⊆ queued_jobs (sdurable v).
Proof.
  intros Hwf Hf.
  destruct (settle_loop_ends base fuel now v Hwf Hf) as (v1 & E1 & Hwf1 & Hs1 & Hc1).
  pose proof (settled_queued _ _ (sv_store _ _ _ _ _ Hs1)) as Hq1. pose proof (map_subseteq_size _ _ Hq1).
  destruct (drain_ends base fuel now 0 v1 Hwf1) as (v2 & n & E2 & Hwf2 & Hcl & Hq2 & Hn & Hr); [lia|].
  exists v1, v2, n. split_and!; try done; [|by etrans].
  unfold DispatchOnce, mbind, evaluateDeferredConditions. rewrite E1. exact E2.
Qed.

Lemma dispatch_once_drains_witness :
  ∃ v' n, chain_tick = (v', Ok (n, None)) ∧ nothing_ready (sdurable v').
Proof.
  destruct (dispatch_once_drains "http://forgelet" 3 9 chain_server) as
    (v1 & v' & n & _ & _ & E & _ & Hn & _).
  - exact chain_wf.
  - vm_compute. lia.
  - exists v', n. split; [exact E|exact Hn].
Defined.
