(* ===== verification/ServerPlans.v ===== *)
(** * Plans of a new run (server.go: Ingest, buildPlans)

    After a successful ingestion that created a run, every job of the run is
    ready to be executed or closed: it has a stored plan under its own
    identifier and the trust level of the delivery, or it was skipped by its
    condition. *)

From S2P Require Import Prelude GoStrings GoFloat RunModel SchedulerPort MemoryStore StoreInvariant StoreOps Scheduler SchedulerMemory.
From S2P Require Import Syntax SyntaxTheorems Compiler ExprSyntax ExprEval Identity Authorization Plans Reports Server ServerConditions.

Local Open Scope go_scope.

Section plans.
Context `{Unicode} `{FloatText} `{JSONText} `{IntConv} `{MapRange} `{PlanDigest}.
Context `{MemoryEnv} `{!MemoryEnvOk} {A : Type} (base : string).

(** Plans are stored under the job they belong to. *)
Definition plan_keys (ps : planStore) : Prop := ∀ id p, ps !! id = Some p → PJobRunID p = id.

Lemma put_lookup (ps ps' : planStore) p id :
  PutPlan p ps = Ok ps' → ps' !! id = if decide (PJobRunID p = id) then Some p else ps !! id.
Proof. unfold PutPlan. destruct (Digest _); [|done..]. intros [= <-]. apply lookup_insert. Qed.

(** What building plans at trust level [t] keeps. *)
Record extends (t : TrustLevel) (v v' : server store A) : Prop := {
  ex_wf : store_wf (sdurable v) → store_wf (sdurable v');
  ex_le : store_wf (sdurable v) → jobs_le (sdurable v) (sdurable v');
  ex_runJobs : runJobs (sdurable v') = runJobs (sdurable v);
  ex_deliveries : deliveries (sdurable v') = deliveries (sdurable v);
  ex_keys : plan_keys (splans v) → plan_keys (splans v');
  ex_plans : ∀ id, is_Some (splans v !! id) → is_Some (splans v' !! id);
  ex_trust : ∀ id, strust v !! id = Some t → strust v' !! id = Some t
}.

#[export] Instance extends_refl t : Reflexive (extends t).
Proof. by split. Qed.

#[export] Instance extends_trans t : Transitive (extends t).
Proof.
  intros v1 v2 v3 [] []. split; eauto.
  - intros. etrans; eauto.
  - congruence.
  - congruence.
Qed.

(** The job is planned at the trust level, or closed. *)
Definition settled_job (t : TrustLevel) (v : server store A) (id : JobRunID) : Prop :=
  (is_Some (splans v !! id) ∧ strust v !! id = Some t) ∨
  job_terminal (JStatus (getJob (sdurable v) id)) = true.

Lemma settled_job_extends t v v' id :
  store_wf (sdurable v) → extends t v v' → settled_job t v id → settled_job t v' id.
Proof.
  intros Hwf Hex [[Hp Ht]|Hterm].
  - left. split; [by apply (ex_plans _ _ _ Hex)|by apply (ex_trust _ _ _ Hex)].
  - right. unfold getJob in *. destruct (jobs (sdurable v) !! id) as [j|] eqn:Hj; [|done].
    destruct (ex_le _ _ _ Hex Hwf id j Hj) as (j' & -> & Hle). simpl in *.
    by destruct (le_sticky _ _ Hle Hterm) as [-> _].
Qed.

Lemma frame_extends t (v v' : server store A) :
  sdurable v' = sdurable v → splans v' = splans v → strust v' = strust v → extends t v v'.
Proof. intros E1 E2 E3. split; rewrite ?E1, ?E2, ?E3; done. Qed.

Lemma reportCheck_extends t id (v v' : server store A) r :
  reportCheck base id v = (v', r) → r = Ok tt ∧ extends t v v'.
Proof.
  intros E. destruct (reportCheck_frame base id v) as (v1 & E1 & Hd & Ha & Hp & Ht & _).
  rewrite E in E1. injection E1 as -> ->. split; [done|]. by apply frame_extends.
Qed.

Lemma ApplyObserved_runJobs id ph now s : runJobs (fst (mem_ApplyObserved id ph now s)) = runJobs s.
Proof.
  assert (∀ r t s0, runJobs (refreshRunLocked r t s0) = runJobs s0) as Hr.
  { intros r t s0. unfold refreshRunLocked. repeat (case_match; try done). }
  unfold mem_ApplyObserved. repeat (case_match; try done); simpl; by rewrite Hr.
Qed.

Lemma ApplyObserved_deliveries id ph now s : deliveries (fst (mem_ApplyObserved id ph now s)) = deliveries s.
Proof.
  assert (∀ r t s0, deliveries (refreshRunLocked r t s0) = deliveries s0) as Hr.
  { intros r t s0. unfold refreshRunLocked. repeat (case_match; try done). }
  unfold mem_ApplyObserved. repeat (case_match; try done); simpl; by rewrite Hr.
Qed.

(** Skipping closes the job. *)
Lemma skip_terminal id now s s' :
  store_wf s → mem_ApplyObserved id PhaseSkipped now s = (s', Ok tt) →
  job_terminal (JStatus (getJob s' id)) = true.
Proof.
  intros Hwf. unfold mem_ApplyObserved. destruct (jobs s !! id) as [j|] eqn:Hj; [|done].
  pose proof (wf_job_known _ (wf_base _ Hwf) _ _ Hj) as Hk.
  destruct (job_terminal (JStatus j)) eqn:Ht.
  { intros [= <-]. by rewrite (getJob_Some _ _ _ Hj). }
  assert (CanAdvanceJob (JStatus j) JobSkipped = true) as Ha by (by destruct (JStatus j)).
  simpl. rewrite Ha. intros [= <-]. unfold getJob. rewrite refresh_jobs. simpl.
  by rewrite lookup_insert_eq.
Qed.

Lemma skip_extends t id now (v v' : server store A) u :
  mapErr (ErrWrap "skip job") (projectObserved now id PhaseSkipped) v = (v', Ok u) →
  extends t v v' ∧ (store_wf (sdurable v) → settled_job t v' id).
Proof.
  unfold mapErr, projectObserved, onD, Project, mapErr. simpl.
  destruct (mem_ApplyObserved id PhaseSkipped now (sdurable v)) as [s' r] eqn:E.
  destruct r as [[]|e|]; [|done..]. intros [= <- <-]. split.
  - split; simpl; try done.
    + intros Hwf. pose proof (ApplyObserved_wf_le id PhaseSkipped now (sdurable v) Hwf) as [Hw _].
      by rewrite E in Hw.
    + intros Hwf. pose proof (ApplyObserved_wf_le id PhaseSkipped now (sdurable v) Hwf) as [_ Hl].
      by rewrite E in Hl.
    + pose proof (ApplyObserved_runJobs id PhaseSkipped now (sdurable v)) as Hr. by rewrite E in Hr.
    + pose proof (ApplyObserved_deliveries id PhaseSkipped now (sdurable v)) as Hr. by rewrite E in Hr.
  - intros Hwf. right. simpl. by eapply skip_terminal.
Qed.

Lemma store_plan_extends fetch ev t rec inst (v v' : server store A) :
  store_plan base fetch ev t rec inst v = (v', Ok tt) →
  extends t v v' ∧ settled_job t v' (JID rec).
Proof.
  unfold store_plan. destruct (buildPlan fetch rec ev inst) as [p|e|] eqn:Ep; [|done..].
  assert (PJobRunID p = JID rec) as Hid.
  { unfold buildPlan in Ep. destruct (split_secrets _ _ _). destruct (plan_all _ _ _ _) as [[? ?]|?|]; [|done..].
    by injection Ep as <-. }
  unfold mbind, put_plan. destruct (PutPlan p (splans v)) as [ps|e|] eqn:Eput; [|done..].
  pose proof (put_lookup _ _ _ (JID rec) Eput) as Hget. rewrite Hid, decide_True in Hget by done.
  unfold set_trust. set (v1 := with_strust _ _).
  destruct (reportCheck base (JID rec) v1) as [v2 r] eqn:Er.
  destruct (reportCheck_extends t _ _ _ _ Er) as [-> Hex]. intros [= <-].
  assert (settled_job t v1 (JID rec)) as Hs1.
  { left. simpl. rewrite lookup_insert_eq. split; [by eexists|done]. }
  assert (extends t v v1) as Hex1.
  { split; simpl; try done.
    - intros Hk id q. rewrite (put_lookup _ _ _ id Eput). case_decide; [by intros [= <-]|apply Hk].
    - intros id Hs. rewrite (put_lookup _ _ _ id Eput). case_decide; [by eexists|done].
    - intros id Hs. rewrite lookup_insert. by case_decide. }
  split; [by etrans|]. destruct Hs1 as [[Hp Ht]|Hterm].
  - left. split; [by apply (ex_plans _ _ _ Hex)|by apply (ex_trust _ _ _ Hex)].
  - right. destruct (reportCheck_frame base (JID rec) v1) as (v3 & E3 & Hd & _).
    rewrite Er in E3. injection E3 as <-. by rewrite Hd.
Qed.

Lemma plan_job_extends fetch now ev t insts runs rec (v v' : server store A) :
  store_wf (sdurable v) →
  plan_job base fetch now ev t insts runs rec v = (v', Ok tt) →
  extends t v v' ∧ settled_job t v' (JID rec).
Proof.
  intros Hwf. unfold plan_job. destruct (find _ insts) as [inst|]; [|done].
  destruct (_ && _); [|apply store_plan_extends].
  destruct (EvaluateCondition _ _) as [[]|e|]; [apply store_plan_extends| |done..].
  unfold mbind. destruct (mapErr _ _ v) as [v1 r1] eqn:Es. destruct r1 as [u|e|]; [|done..].
  destruct (skip_extends t _ _ _ _ _ Es) as [Hex1 Hs1]. intros Er.
  destruct (reportCheck_extends t _ _ _ _ Er) as [_ Hex2]. split; [by etrans|].
  eapply settled_job_extends; [|exact Hex2|auto]. by apply (ex_wf _ _ _ Hex1).
Qed.

Lemma plan_jobs_extends fetch now ev t insts runs todo (v v' : server store A) :
  store_wf (sdurable v) →
  plan_jobs base fetch now ev t insts runs todo v = (v', Ok tt) →
  extends t v v' ∧ ∀ rec, rec ∈ todo → settled_job t v' (JID rec).
Proof.
  revert v. induction todo as [|rec todo IH]; intros v Hwf; simpl.
  { intros [= <-]. split; [done|]. intros rec Hin. by apply not_elem_of_nil in Hin. }
  unfold mbind. destruct (plan_job _ _ _ _ _ _ _ rec v) as [v1 [[]|e|]] eqn:E1; [|done..].
  destruct (plan_job_extends _ _ _ _ _ _ _ _ _ Hwf E1) as [Hex1 Hs1].
  pose proof (ex_wf _ _ _ Hex1 Hwf) as Hwf1. intros E2.
  destruct (IH v1 Hwf1 E2) as [Hex2 Hall]. split; [by etrans|].
  intros rec' [->|Hin]%elem_of_cons; [by eapply settled_job_extends|auto].
Qed.
End plans.

Section ingest.
Context `{Unicode} `{FloatText} `{JSONText} `{IntConv} `{MapRange} `{PlanDigest} `{EventJSON}.
Context `{MemoryEnv} `{!MemoryEnvOk} {A : Type} (base : string).

Lemma run_listing_ids s r id :
  store_wf0 s → id ∈ getRunJobs s r → ∃ rec, rec ∈ map (getJob s) (getRunJobs s r) ∧ JID rec = id.
Proof.
  intros Hwf Hin. destruct (run_job_lookup _ _ _ Hwf Hin) as (j & Hj & _). exists j. split.
  - change @map with @list_fmap. apply list_elem_of_fmap. exists id. by rewrite (getJob_Some _ _ _ Hj).
  - by apply (wf_job_id _ Hwf).
Qed.

Lemma buildPlans_ok fetch now jobs d runID t (v v' : server store A) :
  store_wf (sdurable v) →
  buildPlans base fetch now jobs d runID t v = (v', Ok tt) →
  extends t v v' ∧ getRunJobs (sdurable v') runID ≠ [] ∧
  ∀ id, id ∈ getRunJobs (sdurable v') runID → settled_job t v' id.
Proof.
  intros Hwf. unfold buildPlans. destruct jobs as [insts|e|]; [|done..].
  unfold mbind, mapErr, onD. simpl. unfold mem_ListJobRuns.
  destruct (runs (sdurable v) !! runID) as [run|] eqn:Hrun; [|done]. simpl.
  set (v1 := with_sdurable _ _). intros E.
  assert (extends t v v1) as Hex1 by (by apply frame_extends).
  destruct (plan_jobs_extends base _ _ _ _ _ _ _ v1 v' Hwf E) as [Hex2 Hall].
  assert (getRunJobs (sdurable v') runID = getRunJobs (sdurable v) runID) as El.
  { unfold getRunJobs. by rewrite (ex_runJobs _ _ _ Hex2). }
  rewrite El. split_and!; [by etrans| |].
  - destruct (wf_run_jobs _ (wf_base _ Hwf) _ _ Hrun) as (l & Hl & Hne). by rewrite (getRunJobs_Some _ _ _ Hl).
  - intros id Hin. destruct (run_listing_ids _ _ _ (wf_base _ Hwf) Hin) as (rec & Hrec & <-). auto.
Qed.
Lemma ingest_plans load unmarshal fetch now d (v v' : server store A) runID :
  store_wf (sdurable v) → plan_keys (splans v) →
  ServerIngest base load unmarshal fetch now d v = (v', Ok (runID, true, None)) → runID ≠ "" →
  store_wf (sdurable v') ∧ plan_keys (splans v') ∧ getRunJobs (sdurable v') runID ≠ [] ∧
  ∀ id, id ∈ getRunJobs (sdurable v') runID → settled_job (trustFor d) v' id.
Proof.
  intros Hwf Hk. unfold ServerIngest, mbind, onD.
  destruct (Ingest _ now d (sdurable v)) as [s1 [[r created]|e|]] eqn:Ei; [|done..].
  case_bool_decide as Hr; simpl; [by intros [= _ <- _]|].
  destruct created; simpl; [|done].
  assert (d_inv (sdurable v)) as Hi by exact Hwf.
  destruct (Ingest_ok_bound _ _ _ _ _ _ _ Hi Ei Hr) as [Hwf1 _].
  set (v1 := with_sdurable s1 v). destruct (buildPlans _ _ _ _ _ _ _ v1) as [v2 [[]|e|]] eqn:Eb; [|done..].
  intros [= <- <-] _. destruct (buildPlans_ok fetch now _ d r (trustFor d) v1 v2 Hwf1 Eb) as (Hex & Hne & Hall).
  pose proof (ex_keys _ _ _ Hex Hk) as Hk2.
  by split_and!; [apply (ex_wf _ _ _ Hex)|..].
Qed.
End ingest.

(** ** What becomes of each job *)

(** The job's own condition, when it does not look at other jobs, is false. *)
Definition closed_by_condition `{Unicode} `{FloatText} `{JSONText} `{IntConv} `{MapRange}
    (ev : Event) (runs : list JobRunRecord) (rec : JobRunRecord) (inst : JobInstance) : Prop :=
  InstIf inst ≠ "" ∧ isDeferredCondition (InstIf inst) = false ∧
  EvaluateCondition (InstIf inst) (Some (jobConditionEnv ev rec runs)) = Ok false.

Section decisions.
Context `{Unicode} `{FloatText} `{JSONText} `{IntConv} `{MapRange} `{PlanDigest} `{EventJSON}.
Context `{MemoryEnv} `{!MemoryEnvOk} {A : Type} (base : string).
Context (fetch : option ActionFetcher) (now : Time) (ev : Event) (t : TrustLevel).
Context (insts : list JobInstance) (runs : list JobRunRecord).

Definition instance_of (rec : JobRunRecord) (inst : JobInstance) : Prop :=
  find (fun i => bool_decide (InstKey i = JJobKey rec)) insts = Some inst.

(** The job of the record was skipped by its condition, or it is as it was
    recorded and its plan is stored with the trust level. *)
Definition decided (v : server store A) (rec : JobRunRecord) (inst : JobInstance) : Prop :=
  (closed_by_condition ev runs rec inst ∧ JStatus (getJob (sdurable v) (JID rec)) = JobSkipped) ∨
  (¬ closed_by_condition ev runs rec inst ∧ jobs (sdurable v) !! JID rec = Some rec ∧
   ∃ p, buildPlan fetch rec ev inst = Ok p ∧ splans v !! JID rec = Some p ∧ PJobRunID p = JID rec ∧
        strust v !! JID rec = Some t).

(** The job of one record is all that changes. *)
Record only_job (id : JobRunID) (v v' : server store A) : Prop := {
  oj_jobs : ∀ i, i ≠ id → jobs (sdurable v') !! i = jobs (sdurable v) !! i;
  oj_plans : ∀ i, i ≠ id → splans v' !! i = splans v !! i;
  oj_trust : ∀ i, i ≠ id → strust v' !! i = strust v !! i
}.

Lemma only_job_trans id v1 v2 v3 : only_job id v1 v2 → only_job id v2 v3 → only_job id v1 v3.
Proof. intros [] []. split; intros i Hi; [rewrite oj_jobs1|rewrite oj_plans1|rewrite oj_trust1]; auto. Qed.

Lemma reportCheck_only id (v v' : server store A) r :
  reportCheck base id v = (v', r) → r = Ok tt ∧ sdurable v' = sdurable v ∧ splans v' = splans v ∧ strust v' = strust v.
Proof.
  intros E. destruct (reportCheck_frame base id v) as (v1 & E1 & Hd & _ & Hp & Ht & _).
  rewrite E in E1. by injection E1 as -> ->.
Qed.

Lemma skip_decides id (v v' : server store A) j u :
  jobs (sdurable v) !! id = Some j → JStatus j = JobQueued ∨ JStatus j = JobSkipped →
  mapErr (ErrWrap "skip job") (projectObserved now id PhaseSkipped) v = (v', Ok u) →
  only_job id v v' ∧ JStatus (getJob (sdurable v') id) = JobSkipped.
Proof.
  intros Hj Hst. unfold mapErr, projectObserved, onD, Project, mapErr. simpl. unfold mem_ApplyObserved.
  rewrite Hj. destruct Hst as [Hst|Hst]; rewrite Hst; simpl.
  - intros [= <- <-]. simpl. split.
    + split; try done. simpl. intros i Hi. rewrite refresh_jobs. simpl. by rewrite lookup_insert_ne.
    + unfold getJob. rewrite refresh_jobs. simpl. by rewrite lookup_insert_eq.
  - intros [= <- <-]. simpl. split; [by split|]. by rewrite (getJob_Some _ _ _ Hj).
Qed.

Lemma store_plan_decides rec inst (v v' : server store A) :
  store_plan base fetch ev t rec inst v = (v', Ok tt) →
  only_job (JID rec) v v' ∧ sdurable v' = sdurable v ∧
  ∃ p, buildPlan fetch rec ev inst = Ok p ∧ splans v' !! JID rec = Some p ∧ PJobRunID p = JID rec ∧
       strust v' !! JID rec = Some t.
Proof.
  unfold store_plan. destruct (buildPlan fetch rec ev inst) as [p|e|] eqn:Ep; [|done..].
  assert (PJobRunID p = JID rec) as Hid.
  { unfold buildPlan in Ep. destruct (split_secrets _ _ _). destruct (plan_all _ _ _ _) as [[? ?]|?|]; [|done..].
    by injection Ep as <-. }
  unfold mbind, put_plan. destruct (PutPlan p (splans v)) as [ps|e|] eqn:Eput; [|done..].
  unfold set_trust. set (v1 := with_strust _ _). destruct (reportCheck base (JID rec) v1) as [v2 r] eqn:Er.
  destruct (reportCheck_only _ _ _ _ Er) as (-> & Hd & Hp & Ht). intros [= <-]. split_and!.
  - split; rewrite ?Hd, ?Hp, ?Ht; simpl; [done|..]; intros i Hi.
    + rewrite (put_lookup _ _ _ i Eput). rewrite decide_False; congruence.
    + by rewrite lookup_insert_ne.
  - done.
  - exists p. rewrite Hp, Ht. simpl. rewrite (put_lookup _ _ _ _ Eput), Hid, decide_True, lookup_insert_eq by done. done.
Qed.

(** Not looked at yet, or done. *)
Definition pending_job (v : server store A) (rec : JobRunRecord) : Prop :=
  (jobs (sdurable v) !! JID rec = Some rec ∧ JStatus rec = JobQueued) ∨
  ∃ inst, instance_of rec inst ∧ decided v rec inst.

Lemma only_job_pending id (v v' : server store A) rec :
  only_job id v v' → JID rec ≠ id → pending_job v rec → pending_job v' rec.
Proof.
  intros [Hj Hp Ht] Hne. unfold pending_job, decided, getJob. by rewrite Hj, Hp, Ht.
Qed.

Lemma plan_job_decides rec (v v' : server store A) :
  pending_job v rec → plan_job base fetch now ev t insts runs rec v = (v', Ok tt) →
  only_job (JID rec) v v' ∧ ∃ inst, instance_of rec inst ∧ decided v' rec inst.
Proof.
  intros Hpend. unfold plan_job. destruct (find _ insts) as [inst|] eqn:Hi; [|done].
  assert (¬ closed_by_condition ev runs rec inst → store_plan base fetch ev t rec inst v = (v', Ok tt) →
    only_job (JID rec) v v' ∧ ∃ inst, instance_of rec inst ∧ decided v' rec inst) as Hstore.
  { intros Hnc E. destruct (store_plan_decides _ _ _ _ E) as (Ho & Hd & Hp). split; [done|].
    exists inst. split; [done|]. right. split; [done|]. rewrite Hd. split; [|done].
    destruct Hpend as [[? _]|(inst' & Hi' & [[Hc _]|(_ & ? & _)])]; try done.
    unfold instance_of in Hi'. rewrite Hi in Hi'. by injection Hi' as <-. }
  destruct (bool_decide _ && _) eqn:Hif.
  2: { apply Hstore. intros (Hne & Hdef & _). rewrite bool_decide_eq_true_2, Hdef in Hif by done. done. }
  breflect.
  destruct (EvaluateCondition _ _) as [[]|e|] eqn:Ec; [apply Hstore; intros (_ & _ & E); congruence| |done..].
  assert (closed_by_condition ev runs rec inst) as Hc by (by split_and!).
  assert (∃ j, jobs (sdurable v) !! JID rec = Some j ∧ (JStatus j = JobQueued ∨ JStatus j = JobSkipped)) as (j & Hj & Hst).
  { destruct Hpend as [[? ?]|(inst' & Hi' & [[_ Hs]|(Hn & _)])]; [by eauto| |].
    - unfold getJob in Hs. destruct (jobs (sdurable v) !! JID rec) as [j|] eqn:Hj; [by eauto|done].
    - unfold instance_of in Hi'. rewrite Hi in Hi'. injection Hi' as <-. done. }
  unfold mbind. destruct (mapErr _ _ v) as [v1 [u|e|]] eqn:Es; [|done..].
  destruct (skip_decides _ _ _ _ _ Hj Hst Es) as [Ho Hs]. intros Er.
  destruct (reportCheck_only _ _ _ _ Er) as (_ & Hd & Hp & Ht). split.
  - eapply only_job_trans; [exact Ho|]. split; by rewrite ?Hd, ?Hp, ?Ht.
  - exists inst. split; [done|]. left. by rewrite Hd.
Qed.

Lemma plan_jobs_decide (todo recs : list JobRunRecord) (v v' : server store A) :
  (∀ r1 r2, r1 ∈ recs → r2 ∈ recs → JID r1 = JID r2 → r1 = r2) → (∀ rec, rec ∈ todo → rec ∈ recs) →
  (∀ rec, rec ∈ recs → pending_job v rec) →
  plan_jobs base fetch now ev t insts runs todo v = (v', Ok tt) →
  (∀ rec, rec ∈ recs → pending_job v' rec) ∧
  ∀ rec, rec ∈ todo ∨ (∃ inst, rec ∈ recs ∧ instance_of rec inst ∧ decided v rec inst) →
    ∃ inst, instance_of rec inst ∧ decided v' rec inst.
Proof.
  intros Hinj. revert v. induction todo as [|rec todo IH]; intros v Hsub Hpend; simpl.
  { intros [= <-]. split; [done|]. intros rec [Hin|(inst & _ & ? & ?)]; [by apply not_elem_of_nil in Hin|by exists inst]. }
  unfold mbind. destruct (plan_job _ _ _ _ _ _ _ rec v) as [v1 [[]|e|]] eqn:E1; [|done..]. intros E2.
  destruct (plan_job_decides rec v v1 (Hpend _ (Hsub rec ltac:(by left))) E1) as [Ho (inst & Hi & Hd)].
  assert (∀ rec', rec' ∈ recs → pending_job v1 rec' ∧
    ∀ inst', instance_of rec' inst' → decided v rec' inst' → rec' = rec ∨ decided v1 rec' inst') as Hnext.
  { intros rec' Hin. destruct (decide (JID rec' = JID rec)) as [E|Hne].
    - assert (rec' = rec) as -> by (apply Hinj; [done|apply Hsub; by left|done]).
      split; [right; by exists inst|by left].
    - split; [by eapply only_job_pending, Hpend|]. intros inst' _ Hd'. right. destruct Ho as [Hj Hp Ht].
      unfold decided, getJob in *. by rewrite Hj, Hp, Ht. }
  destruct (IH v1) as [Hpend' Hall]; [by intros; apply Hsub; right|by apply Hnext|done|]. split; [done|].
  intros rec' [[->|Hin]%elem_of_cons|(inst' & Hin & Hi' & Hd')].
  - apply Hall. right. exists inst. split; [apply Hsub; by left|done].
  - apply Hall. by left.
  - destruct (Hnext rec' Hin) as [_ Hk]. destruct (Hk inst' Hi' Hd') as [->|Hd1]; apply Hall; right;
      [exists inst; split; [apply Hsub; by left|done]|by exists inst'].
Qed.
End decisions.

(** The jobs of a run that was just created are queued. *)
Lemma CreateRun_queued `{MemoryEnv} `{!MemoryEnvOk} seed now s s' run :
  store_wf s → mem_CreateRun seed now s = (s', Ok (run, true)) →
  ∀ id, id ∈ getRunJobs s' (RID run) → ∃ j, jobs s' !! id = Some j ∧ JStatus j = JobQueued.
Proof.
  intros Hwf. unfold mem_CreateRun. destruct (deliveries s !! _) as [rec|] eqn:Hd; [|done].
  case_bool_decide. { unfold getRunLocked. by destruct (runs s !! _). }
  case_bool_decide; [done|]. destruct (createJobs _ _ _ _ _ _) as [s1 res] eqn:Hloop.
  apply createJobs_spec in Hloop as (_ & _ & _ & _ & _ & _ & _ & _ & Hok);
    [|by apply with_minted_wf|by apply pending_start, Hwf].
  destruct res as [[ki ids]| |]; [|done..]. destruct (Hok _ _ eq_refl) as [Hp _].
  intros [= <- <-] id. unfold getRunJobs, commitRun, bindRun. simpl.
  assert (∀ x, id ∈ default [] (<[newid (minted s):=ids]> (runJobs s1) !! newid (minted s)) →
    jobs s1 = jobs x → ∃ j, jobs x !! id = Some j ∧ JStatus j = JobQueued) as Hgen.
  { intros x. rewrite lookup_insert_eq. simpl. intros (j & Hj & _ & Hq)%(pend_ids _ _ _ _ Hp) <-. eauto. }
  destruct (deliveries s1 !! _); intros Hin; by eapply Hgen.
Qed.

Lemma Ingest_queued `{MemoryEnv} `{!MemoryEnvOk} `{Unicode} compile now d (s s' : store) r :
  store_wf s → Ingest compile now d s = (s', Ok (r, true)) →
  store_wf s' ∧ ∀ id, id ∈ getRunJobs s' r → ∃ j, jobs s' !! id = Some j ∧ JStatus j = JobQueued.
Proof.
  intros Hwf. unfold Ingest, mbind, mapErr. simpl.
  pose proof (RecordDelivery_wf d s Hwf) as Hwf1. destruct (mem_RecordDelivery d s) as [s1 [[rec b]|e|]]; [|done..].
  simpl in *. case_bool_decide; [done|].
  destruct (compile _ _) as [js|e|]; [|done..]. destruct (firstInvalid js); [done|].
  case_bool_decide; [done|].
  match goal with |- context [mem_CreateRun ?sd now s1] => set (seed := sd) end.
  pose proof (CreateRun_wf_le seed now s1 Hwf1) as [Hwf2 _].
  destruct (mem_CreateRun seed now s1) as [s2 [[run c]|e|]] eqn:Ec; [|done..].
  intros [= <- <- ->]. split; [done|]. exact (CreateRun_queued _ _ _ _ _ Hwf1 Ec).
Qed.


(** A pull request from a fork, over a source with one workflow. *)
Section witness.
#[local] Existing Instances ascii_unicode demo_float_text some_order.
#[local] Instance no_json : JSONText :=
  {| json_Marshal := fun _ => inl "no JSON"; json_Decode := fun _ => inl "no JSON" |}.
#[local] Instance no_int : IntConv := {| int_of_other := fun _ => 0%Z |}.
#[local] Instance id_digest : PlanDigest := {| plan_hash := PJobRunID |}.
#[local] Instance fork_json : EventJSON :=
  {| head_repo_fork := fun p => Some (bool_decide (p = "fork")); base_ref := fun _ => "main" |}.

Definition pr_node : Node :=
  mapnode [("name", scalar "ci"); ("on", scalar "pull_request");
    ("jobs", mapnode [("test", mapnode [("runs-on", scalar "linux"); ("steps", seqnode [demo_step_node])])])].

Definition fork_delivery : Delivery := {|
  DKey := demo_key;
  DEvent := {| EvProvider := "github"; EvName := "pull_request"; EvDeliveryID := "d1";
               EvRepository := demo_repo; EvRef := "refs/pull/1/merge"; EvSHA := "abc"; EvActor := "mallory" |};
  DPayload := "fork" |}.

Definition fork_ingest :=
  ServerIngest "http://forgelet" (fun _ _ => Ok [{| FName := "ci.yml"; FData := "" |}])
    (fun _ => Ok pr_node) None 5 fork_delivery (server_of NewDurableStore NewActiveStore).

Lemma fork_ingest_result : fork_ingest = (fst fork_ingest, Ok ("id", true, None)).
Proof. apply pair_result. vm_compute. reflexivity. Qed.

Lemma fork_jobs : getRunJobs (sdurable (fst fork_ingest)) "id" = ["idx"].
Proof. vm_compute. reflexivity. Qed.

End witness.
