(* ===== verification/ServerApi.v ===== *)
(** * The internal HTTP API (server.go: auth, handlers, routes)

    Each handler is a function of the parsed request, in the state made of the
    server and the secret store: what the router binds in the path, the identity
    that [auth] put in the context, and the decoded body ([None] where decoding
    fails).  The reply is the status and the body.  Logging and metrics are left
    out. *)

From S2P Require Import Prelude GoStrings RunModel SchedulerPort Identity Authorization Plans Reports ObjectStore Server.

Local Open Scope go_scope.

(** ** Requests and replies *)

Inductive Body :=
  | BPlan (p : Plan)
  | BSecrets (m : gmap string string)
  | BInfos (l : list (string * string))
  | BOk
  | BCache (hit : bool) (putUrl : string) (getUrl : option string)
  | BUrl (u : string).

Inductive Reply :=
  | HttpError (status : nat) (msg : string)
  | JSON (b : Body).

Inductive Endpoint :=
  | EHealthz
  | EPlan (id : string)
  | ESecrets (id : string) (req : option (list Ref))
  | EStatus (id : string) (success : option bool)
  | EObserved (id : string) (phase : option ObservedPhase)
  | ECacheResolve (id : string) (body : option (string * list string))
  | EArtifactUpload (id name : string)
  | EArtifactDownload (id name : string)
  | ESecretList
  | ESecretPut (body : option (string * string * string))
  | ESecretDelete (scope name : string).

(** The durable store of sealed secrets (security/secret/store.go). *)
Class SecretStore (X : Type) := {
  GetSecret : string → string → M X string;
  PutSecret : string → string → string → M X unit;
  DeleteSecret : string → string → M X unit;
  ListSecrets : M X (list (string * string))
}.

Section api.
Context `{Unicode} `{Sha256} {D A X : Type} `{DurableStore D} `{SecretStore X}.
Context (detailsBase : string).
(** Options: is there a secret store, the development secrets, the S3 client. *)
Context (hasSecretStore : bool) (SecretValues : gmap string string) (S3 : option ObjectClient).

Abbreviation St := (server D A * X)%type.

Definition onServer {Y} (m : M (server D A) Y) : M St Y :=
  fun s => let '(v, r) := m (fst s) in ((v, snd s), r).
Definition onSecrets {Y} (m : M X Y) : M St Y :=
  fun s => let '(x, r) := m (snd s) in ((fst s, x), r).

(** Go on with the result, or answer with the reply. *)
Definition orReply {Y} (m : M St Y) (no : Reply) (k : Y → M St Reply) : M St Reply :=
  fun s => match m s with
           | (s', Ok y) => k y s'
           | (s', Err _) => (s', Ok no)
           | (s', Panic) => (s', Panic)
           end.

Definition reply (status : nat) (msg : string) : M St Reply := mret (HttpError status msg).
Definition ok_reply (b : Body) : M St Reply := mret (JSON b).

Definition fromOutcome {Y} (o : outcome string Y) : M St Y :=
  fun s => match o with
           | Ok y => (s, Ok y)
           | Err e => (s, Err (ErrOther e))
           | Panic => (s, Panic)
           end.

(** ** Handlers *)

(** [jobFromPath]: the reply that ends the request, or nothing to object. *)
Definition jobFromPath (id : string) (ident : option Identity) : Reply + Identity :=
  if bool_decide (id = "") then inl (HttpError 400 "missing job run id")
  else match ident with
       | None => inl (HttpError 401 "missing identity")
       | Some ident =>
           match AuthorizeExecution ident id with
           | Ok _ => inr ident
           | _ => inl (HttpError 403 "identity not bound to this job run")
           end
       end.

Definition onJob (id : string) (ident : option Identity) (k : Identity → M St Reply) : M St Reply :=
  match jobFromPath id ident with
  | inl r => mret r
  | inr i => k i
  end.

Definition getPlan (id : string) : M St Plan :=
  fun s => fromOutcome (GetPlan id (splans (fst s))) s.

Definition handlePlan (id : string) (ident : option Identity) : M St Reply :=
  onJob id ident (fun i =>
    if negb (HasScope i ScopePlanRead) then reply 403 "missing scope plan:read"
    else orReply (getPlan id) (HttpError 404 "plan not found") (fun p => ok_reply (BPlan p))).

Definition planRefs (p : Plan) : list Ref :=
  map (fun sr => {| RefScope := SRScope sr; RefName := SRName sr |}) (PSecretRefs p).

Definition secret_key (r : Ref) : string := RefScope r +:+ "/" +:+ RefName r.

Definition add_dev_secret (r : Ref) (out : gmap string string) : gmap string string :=
  match SecretValues !! secret_key r with
  | Some v => <[secret_key r := v]> out
  | None => out
  end.

(** One allowed reference: the store first, then the development secrets. *)
Definition resolve_secret (r : Ref) (out : gmap string string) : M St (gmap string string) :=
  if hasSecretStore then
    fun s => match onSecrets (GetSecret (RefScope r) (RefName r)) s with
             | (s', Ok v) => (s', Ok (<[secret_key r := v]> out))
             | (s', Err _) => (s', Ok (add_dev_secret r out))
             | (s', Panic) => (s', Panic)
             end
  else mret (add_dev_secret r out).

Fixpoint resolve_secrets (rs : list Ref) (out : gmap string string) : M St (gmap string string) :=
  match rs with
  | [] => mret out
  | r :: rs' => let* out' := resolve_secret r out in resolve_secrets rs' out'
  end.

(** The trust of a job the map does not know is the empty string. *)
Definition trust_of (id : string) (s : server D A) : TrustLevel := default (TrustOther "") (strust s !! id).

Definition handleSecrets (id : string) (ident : option Identity) (req : option (list Ref)) : M St Reply :=
  onJob id ident (fun i =>
    if negb (HasScope i ScopeSecretsRead) then reply 403 "missing scope secrets:read"
    else match req with
         | None => reply 400 "malformed request"
         | Some requested =>
             orReply (getPlan id) (HttpError 404 "plan not found") (fun p s =>
               let decision := DecideSecrets i requested (planRefs p) (trust_of id (fst s)) in
               (let* out := resolve_secrets (Allowed decision) ∅ in ok_reply (BSecrets out)) s)
         end).

(** The projection and the report that follows it. *)
Definition project_and_report (now : Time) (id : string) (phase : ObservedPhase) : M St Reply :=
  orReply (onServer (projectObserved now id phase)) (HttpError 500 "projection failed") (fun _ =>
    let* _ := onServer (reportCheck detailsBase id) in ok_reply BOk).

Definition handleStatus (now : Time) (id : string) (ident : option Identity) (success : option bool)
    : M St Reply :=
  onJob id ident (fun i =>
    if negb (HasScope i ScopeStatusWrite) then reply 403 "missing scope status:write"
    else match success with
         | None => reply 400 "malformed result"
         | Some b => project_and_report now id (if b then PhaseSucceeded else PhaseFailed)
         end).

Definition handleObserved (now : Time) (id : string) (ident : option Identity) (phase : option ObservedPhase)
    : M St Reply :=
  if bool_decide (id = "") then reply 400 "missing job run id"
  else match ident with
       | None => reply 401 "missing identity"
       | Some i =>
           match AuthorizeObservation i id with
           | Ok _ =>
               match phase with
               | None => reply 400 "malformed body"
               | Some ph => project_and_report now id ph
               end
           | _ => reply 403 "identity may not observe this job run"
           end
       end.

(** The repository and the run of a job. *)
Definition with_run (id : string) (k : JobRunRecord → RunRecord → M St Reply) : M St Reply :=
  orReply (onServer (onD (GetJobRun id))) (HttpError 404 "job not found") (fun job =>
    orReply (onServer (onD (GetRun (JRunID job)))) (HttpError 404 "run not found") (fun run => k job run)).

Definition handleCacheResolve (id : string) (ident : option Identity)
    (body : option (string * list string)) : M St Reply :=
  onJob id ident (fun i =>
    if negb (HasScope i ScopePlanRead) && negb (HasScope i ScopeStatusWrite) then reply 403 "missing scope"
    else match S3 with
    | None => reply 501 "cache storage not configured"
    | Some client =>
        match body with
        | None => reply 400 "malformed body"
        | Some (key, restoreKeys) =>
            if bool_decide (key = "") then reply 400 "key is required"
            else with_run id (fun _ run =>
              let repo := EvRepository (REvent run) in
              orReply (fromOutcome (CacheResolve (client := client) repo key restoreKeys))
                (HttpError 500 "cache resolve failed") (fun '(hit, hitKey) =>
              orReply (fromOutcome (CachePutURL (client := client) repo key))
                (HttpError 500 "presign put failed") (fun putURL =>
              if hit then
                orReply (fromOutcome (CacheGetURL (client := client) hitKey))
                  (HttpError 500 "presign get failed") (fun getURL => ok_reply (BCache true putURL (Some getURL)))
              else ok_reply (BCache false putURL None))))
        end
    end).

Definition bad_artifact_name (name : string) : bool :=
  bool_decide (name = "") || contains name "/" || contains name "..".

Definition handleArtifactUpload (id name : string) (ident : option Identity) : M St Reply :=
  onJob id ident (fun i =>
    if negb (HasScope i ScopeStatusWrite) then reply 403 "missing scope status:write"
    else match S3 with
    | None => reply 501 "artifact storage not configured"
    | Some client =>
        if bad_artifact_name name then reply 400 "invalid artifact name"
        else with_run id (fun job run =>
          orReply (fromOutcome (ArtifactPutURL (client := client) (EvRepository (REvent run)) (JRunID job) name))
            (HttpError 500 "presign failed") (fun u => ok_reply (BUrl u)))
    end).

Definition handleArtifactDownload (id name : string) (ident : option Identity) : M St Reply :=
  onJob id ident (fun i =>
    if negb (HasScope i ScopePlanRead) then reply 403 "missing scope plan:read"
    else match S3 with
    | None => reply 501 "artifact storage not configured"
    | Some client =>
        if bad_artifact_name name then reply 400 "invalid artifact name"
        else with_run id (fun job run =>
          orReply (fromOutcome (ArtifactGetURL (client := client) (EvRepository (REvent run)) (JRunID job) name))
            (HttpError 500 "presign failed") (fun u => ok_reply (BUrl u)))
    end).

Definition handleSecretPut (body : option (string * string * string)) : M St Reply :=
  if negb hasSecretStore then reply 501 "secret storage not configured"
  else match body with
       | None => reply 400 "malformed body"
       | Some (scope, name, value) =>
           if bool_decide (scope = "") || bool_decide (name = "") || bool_decide (value = "")
           then reply 400 "scope, name and value are required"
           else orReply (onSecrets (PutSecret scope name value)) (HttpError 500 "put secret failed")
                  (fun _ => ok_reply BOk)
       end.

Definition handleSecretList : M St Reply :=
  if negb hasSecretStore then reply 501 "secret storage not configured"
  else orReply (onSecrets ListSecrets) (HttpError 500 "list secrets failed") (fun l => ok_reply (BInfos l)).

Definition handleSecretDelete (scope name : string) : M St Reply :=
  if negb hasSecretStore then reply 501 "secret storage not configured"
  else if bool_decide (scope = "") || bool_decide (name = "") then reply 400 "scope and name are required"
  else orReply (onSecrets (DeleteSecret scope name)) (HttpError 500 "delete secret failed")
         (fun _ => ok_reply BOk).

(** ** Authentication and routes *)

(** [auth]: the identity of the bearer token, or the reply that refuses. *)
Definition auth {E} (verify : string → outcome E Identity) (header : string)
    (next : option Identity → M St Reply) : M St Reply :=
  if negb (has_prefix header "Bearer ") then reply 401 "missing bearer token"
  else match verify (trim_prefix header "Bearer ") with
       | Err _ => reply 401 "invalid token"
       | Panic => fun s => (s, Panic)
       | Ok ident => next (Some ident)
       end.

(** The router: the job endpoints are behind [auth], the others are not. *)
Definition serve {E} (verify : string → outcome E Identity) (now : Time) (header : string) (e : Endpoint)
    : M St Reply :=
  let authenticated := auth verify header in
  match e with
  | EHealthz => ok_reply BOk
  | EPlan id => authenticated (handlePlan id)
  | ESecrets id req => authenticated (fun i => handleSecrets id i req)
  | EStatus id success => authenticated (fun i => handleStatus now id i success)
  | EObserved id phase => authenticated (fun i => handleObserved now id i phase)
  | ECacheResolve id body => authenticated (fun i => handleCacheResolve id i body)
  | EArtifactUpload id name => authenticated (handleArtifactUpload id name)
  | EArtifactDownload id name => authenticated (handleArtifactDownload id name)
  | ESecretList => handleSecretList
  | ESecretPut body => handleSecretPut body
  | ESecretDelete scope name => handleSecretDelete scope name
  end.
End api.
