(* ===== verification/ServerApiTheorems.v ===== *)
(** * Who may do what over the internal API

    The endpoints of a job act only for an identity bound to that job (or, for
    observations, one that may observe every job), and a secret is handed out
    only when the job's plan refers to it and the run does not come from a fork.
    Composed with ingestion: the jobs of a fork's pull request get no secret. *)

From S2P Require Import Prelude GoStrings GoFloat RunModel SchedulerPort MemoryStore StoreInvariant StoreOps Scheduler SchedulerMemory.
From S2P Require Import Syntax SyntaxTheorems Compiler ExprSyntax ExprEval Identity Authorization Plans Reports ObjectStore Server ServerConditions ServerPlans ServerApi.

Local Open Scope go_scope.

Section api.
Context `{Unicode} `{Sha256} {D A X : Type} `{DurableStore D} `{SecretStore X}.
Context (base : string) (hasStore : bool) (dev : gmap string string) (s3 : option ObjectClient).

Abbreviation St := (server D A * X)%type.
Abbreviation serve_at := (serve base hasStore dev s3).

(** The job an authenticated endpoint is about. *)
Definition job_of (e : Endpoint) : option JobRunID :=
  match e with
  | EPlan id | ESecrets id _ | EStatus id _ | EObserved id _ | ECacheResolve id _
  | EArtifactUpload id _ | EArtifactDownload id _ => Some id
  | _ => None
  end.

Definition observes (e : Endpoint) : bool := match e with EObserved _ _ => true | _ => false end.

Definition accepted (r : outcome error Reply) : bool := match r with Ok (JSON _) => true | _ => false end.

(** The request did nothing and was refused. *)
Definition refused (s : St) (out : St * outcome error Reply) : Prop :=
  fst out = s ∧ accepted (snd out) = false.

Lemma auth_cases {E} (verify : string → outcome E Identity) header next (s : St) :
  (∃ token ident, header = "Bearer " +:+ token ∧ verify token = Ok ident ∧
     auth verify header next s = next (Some ident) s) ∨
  refused s (auth verify header next s).
Proof.
  unfold auth, refused. destruct (has_prefix header "Bearer ") eqn:Hp; simpl; [|by right].
  apply has_prefix_spec in Hp as [token ->]. unfold trim_prefix. rewrite has_prefix_app, str_drop_app.
  destruct (verify token) as [ident|e|] eqn:Hv; [|by right..]. left. by exists token, ident.
Qed.

Lemma onJob_cases id (ident : Identity) k (s : St) :
  (id ≠ "" ∧ IdJobRunID ident = id ∧ onJob id (Some ident) k s = k ident s) ∨
  refused s (onJob id (Some ident) k s).
Proof.
  unfold onJob, jobFromPath, AuthorizeExecution, refused.
  case_bool_decide; [by right|]. case_bool_decide as Hid; [by right|].
  left. by split_and!.
Qed.

Lemma job_endpoint_authorized {E} (verify : string → outcome E Identity) now header e id (s : St) :
  job_of e = Some id →
  (∃ token ident, header = "Bearer " +:+ token ∧ verify token = Ok ident ∧
     (IdJobRunID ident = id ∨ (observes e = true ∧ ScopeObservedWrite ∈ IdScopes ident))) ∨
  refused s (serve_at verify now header e s).
Proof.
  intros Hid. assert (∀ next, (∀ ident, (IdJobRunID ident = id ∨ (observes e = true ∧ ScopeObservedWrite ∈ IdScopes ident)) ∨
      refused s (next (Some ident) s)) →
    (∃ token ident, header = "Bearer " +:+ token ∧ verify token = Ok ident ∧
     (IdJobRunID ident = id ∨ (observes e = true ∧ ScopeObservedWrite ∈ IdScopes ident))) ∨
    refused s (auth verify header next s)) as Hauth.
  { intros next Hnext. destruct (auth_cases verify header next s) as [(token & ident & Hh & Hv & ->)|?]; [|by right].
    destruct (Hnext ident) as [?|?]; [left|by right]. by exists token, ident. }
  assert (∀ k, (∀ ident, (IdJobRunID ident = id ∨ (observes e = true ∧ ScopeObservedWrite ∈ IdScopes ident)) ∨
      refused s (onJob id (Some ident) (k : Identity → M St Reply) s))) as Hjob.
  { intros k ident. destruct (onJob_cases id ident k s) as [(_ & ? & _)|?]; auto. }
  destruct e; simpl in Hid; simplify_eq; cbn [serve observes] in *; apply Hauth; intros ident; try apply Hjob.
  unfold handleObserved, AuthorizeObservation, refused. case_bool_decide; [by right|].
  destruct (HasScope ident ScopeObservedWrite) eqn:Hs; [left; right; by rewrite <-HasScope_spec|].
  case_bool_decide as Hb; [by left; left|by right].
Qed.

(** Where the value of a delivered secret comes from. *)
Definition secret_value (r : Ref) (v : string) : Prop :=
  dev !! secret_key r = Some v ∨
  (hasStore = true ∧ ∃ x x', GetSecret (RefScope r) (RefName r) x = (x', Ok v)).

Lemma resolve_secret_spec r out (s s' : St) out' :
  resolve_secret hasStore dev r out s = (s', Ok out') →
  fst s' = fst s ∧ ∀ k v, out' !! k = Some v → out !! k = Some v ∨ (k = secret_key r ∧ secret_value r v).
Proof.
  assert (∀ k v, add_dev_secret dev r out !! k = Some v →
    out !! k = Some v ∨ (k = secret_key r ∧ secret_value r v)) as Hdev.
  { intros k v. unfold add_dev_secret. destruct (dev !! secret_key r) as [w|] eqn:Ew; [|by left].
    rewrite lookup_insert. case_decide as Hk; [|by left]. intros [= <-]. right. subst k. split; [done|by left]. }
  unfold resolve_secret, onSecrets. destruct hasStore eqn:Hs; [|intros [= <- <-]; auto].
  destruct (GetSecret _ _ (snd s)) as [x r'] eqn:Eg. destruct r' as [v|e|]; intros [= <- <-]; simpl; [|auto].
  split; [done|]. intros k w. rewrite lookup_insert. case_decide as Hk; [|by left].
  intros [= <-]. right. subst k. split; [done|]. right. eauto.
Qed.

Lemma resolve_secrets_spec rs out (s s' : St) out' :
  resolve_secrets hasStore dev rs out s = (s', Ok out') →
  fst s' = fst s ∧ ∀ k v, out' !! k = Some v →
    out !! k = Some v ∨ ∃ r, r ∈ rs ∧ k = secret_key r ∧ secret_value r v.
Proof.
  revert out s. induction rs as [|r rs IH]; intros out s; simpl.
  { intros [= <- <-]. split; [done|]. by left. }
  unfold mbind. destruct (resolve_secret hasStore dev r out s) as [s1 [o1|e|]] eqn:E1; [|done..].
  destruct (resolve_secret_spec _ _ _ _ _ E1) as [Hs1 Hq1]. intros E2.
  destruct (IH o1 s1 E2) as [Hs2 Hq2]. split; [congruence|]. intros k v Hk.
  destruct (Hq2 k v Hk) as [Hk1|(r' & Hr' & ?)]; [|right; exists r'; set_solver].
  destruct (Hq1 k v Hk1) as [?|[-> ?]]; [by left|right; exists r; set_solver].
Qed.

(** What a delivered secret went through. *)
Definition secret_granted (ident : Identity) (id : JobRunID) (requested : list Ref) (s : server D A)
    (k v : string) : Prop :=
  ∃ p r, splans s !! id = Some p ∧ r ∈ planRefs p ∧ r ∈ requested ∧ k = secret_key r ∧
    IdJobRunID ident = id ∧ ScopeSecretsRead ∈ IdScopes ident ∧ strust s !! id ≠ Some TrustFork ∧
    secret_value r v.

Lemma allowed_elem ident requested refs trust r :
  r ∈ Allowed (DecideSecrets ident requested refs trust) →
  r ∈ requested ∧ r ∈ refs ∧ trust ≠ TrustFork ∧ ScopeSecretsRead ∈ IdScopes ident.
Proof.
  unfold DecideSecrets. destruct (HasScope ident ScopeSecretsRead) eqn:Hs; simpl.
  2: { rewrite (proj1 (fold_deny_allowed _ _ _)). intros Hin. by apply not_elem_of_nil in Hin. }
  case_bool_decide as Ht.
  { rewrite (proj1 (fold_deny_allowed _ _ _)). intros Hin. by apply not_elem_of_nil in Hin. }
  rewrite (proj1 (fold_decide (fun r => bool_decide (r ∈ (list_to_set refs : gset Ref))) _ _ _)). simpl.
  rewrite list_elem_of_In, filter_In, <-list_elem_of_In. intros [Hr Hb]. breflect.
  apply elem_of_list_to_set in Hb. split_and!; try done. by apply HasScope_spec.
Qed.

Lemma secrets_reply {E} (verify : string → outcome E Identity) now header id req (s s' : St) m :
  serve_at verify now header (ESecrets id req) s = (s', Ok (JSON (BSecrets m))) →
  ∃ token ident requested, header = "Bearer " +:+ token ∧ verify token = Ok ident ∧
    req = Some requested ∧ fst s' = fst s ∧
    ∀ k v, m !! k = Some v → secret_granted ident id requested (fst s) k v.
Proof.
  cbn [serve]. intros Hserve.
  destruct (auth_cases verify header (fun i => handleSecrets hasStore dev id i req) s)
    as [(token & ident & Hh & Hv & E1)|[_ Hno]]; rewrite Hserve in *; [|done].
  unfold handleSecrets in E1.
  match type of E1 with _ = onJob _ _ ?k _ => destruct (onJob_cases id ident k s) as [(_ & Hid & E2)|[_ Hno]] end;
    rewrite <-E1 in *; [|done].
  destruct (HasScope ident ScopeSecretsRead) eqn:Hs; [|done]. simpl in E2.
  destruct req as [requested|]; [|done]. exists token, ident, requested.
  unfold orReply, getPlan, GetPlan in E2. destruct (splans (fst s) !! id) as [p|] eqn:Hp; [|done].
  unfold mbind in E2. simpl in E2.
  destruct (resolve_secrets _ _ _ _ s) as [s1 [out|e|]] eqn:Er; [|done..].
  injection E2 as -> ->. destruct (resolve_secrets_spec _ _ _ _ _ Er) as [Hsame Hout].
  split_and!; try done. intros k v Hk. destruct (Hout k v Hk) as [Hn|(r & Hr & -> & Hval)]; [done|].
  apply allowed_elem in Hr as (Hq1 & Hq2 & Hq3 & Hq4). exists p, r. split_and!; try done.
  intros Ht. apply Hq3. unfold trust_of. by rewrite Ht.
Qed.
End api.

(** ** The properties *)

(** C15. A request to an endpoint of a job either changes nothing and is
    refused, or carries a bearer token that the verifier accepts for that very
    job — or, for an observation only, for an identity with the observation
    scope. *)
Theorem job_endpoints_need_bound_identity `{Unicode} `{Sha256} {D A X E : Type} `{DurableStore D} `{SecretStore X}
    base hasStore dev s3 (verify : string → outcome E Identity) now header e id (s : server D A * X) :
  job_of e = Some id →
  (∃ token ident, header = "Bearer " +:+ token ∧ verify token = Ok ident ∧
     (IdJobRunID ident = id ∨ (observes e = true ∧ ScopeObservedWrite ∈ IdScopes ident))) ∨
  refused s (serve base hasStore dev s3 verify now header e s).
Proof. apply job_endpoint_authorized. Qed.

(** C13. Every secret in a reply of the secrets endpoint was granted: the token's
    identity is bound to the job and holds secrets:read, the job's stored plan
    refers to the secret and the request names it, the job is not known to come
    from a fork, and the value is the secret store's or a development value. *)
Theorem delivered_secrets_are_granted `{Unicode} `{Sha256} {D A X E : Type} `{DurableStore D} `{SecretStore X}
    base hasStore dev s3 (verify : string → outcome E Identity) now header id req (s s' : server D A * X) m :
  serve base hasStore dev s3 verify now header (ESecrets id req) s = (s', Ok (JSON (BSecrets m))) →
  ∃ token ident requested, header = "Bearer " +:+ token ∧ verify token = Ok ident ∧
    req = Some requested ∧ fst s' = fst s ∧
    ∀ k v, m !! k = Some v → secret_granted hasStore dev ident id requested (fst s) k v.
Proof. apply secrets_reply. Qed.

(** After the pull request of a fork has been ingested into a new run, the
    secrets endpoint answers with no secret at all for any job of the run that
    is still open, whoever asks. *)
Theorem fork_jobs_get_no_secrets `{Unicode} `{FloatText} `{JSONText} `{IntConv} `{MapRange} `{PlanDigest}
    `{EventJSON} `{Sha256} `{MemoryEnv} `{!MemoryEnvOk} {A X E : Type} `{SecretStore X}
    base load unmarshal fetch now d (v v' : server store A) runID
    hasStore dev s3 (verify : string → outcome E Identity) now' header id req (x : X) s' m :
  store_wf (sdurable v) → plan_keys (splans v) →
  EvName (DEvent d) = "pull_request" → head_repo_fork (DPayload d) = Some true →
  ServerIngest base load unmarshal fetch now d v = (v', Ok (runID, true, None)) → runID ≠ "" →
  id ∈ getRunJobs (sdurable v') runID → job_terminal (JStatus (getJob (sdurable v') id)) = false →
  serve base hasStore dev s3 verify now' header (ESecrets id req) (v', x) = (s', Ok (JSON (BSecrets m))) →
  m = ∅.
Proof.
  intros Hwf Hk Hev Hfork Hin Hr Hid Hopen Hserve.
  destruct (ingest_plans base load unmarshal fetch now d v v' runID Hwf Hk Hin Hr) as (_ & _ & _ & Hall).
  destruct (Hall id Hid) as [[_ Ht]|Hterm]; [|congruence].
  assert (trustFor d = TrustFork) as Hfk.
  { unfold trustFor. rewrite Hfork, bool_decide_eq_false_2; [done|]. by intros []. }
  destruct (secrets_reply _ _ _ _ _ _ _ _ _ _ _ _ Hserve) as (token & ident & requested & _ & _ & _ & _ & Hm).
  apply map_empty. intros k. apply eq_None_not_Some. intros [w Hw].
  destruct (Hm k w Hw) as (p & r & _ & _ & _ & _ & _ & _ & Htr & _). simpl in Htr. congruence.
Qed.

(** ** A concrete server *)

Definition map_secrets : SecretStore (gmap string string) := {|
  GetSecret := fun scope name m => (m, match m !! (scope +:+ "/" +:+ name) with
                                       | Some v => Ok v | None => Err (ErrOther "no secret") end);
  PutSecret := fun scope name v m => (<[scope +:+ "/" +:+ name := v]> m, Ok tt);
  DeleteSecret := fun scope name m => (delete (scope +:+ "/" +:+ name) m, Ok tt);
  ListSecrets := fun m => (m, Ok [])
|}.

Definition idx_identity : Identity := {|
  IdAudience := Audience; IdNamespace := "forgelet-jobs"; IdPodUID := "pod-idx"; IdJobRunID := "idx";
  IdScopes := [ScopePlanRead; ScopeSecretsRead; ScopeStatusWrite]; IdTokenID := "t1";
  IdIssuedAt := 0; IdExpiresAt := 10 |}.

(** The verifier knows one token, that of the job [idx]. *)
Definition one_token (t : string) : outcome string Identity :=
  if bool_decide (t = "tok") then Ok idx_identity else Err "unknown token".

Definition token_plan : Plan := {|
  PJobRunID := "idx"; PRepository := demo_repo; PEventName := "push"; PActor := "alice"; PSHA := "abc";
  PRef := "refs/heads/main"; PRunnerClass := "linux"; PEnv := ∅; PSteps := [];
  PSecretRefs := [{| SRScope := "repository"; SRName := "TOKEN"; SREnv := "TOKEN" |}]; PTimeoutSecs := 0 |}.

Definition planned_server : server store activeStore :=
  with_splans {[ "idx" := token_plan ]} (server_of demo_created NewActiveStore).

Definition vault : gmap string string := {[ "repository/TOKEN" := "s3cr3t"; "repository/OTHER" := "hidden" ]}.

Section witnesses.
#[local] Existing Instances ascii_unicode demo_float_text some_order one_sum map_secrets no_json no_int id_digest fork_json.

Definition ask (header : string) (e : Endpoint) :=
  serve "http://forgelet" true ∅ None one_token 9 header e (planned_server, vault).

Lemma job_endpoints_need_bound_identity_witness :
  refused (planned_server, vault) (ask "Bearer tok" (EPlan "idxx")).
Proof.
  destruct (job_endpoints_need_bound_identity "http://forgelet" true ∅ None one_token 9 "Bearer tok"
    (EPlan "idxx") "idxx" (planned_server, vault)) as [(token & ident & Hh & Hv & Hb)|H].
  - reflexivity.
  - exfalso. injection Hh as <-. vm_compute in Hv. injection Hv as <-. destruct Hb as [Hb|[Hb _]]; discriminate Hb.
  - exact H.
Defined.

Definition two_refs : list Ref :=
  [{| RefScope := "repository"; RefName := "TOKEN" |}; {| RefScope := "repository"; RefName := "OTHER" |}].

Definition answer := ask "Bearer tok" (ESecrets "idx" (Some two_refs)).

Lemma answer_result : answer = (fst answer, Ok (JSON (BSecrets {[ "repository/TOKEN" := "s3cr3t" ]}))).
Proof. apply pair_result. vm_compute. reflexivity. Qed.

Lemma delivered_secrets_are_granted_witness :
  secret_granted true ∅ idx_identity "idx" two_refs planned_server "repository/TOKEN" "s3cr3t".
Proof.
  destruct (delivered_secrets_are_granted "http://forgelet" true ∅ None one_token 9 "Bearer tok" "idx"
    (Some two_refs) (planned_server, vault) (fst answer) _ answer_result)
    as (token & ident & requested & Hh & Hv & Hreq & _ & Hall).
  injection Hh as <-. injection Hreq as <-. vm_compute in Hv. injection Hv as <-.
  apply (Hall "repository/TOKEN" "s3cr3t"). reflexivity.
Defined.

Definition fork_answer :=
  serve "http://forgelet" true ∅ None one_token 9 "Bearer tok" (ESecrets "idx" (Some two_refs)) (fst fork_ingest, vault).

Lemma fork_answer_result : fork_answer = (fst fork_answer, Ok (JSON (BSecrets ∅))).
Proof. apply pair_result. vm_compute. reflexivity. Qed.

Lemma fork_job_open : job_terminal (JStatus (getJob (sdurable (fst fork_ingest)) "idx")) = false.
Proof. vm_compute. reflexivity. Qed.

Lemma fork_jobs_get_no_secrets_witness : ∃ m, snd fork_answer = Ok (JSON (BSecrets m)) ∧ m = ∅.
Proof.
  exists ∅. split; [rewrite fork_answer_result; reflexivity|].
  apply (fork_jobs_get_no_secrets "http://forgelet" (fun _ _ => Ok [{| FName := "ci.yml"; FData := "" |}])
    (fun _ => Ok pr_node) None 5 fork_delivery (server_of NewDurableStore NewActiveStore) (fst fork_ingest) "id"
    true ∅ None one_token 9 "Bearer tok" "idx" (Some two_refs) vault (fst fork_answer)).
  - exact NewDurableStore_wf.
  - intros id p Hp. discriminate Hp.
  - reflexivity.
  - reflexivity.
  - exact fork_ingest_result.
  - discriminate.
  - rewrite fork_jobs. left.
  - exact fork_job_open.
  - exact fork_answer_result.
Defined.
End witnesses.
