(* ===== verification/Threads.v ===== *)
(** * Programs of atomic operations, and threads that interleave

    The goroutines of a server share its state and interleave between their
    operations on it.  A handler is a [routine]: a sequence of operations, each
    atomic, every one chosen by the results of the ones before.  [run] executes
    a program alone; a [config] is the shared state with the threads that run in
    it, and [cstep] lets any of them make its next operation, a new one start,
    or something else change the state.

    [safe] is the specification of a thread in the presence of the others: it
    relies on what everybody guarantees — an invariant and an order in which the
    state only grows — and may owe something between two of its operations. *)

From S2P Require Import Prelude GoStrings RunModel SchedulerPort.

Local Open Scope go_scope.

(** ** Programs *)

Inductive routine (S R : Type) : Type :=
  | Done (r : outcome error R)
  | Act {Y : Type} (m : M S Y) (k : outcome error Y → routine S R).
Arguments Done {S R} r.
Arguments Act {S R Y} m k.

Section routine.
Context {S : Type}.

Definition act {Y} (m : M S Y) : routine S Y := Act m Done.
Definition pret {Y} (y : Y) : routine S Y := Done (Ok y).
Definition pfail {Y} (e : error) : routine S Y := Done (Err e).

(** Go on with the outcome, whatever it is. *)
Fixpoint pthen {X Y} (p : routine S X) (f : outcome error X → routine S Y) : routine S Y :=
  match p with
  | Done r => f r
  | Act m k => Act m (fun r => pthen (k r) f)
  end.

Definition pbind {X Y} (p : routine S X) (f : X → routine S Y) : routine S Y :=
  pthen p (fun r => match r with Ok x => f x | Err e => Done (Err e) | Panic => Done Panic end).

(** The error is dropped. *)
Definition pignore {X} (p : routine S X) : routine S unit :=
  pthen p (fun r => match r with Panic => Done Panic | _ => Done (Ok tt) end).

Fixpoint run {R} (p : routine S R) : M S R :=
  match p with
  | Done r => fun s => (s, r)
  | Act m k => fun s => let '(s', r) := m s in run (k r) s'
  end.

Lemma run_act {Y} (m : M S Y) s : run (act m) s = m s.
Proof. simpl. by destruct (m s). Qed.

Lemma run_pthen {X Y} (p : routine S X) (f : outcome error X → routine S Y) s :
  run (pthen p f) s = let '(s', r) := run p s in run (f r) s'.
Proof.
  revert s. induction p as [r|Z m k IH]; intros s; simpl; [done|]. destruct (m s) as [s' r]. apply IH.
Qed.

Lemma run_pbind {X Y} (p : routine S X) (f : X → routine S Y) s :
  run (pbind p f) s = (let* x := run p in run (f x)) s.
Proof.
  unfold pbind, mbind. rewrite run_pthen. by destruct (run p s) as [s' [x|e|]].
Qed.
End routine.

Notation "'plet' x ':=' p 'in' k" := (pbind p (fun x => k))
  (at level 10, x pattern, p at level 100, k at level 200) : go_scope.

(** ** Threads *)

Record config (S R : Type) := { shared : S; pool : list (routine S R) }.
Arguments Build_config {S R} shared pool.
Arguments shared {S R} c.
Arguments pool {S R} c.

Definition at_end {S R} (p : routine S R) : bool := match p with Done _ => true | Act _ _ => false end.

(** The next operation of a thread. *)
Definition next_op {S R} (p : routine S R) (s : S) : S * routine S R :=
  match p with
  | Done r => (s, Done r)
  | Act m k => let '(s', r) := m s in (s', k r)
  end.

Section steps.
Context {S R : Type}.
(** Which threads may start, and what changes the state besides the threads. *)
Context (starts : S → routine S R → Prop) (ambient : S → S → Prop).

Inductive cstep : config S R → config S R → Prop :=
  | cstep_start s ps p : starts s p → cstep (Build_config s ps) (Build_config s (ps ++ [p]))
  | cstep_thread s ps i p : ps !! i = Some p →
      cstep (Build_config s ps) (Build_config (fst (next_op p s)) (<[i := snd (next_op p s)]> ps))
  | cstep_ambient s s' ps : ambient s s' → cstep (Build_config s ps) (Build_config s' ps).

(** ** Safety *)

(** What every thread relies on and guarantees: an invariant, a preorder, and
    what must not stay as it is unless some thread still sees to it. *)
Context (Inv : S → Prop) (grows : S → S → Prop) (gap : S → string → Prop).
Context `{!PreOrder grows}.

(** The thread owes the gaps in [O]: it has opened them, and it ends with none. *)
Fixpoint safe {Y} (Q : outcome error Y → S → Prop) (O : gset string) (p : routine S Y) (s : S) : Prop :=
  match p with
  | Done r => O = ∅ ∧ ∀ s', grows s s' → Inv s' → Q r s'
  | Act m k => ∀ s', grows s s' → Inv s' →
      let '(s'', r) := m s' in
      Inv s'' ∧ grows s' s'' ∧
      ∃ O', (∀ id, gap s'' id → (gap s' id ∧ id ∉ O) ∨ id ∈ O') ∧ safe Q O' (k r) s''
  end.

Lemma safe_later {Y} (Q : outcome error Y → S → Prop) O (p : routine S Y) s s' : safe Q O p s → grows s s' → safe Q O p s'.
Proof.
  destruct p as [r|Z m k]; simpl.
  - intros [HO HQ] Hle. split; [done|]. intros s'' Hle'. apply HQ. by etrans.
  - intros H Hle s'' Hle'. apply H. by etrans.
Qed.

(** Sequencing: what the first part leaves is where the second begins. *)
Lemma safe_pthen {X Y} (Q : outcome error Y → S → Prop) O (p : routine S X) f s :
  safe (fun r s' => safe Q ∅ (f r) s') O p s → Inv s → safe Q O (pthen p f) s.
Proof.
  revert O s. induction p as [r|Z m k IH]; intros O s; simpl.
  - intros [-> HQ] Hinv. by apply HQ.
  - intros H Hinv s' Hle Hinv'. specialize (H s' Hle Hinv'). destruct (m s') as [s'' r].
    destruct H as (Hinv'' & Hle'' & O' & Hgap & Hs). split_and!; [done..|]. exists O'. split; [done|]. by apply IH.
Qed.

Lemma safe_weaken {Y} (Q Q' : outcome error Y → S → Prop) O (p : routine S Y) s :
  (∀ r s', grows s s' → Inv s' → Q r s' → Q' r s') → safe Q O p s → safe Q' O p s.
Proof.
  revert O s. induction p as [r|Z m k IH]; intros O s HQ; simpl.
  - intros [HO H]. split; [done|]. intros s' Hle Hinv. apply HQ; auto.
  - intros H s' Hle Hinv. specialize (H s' Hle Hinv). destruct (m s') as [s'' r].
    destruct H as (Hinv'' & Hle'' & O' & Hgap & Hs). split_and!; [done..|]. exists O'. split; [done|].
    apply IH; [|done]. intros r' s3 Hle3. apply HQ. etrans; [exact Hle|]. by etrans.
Qed.

(** The threads of a configuration are safe, and every gap is owed. *)
Record pool_safe (c : config S R) (Os : list (gset string)) : Prop := {
  ps_inv : Inv (shared c);
  ps_threads : Forall2 (fun p O => safe (fun _ _ => True) O p (shared c)) (pool c) Os;
  ps_gaps : ∀ id, gap (shared c) id → ∃ i O, Os !! i = Some O ∧ id ∈ O
}.

Lemma threads_later (ps : list (routine S R)) Os s s' :
  Forall2 (fun p O => safe (fun _ _ => True) O p s) ps Os → grows s s' →
  Forall2 (fun p O => safe (fun _ _ => True) O p s') ps Os.
Proof. intros H Hle. eapply Forall2_impl; [exact H|]. intros p O Hp. exact (safe_later _ _ _ _ _ Hp Hle). Qed.

(** One operation of a safe thread. *)
Lemma advance_safe {Y} (Q : outcome error Y → S → Prop) O (p : routine S Y) s :
  safe Q O p s → Inv s →
  Inv (fst (next_op p s)) ∧ grows s (fst (next_op p s)) ∧
  ∃ O', (∀ id, gap (fst (next_op p s)) id → (gap s id ∧ id ∉ O) ∨ id ∈ O') ∧
    safe Q O' (snd (next_op p s)) (fst (next_op p s)).
Proof.
  destruct p as [r|Z m k]; simpl.
  - intros [-> HQ] Hinv. split_and!; [done..|]. exists ∅. split; [|done]. intros id. left. split; [done|set_solver].
  - intros H Hinv. specialize (H s (PreOrder_Reflexive s) Hinv). by destruct (m s) as [s' r].
Qed.

(** When every thread has at_end, nothing is owed and no gap is left. *)
Lemma quiescent_no_gap c Os id : pool_safe c Os → forallb at_end (pool c) = true → ¬ gap (shared c) id.
Proof.
  intros [_ Hth Hgap] Hfin Hid. destruct (Hgap id Hid) as (i & O & HO & Hin).
  destruct (Forall2_lookup_r _ _ _ _ _ Hth HO) as (p & Hp & Hsafe).
  apply forallb_forall with (x := p) in Hfin; [|apply list_elem_of_In; by eapply list_elem_of_lookup_2].
  destruct p; [|done]. destruct Hsafe as [-> _]. set_solver.
Qed.

Hypothesis starts_safe : ∀ s p, Inv s → starts s p → safe (fun _ _ => True) ∅ p s.
Hypothesis ambient_safe : ∀ s s', Inv s → ambient s s' → Inv s' ∧ grows s s' ∧ ∀ id, gap s' id → gap s id.

Lemma cstep_safe c c' Os : pool_safe c Os → cstep c c' → ∃ Os', pool_safe c' Os'.
Proof.
  intros Hps Hc. destruct Hc as [s ps p Hst|s ps i p Hi|s s' ps Ha]; destruct Hps as [Hinv Hth Hgap]; simpl in *.
  - exists (Os ++ [∅]). split; simpl; [done| |].
    + apply Forall2_app; [done|]. constructor; [by apply starts_safe|constructor].
    + intros id Hid. destruct (Hgap id Hid) as (j & O & Hj & Hin). exists j, O. split; [|done]. by apply lookup_app_l_Some.
  - destruct (Forall2_lookup_l _ _ _ _ _ Hth Hi) as (O & HO & Hsafe).
    destruct (advance_safe _ _ _ _ Hsafe Hinv) as (Hinv' & Hle & O' & Hgap' & Hsafe').
    exists (<[i := O']> Os). split; simpl; [done| |].
    + apply Forall2_insert; [|done]. by eapply threads_later.
    + intros id Hid. destruct (Hgap' id Hid) as [[Hold Hnot]|Hin].
      * destruct (Hgap id Hold) as (j & Oj & Hj & Hin). exists j, Oj. split; [|done].
        rewrite list_lookup_insert_ne; [done|]. intros <-. congruence.
      * exists i, O'. split; [|done]. apply list_lookup_insert_eq. by eapply lookup_lt_Some.
  - destruct (ambient_safe _ _ Hinv Ha) as (Hinv' & Hle & Hg). exists Os. split; simpl; [done| |].
    + by eapply threads_later.
    + intros id Hid. by apply Hgap, Hg.
Qed.

Lemma csteps_safe c c' Os : pool_safe c Os → rtc cstep c c' → ∃ Os', pool_safe c' Os'.
Proof.
  intros H Hsteps. revert Os H. induction Hsteps as [c|c c1 c' Hc _ IH]; intros Os H; [by exists Os|].
  destruct (cstep_safe _ _ _ H Hc) as [Os1 H1]. by eapply IH.
Qed.

(** What is known of one thread stays known while the others run. *)
Lemma thread_keeps (Q : outcome error R → S → Prop) c c' Os i p :
  pool_safe c Os → rtc cstep c c' → pool c !! i = Some p → (∃ O, safe Q O p (shared c)) →
  ∃ p', pool c' !! i = Some p' ∧ Inv (shared c') ∧ ∃ O, safe Q O p' (shared c').
Proof.
  intros H Hsteps. revert Os p H. induction Hsteps as [c|c c1 c' Hc _ IH]; intros Os p H Hi [O Hs].
  { exists p. split_and!; [done|apply (ps_inv _ _ H)|by exists O]. }
  destruct (cstep_safe _ _ _ H Hc) as [Os1 H1]. pose proof (ps_inv _ _ H) as Hinv.
  destruct Hc as [s ps q Hst|s ps j q Hj|s s' ps Ha]; simpl in *.
  - eapply IH; [exact H1|by apply lookup_app_l_Some|by exists O].
  - destruct (Forall2_lookup_l _ _ _ _ _ (ps_threads _ _ H) Hj) as (Oj & _ & Hq).
    destruct (decide (i = j)) as [->|Hne].
    + rewrite Hi in Hj. injection Hj as <-. destruct (advance_safe _ _ _ _ Hs Hinv) as (_ & _ & O' & _ & Hs').
      eapply IH; [exact H1| |by exists O']. apply list_lookup_insert_eq. by eapply lookup_lt_Some.
    + destruct (advance_safe _ _ _ _ Hq Hinv) as (_ & Hle & _).
      eapply IH; [exact H1|by rewrite list_lookup_insert_ne|]. exists O. by eapply safe_later.
  - destruct (ambient_safe _ _ Hinv Ha) as (_ & Hle & _).
    eapply IH; [exact H1|done|]. exists O. by eapply safe_later.
Qed.
End steps.
