(* ===== verification/ServerThreads.v ===== *)
(** * The goroutines of the server (server.go)

    The handlers of [Server] and [ServerApi] as programs of atomic operations
    ([Threads.routine]): one call of a store, one access of the plan store or of the
    trust map under its mutex, one report.  Alone, each program does exactly what
    the handler does ([threads_run_the_handlers]); run as threads
    they interleave with each other and with the loops of [StartLoops], whose
    ticks are sequences of operations of the stores ([ambient]). *)

From S2P Require Import Prelude GoStrings GoFloat RunModel SchedulerPort Scheduler.
From S2P Require Import Syntax Compiler ExprSyntax ExprEval Identity Authorization Plans Reports ObjectStore Server ServerApi Threads.

Local Open Scope go_scope.

Section programs.
Context `{Unicode} `{FloatText} `{JSONText} `{IntConv} `{MapRange} `{PlanDigest} `{EventJSON} `{Sha256}.
Context {D A X : Type} `{DurableStore D} `{ActiveExecutionStore A} `{SecretStore X}.
Context (base : string).

Abbreviation V := (server D A).
Abbreviation St := (server D A * X)%type.

Definition actV {Y} (m : M V Y) : routine St Y := act (onServer m).
Definition actD {Y} (m : M D Y) : routine St Y := actV (onD m).

(** The program [p] run alone is the handler [m]. *)
Definition implements {Y} (p : routine St Y) (m : M V Y) : Prop := ∀ s, run p s = onServer m s.

Lemma actV_alone {Y} (m : M V Y) : implements (actV m) m.
Proof. intros s. apply run_act. Qed.

Lemma bind_alone {Y Z} (p : routine St Y) (m : M V Y) (f : Y → routine St Z) (g : Y → M V Z) :
  implements p m → (∀ y, implements (f y) (g y)) → implements (pbind p f) (mbind m g).
Proof.
  intros Hp Hf [v x]. rewrite run_pbind. unfold mbind. rewrite Hp. unfold onServer. simpl.
  destruct (m v) as [v' [y|e|]]; [|done..]. apply Hf.
Qed.

Lemma ret_alone {Y} (y : Y) : implements (pret y) (mret y).
Proof. by intros [v x]. Qed.

Lemma fail_alone {Y} e : implements (@pfail _ Y e) (mfail e).
Proof. by intros [v x]. Qed.

Lemma ignore_alone {Y} (p : routine St Y) m : implements p m → implements (pignore p) (ignore m).
Proof.
  intros Hp [v x]. unfold pignore. rewrite run_pthen, Hp. unfold onServer, ignore. simpl.
  by destruct (m v) as [v' [y|e|]].
Qed.

(** ** The programs *)

Definition append_report (run : RunRecord) (job : JobRunRecord) : M V unit := fun s =>
  match MapJobRun job base with
  | Ok check => (with_sreports (sreports s ++ [(run, check)]) s, Ok tt)
  | Err e => (s, Err (ErrOther e))
  | Panic => (s, Panic)
  end.

Definition report_prog (id : JobRunID) : routine St unit :=
  pignore (plet job := actD (GetJobRun id) in
           plet run := actD (GetRun (JRunID job)) in
           actV (append_report run job)).

Lemma report_alone id : implements (report_prog id) (reportCheck base id).
Proof.
  apply ignore_alone, bind_alone; [apply actV_alone|]. intros job.
  apply bind_alone; [apply actV_alone|]. intros run. apply actV_alone.
Qed.

(** *** A delivery *)

Definition ingest_prog (compile : Scheduler.Compiler) (now : Time) (d : Delivery) : routine St (RunID * bool) :=
  plet (rec, _) := actD (mapErr (ErrWrap "record delivery") (RecordDelivery d)) in
  if bool_decide (DRRunID rec ≠ "") then pret (DRRunID rec, false)
  else match compile (DEvent d) (DRPayload rec) with
       | Err e => pfail (ErrWrap "compile for delivery" e)
       | Panic => Done Panic
       | Ok js =>
           match firstInvalid js with
           | Some msg => pfail (ErrWrap "delivery" (ErrOther msg))
           | None =>
               if bool_decide (length js = 0) then pret ("", false)
               else
                 plet (run, created) := actD (mapErr (ErrWrap "create run for delivery")
                   (CreateRun {| SDelivery := DKey d; SEvent := DEvent d; SJobs := js |} now)) in
                 pret (RID run, created)
           end
       end.

Lemma onD_bind_alone {Y Z} (m : M D Y) (f : Y → routine St Z) (g : Y → M D Z) :
  (∀ y, implements (f y) (onD (g y))) → implements (pbind (actD m) f) (onD (mbind m g)).
Proof.
  intros Hf [v x]. rewrite run_pbind. unfold mbind at 1. unfold actD. rewrite actV_alone. unfold onServer, onD, mbind. simpl.
  destruct (m (sdurable v)) as [d [y|e|]] eqn:Em; [|done..]. rewrite Hf. unfold onServer, onD. simpl.
  by destruct (g y d).
Qed.

Lemma ingest_alone compile now d : implements (ingest_prog compile now d) (onD (Ingest compile now d)).
Proof.
  apply onD_bind_alone. intros [rec b]. case_bool_decide; [by intros [[] x]|].
  destruct (compile _ _) as [js|e|]; [|by intros [[] x]..]. destruct (firstInvalid js); [by intros [[] x]|].
  case_bool_decide; [by intros [[] x]|]. apply onD_bind_alone. intros [run created]. by intros [[] x].
Qed.

Definition store_plan_prog (fetch : option ActionFetcher) (ev : Event) (trust : TrustLevel)
    (rec : JobRunRecord) (inst : JobInstance) : routine St unit :=
  match buildPlan fetch rec ev inst with
  | Err e => pfail (ErrWrap "build plan" (ErrOther e))
  | Panic => Done Panic
  | Ok p =>
      plet _ := actV (put_plan p) in
      plet _ := actV (set_trust (JID rec) trust) in
      report_prog (JID rec)
  end.

Lemma store_plan_alone fetch ev trust rec inst :
  implements (store_plan_prog fetch ev trust rec inst) (store_plan base fetch ev trust rec inst).
Proof.
  unfold store_plan_prog, store_plan. destruct (buildPlan _ _ _ _); [|apply fail_alone|by intros [v x]].
  apply bind_alone; [apply actV_alone|]. intros _. apply bind_alone; [apply actV_alone|]. intros _. apply report_alone.
Qed.

Definition plan_job_prog (fetch : option ActionFetcher) (now : Time) (ev : Event) (trust : TrustLevel)
    (insts : list JobInstance) (runs : list JobRunRecord) (rec : JobRunRecord) : routine St unit :=
  match find (fun i => bool_decide (InstKey i = JJobKey rec)) insts with
  | None => pfail (ErrOther ("server: job " +:+ JJobKey rec +:+ " missing from compiled set"))
  | Some inst =>
      if bool_decide (InstIf inst ≠ "") && negb (isDeferredCondition (InstIf inst)) then
        match EvaluateCondition (InstIf inst) (Some (jobConditionEnv ev rec runs)) with
        | Err _ => pfail (ErrWrap "invalid if" (ErrOther (InstIf inst)))
        | Panic => Done Panic
        | Ok false =>
            plet _ := actV (mapErr (ErrWrap "skip job") (projectObserved now (JID rec) PhaseSkipped)) in
            report_prog (JID rec)
        | Ok true => store_plan_prog fetch ev trust rec inst
        end
      else store_plan_prog fetch ev trust rec inst
  end.

Lemma plan_job_alone fetch now ev trust insts runs rec :
  implements (plan_job_prog fetch now ev trust insts runs rec) (plan_job base fetch now ev trust insts runs rec).
Proof.
  unfold plan_job_prog, plan_job. destruct (find _ _) as [inst|]; [|apply fail_alone].
  destruct (_ && _); [|apply store_plan_alone].
  destruct (EvaluateCondition _ _) as [[]|e|]; [apply store_plan_alone| |apply fail_alone|by intros [v x]].
  apply bind_alone; [apply actV_alone|]. intros _. apply report_alone.
Qed.

Fixpoint plan_jobs_prog (fetch : option ActionFetcher) (now : Time) (ev : Event) (trust : TrustLevel)
    (insts : list JobInstance) (runs todo : list JobRunRecord) : routine St unit :=
  match todo with
  | [] => pret tt
  | rec :: rest =>
      plet _ := plan_job_prog fetch now ev trust insts runs rec in
      plan_jobs_prog fetch now ev trust insts runs rest
  end.

Lemma plan_jobs_alone fetch now ev trust insts runs todo :
  implements (plan_jobs_prog fetch now ev trust insts runs todo) (plan_jobs base fetch now ev trust insts runs todo).
Proof.
  induction todo as [|rec todo IH]; simpl; [apply ret_alone|].
  apply bind_alone; [apply plan_job_alone|]. by intros _.
Qed.

Definition set_instances (runID : RunID) (insts : list JobInstance) : M V unit :=
  fun s => (with_sinstances (<[runID := insts]> (sinstances s)) s, Ok tt).

Definition build_plans_prog (fetch : option ActionFetcher) (now : Time)
    (jobs : outcome SourceError (list JobInstance)) (d : Delivery) (runID : RunID)
    (trust : TrustLevel) : routine St unit :=
  match jobs with
  | Err e => pfail (ErrWrap "rebuild jobs" (source_error e))
  | Panic => Done Panic
  | Ok insts =>
      plet _ := actV (set_instances runID insts) in
      plet runs := actV (mapErr (ErrWrap "list jobs") (onD (ListJobRuns runID))) in
      plan_jobs_prog fetch now (DEvent d) trust insts runs runs
  end.

Lemma build_plans_alone fetch now jobs d runID trust :
  implements (build_plans_prog fetch now jobs d runID trust) (buildPlans base fetch now jobs d runID trust).
Proof.
  unfold build_plans_prog, buildPlans. destruct jobs as [insts|e|]; [|apply fail_alone|by intros [v x]].
  apply bind_alone; [apply actV_alone|]. intros _.
  apply bind_alone; [apply actV_alone|]. intros runs. apply plan_jobs_alone.
Qed.

Definition deliver_prog (load : RepositoryRef → string → outcome string (list WorkflowFile))
    (unmarshal : string → outcome string Node) (fetch : option ActionFetcher) (now : Time)
    (d : Delivery) : routine St (RunID * bool * option error) :=
  plet (runID, created) := ingest_prog (SourceCompile load unmarshal) now d in
  if bool_decide (runID = "") || negb created then pret (runID, created, None)
  else pthen (build_plans_prog fetch now (matchedJobs load unmarshal (DEvent d) (DPayload d)) d runID (trustFor d))
         (fun r => match r with
                   | Ok _ => pret (runID, created, None)
                   | Err e => pret (runID, created, Some e)
                   | Panic => Done Panic
                   end).

Lemma deliver_alone load unmarshal fetch now d :
  implements (deliver_prog load unmarshal fetch now d) (ServerIngest base load unmarshal fetch now d).
Proof.
  apply bind_alone; [apply ingest_alone|]. intros [runID created]. destruct (_ || _); [apply ret_alone|].
  intros [v x]. rewrite run_pthen, build_plans_alone. unfold onServer. simpl.
  by destruct (buildPlans _ _ _ _ _ _ _ v) as [v' [[]|e|]].
Qed.

(** *** A rerequest *)

Definition read_plan (id : JobRunID) : M V (option Plan) :=
  fun s => (s, Ok (match GetPlan id (splans s) with Ok old => Some old | _ => None end)).

Definition copy_trust (id newID : JobRunID) : M V unit :=
  fun s => match strust s !! id with Some t => set_trust newID t s | None => (s, Ok tt) end.

Definition rerequest_prog (now : Time) (id : JobRunID) : routine St JobRunID :=
  plet newID := actD (RerequestJob id now) in
  plet old := actV (read_plan id) in
  plet _ := match old with
            | Some p => pignore (actV (put_plan (rename_plan newID p)))
            | None => pret tt
            end in
  plet _ := actV (copy_trust id newID) in
  plet _ := report_prog newID in
  pret newID.

Lemma read_alone {Y Z} (g : V → Y) (f : Y → routine St Z) (m : M V Z) :
  (∀ v x, run (f (g v)) (v, x) = onServer m (v, x)) → implements (pbind (actV (fun s => (s, Ok (g s)))) f) m.
Proof. intros Hf [v x]. rewrite run_pbind. unfold mbind. rewrite actV_alone. apply Hf. Qed.

Lemma rerequest_alone now id : implements (rerequest_prog now id) (Rerequest base now id).
Proof.
  apply bind_alone; [apply actV_alone|]. intros newID. apply read_alone. intros v x.
  rewrite (bind_alone _ (match match GetPlan id (splans v) with Ok old => Some old | _ => None end with
    | Some p => ignore (put_plan (rename_plan newID p)) | None => mret tt end) _
    (fun _ => let* _ := copy_trust id newID in let* _ := reportCheck base newID in mret newID)).
  - unfold onServer, mbind. simpl. by destruct (GetPlan id (splans v)).
  - destruct (GetPlan id (splans v)); [apply ignore_alone, actV_alone|apply ret_alone..].
  - intros _. apply bind_alone; [apply actV_alone|]. intros _.
    apply bind_alone; [apply report_alone|]. intros _. apply ret_alone.
Qed.

(** ** Endpoints *)

Context (hasSecretStore : bool) (SecretValues : gmap string string) (S3 : option ObjectClient).

Definition computes {Y} (p : routine St Y) (m : M St Y) : Prop := ∀ s, run p s = m s.

Lemma computes_bind {Y Z} (p : routine St Y) (m : M St Y) (f : Y → routine St Z) (g : Y → M St Z) :
  computes p m → (∀ y, computes (f y) (g y)) → computes (pbind p f) (mbind m g).
Proof.
  intros Hp Hf s. rewrite run_pbind. unfold mbind. rewrite Hp. destruct (m s) as [s' [y|e|]]; [|done..]. apply Hf.
Qed.

Lemma computes_act {Y} (m : M St Y) : computes (act m) m.
Proof. intros s. apply run_act. Qed.

Definition orReply_prog {Y} (p : routine St Y) (no : Reply) (k : Y → routine St Reply) : routine St Reply :=
  pthen p (fun r => match r with Ok y => k y | Err _ => pret no | Panic => Done Panic end).

Lemma orReply_computes {Y} (p : routine St Y) m no (k : Y → routine St Reply) g :
  computes p m → (∀ y, computes (k y) (g y)) → computes (orReply_prog p no k) (orReply m no g).
Proof.
  intros Hp Hk s. unfold orReply_prog, orReply. rewrite run_pthen, Hp.
  destruct (m s) as [s' [y|e|]]; [apply Hk|done..].
Qed.

Definition onJob_prog (id : string) (ident : option Identity) (k : Identity → routine St Reply) : routine St Reply :=
  match jobFromPath id ident with inl r => pret r | inr i => k i end.

Definition resolve_prog : list Ref → gmap string string → routine St (gmap string string) :=
  fix resolve rs out :=
    match rs with
    | [] => pret out
    | r :: rs' => plet out' := act (resolve_secret hasSecretStore SecretValues r out) in resolve rs' out'
    end.

(** The plan, the trust level and each secret are read one after the other. *)
Definition secrets_prog (id : string) (ident : option Identity) (req : option (list Ref)) : routine St Reply :=
  onJob_prog id ident (fun i =>
    if negb (HasScope i ScopeSecretsRead) then pret (HttpError 403 "missing scope secrets:read")
    else match req with
         | None => pret (HttpError 400 "malformed request")
         | Some requested =>
             orReply_prog (act (getPlan id)) (HttpError 404 "plan not found") (fun p =>
               plet trust := actV (fun v => (v, Ok (trust_of id v))) in
               plet out := resolve_prog (Allowed (DecideSecrets i requested (planRefs p) trust)) ∅ in
               pret (JSON (BSecrets out)))
         end).

Definition project_and_report_prog (now : Time) (id : string) (phase : ObservedPhase) : routine St Reply :=
  orReply_prog (actV (projectObserved now id phase)) (HttpError 500 "projection failed") (fun _ =>
    plet _ := report_prog id in pret (JSON BOk)).

Definition status_prog (now : Time) (id : string) (ident : option Identity) (success : option bool) : routine St Reply :=
  onJob_prog id ident (fun i =>
    if negb (HasScope i ScopeStatusWrite) then pret (HttpError 403 "missing scope status:write")
    else match success with
         | None => pret (HttpError 400 "malformed result")
         | Some b => project_and_report_prog now id (if b then PhaseSucceeded else PhaseFailed)
         end).

Definition observed_prog (now : Time) (id : string) (ident : option Identity) (phase : option ObservedPhase)
    : routine St Reply :=
  if bool_decide (id = "") then pret (HttpError 400 "missing job run id")
  else match ident with
       | None => pret (HttpError 401 "missing identity")
       | Some i =>
           match AuthorizeObservation i id with
           | Ok _ => match phase with
                     | None => pret (HttpError 400 "malformed body")
                     | Some ph => project_and_report_prog now id ph
                     end
           | _ => pret (HttpError 403 "identity may not observe this job run")
           end
       end.

Definition auth_prog {E} (verify : string → outcome E Identity) (header : string)
    (next : option Identity → routine St Reply) : routine St Reply :=
  if negb (has_prefix header "Bearer ") then pret (HttpError 401 "missing bearer token")
  else match verify (trim_prefix header "Bearer ") with
       | Err _ => pret (HttpError 401 "invalid token")
       | Panic => Done Panic
       | Ok ident => next (Some ident)
       end.

(** The other endpoints read one plan, or records that never change (the run of
    a job, the event of a run), or make one call of the secret store: one step. *)
Definition serve_prog {E} (verify : string → outcome E Identity) (now : Time) (header : string) (e : Endpoint)
    : routine St Reply :=
  match e with
  | ESecrets id req => auth_prog verify header (fun i => secrets_prog id i req)
  | EStatus id success => auth_prog verify header (fun i => status_prog now id i success)
  | EObserved id phase => auth_prog verify header (fun i => observed_prog now id i phase)
  | _ => act (serve base hasSecretStore SecretValues S3 verify now header e)
  end.

Lemma resolve_computes rs out : computes (resolve_prog rs out) (resolve_secrets hasSecretStore SecretValues rs out).
Proof.
  revert out. induction rs as [|r rs IH]; intros out; simpl; [done|].
  apply computes_bind; [apply computes_act|]. apply IH.
Qed.

Lemma report_computes id : computes (report_prog id) (onServer (reportCheck base id)).
Proof. apply report_alone. Qed.

Lemma onJob_computes id ident (k : Identity → routine St Reply) g :
  (∀ i, computes (k i) (g i)) → computes (onJob_prog id ident k) (onJob id ident g).
Proof. intros Hk. unfold onJob_prog, onJob. by destruct (jobFromPath id ident). Qed.

Lemma project_and_report_computes now id phase :
  computes (project_and_report_prog now id phase) (project_and_report base now id phase).
Proof.
  apply orReply_computes; [apply actV_alone|]. intros _. by apply computes_bind; [apply report_computes|].
Qed.

Lemma secrets_computes id ident req :
  computes (secrets_prog id ident req) (handleSecrets hasSecretStore SecretValues id ident req).
Proof.
  apply onJob_computes. intros i. destruct (negb _); [done|]. destruct req as [requested|]; [|done].
  apply orReply_computes; [apply computes_act|]. intros p [v x]. rewrite run_pbind. unfold mbind.
  rewrite actV_alone. unfold onServer. simpl.
  rewrite (computes_bind _ _ _ (fun out => ok_reply (BSecrets out)) (resolve_computes _ _)); [done|]. by intros out s.
Qed.

Lemma status_computes now id ident b : computes (status_prog now id ident b) (handleStatus base now id ident b).
Proof.
  apply onJob_computes. intros i. destruct (negb _); [done|]. destruct b; [apply project_and_report_computes|done].
Qed.

Lemma observed_computes now id ident phase :
  computes (observed_prog now id ident phase) (handleObserved base now id ident phase).
Proof.
  unfold observed_prog, handleObserved. case_bool_decide; [done|]. destruct ident as [i|]; [|done].
  destruct (AuthorizeObservation i id); [|done..]. destruct phase; [apply project_and_report_computes|done].
Qed.

Lemma auth_computes {E} (verify : string → outcome E Identity) header (k : option Identity → routine St Reply) g :
  (∀ i, computes (k i) (g i)) → computes (auth_prog verify header k) (auth verify header g).
Proof. intros Hk. unfold auth_prog, auth. destruct (negb _); [done|]. by destruct (verify _). Qed.

Lemma serve_computes {E} (verify : string → outcome E Identity) now header e :
  computes (serve_prog verify now header e) (serve base hasSecretStore SecretValues S3 verify now header e).
Proof.
  destruct e; try apply computes_act; apply auth_computes; intros i;
    [apply secrets_computes|apply status_computes|apply observed_computes].
Qed.

(** ** The system *)

Context {E : Type} (load : RepositoryRef → string → outcome string (list WorkflowFile))
  (unmarshal : string → outcome string Node) (fetch : option ActionFetcher) (verify : string → outcome E Identity).

(** What a goroutine is started for: a delivery (from the webhook or a tick of
    the schedules), a rerequest, or a request to the internal API. *)
Inductive call :=
  | CDeliver (now : Time) (d : Delivery)
  | CRerequest (now : Time) (id : JobRunID)
  | CServe (now : Time) (header : string) (e : Endpoint).

Inductive answer :=
  | ADelivered (r : RunID * bool * option error)
  | ARerequested (id : JobRunID)
  | AReply (r : Reply).

Definition call_prog (c : call) : routine St answer :=
  match c with
  | CDeliver now d => plet r := deliver_prog load unmarshal fetch now d in pret (ADelivered r)
  | CRerequest now id => plet r := rerequest_prog now id in pret (ARerequested r)
  | CServe now header e => plet r := serve_prog verify now header e in pret (AReply r)
  end.

(** The handlers, one at a time. *)
Definition call_handler (c : call) : M St answer :=
  match c with
  | CDeliver now d => let* r := onServer (ServerIngest base load unmarshal fetch now d) in mret (ADelivered r)
  | CRerequest now id => let* r := onServer (Rerequest base now id) in mret (ARerequested r)
  | CServe now header e =>
      let* r := serve base hasSecretStore SecretValues S3 verify now header e in mret (AReply r)
  end.

(** A goroutine is the handler cut into its atomic operations: for every
    delivery, rerequest and request to the internal API, and from every state, the
    thread that is run without interruption ends in the same state with the same
    answer, error or panic as the handler. *)
Theorem threads_run_the_handlers c s : run (call_prog c) s = call_handler c s.
Proof.
  revert s. change (computes (call_prog c) (call_handler c)).
  destruct c; (apply computes_bind; [|done]);
    [apply deliver_alone|apply rerequest_alone|apply serve_computes].
Qed.
End programs.

(** ** The loops of [StartLoops] *)

Inductive loop_event := AtTick (now : Time) | CtxDone.

(** A loop runs its body at every tick until the context is done; the error of a
    tick is logged and the loop goes on. *)
Fixpoint ticker_loop {S} (body : Time → M S (option error)) (ts : list loop_event) : M S (list error) :=
  match ts with
  | [] | CtxDone :: _ => mret []
  | AtTick now :: ts' =>
      let* err := body now in
      let* errs := ticker_loop body ts' in
      mret (match err with Some e => e :: errs | None => errs end)
  end.

(** The error of an operation as a result. *)
Definition logged {S Y} (m : M S Y) : M S (option error) := fun s =>
  match m s with
  | (s', Ok _) => (s', Ok None)
  | (s', Err e) => (s', Ok (Some e))
  | (s', Panic) => (s', Panic)
  end.

Section loops.
Context `{Unicode} `{FloatText} `{JSONText} `{IntConv} `{MapRange} `{PlanDigest} `{EventJSON}.
Context {D A : Type} `{DurableStore D} `{ActiveExecutionStore A} (base : string).

Definition dispatch_tick (fuel : nat) (now : Time) : M (server D A) (option error) :=
  let* (_, err) := DispatchOnce base fuel now in mret err.

Definition collect_tick (now : Time) : M (server D A) (option error) := logged (CollectOnce now).

(** The bodies of the loops it starts; the last one only with schedules. *)
Definition StartLoops (fuel : nat) (schedule_tick : option (Time → M (server D A) (option error)))
    : list (Time → M (server D A) (option error)) :=
  [dispatch_tick fuel; collect_tick] ++ match schedule_tick with Some body => [body] | None => [] end.
End loops.
