(* ===== verification/ServerSystem.v ===== *)
(** * The server under concurrency

    The goroutines of [ServerThreads] and the loops of [StartLoops], interleaved
    operation by operation in every order, over the in-memory stores.  The loops,
    and whatever else only works on the stores, are the rule [ambient];
    [loop_ambient] shows that their ticks consist of such steps.  The invariant is
    that a trust level on record is the level of the delivery behind the job; a
    thread that has stored a plan owes the level, in the sense of [Threads.safe],
    until it has written it.  At the end, schedules on which the order matters. *)

From S2P Require Import Prelude GoStrings GoFloat RunModel SchedulerPort MemoryStore StoreInvariant StoreOps StoreLifecycle Scheduler SchedulerMemory.
From S2P Require Import Syntax SyntaxTheorems Compiler ExprSyntax ExprEval Identity Authorization Plans Reports ObjectStore.
From S2P Require Import Server ServerConditions ServerPlans ServerApi ServerApiTheorems Threads ServerThreads.

Local Open Scope go_scope.

(** ** The state of the server, and how it may change *)

Section system.
Context `{Unicode} `{FloatText} `{JSONText} `{IntConv} `{MapRange} `{PlanDigest} `{EventJSON} `{Sha256}.
Context `{MemoryEnv} `{!MemoryEnvOk} {A X E : Type} `{ActiveExecutionStore A} `{SecretStore X}.
Context (base : string) (hasStore : bool) (dev : gmap string string) (s3 : option ObjectClient).
Context (load : RepositoryRef → string → outcome string (list WorkflowFile))
  (unmarshal : string → outcome string Node) (fetch : option ActionFetcher) (verify : string → outcome E Identity).
(** What the provider sends under a delivery's key: a redelivery repeats it. *)
Context (sent : DeliveryKey → Delivery).
(** In strict mode a job is rerequested only once its trust level is known. *)
Context (strict : bool).

Abbreviation St := (server store A * X)%type.

Record grows (s s' : St) : Prop := {
  gr_jobs : jobs_le (sdurable (fst s)) (sdurable (fst s'));
  gr_runs : runs_keep (sdurable (fst s)) (sdurable (fst s'));
  gr_plans : ∀ id, is_Some (splans (fst s) !! id) → is_Some (splans (fst s') !! id);
  gr_trust : strust (fst s) ⊆ strust (fst s')
}.

#[export] Instance grows_preorder : PreOrder grows.
Proof.
  split; [by intros s; split|]. intros s1 s2 s4 [] [].
  split; [by etrans|by etrans|by eauto|by etrans].
Qed.

(** [t] is the level of the delivery that started the run of the job. *)
Definition trust_of_run (v : server store A) (id : JobRunID) (t : TrustLevel) : Prop :=
  ∃ j run, jobs (sdurable v) !! id = Some j ∧ runs (sdurable v) !! JRunID j = Some run ∧
    t = trustFor (sent (RDelivery run)).

Record server_inv (s : St) : Prop := {
  si_wf : store_wf (sdurable (fst s));
  si_trust : ∀ id t, strust (fst s) !! id = Some t → trust_of_run (fst s) id t;
  si_plans : ∀ id p, splans (fst s) !! id = Some p → PJobRunID p = id ∧ is_Some (jobs (sdurable (fst s)) !! id)
}.

Lemma trust_of_run_unique v id t t' : trust_of_run v id t → trust_of_run v id t' → t = t'.
Proof. intros (j & run & Hj & Hr & ->) (j' & run' & Hj' & Hr' & ->). congruence. Qed.

Lemma trust_of_run_grows (s s' : St) id t : grows s s' → trust_of_run (fst s) id t → trust_of_run (fst s') id t.
Proof.
  intros [Hj Hr _ _] (j & run & Hjob & Hrun & ->). destruct (Hj id j Hjob) as (j' & Hjob' & Hle).
  destruct (Hr _ _ Hrun) as (run' & Hrun' & E'). exists j', run'. rewrite (le_run _ _ Hle), E'. by split_and!.
Qed.

Lemma job_grows (s s' : St) id : grows s s' → is_Some (jobs (sdurable (fst s)) !! id) → is_Some (jobs (sdurable (fst s')) !! id).
Proof. intros [Hj _ _ _] [j Hjob]. destruct (Hj id j Hjob) as (j' & ? & _). by eexists. Qed.

(** A job that can be executed although nobody knows where it comes from. *)
Definition unclassified (s : St) (id : JobRunID) : Prop :=
  strict = true ∧ is_Some (splans (fst s) !! id) ∧ strust (fst s) !! id = None.

(** *** Operations that leave plans and trust alone *)

Record quiet (s s' : St) : Prop := {
  qu_wf : store_wf (sdurable (fst s'));
  qu_grows : grows s s';
  qu_plans : splans (fst s') = splans (fst s);
  qu_trust : strust (fst s') = strust (fst s)
}.

Lemma quiet_inv s s' : server_inv s → quiet s s' →
  server_inv s' ∧ grows s s' ∧ ∀ id, unclassified s' id → unclassified s id.
Proof.
  intros [Hwf Ht Hp] [Hwf' Hg Ep Et]. split_and!; [|done|].
  - split; [done| |].
    + intros id t. rewrite Et. intros Hid. eapply trust_of_run_grows; [exact Hg|auto].
    + intros id p. rewrite Ep. intros Hid. destruct (Hp id p Hid) as [? Hj]. split; [done|]. by eapply job_grows.
  - intros id. unfold unclassified. by rewrite Ep, Et.
Qed.

Lemma quiet_same s s' : store_wf (sdurable (fst s)) → sdurable (fst s') = sdurable (fst s) →
  splans (fst s') = splans (fst s) → strust (fst s') = strust (fst s) → quiet s s'.
Proof.
  intros Hwf Ed Ep Et. split; [by rewrite Ed| |done|done].
  split; [by rewrite Ed|by rewrite Ed|by rewrite Ep|by rewrite Et].
Qed.

Lemma quiet_store o (v : server store A) (x : X) :
  store_wf (sdurable v) → quiet (v, x) (with_sdurable (exec o (sdurable v)) v, x).
Proof.
  intros Hwf. destruct (exec_wf_le o _ Hwf) as [Hwf' Hle].
  split; [done| |done|done]. split; [done|by apply exec_runs_keep|done|done].
Qed.

Lemma quiet_exec {Y} (m : M store Y) o (s : St) :
  (∀ st, fst (m st) = exec o st) → server_inv s → quiet s (fst (onServer (onD m) s)).
Proof.
  intros Hm Hinv. destruct s as [v x]. unfold onServer, onD. simpl. specialize (Hm (sdurable v)).
  destruct (m (sdurable v)) as [d r]. simpl in *. subst d. by apply quiet_store, (si_wf _ Hinv).
Qed.

(** What a loop, or a request to another endpoint, does besides: operations of
    the stores, reports, other sealed secrets. *)
Inductive ambient : St → St → Prop :=
  | amb_store o v x : ambient (v, x) (with_sdurable (exec o (sdurable v)) v, x)
  | amb_active a v x : ambient (v, x) (with_stores (sdurable v, a) v, x)
  | amb_reports l v x : ambient (v, x) (with_sreports l v, x)
  | amb_secrets v x x' : ambient (v, x) (v, x').

Lemma ambient_quiet s s' : server_inv s → ambient s s' → quiet s s'.
Proof.
  intros Hinv Ha. pose proof (si_wf _ Hinv) as Hwf.
  destruct Ha; [by apply quiet_store|by apply quiet_same..].
Qed.

Lemma ambient_safe s s' : server_inv s → ambient s s' →
  server_inv s' ∧ grows s s' ∧ ∀ id, unclassified s' id → unclassified s id.
Proof. intros Hinv Ha. by eapply quiet_inv, ambient_quiet. Qed.

(** *** Safe threads *)

Abbreviation safe_thread := (safe server_inv grows unclassified).
Abbreviation any := (λ _ _, True).

(** An operation of the first kind, and what follows it. *)
Lemma safe_quiet {Y Z} (Q : outcome error Z → St → Prop) (m : M St Y) (f : Y → routine St Z) s :
  (∀ s', grows s s' → server_inv s' → quiet s' (fst (m s'))) →
  (∀ s' y, grows s s' → server_inv s' → snd (m s') = Ok y → grows s' (fst (m s')) → server_inv (fst (m s')) →
     safe_thread Q ∅ (f y) (fst (m s'))) →
  (∀ e s', Q (Err e) s') → (∀ s', Q Panic s') →
  safe_thread Q ∅ (pbind (act m) f) s.
Proof.
  intros Hq Hf He Hp s' Hle Hinv. specialize (Hq s' Hle Hinv). specialize (Hf s').
  destruct (m s') as [s'' r] eqn:Em. simpl in *.
  destruct (quiet_inv _ _ Hinv Hq) as (Hinv' & Hle' & Hgap). split_and!; [done..|]. exists ∅.
  split; [intros id Hid; left; split; [auto|set_solver]|]. destruct r as [y|e|]; simpl; auto.
Qed.

(** A thread part that may end anyhow, and what follows it. *)
Lemma safe_seq {Y Z} (Q : outcome error Z → St → Prop) (p : routine St Y) (f : outcome error Y → routine St Z) s :
  server_inv s → safe_thread any ∅ p s →
  (∀ r s', grows s s' → server_inv s' → safe_thread Q ∅ (f r) s') →
  safe_thread Q ∅ (pthen p f) s.
Proof.
  intros Hinv Hp Hf. apply (safe_pthen server_inv grows unclassified); [|done]. eapply (safe_weaken server_inv grows unclassified); [|exact Hp]. intros r s' Hle Hinv' _. by apply Hf.
Qed.

Lemma safe_done {Z} (r : outcome error Z) s : safe_thread any ∅ (Done r) s.
Proof. done. Qed.

Lemma quiet_read {Y} (m : M store Y) (s : St) :
  (∀ st, fst (m st) = st) → server_inv s → quiet s (fst (onServer (onD m) s)).
Proof.
  intros Hm Hinv. destruct s as [v x]. unfold onServer, onD. simpl. specialize (Hm (sdurable v)).
  destruct (m (sdurable v)) as [d r]. simpl in *. subst d. by apply quiet_same; [apply (si_wf _ Hinv)|..].
Qed.

Lemma GetJobRun_reads id (st : store) : fst (mem_GetJobRun id st) = st.
Proof. unfold mem_GetJobRun. by destruct (jobs st !! id). Qed.

Lemma GetRun_reads id (st : store) : fst (mem_GetRun id st) = st.
Proof. unfold mem_GetRun, getRunLocked. by destruct (runs st !! id). Qed.

Lemma safe_act {Y} (m : M St Y) s :
  (∀ s', grows s s' → server_inv s' → quiet s' (fst (m s'))) → safe_thread any ∅ (act m) s.
Proof.
  intros Hq s' Hle Hinv. specialize (Hq s' Hle Hinv). destruct (m s') as [s'' r]. simpl in *.
  destruct (quiet_inv _ _ Hinv Hq) as (Hinv' & Hle' & Hgap). split_and!; [done..|]. exists ∅.
  split; [|by split]. intros id Hid. left. split; [auto|set_solver].
Qed.

Lemma append_quiet run job (s : St) : server_inv s → quiet s (fst (onServer (append_report base run job) s)).
Proof.
  intros Hinv. destruct s as [v x]. unfold onServer, append_report. simpl.
  destruct (MapJobRun job base); by apply quiet_same; [apply (si_wf _ Hinv)|..].
Qed.

Lemma report_safe id s : server_inv s → safe_thread any ∅ (report_prog base id) s.
Proof.
  intros Hinv. unfold report_prog, pignore. apply safe_seq; [done| |by intros [] s' _ _].
  apply safe_quiet; [|intros s1 job _ _ _ _ Hinv1|done..].
  { intros s1 _ Hinv1. apply quiet_read; [apply GetJobRun_reads|done]. }
  apply safe_quiet; [|intros s2 run _ _ _ _ Hinv2|done..].
  { intros s2 _ Hinv2. apply quiet_read; [apply GetRun_reads|done]. }
  apply safe_act. intros s4 _ Hinv4. by apply append_quiet.
Qed.

Lemma fst_mapErr {S Y} g (m : M S Y) st : fst (mapErr g m st) = fst (m st).
Proof. unfold mapErr. by destruct (m st) as [st' [y|e|]]. Qed.

Lemma snd_mapErr {S Y} g (m : M S Y) st y : snd (mapErr g m st) = Ok y → snd (m st) = Ok y.
Proof. unfold mapErr. by destruct (m st) as [st' [y'|e|]]. Qed.

Lemma onD_result {Y} (m : M store Y) (s : St) :
  sdurable (fst (fst (onServer (onD m) s))) = fst (m (sdurable (fst s))) ∧
  snd (onServer (onD m) s) = snd (m (sdurable (fst s))).
Proof. destruct s as [v x]. unfold onServer, onD. simpl. by destruct (m (sdurable v)). Qed.

Lemma onServer_mapErr {Y} g (m : M (server store A) Y) (s : St) : fst (onServer (mapErr g m) s) = fst (onServer m s).
Proof. destruct s as [v x]. unfold onServer, mapErr. simpl. by destruct (m v) as [v' [y|e|]]. Qed.

Lemma project_quiet now id phase (s : St) : server_inv s → quiet s (fst (onServer (projectObserved now id phase) s)).
Proof. intros Hinv. apply (quiet_exec _ (OpApplyObserved id phase now)); [|done]. intros st. apply fst_mapErr. Qed.

(** *** Ingestion *)

Definition run_of (d : Delivery) (v : server store A) (r : RunID) : Prop :=
  ∃ run, runs (sdurable v) !! r = Some run ∧ RDelivery run = DKey d.

Lemma run_of_grows d (s s' : St) r : grows s s' → run_of d (fst s) r → run_of d (fst s') r.
Proof. intros [_ Hr _ _] (run & Hrun & E'). destruct (Hr _ _ Hrun) as (run' & ? & ?). exists run'. split; [done|congruence]. Qed.

Lemma ingest_safe compile now d s : server_inv s →
  safe_thread (λ r s', ∀ runID, r = Ok (runID, true) → run_of d (fst s') runID) ∅ (ingest_prog compile now d) s.
Proof.
  intros Hinv. unfold ingest_prog, actD, actV. apply safe_quiet; [| |done..].
  { intros s1 _ Hinv1. apply (quiet_exec _ (OpRecordDelivery d)); [|done]. intros st. apply fst_mapErr. }
  intros s1 [rec b] _ _ _ _ Hinv1. case_bool_decide; [by split|]. destruct (compile _ _) as [js|e|]; [|by split..].
  destruct (firstInvalid js); [by split|]. case_bool_decide; [by split|].
  set (seed := Build_RunSeed _ _ _). apply safe_quiet; [| |done..].
  { intros s2 _ Hinv2. apply (quiet_exec _ (OpCreateRun seed now)); [|done]. intros st. apply fst_mapErr. }
  intros s2 [run created] _ _ Hres _ _. destruct (onD_result (mapErr (ErrWrap "create run for delivery") (CreateRun seed now)) s2) as [Ed Er].
  rewrite Er in Hres. apply snd_mapErr in Hres. rewrite fst_mapErr in Ed.
  change (@CreateRun store memory_durable_store) with mem_CreateRun in *. split; [done|].
  intros s4 Hle _ runID [= <- ->]. eapply run_of_grows; [exact Hle|]. unfold run_of. rewrite Ed.
  exists run. destruct (mem_CreateRun seed now (sdurable (fst s2))) as [st res] eqn:Ec. simpl in Hres. subst res.
  by apply (created_run seed now _ _ _ Ec).
Qed.

(** *** Plans and trust levels *)

Lemma put_plan_step p (s : St) :
  server_inv s → is_Some (jobs (sdurable (fst s)) !! PJobRunID p) →
  let out := onServer (put_plan p) s in
  server_inv (fst out) ∧ grows s (fst out) ∧
  (∀ id, unclassified (fst out) id → unclassified s id ∨ (snd out = Ok tt ∧ id = PJobRunID p)).
Proof.
  intros [Hwf Ht Hp] Hjob. destruct s as [v x]. unfold onServer, put_plan. simpl in *.
  destruct (PutPlan p (splans v)) as [ps|e|] eqn:Eput; simpl; [|split_and!; [done..|by left]|split_and!; [done..|by left]].
  split_and!.
  - split; simpl; [done|done|]. intros id q. rewrite (put_lookup _ _ _ id Eput).
    case_decide as Hid; [|apply Hp]. intros [= <-]. by subst.
  - split; simpl; [done|done| |done]. intros id Hs. rewrite (put_lookup _ _ _ id Eput). case_decide; [by eexists|done].
  - intros id (Hst & Hs & Hn). simpl in *. rewrite (put_lookup _ _ _ id Eput) in Hs. case_decide; [by right|by left].
Qed.

Lemma set_trust_step id t (s : St) :
  server_inv s → trust_of_run (fst s) id t →
  let s' := fst (onServer (set_trust id t) s) in
  server_inv s' ∧ grows s s' ∧ (∀ id', unclassified s' id' → unclassified s id' ∧ id' ≠ id).
Proof.
  intros [Hwf Ht Hp] Hid. destruct s as [v x]. simpl in *. split_and!.
  - split; simpl; [done| |done]. intros id' t'. rewrite lookup_insert. case_decide as He; [|apply Ht].
    intros [= <-]. by subst id'.
  - split; simpl; [done..|]. destruct (strust v !! id) as [t'|] eqn:Et; [|by apply insert_subseteq].
    rewrite (trust_of_run_unique _ _ _ _ Hid (Ht _ _ Et)). by rewrite insert_id.
  - intros id' (Hst & Hs & Hn). simpl in *. rewrite lookup_insert in Hn. case_decide; [done|]. split; [|done]. by split_and!.
Qed.

Lemma store_plan_safe ev trust rec inst s :
  server_inv s → trust_of_run (fst s) (JID rec) trust →
  safe_thread any ∅ (store_plan_prog base fetch ev trust rec inst) s.
Proof.
  intros Hinv Htr. unfold store_plan_prog. destruct (buildPlan fetch rec ev inst) as [p|e|] eqn:Ep; [|done..].
  assert (PJobRunID p = JID rec) as Hid.
  { unfold buildPlan in Ep. destruct (split_secrets _ _ _). destruct (plan_all _ _ _ _) as [[? ?]|?|]; [|done..].
    by injection Ep as <-. }
  intros s1 Hle1 Hinv1. pose proof (trust_of_run_grows _ _ _ _ Hle1 Htr) as Htr1.
  destruct (put_plan_step p s1 Hinv1) as (Hinv2 & Hle2 & Hgap2).
  { rewrite Hid. destruct Htr1 as (j & _ & Hj & _). by eexists. }
  destruct (onServer (put_plan p) s1) as [s2 r]. simpl in *. split_and!; [done..|]. destruct r as [[]|e|].
  2, 3: exists ∅; split; [|done]; intros id Hg; destruct (Hgap2 id Hg) as [?|[? _]]; [|done]; left; split; [done|set_solver].
  exists {[JID rec]}. split.
  { intros id Hg. destruct (Hgap2 id Hg) as [?|[_ ->]]; [left; split; [done|set_solver]|right; set_solver]. }
  intros s4 Hle4 Hinv4. pose proof (trust_of_run_grows _ _ _ _ (transitivity Hle2 Hle4) Htr1) as Htr4.
  destruct (set_trust_step (JID rec) trust s4 Hinv4 Htr4) as (Hinv5 & Hle5 & Hgap5).
  destruct (onServer (set_trust (JID rec) trust) s4) as [s5 r] eqn:E5. injection E5 as E5 <-. simpl in *.
  split_and!; [done..|]. exists ∅. split; [|by apply report_safe].
  intros id Hg. left. destruct (Hgap5 id Hg). split; [done|set_solver].
Qed.

Lemma plan_job_safe now ev trust insts rs rec s :
  server_inv s → trust_of_run (fst s) (JID rec) trust →
  safe_thread any ∅ (plan_job_prog base fetch now ev trust insts rs rec) s.
Proof.
  intros Hinv Htr. unfold plan_job_prog. destruct (find _ _) as [inst|]; [|done].
  destruct (_ && _); [|by apply store_plan_safe].
  destruct (EvaluateCondition _ _) as [[]|e|]; [by apply store_plan_safe| |done..].
  apply safe_quiet; [|intros s1 _ _ _ _ _ Hinv1; by apply report_safe|done..].
  intros s1 _ Hinv1. rewrite onServer_mapErr. by apply project_quiet.
Qed.

Lemma plan_jobs_safe now ev trust insts rs todo s :
  server_inv s → (∀ rec, rec ∈ todo → trust_of_run (fst s) (JID rec) trust) →
  safe_thread any ∅ (plan_jobs_prog base fetch now ev trust insts rs todo) s.
Proof.
  revert s. induction todo as [|rec todo IH]; intros s Hinv Htr; simpl; [done|].
  apply safe_seq; [done|apply plan_job_safe; [done|apply Htr; left]|].
  intros [[]|e|] s1 Hle Hinv1; [|done..]. apply IH; [done|]. intros rec' Hin.
  eapply trust_of_run_grows; [exact Hle|]. apply Htr. by right.
Qed.

Lemma ListJobRuns_reads r (st : store) : fst (mem_ListJobRuns r st) = st.
Proof. unfold mem_ListJobRuns. by destruct (runs st !! r). Qed.

(** The records of a run, as they are listed, take the level of its delivery. *)
Lemma listed_trust d (s : St) runID l :
  server_inv s → run_of d (fst s) runID → sent (DKey d) = d →
  snd (mem_ListJobRuns runID (sdurable (fst s))) = Ok l →
  ∀ rec, rec ∈ l → trust_of_run (fst s) (JID rec) (trustFor d).
Proof.
  intros [Hwf _ _] (run & Hrun & Hd) Hsent. unfold mem_ListJobRuns. rewrite Hrun. intros [= <-] rec Hin.
  change @map with @list_fmap in Hin. apply list_elem_of_fmap in Hin as (id & -> & Hid).
  destruct (run_job_lookup _ _ _ (wf_base _ Hwf) Hid) as (j & Hj & Hr).
  rewrite (getJob_Some _ _ _ Hj), (wf_job_id _ (wf_base _ Hwf) _ _ Hj). exists j, run.
  rewrite Hr, Hd, Hsent. by split_and!.
Qed.

Lemma build_plans_safe now jobs d runID s :
  server_inv s → run_of d (fst s) runID → sent (DKey d) = d →
  safe_thread any ∅ (build_plans_prog base fetch now jobs d runID (trustFor d)) s.
Proof.
  intros Hinv Hrun Hsent. unfold build_plans_prog. destruct jobs as [insts|e|]; [|done..].
  apply safe_quiet; [|intros s1 [] Hle1 _ _ Hle2 Hinv2|done..].
  { intros [v x] _ Hinv1. by apply quiet_same; [apply (si_wf _ Hinv1)|..]. }
  set (s2 := fst (onServer _ s1)) in *. assert (run_of d (fst s2) runID) as Hrun2
    by (eapply run_of_grows; [exact Hle2|]; by eapply run_of_grows).
  apply safe_quiet; [|intros s4 l Hle4 Hinv4 Hl _ Hinv5|done..].
  { intros s4 _ Hinv4. rewrite onServer_mapErr. apply quiet_read; [apply ListJobRuns_reads|done]. }
  assert (snd (mem_ListJobRuns runID (sdurable (fst s4))) = Ok l) as Hlist.
  { destruct s4 as [v x]. unfold onServer, mapErr, onD in Hl. simpl in *. by destruct (mem_ListJobRuns _ _) as [st [?|?|]]. }
  pose proof (listed_trust d s4 runID l Hinv4 (run_of_grows _ _ _ _ Hle4 Hrun2) Hsent Hlist) as Htr.
  apply plan_jobs_safe; [done|]. intros rec Hin.
  eapply trust_of_run_grows; [|by apply Htr].
  eapply quiet_inv; [exact Hinv4|]. rewrite onServer_mapErr. apply quiet_read; [apply ListJobRuns_reads|done].
Qed.

Lemma deliver_safe now d s :
  server_inv s → sent (DKey d) = d → safe_thread any ∅ (deliver_prog base load unmarshal fetch now d) s.
Proof.
  intros Hinv Hsent. unfold deliver_prog, pbind at 1. apply (safe_pthen server_inv grows unclassified); [|done].
  eapply (safe_weaken server_inv grows unclassified); [|by apply ingest_safe].
  intros [[runID created]|e|] s1 Hle Hinv1 Hpost; [|done..]. destruct (_ || _) eqn:Eb; [done|].
  destruct created; [|by rewrite orb_true_r in Eb].
  apply safe_seq; [done|apply build_plans_safe; [done|by apply Hpost|done]|]. by intros [] s2 _ _.
Qed.

(** *** Rerequests *)

Definition same_run (v : server store A) (id n : JobRunID) : Prop :=
  ∃ j j', jobs (sdurable v) !! id = Some j ∧ jobs (sdurable v) !! n = Some j' ∧ JRunID j' = JRunID j.

Lemma same_run_grows (s s' : St) id n : grows s s' → same_run (fst s) id n → same_run (fst s') id n.
Proof.
  intros [Hj _ _ _] (j & j' & Hid & Hn & Hr). destruct (Hj _ _ Hid) as (k & Hk & Hle). destruct (Hj _ _ Hn) as (k' & Hk' & Hle').
  exists k, k'. rewrite (le_run _ _ Hle), (le_run _ _ Hle'). by split_and!.
Qed.

Lemma same_run_trust (v : server store A) id n t : same_run v id n → trust_of_run v id t → trust_of_run v n t.
Proof. intros (j & j' & Hid & Hn & Hr) (j0 & run & Hj0 & Hrun & ->). exists j', run. simplify_eq. rewrite Hr. by split_and!. Qed.

Lemma rerequested_same_run id now (s : St) n :
  server_inv s → snd (onServer (onD (RerequestJob id now)) s) = Ok n →
  same_run (fst (fst (onServer (onD (RerequestJob id now)) s))) id n.
Proof.
  intros Hinv Hres. destruct (onD_result (RerequestJob id now) s) as [Ed Er]. rewrite Er in Hres.
  unfold same_run. rewrite Ed. change (@RerequestJob store _) with mem_RerequestJob in *.
  pose proof (RerequestJob_wf_le id now _ (si_wf _ Hinv)) as [_ Hle].
  destruct (mem_RerequestJob id now (sdurable (fst s))) as [st r] eqn:Em. simpl in *. subst r.
  destruct (rerequested_job _ _ _ _ _ (si_wf _ Hinv) Em) as (j & j' & Hj & Hj' & Hr).
  destruct (Hle _ _ Hj) as (k & Hk & Hkle). exists k, j'. rewrite (le_run _ _ Hkle). by split_and!.
Qed.

(** Copying the trust level settles what copying the plan opened. *)
Lemma copy_trust_safe id n s (p : routine St JobRunID) O :
  (strict = true → is_Some (strust (fst s) !! id)) → same_run (fst s) id n → O ⊆ {[n]} →
  (∀ s', grows s s' → server_inv s' → safe_thread any ∅ p s') →
  safe_thread any O (plet _ := actV (copy_trust id n) in p) s.
Proof.
  intros Hst Hrun HO Hp s1 Hle1 Hinv1. pose proof (same_run_grows _ _ _ _ Hle1 Hrun) as Hrun1.
  unfold onServer, copy_trust. destruct (strust (fst s1) !! id) as [t|] eqn:Et.
  - pose proof (same_run_trust _ _ _ _ Hrun1 (si_trust _ Hinv1 _ _ Et)) as Htr.
    destruct (set_trust_step n t s1 Hinv1 Htr) as (Hinv2 & Hle2 & Hgap).
    unfold onServer in *. destruct (set_trust n t (fst s1)) as [v r] eqn:Es. injection Es as Es <-. simpl in *.
    split_and!; [done..|]. exists ∅. split; [|apply Hp; [by etrans|done]].
    intros id' Hg. left. destruct (Hgap id' Hg). split; [done|set_solver].
  - assert ((fst s1, snd s1) = s1) as -> by (by destruct s1). split_and!; [done..|]. exists ∅.
    split; [|by apply Hp]. intros id' (Hstrict & _ & _). destruct (Hst Hstrict) as [t Ht].
    pose proof (lookup_weaken _ _ _ _ Ht (gr_trust _ _ Hle1)). congruence.
Qed.

Lemma rerequest_safe now id s :
  server_inv s → (strict = true → is_Some (strust (fst s) !! id)) →
  safe_thread any ∅ (rerequest_prog base now id) s.
Proof.
  intros Hinv Hst. unfold rerequest_prog.
  assert (∀ s', grows s s' → strict = true → is_Some (strust (fst s') !! id)) as Hst'.
  { intros s' Hle Hstrict. destruct (Hst Hstrict) as [t Ht]. exists t. exact (lookup_weaken _ _ _ _ Ht (gr_trust _ _ Hle)). }
  apply safe_quiet; [|intros s1 n Hle1 Hinv1 Hn Hle2 Hinv2|done..].
  { intros s1 _ Hinv1. by apply (quiet_exec _ (OpRerequestJob id now)). }
  pose proof (rerequested_same_run id now s1 n Hinv1 Hn) as Hrun. set (s2 := fst (onServer _ s1)) in *.
  apply safe_quiet; [|intros s4 old Hle4 Hinv4 _ Hle5 Hinv5|done..].
  { intros [v x] _ Hinv4. by apply quiet_same; [apply (si_wf _ Hinv4)|..]. }
  set (s5 := fst (onServer _ s4)) in *.
  assert (grows s s5) as Hle by (etrans; [exact Hle1|]; etrans; [exact Hle2|]; etrans; [exact Hle4|exact Hle5]).
  assert (same_run (fst s5) id n) as Hrun5 by (eapply same_run_grows; [|exact Hrun]; by etrans).
  assert (∀ s', server_inv s' → safe_thread any ∅ (plet _ := report_prog base n in pret n) s') as Hlast.
  { intros s' Hinv'. apply safe_seq; [done|by apply report_safe|]. by intros [[]|e|] s6 _ _. }
  destruct old as [p|]; [|simpl; apply copy_trust_safe; auto; set_solver].
  intros s6 Hle6 Hinv6. pose proof (same_run_grows _ _ _ _ Hle6 Hrun5) as Hrun6.
  destruct (put_plan_step (rename_plan n p) s6 Hinv6) as (Hinv7 & Hle7 & Hgap).
  { destruct Hrun6 as (? & j & _ & Hj & _). by eexists. }
  assert (∀ O, O ⊆ {[n]} → safe_thread any O (plet _ := actV (copy_trust id n) in plet _ := report_prog base n in pret n)
    (fst (onServer (put_plan (rename_plan n p)) s6))) as Hcopy.
  { intros O HO. apply copy_trust_safe; [|by eapply same_run_grows|done|auto].
    apply Hst'. etrans; [exact Hle|]. by etrans. }
  destruct (onServer (put_plan (rename_plan n p)) s6) as [s7 r]. simpl in *. split_and!; [done..|].
  exists (match r with Panic => ∅ | _ => {[n]} end). split.
  - intros id' Hg. destruct (Hgap id' Hg) as [?|[-> ->]]; [left; split; [done|set_solver]|right; simpl; set_solver].
  - by destruct r; [exact (Hcopy _ (reflexivity _))|exact (Hcopy _ (reflexivity _))|].
Qed.

(** *** Requests *)

(** The handler changes sealed secrets at most. *)
Definition keeps_server {Y} (m : M St Y) : Prop := ∀ s, fst (fst (m s)) = fst s.

Lemma keeps_quiet {Y} (m : M St Y) s : keeps_server m → server_inv s → quiet s (fst (m s)).
Proof. intros Hm Hinv. apply quiet_same; [apply (si_wf _ Hinv)|by rewrite Hm..]. Qed.

Lemma keeps_ret {Y} (y : Y) : keeps_server (mret y).
Proof. by intros s. Qed.

Lemma keeps_outcome {Y} (o : outcome string Y) : keeps_server (fromOutcome o).
Proof. by intros s; destruct o. Qed.

Lemma keeps_orReply {Y} (m : M St Y) no k : keeps_server m → (∀ y, keeps_server (k y)) → keeps_server (orReply m no k).
Proof.
  intros Hm Hk s. unfold orReply. specialize (Hm s). destruct (m s) as [s' [y|e|]]; simpl in *; [|done..].
  by rewrite (Hk y s').
Qed.

Lemma keeps_onJob id ident k : (∀ i, keeps_server (k i)) → keeps_server (onJob id ident k).
Proof. intros Hk. unfold onJob. destruct (jobFromPath id ident); [apply keeps_ret|apply Hk]. Qed.

Lemma keeps_onSecrets {Y} (m : M X Y) : keeps_server (onSecrets m).
Proof. intros [v x]. unfold onSecrets. by destruct (m (snd (v, x))). Qed.

Lemma keeps_read {Y} (m : M store Y) : (∀ st, fst (m st) = st) → keeps_server (onServer (onD m)).
Proof.
  intros Hm [v x]. unfold onServer, onD. simpl. specialize (Hm (sdurable v)).
  destruct (m (sdurable v)) as [d r]. simpl in *. subst d. by destruct v.
Qed.

Lemma keeps_getPlan id : keeps_server (getPlan id).
Proof. intros s. by apply keeps_outcome. Qed.

Lemma keeps_with_run id k : (∀ job run, keeps_server (k job run)) → keeps_server (with_run id k).
Proof.
  intros Hk. apply keeps_orReply; [apply keeps_read, GetJobRun_reads|]. intros job.
  apply keeps_orReply; [apply keeps_read, GetRun_reads|]. intros run. apply Hk.
Qed.

Lemma keeps_auth header k : (∀ i, keeps_server (k i)) → keeps_server (auth verify header k).
Proof. intros Hk. unfold auth. destruct (negb _); [done|]. by destruct (verify _). Qed.

#[local] Hint Resolve keeps_ret keeps_outcome keeps_onSecrets keeps_getPlan : forgelet.

Lemma other_endpoints_keep now header e :
  match e with ESecrets _ _ | EStatus _ _ | EObserved _ _ => False | _ => True end →
  keeps_server (serve base hasStore dev s3 verify now header e).
Proof.
  destruct e; intros Hno; try done; cbn [serve]; try (apply keeps_auth; intros i).
  - apply keeps_onJob. intros i'. case_match; [done|]. by apply keeps_orReply; [apply keeps_getPlan|].
  - apply keeps_onJob. intros i'. case_match; [done|]. destruct s3 as [client|]; [|done].
    destruct body as [[key restore]|]; [|done]. case_bool_decide; [done|]. apply keeps_with_run. intros _ run.
    apply keeps_orReply; [apply keeps_outcome|]. intros [hit hitKey].
    apply keeps_orReply; [apply keeps_outcome|]. intros put. destruct hit; [|done].
    by apply keeps_orReply; [apply keeps_outcome|].
  - apply keeps_onJob. intros i'. case_match; [done|]. destruct s3 as [client|]; [|done].
    case_match; [done|]. apply keeps_with_run. intros job run. by apply keeps_orReply; [apply keeps_outcome|].
  - apply keeps_onJob. intros i'. case_match; [done|]. destruct s3 as [client|]; [|done].
    case_match; [done|]. apply keeps_with_run. intros job run. by apply keeps_orReply; [apply keeps_outcome|].
  - unfold handleSecretList. case_match; [done|]. by apply keeps_orReply; [apply keeps_onSecrets|].
  - unfold handleSecretPut. case_match; [done|]. destruct body as [[[scope name] value]|]; [|done].
    case_match; [done|]. by apply keeps_orReply; [apply keeps_onSecrets|].
  - unfold handleSecretDelete. case_match; [done|]. case_match; [done|]. by apply keeps_orReply; [apply keeps_onSecrets|].
Qed.

Lemma keeps_resolve r out : keeps_server (resolve_secret hasStore dev r out).
Proof.
  intros [v x]. unfold resolve_secret, onSecrets. destruct hasStore; [|done]. simpl.
  by destruct (GetSecret _ _ x) as [x' [?|?|]].
Qed.

(** A reply to a request for secrets; [fork]: the job is known to come from a fork. *)
Definition no_secret_of_fork (fork : bool) (r : outcome error Reply) (s : St) : Prop :=
  fork = true → ∀ m, r = Ok (JSON (BSecrets m)) → m = ∅.

Lemma resolve_safe fork rs out s : server_inv s → (fork = true → rs = [] ∧ out = ∅) →
  safe_thread (no_secret_of_fork fork) ∅ (plet o := resolve_prog hasStore dev rs out in pret (JSON (BSecrets o))) s.
Proof.
  revert out s. induction rs as [|r rs IH]; intros out s Hinv Hfork; simpl.
  { split; [done|]. intros s' _ _ Hf m [= <-]. by destruct (Hfork Hf). }
  intros s1 Hle1 Hinv1. pose proof (keeps_quiet _ s1 (keeps_resolve r out) Hinv1) as Hq.
  destruct (resolve_secret hasStore dev r out s1) as [s2 [out'|e|]]; simpl in *;
    destruct (quiet_inv _ _ Hinv1 Hq) as (Hinv2 & Hle2 & Hgap); (split_and!; [done..|]; exists ∅; split;
      [intros id Hid; left; split; [auto|set_solver]|]).
  - apply IH; [done|]. intros Hf. by destruct (Hfork Hf).
  - by split.
  - by split.
Qed.

Lemma safe_orReply {Y} (Q : outcome error Reply → St → Prop) (m : M St Y) no (k : Y → routine St Reply) s :
  keeps_server m → server_inv s → (∀ y s', grows s s' → server_inv s' → safe_thread Q ∅ (k y) s') →
  (∀ s', Q (Ok no) s') → (∀ s', Q Panic s') → safe_thread Q ∅ (orReply_prog (act m) no k) s.
Proof.
  intros Hm Hinv Hk Hno Hp. apply (safe_pthen server_inv grows unclassified); [|done].
  intros s1 Hle1 Hinv1. pose proof (keeps_quiet _ s1 Hm Hinv1) as Hq. destruct (m s1) as [s2 r]. cbn [fst] in Hq.
  destruct (quiet_inv _ _ Hinv1 Hq) as (Hinv2 & Hle2 & Hgap). split_and!; [done..|]. exists ∅.
  split; [intros id Hid; left; split; [auto|set_solver]|]. split; [done|]. intros s4 Hle4 Hinv4.
  destruct r as [y|e|]; [|by split..]. apply Hk; [|done]. etrans; [exact Hle1|]. by etrans.
Qed.

Lemma secrets_safe fork id ident req s :
  server_inv s → (fork = true → strust (fst s) !! id = Some TrustFork) →
  safe_thread (no_secret_of_fork fork) ∅ (secrets_prog hasStore dev id ident req) s.
Proof.
  intros Hinv Hfork. unfold secrets_prog, onJob_prog. destruct (jobFromPath id ident) as [r|i] eqn:Ej.
  { split; [done|]. intros s' _ _ _ m [= ->]. exfalso. revert Ej. unfold jobFromPath. by repeat case_match. }
  destruct (negb _); [by split|]. destruct req as [requested|]; [|by split].
  apply safe_orReply; [apply keeps_getPlan|done| |done..]. intros p s2 Hle2 Hinv2.
  apply safe_quiet; [|intros s4 trust Hle4 Hinv4 Htr _ Hinv5|done..].
  { intros [v x] _ Hinv4. by apply quiet_same; [apply (si_wf _ Hinv4)|..]. }
  apply resolve_safe; [done|]. intros Hf. split; [|done]. unfold onServer in Htr. simpl in Htr. injection Htr as <-.
  assert (strust (fst s4) !! id = Some TrustFork) as Ht.
  { eapply lookup_weaken; [by apply Hfork|]. etrans; [apply (gr_trust _ _ Hle2)|apply (gr_trust _ _ Hle4)]. }
  unfold trust_of. rewrite Ht. simpl. destruct (Allowed _) as [|r l] eqn:Ea; [done|].
  destruct (allowed_elem i requested (planRefs p) TrustFork r) as (_ & _ & Hno & _); [|done]. rewrite Ea. left.
Qed.

Lemma serve_safe now header e s : server_inv s → safe_thread any ∅ (serve_prog base hasStore dev s3 verify now header e) s.
Proof.
  intros Hinv. assert (∀ k, (∀ i, safe_thread any ∅ (k i) s) → safe_thread any ∅ (auth_prog verify header k) s) as Hauth.
  { intros k Hk. unfold auth_prog. destruct (negb _); [done|]. by destruct (verify _). }
  assert (∀ id phase, safe_thread any ∅ (project_and_report_prog base now id phase) s) as Hproject.
  { intros id phase. apply safe_seq; [done|apply safe_act; intros s1 _ Hinv1; by apply project_quiet|].
    intros [[]|e'|] s1 _ Hinv1; [|done..]. apply safe_seq; [done|by apply report_safe|]. by intros [] s2 _ _. }
  destruct e; try (apply safe_act; intros s1 _ Hinv1; apply keeps_quiet; [by apply other_endpoints_keep|done]);
    apply Hauth; intros i.
  - eapply (safe_weaken server_inv grows unclassified); [|by apply (secrets_safe false)]. done.
  - unfold status_prog, onJob_prog. destruct (jobFromPath id i); [done|]. destruct (negb _); [done|].
    destruct success; [apply Hproject|done].
  - unfold observed_prog. case_bool_decide; [done|]. destruct i as [i|]; [|done].
    destruct (AuthorizeObservation i id); [|done..]. destruct phase; [apply Hproject|done].
Qed.

(** ** The system *)

Definition admissible (s : St) (c : call) : Prop :=
  match c with
  | CDeliver _ d => sent (DKey d) = d
  | CRerequest _ id => strict = true → is_Some (strust (fst s) !! id)
  | CServe _ _ _ => True
  end.

Abbreviation call_thread := (call_prog base hasStore dev s3 load unmarshal fetch verify).

Definition starts (s : St) (p : routine St answer) : Prop := ∃ c, p = call_thread c ∧ admissible s c.

Definition system : config St answer → config St answer → Prop := cstep starts ambient.

(** The server as it starts, over empty stores. *)
Definition initial (a : A) (x : X) : config St answer :=
  {| shared := (server_of NewDurableStore a, x); pool := [] |}.

Lemma starts_safe s p : server_inv s → starts s p → safe_thread any ∅ p s.
Proof.
  intros Hinv (c & -> & Hadm). destruct c; simpl in Hadm; unfold call_prog; (apply safe_seq; [done| |by intros [] s' _ _]).
  - by apply deliver_safe.
  - by apply rerequest_safe.
  - by apply serve_safe.
Qed.

Lemma initial_safe a x : pool_safe server_inv grows unclassified (initial a x) [].
Proof.
  split; simpl; [|constructor|by intros id (_ & [? Hp] & _)].
  split; simpl; [apply NewDurableStore_wf|done|done].
Qed.

Lemma system_safe a x c : rtc system (initial a x) c → ∃ Os, pool_safe server_inv grows unclassified c Os.
Proof. apply (csteps_safe _ _ _ _ _ starts_safe ambient_safe _ _ [] (initial_safe a x)). Qed.

(** *** The loops are ambient

    A tick is a sequence of single operations of the stores and of reports, so
    the system's rule for them covers the loops however they interleave. *)

Definition ambient_only {Y} (m : M (server store A) Y) : Prop := ∀ v x, rtc ambient (v, x) (fst (m v), x).

Lemma ambient_bind {Y Z} (m : M (server store A) Y) (k : Y → M (server store A) Z) :
  ambient_only m → (∀ y, ambient_only (k y)) → ambient_only (mbind m k).
Proof.
  intros Hm Hk v x. unfold mbind. specialize (Hm v x). destruct (m v) as [v' [y|e|]]; [|done..].
  etrans; [exact Hm|apply Hk].
Qed.

Lemma ambient_ret {Y} (y : Y) : ambient_only (mret y).
Proof. by intros v x. Qed.

Lemma ambient_const {Y} (r : outcome error Y) : ambient_only (fun s => (s, r)).
Proof. by intros v x. Qed.

Lemma ambient_ignore {Y} (m : M (server store A) Y) : ambient_only m → ambient_only (ignore m).
Proof. intros Hm v x. unfold ignore. specialize (Hm v x). by destruct (m v) as [v' [y|e|]]. Qed.

Lemma ambient_or_else {Y Z} (m : M (server store A) Y) (k : Y → M (server store A) Z) d :
  ambient_only m → (∀ y, ambient_only (k y)) → ambient_only d → ambient_only (or_else m k d).
Proof.
  intros Hm Hk Hd v x. unfold or_else. specialize (Hm v x). destruct (m v) as [v' [y|e|]];
    [etrans; [exact Hm|apply Hk]|etrans; [exact Hm|apply Hd]|done].
Qed.

Lemma ambient_read {Y} (m : M store Y) : (∀ st, fst (m st) = st) → ambient_only (onD m).
Proof.
  intros Hm v x. unfold onD. specialize (Hm (sdurable v)). destruct (m (sdurable v)) as [d r]. simpl in *. subst d.
  by destruct v.
Qed.

Lemma ambient_exec {Y} (m : M store Y) o : (∀ st, fst (m st) = exec o st) → ambient_only (onD m).
Proof.
  intros Hm v x. unfold onD. specialize (Hm (sdurable v)). destruct (m (sdurable v)) as [d r]. simpl in *. subst d.
  apply rtc_once. constructor.
Qed.

Lemma report_ambient id : ambient_only (reportCheck base id).
Proof.
  apply ambient_ignore, ambient_bind; [apply ambient_read, GetJobRun_reads|]. intros job.
  apply ambient_bind; [apply ambient_read, GetRun_reads|]. intros run v x.
  destruct (MapJobRun job base); [apply rtc_once; constructor|done..].
Qed.

Lemma settle_ambient fuel now : ambient_only (evaluateDeferredConditions base fuel now).
Proof.
  assert (∀ run all rec, ambient_only (settle_job base now run all rec)) as Hjob.
  { intros run all rec. unfold settle_job. destruct (_ || _); [apply ambient_ret|]. destruct (negb _); [apply ambient_ret|].
    assert (∀ phase, ambient_only (let* _ := ignore (projectObserved now (JID rec) phase) in
      let* _ := reportCheck base (JID rec) in mret true)) as Hclose.
    { intros phase. apply ambient_bind; [apply ambient_ignore, (ambient_exec _ (OpApplyObserved (JID rec) phase now)); intros st; apply fst_mapErr|].
      intros _. apply ambient_bind; [apply report_ambient|]. intros _. apply ambient_ret. }
    destruct (EvaluateCondition _ _) as [[]|e|];
      [apply ambient_ret|apply Hclose|apply Hclose|apply ambient_const]. }
  assert (∀ run all qs p, ambient_only (settle_jobs base now run all qs p)) as Hjobs.
  { intros run all qs. induction qs as [|rec qs IH]; intros p; simpl; [apply ambient_ret|].
    apply ambient_bind; [apply Hjob|]. intros p'. apply IH. }
  assert (∀ l p, ambient_only (settle_runs base now l p)) as Hruns.
  { intros l. induction l as [|[r qs] l IH]; intros p; simpl; [apply ambient_ret|].
    apply ambient_or_else; [apply ambient_read, GetRun_reads|intros run|apply IH].
    apply ambient_or_else; [apply ambient_read, ListJobRuns_reads|intros all|apply IH].
    apply ambient_bind; [apply Hjobs|apply IH]. }
  unfold evaluateDeferredConditions. induction fuel as [|fuel IH]; simpl; [apply ambient_const|].
  apply ambient_bind; [|intros []; [apply IH|apply ambient_ret]].
  apply ambient_or_else; [by apply ambient_read|intros queued; case_bool_decide; [apply ambient_ret|apply Hruns]|apply ambient_ret].
Qed.

(** Programs on the pair of stores. *)
Definition stores_ambient {Y} (m : M (store * A) Y) : Prop :=
  ∀ v x, rtc ambient (v, x) (with_stores (fst (m (sdurable v, sactive v))) v, x).

Lemma with_stores_same (v : server store A) : with_stores (sdurable v, sactive v) v = v.
Proof. by destruct v. Qed.

Lemma stores_bind {Y Z} (m : M (store * A) Y) (k : Y → M (store * A) Z) :
  stores_ambient m → (∀ y, stores_ambient (k y)) → stores_ambient (mbind m k).
Proof.
  intros Hm Hk v x. unfold mbind. specialize (Hm v x). destruct (m (sdurable v, sactive v)) as [[d a] [y|e|]]; [|done..].
  etrans; [exact Hm|]. exact (Hk y (with_stores (d, a) v) x).
Qed.

Lemma stores_mapErr {Y} g (m : M (store * A) Y) : stores_ambient m → stores_ambient (mapErr g m).
Proof. intros Hm v x. rewrite fst_mapErr. apply Hm. Qed.

Lemma stores_const {Y} (r : outcome error Y) : stores_ambient (fun s => (s, r)).
Proof. intros v x. simpl. by rewrite with_stores_same. Qed.

Lemma stores_durable {Y} (m : M store Y) o : (∀ st, fst (m st) = exec o st) → stores_ambient (inD m).
Proof.
  intros Hm v x. unfold inD. specialize (Hm (sdurable v)). simpl. destruct (m (sdurable v)) as [d r]. simpl in *. subst d.
  replace (with_stores _ v) with (with_sdurable (exec o (sdurable v)) v) by done. apply rtc_once. constructor.
Qed.

Lemma stores_read {Y} (m : M store Y) : (∀ st, fst (m st) = st) → stores_ambient (inD m).
Proof.
  intros Hm v x. unfold inD. specialize (Hm (sdurable v)). simpl. destruct (m (sdurable v)) as [d r]. simpl in *. subst d.
  by rewrite with_stores_same.
Qed.

Lemma stores_active {Y} (m : M A Y) : stores_ambient (inA m).
Proof. intros v x. unfold inA. simpl. destruct (m (sactive v)) as [a r]. apply rtc_once, amb_active. Qed.

Lemma onDA_ambient {Y} (m : M (store * A) Y) : stores_ambient m → ambient_only (onDA m).
Proof. intros Hm v x. unfold onDA. specialize (Hm v x). by destruct (m (sdurable v, sactive v)). Qed.

Lemma dispatch_next_ambient now : stores_ambient (DispatchNext now).
Proof.
  apply stores_bind; [by apply (stores_durable _ OpClaimNextQueuedJob)|]. intros job v x.
  assert (stores_ambient (Dispatch now (JID job))) as Hd.
  { apply stores_bind; [apply stores_mapErr, stores_read, GetJobRun_reads|]. intros rec.
    destruct (negb _); [apply stores_const|]. apply stores_bind; [apply stores_mapErr, stores_active|]. intros obj.
    apply stores_mapErr. by apply (stores_durable _ (OpAckDispatched (JID job) {| ObjName := CRName (JID job); ObjUID := ObjUID obj |} now)). }
  specialize (Hd v x). destruct (Dispatch now (JID job) (sdurable v, sactive v)) as [[d a] [y|e|]]; [done| |done].
  etrans; [exact Hd|].
  pose proof (stores_durable (ReleaseClaim (JID job)) (OpReleaseClaim (JID job)) (λ _, eq_refl) (with_stores (d, a) v) x) as Hr.
  unfold inD in *. simpl in *. exact Hr.
Qed.

Lemma dispatch_ambient fuel now : ambient_only (DispatchOnce base fuel now).
Proof.
  apply ambient_bind; [apply settle_ambient|]. intros _. generalize 0.
  induction fuel as [|fuel IH]; intros n v x; simpl; [done|].
  pose proof (onDA_ambient _ (dispatch_next_ambient now) v x) as Hd.
  destruct (onDA (DispatchNext now) v) as [v' [job|e|]]; [|by destruct e|done].
  etrans; [exact Hd|]. apply ambient_bind; [apply report_ambient|]. intros _. apply IH.
Qed.

Lemma collect_ambient now : ambient_only (CollectOnce now).
Proof.
  apply onDA_ambient, stores_bind; [apply stores_mapErr; by apply stores_read|]. intros l. generalize 0.
  induction l as [|j l IH]; intros n; simpl; [apply stores_const|].
  apply stores_bind; [apply stores_mapErr, stores_active|]. intros _.
  apply stores_bind; [apply stores_mapErr; by apply (stores_durable _ (OpMarkCollected (JID j) now))|]. intros _. apply IH.
Qed.

(** Every run of the dispatch or the collection loop, errors included. *)
Lemma loop_ambient fuel body ts : body ∈ StartLoops base fuel None → ambient_only (ticker_loop body ts).
Proof.
  intros Hin. assert (∀ now, ambient_only (body now)) as Hb.
  { intros now. unfold StartLoops in Hin. simpl in Hin. set_unfold in Hin. destruct Hin as [->|[->|[]]].
    - apply ambient_bind; [apply dispatch_ambient|]. intros [n err]. apply ambient_ret.
    - intros v x. unfold collect_tick, logged. pose proof (collect_ambient now v x) as Hc.
      by destruct (CollectOnce now v) as [v' [y|e|]]. }
  induction ts as [|[now|] ts IH]; simpl; [apply ambient_ret| |apply ambient_ret].
  apply ambient_bind; [apply Hb|]. intros err. apply ambient_bind; [apply IH|]. intros errs. apply ambient_ret.
Qed.

(** The request for secrets, as a thread that is started. *)
Lemma secrets_thread_safe now header id req s :
  server_inv s → strust (fst s) !! id = Some TrustFork →
  safe_thread (λ r _, ∀ m, r = Ok (AReply (JSON (BSecrets m))) → m = ∅) ∅
    (call_thread (CServe now header (ESecrets id req))) s.
Proof.
  intros Hinv Hfork. apply (safe_pthen server_inv grows unclassified); [|done].
  assert (safe_thread (no_secret_of_fork true) ∅ (serve_prog base hasStore dev s3 verify now header (ESecrets id req)) s) as Hs.
  { cbn [serve_prog]. unfold auth_prog. destruct (negb _); [by split|]. destruct (verify _) as [i|e|]; [|by split..].
    by apply secrets_safe. }
  eapply (safe_weaken server_inv grows unclassified); [|exact Hs]. intros r s' _ _ Hr.
  destruct r as [r|e|]; split; try done. intros s2 _ _ m [= ->]. by apply Hr.
Qed.

Lemma secrets_reply_empty a x c c' now header id req m :
  rtc system (initial a x) c → strust (fst (shared c)) !! id = Some TrustFork →
  rtc system (Build_config (shared c) (pool c ++ [call_thread (CServe now header (ESecrets id req))])) c' →
  pool c' !! length (pool c) = Some (Done (Ok (AReply (JSON (BSecrets m))))) → m = ∅.
Proof.
  intros Hc Hfork Hc' Hreply. destruct (system_safe _ _ _ Hc) as [Os Hps]. pose proof (ps_inv _ _ _ _ _ Hps) as Hinv.
  destruct c as [s ps]. cbn [shared pool] in *.
  set (req_thread := call_thread _) in *.
  assert (cstep starts ambient (Build_config s ps) (Build_config s (ps ++ [req_thread]))) as Hstart
    by (apply cstep_start; by eexists).
  destruct (cstep_safe _ _ _ _ _ starts_safe ambient_safe _ _ _ Hps Hstart) as [Os1 Hps1].
  destruct (thread_keeps _ _ _ _ _ starts_safe ambient_safe (λ r _, ∀ m, r = Ok (AReply (JSON (BSecrets m))) → m = ∅) _ _ _ (length ps) req_thread Hps1 Hc')
    as (p' & Hp' & Hinv' & O & Hsafe).
  { simpl. by rewrite lookup_app_r, Nat.sub_diag by lia. }
  { exists ∅. by apply secrets_thread_safe. }
  rewrite Hreply in Hp'. injection Hp' as <-. destruct Hsafe as [_ HQ]. by apply (HQ (shared c')).
Qed.
End system.

(** ** Schedules as data *)

Section moves.
Context `{Unicode} `{FloatText} `{JSONText} `{IntConv} `{MapRange} `{PlanDigest} `{EventJSON} `{Sha256}.
Context `{MemoryEnv} {A X E : Type} `{SecretStore X}.
Context (base : string) (hasStore : bool) (dev : gmap string string) (s3 : option ObjectClient).
Context (load : RepositoryRef → string → outcome string (list WorkflowFile))
  (unmarshal : string → outcome string Node) (fetch : option ActionFetcher) (verify : string → outcome E Identity).
Context (sent : DeliveryKey → Delivery) (strict : bool).

Abbreviation St := (server store A * X)%type.

(** Start a goroutine, let one make its next operation, or run one operation of
    the store from elsewhere. *)
Inductive move := MStart (c : call) | MThread (i : nat) | MStore (o : op).

Definition play1 (m : move) (c : config St answer) : config St answer :=
  let '(Build_config s ps) := c in
  match m with
  | MStart cl => Build_config s (ps ++ [call_prog base hasStore dev s3 load unmarshal fetch verify cl])
  | MThread i => match ps !! i with
                 | Some p => Build_config (fst (next_op p s)) (<[i := snd (next_op p s)]> ps)
                 | None => c
                 end
  | MStore o => Build_config (with_sdurable (exec o (sdurable (fst s))) (fst s), snd s) ps
  end.

Fixpoint play (ms : list move) (c : config St answer) : config St answer :=
  match ms with [] => c | m :: ms' => play ms' (play1 m c) end.

Fixpoint playable (ms : list move) (c : config St answer) : Prop :=
  match ms with
  | [] => True
  | m :: ms' => match m with MStart cl => admissible sent strict (shared c) cl | _ => True end ∧ playable ms' (play1 m c)
  end.

Lemma play_system ms c : playable ms c →
  rtc (system base hasStore dev s3 load unmarshal fetch verify sent strict) c (play ms c).
Proof.
  revert c. induction ms as [|m ms IH]; intros c; simpl; [done|]. intros [Hm Hms].
  etrans; [|by apply IH]. destruct c as [[v x] ps]. destruct m as [cl|i|o]; simpl.
  - apply rtc_once, cstep_start. by exists cl.
  - destruct (ps !! i) as [p|] eqn:Hi; [|done]. apply rtc_once. by apply (cstep_thread _ _ (v, x)).
  - apply rtc_once, cstep_ambient. constructor.
Qed.
End moves.

(** ** The properties *)

(** C11. Every order in which the goroutines and the loops can interleave leaves
    the trust levels sound: in every state the server reaches from empty stores,
    whatever calls are started and wherever they stand, the store is well-formed,
    a trust level on record is the level of the very delivery that started the
    job's run, and a stored plan is filed under a recorded job.  And complete, when
    jobs are rerequested only once their level is on record: as soon as no call is
    under way, every job that has a plan has its level. *)
Theorem concurrent_trust_is_sound `{Unicode} `{FloatText} `{JSONText} `{IntConv} `{MapRange} `{PlanDigest}
    `{EventJSON} `{Sha256} `{MemoryEnv} `{!MemoryEnvOk} {A X E : Type} `{ActiveExecutionStore A} `{SecretStore X}
    base hasStore dev s3 load unmarshal fetch (verify : string → outcome E Identity) sent strict (a : A) (x : X) c :
  rtc (system base hasStore dev s3 load unmarshal fetch verify sent strict) (initial a x) c →
  let v := fst (shared c) in
  store_wf (sdurable v) ∧
  (∀ id t, strust v !! id = Some t → trust_of_run sent v id t) ∧
  (∀ id p, splans v !! id = Some p → PJobRunID p = id ∧ is_Some (jobs (sdurable v) !! id)) ∧
  (strict = true → forallb at_end (pool c) = true →
     ∀ id, is_Some (splans v !! id) → ∃ t, strust v !! id = Some t).
Proof.
  intros Hc. destruct (system_safe _ _ _ _ _ _ _ _ _ _ _ _ _ Hc) as [Os Hps]. pose proof Hps as [[Hwf Ht Hp] _ _].
  split_and!; [done..|]. intros Hst Hfin id Hplan.
  destruct (strust (fst (shared c)) !! id) as [t|] eqn:Et; [by exists t|]. exfalso.
  by apply (quiescent_no_gap _ _ _ c Os id Hps Hfin).
Qed.

(** C12. The jobs of a fork's pull request get no secret, however the request
    interleaves with everything else: in every state the server reaches, when the
    delivery that started the job's run is a fork's and the job's level has been
    written — whatever it was written by — no reply that a request for its secrets
    ever gives contains one. *)
Theorem concurrent_fork_gets_no_secret `{Unicode} `{FloatText} `{JSONText} `{IntConv} `{MapRange} `{PlanDigest}
    `{EventJSON} `{Sha256} `{MemoryEnv} `{!MemoryEnvOk} {A X E : Type} `{ActiveExecutionStore A} `{SecretStore X}
    base hasStore dev s3 load unmarshal fetch (verify : string → outcome E Identity) sent strict (a : A) (x : X)
    c c' now header id req m :
  rtc (system base hasStore dev s3 load unmarshal fetch verify sent strict) (initial a x) c →
  trust_of_run sent (fst (shared c)) id TrustFork → is_Some (strust (fst (shared c)) !! id) →
  rtc (system base hasStore dev s3 load unmarshal fetch verify sent strict)
    (Build_config (shared c) (pool c ++
      [call_prog base hasStore dev s3 load unmarshal fetch verify (CServe now header (ESecrets id req))])) c' →
  pool c' !! length (pool c) = Some (Done (Ok (AReply (JSON (BSecrets m))))) →
  m = ∅.
Proof.
  intros Hc Hfork [t Ht]. destruct (system_safe _ _ _ _ _ _ _ _ _ _ _ _ _ Hc) as [Os Hps].
  pose proof (si_trust _ _ (ps_inv _ _ _ _ _ Hps) _ _ Ht) as Htr.
  rewrite (trust_of_run_unique _ _ _ _ _ Htr Hfork) in Ht. revert Hc Ht. apply secrets_reply_empty.
Qed.

(** ** Concrete schedules *)

(** A pull request of a fork; its job asks for a secret in its environment. *)
Definition secret_pr_node : Node :=
  mapnode [("name", scalar "ci"); ("on", scalar "pull_request");
    ("jobs", mapnode [("test", mapnode [("runs-on", scalar "linux");
      ("env", mapnode [("TOKEN", scalar "${{ secrets.TOKEN }}")]); ("steps", seqnode [demo_step_node])])])].

(** A job that is not to run for pull requests. *)
Definition push_only_node : Node :=
  mapnode [("name", scalar "ci"); ("on", scalar "pull_request");
    ("jobs", mapnode [("test", mapnode [("runs-on", scalar "linux");
      ("if", scalar "github.event_name == 'push'"); ("steps", seqnode [demo_step_node])])])].

Definition bearer (t : string) : outcome string Identity :=
  Ok {| IdAudience := Audience; IdNamespace := "forgelet-jobs"; IdPodUID := "pod"; IdJobRunID := t;
        IdScopes := [ScopePlanRead; ScopeSecretsRead; ScopeStatusWrite]; IdTokenID := "t1"; IdIssuedAt := 0; IdExpiresAt := 10 |}.

Definition one_ref : list Ref := [{| RefScope := "repository"; RefName := "TOKEN" |}].

Section schedules.
#[local] Existing Instances ascii_unicode demo_float_text some_order one_sum map_secrets no_json no_int id_digest fork_json.

Definition github_sent (k : DeliveryKey) : Delivery :=
  {| DKey := k; DEvent := DEvent fork_delivery; DPayload := DPayload fork_delivery |}.

Definition files (_ : RepositoryRef) (_ : string) : outcome string (list WorkflowFile) :=
  Ok [{| FName := "ci.yml"; FData := "" |}].

Definition demo_play (node : Node) (ms : list move) : config (server store activeStore * gmap string string) answer :=
  play "http://forgelet" true ∅ None files (fun _ => Ok node) None bearer ms (initial NewActiveStore vault).

(** The pull request is delivered as thread 0, and makes [n] operations. *)
Definition deliver_until (n : nat) : list move := MStart (CDeliver 5 fork_delivery) :: replicate n (MThread 0).

Definition run_thread (i : nat) : list move := replicate 9 (MThread i).

Definition ask_secrets (id : string) : move := MStart (CServe 9 ("Bearer " +:+ id) (ESecrets id (Some one_ref))).

Definition job_fails (id : string) : list move :=
  [MStore OpClaimNextQueuedJob; MStore (OpAckDispatched id {| ObjName := CRName id; ObjUID := "u" |} 6);
   MStore (OpApplyObserved id PhaseFailed 7)].

(** The fork's job fails and is rerequested; nothing is left under way. *)
Definition quiet_moves : list move :=
  deliver_until 9 ++ job_fails "idx" ++ [MStart (CRerequest 8 "idx")] ++ run_thread 1.

Lemma demo_play_system node strict ms :
  playable "http://forgelet" true ∅ None files (fun _ => Ok node) None bearer github_sent strict ms (initial NewActiveStore vault) →
  rtc (system "http://forgelet" true ∅ None files (fun _ => Ok node) None bearer github_sent strict)
    (initial NewActiveStore vault) (demo_play node ms).
Proof.
  unfold demo_play. exact (play_system "http://forgelet" true ∅ None files (fun _ => Ok node) None bearer github_sent strict
    ms (initial NewActiveStore vault)).
Qed.

Definition quiet_end := demo_play secret_pr_node quiet_moves.

Lemma concurrent_trust_is_sound_witness :
  strust (fst (shared quiet_end)) !! "idxx" = Some TrustFork ∧
  ∃ t, strust (fst (shared quiet_end)) !! "idxx" = Some t.
Proof.
  split; [vm_compute; reflexivity|].
  destruct (concurrent_trust_is_sound "http://forgelet" true ∅ None files (fun _ => Ok secret_pr_node) None bearer
    github_sent true NewActiveStore vault quiet_end) as (_ & _ & _ & Hall).
  - apply demo_play_system. vm_compute. repeat split; intros; eexists; reflexivity.
  - apply Hall; [reflexivity|vm_compute; reflexivity|vm_compute; eexists; reflexivity].
Defined.

(** The request starts where the call left the levels, and runs to its end. *)
Definition fork_asks := demo_play secret_pr_node (deliver_until 9 ++ [ask_secrets "idx"]).

Lemma concurrent_fork_gets_no_secret_witness :
  pool (demo_play secret_pr_node (deliver_until 9 ++ [ask_secrets "idx"] ++ run_thread 1)) !! 1 =
    Some (Done (Ok (AReply (JSON (BSecrets ∅))))) ∧ (∅ : gmap string string) = ∅.
Proof.
  split; [vm_compute; reflexivity|].
  apply (concurrent_fork_gets_no_secret "http://forgelet" true ∅ None files (fun _ => Ok secret_pr_node) None bearer
    github_sent true NewActiveStore vault (demo_play secret_pr_node (deliver_until 9))
    (play "http://forgelet" true ∅ None files (fun _ => Ok secret_pr_node) None bearer (run_thread 1)
      (Build_config (shared (demo_play secret_pr_node (deliver_until 9)))
        (pool (demo_play secret_pr_node (deliver_until 9)) ++
          [call_prog "http://forgelet" true ∅ None files (fun _ => Ok secret_pr_node) None bearer
            (CServe 9 "Bearer idx" (ESecrets "idx" (Some one_ref)))])))
    9 "Bearer idx" "idx" (Some one_ref)).
  - apply demo_play_system. vm_compute. repeat split.
  - eexists _, _. split; [|split]; vm_compute; reflexivity.
  - vm_compute. eexists. reflexivity.
  - apply play_system. vm_compute. repeat split.
  - vm_compute. reflexivity.
Defined.

(** ** What the order of the operations allows *)

(** Between the plan and the trust level of a fork's job, a request for its
    secrets is answered as if the job were trusted: a schedule without any
    rerequest reaches a reply with the secret, although the delivery that started
    the run is a fork's. *)
Theorem fork_secret_before_its_level :
  let c := demo_play secret_pr_node (deliver_until 5 ++ [ask_secrets "idx"] ++ run_thread 1) in
  rtc (system "http://forgelet" true ∅ None files (fun _ => Ok secret_pr_node) None bearer github_sent true)
    (initial NewActiveStore vault) c ∧
  trust_of_run github_sent (fst (shared c)) "idx" TrustFork ∧
  pool c !! 1 = Some (Done (Ok (AReply (JSON (BSecrets {[ "repository/TOKEN" := "s3cr3t" ]}))))).
Proof.
  split_and!; [apply demo_play_system; vm_compute; repeat split| |vm_compute; reflexivity].
  eexists _, _. split_and!; vm_compute; reflexivity.
Qed.

(** A rerequest in the same window copies the plan but no level: with every call
    at its end, the new attempt of the fork's job has a plan and no level, and
    gets the secret from then on. *)
Theorem rerequest_can_lose_the_level :
  let before := demo_play secret_pr_node
    (deliver_until 5 ++ job_fails "idx" ++ [MStart (CRerequest 8 "idx")] ++ run_thread 1 ++ run_thread 0) in
  let c := demo_play secret_pr_node
    (deliver_until 5 ++ job_fails "idx" ++ [MStart (CRerequest 8 "idx")] ++ run_thread 1 ++ run_thread 0 ++
     [ask_secrets "idxx"] ++ run_thread 2) in
  rtc (system "http://forgelet" true ∅ None files (fun _ => Ok secret_pr_node) None bearer github_sent false)
    (initial NewActiveStore vault) c ∧
  forallb at_end (pool before) = true ∧ strust (fst (shared before)) !! "idx" = Some TrustFork ∧
  strust (fst (shared before)) !! "idxx" = None ∧
  pool c !! 2 = Some (Done (Ok (AReply (JSON (BSecrets {[ "repository/TOKEN" := "s3cr3t" ]}))))).
Proof.
  split; [apply demo_play_system; vm_compute; repeat split; discriminate|].
  split_and!; vm_compute; reflexivity.
Qed.

(** The jobs of a run are in the queue as soon as the run is created, before their
    plans are stored: the dispatcher can hand one out whose executor then finds no
    plan... *)
Theorem job_dispatched_before_its_plan :
  let c := demo_play secret_pr_node
    (deliver_until 2 ++ take 2 (job_fails "idx") ++ [MStart (CServe 9 "Bearer idx" (EPlan "idx"))] ++ run_thread 1) in
  JStatus (getJob (sdurable (fst (shared c))) "idx") = JobDispatched ∧
  pool c !! 1 = Some (Done (Ok (AReply (HttpError 404 "plan not found")))).
Proof. split; vm_compute; reflexivity. Qed.

(** ... or whose condition is false of the very event. *)
Theorem job_dispatched_before_its_condition :
  let c := demo_play push_only_node (deliver_until 2 ++ take 2 (job_fails "idx") ++ run_thread 0) in
  let j := getJob (sdurable (fst (shared c))) "idx" in
  JStatus j = JobSkipped ∧ JDispatchedAt j = Some 6%Z ∧ JActiveName j = CRName "idx".
Proof. split_and!; vm_compute; reflexivity. Qed.
End schedules.
