(* ===== verification/Executor.v ===== *)
(** * The executor engine (internal/runtime/executor: engine.go, expr.go, port.go)

    [Run] executes the steps of a plan one after the other in a shared
    environment.  The operating system and the control plane are the parameter
    [Host]: what a step's process (or handler, or script) did is a [StepEffect]
    — its exit, the outputs it set, the contents of its command files.  The
    result is what [Run] reports to the control plane and the error it returns. *)

From Stdlib Require Import Ascii.
From stdpp Require Import pretty.
From S2P Require Import Prelude GoStrings GoFloat RunModel Identity ExprSyntax ExprEval StepCommands Masking Plans.

Local Open Scope go_scope.

(** ** Results (port.go) *)

Record StepResult := {
  RStepID : string;
  ExitCode : Z;
  DurationMs : Z;
  Outcome : string;
  Conclusion : string
}.

Record JobResult := {
  ResJobRunID : JobRunID;
  Success : bool;
  Cancelled : bool;
  StepResults : list StepResult;
  ResError : string
}.

Inductive RunError :=
  | RunStepFailed (msg : string)
  | RunCancelled
  | RunInfra (msg : string).

(** The job result reported, if any, and the error returned. *)
Record Finished := { Reported : option JobResult; RunErr : option RunError }.

(** ** Step state (expr.go) *)

Record stepState := { stOutputs : gmap string string; stOutcome : string; stConclusion : string }.

Definition outcomeSuccess : string := "success".
Definition outcomeFailure : string := "failure".
Definition outcomeSkipped : string := "skipped".
Definition conclusionOK : string := "success".
Definition conclusionFail : string := "failure".
Definition conclusionSkip : string := "skipped".
Definition jobStatusOK : string := "success".
Definition jobStatusFailed : string := "failure".

(** ** The host *)

Inductive StepErr :=
  | StepCancelled          (** [context.Canceled] or [ErrCancelled] *)
  | StepError (msg : string).

Record StepEffect := {
  SeErr : option StepErr;
  SeExit : Z;
  SeDuration : Z;
  SeOutputs : gmap string string;   (** set through [SetOutput] *)
  SeEnvFile : string;
  SeOutputFile : string;
  SePathFile : string;
  SeStateFile : string
}.

(** The first argument of an operation on a step is the step's index. *)
Class Host := {
  ctxDone : nat → bool;
  makeMetaDir : option string;
  prepareFiles : nat → option string;
  FetchSecrets : list SecretRef → outcome string (gmap string string);
  runStepScript : nat → PlanStep → string → gmap string string → StepEffect;
  runJS : nat → JSStep → string → gmap string string → gmap string string → StepEffect;
  runHandler : nat → string → gmap string string → gmap string string → StepEffect
}.

(** The engine's configuration: the default environment, the metadata
    directory of the workspace, the platform, the workspace hasher. *)
Record Engine := {
  DefaultEnv : gmap string string;
  MetaDir : string;
  GOOS : string;
  GOARCH : string;
  DirHasher : list string → string + string
}.

Definition builtinRegistry : list string :=
  ["actions/checkout"; "actions/cache"; "actions/upload-artifact"; "actions/download-artifact"].

(** ** Expression environments (expr.go) *)

Definition githubOf (p : Plan) : Value :=
  ObjOf [("event_name", StrOf (PEventName p)); ("actor", StrOf (PActor p)); ("ref", StrOf (PRef p));
         ("sha", StrOf (PSHA p));
         ("repository", ObjOf [("owner", StrOf (RepoOwner (PRepository p)));
            ("name", StrOf (RepoName (PRepository p)));
            ("full_name", StrOf (RepoOwner (PRepository p) +:+ "/" +:+ RepoName (PRepository p)))])].

Section engine.
Context `{Unicode} `{FloatText} `{JSONText} `{IntConv} `{MapRange} `{Host}.
Context (e : Engine).

(** The first state the range meets that failed for good decides. *)
Definition jobStatusFor (states : gmap string stepState) : string :=
  match find (fun p => bool_decide (stOutcome (snd p) = outcomeFailure) &&
                       bool_decide (stConclusion (snd p) ≠ conclusionOK)) (range_map states) with
  | Some _ => jobStatusFailed
  | None => jobStatusOK
  end.

Definition str_obj (m : gmap string string) : Value := ObjOf (range_map (StrOf <$> m)).

Definition step_value (st : stepState) : Value :=
  ObjOf [("outputs", str_obj (stOutputs st)); ("outcome", StrOf (stOutcome st));
         ("conclusion", StrOf (stConclusion st))].

Definition exprEnv (p : Plan) (env : gmap string string) (states : gmap string stepState) : Env :=
  WithWorkspaceHasher
    (With (With (With (With (With NewEnv "github" (githubOf p))
       "env" (str_obj env))
       "steps" (ObjOf (range_map (step_value <$> states))))
       "job" (ObjOf [("status", StrOf (jobStatusFor states))]))
       "runner" (ObjOf [("os", StrOf (GOOS e)); ("arch", StrOf (GOARCH e))])) (DirHasher e).

Definition jobEnv (p : Plan) : Env :=
  WithWorkspaceHasher (With NewEnv "github" (githubOf p)) (DirHasher e).

(** Render the values that hold an expression; the error names the key. *)
Fixpoint render_pairs (x : Env) (ps : list (string * string)) (m : gmap string string)
    : outcome (string * ExprError) (gmap string string) :=
  match ps with
  | [] => Ok m
  | (k, v) :: ps' =>
      if HasExpression v then
        match Interpolate v (Some x) with
        | Ok rendered => render_pairs x ps' (<[k := rendered]> m)
        | Err err => Err (k, err)
        | Panic => Panic
        end
      else render_pairs x ps' m
  end.

(** ** Before the first step *)

Definition start_env (id : JobRunID) (p : Plan) : gmap string string :=
  <["GITHUB_JOB" := CRName (PJobRunID p)]> (<["GITHUB_REF" := PRef p]> (<["GITHUB_SHA" := PSHA p]>
    (<["CI" := "true"]> (PEnv p ∪ DefaultEnv e)))).

(** One reference: the masker, the environment, the secrets of step inputs. *)
Definition add_secret (secrets : gmap string string)
    (acc : Masker * gmap string string * gmap string string) (ref : SecretRef)
    : Masker * gmap string string * gmap string string :=
  let '(m, env, withSecrets) := acc in
  match secrets !! (SRScope ref +:+ "/" +:+ SRName ref) with
  | None => acc
  | Some val =>
      let m' := AddValue val m in
      if has_prefix (SREnv ref) "$with:" then (m', env, <[SREnv ref := val]> withSecrets)
      else if bool_decide (SREnv ref ≠ "") then (m', <[SREnv ref := val]> env, withSecrets)
      else (m', env, withSecrets)
  end.

(** ** One step *)

Record EngState := {
  genv : gmap string string;
  gstates : gmap string stepState;
  gpath : list string;
  gsteps : list StepResult
}.

Inductive StepEnd :=
  | Go (st : EngState)
  | Stop (f : Finished).

Definition metaFile (i : nat) (ext : string) : string := MetaDir e +:+ "/step-" +:+ pretty i +:+ "." +:+ ext.

Definition with_meta (i : nat) (env : gmap string string) : gmap string string :=
  <["GITHUB_STEP_SUMMARY" := metaFile i "summary"]> (<["GITHUB_STATE" := metaFile i "state"]>
    (<["GITHUB_PATH" := metaFile i "path"]> (<["GITHUB_OUTPUT" := metaFile i "output"]>
      (<["GITHUB_ENV" := metaFile i "env"]> env)))).

Definition step_env (env : gmap string string) (path : list string) (st : PlanStep) : gmap string string :=
  let stepEnv := RunEnv (PsRun st) ∪ env in
  if bool_decide (0 < length path)
  then <["PATH" := join path ":" +:+ ":" +:+ default "" (stepEnv !! "PATH")]> stepEnv
  else stepEnv.

Definition step_result (id out concl : string) (exit dur : Z) : StepResult :=
  {| RStepID := id; ExitCode := exit; DurationMs := dur; Outcome := out; Conclusion := concl |}.

Definition skipped_result (st : PlanStep) : StepResult :=
  step_result (PsID st) outcomeSkipped conclusionSkip 0 0.

Definition job_result (id : JobRunID) (ok cancelled : bool) (steps : list StepResult) (err : string)
    : JobResult :=
  {| ResJobRunID := id; Success := ok; Cancelled := cancelled; StepResults := steps; ResError := err |}.

(** [failJob]: the steps from [from] on are recorded as skipped. *)
Definition failJob (id : JobRunID) (p : Plan) (from : nat) (steps : list StepResult) (err : string) : StepEnd :=
  Stop {| Reported := Some (job_result id false false (steps ++ map skipped_result (drop from (PSteps p))) err);
          RunErr := Some (RunStepFailed err) |}.

Definition cancelledJob (id : JobRunID) (steps : list StepResult) (err : string) : StepEnd :=
  Stop {| Reported := Some (job_result id false true steps err); RunErr := Some RunCancelled |}.

Definition add_state_kvs (env : gmap string string) (kvs : list KV) : gmap string string :=
  fold_left (fun m kv => <["STATE_" +:+ Key kv := Val kv]> m) kvs env.

Definition kvs_or_none (file : string) : list KV :=
  match ParseKVFile file with Ok kvs => kvs | _ => [] end.

(** Fold the command files of a finished step into the environment, its
    outputs and the path; a malformed file is ignored. *)
Definition fold_commands (x : StepEffect) (outs env : gmap string string) (path : list string)
    : gmap string string * gmap string string * list string :=
  (ApplyKVs outs (kvs_or_none (SeOutputFile x)),
   add_state_kvs (ApplyKVs env (kvs_or_none (SeEnvFile x))) (kvs_or_none (SeStateFile x)),
   ParsePathFile (SePathFile x) ++ path).

(** What follows a step that was executed; [failed] is the error text. *)
Definition conclude (id : JobRunID) (p : Plan) (i : nat) (st : PlanStep) (s : EngState)
    (x : StepEffect) (outs : gmap string string) (exit : Z) (failed : string → string) : StepEnd :=
  let '(outs', env', path') := fold_commands x outs (genv s) (gpath s) in
  let go out concl :=
    Go {| genv := env';
          gstates := <[PsID st := {| stOutputs := outs'; stOutcome := out; stConclusion := concl |}]> (gstates s);
          gpath := path';
          gsteps := gsteps s ++ [step_result (PsID st) out concl exit (SeDuration x)] |} in
  match SeErr x with
  | None => go outcomeSuccess conclusionOK
  | Some StepCancelled => cancelledJob id (gsteps s) ("step " +:+ PsID st +:+ " cancelled")
  | Some (StepError msg) =>
      if PsContinueOnError st then go outcomeFailure conclusionOK
      else failJob id p (i + 1)
             (gsteps s ++ [step_result (PsID st) outcomeFailure conclusionFail exit (SeDuration x)])
             (failed msg)
  end.

Definition skip_step (st : PlanStep) (out concl : string) (s : EngState) : StepEnd :=
  Go {| genv := genv s;
        gstates := <[PsID st := {| stOutputs := ∅; stOutcome := out; stConclusion := concl |}]> (gstates s);
        gpath := gpath s; gsteps := gsteps s ++ [step_result (PsID st) out concl 0 0] |}.

Definition overlay_secrets (st : PlanStep) (withSecrets inputs : gmap string string) : gmap string string :=
  let prefix := "$with:" +:+ PsID st +:+ ":" in
  fold_left (fun m '(k, v) => if has_prefix k prefix then <[trim_prefix k prefix := v]> m else m)
    (range_map withSecrets) inputs.

(** The inputs of a step: rendered, then overlaid with its secrets. *)
Definition final_inputs (x : Env) (st : PlanStep) (withSecrets inputs : gmap string string)
    : outcome (string * ExprError) (gmap string string) :=
  match render_pairs x (range_map inputs) inputs with
  | Ok m => Ok (overlay_secrets st withSecrets m)
  | Err err => Err err
  | Panic => Panic
  end.

Definition handler_exit (x : StepEffect) : Z := match SeErr x with None => 0 | Some _ => 1 end.

Definition stop_panic : StepEnd := Stop {| Reported := None; RunErr := Some (RunInfra "panic") |}.

(** The error text of an input or environment entry that does not render. *)
Definition render_failure (st : PlanStep) (what : string) (err : ExprError) : string :=
  "step " +:+ PsID st +:+ what +:+ error_text err.

Definition step_failure (st : PlanStep) (msg : string) : string := "step " +:+ PsID st +:+ " failed: " +:+ msg.

Definition perform_js (id : JobRunID) (p : Plan) (i : nat) (st : PlanStep) (withSecrets : gmap string string)
    (stepEnv : gmap string string) (x : Env) (s : EngState) (js : JSStep) : StepEnd :=
  match final_inputs x st withSecrets (JSInputs js) with
  | Err (k, err) => failJob id p i (gsteps s) (render_failure st (" with." +:+ k +:+ ": ") err)
  | Panic => stop_panic
  | Ok inputs =>
      let script0 := default "" (inputs !! "script") in
      let script := if bool_decide (script0 = "") then JSScript js else script0 in
      let eff := runJS i js script inputs stepEnv in
      conclude id p i st s eff (SeOutputs eff) (handler_exit eff) (step_failure st)
  end.

Definition perform_builtin (id : JobRunID) (p : Plan) (i : nat) (st : PlanStep) (withSecrets : gmap string string)
    (stepEnv : gmap string string) (x : Env) (s : EngState) (b : BuiltinStep) : StepEnd :=
  match final_inputs x st withSecrets (BInputs b) with
  | Err (k, err) => failJob id p i (gsteps s) (render_failure st (" with." +:+ k +:+ ": ") err)
  | Panic => stop_panic
  | Ok inputs =>
      if bool_decide (BAction b ∈ builtinRegistry) then
        let eff := runHandler i (BAction b) inputs stepEnv in
        conclude id p i st s eff (SeOutputs eff) (handler_exit eff) (step_failure st)
      else failJob id p i (gsteps s) ("builtin " +:+ BAction b +:+ " not found")
  end.

(** The script with its environment rendered. *)
Definition perform_script (id : JobRunID) (p : Plan) (i : nat) (st : PlanStep)
    (stepEnv : gmap string string) (x : Env) (s : EngState) (script : string) : StepEnd :=
  match render_pairs x (range_map (RunEnv (PsRun st))) stepEnv with
  | Err (k, err) => failJob id p i (gsteps s) (render_failure st (" env " +:+ k +:+ ": ") err)
  | Panic => stop_panic
  | Ok env' =>
      let eff := runStepScript i st script env' in
      conclude id p i st s eff ∅ (SeExit eff)
        (fun _ => "step " +:+ PsID st +:+ " exited with code " +:+ pretty (SeExit eff))
  end.

Definition perform_run (id : JobRunID) (p : Plan) (i : nat) (st : PlanStep)
    (stepEnv : gmap string string) (x : Env) (s : EngState) : StepEnd :=
  if HasExpression (Script (PsRun st)) then
    match Interpolate (Script (PsRun st)) (Some x) with
    | Ok script => perform_script id p i st stepEnv x s script
    | Err err => failJob id p i (gsteps s) (render_failure st ": " err)
    | Panic => stop_panic
    end
  else perform_script id p i st stepEnv x s (Script (PsRun st)).

(** The part of the loop body after the step's condition. *)
Definition perform (id : JobRunID) (p : Plan) (i : nat) (st : PlanStep) (withSecrets : gmap string string)
    (stepEnv : gmap string string) (x : Env) (s : EngState) : StepEnd :=
  match PsJS st with
  | Some js => perform_js id p i st withSecrets stepEnv x s js
  | None =>
      match PsComposite st with
      | Some _ => skip_step st outcomeSuccess conclusionOK s
      | None =>
          match PsBuiltin st with
          | Some b => perform_builtin id p i st withSecrets stepEnv x s b
          | None => perform_run id p i st stepEnv x s
          end
      end
  end.

Definition with_genv (env : gmap string string) (s : EngState) : EngState :=
  {| genv := env; gstates := gstates s; gpath := gpath s; gsteps := gsteps s |}.

(** The loop body. *)
Definition run_step (id : JobRunID) (p : Plan) (withSecrets : gmap string string) (i : nat)
    (st : PlanStep) (s0 : EngState) : StepEnd :=
  if ctxDone i then cancelledJob id (gsteps s0) ("cancelled before step " +:+ PsID st)
  else match prepareFiles i with
  | Some err => Stop {| Reported := None; RunErr := Some (RunInfra ("executor: prepare " +:+ err)) |}
  | None =>
      let s := with_genv (with_meta i (genv s0)) s0 in
      let stepEnv := step_env (genv s) (gpath s) st in
      let x := exprEnv p stepEnv (gstates s) in
      if bool_decide (PsIf st ≠ "") then
        match EvaluateCondition (PsIf st) (Some x) with
        | Err err => failJob id p i (gsteps s) ("step " +:+ PsID st +:+ " if: " +:+ error_text err)
        | Panic => stop_panic
        | Ok false => skip_step st outcomeSkipped conclusionSkip s
        | Ok true => perform id p i st withSecrets stepEnv x s
        end
      else perform id p i st withSecrets stepEnv x s
  end.

Fixpoint run_steps (id : JobRunID) (p : Plan) (withSecrets : gmap string string) (i : nat)
    (steps : list PlanStep) (s : EngState) : StepEnd :=
  match steps with
  | [] => Go s
  | st :: rest =>
      match run_step id p withSecrets i st s with
      | Go s' => run_steps id p withSecrets (S i) rest s'
      | Stop f => Stop f
      end
  end.

(** ** Run *)

Definition fetch (refs : list SecretRef) : outcome string (gmap string string) :=
  if bool_decide (0 < length refs) then FetchSecrets refs else Ok ∅.

Definition Run (id : JobRunID) (p : Plan) : Finished :=
  let env0 := start_env id p in
  match render_pairs (jobEnv p) (range_map env0) env0 with
  | Panic => {| Reported := None; RunErr := Some (RunInfra "panic") |}
  | Err (k, err) =>
      let msg := "job env " +:+ k +:+ ": " +:+ error_text err in
      {| Reported := Some (job_result id false false [] msg); RunErr := Some (RunStepFailed msg) |}
  | Ok env1 =>
      match fetch (PSecretRefs p) with
      | Panic => {| Reported := None; RunErr := Some (RunInfra "panic") |}
      | Err err => {| Reported := None; RunErr := Some (RunInfra ("executor: fetch secrets: " +:+ err)) |}
      | Ok secrets =>
          let '(_, env2, withSecrets) := fold_left (add_secret secrets) (PSecretRefs p) (NewMasker, env1, ∅) in
          match makeMetaDir with
          | Some err => {| Reported := None;
                           RunErr := Some (RunInfra ("executor: workspace metadata dir: " +:+ err)) |}
          | None =>
              match run_steps id p withSecrets 0 (PSteps p) {| genv := env2; gstates := ∅; gpath := []; gsteps := [] |} with
              | Stop f => f
              | Go s => {| Reported := Some (job_result id true false (gsteps s) ""); RunErr := None |}
              end
          end
      end
  end.
End engine.
