(* ===== verification/ExecutorTheorems.v ===== *)
(** * What a job run reports

    A reported result has one entry per step of the plan, in order; a failing
    step ends the job and everything behind it is skipped, whatever its
    condition says; delivered secrets are registered with the masker. *)

From Stdlib Require Import Ascii.
From stdpp Require Import pretty.
From S2P Require Import Prelude GoStrings GoFloat RunModel Identity ExprSyntax ExprEval StepCommands Masking Plans Executor.

Local Open Scope go_scope.

Section engine.
Context `{Unicode} `{FloatText} `{JSONText} `{IntConv} `{MapRange} `{Host}.
Context (e : Engine) (id : JobRunID) (p : Plan).

Definition not_failed (r : StepResult) : Prop := Conclusion r ≠ conclusionFail.
Definition failed (r : StepResult) : Prop := Conclusion r = conclusionFail.
Definition skipped (r : StepResult) : Prop := Conclusion r = conclusionSkip.

(** No recorded step failed for good. *)
Definition states_ok (states : gmap string stepState) : Prop :=
  ∀ k st, states !! k = Some st → stOutcome st = outcomeFailure → stConclusion st = conclusionOK.

(** *** What one result says *)

(** Step [i] was carried out, with this effect and exit code. *)
Definition executed (i : nat) (st : PlanStep) (x : StepEffect) (exit : Z) : Prop :=
  (∃ js script inputs env, PsJS st = Some js ∧ x = runJS i js script inputs env ∧ exit = handler_exit x) ∨
  (∃ b inputs env, PsJS st = None ∧ PsBuiltin st = Some b ∧ BAction b ∈ builtinRegistry ∧
     x = runHandler i (BAction b) inputs env ∧ exit = handler_exit x) ∨
  (∃ script env, PsJS st = None ∧ PsBuiltin st = None ∧ x = runStepScript i st script env ∧ exit = SeExit x).

(** The result of a step that was carried out follows its error. *)
Definition ran (i : nat) (st : PlanStep) (r : StepResult) : Prop :=
  ∃ x, executed i st x (ExitCode r) ∧ DurationMs r = SeDuration x ∧
  match SeErr x with
  | None => Outcome r = outcomeSuccess ∧ Conclusion r = conclusionOK
  | Some (StepError _) => Outcome r = outcomeFailure ∧
      Conclusion r = if PsContinueOnError st then conclusionOK else conclusionFail
  | Some StepCancelled => False
  end.

(** Its condition did not hold; a composite step is recorded as done. *)
Definition passed_by (st : PlanStep) (r : StepResult) : Prop :=
  (PsIf st ≠ "" ∧ (∃ x, EvaluateCondition (PsIf st) (Some x) = Ok false) ∧
   Outcome r = outcomeSkipped ∧ Conclusion r = conclusionSkip) ∨
  (PsJS st = None ∧ is_Some (PsComposite st) ∧ Outcome r = outcomeSuccess ∧ Conclusion r = conclusionOK).

Definition recorded (i : nat) (r : StepResult) : Prop :=
  ∃ st, PSteps p !! i = Some st ∧ RStepID r = PsID st ∧ (ran i st r ∨ passed_by st r).

(** A step that does not start: its condition, inputs, environment or script
    cannot be evaluated, or its action is not known. *)
Definition unstartable (st : PlanStep) : Prop :=
  (∃ x err, EvaluateCondition (PsIf st) (Some x) = Err err) ∨
  (∃ x inputs err, render_pairs x (range_map inputs) inputs = Err err) ∨
  (∃ b, PsBuiltin st = Some b ∧ BAction b ∉ builtinRegistry) ∨
  (∃ x env err, render_pairs x (range_map (RunEnv (PsRun st))) env = Err err) ∨
  (∃ x err, Interpolate (Script (PsRun st)) (Some x) = Err err).

(** The results are those of the first [n] steps, none of them failed. *)
Record progress (n : nat) (s : EngState) : Prop := {
  pr_ids : map RStepID (gsteps s) = map PsID (take n (PSteps p));
  pr_ok : Forall not_failed (gsteps s);
  pr_results : ∀ k r, gsteps s !! k = Some r → recorded k r;
  pr_states : states_ok (gstates s)
}.

(** The shape of a result that reports a failure: the steps up to one that
    failed — or that could not be started — have their results, and the steps
    behind it are skipped. *)
Definition failure_report (r : JobResult) : Prop :=
  Cancelled r = false ∧ map RStepID (StepResults r) = map PsID (PSteps p) ∧
  ∃ good bad rest, StepResults r = good ++ bad ++ rest ∧
    Forall not_failed good ∧ Forall failed bad ∧ Forall skipped rest ∧
    (∀ k x, (good ++ bad) !! k = Some x → recorded k x) ∧
    (length bad = 1 ∨ (bad = [] ∧ ∃ st, PSteps p !! length good = Some st ∧ unstartable st)).

(** The job was cancelled after some of the steps: before the next one, or by it. *)
Definition cancel_report (r : JobResult) : Prop :=
  let n := length (StepResults r) in
  Cancelled r = true ∧ Forall not_failed (StepResults r) ∧
  map RStepID (StepResults r) `prefix_of` map PsID (PSteps p) ∧
  (∀ k x, StepResults r !! k = Some x → recorded k x) ∧
  (ctxDone n = true ∨
   ∃ st x exit, PSteps p !! n = Some st ∧ executed n st x exit ∧ SeErr x = Some StepCancelled).

(** A run without a report: the secrets or the workspace could not be had. *)
Definition host_failed : Prop :=
  is_ok (fetch (PSecretRefs p)) = false ∨ is_Some makeMetaDir ∨
  ∃ i, i < length (PSteps p) ∧ is_Some (prepareFiles i).

Definition infra_stop (err : option RunError) : Prop :=
  ∃ msg, err = Some (RunInfra msg) ∧ (msg = "panic" ∨ host_failed).

Definition stopped (f : Finished) : Prop :=
  match Reported f with
  | None => infra_stop (RunErr f)
  | Some r => ResJobRunID r = id ∧ Success r = false ∧
      ((failure_report r ∧ RunErr f = Some (RunStepFailed (ResError r))) ∨
       (cancel_report r ∧ RunErr f = Some RunCancelled))
  end.

Definition step_ok (n : nat) (out : StepEnd) : Prop :=
  match out with Go s => progress n s | Stop f => stopped f end.

Lemma panic_stop n : step_ok n stop_panic.
Proof. eexists. split; [done|by left]. Qed.

(** [n] results are there after [n] steps. *)
Lemma progress_length n s : progress n s → n ≤ length (PSteps p) → length (gsteps s) = n.
Proof.
  intros [Hids _ _ _] Hn. apply (f_equal length) in Hids. rewrite !length_map, length_take in Hids. lia.
Qed.

Lemma failJob_ok n from good bad err :
  Forall not_failed good → Forall failed bad →
  (∀ k x, (good ++ bad) !! k = Some x → recorded k x) →
  (length bad = 1 ∨ (bad = [] ∧ ∃ st, PSteps p !! length good = Some st ∧ unstartable st)) →
  map RStepID (good ++ bad) = map PsID (take from (PSteps p)) →
  step_ok n (failJob id p from (good ++ bad) err).
Proof.
  intros Hg Hb Hr Hl Hids. split_and!; [done..|]. left.
  split; [|done]. split_and!; simpl.
  - done.
  - rewrite map_app, Hids, map_map. change (fun x => RStepID (skipped_result x)) with PsID.
    by rewrite <-map_app, take_drop.
  - exists good, bad, (map skipped_result (drop from (PSteps p))). split_and!; try done.
    + by rewrite <-app_assoc.
    + apply Forall_forall. intros r Hx. change @map with @list_fmap in Hx.
      by apply list_elem_of_fmap in Hx as (st & -> & _).
Qed.

Lemma failJob_here n i st s err :
  progress i s → PSteps p !! i = Some st → unstartable st → step_ok n (failJob id p i (gsteps s) err).
Proof.
  intros Hp Hst Hu. pose proof (progress_length _ _ Hp) as Hlen. destruct Hp.
  rewrite <-(app_nil_r (gsteps s)). apply failJob_ok; rewrite ?app_nil_r; auto.
  right. split; [done|]. exists st. rewrite Hlen; [done|]. apply lookup_lt_Some in Hst. lia.
Qed.

Lemma cancelledJob_ok n i st s err :
  progress i s → PSteps p !! i = Some st →
  (ctxDone i = true ∨ ∃ x exit, executed i st x exit ∧ SeErr x = Some StepCancelled) →
  step_ok n (cancelledJob id (gsteps s) err).
Proof.
  intros Hp Hst Hc. pose proof (progress_length _ _ Hp) as Hlen. destruct Hp.
  assert (length (gsteps s) = i) as E by (apply Hlen; apply lookup_lt_Some in Hst; lia).
  rewrite <-E in Hst, Hc. clear E.
  split_and!; [done..|]. right. split; [|done]. split_and!; simpl; [done|done| |done|naive_solver].
  rewrite pr_ids0. exists (map PsID (drop i (PSteps p))). by rewrite <-map_app, take_drop.
Qed.

(** Taking one more step into account. *)
Lemma results_next i st s res :
  progress i s → PSteps p !! i = Some st → RStepID res = PsID st → ran i st res ∨ passed_by st res →
  ∀ k r, (gsteps s ++ [res]) !! k = Some r → recorded k r.
Proof.
  intros Hp Hst Hid Hres k r Hk. apply lookup_app_Some in Hk as [Hk|[Hle Hk]]; [by eapply (pr_results _ _ Hp)|].
  apply list_lookup_singleton_Some in Hk as [Hk <-].
  assert (k = i) as ->; [|by exists st].
  pose proof (progress_length _ _ Hp) as Hlen. apply lookup_lt_Some in Hst. specialize (Hlen ltac:(lia)). lia.
Qed.

Lemma progress_next i s st res env path state :
  progress i s → PSteps p !! i = Some st → RStepID res = PsID st → not_failed res →
  ran i st res ∨ passed_by st res →
  (stOutcome state = outcomeFailure → stConclusion state = conclusionOK) →
  progress (S i) {| genv := env; gstates := <[PsID st := state]> (gstates s); gpath := path;
                    gsteps := gsteps s ++ [res] |}.
Proof.
  intros Hp Hst Hid Hok Hres Hstate. pose proof (results_next _ _ _ _ Hp Hst Hid Hres) as Hall.
  destruct Hp. split; simpl.
  - rewrite (take_S_r _ _ _ Hst). rewrite !map_app, pr_ids0. simpl. by rewrite Hid.
  - apply Forall_app. by repeat constructor.
  - exact Hall.
  - intros k st'. rewrite lookup_insert. case_decide; [by intros [= <-]|apply pr_states0].
Qed.

Lemma conclude_ok i st s x outs exit txt :
  progress i s → PSteps p !! i = Some st → executed i st x exit →
  step_ok (S i) (conclude id p i st s x outs exit txt).
Proof.
  intros Hp Hst Hx. unfold conclude. destruct (fold_commands x outs (genv s) (gpath s)) as [[outs' env'] path'].
  destruct (SeErr x) as [[|msg]|] eqn:He.
  - eapply cancelledJob_ok; [done..|]. right. eauto.
  - destruct (PsContinueOnError st) eqn:Hcont.
    + apply progress_next; try done. left. exists x. rewrite He, Hcont. by split_and!.
    + assert (ran i st (step_result (PsID st) outcomeFailure conclusionFail exit (SeDuration x))) as Hran.
      { exists x. rewrite He, Hcont. by split_and!. }
      apply failJob_ok; [by destruct Hp|by repeat constructor| |by left|].
      * eapply results_next; [done..|by left].
      * replace (i + 1) with (S i) by lia. rewrite (take_S_r _ _ _ Hst). destruct Hp.
        by rewrite !map_app, pr_ids0.
  - apply progress_next; try done. left. exists x. rewrite He. by split_and!.
Qed.

Lemma skip_step_ok i st s out concl :
  progress i s → PSteps p !! i = Some st → concl ≠ conclusionFail → out ≠ outcomeFailure →
  passed_by st (step_result (PsID st) out concl 0 0) →
  step_ok (S i) (skip_step st out concl s).
Proof. intros Hp Hst Hc Ho Hb. apply progress_next; try done. by right. Qed.

Lemma with_genv_progress i s env : progress i s → progress i (with_genv env s).
Proof. by intros []. Qed.

Lemma final_inputs_err x st ws inputs err :
  final_inputs x st ws inputs = Err err → render_pairs x (range_map inputs) inputs = Err err.
Proof. unfold final_inputs. by destruct (render_pairs _ _ _); intros [= ->]. Qed.

Lemma perform_ok i st ws senv x s :
  progress i s → PSteps p !! i = Some st → step_ok (S i) (perform id p i st ws senv x s).
Proof.
  intros Hp Hst. unfold perform, perform_js, perform_builtin, perform_run.
  assert (∀ inputs err, final_inputs x st ws inputs = Err err → unstartable st) as Hin.
  { intros inputs err E%final_inputs_err. right. left. eauto. }
  destruct (PsJS st) as [js|] eqn:Hjs.
  { destruct (final_inputs _ _ _ _) as [inputs|[k err]|] eqn:Ef;
      [|by eapply failJob_here; eauto|apply panic_stop].
    apply conclude_ok; [done..|]. left. by eexists _, _, _, _. }
  destruct (PsComposite st) eqn:Hcomp; [apply skip_step_ok; try done; right; by eauto|].
  destruct (PsBuiltin st) as [b|] eqn:Hb.
  { destruct (final_inputs _ _ _ _) as [inputs|[k err]|] eqn:Ef; [|by eapply failJob_here; eauto|apply panic_stop].
    case_bool_decide as Hreg.
    - apply conclude_ok; [done..|]. right. left. by eexists _, _, _.
    - eapply failJob_here; [done..|]. right. right. left. eauto. }
  assert (∀ script, step_ok (S i) (perform_script id p i st senv x s script)) as Hrun.
  { intros script. unfold perform_script. destruct (render_pairs _ _ _) as [env'|[k err]|] eqn:Er.
    - apply conclude_ok; [done..|]. right. right. by eexists _, _.
    - eapply failJob_here; [done..|]. right. right. right. left. eauto.
    - apply panic_stop. }
  destruct (HasExpression _); [|apply Hrun].
  destruct (Interpolate _ _) as [script|err|] eqn:Ei; [apply Hrun| |apply panic_stop].
  eapply failJob_here; [done..|]. do 4 right. eauto.
Qed.

Lemma run_step_ok i st ws s :
  progress i s → PSteps p !! i = Some st → step_ok (S i) (run_step e id p ws i st s).
Proof.
  intros Hp Hst. unfold run_step. destruct (ctxDone i) eqn:Hctx; [by eapply cancelledJob_ok; eauto|].
  destruct (prepareFiles i) as [err|] eqn:Hprep.
  { eexists. split; [done|]. right. right. right. exists i. rewrite Hprep. apply lookup_lt_Some in Hst. eauto. }
  pose proof (with_genv_progress i s (with_meta e i (genv s)) Hp) as Hp'.
  case_bool_decide as Hif; [|by apply perform_ok].
  destruct (EvaluateCondition _ _) as [[]|err|] eqn:Ec; [by apply perform_ok| | |apply panic_stop].
  - apply skip_step_ok; try done. left. eauto.
  - eapply failJob_here; [exact Hp'|exact Hst|]. left. eauto.
Qed.

Lemma run_steps_ok ws i rest s :
  progress i s → rest `prefix_of` drop i (PSteps p) →
  step_ok (i + length rest) (run_steps e id p ws i rest s).
Proof.
  revert i s. induction rest as [|st rest IH]; intros i s Hp [tl Hd]; simpl.
  - by rewrite Nat.add_0_r.
  - assert (PSteps p !! i = Some st) as Hst.
    { rewrite <-(Nat.add_0_r i), <-lookup_drop. by rewrite Hd. }
    pose proof (run_step_ok i st ws s Hp Hst) as Hok.
    destruct (run_step e id p ws i st s) as [s'|f]; [|done].
    rewrite (drop_S _ _ _ Hst) in Hd. injection Hd as Hd.
    replace (i + S (length rest)) with (S i + length rest) by lia. apply IH; [done|]. by exists tl.
Qed.

Definition start_state (env : gmap string string) : EngState :=
  {| genv := env; gstates := ∅; gpath := []; gsteps := [] |}.

Lemma start_progress env : progress 0 (start_state env).
Proof. by split. Qed.

(** The environment of the job, rendered before anything else. *)
Definition job_env : outcome (string * ExprError) (gmap string string) :=
  render_pairs (jobEnv e p) (range_map (start_env e id p)) (start_env e id p).

(** What a run may report. *)
Definition report_ok (r : JobResult) (err : option RunError) : Prop :=
  ResJobRunID r = id ∧
  match job_env with
  | Ok _ =>
      (Success r = true ∧ err = None ∧ Cancelled r = false ∧
        map RStepID (StepResults r) = map PsID (PSteps p) ∧ Forall not_failed (StepResults r) ∧
        ∀ k x, StepResults r !! k = Some x → recorded k x) ∨
      (Success r = false ∧ failure_report r ∧ err = Some (RunStepFailed (ResError r))) ∨
      (Success r = false ∧ cancel_report r ∧ err = Some RunCancelled)
  | Err _ => Success r = false ∧ Cancelled r = false ∧ StepResults r = [] ∧ err = Some (RunStepFailed (ResError r))
  | Panic => False
  end.

Lemma Run_ok : let f := Run e id p in
  match Reported f with
  | Some r => report_ok r (RunErr f)
  | None => infra_stop (RunErr f)
  end.
Proof.
  cbv zeta. unfold report_ok. fold job_env. unfold Run, infra_stop, host_failed. cbv zeta. fold job_env.
  destruct job_env as [env1|[k err]|]; simpl; [|by split_and!|eauto].
  destruct (fetch (PSecretRefs p)) as [secrets|err|] eqn:Hfe; simpl; [|eauto 6..].
  destruct (fold_left (add_secret secrets) (PSecretRefs p) (NewMasker, env1, ∅)) as [[m env2] ws].
  destruct makeMetaDir eqn:Hm; simpl; [eauto 7|].
  pose proof (run_steps_ok ws 0 (PSteps p) (start_state env2) (start_progress env2)) as Hok.
  specialize (Hok ltac:(by exists []; rewrite drop_0, app_nil_r)).
  unfold start_state in Hok. destruct (run_steps _ _ _ _ _ _ _) as [s|f]; simpl in Hok.
  - simpl. split; [done|]. left. destruct Hok. rewrite take_ge in pr_ids0 by done. by split_and!.
  - unfold stopped in Hok. destruct (Reported f) as [r|].
    + destruct Hok as (Hid & Hs & [[Hf He]|[Hc He]]); split; auto 7.
    + destruct Hok as (msg & -> & Hc). exists msg. split; [done|]. unfold host_failed in Hc. rewrite Hm, Hfe in Hc. exact Hc.
Qed.

(** ** Status functions in step conditions *)

Lemma jobStatusFor_ok states : states_ok states → jobStatusFor states = jobStatusOK.
Proof.
  intros Hs. unfold jobStatusFor. destruct (find _ (range_map states)) as [[k st]|] eqn:E; [|done].
  apply find_some in E as [Hin Hb]. apply list_elem_of_In, range_map_elem in Hin.
  simpl in Hb. breflect. by destruct (Hs k st Hin).
Qed.

Lemma exprEnv_status env states : jobStatus (exprEnv e p env states) = JobStatusSuccess.
Proof.
  unfold jobStatus, exprEnv, WithWorkspaceHasher, With, Lookup. cbn [contexts].
  repeat rewrite lookup_insert_ne by (by vm_compute). done.
Qed.

Lemma status_conditions env :
  jobStatus env = JobStatusSuccess →
  EvaluateCondition "success()" (Some env) = Ok true ∧
  EvaluateCondition "failure()" (Some env) = Ok false ∧
  EvaluateCondition "cancelled()" (Some env) = Ok false.
Proof. intros Hs. split_and!; lazy -[jobStatus]; rewrite Hs; reflexivity. Qed.

(** ** Secrets *)

Definition registered (v : string) (m : Masker) : Prop := v = "" ∨ v ∈ vals m.

Lemma AddValue_registers v m : registered v (AddValue v m).
Proof.
  unfold registered, AddValue. case_bool_decide; [by left|right]. destruct (existsb _ _) eqn:E.
  - apply existsb_exists in E as (w & Hin%list_elem_of_In & Hw). by breflect; subst.
  - simpl. apply elem_of_app. right. by left.
Qed.

Lemma AddValue_keeps v w m : registered w m → registered w (AddValue v m).
Proof.
  intros [->|Hw]; [by left|right]. unfold AddValue. do 2 (case_match; [done|]). simpl.
  apply elem_of_app. by left.
Qed.

(** Every value a secret put somewhere is registered. *)
Definition secrets_registered (env1 : gmap string string) (acc : Masker * gmap string string * gmap string string)
    : Prop :=
  let '(m, env, ws) := acc in
  (∀ k v, ws !! k = Some v → registered v m) ∧
  (∀ k v, env !! k = Some v → env1 !! k = Some v ∨ registered v m).

Lemma add_secrets_registered secrets env1 refs acc :
  secrets_registered env1 acc → secrets_registered env1 (fold_left (add_secret secrets) refs acc).
Proof.
  revert acc. induction refs as [|ref refs IH]; intros acc Hacc; simpl; [done|]. apply IH.
  destruct acc as [[m env] ws]. destruct Hacc as [Hws Henv]. unfold add_secret.
  destruct (secrets !! _) as [v|]; [|by split].
  assert (∀ k w, ws !! k = Some w → registered w (AddValue v m)) as Hws'
    by (intros; apply AddValue_keeps; eauto).
  assert (∀ k w, env !! k = Some w → env1 !! k = Some w ∨ registered w (AddValue v m)) as Henv'.
  { intros k w Hk. destruct (Henv k w Hk); auto using AddValue_keeps. }
  destruct (has_prefix _ _); [|case_bool_decide]; split; try done; intros k w; rewrite lookup_insert;
    (case_decide; [intros [= <-]|eauto]); auto using AddValue_registers.
Qed.
End engine.

(** ** The properties *)


(** Before the first step runs, every secret the control plane delivered
    for the plan's references is registered with the masker wherever it went: a
    variable of the job's environment holds a value it already had, or a
    registered one, and the secrets of step inputs are all registered. *)
Theorem delivered_secrets_are_registered (secrets env1 : gmap string string) (refs : list SecretRef) m env2 ws :
  fold_left (add_secret secrets) refs (NewMasker, env1, ∅) = (m, env2, ws) →
  (∀ k v, ws !! k = Some v → registered v m) ∧
  (∀ k v, env2 !! k = Some v → env1 !! k = Some v ∨ registered v m).
Proof.
  intros E. pose proof (add_secrets_registered secrets env1 refs (NewMasker, env1, ∅)) as Hr.
  rewrite E in Hr. apply Hr. split; [done|auto].
Qed.

(** In every state in which the condition of a step is looked at, the job's
    status is success: [failure()] and [cancelled()] hold for no step, and a
    step behind a failed one is skipped whatever its condition. *)
Theorem step_status_is_always_success `{Unicode} `{FloatText} `{JSONText} `{IntConv} `{MapRange} `{Host}
    (e : Engine) (id : JobRunID) (p : Plan) ws i env s stepEnv :
  run_steps e id p ws 0 (take i (PSteps p)) (start_state env) = Go s →
  jobStatusFor (gstates s) = jobStatusOK ∧
  let x := Some (exprEnv e p stepEnv (gstates s)) in
  EvaluateCondition "success()" x = Ok true ∧ EvaluateCondition "failure()" x = Ok false ∧
  EvaluateCondition "cancelled()" x = Ok false.
Proof.
  intros E. pose proof (run_steps_ok e id p ws 0 (take i (PSteps p)) (start_state env)
    (start_progress p env)) as Hok.
  rewrite E, drop_0 in Hok. destruct (Hok (prefix_take _ _)) as [_ _ Hs].
  split; [by apply jobStatusFor_ok|]. apply status_conditions, exprEnv_status.
Qed.

(** ** A concrete run *)

(** A host on which the script [false] exits with 1 and [set] writes an output. *)
Definition demo_effect (script : string) : StepEffect := {|
  SeErr := if bool_decide (script = "false") then Some (StepError "exit status 1") else None;
  SeExit := if bool_decide (script = "false") then 1 else 0; SeDuration := 5; SeOutputs := ∅;
  SeEnvFile := if bool_decide (script = "set") then "COLOUR=red" else "";
  SeOutputFile := if bool_decide (script = "set") then "answer=42" else "";
  SePathFile := ""; SeStateFile := "" |}.

Definition demo_host : Host := {|
  ctxDone := fun _ => false; makeMetaDir := None; prepareFiles := fun _ => None;
  FetchSecrets := fun _ => Ok {[ "repository/TOKEN" := "hunter2" ]};
  runStepScript := fun _ _ script _ => demo_effect script;
  runJS := fun _ _ script _ _ => demo_effect script;
  runHandler := fun _ action _ _ => demo_effect action |}.

Definition demo_engine : Engine := {|
  DefaultEnv := {[ "PATH" := "/bin" ]}; MetaDir := "/work/.forgelet"; GOOS := "linux"; GOARCH := "amd64";
  DirHasher := fun _ => inr "" |}.

Definition script_step (id cond script : string) : PlanStep := {|
  PsID := id; PsName := ""; PsIf := cond; PsRun := {| Script := script; Shell := ""; RunEnv := ∅ |};
  PsBuiltin := None; PsJS := None; PsComposite := None; PsContinueOnError := false; PsWorkingDir := "" |}.

Definition demo_plan (steps : list PlanStep) : Plan := {|
  PJobRunID := "idx"; PRepository := {| RepoProvider := "github"; RepoOwner := "acme"; RepoName := "app" |};
  PEventName := "push"; PActor := "alice"; PSHA := "abc"; PRef := "refs/heads/main"; PRunnerClass := "linux";
  PEnv := ∅; PSteps := steps;
  PSecretRefs := [{| SRScope := "repository"; SRName := "TOKEN"; SREnv := "TOKEN" |}]; PTimeoutSecs := 0 |}.

Section demo.
#[local] Existing Instances ascii_unicode demo_float_text some_order demo_host.
#[local] Instance no_json : JSONText :=
  {| json_Marshal := fun _ => inl "no JSON"; json_Decode := fun _ => inl "no JSON" |}.
#[local] Instance no_int : IntConv := {| int_of_other := fun _ => 0%Z |}.

Definition conclusions (f : Finished) : option (list string) :=
  (fun r => map Conclusion (StepResults r)) <$> Reported f.

(** An output of one step is seen by the condition of the next. *)
Example outputs_reach_conditions :
  conclusions (Run demo_engine "idx" (demo_plan
    [script_step "a" "" "set"; script_step "b" "steps.a.outputs.answer == '42'" "true";
     script_step "c" "env.COLOUR == 'blue'" "true"]))
  = Some ["success"; "success"; "skipped"].
Proof. vm_compute. reflexivity. Qed.

(** A step with [if: always()] does not run behind a failed step. *)
Example always_is_skipped :
  conclusions (Run demo_engine "idx" (demo_plan
    [script_step "a" "" "false"; script_step "cleanup" "always()" "true"]))
  = Some ["failure"; "skipped"].
Proof. vm_compute. reflexivity. Qed.

Definition one_step : PlanStep := script_step "a" "" "set".
Definition one_run : StepEnd := run_steps demo_engine "idx" (demo_plan [one_step]) ∅ 0 [one_step] (start_state ∅).

Lemma one_run_goes : match one_run with Go _ => true | Stop _ => false end = true.
Proof. vm_compute. reflexivity. Qed.

Lemma step_status_is_always_success_witness :
  ∃ s, one_run = Go s ∧ jobStatusFor (gstates s) = jobStatusOK.
Proof.
  pose proof one_run_goes as Hgo. destruct one_run as [s|f] eqn:E; [|discriminate Hgo].
  exists s. split; [reflexivity|].
  apply (step_status_is_always_success demo_engine "idx" (demo_plan [one_step]) ∅ 1 ∅ s ∅). exact E.
Defined.
End demo.

Definition demo_injected :=
  fold_left (add_secret {[ "repository/TOKEN" := "hunter2" ]}) (PSecretRefs (demo_plan [])) (NewMasker, ∅, ∅).

Lemma demo_injected_token : snd (fst demo_injected) !! "TOKEN" = Some "hunter2".
Proof. vm_compute. reflexivity. Qed.

Lemma delivered_secrets_are_registered_witness : ∃ m env2 ws, demo_injected = (m, env2, ws) ∧ registered "hunter2" m.
Proof.
  pose proof demo_injected_token as Ht. destruct demo_injected as [[m env2] ws] eqn:E.
  exists m, env2, ws. split; [reflexivity|].
  destruct (delivered_secrets_are_registered _ _ _ _ _ _ E) as [_ Henv].
  destruct (Henv "TOKEN" "hunter2" Ht) as [Hn|Hr]; [discriminate Hn|exact Hr].
Defined.
