(* ===== verification/StepOutput.v ===== *)
(** * The output of a step (engine.go: runStepScript's reader, emitLine)

    The reader cuts the bytes of the step's pipe into lines, whatever the
    chunks they arrive in; [emitLine] takes a workflow command or logs the line
    through the masking handler. *)

From Stdlib Require Import Ascii.
From S2P Require Import Prelude GoStrings StepCommands Masking.

Local Open Scope go_scope.

(** ** Cutting lines *)

Definition cr : string := byte_str 13.

(** The inner loop: the complete lines of the buffer and what is left of it. *)
Fixpoint cut_lines (fuel : nat) (buf : string) : list string * string :=
  match fuel with
  | O => ([], buf)
  | S fuel' =>
      match index buf nl with
      | None => ([], buf)
      | Some idx =>
          let '(lines, rest) := cut_lines fuel' (str_drop (idx + 1) buf) in
          (trim_suffix (str_take idx buf) cr :: lines, rest)
      end
  end.

(** Each iteration takes a line break off the buffer. *)
Definition take_lines (buf : string) : list string * string := cut_lines (String.length buf) buf.

(** The reader over the chunks read before the end of the pipe. *)
Fixpoint read_loop (buf : string) (chunks : list string) : list string :=
  match chunks with
  | [] => if bool_decide (buf = "") then [] else [buf]
  | c :: rest => let '(lines, buf') := take_lines (buf +:+ c) in lines ++ read_loop buf' rest
  end.

Definition output_lines (chunks : list string) : list string := read_loop "" chunks.

(** ** Emitting a line *)

(** [fmt.Sprint] of a [map[string]string], which prints in key order. *)
Definition sprint_map (m : option (gmap string string)) : string :=
  let ps := sort_by (fun a b => str_lt (fst a) (fst b)) (map_to_list (default ∅ m)) in
  "map[" +:+ join (map (fun p => fst p +:+ ":" +:+ snd p) ps) " " +:+ "]".

Section emit.
Context `{Unicode} {I : Type} {sink : SlogHandler I}.

Definition log_info (msg : string) (attrs : list (string * string)) (h : Handler I) : Handler I :=
  fst (Handle h {| Message := msg; Attrs := map (fun p => (fst p, StringValue (snd p))) attrs |}).

Definition emitLine (h : Handler I) (line : string) : Handler I :=
  match ParseCommand line with
  | Some cmd =>
      if bool_decide (CmdName cmd = "add-mask")
      then {| inner := inner h; masker := AddValue (CmdMessage cmd) (masker h) |}
      else if bool_decide (CmdName cmd ∈ ["group"; "endgroup"])
      then log_info "group" [("action", CmdName cmd); ("title", CmdMessage cmd)] h
      else if bool_decide (CmdName cmd ∈ ["warning"; "error"; "notice"; "debug"])
      then log_info "annotation" [("level", CmdName cmd); ("message", CmdMessage cmd);
                                  ("params", sprint_map (Parameters cmd))] h
      else h
  | None => log_info "out" [("message", line)] h
  end.

(** The reader's goroutine on the chunks of a step. *)
Definition stream_output (h : Handler I) (chunks : list string) : Handler I :=
  fold_left emitLine (output_lines chunks) h.

(** ** What reaches the inner handler *)

(** No string of the record holds the value. *)
Definition record_clean (v : string) (r : LogRecord) : Prop :=
  contains (Message r) v = false ∧ ∀ k s, (k, StringValue s) ∈ Attrs r → contains s v = false.

(** The inner handler went from one state to the other by records without the value. *)
Definition clean_step (v : string) (i j : I) : Prop :=
  ∃ r, record_clean v r ∧ j = fst (slog_Handle i r).

Definition clean_steps (v : string) : I → I → Prop := rtc (clean_step v).

Lemma log_info_clean msg attrs h v :
  v ∈ vals (masker h) → v ≠ "" → star_free v →
  masker (log_info msg attrs h) = masker h ∧ clean_step v (inner h) (inner (log_info msg attrs h)).
Proof.
  intros Hin Hv Hf. unfold log_info, Handle. destruct (slog_Handle _ _) as [i ok] eqn:E. simpl.
  split; [done|]. eexists. split; [|by rewrite E].
  split; [by apply apply_hides|]. intros k s (a & Ha & _)%list_elem_of_In%in_map_iff.
  destruct a as [k' [w| |]]; unfold mask_attr in Ha; simpl in Ha; simplify_eq. by apply apply_hides.
Qed.

Lemma emitLine_clean h line v :
  v ∈ vals (masker h) → v ≠ "" → star_free v →
  v ∈ vals (masker (emitLine h line)) ∧ clean_steps v (inner h) (inner (emitLine h line)).
Proof.
  intros Hin Hv Hf.
  assert (∀ msg attrs, v ∈ vals (masker (log_info msg attrs h)) ∧
            clean_steps v (inner h) (inner (log_info msg attrs h))) as Hlog.
  { intros msg attrs. destruct (log_info_clean msg attrs h v) as [-> ?]; [done..|].
    split; [done|]. by apply rtc_once. }
  unfold emitLine. destruct (ParseCommand line) as [cmd|]; [|apply Hlog].
  repeat case_bool_decide; try apply Hlog; (split; [|apply rtc_refl]); simpl; [|done].
  apply AddValue_spec. by left.
Qed.

Lemma emit_lines_clean lines h v :
  v ∈ vals (masker h) → v ≠ "" → star_free v →
  v ∈ vals (masker (fold_left emitLine lines h)) ∧
  clean_steps v (inner h) (inner (fold_left emitLine lines h)).
Proof.
  intros Hin Hv Hf. revert h Hin. induction lines as [|l lines IH]; intros h Hin; simpl.
  - split; [done|apply rtc_refl].
  - destruct (emitLine_clean h l v) as [Hin' Hs]; [done..|].
    destruct (IH _ Hin') as [? ?]. split; [done|]. by etrans.
Qed.
End emit.

(** ** Lines do not depend on the chunks *)

Definition nl_byte : ascii := "010"%char.

Definition concat_str (l : list string) : string := foldr String.append "" l.

(** The lines of a text: what its line breaks separate, without the carriage
    return before the break; the rest after the last break, unless empty. *)
Definition text_lines (s : string) : list string :=
  let parts := split_on nl_byte s in
  map (fun l => trim_suffix l cr) (removelast parts) ++
  (if bool_decide (List.last parts "" = "") then [] else [List.last parts ""]).

Lemma split_on_app sep x y :
  split_on sep (x +:+ y) =
  removelast (split_on sep x) ++ split_on sep (List.last (split_on sep x) "" +:+ y).
Proof.
  induction x as [|c x IH]; simpl; [done|].
  pose proof (split_on_nonempty sep x) as Hne.
  case_bool_decide as Hc.
  - rewrite IH. by destruct (split_on sep x).
  - rewrite IH. destruct (split_on sep x) as [|w [|w' ws]]; simpl; [done| |done].
    by rewrite bool_decide_eq_false_2.
Qed.

Lemma split_on_last_free sep s : byte_in sep (List.last (split_on sep s) "") = false.
Proof.
  induction s as [|c s IH]; simpl; [done|]. pose proof (split_on_nonempty sep s).
  case_bool_decide as Hc; destruct (split_on sep s) as [|w [|w' ws]]; simpl in *; try done.
  rewrite bool_decide_eq_false_2 by congruence. done.
Qed.

Lemma first_byte c s : byte_in c s = true → ∃ a b, s = a +:+ String c b ∧ byte_in c a = false.
Proof.
  induction s as [|d s IH]; simpl; [done|]. destruct (decide (c = d)) as [<-|Hn].
  - intros _. by exists "", s.
  - rewrite bool_decide_eq_false_2 by done. intros (a & b & -> & Ha)%IH.
    exists (String d a), b. split; [done|]. simpl. by rewrite bool_decide_eq_false_2.
Qed.

(** The loop takes exactly the terminated lines. *)
Lemma cut_lines_spec fuel buf :
  String.length buf ≤ fuel →
  cut_lines fuel buf = (map (fun l => trim_suffix l cr) (removelast (split_on nl_byte buf)),
                        List.last (split_on nl_byte buf) "").
Proof.
  revert buf. induction fuel as [|fuel IH]; intros buf Hlen.
  { by destruct buf; [|simpl in Hlen; lia]. }
  simpl. destruct (byte_in nl_byte buf) eqn:Eb.
  - apply first_byte in Eb as (a & b & -> & Ha).
    change nl with (String nl_byte ""). rewrite index_byte_app, str_drop_app_S, str_take_app by done.
    rewrite split_on_app_free by done. rewrite app_str_length in Hlen. simpl in Hlen.
    rewrite IH by lia. pose proof (split_on_nonempty nl_byte b). by destruct (split_on nl_byte b).
  - rewrite (index_absent_byte buf nl_byte) by done. by rewrite split_on_free.
Qed.

Lemma read_loop_spec buf chunks :
  byte_in nl_byte buf = false → read_loop buf chunks = text_lines (buf +:+ concat_str chunks).
Proof.
  revert buf. induction chunks as [|c chunks IH]; intros buf Hf; simpl.
  - unfold text_lines. by rewrite app_str_nil_r, split_on_free.
  - unfold take_lines. rewrite cut_lines_spec by done. rewrite IH by apply split_on_last_free.
    unfold text_lines. rewrite <-app_str_assoc, (split_on_app nl_byte (buf +:+ c)).
    pose proof (split_on_nonempty nl_byte
      (List.last (split_on nl_byte (buf +:+ c)) "" +:+ concat_str chunks)) as Hne.
    rewrite removelast_app, map_app, <-app_assoc by done. f_equal.
    rewrite app_removelast_last with (l := split_on nl_byte (_ +:+ concat_str chunks)) (d := "") by done.
    by rewrite app_assoc, !last_last.
Qed.

(** C30. Whatever chunks the pipe delivers, the lines emitted are the lines of
    the whole output: what its line breaks separate, each without the carriage
    return before its break, and the rest after the last break when there is
    one. *)
Theorem output_lines_of_bytes chunks : output_lines chunks = text_lines (concat_str chunks).
Proof. by apply read_loop_spec. Qed.

Section theorem.
Context `{Unicode} {I : Type} {sink : SlogHandler I}.

(** C29. A star-free secret never reaches the log of a step once it is
    registered: when the masker holds it before the step, every record the inner
    handler receives from the step's output is free of it; when the output
    registers it with [::add-mask::], every record after that line is, however
    the bytes were cut into chunks. *)
Theorem step_output_hides_secrets (h : Handler I) chunks v :
  v ≠ "" → star_free v →
  (v ∈ vals (masker h) → clean_steps v (inner h) (inner (stream_output h chunks))) ∧
  (∀ pre line post cmd,
     text_lines (concat_str chunks) = pre ++ line :: post → ParseCommand line = Some cmd →
     CmdName cmd = "add-mask" → CmdMessage cmd = v →
     clean_steps v (inner (fold_left emitLine pre h)) (inner (stream_output h chunks))).
Proof.
  intros Hv Hf. unfold stream_output, output_lines. rewrite read_loop_spec by done. split.
  - intros Hin. by apply emit_lines_clean.
  - intros pre line post cmd E Hp Hn Hm. unfold concat_str in *. simpl. rewrite E, fold_left_app. simpl.
    assert (inner (emitLine (fold_left emitLine pre h) line) = inner (fold_left emitLine pre h) ∧
            v ∈ vals (masker (emitLine (fold_left emitLine pre h) line))) as [Hi Hin].
    { unfold emitLine. rewrite Hp, bool_decide_eq_true_2 by done. simpl. split; [done|].
      apply AddValue_spec. right. by subst v. }
    rewrite <-Hi. by apply emit_lines_clean.
Qed.
End theorem.

(** A step prints a token in two chunks, after registering it. *)
Definition demo_chunks : list string := ["::add-mask::t0p" +:+ nl +:+ "use t0"; "p now" +:+ cr_nl].

Lemma step_output_hides_secrets_witness :
  clean_steps "t0p" (inner {| inner := []; masker := NewMasker |})
    [([], {| Message := "out"; Attrs := [("message", StringValue "use *** now")] |})].
Proof.
  apply (proj2 (@step_output_hides_secrets ascii_unicode _ collecting_handler
           {| inner := []; masker := NewMasker |} demo_chunks "t0p"
           ltac:(discriminate) ltac:(reflexivity))
         [] "::add-mask::t0p" ["use t0p now"]
         {| CmdName := "add-mask"; Parameters := None; CmdMessage := "t0p" |}); reflexivity.
Defined.
