(* ===== verification/FilePath.v ===== *)
(** * Lexical file paths (path/filepath on Unix)

    [Clean], [Join], [Dir] and [IsAbs] as the executor uses them.  A clean
    rooted path is the list of its elements ([rooted_path]); the lemmas reduce
    [Clean] and [Join] on such paths to operations on the lists. *)

From Stdlib Require Import Ascii.
From S2P Require Import Prelude GoStrings.

Definition slash : ascii := "/"%char.

(** The stack of elements kept so far, the last one first. *)
Fixpoint clean_go (rooted : bool) (acc els : list string) : list string :=
  match els with
  | [] => rev acc
  | e :: els' =>
      if bool_decide (e = "") || bool_decide (e = ".") then clean_go rooted acc els'
      else if bool_decide (e = "..") then
        match acc with
        | [] => clean_go rooted (if rooted then [] else [".."]) els'
        | a :: acc' => if bool_decide (a = "..") then clean_go rooted (".." :: acc) els'
                       else clean_go rooted acc' els'
        end
      else clean_go rooted (e :: acc) els'
  end.

Definition IsAbs (path : string) : bool := has_prefix path "/".

(** [filepath.Clean] *)
Definition Clean (path : string) : string :=
  if bool_decide (path = "") then "."
  else
    let els := clean_go (IsAbs path) [] (split_on slash path) in
    if IsAbs path then "/" +:+ join els "/"
    else if bool_decide (els = []) then "." else join els "/".

(** [filepath.Join] of two elements; empty ones are ignored. *)
Definition Join (a b : string) : string :=
  if bool_decide (a ≠ "") then Clean (a +:+ "/" +:+ b)
  else if bool_decide (b ≠ "") then Clean b else "".

(** [filepath.Dir] *)
Definition Dir (path : string) : string :=
  match last_index slash path with
  | Some i => Clean (str_take (i + 1) path)
  | None => "."
  end.

(** ** Elements *)

(** An element of a clean path. *)
Definition plain (e : string) : Prop := e ≠ "" ∧ e ≠ "." ∧ e ≠ ".." ∧ byte_in slash e = false.

#[export] Instance plain_dec e : Decision (plain e).
Proof. unfold plain. apply _. Defined.

Definition rooted_path (els : list string) : string := "/" +:+ join els "/".

(** [p] is [root] or lies below it. *)
Definition inside (root p : string) : Prop := p = root ∨ has_prefix p (root +:+ "/") = true.

Lemma split_on_elements sep s e : e ∈ split_on sep s → byte_in sep e = false.
Proof.
  revert e. induction s as [|c s IH]; intros e; simpl; [by intros ->%list_elem_of_singleton|].
  case_bool_decide as Hc; [by intros [->|?]%elem_of_cons; auto|].
  pose proof (split_on_nonempty sep s) as Hne. destruct (split_on sep s) as [|w ws]; [done|].
  intros [->|Hin]%elem_of_cons; [|apply IH, list_elem_of_further, Hin].
  simpl. rewrite bool_decide_eq_false_2 by congruence. apply IH, list_elem_of_here.
Qed.

Lemma clean_go_plain acc els :
  Forall plain acc → Forall (fun e => byte_in slash e = false) els → Forall plain (clean_go true acc els).
Proof.
  revert acc. induction els as [|e els IH]; intros acc Ha He; simpl; [by apply Forall_rev|].
  inversion_clear He. destruct (bool_decide (e = "") || bool_decide (e = ".")) eqn:E1; [auto|].
  apply orb_false_iff in E1 as [?%bool_decide_eq_false ?%bool_decide_eq_false].
  case_bool_decide as E2.
  - destruct acc as [|a acc']; [auto|]. inversion_clear Ha as [|? ? Hp ?].
    case_bool_decide as E3; [subst a; by destruct Hp as (_ & _ & ? & _)|auto].
  - apply IH; [|done]. constructor; [|done]. by repeat split.
Qed.

(** Elements without dots are kept; empty ones and dots are dropped. *)
Definition keeps (e : string) : bool := negb (bool_decide (e = "") || bool_decide (e = ".")).

Lemma clean_go_down rooted acc els :
  Forall (fun e => e ≠ "..") els → clean_go rooted acc els = rev acc ++ List.filter keeps els.
Proof.
  revert acc. induction els as [|e els IH]; intros acc He; simpl; [by rewrite app_nil_r|].
  inversion_clear He as [|? ? Hn ?]. unfold keeps at 1.
  destruct (bool_decide (e = "") || bool_decide (e = ".")); simpl; [auto|].
  rewrite bool_decide_eq_false_2 by done. rewrite IH by done. simpl. by rewrite <-app_assoc.
Qed.

Lemma filter_plain els : Forall plain els → List.filter keeps els = els.
Proof.
  induction 1 as [|e els (H1 & H2 & _) _ IH]; simpl; [done|].
  unfold keeps at 1. rewrite !bool_decide_eq_false_2 by done. simpl. by rewrite IH.
Qed.

Lemma clean_go_app rooted acc xs ys :
  Forall plain xs → clean_go rooted acc (xs ++ ys) = clean_go rooted (rev xs ++ acc) ys.
Proof.
  intros Hx. revert acc. induction Hx as [|e xs (H1 & H2 & H3 & _) _ IH]; intros acc; simpl; [done|].
  rewrite !bool_decide_eq_false_2 by done. simpl. rewrite IH. by rewrite <-app_assoc.
Qed.

(** ** Clean rooted paths *)

Lemma split_rooted els :
  Forall plain els → split_on slash (rooted_path els) = "" :: (if decide (els = []) then [""] else els).
Proof.
  intros Hp. unfold rooted_path.
  change ("/" +:+ join els "/") with ("" +:+ String slash (join els "/")).
  rewrite split_on_app_free by done. f_equal.
  case_decide as Hn; [by subst|]. apply split_on_join; [done|].
  eapply Forall_impl; [exact Hp|]. by intros e (_ & _ & _ & ?).
Qed.

Lemma rooted_abs els : IsAbs (rooted_path els) = true.
Proof. apply has_prefix_spec. by eexists. Qed.

Lemma rooted_nonempty els : rooted_path els ≠ "".
Proof. done. Qed.

Lemma Clean_rooted els : Forall plain els → Clean (rooted_path els) = rooted_path els.
Proof.
  intros Hp. unfold Clean. rewrite bool_decide_eq_false_2 by done. rewrite rooted_abs, split_rooted by done.
  case_decide as Hn; [by subst|]. simpl. unfold rooted_path. do 2 f_equal.
  rewrite clean_go_down; [|eapply Forall_impl; [exact Hp|]; by intros e (_ & _ & ? & _)].
  simpl. by apply filter_plain.
Qed.

(** Every rooted path is the clean path of plain elements. *)
Lemma Clean_abs path : IsAbs path = true → ∃ els, Clean path = rooted_path els ∧ Forall plain els.
Proof.
  intros Ha. assert (path ≠ "") as Hn by by intros ->.
  exists (clean_go true [] (split_on slash path)). split.
  - unfold Clean. by rewrite bool_decide_eq_false_2, Ha.
  - apply clean_go_plain; [done|]. apply Forall_forall. intros e. apply split_on_elements.
Qed.

Lemma join_cons x xs sep : xs ≠ [] → join (x :: xs) sep = x +:+ sep +:+ join xs sep.
Proof. by destruct xs. Qed.

Lemma join_app xs ys sep : xs ≠ [] → ys ≠ [] → join (xs ++ ys) sep = join xs sep +:+ sep +:+ join ys sep.
Proof.
  intros Hx Hy. induction xs as [|x xs IH]; [done|]. destruct (decide (xs = [])) as [->|Hn].
  - simpl app. by rewrite join_cons.
  - change ((x :: xs) ++ ys) with (x :: (xs ++ ys)). rewrite !join_cons; [|done|by destruct xs].
    by rewrite IH, !app_str_assoc.
Qed.

Lemma rooted_inside xs ys : xs ≠ [] → inside (rooted_path xs) (rooted_path (xs ++ ys)).
Proof.
  intros Hx. destruct (decide (ys = [])) as [->|Hy]; [left; by rewrite app_nil_r|right].
  apply has_prefix_spec. exists (join ys "/"). unfold rooted_path. rewrite join_app by done.
  by rewrite !app_str_assoc.
Qed.

Lemma split_on_sep sep s t : split_on sep (s +:+ String sep t) = split_on sep s ++ split_on sep t.
Proof.
  induction s as [|c s IH]; simpl; [by rewrite bool_decide_eq_true_2|].
  pose proof (split_on_nonempty sep s).
  case_bool_decide; rewrite IH; [done|]. by destruct (split_on sep s).
Qed.

(** Joining a name without [..] to a clean rooted path appends its elements. *)
Lemma Join_down els name :
  Forall plain els → Forall (fun e => e ≠ "..") (split_on slash name) →
  Join (rooted_path els) name = rooted_path (els ++ List.filter keeps (split_on slash name)).
Proof.
  intros Hp Hn. unfold Join. rewrite bool_decide_eq_true_2 by done. unfold Clean.
  assert (IsAbs (rooted_path els +:+ "/" +:+ name) = true) as Ha.
  { apply has_prefix_spec. unfold rooted_path. rewrite app_str_assoc. by eexists. }
  rewrite bool_decide_eq_false_2 by done. rewrite Ha.
  change ("/" +:+ name) with (String slash name). rewrite split_on_sep.
  rewrite split_rooted by done. unfold rooted_path. do 2 f_equal.
  simpl. case_decide as He; [subst|rewrite (clean_go_app true []) by done].
  - simpl. by rewrite clean_go_down.
  - rewrite clean_go_down by done. by rewrite app_nil_r, rev_involutive.
Qed.
