(* ===== verification/HashFiles.v ===== *)
(** * hashFiles over a workspace (internal/workflow/expression/hashfiles.go)

    [DirHasher.HashFiles]: the walk over the workspace, the files the patterns
    match, and the digest of their contents.  The workspace is a tree as
    [fs.WalkDir] and [os.Open] see it, with the errors of reading it; a directory
    that cannot be listed carries the error.  The globs are those of [Globs]. *)

From Stdlib Require Import Ascii.
From S2P Require Import Prelude GoStrings Globs Secrets ObjectStore StepOutput FilePath.

Local Open Scope go_scope.

(** ** The file system *)

(** An error of the file system, and what [os.IsNotExist] says of it. *)
Record FsError := { fs_text : string; fs_absent : bool }.

(** [Irregular] is a symbolic link, a device and the like, with what reading it
    gives; the entries of a directory are in the order of [fs.ReadDir]. *)
Inductive fs_node :=
  | Regular (content : FsError + string)
  | Irregular (content : FsError + string)
  | Directory (unlisted : option FsError) (entries : list (string * fs_node)).

Section node_ind.
Context (P : fs_node → Prop)
  (Hreg : ∀ c, P (Regular c)) (Hirr : ∀ c, P (Irregular c))
  (Hdir : ∀ u es, Forall (fun e => P (snd e)) es → P (Directory u es)).

Fixpoint workspace_ind (t : fs_node) : P t :=
  match t with
  | Regular c => Hreg c
  | Irregular c => Hirr c
  | Directory u es => Hdir u es ((fix go es : Forall (fun e => P (snd e)) es :=
      match es with [] => Forall_nil_2 _ | e :: es' => Forall_cons_2 _ e es' (workspace_ind (snd e)) (go es') end) es)
  end.
End node_ind.

(** [path.Join(dir, name)] for the name of a directory entry. *)
Definition join_name (dir name : string) : string :=
  if bool_decide (dir = ".") then name else dir +:+ "/" +:+ name.

(** [fs.WalkDir] with a function that never returns [SkipDir] or [SkipAll]. *)
Section WalkDir.
Context {A E : Type} (fn : string → option fs_node → option FsError → A → outcome E A).

Fixpoint walkDir (name : string) (t : fs_node) (a : A) : outcome E A :=
  let! a1 := fn name (Some t) None a in
  match t with
  | Directory unlisted entries =>
      let! a2 := match unlisted with Some e => fn name (Some t) (Some e) a1 | None => Ok a1 end in
      (fix each (es : list (string * fs_node)) (a : A) : outcome E A :=
         match es with
         | [] => Ok a
         | (n, t') :: es' => let! a' := walkDir (join_name name n) t' a in each es' a'
         end) entries a2
  | _ => Ok a1
  end.

Definition WalkDir (root : FsError + fs_node) (a : A) : outcome E A :=
  match root with
  | inl e => fn "." None (Some e) a
  | inr t => walkDir "." t a
  end.
End WalkDir.

(** The node [os.Open] finds below the root, following the names of the path. *)
Fixpoint find_node (t : fs_node) (names : list string) : option fs_node :=
  match names with
  | [] => Some t
  | n :: names' =>
      if bool_decide (n = ".") then find_node t names' else
      match t with
      | Directory _ entries =>
          match list_find (fun e => fst e = n) entries with
          | Some (_, (_, t')) => find_node t' names'
          | None => None
          end
      | _ => None
      end
  end.

(** [os.Open] and [io.Copy]. *)
Definition read_file_at (root : FsError + fs_node) (path : string) : FsError + string :=
  match root with
  | inl e => inl e
  | inr t =>
      match find_node t (split_on "/" path) with
      | Some (Regular c) | Some (Irregular c) => c
      | Some (Directory _ _) => inl {| fs_text := "read " +:+ path +:+ ": is a directory"; fs_absent := false |}
      | None => inl {| fs_text := "open " +:+ path +:+ ": no such file or directory"; fs_absent := true |}
      end
  end.

(** ** HashFiles *)

Inductive HashError :=
  | BadPattern (pattern : string)
  | FileSystem (e : FsError).

Definition hash_error_text `{Unicode} (e : HashError) : string :=
  match e with
  | BadPattern pat => "pattern " +:+ quote pat +:+ ": syntax error in pattern"
  | FileSystem e => fs_text e
  end.

(** The loop over the patterns: the first that matches adds the file. *)
Fixpoint match_patterns (patterns : list string) (p : string) (matches : gset string) : outcome HashError (gset string) :=
  match patterns with
  | [] => Ok matches
  | pat :: rest =>
      match hash_matchGlob pat p with
      | None => Err (BadPattern pat)
      | Some true => Ok ({[p]} ∪ matches)
      | Some false => match_patterns rest p matches
      end
  end.

(** The function given to [fs.WalkDir]. *)
Definition collect_match (patterns : list string) (p : string) (entry : option fs_node) (werr : option FsError)
    (matches : gset string) : outcome HashError (gset string) :=
  match werr, entry with
  | Some e, _ => Err (FileSystem e)
  | None, Some (Regular _) => match_patterns patterns p matches
  | None, _ => Ok matches
  end.

(** The contents in the order of the files, or the first error. *)
Fixpoint read_files (root : FsError + fs_node) (files : list string) : FsError + list string :=
  match files with
  | [] => inr []
  | f :: files' =>
      match read_file_at root f with
      | inl e => inl e
      | inr c => match read_files root files' with inl e => inl e | inr cs => inr (c :: cs) end
      end
  end.

Section HashFiles.
Context `{Unicode} `{Sha256}.

Definition digest_of (root : FsError + fs_node) (files : list string) : string + string :=
  match files with
  | [] => inr ""
  | _ => match read_files root files with
         | inl e => inl (fs_text e)
         | inr cs => inr (hex_encode (sha256_sum (concat_str cs)))
         end
  end.

Definition HashFiles (root : FsError + fs_node) (patterns : list string) : string + string :=
  match WalkDir (collect_match patterns) root (∅ : gset string) with
  | Ok matches => digest_of root (sort_strings (elements matches))
  | Err (FileSystem e) => if fs_absent e then inr "" else inl (fs_text e)
  | Err (BadPattern pat) => inl (hash_error_text (BadPattern pat))
  | Panic => inl ""
  end.
End HashFiles.

(** ** The files of a workspace *)

(** Names as directories hold them, and trees without a directory that cannot
    be listed. *)
Definition name_ok (n : string) : Prop := n ≠ "." ∧ byte_in "/" n = false.

Inductive tree_ok : fs_node → Prop :=
  | regular_ok c : tree_ok (Regular c)
  | irregular_ok c : tree_ok (Irregular c)
  | directory_ok es : NoDup es.*1 → Forall (fun e => name_ok (fst e) ∧ tree_ok (snd e)) es → tree_ok (Directory None es).

(** [p] is the path of a regular file below the root. *)
Definition workspace_file (t : fs_node) (p : string) : Prop :=
  Forall (fun n => n ≠ ".") (split_on "/" p) ∧ ∃ c, find_node t (split_on "/" p) = Some (Regular c).

Fixpoint files_below (name : string) (t : fs_node) : list string :=
  match t with
  | Regular _ => [name]
  | Irregular _ => []
  | Directory _ entries =>
      (fix each (es : list (string * fs_node)) : list string :=
         match es with [] => [] | (n, t') :: es' => files_below (join_name name n) t' ++ each es' end) entries
  end.

Definition matched (patterns : list string) (p : string) : bool :=
  existsb (fun pat => bool_decide (hash_matchGlob pat p = Some true)) patterns.

Lemma files_below_dir name u es :
  files_below name (Directory u es) = es ≫= (fun e => files_below (join_name name (fst e)) (snd e)).
Proof. simpl. induction es as [|[n t] es IH]; simpl; [done|]. by rewrite IH. Qed.

Lemma matched_true patterns p :
  matched patterns p = true ↔
  ∃ pat, pat ∈ patterns ∧ GlobMatch (split_on "/" (trim_slashes pat)) (split_on "/" (trim_slashes p)).
Proof.
  unfold matched. rewrite existsb_exists.
  split; intros (pat & Hin & Hp); exists pat; rewrite list_elem_of_In in *; (split; [done|]).
  - apply bool_decide_eq_true in Hp. by apply matchSegments_correct.
  - apply bool_decide_eq_true. by apply matchSegments_correct.
Qed.

Lemma sort_strings_sorted l : StronglySorted String.le (sort_strings l).
Proof.
  assert (StronglySorted (le_of str_lt) (sort_strings l)) as Hs.
  { apply sort_by_sorted; [intros a b c; apply str_le_trans|apply str_lt_asym]. }
  revert Hs. generalize (sort_strings l). intros l' Hs. induction Hs as [|a l' _ IH Ha]; constructor; [done|].
  eapply Forall_impl; [exact Ha|]. intros b. apply str_lt_le.
Qed.

(** The names from the root to a path. *)
Definition path_of (names : list string) : string := if bool_decide (names = []) then "." else join names "/".

Lemma path_of_split names : Forall name_ok names → names ≠ [] → split_on "/" (path_of names) = names.
Proof.
  intros Hok Hne. unfold path_of. rewrite bool_decide_eq_false_2 by done. apply split_on_join; [done|].
  eapply Forall_impl; [exact Hok|]. by intros ? [].
Qed.

Lemma join_name_path names n : Forall name_ok names → join_name (path_of names) n = path_of (names ++ [n]).
Proof.
  intros Hok. unfold join_name. case_bool_decide as E.
  - destruct names as [|a names]; [done|]. exfalso.
    assert (split_on "/" (path_of (a :: names)) = a :: names) as Hs by (apply path_of_split; [exact Hok|done]).
    rewrite E in Hs. change (["."] = a :: names) in Hs. injection Hs as <- <-. by apply Forall_cons in Hok as [[? _] _].
  - unfold path_of in *. case_bool_decide as Hn; [by subst|].
    rewrite bool_decide_eq_false_2 by (by destruct names). by rewrite join_app.
Qed.

Lemma find_entry es n t :
  NoDup (fst <$> es) → (n, t) ∈ es → ∃ i, list_find (fun e : string * fs_node => fst e = n) es = Some (i, (n, t)).
Proof.
  intros Hnd Hin. destruct (list_find_elem_of (fun e => fst e = n) es (n, t)) as [[i [n' t']] E]; [done|done|].
  pose proof E as (Hl & Hn & _)%list_find_Some. simpl in Hn. subst n'. exists i. rewrite E. do 2 f_equal.
  apply list_elem_of_lookup in Hin as [j Hj].
  assert (i = j) as <-; [|by simplify_eq].
  eapply (NoDup_lookup _ _ _ n Hnd); rewrite list_lookup_fmap; [by rewrite Hl|by rewrite Hj].
Qed.

(** The walk lists exactly the files that can be opened. *)
Lemma files_below_spec t : tree_ok t → ∀ pre p, Forall name_ok pre →
  p ∈ files_below (path_of pre) t ↔
  ∃ names c, p = path_of (pre ++ names) ∧ Forall name_ok names ∧ find_node t names = Some (Regular c).
Proof.
  induction t as [c|c|u es IH] using workspace_ind; intros Hok pre p Hpre.
  - simpl. rewrite list_elem_of_singleton. split.
    + intros ->. exists [], c. by rewrite app_nil_r.
    + intros ([|n names] & c' & -> & Hn & E); [by rewrite app_nil_r|].
      apply Forall_cons in Hn as [[Hn _] _]. simpl in E. by rewrite bool_decide_eq_false_2 in E.
  - simpl. split; [by intros ?%not_elem_of_nil|]. intros ([|n names] & c' & -> & Hn & E); [done|].
    apply Forall_cons in Hn as [[Hn _] _]. simpl in E. by rewrite bool_decide_eq_false_2 in E.
  - inversion Hok as [| |? Hnd Hall]; subst. rewrite Forall_forall in IH, Hall.
    rewrite files_below_dir, list_elem_of_bind. split.
    + intros ([n t] & Hp & Hin). destruct (Hall _ Hin) as [Hn Ht]. simpl in *.
      rewrite join_name_path in Hp by done.
      apply (IH _ Hin Ht) in Hp as (names & c & -> & Hnames & E); [|by apply Forall_app_2; [|apply Forall_singleton]].
      exists (n :: names), c. rewrite <-app_assoc. split; [done|]. split; [by constructor|]. simpl.
      rewrite bool_decide_eq_false_2 by apply Hn. by destruct (find_entry es n t) as [i ->].
    + intros ([|n names] & c & -> & Hn & E); [done|]. apply Forall_cons in Hn as [Hn Hnames]. simpl in E.
      rewrite bool_decide_eq_false_2 in E by apply Hn.
      destruct (list_find _ es) as [[i [n' t]]|] eqn:Ef; [|done].
      apply list_find_Some in Ef as (Hl & Hn' & _). simpl in Hn'. subst n'.
      apply list_elem_of_lookup_2 in Hl. exists (n, t). split; [|done]. destruct (Hall _ Hl) as [_ Ht]. simpl in *.
      rewrite join_name_path by done. apply (IH _ Hl Ht).
      * by apply Forall_app_2; [|apply Forall_singleton].
      * exists names, c. by rewrite <-app_assoc.
Qed.

Lemma workspace_file_below es p :
  tree_ok (Directory None es) → p ∈ files_below "." (Directory None es) ↔ workspace_file (Directory None es) p.
Proof.
  intros Hok. rewrite (files_below_spec _ Hok [] p) by constructor. unfold workspace_file. split.
  - intros ([|n names] & c & -> & Hn & E); [done|]. change (path_of ([] ++ n :: names)) with (path_of (n :: names)).
    rewrite path_of_split by done. split; [|by exists c]. eapply Forall_impl; [exact Hn|]. by intros ? [].
  - intros (Hp & c & E). exists (split_on "/" p), c. split_and!; [|..|done].
    + unfold path_of. rewrite bool_decide_eq_false_2 by apply split_on_nonempty. symmetry. apply join_split_on.
    + rewrite Forall_forall in *. intros n Hin. split; [by apply Hp|by eapply split_on_elements].
Qed.

(** ** The walk *)

Lemma match_patterns_Ok patterns p m :
  (∀ pat, pat ∈ patterns → hash_matchGlob pat p ≠ None) →
  match_patterns patterns p m = Ok (if matched patterns p then {[p]} ∪ m else m).
Proof.
  induction patterns as [|pat rest IH]; intros Hwf; [done|]. unfold matched in *. simpl.
  pose proof (Hwf pat ltac:(by left)). destruct (hash_matchGlob pat p) as [[]|] eqn:E; [done|..|done].
  rewrite IH by (intros; apply Hwf; by right). done.
Qed.

Lemma walk_collects patterns t : tree_ok t → ∀ name m,
  (∀ p pat, p ∈ files_below name t → pat ∈ patterns → hash_matchGlob pat p ≠ None) →
  ∃ m', walkDir (collect_match patterns) name t m = Ok m' ∧
    ∀ p, p ∈ m' ↔ p ∈ m ∨ (p ∈ files_below name t ∧ matched patterns p = true).
Proof.
  induction t as [c|c|u es IH] using workspace_ind; intros Hok name m Hwf.
  - simpl. rewrite match_patterns_Ok by (intros; apply Hwf; [by left|done]). eexists. split; [done|].
    intros p. rewrite list_elem_of_singleton. destruct (matched patterns name) eqn:E;
      [rewrite elem_of_union, elem_of_singleton|]; split.
    + intros [->|?]; [by right|by left].
    + intros [?|[-> _]]; [by right|by left].
    + by left.
    + intros [?|[-> ?]]; [done|congruence].
  - simpl. eexists. split; [done|]. set_solver.
  - inversion Hok as [| |? _ Hall]; subst. simpl. clear Hok. revert m. rewrite files_below_dir in Hwf.
    induction es as [|[n t] es IHes]; intros m; simpl in *.
    { eexists. split; [done|]. set_solver. }
    apply Forall_cons in IH as [IHt IH]. apply Forall_cons in Hall as [[_ Ht] Hall]. simpl in IHt, Ht.
    destruct (IHt Ht (join_name name n) m) as (m1 & -> & Hm1); [intros; apply Hwf; [by apply elem_of_app; left|done]|].
    simpl. destruct (IHes IH) with (m := m1) as (m2 & E & Hm2); [|done|].
    { intros p pat Hp. apply Hwf. apply elem_of_app. by right. }
    exists m2. split; [exact E|]. intros p. rewrite Hm2, Hm1, elem_of_app. tauto.
Qed.

(** ** What is hashed *)

Section hashing.
Context `{Unicode} `{Sha256}.

(** Over a workspace that can be listed, [HashFiles] is the digest of the
    contents, one after the other, of exactly the regular files that a pattern
    matches, in the byte order of their paths; it is empty when no file matches.
    Neither the order of the patterns, nor patterns given twice, nor the order in
    which the file system lists its entries, changes it. *)
Theorem hash_covers_matching_files es patterns :
  tree_ok (Directory None es) →
  (∀ p pat, workspace_file (Directory None es) p → pat ∈ patterns → hash_matchGlob pat p ≠ None) →
  ∃ files,
    HashFiles (inr (Directory None es)) patterns = digest_of (inr (Directory None es)) files ∧
    StronglySorted String.le files ∧ NoDup files ∧
    ∀ p, p ∈ files ↔ workspace_file (Directory None es) p ∧
      ∃ pat, pat ∈ patterns ∧ GlobMatch (split_on "/" (trim_slashes pat)) (split_on "/" (trim_slashes p)).
Proof.
  intros Hok Hwf. destruct (walk_collects patterns (Directory None es) Hok "." ∅) as (m & E & Hm).
  { intros p pat Hp. apply Hwf. by apply workspace_file_below. }
  exists (sort_strings (elements m)). split_and!.
  - unfold HashFiles, WalkDir. by rewrite E.
  - apply sort_strings_sorted.
  - unfold sort_strings. rewrite sort_by_perm. apply NoDup_elements.
  - intros p. unfold sort_strings. rewrite sort_by_elem, elem_of_elements, Hm, workspace_file_below by done.
    rewrite matched_true. set_solver.
Qed.

(** A directory that cannot be listed decides the result, whatever was matched
    before it: one that is gone when the walk comes to it gives the empty hash,
    as if no file matched; any other failure is the error. *)
Theorem unlisted_directory_decides es n e sub patterns :
  tree_ok (Directory None es) →
  (∀ p pat, workspace_file (Directory None es) p → pat ∈ patterns → hash_matchGlob pat p ≠ None) →
  HashFiles (inr (Directory None (es ++ [(n, Directory (Some e) sub)]))) patterns =
    if fs_absent e then inr "" else inl (fs_text e).
Proof.
  intros Hok Hwf. unfold HashFiles, WalkDir.
  destruct (walk_collects patterns (Directory None es) Hok "." ∅) as (m & E & _).
  { intros p pat Hp. apply Hwf. by apply workspace_file_below. }
  assert (walkDir (collect_match patterns) "." (Directory None (es ++ [(n, Directory (Some e) sub)])) ∅ =
    Err (FileSystem e)) as ->; [|done].
  simpl in E |- *. revert E. clear Hok Hwf. generalize (∅ : gset string).
  induction es as [|[n' t] es IH]; intros m0; simpl; [done|].
  destruct (walkDir _ _ t m0) as [m1|?|]; simpl; [apply IH|done..].
Qed.

(** Below a [**] a malformed pattern is never reported. *)
Lemma star_star_total pat p rest :
  split_on "/" (trim_slashes pat) = "**" :: rest → hash_matchGlob pat p ≠ None.
Proof. unfold hash_matchGlob. by intros ->. Qed.
End hashing.

(** ** A workspace *)

Definition demo_workspace (a b : string) : list (string * fs_node) :=
  [("a.txt", Regular (inr a)); ("link", Irregular (inr "elsewhere"));
   ("src", Directory None [("b.txt", Regular (inr b)); ("c.go", Regular (inr "code"))])].

Lemma demo_workspace_ok a b : tree_ok (Directory None (demo_workspace a b)).
Proof.
  repeat first [apply Forall_cons; split | apply Forall_nil_2 | split | constructor];
    simpl; try done; set_solver.
Qed.

Lemma hash_covers_matching_files_witness `{Unicode} `{Sha256} : ∃ files,
  HashFiles (inr (Directory None (demo_workspace "1" "2"))) ["**/*.txt"] =
  digest_of (inr (Directory None (demo_workspace "1" "2"))) files.
Proof.
  destruct (hash_covers_matching_files (demo_workspace "1" "2") ["**/*.txt"]) as (files & E & _).
  - apply demo_workspace_ok.
  - intros p pat _ ->%list_elem_of_singleton. by eapply star_star_total.
  - exists files. exact E.
Defined.

Example demo_hash `{Unicode} `{Sha256} :
  HashFiles (inr (Directory None (demo_workspace "1" "2"))) ["*.md"; "**/*.txt"] = inr (hex_encode (sha256_sum "12")).
Proof. vm_compute. reflexivity. Qed.

Lemma unlisted_directory_decides_witness `{Unicode} `{Sha256} :
  HashFiles (inr (Directory None (demo_workspace "1" "2" ++
    [("tmp", Directory (Some {| fs_text := "open tmp: no such file or directory"; fs_absent := true |}) [])]))) ["**/*.txt"] =
  inr "".
Proof.
  apply unlisted_directory_decides.
  - apply demo_workspace_ok.
  - intros p pat _ ->%list_elem_of_singleton. by eapply star_star_total.
Defined.

(** The contents are hashed as one text: moving bytes from the start of a file to
    the end of the one before leaves the hash as it was. *)
Example file_boundaries_are_not_hashed `{Unicode} `{Sha256} :
  HashFiles (inr (Directory None (demo_workspace "ab" "c"))) ["**/*.txt"] =
  HashFiles (inr (Directory None (demo_workspace "a" "bc"))) ["**/*.txt"].
Proof. vm_compute. reflexivity. Qed.

(** A malformed pattern is an error only when a file reaches the malformed
    segment. *)
Example malformed_pattern_unnoticed `{Unicode} `{Sha256} :
  HashFiles (inr (Directory None (demo_workspace "1" "2"))) ["docs/["; "**/["] = inr "".
Proof. vm_compute. reflexivity. Qed.
