(* ===== verification/Builtins.v ===== *)
(** * The builtin actions (internal/runtime/executor/builtin.go)

    The handlers of checkout, cache and the artifact actions, and the archives
    they write and extract.  The git command, the file system, the HTTP transfers
    and the tar and gzip formats are the class [BuiltinHost] over an abstract
    state; the control plane's three calls are [CacheControl]. *)

From Stdlib Require Import Ascii.
From stdpp Require Import pretty.
From S2P Require Import Prelude GoStrings GoFloat Base64 ExprSyntax ExprEval FilePath Executor.

Local Open Scope go_scope.

(** ** The host *)

Inductive TarType := TypeDir | TypeReg | TypeOther.

Record TarHeader := { HdrName : string; HdrMode : Z; HdrType : TarType }.

(** What the tar reader yields until the end of the archive: an entry with its
    content and the error of reading it, or the error of [Next]. *)
Inductive TarItem :=
  | TarEntry (hdr : TarHeader) (content : string) (err : option string)
  | TarBad (err : string).

(** What [filepath.Walk] visits: a file with its header and content, or an error. *)
Inductive WalkItem :=
  | Walked (path : string) (mode : Z) (typ : TarType) (content : string + string)
  | WalkBad (path err : string).

Class BuiltinHost (W : Type) := {
  git_exec : string → gmap string string → list string → W → W * option (string * string);
  mkdirAll : string → Z → W → W * option string;
  path_exists : string → W → bool;
  writeFile : string → Z → string → W → W * option string;
  glob : string → W → string + list string;
  walk : string → W → list WalkItem;
  (** the entries of the gzipped archive, or why the request or the gzip header failed *)
  http_get : string → W → W * (string + (Z * (string + list TarItem)));
  http_put : string → list (TarHeader * string) → W → W * (string + Z)
}.

Class CacheControl (W : Type) := {
  ResolveCache : string → list string → W → W * (string + (bool * string * string));
  ArtifactUploadURL : string → W → W * (string + string);
  ArtifactDownloadURL : string → W → W * (string + string)
}.

(** ** Relative paths ([filepath.Rel] of elements; the error is dropped by the callers) *)

Definition path_elems (p : string) : list string :=
  List.filter keeps (split_on slash p).

Fixpoint rel_elems (base targ : list string) : option (list string) :=
  match base, targ with
  | b :: base', t :: targ' =>
      if bool_decide (b = t) then rel_elems base' targ'
      else if bool_decide (b = "..") then None
      else Some (map (fun _ => "..") base ++ targ)
  | [], _ => Some targ
  | b :: _, [] => if bool_decide (b = "..") then None else Some (map (fun _ => "..") base)
  end.

Definition Rel (base targ : string) : option string :=
  let b := Clean base in
  let t := Clean targ in
  if bool_decide (b = t) then Some "."
  else if negb (Bool.eqb (IsAbs b) (IsAbs t)) then None
  else (fun els => join els "/") <$> rel_elems (path_elems b) (path_elems t).

Section builtins.
Context `{Unicode} {W : Type} `{BuiltinHost W}.

(** ** Archives *)

(** The archive of a walk with the names the function gives; [None] leaves a
    file out. A failed visit or read ends it. *)
Fixpoint archive (name : string → option string) (items : list WalkItem)
    : string + list (TarHeader * string) :=
  match items with
  | [] => inr []
  | WalkBad _ err :: _ => inl err
  | Walked path mode typ content :: rest =>
      match name path with
      | None => archive name rest
      | Some n =>
          let hdr := {| HdrName := n; HdrMode := mode; HdrType := typ |} in
          match typ with
          | TypeReg =>
              match content with
              | inl err => inl err
              | inr data => match archive name rest with inl e => inl e | inr es => inr ((hdr, data) :: es) end
              end
          | _ => match archive name rest with inl e => inl e | inr es => inr ((hdr, "") :: es) end
          end
      end
  end.

Definition put_archive (putURL : string) (a : string + list (TarHeader * string)) (w : W) : W * option string :=
  match a with
  | inl e => (w, Some e)
  | inr es =>
      match http_put putURL es w with
      | (w', inl e) => (w', Some e)
      | (w', inr status) =>
          if bool_decide (status < 200)%Z || bool_decide (300 <= status)%Z
          then (w', Some ("upload status " +:+ pretty status)) else (w', None)
      end
  end.

(** Names relative to the parent of the source. *)
Definition cache_name (srcPath path : string) : option string := Some (default "" (Rel (Dir srcPath) path)).

Definition tarAndUpload (srcPath putURL : string) (w : W) : W * option string :=
  put_archive putURL (archive (cache_name srcPath) (walk srcPath w)) w.

(** Names relative to the workspace, which itself is left out. *)
Definition artifact_name (workspace path : string) : option string :=
  let rel := default "" (Rel workspace path) in
  if bool_decide (rel = ".") then None else Some rel.

Fixpoint archive_all (workspace : string) (sources : list string) (w : W) : string + list (TarHeader * string) :=
  match sources with
  | [] => inr []
  | src :: rest =>
      match archive (artifact_name workspace) (walk src w) with
      | inl e => inl e
      | inr es => match archive_all workspace rest w with inl e => inl e | inr es' => inr (es ++ es') end
      end
  end.

Definition tarAndUploadMultiple (sources : list string) (workspace putURL : string) (w : W) : W * option string :=
  put_archive putURL (archive_all workspace sources w) w.

(** ** Extraction *)

(** The path an entry is written to; [None] when the check skips it. *)
Definition target_of (dest : string) (hdr : TarHeader) : option string :=
  let target := Join dest (HdrName hdr) in
  if has_prefix (Clean target) (Clean dest) then Some target else None.

Definition extract_entry (dest : string) (hdr : TarHeader) (content : string) (err : option string) (w : W)
    : W * option string :=
  match target_of dest hdr with
  | None => (w, None)
  | Some target =>
      match HdrType hdr with
      | TypeDir => mkdirAll target (HdrMode hdr) w
      | TypeReg =>
          match mkdirAll (Dir target) 493 w with
          | (w1, Some e) => (w1, Some e)
          | (w1, None) =>
              match writeFile target (HdrMode hdr) content w1 with
              | (w2, Some e) => (w2, Some e)
              | (w2, None) => (w2, err)
              end
          end
      | TypeOther => (w, None)
      end
  end.

Fixpoint extract_loop (dest : string) (items : list TarItem) (w : W) : W * option string :=
  match items with
  | [] => (w, None)
  | TarBad e :: _ => (w, Some e)
  | TarEntry hdr content err :: rest =>
      match extract_entry dest hdr content err w with
      | (w', Some e) => (w', Some e)
      | (w', None) => extract_loop dest rest w'
      end
  end.

Definition downloadAndExtract (getURL dest : string) (w : W) : W * option string :=
  match http_get getURL w with
  | (w', inl e) => (w', Some e)
  | (w', inr (status, body)) =>
      if bool_decide (status < 200)%Z || bool_decide (300 <= status)%Z
      then (w', Some ("download status " +:+ pretty status))
      else match body with
           | inl e => (w', Some e)
           | inr items => extract_loop dest items w'
           end
  end.

(** ** Handlers *)

(** The outputs set, in order, and the error. *)
Definition Handled : Type := W * list (string * string) * option string.

Record BuiltinContext := { Workspace : string; Inputs : gmap string string; BcEnv : gmap string string }.

Definition input (bc : BuiltinContext) (k : string) : string := default "" (Inputs bc !! k).

(** *** actions/checkout *)

Definition count_byte (c : ascii) (s : string) : nat := length (split_on c s) - 1.

(** The remote of the repository input. *)
Definition repo_url (repo : string) : string :=
  if has_prefix repo "/" then "file://" +:+ repo
  else if negb (contains repo "://") && bool_decide (count_byte slash repo = 1) then
    if negb (has_suffix repo ".git") then "https://github.com/" +:+ repo +:+ ".git"
    else "https://github.com/" +:+ repo
  else repo.

Definition fetch_depth (s : string) : string + Z :=
  if bool_decide (s = "") then inr 1%Z
  else if bool_decide (s = "0") then inr 0%Z
  else match Atoi s with
       | Some v => if bool_decide (v < 0)%Z
                   then inl ("actions/checkout: invalid fetch-depth " +:+ quote s) else inr v
       | None => inl ("actions/checkout: invalid fetch-depth " +:+ quote s)
       end.

Definition token_host (repoURL : string) : string :=
  if contains repoURL "://" then nth 2 (split_on slash repoURL) "github.com" else "github.com".

Definition withToken (token repoURL : string) (args : list string) : list string :=
  if bool_decide (token = "") || negb (has_prefix repoURL "https://") then args
  else ["-c"; "http.https://" +:+ token_host repoURL +:+ "/.extraheader=AUTHORIZATION: basic " +:+
              std_encode ("x-access-token:" +:+ token)] ++ args.

Definition runGit (bc : BuiltinContext) (args : list string) (w : W) : W * option string :=
  match git_exec (Workspace bc) (BcEnv bc) args w with
  | (w', None) => (w', None)
  | (w', Some (err, out)) => (w', Some ("git " +:+ join args " " +:+ ": " +:+ err +:+ ": " +:+ out))
  end.

Definition git_init (bc : BuiltinContext) (repoURL : string) (w : W) : W * option string :=
  if path_exists (Join (Workspace bc) ".git") w then (w, None)
  else match runGit bc ["init"] w with
       | (w1, Some e) => (w1, Some e)
       | (w1, None) =>
           match runGit bc ["remote"; "add"; "origin"; repoURL] w1 with
           | (w2, None) => (w2, None)
           | (w2, Some _) => (fst (runGit bc ["remote"; "set-url"; "origin"; repoURL] w2), None)
           end
       end.

Definition fetch_args (token repoURL : string) (depth : Z) (refs : list string) : list string :=
  withToken token repoURL
    (["fetch"; "origin"] ++ refs ++ (if bool_decide (0 < depth)%Z then ["--depth"; pretty depth] else [])).

Definition checkout_ref (bc : BuiltinContext) (token repoURL ref : string) (depth : Z) (w : W) : W * option string :=
  match runGit bc (fetch_args token repoURL depth [ref]) w with
  | (w1, Some e) => (w1, Some e)
  | (w1, None) =>
      match runGit bc ["checkout"; "FETCH_HEAD"] w1 with
      | (w2, None) => (w2, None)
      | (w2, Some e) =>
          match runGit bc ["checkout"; ref] w2 with
          | (w3, None) => (w3, None)
          | (w3, Some e2) => (w3, Some ("checkout " +:+ quote ref +:+ ": " +:+ e +:+ nl +:+ e2))
          end
      end
  end.

Definition checkout_default (bc : BuiltinContext) (token repoURL : string) (depth : Z) (w : W) : W * option string :=
  match runGit bc (fetch_args token repoURL depth []) w with
  | (w1, Some e) => (w1, Some e)
  | (w1, None) =>
      let w2 := match runGit bc ["checkout"; "origin/HEAD"] w1 with
                | (w2, None) => w2
                | (w2, Some _) => fst (runGit bc ["checkout"; "main"] w2)
                end in
      (fst (runGit bc ["checkout"; "-f"] w2), None)
  end.

Definition checkoutHandler (bc : BuiltinContext) (w : W) : Handled :=
  let repo := trim_space (input bc "repository") in
  let ref := trim_space (input bc "ref") in
  let token := trim_space (input bc "token") in
  let persist := trim_space (input bc "persist-credentials") in
  if negb (bool_decide (persist ∈ [""; "true"; "false"]))
  then (w, [], Some ("actions/checkout: persist-credentials must be true or false, got " +:+ quote persist))
  else if bool_decide (repo = "")
  then (w, [], Some "actions/checkout: repository input is required when no default is available")
  else match fetch_depth (trim_space (input bc "fetch-depth")) with
  | inl e => (w, [], Some e)
  | inr depth =>
      let repoURL := repo_url repo in
      match mkdirAll (Workspace bc) 493 w with
      | (w1, Some e) => (w1, [], Some ("checkout: mkdir workspace: " +:+ e))
      | (w1, None) =>
          match git_init bc repoURL w1 with
          | (w2, Some e) => (w2, [], Some e)
          | (w2, None) =>
              let '(w3, r) := if bool_decide (ref ≠ "") then checkout_ref bc token repoURL ref depth w2
                              else checkout_default bc token repoURL depth w2 in
              (w3, [], r)
          end
      end
  end.

(** *** actions/cache *)

Context `{CacheControl W}.

(** Split on line breaks and commas. *)
Definition restore_keys (raw : string) : list string :=
  if bool_decide (raw = "") then []
  else List.filter (fun p => negb (bool_decide (p = "")))
         (map trim_space (concat (map (split_on ","%char) (split_on "010"%char raw)))).

Definition abs_path (ws path : string) : string := if IsAbs path then path else Join ws path.

(** The engine always passes a control plane. *)
Definition cacheHandler (bc : BuiltinContext) (w : W) : Handled :=
  let key := trim_space (input bc "key") in
  let pathStr := trim_space (input bc "path") in
  if bool_decide (key = "") then (w, [], Some "actions/cache: key is required")
  else if bool_decide (pathStr = "") then (w, [], Some "actions/cache: path is required")
  else match ResolveCache key (restore_keys (input bc "restore-keys")) w with
  | (w1, inl e) => (w1, [], Some ("cache resolve: " +:+ e))
  | (w1, inr (hit, getURL, putURL)) =>
      let cachePath := abs_path (Workspace bc) pathStr in
      if hit && bool_decide (getURL ≠ "") then
        (fst (downloadAndExtract getURL cachePath w1), [("cache-hit", "true")], None)
      else if negb (path_exists cachePath w1) then (w1, [("cache-hit", "false")], None)
      else (fst (tarAndUpload cachePath putURL w1), [("cache-hit", "false")], None)
  end.

(** *** Artifacts *)

Definition has_wildcard (path : string) : bool := contains path "*" || contains path "?" || contains path "[".

Definition uploadArtifactHandler (bc : BuiltinContext) (w : W) : Handled :=
  let name := trim_space (input bc "name") in
  let pathStr := trim_space (input bc "path") in
  if bool_decide (name = "") then (w, [], Some "actions/upload-artifact: name is required")
  else if bool_decide (pathStr = "") then (w, [], Some "actions/upload-artifact: path is required")
  else match ArtifactUploadURL name w with
  | (w1, inl e) => (w1, [], Some ("artifact upload URL: " +:+ e))
  | (w1, inr uploadURL) =>
      let absPath := abs_path (Workspace bc) pathStr in
      let upload sources :=
        match tarAndUploadMultiple sources (Workspace bc) uploadURL w1 with
        | (w2, Some e) => (w2, [], Some ("upload artifact: " +:+ e))
        | (w2, None) => (w2, [], None)
        end in
      if has_wildcard absPath then
        match glob absPath w1 with
        | inl e => (w1, [], Some ("glob " +:+ quote pathStr +:+ ": " +:+ e))
        | inr [] => (w1, [], None)
        | inr sources => upload sources
        end
      else upload [absPath]
  end.

Definition downloadArtifactHandler (bc : BuiltinContext) (w : W) : Handled :=
  let name := trim_space (input bc "name") in
  let pathStr := trim_space (input bc "path") in
  if bool_decide (name = "") then (w, [], Some "actions/download-artifact: name is required")
  else match ArtifactDownloadURL name w with
  | (w1, inl e) => (w1, [], Some ("artifact download URL: " +:+ e))
  | (w1, inr downloadURL) =>
      let dest := if bool_decide (pathStr ≠ "") then abs_path (Workspace bc) pathStr else Workspace bc in
      match mkdirAll dest 493 w1 with
      | (w2, Some e) => (w2, [], Some ("mkdir dest: " +:+ e))
      | (w2, None) =>
          match downloadAndExtract downloadURL dest w2 with
          | (w3, Some e) => (w3, [], Some ("download artifact: " +:+ e))
          | (w3, None) => (w3, [], None)
          end
      end
  end.

(** [builtinRegistry] of [Executor], with the handlers. *)
Definition builtin_handler (action : string) : option (BuiltinContext → W → Handled) :=
  if bool_decide (action = "actions/checkout") then Some checkoutHandler
  else if bool_decide (action = "actions/cache") then Some cacheHandler
  else if bool_decide (action = "actions/upload-artifact") then Some uploadArtifactHandler
  else if bool_decide (action = "actions/download-artifact") then Some downloadArtifactHandler
  else None.
End builtins.

(** ** JavaScript actions (js.go)

    The interpreter runs the chosen script; [None] is the error [e] before it. *)
Definition js_script (script : string) (js_script_field with_script repo : string) : string + string :=
  let s1 := if bool_decide (script = "") then js_script_field else script in
  let s2 := if bool_decide (s1 = "") then with_script else s1 in
  if bool_decide (s2 = "") then inl "js: no script to execute"
  else if bool_decide (repo ≠ "actions/github-script") && bool_decide (repo ≠ "")
  then inl ("js: action " +:+ repo +:+ " not yet supported (only actions/github-script)")
  else inr s2.
