(* ===== verification/BuiltinTheorems.v ===== *)
(** * What the builtin actions write

    An extracted archive stays in its destination unless a name climbs out of
    it, and an artifact downloaded into the workspace it was uploaded from
    recreates the files at their paths. *)

From Stdlib Require Import Ascii.
From S2P Require Import Prelude GoStrings GoFloat ExprSyntax ExprEval FilePath Executor Builtins.

Local Open Scope go_scope.

(** ** Parents *)

Lemma last_index_free c s : byte_in c s = false → last_index c s = None.
Proof.
  induction s as [|d s IH]; simpl; [done|]. intros [Hd Hs]%orb_false_iff.
  rewrite IH by done. by rewrite bool_decide_eq_false_2 by (apply bool_decide_eq_false in Hd; congruence).
Qed.

Lemma last_index_app c a b : byte_in c b = false → last_index c (a +:+ String c b) = Some (String.length a).
Proof.
  intros Hb. induction a as [|d a IH]; simpl.
  - rewrite last_index_free by done. by rewrite bool_decide_eq_true_2.
  - by rewrite IH.
Qed.

Lemma rooted_snoc xs y : xs ≠ [] → rooted_path (xs ++ [y]) = rooted_path xs +:+ "/" +:+ y.
Proof. intros Hx. unfold rooted_path. rewrite join_app by done. by rewrite app_str_assoc. Qed.

(** The parent of a file below the root directory's entries. *)
Lemma Dir_rooted xs y : xs ≠ [] → Forall plain (xs ++ [y]) → Dir (rooted_path (xs ++ [y])) = rooted_path xs.
Proof.
  intros Hx Hp. apply Forall_app in Hp as [Hxs Hy]. inversion_clear Hy as [|? ? (_ & _ & _ & Hs) _].
  rewrite rooted_snoc by done. unfold Dir. change ("/" +:+ y) with (String slash y).
  rewrite last_index_app by done.
  assert (str_take (String.length (rooted_path xs) + 1) (rooted_path xs +:+ String slash y) =
          rooted_path xs +:+ "/") as ->.
  { generalize (rooted_path xs) as s. induction s as [|c s IH]; simpl; [by destruct y|by rewrite IH]. }
  assert (Join (rooted_path xs) "" = rooted_path xs) as Hj.
  { rewrite Join_down; [|done|by repeat constructor]. simpl. by rewrite app_nil_r. }
  unfold Join in Hj. rewrite bool_decide_eq_true_2 in Hj by done. exact Hj.
Qed.

(** ** Targets *)

(** No element of the name climbs. *)
Definition descends (name : string) : Prop := Forall (fun e => e ≠ "..") (split_on slash name).

#[export] Instance descends_dec name : Decision (descends name).
Proof. unfold descends. apply _. Defined.

Definition kept (name : string) : list string := List.filter keeps (split_on slash name).

Lemma kept_plain name : descends name → Forall plain (kept name).
Proof.
  unfold descends, kept. rewrite !Forall_forall. intros Hd e [Hin Hk]%list_elem_of_In%filter_In.
  apply list_elem_of_In in Hin. unfold keeps in Hk. apply negb_true_iff, orb_false_iff in Hk as [H1 H2].
  apply bool_decide_eq_false in H1, H2. repeat split; [done..|by apply Hd|by eapply split_on_elements].
Qed.

Lemma inside_prefix root p : inside root p → has_prefix p root = true.
Proof.
  intros [->|Hp]; apply has_prefix_spec; [exists ""; by rewrite app_str_nil_r|].
  apply has_prefix_spec in Hp as [t ->]. exists ("/" +:+ t). by rewrite app_str_assoc.
Qed.

(** A name that does not climb is written at its place below the destination. *)
Lemma target_down els hdr :
  els ≠ [] → Forall plain els → descends (HdrName hdr) →
  target_of (rooted_path els) hdr = Some (rooted_path (els ++ kept (HdrName hdr))).
Proof.
  intros Hne Hp Hd. unfold target_of. rewrite Join_down by done. fold (kept (HdrName hdr)).
  rewrite !Clean_rooted; [|done|apply Forall_app; by auto using kept_plain].
  by rewrite inside_prefix by by apply rooted_inside.
Qed.

(** Any target starts with the text of the clean destination. *)
Lemma target_prefix dest hdr t :
  IsAbs dest = true → target_of dest hdr = Some t → has_prefix t (Clean dest) = true.
Proof.
  intros Ha. unfold target_of. destruct (has_prefix _ _) eqn:E; [|done]. intros [= <-].
  assert (Clean (Join dest (HdrName hdr)) = Join dest (HdrName hdr)) as Hc; [|by rewrite Hc in E].
  unfold Join. rewrite bool_decide_eq_true_2 by by intros ->.
  destruct (Clean_abs (dest +:+ "/" +:+ HdrName hdr)) as (els & -> & Hp); [|by apply Clean_rooted].
  apply has_prefix_spec in Ha as [r ->]. apply has_prefix_spec. rewrite app_str_assoc. by eexists.
Qed.

(** ** Extraction *)

Section extraction.
Context {W : Type} `{BuiltinHost W}.

(** [P] is kept by what an extraction into [dest] may do: make directories at
    or below it, and its parent, and write files at or below it. *)
Definition kept_by_writes (dest : string) (P : W → Prop) : Prop :=
  (∀ p mode w, inside dest p ∨ p = Dir dest → P w → P (fst (mkdirAll p mode w))) ∧
  (∀ p mode content w, inside dest p → P w → P (fst (writeFile p mode content w))).

Lemma kept_parent els ys :
  els ≠ [] → Forall plain els → Forall plain ys →
  inside (rooted_path els) (Dir (rooted_path (els ++ ys))) ∨ Dir (rooted_path (els ++ ys)) = Dir (rooted_path els).
Proof.
  intros Hne He Hy. destruct (decide (ys = [])) as [->|Hn]; [right; by rewrite app_nil_r|left].
  destruct (exists_last Hn) as (zs & z & ->). rewrite app_assoc.
  rewrite Dir_rooted; [by apply rooted_inside|by destruct els|].
  rewrite <-app_assoc. by apply Forall_app.
Qed.

Lemma extract_entry_kept els P hdr content err w :
  els ≠ [] → Forall plain els → descends (HdrName hdr) → kept_by_writes (rooted_path els) P →
  P w → P (fst (extract_entry (rooted_path els) hdr content err w)).
Proof.
  intros Hne Hp Hd [Hmk Hwr] HP. unfold extract_entry. rewrite target_down by done.
  assert (inside (rooted_path els) (rooted_path (els ++ kept (HdrName hdr)))) as Hin by by apply rooted_inside.
  destruct (HdrType hdr); [by apply Hmk; [left|]| |done].
  pose proof (Hmk (Dir (rooted_path (els ++ kept (HdrName hdr)))) 493%Z w) as Hd1.
  destruct (mkdirAll _ 493 w) as [w1 [e|]]; simpl in *;
    [apply Hd1; [by apply kept_parent; auto using kept_plain|done]|].
  pose proof (Hwr _ (HdrMode hdr) content w1 Hin) as Hw1.
  destruct (writeFile _ _ _ w1) as [w2 [e|]]; simpl in *; apply Hw1, Hd1; try done;
    by apply kept_parent; auto using kept_plain.
Qed.

Lemma extract_loop_kept els P items w :
  els ≠ [] → Forall plain els → kept_by_writes (rooted_path els) P →
  (∀ hdr content err, TarEntry hdr content err ∈ items → descends (HdrName hdr)) →
  P w → P (fst (extract_loop (rooted_path els) items w)).
Proof.
  intros Hne Hp Hk. revert w. induction items as [|[hdr content err|e] items IH]; intros w Hall HP; simpl; [done| |done].
  assert (P (fst (extract_entry (rooted_path els) hdr content err w))) as H1.
  { apply extract_entry_kept; try done. apply (Hall hdr content err), list_elem_of_here. }
  destruct (extract_entry _ hdr content err w) as [w' [e|]]; [done|].
  apply IH; [|done]. intros hdr' c' e' Hin. by apply (Hall hdr' c' e'), list_elem_of_further.
Qed.

(** ** Artifacts *)

Lemma path_elems_rooted els : Forall plain els → path_elems (rooted_path els) = els.
Proof.
  intros Hp. unfold path_elems. rewrite split_rooted by done. simpl. case_decide as Hn; [by subst|].
  by apply filter_plain.
Qed.

Lemma rel_elems_app xs ys : rel_elems xs (xs ++ ys) = Some ys.
Proof. induction xs as [|x xs IH]; simpl; [done|]. by rewrite bool_decide_eq_true_2. Qed.

Lemma rooted_inj xs ys : Forall plain xs → Forall plain ys → rooted_path xs = rooted_path ys → xs = ys.
Proof. intros Hx Hy E. by rewrite <-(path_elems_rooted xs), <-(path_elems_rooted ys), E. Qed.

Lemma Rel_below xs ys :
  Forall plain xs → Forall plain ys → ys ≠ [] → Rel (rooted_path xs) (rooted_path (xs ++ ys)) = Some (join ys "/").
Proof.
  intros Hx Hy Hn. assert (Forall plain (xs ++ ys)) as Hxy by by apply Forall_app.
  unfold Rel. rewrite !Clean_rooted by done. rewrite bool_decide_eq_false_2.
  - rewrite !rooted_abs. simpl. rewrite !path_elems_rooted by done. by rewrite rel_elems_app.
  - intros E%rooted_inj; [|done..]. rewrite <-(app_nil_r xs) in E at 1. by apply app_inv_head in E as <-.
Qed.

Lemma split_join_plain ys : ys ≠ [] → Forall plain ys → split_on slash (join ys "/") = ys.
Proof.
  intros Hn Hy. apply split_on_join; [done|]. eapply Forall_impl; [exact Hy|]. by intros e (_ & _ & _ & ?).
Qed.

(** The name an artifact file gets, and where the extraction puts it. *)
Lemma artifact_place xs ys :
  xs ≠ [] → Forall plain xs → Forall plain ys → ys ≠ [] →
  artifact_name (rooted_path xs) (rooted_path (xs ++ ys)) = Some (join ys "/") ∧
  ∀ mode typ, target_of (rooted_path xs) {| HdrName := join ys "/"; HdrMode := mode; HdrType := typ |} =
    Some (rooted_path (xs ++ ys)).
Proof.
  intros Hxn Hx Hy Hn. split.
  - unfold artifact_name. rewrite Rel_below by done. simpl. rewrite bool_decide_eq_false_2; [done|].
    intros E. pose proof (split_join_plain ys Hn Hy) as Hs. rewrite E in Hs. vm_compute in Hs. subst ys.
    inversion_clear Hy as [|? ? (_ & ? & _) _]. done.
  - intros mode typ. assert (descends (join ys "/")) as Hd.
    { unfold descends. rewrite split_join_plain by done. eapply Forall_impl; [exact Hy|]. by intros e (_ & _ & ? & _). }
    rewrite target_down by done. simpl. unfold kept. rewrite split_join_plain by done. by rewrite filter_plain.
Qed.
End extraction.

(** ** Theorems *)

Section theorems.
Context {W : Type} `{BuiltinHost W}.

(** C38. Extraction stays in its destination: for a clean absolute destination
    other than the root and an archive whose names do not climb, whatever
    property of the file system is kept by making directories at or below the
    destination (or its parent) and by writing files below it is kept by the
    whole extraction, errors included; and for any name at all, an entry that is
    not skipped goes to a path that starts with the text of the destination. *)
Theorem extraction_stays_below_destination dest els :
  dest = rooted_path els → els ≠ [] → Forall plain els →
  (∀ P items (w : W), kept_by_writes dest P →
     (∀ hdr content err, TarEntry hdr content err ∈ items → descends (HdrName hdr)) →
     P w → P (fst (extract_loop dest items w))) ∧
  (∀ hdr t, target_of dest hdr = Some t → has_prefix t dest = true).
Proof.
  intros -> Hne Hp. split; [intros; by apply extract_loop_kept|].
  intros hdr t Ht%target_prefix; [|apply rooted_abs]. by rewrite Clean_rooted in Ht.
Qed.

(** Making the walked files again at their own paths. *)
Fixpoint recreate (ws : string) (items : list WalkItem) (w : W) : W * option string :=
  match items with
  | Walked path mode typ content :: rest =>
      let r := if bool_decide (path = ws) then (w, None)
               else match typ, content with
                    | TypeDir, _ => mkdirAll path mode w
                    | TypeReg, inr data =>
                        match mkdirAll (Dir path) 493 w with
                        | (w1, Some e) => (w1, Some e)
                        | (w1, None) => writeFile path mode data w1
                        end
                    | _, _ => (w, None)
                    end in
      match r with (w', Some e) => (w', Some e) | (w', None) => recreate ws rest w' end
  | _ => (w, None)
  end.

(** The walk stays at or below the directory [ws]. *)
Definition walked_below (xs : list string) (items : list WalkItem) : Prop :=
  ∀ path mode typ content, Walked path mode typ content ∈ items →
    ∃ ys, path = rooted_path (xs ++ ys) ∧ Forall plain ys.

Definition as_items (es : list (TarHeader * string)) : list TarItem :=
  map (fun '(h, d) => TarEntry h d None) es.

Lemma artifact_root ws : artifact_name ws ws = None.
Proof.
  unfold artifact_name. assert (Rel ws ws = Some ".") as ->; [|done].
  unfold Rel. by rewrite bool_decide_eq_true_2.
Qed.

Lemma extract_one xs ys mode typ d (w : W) :
  xs ≠ [] → Forall plain xs → Forall plain ys → ys ≠ [] →
  extract_entry (rooted_path xs) {| HdrName := join ys "/"; HdrMode := mode; HdrType := typ |} d None w =
  match typ with
  | TypeDir => mkdirAll (rooted_path (xs ++ ys)) mode w
  | TypeReg => match mkdirAll (Dir (rooted_path (xs ++ ys))) 493 w with
               | (w1, Some e) => (w1, Some e)
               | (w1, None) => writeFile (rooted_path (xs ++ ys)) mode d w1
               end
  | TypeOther => (w, None)
  end.
Proof.
  intros Hxn Hx Hy Hn. unfold extract_entry.
  rewrite (proj2 (artifact_place xs ys Hxn Hx Hy Hn)). simpl. destruct typ; [done| |done].
  destruct (mkdirAll _ 493 w) as [w1 [e|]]; [done|]. by destruct (writeFile _ _ _ w1) as [w2 [e|]].
Qed.

(** C40. An artifact round trip recreates the files: when the walk of files under
    a workspace is archived for upload, extracting that archive into the same
    workspace performs exactly the operations that make each walked directory
    and write each walked regular file with its content at its original path,
    in order, and stops at the same first error. *)
Theorem artifact_round_trip ws xs items es (w : W) :
  ws = rooted_path xs → xs ≠ [] → Forall plain xs → walked_below xs items →
  archive (artifact_name ws) items = inr es →
  extract_loop ws (as_items es) w = recreate ws items w.
Proof.
  intros -> Hxn Hx. revert es w. induction items as [|[path mode typ content|p e] items IH]; intros es w Hb Ha;
    [by injection Ha as <-| |done].
  destruct (Hb path mode typ content (list_elem_of_here _ _)) as (ys & -> & Hy).
  assert (walked_below xs items) as Hb' by (intros p m t c Hin; apply (Hb p m t c), list_elem_of_further, Hin).
  destruct (decide (ys = [])) as [->|Hn].
  { rewrite app_nil_r in *. simpl in Ha |- *. rewrite artifact_root in Ha.
    rewrite bool_decide_eq_true_2 by done. auto. }
  assert (rooted_path (xs ++ ys) ≠ rooted_path xs) as Hne.
  { intros E%rooted_inj; [|by apply Forall_app|done]. rewrite <-(app_nil_r xs) in E at 2.
    by apply app_inv_head in E. }
  simpl in Ha |- *. rewrite (proj1 (artifact_place xs ys Hxn Hx Hy Hn)) in Ha.
  rewrite bool_decide_eq_false_2 by done.
  destruct typ; [|destruct content as [?|data]; [done|]|];
    (destruct (archive _ items) as [?|es'] eqn:Er; [done|]; injection Ha as <-; cbn [as_items map extract_loop];
     rewrite extract_one by done); cbn iota.
  - destruct (mkdirAll _ _ w) as [w' [e|]]; [done|]. by apply IH.
  - destruct (mkdirAll _ 493 w) as [w1 [e|]]; [done|]. destruct (writeFile _ _ _ w1) as [w' [e|]]; [done|]. by apply IH.
  - by apply IH.
Qed.
End theorems.

(** ** A file system in memory *)

#[local] Instance mem_host : BuiltinHost (gmap string string) := {|
  git_exec := fun _ _ _ w => (w, None);
  mkdirAll := fun p _ w => (w, None);
  path_exists := fun p w => bool_decide (is_Some (w !! p));
  writeFile := fun p _ c w => (<[p := c]> w, None);
  glob := fun _ _ => inr [];
  walk := fun _ w => [];
  http_get := fun _ w => (w, inl "no network");
  http_put := fun _ _ w => (w, inl "no network")
|}.

Definition demo_walk : list WalkItem :=
  [Walked "/work/ws" 493 TypeDir (inr ""); Walked "/work/ws/out" 493 TypeDir (inr "");
   Walked "/work/ws/out/a.txt" 420 TypeReg (inr "hello")].

Definition demo_archive : list (TarHeader * string) :=
  [({| HdrName := "out"; HdrMode := 493; HdrType := TypeDir |}, "");
   ({| HdrName := "out/a.txt"; HdrMode := 420; HdrType := TypeReg |}, "hello")].

Lemma demo_walk_below : walked_below ["work"; "ws"] demo_walk.
Proof.
  intros path mode typ content Hin. unfold demo_walk in Hin.
  rewrite !elem_of_cons in Hin. destruct Hin as [E|[E|[E|E]]]; [..|by apply not_elem_of_nil in E]; injection E as -> -> -> ->.
  - by exists [].
  - exists ["out"]. split; [done|]. by repeat constructor.
  - exists ["out"; "a.txt"]. split; [done|]. by repeat constructor.
Qed.

Lemma artifact_round_trip_witness :
  fst (extract_loop "/work/ws" (as_items demo_archive) ∅) = {[ "/work/ws/out/a.txt" := "hello" ]}.
Proof.
  rewrite (artifact_round_trip "/work/ws" ["work"; "ws"] demo_walk demo_archive ∅).
  - reflexivity.
  - reflexivity.
  - discriminate.
  - repeat constructor; discriminate.
  - exact demo_walk_below.
  - vm_compute. reflexivity.
Defined.

Definition only_below (fs : gmap string string) : Prop := map_Forall (fun p _ => inside "/work/ws" p) fs.

Lemma extraction_stays_below_destination_witness :
  only_below (fst (extract_loop "/work/ws" (as_items demo_archive) ∅)).
Proof.
  apply (proj1 (extraction_stays_below_destination "/work/ws" ["work"; "ws"]
           ltac:(reflexivity) ltac:(discriminate) ltac:(repeat constructor; discriminate))).
  - split; [intros p mode w _ Hw; exact Hw|]. intros p mode content w Hin Hw. by apply map_Forall_insert_2.
  - intros hdr content err Hin. unfold as_items, demo_archive in Hin. simpl in Hin.
    rewrite !elem_of_cons in Hin. destruct Hin as [E|[E|E]]; [..|by apply not_elem_of_nil in E];
      injection E as -> _ _; unfold descends; simpl; repeat constructor; discriminate.
  - apply map_Forall_empty.
Defined.

(** The prefix check has no separator: a name can reach a sibling directory. *)
Example sibling_escape :
  target_of "/work/ws" {| HdrName := "../ws-evil/x"; HdrMode := 420; HdrType := TypeReg |} = Some "/work/ws-evil/x".
Proof. vm_compute. reflexivity. Qed.

(** A cache is saved under its base name and restored below itself. *)
Example cache_restores_elsewhere :
  cache_name "/work/ws/node_modules" "/work/ws/node_modules/a.js" = Some "node_modules/a.js" ∧
  target_of "/work/ws/node_modules" {| HdrName := "node_modules/a.js"; HdrMode := 420; HdrType := TypeReg |} =
    Some "/work/ws/node_modules/node_modules/a.js".
Proof. vm_compute. split; reflexivity. Qed.

#[local] Instance hit_control : CacheControl (gmap string string) := {|
  ResolveCache := fun _ _ w => (w, inr (true, "https://store/object", "https://store/put"));
  ArtifactUploadURL := fun _ w => (w, inl "none");
  ArtifactDownloadURL := fun _ w => (w, inl "none")
|}.

(** A hit is reported although nothing could be restored. *)
Example failed_restore_is_a_hit :
  snd (downloadAndExtract "https://store/object" "/work/ws/cache" (∅ : gmap string string)) = Some "no network" ∧
  @cacheHandler ascii_unicode _ _ _
    {| Workspace := "/work/ws"; Inputs := {[ "key" := "k"; "path" := "cache" ]}; BcEnv := ∅ |} ∅ =
    (∅, [("cache-hit", "true")], None).
Proof. vm_compute. split; reflexivity. Qed.

(** The engine's registry names exactly the actions with a handler. *)
Lemma builtin_registered `{Unicode} {W : Type} `{BuiltinHost W} `{CacheControl W} action :
  action ∈ builtinRegistry ↔ is_Some (builtin_handler action).
Proof.
  unfold builtinRegistry, builtin_handler. rewrite !elem_of_cons.
  repeat case_bool_decide; split; try (intros; by eexists); intros; try set_solver; by destruct H.
Qed.
