(* ===== verification/JsAction.v ===== *)
(** * JavaScript actions (internal/runtime/executor/js.go)

    [runJS]: the choice of the script, the objects it is given, and what its calls
    do.  The interpreter is a parameter ([Goja]): a script is the tree of its calls
    into the host, each followed by what the script does with the reply, and an
    end.  The theorems connect it with [Executor]: what a script can change of the
    job, that cancelling it is a failure of its step, and that its log is masked. *)

From Stdlib Require Import Ascii.
From S2P Require Import Prelude GoStrings GoFloat RunModel Plans Masking StepCommands ExprSyntax ExprEval Executor StepOutput ExecutorTheorems Builtins.

Local Open Scope go_scope.

(** ** The interpreter *)

(** A call of a function of [core] or [console], with its arguments as strings
    ([call.Argument(i).String()]); those of [console.log] as [fmt.Sprint] prints
    them. *)
Inductive JsCall :=
  | core_getInput (key : string)
  | core_setOutput (k v : string)
  | core_setFailed (msg : string)
  | core_addPath (p : string)
  | core_exportVariable (k v : string)
  | console_log (args : string).

(** What the native function gives back: a value, [undefined], or a Go panic
    with an error. *)
Inductive JsReply :=
  | ToValue (v : string)
  | Undefined
  | Panicked (text : string).

(** How a script runs: it ends, throws ([*goja.Exception]), stops with another
    error (a syntax error, an interrupt), which may wrap [context.Canceled] or
    [ErrCancelled], lets a Go panic through, or calls the host. *)
Inductive JsProgram :=
  | JsDone
  | JsThrows (value : string)
  | JsStops (text : string) (wraps_cancelled : bool)
  | JsPanics (text : string)
  | JsHost (call : JsCall) (k : JsReply → JsProgram).

(** The value of [github]: its [context], whose payload is empty. *)
Definition github_object : list (string * string) :=
  [("eventName", "push"); ("sha", "abc"); ("ref", "refs/heads/main"); ("actor", "test")].

(** [vm.RunString] with the three objects; the second argument is the reason an
    interrupt gives when the context is done. *)
Class Goja := { RunString : list (string * string) → string → string → JsProgram }.

(** ** runJS *)

Inductive JsError :=
  | JsErr (text : string)                         (** [fmt.Errorf], nothing wrapped *)
  | JsWrapped (text : string) (cancelled : bool). (** [fmt.Errorf("js: %w", err)] *)

Section js.
Context `{Unicode} {I : Type} {sink : SlogHandler I}.

Record JsState := { js_outputs : gmap string string; js_log : Handler I }.

(** The functions given to the script. *)
Definition js_call (inputs : gmap string string) (c : JsCall) (s : JsState) : JsState * JsReply :=
  let logged msg attrs := {| js_outputs := js_outputs s; js_log := log_info msg attrs (js_log s) |} in
  match c with
  | core_getInput key => (s, ToValue (default "" (inputs !! key)))
  | core_setOutput k v => ({| js_outputs := <[k := v]> (js_outputs s); js_log := js_log s |}, Undefined)
  | core_setFailed msg => (logged "js setFailed" [("msg", msg)], Panicked ("js setFailed: " +:+ msg))
  | core_addPath p => (logged "js addPath" [("path", p)], Undefined)
  | core_exportVariable k v => (logged "js exportVariable" [("key", k); ("value", v)], Undefined)
  | console_log args => (logged "js console.log" [("args", args)], Undefined)
  end.

Fixpoint js_run (inputs : gmap string string) (p : JsProgram) (s : JsState) : JsState * outcome JsError unit :=
  match p with
  | JsDone => (s, Ok tt)
  | JsThrows v => (s, Err (JsErr ("js: " +:+ v)))
  | JsStops text c => (s, Err (JsWrapped ("js: " +:+ text) c))
  | JsPanics _ => (s, Panic)
  | JsHost c k => let '(s', r) := js_call inputs c s in js_run inputs (k r) s'
  end.

Definition runJS `{Goja} (inputs : gmap string string) (script : string) (js : option JSStep) (s : JsState)
    : JsState * outcome JsError unit :=
  match js_script script (from_option JSScript "" js) (default "" (inputs !! "script")) (from_option JSRepo "" js) with
  | inl err => (s, Err (JsErr err))
  | inr script =>
      let '(s', r) := js_run inputs (RunString github_object script "context cancelled") s in
      match r with
      | Ok _ => ({| js_outputs := js_outputs s';
                    js_log := log_info "js executed" [("script", str_take (Nat.min 100 (String.length script)) script)] (js_log s') |}, r)
      | _ => (s', r)
      end
  end.

(** [errors.Is(berr, context.Canceled) || errors.Is(berr, ErrCancelled)] of the
    engine. *)
Definition js_step_err (e : JsError) : StepErr :=
  match e with
  | JsErr text => StepError text
  | JsWrapped text c => if c then StepCancelled else StepError text
  end.

(** The engine's call: the outputs start empty, and the command files, emptied
    before the step, are as they were; nothing when the panic leaves [runJS]. *)
Definition js_effect `{Goja} (js : JSStep) (script : string) (inputs : gmap string string) (duration : Z) (h : Handler I)
    : option StepEffect :=
  let '(s', r) := runJS inputs script (Some js) {| js_outputs := ∅; js_log := h |} in
  let effect err := Some {| SeErr := err; SeExit := 0; SeDuration := duration; SeOutputs := js_outputs s';
                            SeEnvFile := ""; SeOutputFile := ""; SePathFile := ""; SeStateFile := "" |} in
  match r with
  | Ok _ => effect None
  | Err e => effect (Some (js_step_err e))
  | Panic => None
  end.
End js.

(** ** What the calls of a script do *)

Section trace.
Context `{Unicode} {I : Type} {sink : SlogHandler I}.

Definition js_reply (inputs : gmap string string) (c : JsCall) : JsReply :=
  match c with
  | core_getInput key => ToValue (default "" (inputs !! key))
  | core_setFailed msg => Panicked ("js setFailed: " +:+ msg)
  | _ => Undefined
  end.

(** The calls of a run, in order; the replies depend on the inputs only. *)
Fixpoint js_trace (inputs : gmap string string) (p : JsProgram) : list JsCall :=
  match p with JsHost c k => c :: js_trace inputs (k (js_reply inputs c)) | _ => [] end.

Definition output_set (outs : gmap string string) (c : JsCall) : gmap string string :=
  match c with core_setOutput k v => <[k := v]> outs | _ => outs end.

Lemma js_call_spec inputs c (s : JsState) :
  js_call inputs c s = ({| js_outputs := output_set (js_outputs s) c; js_log := js_log (fst (js_call inputs c s)) |}, js_reply inputs c).
Proof. by destruct c, s. Qed.

Lemma js_run_outputs inputs p (s : JsState) :
  js_outputs (fst (js_run inputs p s)) = fold_left output_set (js_trace inputs p) (js_outputs s).
Proof.
  revert s. induction p as [| | | |c k IH]; intros s; [done..|]. simpl. rewrite js_call_spec. by rewrite IH.
Qed.

(** The scripts that a step can run, and what its calls leave as outputs. *)
Lemma runJS_outputs `{Goja} inputs script js (s : JsState) :
  js_outputs (fst (runJS inputs script js s)) =
  match js_script script (from_option JSScript "" js) (default "" (inputs !! "script")) (from_option JSRepo "" js) with
  | inl _ => js_outputs s
  | inr script => fold_left output_set (js_trace inputs (RunString github_object script "context cancelled")) (js_outputs s)
  end.
Proof.
  unfold runJS. destruct (js_script _ _ _ _) as [err|script']; [done|].
  rewrite <-js_run_outputs. by destruct (js_run _ _ s) as [s' [[]|e|]].
Qed.

(** ** The log *)

Lemma js_call_clean inputs c (s : JsState) v :
  v ∈ vals (masker (js_log s)) → v ≠ "" → star_free v →
  v ∈ vals (masker (js_log (fst (js_call inputs c s)))) ∧
  clean_steps v (inner (js_log s)) (inner (js_log (fst (js_call inputs c s)))).
Proof.
  intros Hin Hv Hf.
  assert (∀ msg attrs, v ∈ vals (masker (log_info msg attrs (js_log s))) ∧
            clean_steps v (inner (js_log s)) (inner (log_info msg attrs (js_log s)))) as Hlog.
  { intros msg attrs. destruct (log_info_clean msg attrs (js_log s) v) as [-> ?]; [done..|].
    split; [done|]. by apply rtc_once. }
  destruct c; simpl; try apply Hlog; (split; [done|apply rtc_refl]).
Qed.

Lemma js_run_clean inputs p v : ∀ s : JsState,
  v ∈ vals (masker (js_log s)) → v ≠ "" → star_free v →
  v ∈ vals (masker (js_log (fst (js_run inputs p s)))) ∧
  clean_steps v (inner (js_log s)) (inner (js_log (fst (js_run inputs p s)))).
Proof.
  induction p as [| | | |c k IH]; intros s Hin Hv Hf; [by split; [|apply rtc_refl]..|]. simpl.
  destruct (js_call_clean inputs c s v) as [Hin' Hs]; [done..|].
  destruct (js_call inputs c s) as [s' r]. simpl in *. destruct (IH r s') as [? ?]; [done..|]. split; [done|]. by etrans.
Qed.

(** Whatever a script prints, exports or fails with, and whatever of the script
    itself is logged, no record that reaches the log holds a registered secret. *)
Theorem script_log_hides_secrets `{Goja} inputs script js (s : JsState) v :
  v ∈ vals (masker (js_log s)) → v ≠ "" → star_free v →
  clean_steps v (inner (js_log s)) (inner (js_log (fst (runJS inputs script js s)))).
Proof.
  intros Hin Hv Hf. unfold runJS. destruct (js_script _ _ _ _) as [err|script']; [apply rtc_refl|].
  destruct (js_run_clean inputs (RunString github_object script' "context cancelled") v s) as [Hin' Hs]; [done..|].
  destruct (js_run _ _ s) as [s' [[]|e|]]; simpl in *; [|done..].
  etrans; [exact Hs|]. apply rtc_once. by apply log_info_clean.
Qed.
End trace.

(** ** In the engine *)

(** An interrupt whose reason is a string wraps no error ([InterruptedError] of
    goja unwraps to its reason when that is an error), and neither does a syntax
    error. *)
Fixpoint never_wraps (p : JsProgram) : Prop :=
  match p with
  | JsStops _ c => c = false
  | JsHost _ k => ∀ r, never_wraps (k r)
  | _ => True
  end.

Class GojaLaws `{Goja} := goja_never_wraps : ∀ github script reason, never_wraps (RunString github script reason).

Section containment.
Context `{Unicode} `{FloatText} `{JSONText} `{IntConv} `{MapRange} {I : Type} {sink : SlogHandler I} `{GojaLaws}.

Lemma js_run_not_cancelled inputs p : never_wraps p → ∀ (s : JsState) e,
  snd (js_run inputs p s) = Err e → js_step_err e ≠ StepCancelled.
Proof.
  induction p as [| |text c| |c k IH]; simpl; intros Hp s e; try done; try by intros [= <-].
  - rewrite Hp. by intros [= <-].
  - rewrite js_call_spec. apply IH, Hp.
Qed.

Lemma js_effect_spec js script inputs d (h : Handler I) eff :
  js_effect js script inputs d h = Some eff →
  SeErr eff ≠ Some StepCancelled ∧
  SeEnvFile eff = "" ∧ SeOutputFile eff = "" ∧ SePathFile eff = "" ∧ SeStateFile eff = "" ∧
  SeOutputs eff = js_outputs (fst (runJS inputs script (Some js) {| js_outputs := ∅; js_log := h |})).
Proof.
  unfold js_effect. destruct (runJS _ _ _ _) as [s' r] eqn:E.
  destruct r as [[]|e|]; intros [= <-]; simpl; split_and!; try done.
  intros [= Hc]. revert Hc. revert E. unfold runJS. destruct (js_script _ _ _ _) as [err|script'].
  - by intros [= <- <-].
  - destruct (js_run _ _ _) as [s1 r1] eqn:Er. destruct r1 as [[]|e1|]; intros [= <- <-]; simpl.
    eapply js_run_not_cancelled; [apply goja_never_wraps|by rewrite Er].
Qed.

Lemma empty_files_fold (eff : StepEffect) outs env path :
  SeEnvFile eff = "" → SeOutputFile eff = "" → SePathFile eff = "" → SeStateFile eff = "" →
  fold_commands eff outs env path = (outs, env, path).
Proof. unfold fold_commands. intros -> -> -> ->. reflexivity. Qed.

(** A JavaScript step can give its job outputs, and nothing else: the outputs are
    what its [core.setOutput] calls set, a later call overwriting an earlier one;
    [core.exportVariable] and [core.addPath] leave the environment and the path of
    the later steps alone; and a script that was interrupted because the job was
    cancelled is a failed step, subject to [continue-on-error], not a cancelled
    job. *)
Theorem javascript_step_is_contained `{Host} (id : JobRunID) (p : Plan) i st js ws stepEnv x s :
  PsJS st = Some js →
  (∀ script inputs, ∃ d (h : Handler I), js_effect js script inputs d h = Some (Executor.runJS i js script inputs stepEnv)) →
  match perform id p i st ws stepEnv x s with
  | Go s' =>
      genv s' = genv s ∧ gpath s' = gpath s ∧
      ∃ inputs calls state, final_inputs x st ws (JSInputs js) = Ok inputs ∧
        (calls = [] ∨ ∃ script, calls = js_trace inputs (RunString github_object script "context cancelled")) ∧
        gstates s' = <[PsID st := state]> (gstates s) ∧ stOutputs state = fold_left output_set calls ∅
  | Stop f => RunErr f ≠ Some RunCancelled
  end.
Proof.
  intros Hjs Hhost. unfold perform, perform_js. rewrite Hjs.
  destruct (final_inputs x st ws (JSInputs js)) as [inputs|[k err]|] eqn:Ei; [|done..]. cbv zeta.
  set (script := if bool_decide _ then _ else _). destruct (Hhost script inputs) as (d & h & Heff).
  apply js_effect_spec in Heff as (Hne & E1 & E2 & E3 & E4 & Eo).
  unfold conclude. rewrite (empty_files_fold _ _ _ _ E1 E2 E3 E4).
  rewrite runJS_outputs in Eo. simpl in Eo.
  assert (∃ calls, (calls = [] ∨ ∃ script, calls = js_trace inputs (RunString github_object script "context cancelled")) ∧
    SeOutputs (Executor.runJS i js script inputs stepEnv) = fold_left output_set calls ∅) as (calls & Hc & Hout).
  { destruct (js_script _ _ _ _); [exists []; split; [by left|done]|]. eexists. split; [right; by eexists|exact Eo]. }
  destruct (SeErr _) as [[|msg]|]; [done|destruct (PsContinueOnError st); [|done]|]; simpl;
    (split; [done|]; split; [done|]; eexists inputs, calls, _; by repeat split).
Qed.
End containment.

(** ** A script *)

(** [core.setOutput('greeting', 'hello ' + core.getInput('name'))], and one that
    fails; the interpreter throws a panic of the host as an exception. *)
Definition greeting : JsProgram :=
  JsHost (core_getInput "name") (fun r =>
    JsHost (core_setOutput "greeting" ("hello " +:+ match r with ToValue v => v | _ => "undefined" end)) (fun _ => JsDone)).

Definition failing : JsProgram :=
  JsHost (core_setFailed "no luck") (fun r => match r with Panicked t => JsThrows t | _ => JsDone end).

#[local] Instance demo_goja : Goja := {|
  RunString := fun _ script _ => if bool_decide (script = "greet") then greeting else failing |}.

#[local] Instance demo_goja_laws : GojaLaws.
Proof. intros g s r. simpl. case_bool_decide; simpl; [done|]. by intros []. Qed.

#[local] Instance no_sink : SlogHandler (list LogRecord) := {|
  slog_Enabled := fun _ _ => true; slog_Handle := fun l r => (l ++ [r], true);
  slog_WithAttrs := fun l _ => l; slog_WithGroup := fun l _ => l |}.

Definition demo_js : JSStep := {| JSRepo := "actions/github-script"; JSRef := "v6"; JSPath := ""; JSMain := ""; JSScript := "greet";
  JSInputs := {[ "name" := "forgelet" ]} |}.

Definition demo_log : Handler (list LogRecord) := {| inner := []; masker := NewMasker |}.

Example github_script_greets :
  js_outputs (fst (runJS {[ "name" := "forgelet" ]} "greet" (Some demo_js) {| js_outputs := ∅; js_log := demo_log |})) =
  {[ "greeting" := "hello forgelet" ]}.
Proof. reflexivity. Qed.

Example setFailed_fails :
  snd (runJS ∅ "other" (Some demo_js) {| js_outputs := ∅; js_log := demo_log |}) = Err (JsErr "js: js setFailed: no luck").
Proof. reflexivity. Qed.

(** Nothing in the engine recovers from the panic of [core.setFailed]: where the
    interpreter lets it through, it leaves [runJS]. *)
Definition letting_panics_through : JsProgram :=
  JsHost (core_setFailed "no luck") (fun r => match r with Panicked t => JsPanics t | _ => JsDone end).

Example setFailed_can_panic :
  snd (@runJS _ no_sink {| RunString := fun _ _ _ => letting_panics_through |} ∅ "x" None {| js_outputs := ∅; js_log := demo_log |}) = Panic.
Proof. reflexivity. Qed.

Section demo.
#[local] Existing Instances ascii_unicode demo_float_text some_order.
#[local] Instance no_json_text : JSONText :=
  {| json_Marshal := fun _ => inl "no JSON"; json_Decode := fun _ => inl "no JSON" |}.
#[local] Instance no_int_conv : IntConv := {| int_of_other := fun _ => 0%Z |}.

Lemma demo_js_ends js script inputs : is_Some (js_effect js script inputs 5 demo_log).
Proof.
  unfold js_effect, runJS. destruct (js_script _ _ _ _) as [e|s]; [by eexists|]. unfold RunString, demo_goja.
  case_bool_decide; by eexists.
Qed.

Definition js_host : Host := {|
  ctxDone := fun _ => false; makeMetaDir := None; prepareFiles := fun _ => None;
  FetchSecrets := fun _ => Ok ∅;
  runStepScript := fun _ _ script _ => demo_effect script;
  Executor.runJS := fun _ js script inputs _ => default (demo_effect "") (js_effect js script inputs 5 demo_log);
  runHandler := fun _ action _ _ => demo_effect action |}.

Definition hello_step : PlanStep := {|
  PsID := "hello"; PsName := ""; PsIf := ""; PsRun := {| Script := ""; Shell := ""; RunEnv := ∅ |};
  PsBuiltin := None; PsJS := Some demo_js; PsComposite := None; PsContinueOnError := false; PsWorkingDir := "" |}.

Definition js_performed : StepEnd :=
  @perform _ _ _ _ _ js_host "idx" (demo_plan [hello_step]) 0 hello_step ∅ ∅ (exprEnv demo_engine (demo_plan [hello_step]) ∅ ∅) (start_state ∅).

Lemma js_performed_goes : match js_performed with Go s' => True | Stop _ => False end.
Proof. vm_compute. exact I. Qed.

Lemma javascript_step_is_contained_witness : ∃ s', js_performed = Go s' ∧ gpath s' = [].
Proof.
  pose proof (javascript_step_is_contained (H6 := js_host) "idx" (demo_plan [hello_step]) 0 hello_step demo_js ∅ ∅
    (exprEnv demo_engine (demo_plan [hello_step]) ∅ ∅) (start_state ∅) eq_refl) as Hc.
  pose proof js_performed_goes as Hgo. fold js_performed in Hc. destruct js_performed as [s'|f]; [|destruct Hgo].
  exists s'. split; [reflexivity|]. apply Hc. intros script inputs. exists 5%Z, demo_log.
  unfold Executor.runJS, js_host. destruct (demo_js_ends demo_js script inputs) as [eff E]. rewrite E. reflexivity.
Defined.

Lemma script_log_hides_secrets_witness :
  clean_steps "hunter2" [] (inner (js_log (fst (runJS ∅ "other" (Some demo_js)
    {| js_outputs := ∅; js_log := {| inner := []; masker := AddValue "hunter2" NewMasker |} |})))).
Proof.
  apply (script_log_hides_secrets ∅ "other" (Some demo_js)
    {| js_outputs := ∅; js_log := {| inner := []; masker := AddValue "hunter2" NewMasker |} |}).
  - vm_compute. left.
  - discriminate.
  - reflexivity.
Defined.
End demo.
