(* ===== verification/Controller.v ===== *)
(** * The Kubernetes controller (internal/runtime/controller, api/v1alpha1)

    [Reconcile] gives every open JobRun object its pod and reports the phase of
    the pod; [kube_CreateOrGet] and [kube_Delete] are the store through which the
    scheduler creates and removes JobRun objects.  The API server is the class
    [KubeClient] over an abstract cluster, the helpers of apimachinery and
    controller-runtime are [KubeMeta], the report to the control plane is
    [DurableProjection]. *)

From stdpp Require Import pretty.
From S2P Require Import Prelude GoStrings RunModel Authorization SchedulerPort.

Local Open Scope go_scope.

(** ** Objects (api/v1alpha1/jobrun_types.go, runnerclass_types.go) *)

Definition JobRunPhasePending : string := "pending".
Definition JobRunPhaseRunning : string := "running".
Definition JobRunPhaseSucceeded : string := "succeeded".
Definition JobRunPhaseFailed : string := "failed".

Definition JobRunConditionReady : string := "Ready".
Definition ReasonRunnerClassMissing : string := "RunnerClassMissing".
Definition ReasonProgressing : string := "Progressing".

Record JobRunSpec := {
  CrRunID : string;
  CrJobKey : string;
  CrRunnerClass : string;
  PlanID : string;
  CrPlanDigest : string;
  CrAttempt : Z
}.

(** [metav1.Condition]; the transition time is the library's. *)
Record StatusCondition := {
  CondType : string;
  CondStatus : string;
  CondReason : string;
  CondMessage : string;
  CondGeneration : Z
}.

Record JobRunObserved := {
  CrPhase : string;
  CrPodName : string;
  CrPodUID : string;
  CrStartedAt : option Time;
  CrFinishedAt : option Time;
  CrConditions : list StatusCondition
}.

(** The name and the namespace of an object. *)
Abbreviation ObjectKey := (string * string)%type.

(** The object; [CrVersion] is its resource version. *)
Record JobRunCR := {
  CrNamespace : string;
  CrName : string;
  CrUID : string;
  CrVersion : string;
  CrGeneration : Z;
  CrSpec : JobRunSpec;
  CrStatus : JobRunObserved
}.

Definition cr_key (jr : JobRunCR) : ObjectKey := (CrNamespace jr, CrName jr).

Definition Terminal (jr : JobRunCR) : bool :=
  bool_decide (CrPhase (CrStatus jr) = JobRunPhaseSucceeded) ||
  bool_decide (CrPhase (CrStatus jr) = JobRunPhaseFailed).

Record ResourceRequirements := { Limits : gmap string string; Requests : gmap string string }.

(** The fields of a RunnerClass the controller reads. *)
Record RunnerClass := {
  RcImage : string;
  RcResources : ResourceRequirements;
  RcNodeSelector : gmap string string
}.

(** ** Pods ([corev1.Pod], the fields the controller sets or reads) *)

Inductive PodPhase :=
  | PodPending
  | PodRunning
  | PodSucceeded
  | PodFailed
  | PodPhaseOther (raw : string).

Record VolumeMount := { MountName : string; MountPath : string; MountReadOnly : bool }.

Inductive VolumeSource :=
  | EmptyDir
  | ProjectedToken (audience : string) (expiration : Z) (path : string) (mode : Z).

Record CorePod := {
  PodNamespace : string;
  PodName : string;
  PodUID : string;
  CoreLabels : gmap string string;
  PodOwner : option string;
  RestartPolicy : string;
  AutomountToken : bool;
  ServiceAccountName : string;
  NodeSelector : gmap string string;
  ContainerName : string;
  Image : string;
  ContainerCommand : list string;
  ContainerArgs : list string;
  Resources : ResourceRequirements;
  WorkingDir : string;
  VolumeMounts : list VolumeMount;
  Volumes : list (string * VolumeSource);
  CorePhase : PodPhase
}.

Definition pod_key (p : CorePod) : ObjectKey := (PodNamespace p, PodName p).

(** ** The API server and its libraries *)

Inductive KubeErr :=
  | KNotFound (msg : string)
  | KAlreadyExists (msg : string)
  | KError (msg : string).

Definition kube_text (e : KubeErr) : string :=
  match e with KNotFound m | KAlreadyExists m | KError m => m end.

(** A request either changes the cluster or not, and may fail either way. *)
Class KubeClient (K : Type) := {
  getJobRun : ObjectKey → K → outcome KubeErr JobRunCR;
  getRunnerClass : ObjectKey → K → outcome KubeErr RunnerClass;
  getPod : ObjectKey → K → outcome KubeErr CorePod;
  createPod : CorePod → K → K * outcome KubeErr unit;
  createJobRun : JobRunCR → K → K * outcome KubeErr JobRunCR;
  deleteJobRun : ObjectKey → K → K * outcome KubeErr unit;
  updateStatus : JobRunCR → K → K * outcome KubeErr JobRunCR
}.

Class KubeMeta := {
  SetStatusCondition : list StatusCondition → StatusCondition → list StatusCondition;
  FindStatusCondition : list StatusCondition → string → option StatusCondition;
  SetControllerReference : JobRunCR → CorePod → outcome KubeErr CorePod
}.

(** The port to the control plane; an error is its text. *)
Class DurableProjection (W : Type) := {
  ApplyProjection : JobRunID → ObservedPhase → Time → W → W * option string
}.

(** ** Names *)

Definition ExecutorServiceAccount : string := "forgelet-executor".
Definition ControlPlaneAudience : string := "forgelet-control-plane".
Definition PodSuffix : string := "-pod".
Definition workspaceVolume : string := "workspace".
Definition tokenVolume : string := "control-plane-token".
Definition tokenMountDir : string := "/var/run/forgelet".
Definition workspaceDir : string := "/workspace".
Definition executorPath : string := "/ci/executor".
Definition jobContainer : string := "job".
Definition appLabel : string := "ci.forgelet.dev/app".
Definition jobRunLabel : string := "ci.forgelet.dev/jobrun-id".

Definition IDFromCRName `{Unicode} (name : string) : outcome string JobRunID :=
  let prefix := "jobrun-" in
  if bool_decide (String.length name ≤ String.length prefix) ||
     negb (bool_decide (str_take (String.length prefix) name = prefix))
  then Err ("controller: CR name " +:+ quote name +:+ " lacks " +:+ quote prefix +:+ " prefix")
  else Ok (str_drop (String.length prefix) name).

(** ** Phases *)

Definition phaseRank (phase : string) : nat :=
  if bool_decide (phase = JobRunPhaseSucceeded) || bool_decide (phase = JobRunPhaseFailed) then 2
  else if bool_decide (phase = JobRunPhaseRunning) then 1 else 0.

Definition mapPodPhase (p : PodPhase) : string :=
  match p with
  | PodRunning => JobRunPhaseRunning
  | PodSucceeded => JobRunPhaseSucceeded
  | PodFailed => JobRunPhaseFailed
  | _ => JobRunPhasePending
  end.

Definition toModelPhase (phase : string) : ObservedPhase :=
  if bool_decide (phase = JobRunPhaseRunning) then PhaseRunning
  else if bool_decide (phase = JobRunPhaseSucceeded) then PhaseSucceeded
  else if bool_decide (phase = JobRunPhaseFailed) then PhaseFailed
  else PhasePending.

(** ** The pod of a JobRun *)

Definition buildPod (jr : JobRunCR) (class : RunnerClass) : CorePod := {|
  PodNamespace := CrNamespace jr;
  PodName := CrName jr +:+ PodSuffix;
  PodUID := "";
  CoreLabels := <[appLabel := "executor"]> {[ jobRunLabel := PlanID (CrSpec jr) ]};
  PodOwner := None;
  RestartPolicy := "Never";
  AutomountToken := false;
  ServiceAccountName := ExecutorServiceAccount;
  NodeSelector := RcNodeSelector class;
  ContainerName := jobContainer;
  Image := RcImage class;
  ContainerCommand := [executorPath];
  ContainerArgs := ["--jobrun=" +:+ PlanID (CrSpec jr)];
  Resources := RcResources class;
  WorkingDir := workspaceDir;
  VolumeMounts := [{| MountName := workspaceVolume; MountPath := workspaceDir; MountReadOnly := false |};
                   {| MountName := tokenVolume; MountPath := tokenMountDir; MountReadOnly := true |}];
  Volumes := [(workspaceVolume, EmptyDir);
              (tokenVolume, ProjectedToken ControlPlaneAudience 3600 "token" 420)];
  CorePhase := PodPhaseOther ""
|}.

(** ** Reconciling *)

(** [ctrl.Result]: the delay after which the request is queued again, in seconds. *)
Definition Result : Type := option Z.

Definition set_conditions (cs : list StatusCondition) (jr : JobRunCR) : JobRunCR :=
  {| CrNamespace := CrNamespace jr; CrName := CrName jr; CrUID := CrUID jr; CrVersion := CrVersion jr;
     CrGeneration := CrGeneration jr; CrSpec := CrSpec jr;
     CrStatus := {| CrPhase := CrPhase (CrStatus jr); CrPodName := CrPodName (CrStatus jr);
                    CrPodUID := CrPodUID (CrStatus jr); CrStartedAt := CrStartedAt (CrStatus jr);
                    CrFinishedAt := CrFinishedAt (CrStatus jr); CrConditions := cs |} |}.

Definition or_now (t : option Time) (now : Time) : option Time :=
  match t with None => Some now | Some _ => t end.

(** The status an observed pod gives, before its condition is set. *)
Definition observed_status (phase : string) (pod : CorePod) (now : Time) (jr : JobRunCR) : JobRunCR :=
  let st := CrStatus jr in
  let started := bool_decide (phase = JobRunPhaseRunning) || bool_decide (phase = JobRunPhaseSucceeded) ||
                 bool_decide (phase = JobRunPhaseFailed) in
  let finished := bool_decide (phase = JobRunPhaseSucceeded) || bool_decide (phase = JobRunPhaseFailed) in
  {| CrNamespace := CrNamespace jr; CrName := CrName jr; CrUID := CrUID jr; CrVersion := CrVersion jr;
     CrGeneration := CrGeneration jr; CrSpec := CrSpec jr;
     CrStatus := {| CrPhase := phase; CrPodName := PodName pod; CrPodUID := PodUID pod;
                    CrStartedAt := if started then or_now (CrStartedAt st) now else CrStartedAt st;
                    CrFinishedAt := if finished then or_now (CrFinishedAt st) now else CrFinishedAt st;
                    CrConditions := CrConditions st |} |}.

Section reconciler.
Context `{Unicode} {K W : Type} `{KubeClient K} `{KubeMeta} `{DurableProjection W}.

(** The cluster and the control plane. *)
Definition World : Type := K * W.
Definition Rec (A : Type) : Type := World → World * outcome string A.

Definition rfail {A} (msg : string) : Rec A := fun w => (w, Err msg).
Definition rdone (r : Result) : Rec Result := fun w => (w, Ok r).

(** A request that changes the cluster; its error is named. *)
Definition on_kube {A} (m : K → K * outcome KubeErr A) (f : KubeErr → string) : Rec A := fun w =>
  let '(k, r) := m (fst w) in
  ((k, snd w), match r with Ok a => Ok a | Err e => Err (f e) | Panic => Panic end).

Definition rbind {A B} (m : Rec A) (f : A → Rec B) : Rec B := fun w =>
  match m w with
  | (w', Ok a) => f a w'
  | (w', Err e) => (w', Err e)
  | (w', Panic) => (w', Panic)
  end.

Definition condition (jr : JobRunCR) (status reason message : string) : StatusCondition :=
  {| CondType := JobRunConditionReady; CondStatus := status; CondReason := reason;
     CondMessage := message; CondGeneration := CrGeneration jr |}.

(** The object as the server returns it. *)
Definition updateConditions (jr : JobRunCR) (status reason message : string) : Rec JobRunCR :=
  let update := on_kube (updateStatus (set_conditions
      (SetStatusCondition (CrConditions (CrStatus jr)) (condition jr status reason message)) jr))
    (fun e => "update jobrun " +:+ CrName jr +:+ " conditions: " +:+ kube_text e) in
  match FindStatusCondition (CrConditions (CrStatus jr)) JobRunConditionReady with
  | Some c =>
      if bool_decide (CondStatus c = status) && bool_decide (CondReason c = reason) &&
         bool_decide (CondMessage c = message)
      then fun w => (w, Ok jr)
      else update
  | None => update
  end.

Definition project_phase (now : Time) (jr : JobRunCR) (phase : string) : Rec Result := fun w =>
  match ApplyProjection (PlanID (CrSpec jr)) (toModelPhase phase) now (snd w) with
  | (w', None) => ((fst w, w'), Ok None)
  | (w', Some e) => ((fst w, w'), Err ("project observed " +:+ phase +:+ " for " +:+ CrName jr +:+ ": " +:+ e))
  end.

Definition observePod (now : Time) (jr : JobRunCR) (pod : CorePod) : Rec Result :=
  let phase := mapPodPhase (CorePhase pod) in
  if bool_decide (phaseRank phase < phaseRank (CrPhase (CrStatus jr))) then rdone None
  else
    let changed := negb (bool_decide (CrPhase (CrStatus jr) = phase)) ||
                   negb (bool_decide (CrPodName (CrStatus jr) = PodName pod)) ||
                   negb (bool_decide (CrPodUID (CrStatus jr) = PodUID pod)) in
    if negb changed then rdone None
    else
      let jr1 := observed_status phase pod now jr in
      let jr2 := set_conditions
        (SetStatusCondition (CrConditions (CrStatus jr1))
           (condition jr "False" ReasonProgressing ("observed phase " +:+ phase))) jr1 in
      rbind (on_kube (updateStatus jr2)
               (fun e => "update jobrun " +:+ CrName jr +:+ " status: " +:+ kube_text e)) (fun jr3 =>
      if bool_decide (PlanID (CrSpec jr3) = "") then rfail ("jobrun " +:+ CrName jr3 +:+ " has no plan id")
      else project_phase now jr3 phase).

Definition create_pod (jr : JobRunCR) (class : RunnerClass) : Rec Result :=
  rbind (updateConditions jr "True" ReasonProgressing "creating primary pod") (fun jr' =>
  match SetControllerReference jr' (buildPod jr' class) with
  | Err e => rfail ("set owner ref for pod " +:+ CrName jr +:+ PodSuffix +:+ ": " +:+ kube_text e)
  | Panic => fun w => (w, Panic)
  | Ok newPod => fun w =>
      match createPod newPod (fst w) with
      | (k, Ok _) => ((k, snd w), Ok None)
      | (k, Err (KAlreadyExists _)) => ((k, snd w), Ok (Some 1%Z))
      | (k, Err e) => ((k, snd w), Err ("create pod " +:+ CrName jr +:+ PodSuffix +:+ ": " +:+ kube_text e))
      | (k, Panic) => ((k, snd w), Panic)
      end
  end).

(** With the JobRun and its class: its pod is created or observed. *)
Definition reconcile_pod (now : Time) (jr : JobRunCR) (class : RunnerClass) : Rec Result := fun w =>
  match getPod (CrNamespace jr, CrName jr +:+ PodSuffix) (fst w) with
  | Err (KNotFound _) => if Terminal jr then (w, Ok None) else create_pod jr class w
  | Err e => (w, Err ("get pod " +:+ CrName jr +:+ PodSuffix +:+ ": " +:+ kube_text e))
  | Panic => (w, Panic)
  | Ok pod => observePod now jr pod w
  end.

Definition Reconcile (now : Time) (req : ObjectKey) : Rec Result := fun w =>
  match getJobRun req (fst w) with
  | Err (KNotFound _) => (w, Ok None)
  | Err e => (w, Err ("get jobrun " +:+ snd req +:+ ": " +:+ kube_text e))
  | Panic => (w, Panic)
  | Ok jr =>
      match IDFromCRName (CrName jr) with
      | Err e => (w, Err e)
      | Panic => (w, Panic)
      | Ok _ =>
          match getRunnerClass (CrNamespace jr, CrRunnerClass (CrSpec jr)) (fst w) with
          | Err (KNotFound _) =>
              rbind (updateConditions jr "False" ReasonRunnerClassMissing
                       ("RunnerClass " +:+ quote (CrRunnerClass (CrSpec jr)) +:+ " not found"))
                (fun _ => rdone (Some 30%Z)) w
          | Err e => (w, Err ("get runnerclass " +:+ CrRunnerClass (CrSpec jr) +:+ ": " +:+ kube_text e))
          | Panic => (w, Panic)
          | Ok class => reconcile_pod now jr class w
          end
      end
  end.
End reconciler.

(** ** The active store (active.go) *)

(** The conversion to a 32-bit integer. *)
Definition int32 (z : Z) : Z := ((z + 2147483648) mod 4294967296 - 2147483648)%Z.

Section active_store.
Context `{Unicode} {K : Type} `{KubeClient K}.
Context (namespace : string) (source : JobRunID → outcome error JobRunRecord).

(** The object created for a record. *)
Definition new_cr (name : string) (rec : JobRunRecord) : JobRunCR := {|
  CrNamespace := namespace; CrName := name; CrUID := ""; CrVersion := ""; CrGeneration := 0;
  CrSpec := {| CrRunID := JRunID rec; CrJobKey := JJobKey rec; CrRunnerClass := JRunnerClass rec;
               PlanID := JID rec; CrPlanDigest := JPlanDigest rec; CrAttempt := int32 (JAttempt rec) |};
  CrStatus := {| CrPhase := ""; CrPodName := ""; CrPodUID := ""; CrStartedAt := None;
                 CrFinishedAt := None; CrConditions := [] |} |}.

Definition active_of (jr : JobRunCR) : ActiveObject := {| ObjName := CrName jr; ObjUID := CrUID jr |}.

Definition kube_CreateOrGet (id : JobRunID) : M K ActiveObject := fun k =>
  let name := CRName id in
  match getJobRun (namespace, name) k with
  | Ok existing => (k, Ok (active_of existing))
  | Panic => (k, Panic)
  | Err (KNotFound _) =>
      match source id with
      | Err e => (k, Err (ErrWrap "job run source" e))
      | Panic => (k, Panic)
      | Ok rec =>
          match createJobRun (new_cr name rec) k with
          | (k', Ok cr) => (k', Ok (active_of cr))
          | (k', Panic) => (k', Panic)
          | (k', Err e) =>
              let failed := Err (ErrWrap "create jobrun" (ErrOther (kube_text e))) in
              match e with
              | KAlreadyExists _ =>
                  match getJobRun (namespace, name) k' with
                  | Ok again => (k', Ok (active_of again))
                  | Err _ => (k', failed)
                  | Panic => (k', Panic)
                  end
              | _ => (k', failed)
              end
          end
      end
  | Err e => (k, Err (ErrWrap "get jobrun" (ErrOther (kube_text e))))
  end.

Definition kube_Delete (id : JobRunID) : M K unit := fun k =>
  match deleteJobRun (namespace, CRName id) k with
  | (k', Ok _) => (k', Ok tt)
  | (k', Err (KNotFound _)) => (k', Ok tt)
  | (k', Err e) => (k', Err (ErrWrap "delete jobrun" (ErrOther (kube_text e))))
  | (k', Panic) => (k', Panic)
  end.
End active_store.

(** ** Reporting over HTTP (httpprojection.go) *)

Record HTTPRequest := {
  HMethod : string;
  HURL : string;
  HHeaders : list (string * string);
  HBody : string
}.

(** The HTTP client: why a request cannot be built, the status of the response or
    the error of the transport. *)
Class HTTPClient (W : Type) := {
  http_NewRequest : HTTPRequest → option string;
  http_Do : HTTPRequest → W → W * (string + Z)
}.

Section projection.
Context {W : Type} `{HTTPClient W}.
(** [json.Marshal] of the one-field body and the base URL and token. *)
Context (encode_phase : string → string) (BaseURL Token : string).

Definition phase_text (p : ObservedPhase) : string :=
  match p with
  | PhasePending => "pending" | PhaseRunning => "running" | PhaseSucceeded => "succeeded"
  | PhaseFailed => "failed" | PhaseSkipped => "skipped" | PhaseOther raw => raw
  end.

Definition projection_request (id : JobRunID) (phase : ObservedPhase) : HTTPRequest := {|
  HMethod := "POST";
  HURL := BaseURL +:+ "/internal/jobruns/" +:+ id +:+ "/observed";
  HHeaders := [("Authorization", "Bearer " +:+ Token); ("Content-Type", "application/json")];
  HBody := encode_phase (phase_text phase) |}.

Definition HTTPProjection (id : JobRunID) (phase : ObservedPhase) (_ : Time) (w : W) : W * option string :=
  let req := projection_request id phase in
  match http_NewRequest req with
  | Some e => (w, Some ("projection: build request: " +:+ e))
  | None =>
      match http_Do req w with
      | (w', inl e) => (w', Some ("projection: request: " +:+ e))
      | (w', inr status) =>
          if bool_decide (status < 200)%Z || bool_decide (300 <= status)%Z
          then (w', Some ("projection: status " +:+ pretty status)) else (w', None)
      end
  end.
End projection.
