(* ===== verification/ControllerTheorems.v ===== *)
(** * What the controller keeps true of the cluster

    [Cluster], [KubeSpec] and [KubeLive] state what is relied on of the API
    server and its two clients.  The controller reads through a cache: what it
    reads is some version of the object that the server has stored, perhaps not
    the latest, and an update of a version that is not the stored one is refused.
    The scheduler's store reads the server.  A write has its documented effect
    or, when it fails, possibly none.  [effect] lists what one reconciliation can
    do; the theorems follow by induction on the steps of the system
    (reconciliation, dispatch, deletion, the kubelet, the garbage collector and
    the cache). *)

From stdpp Require Import pretty.
From S2P Require Import Prelude GoStrings RunModel Identity Authorization SchedulerPort Controller.

Local Open Scope go_scope.

(** ** Updates of an object *)

Definition with_status (st : JobRunObserved) (jr : JobRunCR) : JobRunCR :=
  {| CrNamespace := CrNamespace jr; CrName := CrName jr; CrUID := CrUID jr; CrVersion := CrVersion jr;
     CrGeneration := CrGeneration jr; CrSpec := CrSpec jr; CrStatus := st |}.

Definition with_version (v : string) (jr : JobRunCR) : JobRunCR :=
  {| CrNamespace := CrNamespace jr; CrName := CrName jr; CrUID := CrUID jr; CrVersion := v;
     CrGeneration := CrGeneration jr; CrSpec := CrSpec jr; CrStatus := CrStatus jr |}.

(** The object with what the server or a library fills in: the UID, the
    controlling owner, the phase. *)
Definition with_server_fields (uid : string) (owner : option string) (ph : PodPhase) (p : CorePod) : CorePod :=
  {| PodNamespace := PodNamespace p; PodName := PodName p; PodUID := uid; CoreLabels := CoreLabels p;
     PodOwner := owner; RestartPolicy := RestartPolicy p; AutomountToken := AutomountToken p;
     ServiceAccountName := ServiceAccountName p; NodeSelector := NodeSelector p;
     ContainerName := ContainerName p; Image := Image p; ContainerCommand := ContainerCommand p;
     ContainerArgs := ContainerArgs p; Resources := Resources p; WorkingDir := WorkingDir p;
     VolumeMounts := VolumeMounts p; Volumes := Volumes p; CorePhase := ph |}.

Definition with_uid (uid v : string) (jr : JobRunCR) : JobRunCR :=
  {| CrNamespace := CrNamespace jr; CrName := CrName jr; CrUID := uid; CrVersion := v;
     CrGeneration := CrGeneration jr; CrSpec := CrSpec jr; CrStatus := CrStatus jr |}.

(** ** What the controller relies on *)

(** The objects the server stores, and the versions of objects that clients may
    be shown: stored now or before. *)
Class Cluster (K : Type) := {
  cluster_jobs : K → gmap ObjectKey JobRunCR;
  cluster_pods : K → gmap ObjectKey CorePod;
  job_versions : K → JobRunCR → Prop;
  pod_versions : K → CorePod → Prop
}.

(** A new version is one that was stored. *)
Definition history `{Cluster K} (k k' : K) : Prop :=
  (∀ jr, job_versions k' jr → job_versions k jr ∨ cluster_jobs k' !! cr_key jr = Some jr) ∧
  (∀ p, pod_versions k' p → pod_versions k p ∨ cluster_pods k' !! pod_key p = Some p).

(** A client whose reads may be old.  The server refuses the update of a version
    that is not the stored one, so that an update is made to what was read. *)
Class KubeSpec (K : Type) `{Cluster K} (client : KubeClient K) := {
  law_getJobRun : ∀ k key jr, getJobRun key k = Ok jr → job_versions k jr ∧ cr_key jr = key;
  law_getPod : ∀ k key p, getPod key k = Ok p → pod_versions k p ∧ pod_key p = key;
  law_createPod : ∀ k p k' r, createPod p k = (k', r) →
    cluster_jobs k' = cluster_jobs k ∧ history k k' ∧
    ((r ≠ Ok tt ∧ cluster_pods k' = cluster_pods k) ∨
     (cluster_pods k !! pod_key p = None ∧ ∃ uid,
      cluster_pods k' = <[pod_key p := with_server_fields uid (PodOwner p) PodPending p]> (cluster_pods k)));
  law_createJobRun : ∀ k jr k' r, createJobRun jr k = (k', r) →
    cluster_pods k' = cluster_pods k ∧ history k k' ∧
    ((is_ok r = false ∧ cluster_jobs k' = cluster_jobs k) ∨
     (cluster_jobs k !! cr_key jr = None ∧ ∃ uid v,
      cluster_jobs k' = <[cr_key jr := with_uid uid v jr]> (cluster_jobs k) ∧
      (is_ok r = true → r = Ok (with_uid uid v jr))));
  law_deleteJobRun : ∀ k key k' r, deleteJobRun key k = (k', r) →
    cluster_pods k' = cluster_pods k ∧ history k k' ∧
    (cluster_jobs k' = cluster_jobs k ∨ cluster_jobs k' = delete key (cluster_jobs k));
  law_updateStatus : ∀ k jr k' r, updateStatus jr k = (k', r) →
    cluster_pods k' = cluster_pods k ∧ history k k' ∧
    ((is_ok r = false ∧ cluster_jobs k' = cluster_jobs k) ∨
     ∃ old v, cluster_jobs k !! cr_key jr = Some old ∧
       (∀ seen, job_versions k seen → cr_key seen = cr_key jr → CrVersion seen = CrVersion jr → seen = old) ∧
       cluster_jobs k' = <[cr_key jr := with_version v (with_status (CrStatus jr) old)]> (cluster_jobs k) ∧
       (is_ok r = true → r = Ok (with_version v (with_status (CrStatus jr) old))))
}.

(** A client that reads the server. *)
Class KubeLive (K : Type) `{Cluster K} (client : KubeClient K) := {
  law_live : ∀ k key,
    match getJobRun key k with
    | Ok jr => cluster_jobs k !! key = Some jr ∧ cr_key jr = key
    | Err (KNotFound _) => cluster_jobs k !! key = None
    | _ => True
    end
}.

Class KubeMetaSpec `{KubeMeta} := {
  law_SetControllerReference : ∀ jr p p', SetControllerReference jr p = Ok p' →
    ∃ owner, p' = with_server_fields (PodUID p) owner (CorePhase p) p
}.

(** ** What a reconciliation does *)

Section effects.
Context `{Unicode} {K W : Type} `{Cluster K} {client : KubeClient K} `{!KubeSpec K client} `{KubeMetaSpec} `{DurableProjection W}.

(** Only the status of one object changed; [chg] relates the two statuses. *)
Definition status_change (key : ObjectKey) (chg : JobRunObserved → JobRunObserved → Prop) (k k' : K) : Prop :=
  cluster_pods k' = cluster_pods k ∧
  (cluster_jobs k' = cluster_jobs k ∨
   ∃ old st v, cluster_jobs k !! key = Some old ∧ chg (CrStatus old) st ∧
     cluster_jobs k' = <[key := with_version v (with_status st old)]> (cluster_jobs k)).

Definition same_phase (a b : JobRunObserved) : Prop := CrPhase a = CrPhase b.

Definition phase_up (phase : string) (a b : JobRunObserved) : Prop :=
  CrPhase b = phase ∧ phaseRank (CrPhase a) ≤ phaseRank phase.

(** The phase of a pod, as a JobRun records it: with the pod it is of. *)
Definition records (jr : JobRunCR) (p : CorePod) : Prop :=
  CrPhase (CrStatus jr) = mapPodPhase (CorePhase p) ∧ CrPodName (CrStatus jr) = PodName p ∧
  CrPodUID (CrStatus jr) = PodUID p.

Inductive effect (req : ObjectKey) (w w' : @World K W) : Prop :=
  | idle :
      status_change req same_phase (fst w) (fst w') → snd w' = snd w → effect req w w'
  | pod_created jr class p :
      job_versions (fst w) jr → cr_key jr = req → Terminal jr = false →
      cluster_pods (fst w) !! (fst req, snd req +:+ PodSuffix) = None →
      (∃ k, status_change req same_phase (fst w) k ∧
            cluster_jobs (fst w') = cluster_jobs k) →
      (∃ uid owner, p = with_server_fields uid owner PodPending (buildPod jr class)) →
      cluster_pods (fst w') = <[(fst req, snd req +:+ PodSuffix) := p]> (cluster_pods (fst w)) →
      snd w' = snd w → effect req w w'
  | pod_observed jr p now :
      pod_versions (fst w) p → pod_key p = (fst req, snd req +:+ PodSuffix) →
      cluster_jobs (fst w) !! req = Some jr → ¬ records jr p →
      status_change req (phase_up (mapPodPhase (CorePhase p))) (fst w) (fst w') →
      (∃ jr', cluster_jobs (fst w') !! req = Some jr' ∧ CrSpec jr' = CrSpec jr ∧ records jr' p) →
      (snd w' = snd w ∨
       (snd w' = fst (ApplyProjection (PlanID (CrSpec jr)) (toModelPhase (mapPodPhase (CorePhase p))) now (snd w)) ∧
        PlanID (CrSpec jr) ≠ "")) →
      effect req w w'.

Lemma status_change_refl key chg k : status_change key chg k k.
Proof. split; [done|by left]. Qed.

Lemma on_kube_update {jr f} {w w' : @World K W} {r} :
  on_kube (updateStatus jr) f w = (w', r) →
  snd w' = snd w ∧ cluster_pods (fst w') = cluster_pods (fst w) ∧
  ((is_ok r = false ∧ cluster_jobs (fst w') = cluster_jobs (fst w)) ∨
   ∃ old v, cluster_jobs (fst w) !! cr_key jr = Some old ∧
     (∀ seen, job_versions (fst w) seen → cr_key seen = cr_key jr → CrVersion seen = CrVersion jr → seen = old) ∧
     cluster_jobs (fst w') = <[cr_key jr := with_version v (with_status (CrStatus jr) old)]> (cluster_jobs (fst w)) ∧
     (is_ok r = true → r = Ok (with_version v (with_status (CrStatus jr) old)))).
Proof.
  unfold on_kube. destruct (updateStatus jr (fst w)) as [k r0] eqn:E. intros [= <- <-].
  apply law_updateStatus in E as (Hp & _ & Hj). split_and!; [done..|]. simpl.
  destruct Hj as [[Hr Hj]|(old & v & Ho & Hv & Hj & Hr)]; [left|right].
  - by destruct r0.
  - exists old, v. split_and!; [done..|]. destruct r0; [|done..]. simpl. intros _.
    specialize (Hr eq_refl). congruence.
Qed.

(** The object a successful update of the conditions returns keeps everything else. *)
Lemma updateConditions_effect {jr st reason msg} {w w' : @World K W} {r} :
  job_versions (fst w) jr → updateConditions jr st reason msg w = (w', r) →
  snd w' = snd w ∧ status_change (cr_key jr) same_phase (fst w) (fst w') ∧
  ∀ jr', r = Ok jr' → CrSpec jr' = CrSpec jr ∧ cr_key jr' = cr_key jr.
Proof.
  intros Hl. unfold updateConditions.
  assert (∀ f w' r, on_kube (updateStatus (set_conditions (SetStatusCondition
            (CrConditions (CrStatus jr)) (condition jr st reason msg)) jr)) f w = (w', r) →
    snd w' = snd w ∧ status_change (cr_key jr) same_phase (fst w) (fst w') ∧
    ∀ jr', r = Ok jr' → CrSpec jr' = CrSpec jr ∧ cr_key jr' = cr_key jr) as Hupd.
  { clear w' r. intros f w' r E. destruct (on_kube_update E) as (Hw & Hp & Hj).
    change (cr_key (set_conditions _ jr)) with (cr_key jr) in Hj.
    split; [done|]. destruct Hj as [[Hr Hj]|(old & v & Ho & Hv & Hj & Hr)].
    - split; [split; auto|]. intros jr' ->. done.
    - assert (jr = old) as <- by (by apply Hv). split.
      + split; [done|right]. exists jr, (CrStatus (set_conditions (SetStatusCondition
          (CrConditions (CrStatus jr)) (condition jr st reason msg)) jr)), v. by split_and!.
      + intros jr' ->. specialize (Hr eq_refl). by simplify_eq. }
  destruct (FindStatusCondition _ _) as [c|]; [|apply Hupd].
  destruct (_ && _); [|apply Hupd]. intros [= <- <-].
  split; [done|]. split; [apply status_change_refl|]. by intros jr' [= <-].
Qed.

Lemma buildPod_spec jr jr' class :
  CrSpec jr' = CrSpec jr → cr_key jr' = cr_key jr → buildPod jr' class = buildPod jr class.
Proof. unfold buildPod, cr_key. intros -> [= -> ->]. done. Qed.

Lemma create_pod_effect {jr class req} {w w' : @World K W} {r} :
  cr_key jr = req → job_versions (fst w) jr → Terminal jr = false →
  create_pod jr class w = (w', r) → effect req w w'.
Proof.
  intros <- Hj Ht. unfold create_pod, rbind.
  destruct (updateConditions jr "True" ReasonProgressing "creating primary pod" w) as [w1 r1] eqn:Eu.
  destruct (updateConditions_effect Hj Eu) as (Hw & Hs & Hspec).
  destruct r1 as [jr'|e|]; try (intros [= <- <-]; by apply idle).
  destruct (Hspec jr' eq_refl) as [Hs' Hk']. clear Hspec.
  destruct (SetControllerReference jr' (buildPod jr' class)) as [newPod|e|] eqn:Eo;
    try (intros [= <- <-]; by apply idle).
  apply law_SetControllerReference in Eo as [owner ->]. rewrite (buildPod_spec jr jr') by done.
  destruct (createPod _ (fst w1)) as [k r2] eqn:Ec. intros E.
  apply law_createPod in Ec as (Hjobs & _ & Hpods).
  assert (fst w' = k ∧ snd w' = snd w1) as [<- Hw'].
  { destruct r2 as [[]|[]|]; by simplify_eq. }
  destruct Hpods as [[_ Hpods]|(Hfree & uid & Hpods)].
  - apply idle; [|congruence]. destruct Hs as [Hp Hch]. split; [congruence|].
    destruct Hch as [Hch|?]; [left; congruence|right; by rewrite Hjobs].
  - eapply (pod_created _ _ _ jr class); [done..| | | | |congruence].
    + destruct Hs as [Hp _]. rewrite <-Hp. exact Hfree.
    + by exists (fst w1).
    + by exists uid, owner.
    + rewrite Hpods. by destruct Hs as [<- _].
Qed.

Lemma observePod_effect {now jr p req} {w w' : @World K W} {r} :
  cr_key jr = req → job_versions (fst w) jr →
  pod_versions (fst w) p → pod_key p = (fst req, snd req +:+ PodSuffix) →
  observePod now jr p w = (w', r) → effect req w w'.
Proof.
  intros <- Hv Hp Hk. unfold observePod.
  assert (idle_done : effect (cr_key jr) w w) by (apply idle; [apply status_change_refl|done]).
  case_bool_decide as Hrank; [by intros [= <- <-]|].
  destruct (negb (_ || _ || _)) eqn:Hch; [by intros [= <- <-]|]. apply negb_false_iff in Hch.
  unfold rbind. set (jr2 := set_conditions _ _).
  destruct (on_kube _ _ w) as [w1 r1] eqn:Eu.
  destruct (on_kube_update Eu) as (Hw & Hpods & Hjobs). change (cr_key jr2) with (cr_key jr) in Hjobs.
  destruct Hjobs as [[Hr Hsame]|(old & v & Ho & Hseen & Hjobs & Hr)].
  { destruct r1; [done|..]; intros [= <- <-]; apply idle; try done; split; auto. }
  assert (jr = old) as <- by (by apply Hseen). clear Hseen.
  assert (¬ records jr p) as Hnew.
  { intros (E1 & E2 & E3). rewrite E1, E2, E3 in Hch. rewrite !bool_decide_eq_true_2 in Hch by done. done. }
  assert (status_change (cr_key jr) (phase_up (mapPodPhase (CorePhase p))) (fst w) (fst w1)) as Hs.
  { split; [done|right]. exists jr, (CrStatus jr2), v. split; [done|]. split; [|done]. split; [done|lia]. }
  assert (∃ jr', cluster_jobs (fst w1) !! cr_key jr = Some jr' ∧ CrSpec jr' = CrSpec jr ∧ records jr' p) as Hrec.
  { eexists. rewrite Hjobs, lookup_insert_eq. by repeat split. }
  clearbody jr2.
  assert (∀ w', fst w' = fst w1 → snd w' = snd w1 → effect (cr_key jr) w w') as Hquiet.
  { intros w2 H1' H2'. apply (pod_observed _ _ _ jr p now); rewrite ?H1'; try done. left. congruence. }
  destruct r1 as [jr3|e|]; try (intros [= <- <-]; by apply Hquiet).
  specialize (Hr eq_refl). injection Hr as ->. cbn [with_version with_status CrSpec CrName].
  destruct (decide (PlanID (CrSpec jr) = "")) as [Hpl|Hpl].
  { rewrite bool_decide_eq_true_2 by done. intros [= <- <-]. by apply Hquiet. }
  rewrite bool_decide_eq_false_2 by done. unfold project_phase. simpl. intros E.
  assert (fst w' = fst w1 ∧ snd w' = fst (ApplyProjection (PlanID (CrSpec jr)) (toModelPhase (mapPodPhase (CorePhase p))) now (snd w)))
    as [Hf' Hs'].
  { rewrite <-Hw. destruct (ApplyProjection _ _ _ _) as [x [t|]]; by simplify_eq. }
  eapply (pod_observed _ _ _ jr p now); rewrite ?Hf'; try done. by right.
Qed.

Lemma reconcile_effect {now req} {w w' : @World K W} {r} :
  Reconcile now req w = (w', r) → effect req w w'.
Proof.
  intros E. assert (effect req w w) as Hidle by (apply idle; [apply status_change_refl|done]).
  unfold Reconcile in E. pose proof (law_getJobRun (fst w) req) as Hg.
  destruct (getJobRun req (fst w)) as [jr|[]|]; try (by injection E as <- <-).
  destruct (Hg jr eq_refl) as [Hv <-]. clear Hg.
  destruct (IDFromCRName _); try (by injection E as <- <-).
  destruct (getRunnerClass _ _) as [class|[]|]; try (by injection E as <- <-).
  - unfold reconcile_pod in E. change (CrNamespace jr) with (fst (cr_key jr)) in E.
    change (CrName jr) with (snd (cr_key jr)) in E.
    pose proof (law_getPod (fst w) (fst (cr_key jr), snd (cr_key jr) +:+ PodSuffix)) as Hp.
    destruct (getPod _ _) as [p|[]|]; try (by injection E as <- <-).
    + destruct (Hp p eq_refl) as [Hpv Hpk]. by eapply observePod_effect.
    + destruct (Terminal jr) eqn:Ht; [by injection E as <- <-|]. by eapply create_pod_effect.
  - unfold rbind, rdone in E. destruct (updateConditions _ _ _ _ _) as [w1 r1] eqn:Eu.
    destruct (updateConditions_effect Hv Eu) as (Hw & Hs & _).
    destruct r1; simplify_eq; by apply idle.
Qed.
End effects.

(** ** The system *)

Section system.
Context `{Unicode} {K W : Type} `{Cluster K} (cached live : KubeClient K).
Context `{!KubeSpec K cached} `{!KubeSpec K live} `{!KubeLive K live} `{KubeMetaSpec} `{DurableProjection W}.
Context (ns : string) (source : JobRunID → outcome error JobRunRecord).

(** The controller with its cache, the store of the scheduler with its client. *)
Definition cached_Reconcile : Time → ObjectKey → @Rec K W Result := @Reconcile _ K W cached _ _.
Definition live_CreateOrGet : JobRunID → M K ActiveObject := @kube_CreateOrGet _ K live ns source.
Definition live_Delete : JobRunID → M K unit := @kube_Delete _ K live ns.

(** The controller, the scheduler's store, the kubelet, the collector of pods,
    the cache and the control plane take turns. *)
Inductive sys_step : @World K W → @World K W → Prop :=
  | sys_reconcile now req w w' r : cached_Reconcile now req w = (w', r) → sys_step w w'
  | sys_dispatch id k k' r w : live_CreateOrGet id k = (k', r) → sys_step (k, w) (k', w)
  | sys_delete id k k' r w : live_Delete id k = (k', r) → sys_step (k, w) (k', w)
  | sys_kubelet key p ph k k' w :
      cluster_pods k !! key = Some p → cluster_jobs k' = cluster_jobs k → history k k' →
      cluster_pods k' = <[key := with_server_fields (PodUID p) (PodOwner p) ph p]> (cluster_pods k) →
      sys_step (k, w) (k', w)
  | sys_pod_gone key k k' w :
      cluster_jobs k' = cluster_jobs k → history k k' → cluster_pods k' = delete key (cluster_pods k) →
      sys_step (k, w) (k', w)
  | sys_cache k k' w :
      cluster_jobs k' = cluster_jobs k → cluster_pods k' = cluster_pods k → history k k' →
      sys_step (k, w) (k', w)
  | sys_control k w w' : sys_step (k, w) (k, w').

(** *** Names and labels *)

Definition named_job (jr : JobRunCR) : Prop := CrName jr = CRName (PlanID (CrSpec jr)).

Definition executor_pod (p : CorePod) : Prop :=
  ∃ id, PodName p = CRName id +:+ PodSuffix ∧ CoreLabels p !! jobRunLabel = Some id ∧
    ContainerArgs p = ["--jobrun=" +:+ id] ∧ ServiceAccountName p = ExecutorServiceAccount ∧
    AutomountToken p = false ∧ (tokenVolume, ProjectedToken ControlPlaneAudience 3600 "token" 420) ∈ Volumes p.

Definition cluster_ok (k : K) : Prop :=
  (∀ key jr, cluster_jobs k !! key = Some jr → named_job jr) ∧
  (∀ key p, cluster_pods k !! key = Some p → pod_key p = key ∧ executor_pod p) ∧
  (∀ jr, job_versions k jr → named_job jr).

Lemma cluster_ok_next (k k' : K) :
  history k k' → cluster_ok k →
  (∀ key jr, cluster_jobs k' !! key = Some jr → named_job jr) →
  (∀ key p, cluster_pods k' !! key = Some p → pod_key p = key ∧ executor_pod p) → cluster_ok k'.
Proof.
  intros [Hh _] (_ & _ & Hv) Hj Hp. split_and!; [done..|]. intros jr [?|?]%Hh; [by apply Hv|by eapply Hj].
Qed.

(** [cluster_ok] is kept by a computation. *)
Definition safe {A} (m : @Rec K W A) : Prop := ∀ w w' r, m w = (w', r) → cluster_ok (fst w) → cluster_ok (fst w').

Lemma update_safe jr f : safe (on_kube (@updateStatus K cached jr) f).
Proof.
  intros w w' r. unfold on_kube. destruct (updateStatus jr (fst w)) as [k r0] eqn:E. intros [= <- _] Hok. simpl.
  apply law_updateStatus in E as (Hp & Hh & Hj). pose proof Hok as (Ho & Hpo & _).
  eapply cluster_ok_next; [done..| |by rewrite Hp].
  destruct Hj as [[_ ->]|(old & v & Hold & _ & -> & _)]; [done|]. intros key jr'.
  intros [[_ <-]|[_ ?]]%lookup_insert_Some; [exact (Ho _ _ Hold)|by apply (Ho key)].
Qed.

Lemma updateConditions_safe jr st reason msg : safe (@updateConditions K W cached _ jr st reason msg).
Proof.
  unfold updateConditions. cbv zeta. destruct (FindStatusCondition _ _); [|apply update_safe].
  destruct (_ && _); [|apply update_safe]. by intros w w' r [= <- _].
Qed.

Lemma buildPod_executor jr class uid owner ph :
  named_job jr → executor_pod (with_server_fields uid owner ph (buildPod jr class)).
Proof.
  intros Hn. exists (PlanID (CrSpec jr)). split_and!; simpl; [by rewrite Hn|..|done|done|done|].
  - by rewrite lookup_insert_ne, lookup_singleton_eq.
  - apply list_elem_of_further, list_elem_of_here.
Qed.

Lemma create_pod_ok jr class (w w' : @World K W) r :
  job_versions (fst w) jr → @create_pod K W cached _ jr class w = (w', r) → cluster_ok (fst w) → cluster_ok (fst w').
Proof.
  intros Hv. unfold create_pod, rbind.
  destruct (updateConditions _ _ _ _ w) as [w1 r1] eqn:Eu. intros E Hok.
  pose proof (updateConditions_safe _ _ _ _ _ _ _ Eu Hok) as Hok1.
  destruct (updateConditions_effect Hv Eu) as (_ & _ & Hspec).
  destruct r1 as [jr'|e|]; [|by injection E as <- _..]. destruct (Hspec jr' eq_refl) as [Hs' Hk'].
  destruct (SetControllerReference jr' _) as [newPod|e|] eqn:Eo; [|by injection E as <- _..].
  apply law_SetControllerReference in Eo as [owner ->]. rewrite (buildPod_spec jr jr') in E by done.
  destruct (createPod _ (fst w1)) as [k r2] eqn:Ec.
  assert (fst w' = k) as -> by (destruct r2 as [[]|[]|]; by simplify_eq).
  apply law_createPod in Ec as (Hjobs & Hh & Hpods). pose proof Hok1 as (Ho & Hpo & _).
  eapply cluster_ok_next; [done..|by rewrite Hjobs|].
  destruct Hpods as [[_ ->]|(_ & uid & ->)]; [done|]. intros key p.
  intros [[<- <-]|[_ ?]]%lookup_insert_Some; [split; [done|]|by apply (Hpo key)].
  apply (buildPod_executor jr). destruct Hok as (_ & _ & Hok). by apply Hok.
Qed.

Lemma reconcile_ok now req (w w' : @World K W) r :
  cached_Reconcile now req w = (w', r) → cluster_ok (fst w) → cluster_ok (fst w').
Proof.
  unfold cached_Reconcile, Reconcile. intros E Hok. pose proof (law_getJobRun (client := cached) (fst w) req) as Hg.
  destruct (getJobRun req (fst w)) as [jr|[]|]; try (by injection E as <- _).
  destruct (Hg jr eq_refl) as [Hv _]. clear Hg.
  destruct (IDFromCRName _); try (by injection E as <- _).
  destruct (getRunnerClass _ _) as [class|[]|]; try (by injection E as <- _).
  - unfold reconcile_pod in E. destruct (getPod _ _) as [p|[]|]; try (by injection E as <- _).
    + unfold observePod, rbind, rdone, rfail in E. case_bool_decide; [by injection E as <- _|].
      destruct (negb _); [by injection E as <- _|].
      destruct (on_kube _ _ w) as [w1 r1] eqn:Eu. pose proof (update_safe _ _ _ _ _ Eu Hok) as Hok1.
      destruct r1 as [jr3|e|]; [|by injection E as <- _..]. case_bool_decide; [by injection E as <- _|].
      unfold project_phase in E. by destruct (ApplyProjection _ _ _ _) as [? []]; injection E as <- _.
    + destruct (Terminal jr); [by injection E as <- _|]. by eapply create_pod_ok.
  - unfold rbind, rdone in E. destruct (updateConditions _ _ _ _ _) as [w1 r1] eqn:Eu.
    pose proof (updateConditions_safe _ _ _ _ _ _ _ Eu Hok). by destruct r1; injection E as <- _.
Qed.

(** *** The active store *)

Hypothesis source_names : ∀ id rec, source id = Ok rec → JID rec = id.

(** The request creates at most the named object. *)
Definition at_most_created (id : JobRunID) (k k' : K) : Prop :=
  cluster_pods k' = cluster_pods k ∧
  (cluster_jobs k' = cluster_jobs k ∨
   ∃ rec uid v, source id = Ok rec ∧ cluster_jobs k !! (ns, CRName id) = None ∧
     cluster_jobs k' = <[(ns, CRName id) := with_uid uid v (new_cr ns (CRName id) rec)]> (cluster_jobs k)).

Lemma at_most_created_refl id k : at_most_created id k k.
Proof. split; [done|by left]. Qed.

(** The returned object is the one the cluster holds. *)
Lemma live_CreateOrGet_effect id (k k' : K) r :
  live_CreateOrGet id k = (k', r) →
  at_most_created id k k' ∧ (history k k' ∨ k' = k) ∧
  ∀ obj, r = Ok obj →
    ObjName obj = CRName id ∧ ∃ jr, cluster_jobs k' !! (ns, CRName id) = Some jr ∧ obj = active_of jr.
Proof.
  unfold live_CreateOrGet, kube_CreateOrGet. pose proof (at_most_created_refl id k) as Hrefl.
  pose proof (law_live k (ns, CRName id)) as Hg.
  destruct (getJobRun _ k) as [jr|[m|m|m]|]; try by intros [= <- <-]; split_and!; auto.
  { destruct Hg as [Hg Hk]. intros [= <- <-]. split_and!; [done|by right|]. intros obj [= <-].
    split; [by injection Hk|by exists jr]. }
  destruct (source id) as [rec|e|] eqn:Es; try by intros [= <- <-]; split_and!; auto.
  destruct (createJobRun _ k) as [k1 r1] eqn:Ec. apply law_createJobRun in Ec as (Hp & Hh & Hj).
  assert (at_most_created id k k1) as Hm.
  { split; [done|]. destruct Hj as [[_ ?]|(Hn & uid & v & ? & _)]; [by left|right]. by exists rec, uid, v. }
  destruct r1 as [cr|e|]; try by intros [= <- <-]; split_and!; auto.
  - intros [= <- <-]. split_and!; [done|by left|]. intros obj [= <-].
    destruct Hj as [[? _]|(Hn & uid & v & Hj & Hr)]; [done|]. specialize (Hr eq_refl) as [= ->].
    split; [done|]. eexists. split; [|done]. rewrite Hj. change (cr_key _) with (ns, CRName id). by rewrite lookup_insert_eq.
  - destruct e as [m'|m'|m']; try by intros [= <- <-]; split_and!; auto.
    pose proof (law_live k1 (ns, CRName id)) as Hg1.
    destruct (getJobRun _ k1) as [again|e1|]; intros [= <- <-]; [|by split_and!; auto..].
    destruct Hg1 as [Hg1 Hk]. split_and!; [done|by left|]. intros obj [= <-].
    split; [by injection Hk|by exists again].
Qed.

Lemma at_most_created_ok id k k' :
  at_most_created id k k' → history k k' ∨ k' = k → cluster_ok k → cluster_ok k'.
Proof.
  intros [Hp Hc] [Hh| ->] Hok; [|done]. pose proof Hok as (Hj & Hpods & _).
  eapply cluster_ok_next; [done..| |by rewrite Hp].
  destruct Hc as [->|(rec & uid & v & Hs & _ & ->)]; [done|]. intros key jr.
  intros [[_ <-]|[_ ?]]%lookup_insert_Some; [|by apply (Hj key)].
  unfold named_job. simpl. by rewrite (source_names _ _ Hs).
Qed.

Lemma live_Delete_effect id (k k' : K) r :
  live_Delete id k = (k', r) →
  cluster_pods k' = cluster_pods k ∧ history k k' ∧
  (cluster_jobs k' = cluster_jobs k ∨ cluster_jobs k' = delete (ns, CRName id) (cluster_jobs k)).
Proof.
  unfold live_Delete, kube_Delete. destruct (deleteJobRun _ k) as [k1 r1] eqn:E. intros Hk.
  apply law_deleteJobRun in E. by destruct r1 as [[]|[]|]; simplify_eq.
Qed.

Lemma sys_step_ok (w w' : @World K W) : sys_step w w' → cluster_ok (fst w) → cluster_ok (fst w').
Proof.
  intros Hs Hok. destruct Hs as [now req w w' r E|id k k' r w E|id k k' r w E
    |key p ph k k' w Hp Hj Hh Hpods|key k k' w Hj Hh Hpods|k k' w Hj Hp Hh|]; simpl in *; [| | |..|done];
    try (pose proof Hok as (Ho & Hpo & _)).
  - by eapply reconcile_ok.
  - apply live_CreateOrGet_effect in E as (Hm & Hh & _). by eapply at_most_created_ok.
  - apply live_Delete_effect in E as (Hp & Hh & Hj). eapply cluster_ok_next; [done..| |by rewrite Hp].
    destruct Hj as [->| ->]; [done|]. intros key jr [_ ?]%lookup_delete_Some. by apply (Ho key).
  - eapply cluster_ok_next; [done..|by rewrite Hj|]. rewrite Hpods. intros key' p'.
    intros [[<- <-]|[_ ?]]%lookup_insert_Some; [|by apply (Hpo key')]. by apply (Hpo key p).
  - eapply cluster_ok_next; [done..|by rewrite Hj|]. rewrite Hpods.
    intros key' p' [_ ?]%lookup_delete_Some. by apply (Hpo key').
  - eapply cluster_ok_next; [done..|by rewrite Hj|by rewrite Hp].
Qed.

Lemma reachable_ok (w w' : @World K W) : rtc sys_step w w' → cluster_ok (fst w) → cluster_ok (fst w').
Proof. induction 1; eauto using sys_step_ok. Qed.

(** *** Phases *)

(** A step after which the object is still there. *)
Definition keeping (key : ObjectKey) (w w' : @World K W) : Prop :=
  sys_step w w' ∧ is_Some (cluster_jobs (fst w') !! key).

(** Later versions of an object: the same identity and specification, no lower phase. *)
Definition later_version (a b : JobRunCR) : Prop :=
  CrSpec b = CrSpec a ∧ active_of b = active_of a ∧ phaseRank (CrPhase (CrStatus a)) ≤ phaseRank (CrPhase (CrStatus b)).

Lemma status_change_later key req chg (k k' : K) jr :
  (∀ a b, chg a b → phaseRank (CrPhase a) ≤ phaseRank (CrPhase b)) →
  status_change req chg k k' → cluster_jobs k !! key = Some jr →
  ∃ jr', cluster_jobs k' !! key = Some jr' ∧ later_version jr jr'.
Proof.
  intros Hchg [_ [->|(old & st & v & Ho & Hc & ->)]] Hj; [by exists jr|].
  destruct (decide (req = key)) as [<-|Hne].
  - rewrite Hj in Ho. injection Ho as <-. eexists. split; [by rewrite lookup_insert_eq|].
    split_and!; [done..|]. by apply Hchg.
  - exists jr. by rewrite lookup_insert_ne.
Qed.

Lemma effect_later key req (w w' : @World K W) jr :
  effect req w w' → cluster_jobs (fst w) !! key = Some jr →
  ∃ jr', cluster_jobs (fst w') !! key = Some jr' ∧ later_version jr jr'.
Proof.
  assert (∀ a b, same_phase a b → phaseRank (CrPhase a) ≤ phaseRank (CrPhase b)) as Hsame.
  { by intros a b ->. }
  intros He Hj. destruct He as [Hs _|jr0 class p _ _ _ _ (k & Hs & ->) _ _ _|jr0 p now _ _ _ _ Hs _ _];
    (eapply status_change_later; [|done..]); [done..|].
  intros a b [<- ?]. done.
Qed.

Lemma keeping_later key (w w' : @World K W) jr :
  keeping key w w' → cluster_jobs (fst w) !! key = Some jr →
  ∃ jr', cluster_jobs (fst w') !! key = Some jr' ∧ later_version jr jr'.
Proof.
  intros [Hs [jr1 Hk]] Hj. assert (cluster_jobs (fst w') = cluster_jobs (fst w) →
    ∃ jr', cluster_jobs (fst w') !! key = Some jr' ∧ later_version jr jr') as Hsame.
  { intros ->. by exists jr. }
  destruct Hs as [now req w w' r E|id k k' r w E|id k k' r w E|key' p ph k k' w _ ? _ _|key' k k' w ? _ _|k k' w ? _ _|];
    simpl in *; [|..|by apply Hsame|by apply Hsame|by apply Hsame|by apply Hsame].
  - eapply effect_later, Hj. by eapply (reconcile_effect (client := cached)).
  - apply live_CreateOrGet_effect in E as [[_ [?|(rec & uid & v & _ & Hn & Hins)]] _]; [auto|].
    exists jr. rewrite Hins, lookup_insert_ne by congruence. done.
  - apply live_Delete_effect in E as (_ & _ & [?|Hd]); [auto|].
    rewrite Hd in *. apply lookup_delete_Some in Hk as [Hne Hk].
    exists jr. by rewrite lookup_delete_ne.
Qed.

Lemma keeping_later_steps key (w w' : @World K W) jr :
  rtc (keeping key) w w' → cluster_jobs (fst w) !! key = Some jr →
  ∃ jr', cluster_jobs (fst w') !! key = Some jr' ∧ later_version jr jr'.
Proof.
  intros Hs. revert jr. induction Hs as [w|w w1 w' Hst _ IH]; intros jr Hj; [by exists jr|].
  destruct (keeping_later _ _ _ _ Hst Hj) as (jr1 & Hj1 & Hsp & Ha & Hr).
  destruct (IH jr1 Hj1) as (jr' & Hj' & Hsp' & Ha' & Hr').
  exists jr'. split; [done|]. split_and!; [congruence..|lia].
Qed.
End system.

(** ** A cluster in memory *)

#[export] Instance condition_eq_dec : EqDecision StatusCondition.
Proof. solve_decision. Defined.
#[export] Instance observed_eq_dec : EqDecision JobRunObserved.
Proof. solve_decision. Defined.
#[export] Instance spec_eq_dec : EqDecision JobRunSpec.
Proof. solve_decision. Defined.
#[export] Instance jobrun_eq_dec : EqDecision JobRunCR.
Proof. solve_decision. Defined.

(** What is stored, and what the cache shows. *)
Record memCluster := {
  mjobs : gmap ObjectKey JobRunCR;
  mpods : gmap ObjectKey CorePod;
  mclasses : gmap ObjectKey RunnerClass;
  mserial : nat;
  cjobs : gmap ObjectKey JobRunCR;
  cpods : gmap ObjectKey CorePod
}.

Definition set_mjobs (f : gmap ObjectKey JobRunCR → gmap ObjectKey JobRunCR) (k : memCluster) : memCluster :=
  {| mjobs := f (mjobs k); mpods := mpods k; mclasses := mclasses k; mserial := S (mserial k);
     cjobs := cjobs k; cpods := cpods k |}.

Definition set_mpods (f : gmap ObjectKey CorePod → gmap ObjectKey CorePod) (k : memCluster) : memCluster :=
  {| mjobs := mjobs k; mpods := f (mpods k); mclasses := mclasses k; mserial := S (mserial k);
     cjobs := cjobs k; cpods := cpods k |}.

(** The cache catches up. *)
Definition sync (k : memCluster) : memCluster :=
  {| mjobs := mjobs k; mpods := mpods k; mclasses := mclasses k; mserial := mserial k;
     cjobs := mjobs k; cpods := mpods k |}.

Definition read_job (objects : gmap ObjectKey JobRunCR) (key : ObjectKey) : outcome KubeErr JobRunCR :=
  match objects !! key with
  | Some jr => if bool_decide (cr_key jr = key) then Ok jr else Err (KError "stored under another key")
  | None => Err (KNotFound "jobrun")
  end.

Definition read_pod (objects : gmap ObjectKey CorePod) (key : ObjectKey) : outcome KubeErr CorePod :=
  match objects !! key with
  | Some p => if bool_decide (pod_key p = key) then Ok p else Err (KError "stored under another key")
  | None => Err (KNotFound "pod")
  end.

(** The version of the update is the stored one. *)
Definition current_version (k : memCluster) (old jr : JobRunCR) : bool :=
  bool_decide (CrVersion old = CrVersion jr) &&
  match cjobs k !! cr_key jr with
  | Some seen => negb (bool_decide (CrVersion seen = CrVersion jr)) || bool_decide (seen = old)
  | None => true
  end.

Definition serial (k : memCluster) : string := pretty (mserial k).

(** The clients differ in what they read. *)
Definition mem_client (jobs_of : memCluster → gmap ObjectKey JobRunCR) (pods_of : memCluster → gmap ObjectKey CorePod)
    : KubeClient memCluster := {|
  getJobRun := fun key k => read_job (jobs_of k) key;
  getRunnerClass := fun key k =>
    match mclasses k !! key with Some c => Ok c | None => Err (KNotFound "runnerclass") end;
  getPod := fun key k => read_pod (pods_of k) key;
  createPod := fun p k =>
    match mpods k !! pod_key p with
    | Some _ => (k, Err (KAlreadyExists "pod"))
    | None => (set_mpods <[pod_key p := with_server_fields ("uid-" +:+ serial k) (PodOwner p) PodPending p]> k, Ok tt)
    end;
  createJobRun := fun jr k =>
    match mjobs k !! cr_key jr with
    | Some _ => (k, Err (KAlreadyExists "jobrun"))
    | None => let jr' := with_uid ("uid-" +:+ serial k) (serial k) jr in
              (set_mjobs <[cr_key jr := jr']> k, Ok jr')
    end;
  deleteJobRun := fun key k =>
    match mjobs k !! key with
    | Some _ => (set_mjobs (delete key) k, Ok tt)
    | None => (k, Err (KNotFound "jobrun"))
    end;
  updateStatus := fun jr k =>
    match mjobs k !! cr_key jr with
    | Some old => if current_version k old jr
                  then let jr' := with_version (serial k) (with_status (CrStatus jr) old) in
                       (set_mjobs <[cr_key jr := jr']> k, Ok jr')
                  else (k, Err (KError "conflict"))
    | None => (k, Err (KNotFound "jobrun"))
    end
|}.

Definition mem_live : KubeClient memCluster := mem_client mjobs mpods.
Definition mem_cached : KubeClient memCluster := mem_client cjobs cpods.

#[export] Instance mem_cluster : Cluster memCluster := {|
  cluster_jobs := mjobs;
  cluster_pods := mpods;
  job_versions := fun k jr => cjobs k !! cr_key jr = Some jr ∨ mjobs k !! cr_key jr = Some jr;
  pod_versions := fun k p => cpods k !! pod_key p = Some p ∨ mpods k !! pod_key p = Some p
|}.

Lemma same_cache_history (k k' : memCluster) :
  cjobs k' = cjobs k → cpods k' = cpods k → history k k'.
Proof. intros Ej Ep. split; simpl; rewrite ?Ej, ?Ep; tauto. Qed.

Lemma sync_history (k : memCluster) : history k (sync k).
Proof. split; simpl; tauto. Qed.

Lemma mem_client_spec jobs_of pods_of :
  (∀ k jr, jobs_of k !! cr_key jr = Some jr → job_versions k jr) →
  (∀ k p, pods_of k !! pod_key p = Some p → pod_versions k p) →
  KubeSpec memCluster (mem_client jobs_of pods_of).
Proof.
  intros Hj Hp. split; simpl.
  - intros k key jr. unfold read_job. destruct (jobs_of k !! key) eqn:E; [|done].
    case_bool_decide as Hk; [|done]. intros [= ->]. subst key. split; [by apply Hj|done].
  - intros k key p. unfold read_pod. destruct (pods_of k !! key) eqn:E; [|done].
    case_bool_decide as Hk; [|done]. intros [= ->]. subst key. split; [by apply Hp|done].
  - intros k p k' r. destruct (mpods k !! pod_key p) eqn:E; intros [= <- <-]; simpl;
      (split; [done|]); (split; [by apply same_cache_history|]); [by left|right]. split; [done|]. by eexists.
  - intros k jr k' r. destruct (mjobs k !! cr_key jr) eqn:E; intros [= <- <-]; simpl;
      (split; [done|]); (split; [by apply same_cache_history|]); [by left|right]. split; [done|]. by eexists _, _.
  - intros k key k' r. destruct (mjobs k !! key) eqn:E; intros [= <- <-]; simpl;
      (split; [done|]); (split; [by apply same_cache_history|]); auto.
  - intros k jr k' r. destruct (mjobs k !! cr_key jr) as [old|] eqn:E;
      [destruct (current_version k old jr) eqn:Hc|]; intros [= <- <-]; simpl;
      (split; [done|]); (split; [by apply same_cache_history|]); [right|by left..].
    exists old, (serial k). split_and!; try done. intros seen Hs Hk Hv. unfold current_version in Hc.
    rewrite Hk, E in Hs. destruct Hs as [Hs|[= ->]]; [|done].
    rewrite Hs, Hv, (bool_decide_eq_true_2 (CrVersion jr = CrVersion jr)) in Hc by done. simpl in Hc. by breflect.
Qed.

#[export] Instance mem_live_spec : KubeSpec memCluster mem_live.
Proof. apply mem_client_spec; simpl; tauto. Qed.

#[export] Instance mem_cached_spec : KubeSpec memCluster mem_cached.
Proof. apply mem_client_spec; simpl; tauto. Qed.

#[export] Instance mem_live_live : KubeLive memCluster mem_live.
Proof.
  split. intros k key. simpl. unfold read_job. destruct (mjobs k !! key); [|done]. by case_bool_decide.
Qed.

(** The helpers of the libraries: a condition replaces the one of its type. *)
#[export] Instance mem_meta : KubeMeta := {|
  SetStatusCondition := fun cs c => filter (fun d => CondType d ≠ CondType c) cs ++ [c];
  FindStatusCondition := fun cs t => find (fun c => bool_decide (CondType c = t)) cs;
  SetControllerReference := fun jr p => Ok (with_server_fields (PodUID p) (Some (CrUID jr)) (CorePhase p) p)
|}.

#[export] Instance mem_meta_spec : KubeMetaSpec.
Proof. split. intros jr p p' [= <-]. by exists (Some (CrUID jr)). Qed.

(** A control plane that records what is reported and can refuse. *)
Record memPlane := { refuses : bool; observed : list (JobRunID * ObservedPhase) }.

#[export] Instance mem_projection : DurableProjection memPlane := {|
  ApplyProjection := fun id phase now w =>
    if refuses w then (w, Some "unavailable")
    else ({| refuses := false; observed := observed w ++ [(id, phase)] |}, None)
|}.

(** ** Theorems *)

Section theorems.
Context `{Unicode} {K W : Type} `{Cluster K} (cached live : KubeClient K).
Context `{!KubeSpec K cached} `{!KubeSpec K live} `{!KubeLive K live} `{KubeMetaSpec} `{DurableProjection W}.
Context (ns : string) (source : JobRunID → outcome error JobRunRecord).

(** What the binding source of the verifier reads of a pod. *)
Definition pod_view (p : CorePod) : Pod := {| PodUIDOf := PodUID p; PodLabels := CoreLabels p |}.

(** The verifier's reading of a pod is that of the API server. *)
Definition reads_cluster (k : K) (getPod : string → string → outcome string Pod) : Prop :=
  ∀ namespace name pod, getPod namespace name = Ok pod →
    ∃ p, cluster_pods k !! (namespace, name) = Some p ∧ pod = pod_view p.

(** C18. A token that acts on a job comes from the pod made for that job: in every
    cluster the controller, the dispatcher, deletions, the kubelet, the cache
    and the control plane can reach, if the verifier that reads pod labels
    accepts a token and the policy lets its identity act on a job run, then the
    API server authenticated the token for a pod of the namespace, by the UID and
    the name the pod has in the cluster; the identity carries that UID; and the
    pod's name is derived from that job run, it runs the executor with that job
    run as its argument, and it mounts no Kubernetes credentials of its own. *)
Theorem executor_token_reaches_own_pod (w0 w : @World K W) review getPod v now raw id job :
  (∀ id rec, source id = Ok rec → JID rec = id) →
  cluster_ok (fst w0) → rtc (sys_step cached live ns source) w0 w → reads_cluster (fst w) getPod →
  VBindings v = Some (PodLabelBindings getPod jobRunLabel) →
  VerifyReview review v now raw = Ok id → AuthorizeExecution id job = Ok tt →
  ∃ st p, review raw [VAudience v] = Ok st ∧ Authenticated st = true ∧
    extras (Extra st) = Ok (PodUID p, PodName p) ∧ IdPodUID id = PodUID p ∧
    cluster_pods (fst w) !! (VNamespace v, PodName p) = Some p ∧
    PodName p = CRName job +:+ PodSuffix ∧ ContainerArgs p = ["--jobrun=" +:+ job] ∧
    ServiceAccountName p = ExecutorServiceAccount ∧ AutomountToken p = false.
Proof.
  intros Hsrc Hok Hreach Hreads Hb Hv Ha.
  destruct (reachable_ok cached live ns source Hsrc _ _ Hreach Hok) as (_ & Hpods & _).
  destruct (VerifyReview_Ok _ _ _ _ _ Hv) as (st & b & podName & Hb' & Hrev & Hauth & _ & Hx & Hbind & _).
  rewrite Hb in Hb'. injection Hb' as <-. apply PodLabelBindings_Ok in Hbind as (pv & Hg & Hu & Hl & _).
  assert (IdJobRunID id = job) as Hid by (unfold AuthorizeExecution in Ha; by case_bool_decide).
  destruct (Hreads _ _ _ Hg) as (p & Hp & ->). simpl in Hl, Hu.
  destruct (Hpods _ _ Hp) as (Hk & id' & Hname & Hlab & Hargs & Hsa & Hauto & _).
  injection Hk as Hns Hn. subst podName.
  rewrite Hlab in Hl. assert (id' = job) as -> by congruence. exists st, p. rewrite Hu. by split_and!.
Qed.

(** C19. The observed phase of a JobRun never goes back: as long as the object is
    not deleted, whatever reconciliations — on whatever old versions their cache
    shows —, dispatches, kubelet updates and lost pods happen, it keeps its
    identity and its specification, and its phase never has a lower rank than
    before. *)
Theorem cluster_phase_never_regresses key (w w' : @World K W) jr :
  rtc (keeping cached live ns source key) w w' → cluster_jobs (fst w) !! key = Some jr →
  ∃ jr', cluster_jobs (fst w') !! key = Some jr' ∧ CrSpec jr' = CrSpec jr ∧
    CrName jr' = CrName jr ∧ CrUID jr' = CrUID jr ∧
    phaseRank (CrPhase (CrStatus jr)) ≤ phaseRank (CrPhase (CrStatus jr')).
Proof.
  intros Hs Hj. destruct (keeping_later_steps cached live ns source _ _ _ _ Hs Hj) as (jr' & Hj' & Hsp & [= Hn Hu] & Hr).
  by exists jr'.
Qed.

(** C20. What one reconciliation may do, whatever versions of the JobRun and its
    pod the cache shows it.  A pod that changes is the new pod of the named
    JobRun, built from a version of it that was not finished, where there was no
    pod.  A report to the control plane is one call with the plan id of the
    stored JobRun and the phase of a version of its pod; that phase is no step
    back from the phase the stored JobRun recorded, the JobRun had not recorded
    this phase of this pod — by the pod's name and UID —, and now records it, so
    that the same observation is not reported again.  Other JobRuns are
    untouched. *)
Theorem reconcile_is_disciplined now req (w w' : @World K W) r :
  cached_Reconcile cached now req w = (w', r) →
  (cluster_pods (fst w') ≠ cluster_pods (fst w) →
     ∃ jr class uid owner, job_versions (fst w) jr ∧ cr_key jr = req ∧ Terminal jr = false ∧
       cluster_pods (fst w) !! (fst req, snd req +:+ PodSuffix) = None ∧
       cluster_pods (fst w') = <[(fst req, snd req +:+ PodSuffix) :=
         with_server_fields uid owner PodPending (buildPod jr class)]> (cluster_pods (fst w)) ∧
       snd w' = snd w) ∧
  (snd w' ≠ snd w →
     ∃ jr p jr' now', cluster_jobs (fst w) !! req = Some jr ∧
       pod_versions (fst w) p ∧ pod_key p = (fst req, snd req +:+ PodSuffix) ∧
       let phase := mapPodPhase (CorePhase p) in
       snd w' = fst (ApplyProjection (PlanID (CrSpec jr)) (toModelPhase phase) now' (snd w)) ∧
       PlanID (CrSpec jr) ≠ "" ∧
       phaseRank (CrPhase (CrStatus jr)) ≤ phaseRank phase ∧ ¬ records jr p ∧
       cluster_jobs (fst w') !! req = Some jr' ∧ CrSpec jr' = CrSpec jr ∧ records jr' p) ∧
  (∀ key, key ≠ req → cluster_jobs (fst w') !! key = cluster_jobs (fst w) !! key).
Proof.
  intros E. apply (reconcile_effect (client := cached)) in E.
  assert (∀ chg k k', status_change req chg k k' → ∀ key, key ≠ req →
    cluster_jobs k' !! key = cluster_jobs k !! key) as Hother.
  { intros chg k k' [_ [->|(old & st & v & _ & _ & ->)]] key Hk; [done|]. by rewrite lookup_insert_ne. }
  destruct E as [Hs Hw|jr class p Hv Hk Ht Hn (k & Hs & Hkj) (uid & owner & ->) Hp Hw
                |jr p now' Hp Hk Hj Hnew Hs (jr' & Hj' & Hsp & Hrec) Hw].
  - split_and!; [by destruct Hs as [-> _]|by rewrite Hw|by eapply Hother].
  - split_and!; [intros _; by exists jr, class, uid, owner|by rewrite Hw|].
    intros key Hne. rewrite Hkj. by eapply Hother.
  - split_and!; [by destruct Hs as [-> _]| |by eapply Hother].
    destruct Hw as [->|(Hw & Hpl)]; [done|]. intros _.
    exists jr, p, jr', now'. cbv zeta. split_and!; try done.
    destruct Hs as [_ [Hsame|(old & st & v & Ho & [_ Hr] & _)]];
      [|rewrite Hj in Ho; by injection Ho as <-].
    rewrite Hsame, Hj in Hj'. by injection Hj' as <-.
Qed.

(** The Kubernetes store keeps the contract the dispatcher relies on: what
    [CreateOrGet] returns is the object of the job's deterministic name in the
    cluster, and however the system goes on, as long as that object is not
    deleted, dispatching the job again returns the same object and creates
    nothing. *)
Theorem active_object_is_stable id (k k' : K) obj w w' :
  live_CreateOrGet live ns source id k = (k', Ok obj) →
  rtc (keeping cached live ns source (ns, CRName id)) (k', w) w' →
  ObjName obj = CRName id ∧
  ∀ k2 obj2, live_CreateOrGet live ns source id (fst w') = (k2, Ok obj2) →
    obj2 = obj ∧ cluster_jobs k2 = cluster_jobs (fst w') ∧ cluster_pods k2 = cluster_pods (fst w').
Proof.
  intros E1 Hs. destruct (live_CreateOrGet_effect live ns source _ _ _ _ E1) as (_ & _ & Ho1).
  destruct (Ho1 obj eq_refl) as (Hname & jr & Hj & ->). split; [done|]. intros k2 obj2 E2.
  destruct (keeping_later_steps cached live ns source _ _ _ _ Hs Hj) as (jr' & Hj' & _ & Ha & _).
  destruct (live_CreateOrGet_effect live ns source _ _ _ _ E2) as ([Hp Hc] & _ & Ho2). destruct (Ho2 obj2 eq_refl) as (_ & jr2 & Hj2 & ->).
  assert (cluster_jobs k2 = cluster_jobs (fst w')) as Hsame.
  { destruct Hc as [?|(rec & uid & v & _ & Hn & _)]; [done|]. by rewrite Hj' in Hn. }
  rewrite Hsame, Hj' in Hj2. injection Hj2 as <-. by split_and!.
Qed.
End theorems.

(** ** On a cluster in memory *)

#[local] Existing Instance ascii_unicode.

Definition demo_source (id : JobRunID) : outcome error JobRunRecord :=
  if bool_decide (id = "J1") then Ok (let j := zeroJob in
    {| JID := "J1"; JRunID := "R1"; JJobKey := "build"; JRunnerClass := "linux"; JDependsOn := [];
       JMatrix := ∅; JPlanDigest := "d"; JCondition := ""; JStatus := JobQueued; JAttempt := 1;
       JActiveName := ""; JActiveUID := ""; JCreatedAt := 0; JDispatchedAt := None; JStartedAt := None;
       JFinishedAt := None; JActiveCollectedAt := None |})
  else Err ErrJobRunNotFound.

Definition demo_cluster : memCluster := {|
  mjobs := ∅; mpods := ∅; mserial := 0;
  mclasses := {[ ("jobs", "linux") := {| RcImage := "img"; RcResources := {| Limits := ∅; Requests := ∅ |};
                                        RcNodeSelector := ∅ |} ]};
  cjobs := ∅; cpods := ∅ |}.

Definition demo_plane : memPlane := {| refuses := false; observed := [] |}.

Definition demo_key : ObjectKey := ("jobs", "jobrun-j1").

Abbreviation demo_reconcile := (@cached_Reconcile _ memCluster memPlane mem_cached _ _).
Abbreviation demo_step := (sys_step (W := memPlane) mem_cached mem_live "jobs" demo_source).

Definition synced (w : @World memCluster memPlane) : @World memCluster memPlane := (sync (fst w), snd w).

Definition kubelet (ph : PodPhase) (w : @World memCluster memPlane) : @World memCluster memPlane :=
  match mpods (fst w) !! ("jobs", "jobrun-j1-pod") with
  | Some p => (set_mpods <[("jobs", "jobrun-j1-pod") := with_server_fields (PodUID p) (PodOwner p) ph p]> (fst w), snd w)
  | None => w
  end.

(** The job is dispatched, gets its pod, and the pod runs. *)
Definition demo_w1 : World := (fst (live_CreateOrGet mem_live "jobs" demo_source "J1" demo_cluster), demo_plane).
Definition demo_w2 : World := fst (demo_reconcile 5%Z demo_key (synced demo_w1)).
Definition demo_w3 : World := synced (kubelet PodRunning demo_w2).
Definition demo_w4 : World := fst (demo_reconcile 9%Z demo_key demo_w3).

Example demo_reports : observed (snd demo_w4) = [("J1", PhaseRunning)].
Proof. vm_compute. reflexivity. Qed.

(** With an old cache the update is refused, and nothing is reported. *)
Example old_version_is_refused :
  let r5 := demo_reconcile 10%Z demo_key demo_w4 in
  fst r5 = demo_w4 ∧ is_ok (snd r5) = false.
Proof. vm_compute. split; reflexivity. Qed.

(** A refused report is not repeated: the JobRun already records the phase. *)
Example failed_projection_is_not_retried :
  let w5 := (fst (synced (kubelet PodSucceeded demo_w4)), {| refuses := true; observed := [] |}) in
  let r6 := demo_reconcile 10%Z demo_key w5 in
  let w7 := (sync (fst (fst r6)), demo_plane) in
  is_ok (snd r6) = false ∧ demo_reconcile 11%Z demo_key w7 = (w7, Ok None).
Proof. vm_compute. split; reflexivity. Qed.

(** Both final phases have the same rank, and nothing else is checked. *)
Example final_phase_can_change :
  let w5 := fst (demo_reconcile 10%Z demo_key (synced (kubelet PodSucceeded demo_w4))) in
  observed (snd (fst (demo_reconcile 11%Z demo_key (synced (kubelet PodFailed w5))))) =
    [("J1", PhaseRunning); ("J1", PhaseSucceeded); ("J1", PhaseFailed)].
Proof. vm_compute. reflexivity. Qed.

(** A replaced pod has its phase reported even when the phase is the recorded one. *)
Example replaced_pod_is_reported_again :
  let lost := (set_mpods (delete ("jobs", "jobrun-j1-pod")) (fst demo_w4), snd demo_w4) in
  let again := synced (kubelet PodRunning (fst (demo_reconcile 10%Z demo_key (synced lost)))) in
  observed (snd (fst (demo_reconcile 11%Z demo_key again))) = [("J1", PhaseRunning); ("J1", PhaseRunning)].
Proof. vm_compute. reflexivity. Qed.

Lemma demo_sync w : demo_step w (synced w).
Proof. destruct w as [k w]. apply sys_cache; [done|done|apply sync_history]. Qed.

Lemma demo_dispatched : demo_step (demo_cluster, demo_plane) demo_w1.
Proof. exact (sys_dispatch _ _ _ _ "J1" demo_cluster _ _ demo_plane (surjective_pairing _)). Qed.

Lemma demo_reconciled now w : demo_step w (fst (demo_reconcile now demo_key w)).
Proof. exact (sys_reconcile _ _ _ _ now demo_key w _ _ (surjective_pairing _)). Qed.

Lemma demo_kubelet : demo_step demo_w2 (kubelet PodRunning demo_w2).
Proof.
  destruct (mpods (fst demo_w2) !! ("jobs", "jobrun-j1-pod")) as [p|] eqn:E; [|by vm_compute in E].
  unfold kubelet. rewrite E. rewrite (surjective_pairing demo_w2).
  apply (sys_kubelet _ _ _ _ ("jobs", "jobrun-j1-pod") p PodRunning); [exact E|done|by apply same_cache_history|done].
Qed.

Lemma demo_steps : rtc demo_step (demo_cluster, demo_plane) demo_w2.
Proof.
  eapply rtc_l; [exact demo_dispatched|]. eapply rtc_l; [apply demo_sync|]. apply rtc_once, demo_reconciled.
Qed.

Lemma demo_keeping_steps : rtc (keeping mem_cached mem_live "jobs" demo_source demo_key) demo_w1 demo_w4.
Proof.
  assert (∀ w w', demo_step w w' → match mjobs (fst w') !! demo_key with Some _ => True | None => False end →
    keeping mem_cached mem_live "jobs" demo_source demo_key w w') as Hk.
  { intros w w' Hs Hm. split; [done|]. simpl in *. by destruct (mjobs (fst w') !! demo_key). }
  eapply rtc_l; [apply Hk; [apply demo_sync|by vm_compute]|].
  eapply rtc_l; [apply (Hk _ demo_w2); [apply demo_reconciled|by vm_compute]|].
  eapply rtc_l; [apply Hk; [apply demo_kubelet|by vm_compute]|].
  eapply rtc_l; [apply (Hk _ demo_w3); [apply demo_sync|by vm_compute]|].
  apply rtc_once, Hk; [apply demo_reconciled|by vm_compute].
Qed.

Lemma demo_source_names id rec : demo_source id = Ok rec → JID rec = id.
Proof.
  unfold demo_source. destruct (decide (id = "J1")) as [->|Hn].
  - rewrite bool_decide_eq_true_2 by done. by intros [= <-].
  - by rewrite bool_decide_eq_false_2.
Qed.

Lemma demo_cluster_ok : cluster_ok (fst (demo_cluster, demo_plane)).
Proof.
  split_and!; [intros key x Hx; simpl in Hx; by rewrite lookup_empty in Hx..|].
  intros jr [Hx|Hx]; simpl in Hx; by rewrite lookup_empty in Hx.
Qed.

(** The API server knows the pod of the second state. *)
Definition demo_pod_review (raw : string) (auds : list string) : outcome string ReviewStatus :=
  Ok {| Authenticated := true; ReviewError := "";
        Username := "system:serviceaccount:jobs:forgelet-executor";
        Extra := {[ PodUIDExtraKey := ["uid-2"]; podNameExtraKeyNew := ["jobrun-j1-pod"] ]} |}.

Definition demo_pods (namespace name : string) : outcome string Pod :=
  match mpods (fst demo_w2) !! (namespace, name) with Some p => Ok (pod_view p) | None => Err "not found" end.

Lemma demo_pods_read : reads_cluster (fst demo_w2) demo_pods.
Proof.
  intros namespace name pod. unfold demo_pods. change (cluster_pods (fst demo_w2)) with (mpods (fst demo_w2)).
  destruct (mpods (fst demo_w2) !! (namespace, name)) as [p|]; [|done]. intros [= <-]. by exists p.
Qed.

Definition demo_pod_verifier : Verifier := {|
  VAudience := ControlPlaneAudience; VNamespace := "jobs"; VSAName := ExecutorServiceAccount;
  VScopes := [ScopePlanRead]; VBindings := Some (PodLabelBindings demo_pods jobRunLabel) |}.

Lemma demo_identity :
  match VerifyReview demo_pod_review demo_pod_verifier 7 "tok" with Ok id => IdJobRunID id = "J1" | _ => False end.
Proof. vm_compute. reflexivity. Qed.

Lemma executor_token_reaches_own_pod_witness :
  ∃ p, mpods (fst demo_w2) !! ("jobs", PodName p) = Some p ∧ PodUID p = "uid-2" ∧ ContainerArgs p = ["--jobrun=J1"].
Proof.
  pose proof demo_identity as Hid.
  destruct (VerifyReview demo_pod_review demo_pod_verifier 7 "tok") as [id|e|] eqn:E; [|destruct Hid..].
  destruct (executor_token_reaches_own_pod mem_cached mem_live "jobs" demo_source (demo_cluster, demo_plane) demo_w2
    demo_pod_review demo_pods demo_pod_verifier 7 "tok" id "J1") as (st & p & Hst & _ & Hx & _ & Hp & _ & Ha & _).
  - exact demo_source_names.
  - exact demo_cluster_ok.
  - exact demo_steps.
  - exact demo_pods_read.
  - reflexivity.
  - exact E.
  - unfold AuthorizeExecution. rewrite Hid. reflexivity.
  - exists p. split; [exact Hp|]. split; [|exact Ha]. injection Hst as <-. vm_compute in Hx. injection Hx as Hx _. symmetry. exact Hx.
Defined.

Lemma cluster_phase_never_regresses_witness :
  ∃ jr', mjobs (fst demo_w4) !! demo_key = Some jr' ∧ CrName jr' = "jobrun-j1".
Proof.
  destruct (cluster_phase_never_regresses mem_cached mem_live "jobs" demo_source demo_key demo_w1 demo_w4
    (with_uid "uid-0" "0" (new_cr "jobs" "jobrun-j1" (match demo_source "J1" with Ok r => r | _ => zeroJob end))))
    as (jr' & Hj & _ & Hn & _).
  - exact demo_keeping_steps.
  - reflexivity.
  - exists jr'. split; [exact Hj|exact Hn].
Defined.

Lemma reconcile_is_disciplined_witness :
  ∃ jr p jr' now', mjobs (fst demo_w3) !! demo_key = Some jr ∧
    snd demo_w4 = fst (ApplyProjection (PlanID (CrSpec jr)) (toModelPhase (mapPodPhase (CorePhase p))) now'
                         (snd demo_w3)) ∧
    mjobs (fst demo_w4) !! demo_key = Some jr' ∧ records jr' p.
Proof.
  destruct (reconcile_is_disciplined mem_cached 9 demo_key demo_w3 demo_w4 (snd (demo_reconcile 9%Z demo_key demo_w3))
    (surjective_pairing _)) as (_ & Hr & _).
  destruct Hr as (jr & p & jr' & now' & Hj & _ & _ & Hw & _ & _ & _ & Hj' & _ & Hrec).
  - intros E. assert (length (observed (snd demo_w4)) = length (observed (snd demo_w3))) as El by (by rewrite E).
    by vm_compute in El.
  - exists jr, p, jr', now'. split; [exact Hj|]. split; [exact Hw|]. split; [exact Hj'|exact Hrec].
Defined.

Lemma active_object_is_stable_witness :
  snd (live_CreateOrGet mem_live "jobs" demo_source "J1" (fst demo_w4)) =
    Ok {| ObjName := "jobrun-j1"; ObjUID := "uid-0" |}.
Proof.
  destruct (active_object_is_stable mem_cached mem_live "jobs" demo_source "J1" demo_cluster (fst demo_w1)
    {| ObjName := "jobrun-j1"; ObjUID := "uid-0" |} demo_plane demo_w4) as [_ Hs].
  - vm_compute. reflexivity.
  - exact demo_keeping_steps.
  - destruct (live_CreateOrGet mem_live "jobs" demo_source "J1" (fst demo_w4)) as [k2 r2] eqn:E.
    destruct r2 as [obj2|e|]; [|by vm_compute in E..].
    destruct (Hs k2 obj2 eq_refl) as [-> _]. reflexivity.
Defined.
