(* ===== verification/Http.v ===== *)
(** * HTTP requests

    What the clients of the program use of [net/http]: a request with the headers
    they set, and the answer, an error or a status with a body.  The transport is
    the class [HttpClient] over an abstract world.  A text encoding of countable values
    serves the concrete clients. *)

From Stdlib Require Import Ascii.
From S2P Require Import Prelude GoStrings.

Record HttpRequest := {
  ReqMethod : string;
  ReqURL : string;
  ReqAuth : string;               (** the header Authorization *)
  ReqAccept : option string;
  ReqContentType : option string;
  ReqBody : option string
}.

(** [http.NewRequest], with its error, and [Client.Do]. *)
Class HttpClient (W : Type) := {
  request_error : string → string → option string;
  http_do : HttpRequest → W → W * (string + (Z * string))
}.

(** ** A text encoding *)

Fixpoint pos_text (p : positive) : string :=
  match p with
  | xH => ""
  | xO p' => "0" +:+ pos_text p'
  | xI p' => "1" +:+ pos_text p'
  end%positive.

Fixpoint text_pos (s : string) : positive :=
  match s with
  | "" => 1
  | String c s' => if bool_decide (c = "1"%char) then (text_pos s')~1 else (text_pos s')~0
  end%positive.

Lemma text_pos_text p : text_pos (pos_text p) = p.
Proof. induction p as [p IH|p IH|]; simpl; by rewrite ?IH. Qed.

Definition bits {Y} `{Countable Y} (y : Y) : string := pos_text (encode y).
Definition unbits {Y} `{Countable Y} (s : string) : option Y := decode (text_pos s).

Lemma unbits_bits {Y} `{Countable Y} (y : Y) : unbits (bits y) = Some y.
Proof. unfold unbits, bits. by rewrite text_pos_text, decode_encode. Qed.

Definition or_decode {Y} (o : option Y) : string + Y := match o with Some y => inr y | None => inl "decode" end.
