(* ===== verification/GitHubWebhook.v ===== *)
(** * GitHub webhooks (internal/provider/github: webhook.go, webhook_handler.go)

    The handler verifies the signature of the body, decodes the event and hands
    it to the ingestion port or the rerequest port.  The ports are classes over
    an abstract state; HMAC-SHA256 is the [mac] of [TokenCodec]; decoding a JSON
    body into the payload structs is [WebhookJSON]. *)

From Stdlib Require Import Ascii.
From S2P Require Import Prelude GoStrings RunModel SchedulerPort Scheduler Identity Secrets.

Local Open Scope go_scope.

(** ** Payloads *)

Record pushPayload := {
  PushRef : string;
  PushAfter : string;
  PushDeleted : bool;
  PushRepoName : string;
  PushOwner : string;
  PusherName : string
}.

Record prPayload := {
  PrAction : string;
  PrHeadRef : string;
  PrHeadSHA : string;
  PrHeadFork : bool;
  PrHeadRepoName : string;
  PrHeadOwner : string;
  PrBaseRef : string;
  PrBaseRepoName : string
}.

Record checkRunPayload := { CrAction : string; CrExternalID : string }.

(** [json.Unmarshal] into the three structs; the error is its text. *)
Class WebhookJSON := {
  unmarshal_push : string → string + pushPayload;
  unmarshal_pr : string → string + prPayload;
  unmarshal_check : string → string + checkRunPayload
}.

Inductive WebhookErr :=
  | ErrBadSignature (why : string)
  | ErrIgnoredPush
  | ErrMalformedPayload (why : string).

(** ** Signature *)

Section webhook.
Context `{TokenCodec} `{WebhookJSON}.

Definition VerifySignature (secret body header : string) : outcome WebhookErr unit :=
  let prefix := "sha256=" in
  if negb (has_prefix header prefix) then Err (ErrBadSignature "missing prefix")
  else match hex_decode (trim_prefix header prefix) with
       | None => Err (ErrBadSignature "hex decode")
       | Some got =>
           if bool_decide (got ≠ mac secret body) then Err (ErrBadSignature "digest mismatch") else Ok tt
       end.

(** ** Decoding *)

Fixpoint all_zero (s : string) : bool :=
  match s with
  | "" => true
  | String c s' => bool_decide (c = "0"%char) && all_zero s'
  end.

Definition isZeroSHA (s : string) : bool := all_zero s && bool_decide (0 < String.length s).

Definition github_repo (owner name : string) : RepositoryRef :=
  {| RepoProvider := "github"; RepoOwner := owner; RepoName := name |}.

Definition DecodePush (body deliveryID : string) : outcome WebhookErr Event :=
  match unmarshal_push body with
  | inl e => Err (ErrMalformedPayload e)
  | inr p =>
      if PushDeleted p || isZeroSHA (PushAfter p) then Err ErrIgnoredPush
      else if bool_decide (PushRef p = "") || bool_decide (PushAfter p = "") ||
              bool_decide (PushRepoName p = "") || bool_decide (PushOwner p = "")
      then Err (ErrMalformedPayload "push payload missing ref/after/repository")
      else Ok {| EvProvider := "github"; EvName := "push"; EvDeliveryID := deliveryID;
                 EvRepository := github_repo (PushOwner p) (PushRepoName p);
                 EvRef := PushRef p; EvSHA := PushAfter p;
                 EvActor := if bool_decide (PusherName p = "") then "unknown" else PusherName p |}
  end.

Record PullRequestInfo := { InfoAction : string; InfoFork : bool; InfoBaseRef : string; InfoHeadRef : string }.

Definition prRunActions : list string := ["opened"; "synchronize"; "reopened"].

(** The error comes with the action read so far. *)
Definition DecodePull (body deliveryID : string) : outcome (WebhookErr * string) (Event * PullRequestInfo) :=
  match unmarshal_pr body with
  | inl e => Err (ErrMalformedPayload e, "")
  | inr p =>
      if bool_decide (PrAction p = "") then Err (ErrMalformedPayload "pull_request payload missing action", "")
      else if negb (bool_decide (PrAction p ∈ prRunActions)) then Err (ErrIgnoredPush, PrAction p)
      else if bool_decide (PrHeadSHA p = "") || bool_decide (PrHeadRepoName p = "") ||
              bool_decide (PrHeadOwner p = "") || bool_decide (PrBaseRepoName p = "")
      then Err (ErrMalformedPayload "pull_request payload missing head/base fields", "")
      else Ok ({| EvProvider := "github"; EvName := "pull_request"; EvDeliveryID := deliveryID;
                  EvRepository := github_repo (PrHeadOwner p) (PrHeadRepoName p);
                  EvRef := "refs/heads/" +:+ PrHeadRef p; EvSHA := PrHeadSHA p; EvActor := PrHeadOwner p |},
               {| InfoAction := PrAction p; InfoFork := PrHeadFork p; InfoBaseRef := PrBaseRef p;
                  InfoHeadRef := PrHeadRef p |})
  end.

Definition DecodeCheckRunRerequest (body : string) : outcome WebhookErr JobRunID :=
  match unmarshal_check body with
  | inl e => Err (ErrMalformedPayload e)
  | inr p =>
      if bool_decide (CrAction p ≠ "rerequested") then Err ErrIgnoredPush
      else if bool_decide (CrExternalID p = "") then Err (ErrMalformedPayload "check_run missing external_id")
      else Ok (CrExternalID p)
  end.
End webhook.

(** ** The handler *)

(** A request: the bytes of the body or the error of reading it, and the three
    headers the handler looks at. *)
Record WebhookRequest := {
  WMethod : string;
  WBody : string + string;
  WSignature : string;
  WDeliveryID : string;
  WEvent : string
}.

Inductive WebhookReply :=
  | WError (status : Z) (msg : string)
  | WIgnored (reason : string)
  | WIgnoredEvent (event : string)
  | WRun (run : RunID) (created : bool) (fork : option bool)
  | WRerequested (job new : JobRunID).

Class IngestPort (W : Type) := { IngestDelivery : Delivery → W → W * outcome error (RunID * bool) }.
Class RerequestPort (W : Type) := { RerequestJobRun : option (JobRunID → W → W * outcome error JobRunID) }.

Definition MaxWebhookBody : N := 10485760.

(** [io.LimitReader] *)
Definition limit_body (s : string) : string :=
  if (N.of_nat (String.length s) <=? MaxWebhookBody)%N then s else str_take (N.to_nat MaxWebhookBody) s.

Section handler.
Context `{TokenCodec} `{WebhookJSON} {W : Type} `{IngestPort W} `{RerequestPort W}.
Context (secret : string).

(** A panic of a port ends the request without a reply; [None] stands for it. *)
Definition ingest_reply (d : Delivery) (fork : option bool) (w : W) : W * option WebhookReply :=
  match IngestDelivery d w with
  | (w', Err _) => (w', Some (WError 500 "ingest failed"))
  | (w', Panic) => (w', None)
  | (w', Ok (runID, created)) =>
      (w', Some (if bool_decide (runID = "") then WIgnored "no matching workflow" else WRun runID created fork))
  end.

Definition handle_pull (body : string) (key : DeliveryKey) (w : W) : W * option WebhookReply :=
  match DecodePull body (KeyDeliveryID key) with
  | Err (ErrIgnoredPush, action) => (w, Some (WIgnored ("action " +:+ action)))
  | Err _ => (w, Some (WError 400 "malformed pull_request payload"))
  | Panic => (w, None)
  | Ok (ev, info) => ingest_reply {| DKey := key; DEvent := ev; DPayload := body |} (Some (InfoFork info)) w
  end.

Definition handle_push (body : string) (key : DeliveryKey) (w : W) : W * option WebhookReply :=
  match DecodePush body (KeyDeliveryID key) with
  | Err ErrIgnoredPush => (w, Some (WIgnored "branch deleted"))
  | Err _ => (w, Some (WError 400 "malformed push payload"))
  | Panic => (w, None)
  | Ok ev => ingest_reply {| DKey := key; DEvent := ev; DPayload := body |} None w
  end.

Definition handle_check_run (body : string) (w : W) : W * option WebhookReply :=
  match DecodeCheckRunRerequest body with
  | Err ErrIgnoredPush => (w, Some (WIgnored "action not rerequested"))
  | Err _ => (w, Some (WError 400 "malformed check_run payload"))
  | Panic => (w, None)
  | Ok jobID =>
      match RerequestJobRun with
      | None => (w, Some (WError 501 "rerequest not configured"))
      | Some rerequest =>
          match rerequest jobID w with
          | (w', Err _) => (w', Some (WError 500 "rerequest failed"))
          | (w', Panic) => (w', None)
          | (w', Ok newID) => (w', Some (WRerequested jobID newID))
          end
      end
  end.

Definition ServeHTTP (r : WebhookRequest) (w : W) : W * option WebhookReply :=
  if bool_decide (WMethod r ≠ "POST") then (w, Some (WError 405 "method not allowed"))
  else match WBody r with
  | inl _ => (w, Some (WError 400 "read body"))
  | inr raw =>
      let body := limit_body raw in
      match VerifySignature secret body (WSignature r) with
      | Err _ => (w, Some (WError 403 "invalid signature"))
      | Panic => (w, None)
      | Ok _ =>
          if bool_decide (WDeliveryID r = "") then (w, Some (WError 400 "missing delivery id"))
          else
            let key := {| KeyProvider := "github"; KeyDeliveryID := WDeliveryID r |} in
            if bool_decide (WEvent r = "pull_request") then handle_pull body key w
            else if bool_decide (WEvent r = "push") then handle_push body key w
            else if bool_decide (WEvent r = "check_run") then handle_check_run body w
            else (w, Some (WIgnoredEvent (WEvent r)))
      end
  end.
End handler.
