(* ===== verification/GitHubTheorems.v ===== *)
(** * What a webhook can do

    Only a signed request reaches a port, and a delivery GitHub repeats starts
    nothing new on the server of [Server]. *)

From Stdlib Require Import Ascii.
From S2P Require Import Prelude GoStrings GoFloat RunModel SchedulerPort MemoryStore StoreInvariant StoreOps Scheduler SchedulerMemory.
From S2P Require Import Syntax SyntaxTheorems Compiler ExprSyntax ExprEval Identity Authorization Secrets Plans Reports Server ServerConditions ServerPlans GitHubWebhook.

Local Open Scope go_scope.

(** ** Signatures *)

Section signature.
Context `{TokenCodec}.

Lemma VerifySignature_spec secret body header :
  VerifySignature secret body header = Ok tt ↔
  ∃ h, header = "sha256=" +:+ h ∧ hex_decode h = Some (mac secret body).
Proof.
  unfold VerifySignature. destruct (has_prefix header "sha256=") eqn:E; simpl.
  - apply has_prefix_spec in E as [h ->].
    assert (trim_prefix ("sha256=" +:+ h) "sha256=" = h) as ->.
    { unfold trim_prefix. by rewrite has_prefix_app, str_drop_app. }
    split.
    + destruct (hex_decode h) as [got|] eqn:Eh; [|done]. case_bool_decide as Hg; [done|].
      intros _. exists h. split; [done|]. by rewrite Eh, Hg.
    + intros (h' & [= <-] & Hh). rewrite Hh. by rewrite bool_decide_eq_false_2 by tauto.
  - split; [done|]. intros (h & -> & _). pose proof (has_prefix_app "sha256=" h) as Hp.
    destruct (eq_true_false_abs _ Hp E).
Qed.

(** The signature check accepts the header GitHub computes for the body, and
    nothing but a prefixed hexadecimal text that decodes to the HMAC of this body
    under this secret. *)
Theorem signature_accepts_exactly_the_mac secret body :
  VerifySignature secret body ("sha256=" +:+ hex_encode (mac secret body)) = Ok tt ∧
  ∀ header, VerifySignature secret body header = Ok tt →
    ∃ h, header = "sha256=" +:+ h ∧ hex_decode h = Some (mac secret body).
Proof.
  split; [|apply VerifySignature_spec]. apply VerifySignature_spec.
  exists (hex_encode (mac secret body)). split; [done|]. apply hex_encode_spec.
Qed.
End signature.

(** ** The handler *)

Section handler.
Context `{TokenCodec} `{WebhookJSON} {W : Type}.

(** The delivery the handler makes of a request. *)
Definition delivery_of (r : WebhookRequest) (body : string) (d : Delivery) : Prop :=
  DKey d = {| KeyProvider := "github"; KeyDeliveryID := WDeliveryID r |} ∧ DPayload d = body ∧
  EvDeliveryID (DEvent d) = WDeliveryID r ∧
  (WEvent r = "push" ∧ EvName (DEvent d) = "push" ∧ DecodePush body (WDeliveryID r) = Ok (DEvent d) ∨
   WEvent r = "pull_request" ∧ EvName (DEvent d) = "pull_request" ∧
   ∃ info, DecodePull body (WDeliveryID r) = Ok (DEvent d, info)).

Lemma DecodePush_event body id ev :
  DecodePush body id = Ok ev → EvDeliveryID ev = id ∧ EvName ev = "push".
Proof.
  unfold DecodePush. destruct (unmarshal_push body); [done|]. destruct (_ || isZeroSHA _); [done|].
  destruct (_ || _); [done|]. by intros [= <-].
Qed.

Lemma DecodePull_event body id ev info :
  DecodePull body id = Ok (ev, info) → EvDeliveryID ev = id ∧ EvName ev = "pull_request".
Proof.
  unfold DecodePull. destruct (unmarshal_pr body); [done|]. destruct (bool_decide (PrAction _ = _)); [done|].
  destruct (negb _); [done|]. destruct (_ || _); [done|]. by intros [= <- _].
Qed.

(** The request is a signed POST with a delivery id. *)
Definition authentic (secret : string) (r : WebhookRequest) (body : string) : Prop :=
  WMethod r = "POST" ∧ (∃ raw, WBody r = inr raw ∧ body = limit_body raw) ∧
  (∃ h, WSignature r = "sha256=" +:+ h ∧ hex_decode h = Some (mac secret body)) ∧ WDeliveryID r ≠ "".

(** What the handler does, by cases. *)
Lemma ServeHTTP_cases `{IngestPort W} `{RerequestPort W} secret r (w : W) :
  (∃ rep, ServeHTTP secret r w = (w, rep)) ∨
  ∃ body, authentic secret r body ∧
    ((∃ d f, delivery_of r body d ∧ ServeHTTP secret r w = ingest_reply d f w) ∨
     (∃ job f, DecodeCheckRunRerequest body = Ok job ∧ WEvent r = "check_run" ∧ RerequestJobRun = Some f ∧
        fst (ServeHTTP secret r w) = fst (f job w))).
Proof.
  unfold ServeHTTP. destruct (decide (WMethod r = "POST")) as [Hm|Hm];
    [rewrite bool_decide_eq_false_2 by tauto|rewrite bool_decide_eq_true_2 by done; left; by eexists].
  destruct (WBody r) as [|raw] eqn:Hb; [left; by eexists|].
  destruct (VerifySignature _ _ _) as [[]|e|] eqn:Hv; [|left; by eexists..].
  case_bool_decide as Hid; [left; by eexists|].
  assert (authentic secret r (limit_body raw)) as Ha by (split_and!; [done|by exists raw|by apply VerifySignature_spec|done]).
  repeat case_bool_decide; [..|left; by eexists].
  - unfold handle_pull. destruct (DecodePull _ _) as [[ev info]|[[| |] a]|] eqn:Ed; try (left; by eexists).
    right. exists (limit_body raw). split; [done|left]. eexists _, _. split; [|done].
    destruct (DecodePull_event _ _ _ _ Ed) as [He Hn].
    split; [done|]. split; [done|]. split; [done|]. right. split; [done|]. split; [done|]. by exists info.
  - unfold handle_push. destruct (DecodePush _ _) as [ev|[| |]|] eqn:Ed; try (left; by eexists).
    right. exists (limit_body raw). split; [done|left]. eexists _, _. split; [|done].
    destruct (DecodePush_event _ _ _ Ed) as [He Hn].
    split; [done|]. split; [done|]. split; [done|]. left. by split.
  - unfold handle_check_run. destruct (DecodeCheckRunRerequest _) as [job|[| |]|] eqn:Ed; try (left; by eexists).
    destruct RerequestJobRun as [f|] eqn:Ef; [|left; by eexists].
    right. exists (limit_body raw). split; [done|right]. exists job, f. split_and!; [done..|].
    by destruct (f job w) as [w' [|?|]].
Qed.

(** C16. A webhook changes nothing without a valid signature: if handling a
    request changes the state behind the ports, the request is a POST whose
    body, cut at the limit, has the HMAC in its signature header and which names
    its delivery; and the change is one ingestion of the delivery decoded from exactly this
    body under the delivery id of its header, or one rerequest of the job the
    body names. *)
Theorem webhook_writes_need_signature `{IngestPort W} `{RerequestPort W} secret r (w : W) :
  fst (ServeHTTP secret r w) ≠ w →
  ∃ body, authentic secret r body ∧
    ((∃ d, delivery_of r body d ∧ fst (ServeHTTP secret r w) = fst (IngestDelivery d w)) ∨
     (∃ job f, DecodeCheckRunRerequest body = Ok job ∧ WEvent r = "check_run" ∧ RerequestJobRun = Some f ∧
        fst (ServeHTTP secret r w) = fst (f job w))).
Proof.
  intros Hch. destruct (ServeHTTP_cases secret r w) as [[rep E]|(body & Ha & Hd)]; [by rewrite E in Hch|].
  exists body. split; [done|]. destruct Hd as [(d & f & Hd & E)|?]; [left|by right].
  exists d. split; [done|]. rewrite E. unfold ingest_reply. by destruct (IngestDelivery d w) as [w' [[]| |]].
Qed.
End handler.

(** ** On the server *)

Section server.
Context `{Unicode} `{FloatText} `{JSONText} `{IntConv} `{MapRange} `{PlanDigest} `{EventJSON}.
Context `{MemoryEnv} `{!MemoryEnvOk} {A : Type} `{ActiveExecutionStore A} `{TokenCodec} `{WebhookJSON}.
Context (base : string) (load : RepositoryRef → string → outcome string (list WorkflowFile)).
Context (unmarshal : string → outcome string Node) (fetch : option ActionFetcher).

(** The server behind the handler, at a time. *)
Definition server_ingest (now : Time) : IngestPort (server store A) := {|
  IngestDelivery := fun d v =>
    match ServerIngest base load unmarshal fetch now d v with
    | (v', Ok (runID, created, None)) => (v', Ok (runID, created))
    | (v', Ok (_, _, Some e)) => (v', Err e)
    | (v', Err e) => (v', Err e)
    | (v', Panic) => (v', Panic)
    end |}.

Definition server_rerequest (now : Time) : RerequestPort (server store A) := {|
  RerequestJobRun := Some (fun id v => Rerequest base now id v) |}.

Lemma with_sdurable_same (v : server store A) : with_sdurable (sdurable v) v = v.
Proof. by destruct v. Qed.

Lemma ServerIngest_replay now now2 d (v v' : server store A) runID created :
  store_wf (sdurable v) →
  ServerIngest base load unmarshal fetch now d v = (v', Ok (runID, created, None)) → runID ≠ "" →
  store_wf (sdurable v') ∧
  ServerIngest base load unmarshal fetch now2 d v' = (v', Ok (runID, false, None)).
Proof.
  intros Hwf. unfold ServerIngest, mbind, onD.
  destruct (Ingest _ now d (sdurable v)) as [s1 [[r c]|e|]] eqn:Ei; [|done..].
  assert (d_inv (sdurable v)) as Hi by exact Hwf. intros E Hne.
  assert (r = runID ∧ store_wf (sdurable v') ∧ deliveries (sdurable v') = deliveries s1) as (-> & Hwf' & Hdel).
  { destruct (bool_decide (r = "") || negb c) eqn:Hb; simpl in E.
    - injection E as <- -> _. split; [done|].
      destruct (Ingest_ok_bound _ _ _ _ _ _ _ Hi Ei Hne) as [Hw _]. by split.
    - apply orb_false_iff in Hb as [Hr _]. apply bool_decide_eq_false in Hr.
      destruct (Ingest_ok_bound _ _ _ _ _ _ _ Hi Ei Hr) as [Hw _].
      destruct (buildPlans _ _ _ _ _ _ _ _) as [v2 [[]|e|]] eqn:Eb; [|done..]. injection E as <- -> _.
      destruct (buildPlans_ok base fetch now _ d runID (trustFor d) (with_sdurable s1 v) v2 Hw Eb) as (Hex & _ & _).
      split; [done|]. split; [by apply (ex_wf _ _ _ Hex)|]. by rewrite (ex_deliveries _ _ _ Hex). }
  split; [done|].
  destruct (Ingest_ok_bound _ _ _ _ _ _ _ Hi Ei Hne) as [_ Hrun].
  assert (Ingest (SourceCompile load unmarshal) now2 d (sdurable v') = (sdurable v', Ok (runID, false))) as ->.
  { apply Ingest_bound; [exact Hwf'| |done]. simpl in *. by rewrite Hdel. }
  rewrite orb_true_r. simpl. by rewrite with_sdurable_same.
Qed.

(** GitHub may deliver a webhook again: when the server answered a request with
    a run, answering the same request at any later time gives the same run, as
    already created, and leaves the whole server state as it is. *)
Theorem redelivered_webhook_is_noop secret r now now2 (v v' : server store A) runID created fork :
  store_wf (sdurable v) →
  @ServeHTTP _ _ _ (server_ingest now) (server_rerequest now) secret r v = (v', Some (WRun runID created fork)) →
  @ServeHTTP _ _ _ (server_ingest now2) (server_rerequest now2) secret r v' = (v', Some (WRun runID false fork)).
Proof.
  intros Hwf.
  assert (∀ d f, @ingest_reply _ (server_ingest now) d f v = (v', Some (WRun runID created fork)) →
                 @ingest_reply _ (server_ingest now2) d f v' = (v', Some (WRun runID false fork))) as Hport.
  { intros d f. unfold ingest_reply, IngestDelivery, server_ingest.
    destruct (ServerIngest _ _ _ _ now d v) as [v1 [[[r1 c1] [e|]]|e|]] eqn:E; [done| |done..].
    case_bool_decide as Hr; [done|]. intros [= <- <- <- <-].
    destruct (ServerIngest_replay now now2 d v v1 r1 c1 Hwf E Hr) as [_ ->]. by rewrite bool_decide_eq_false_2. }
  unfold ServeHTTP. case_bool_decide; [done|]. destruct (WBody r) as [|raw]; [done|].
  destruct (VerifySignature _ _ _); [|done..]. repeat case_bool_decide; try done.
  - unfold handle_pull. destruct (DecodePull _ _) as [[ev info]|[[| |] act]|]; try done. apply Hport.
  - unfold handle_push. destruct (DecodePush _ _) as [ev|[| |]|]; try done. apply Hport.
  - unfold handle_check_run. destruct (DecodeCheckRunRerequest _) as [job|[| |]|]; try done.
    unfold RerequestJobRun, server_rerequest. by destruct (Rerequest base now job v) as [? [| |]].
Qed.
End server.

(** ** A signed pull request *)

Section witness.
#[local] Existing Instances ascii_unicode demo_float_text some_order.
#[local] Instance no_json : JSONText :=
  {| json_Marshal := fun _ => inl "no JSON"; json_Decode := fun _ => inl "no JSON" |}.
#[local] Instance no_int : IntConv := {| int_of_other := fun _ => 0%Z |}.
#[local] Instance id_digest : PlanDigest := {| plan_hash := PJobRunID |}.
#[local] Instance fork_json : EventJSON :=
  {| head_repo_fork := fun p => Some (bool_decide (p = "fork")); base_ref := fun _ => "main" |}.
#[local] Instance concat_codec : TokenCodec :=
  {| mac := String.append; marshal := fun _ => Err "none"; Identity.unmarshal := fun _ => Err "none" |}.
#[local] Instance demo_webhook_json : WebhookJSON := {|
  unmarshal_push := fun _ => inl "no push";
  unmarshal_pr := fun _ => inr {| PrAction := "opened"; PrHeadRef := "topic"; PrHeadSHA := "abc"; PrHeadFork := true;
    PrHeadRepoName := "repo"; PrHeadOwner := "mallory"; PrBaseRef := "main"; PrBaseRepoName := "repo" |};
  unmarshal_check := fun _ => inl "no check" |}.

Definition signed_request : WebhookRequest := {|
  WMethod := "POST"; WBody := inr "fork"; WSignature := "sha256=" +:+ hex_encode "keyfork";
  WDeliveryID := "d1"; WEvent := "pull_request" |}.

Definition demo_load (_ : RepositoryRef) (_ : string) : outcome string (list WorkflowFile) :=
  Ok [{| FName := "ci.yml"; FData := "" |}].

Definition demo_ingest (now : Time) : IngestPort (server store activeStore) :=
  server_ingest "http://forgelet" demo_load (fun _ => Ok pr_node) None now.
Definition demo_rerequest (now : Time) : RerequestPort (server store activeStore) :=
  server_rerequest "http://forgelet" now.

Definition demo_serve (now : Time) (v : server store activeStore) :=
  @ServeHTTP _ _ _ (demo_ingest now) (demo_rerequest now) "key" signed_request v.

Definition demo_served := demo_serve 5 (server_of NewDurableStore NewActiveStore).

Lemma demo_served_result : demo_served = (fst demo_served, Some (WRun "id" true (Some true))).
Proof. apply pair_result. vm_compute. reflexivity. Qed.

Lemma redelivered_webhook_is_noop_witness :
  demo_serve 90 (fst demo_served) = (fst demo_served, Some (WRun "id" false (Some true))).
Proof.
  apply (redelivered_webhook_is_noop "http://forgelet" demo_load (fun _ => Ok pr_node) None "key" signed_request
    5 90 (server_of NewDurableStore NewActiveStore) (fst demo_served) "id" true (Some true)).
  - exact NewDurableStore_wf.
  - exact demo_served_result.
Defined.

#[local] Instance log_ingest : IngestPort (list Delivery) := {| IngestDelivery := fun d w => (w ++ [d], Ok ("run", true)) |}.
#[local] Instance no_rerequest : RerequestPort (list Delivery) := {| RerequestJobRun := None |}.

Lemma webhook_writes_need_signature_witness :
  ∃ d, fst (ServeHTTP "key" signed_request []) = [d] ∧ DPayload d = "fork".
Proof.
  destruct (webhook_writes_need_signature "key" signed_request ([] : list Delivery))
    as (body & (_ & (raw & Hraw & Hb) & _) & [(d & Hd & E)|(job & f & _ & _ & Hf & _)]).
  - vm_compute. discriminate.
  - exists d. split; [exact E|]. destruct Hd as (_ & Hp & _). rewrite Hp, Hb. injection Hraw as <-. reflexivity.
  - discriminate Hf.
Defined.

Lemma signature_accepts_exactly_the_mac_witness :
  ∃ h, WSignature signed_request = "sha256=" +:+ h ∧ hex_decode h = Some (mac "key" "fork").
Proof. apply (proj2 (signature_accepts_exactly_the_mac "key" "fork") (WSignature signed_request)). reflexivity. Defined.
End witness.
