(* ===== verification/Schedule.v ===== *)
(** * Scheduled workflows (internal/run/schedule/schedule.go, internal/server/schedule.go)

    [Tick] ingests, for every schedule of every listed workflow, the latest
    fire time that passed since the last one it emitted.  The cron library is
    the class [Cron]; [CronLaws] states what is relied on: [Next] is the
    earliest fire time after its argument, and fire times are whole minutes. *)

From S2P Require Import Prelude GoStrings RunModel SchedulerPort Syntax Server GitHubWebhook.

Local Open Scope go_scope.

(** Times are nanoseconds. *)
Definition minute : Z := 60 * 1000000000.
Definition day : Z := 24 * 60 * minute.

Record ScheduledWorkflow := {
  SwRepository : RepositoryRef;
  SwFileName : string;
  SwRef : string;
  SwCron : string
}.

(** [robfig/cron]: a parsed expression and its next fire time ([None] for the
    zero time). [rfc3339] is the format of a time in UTC. *)
Class Cron := {
  Sched : Type;
  cron_parse : string → option Sched;
  cron_next : Sched → Time → option Time;
  rfc3339 : Time → string
}.

Class CronLaws `{Cron} := {
  fires : Sched → Time → Prop;
  law_next : ∀ s t n, cron_next s t = Some n → (t < n)%Z ∧ fires s n ∧ ∀ m, (t < m < n)%Z → ¬ fires s m;
  law_never : ∀ s t, cron_next s t = None → ∀ m, (t < m <= t + 5 * 365 * day)%Z → ¬ fires s m;
  law_minutes : ∀ s n, fires s n → (n mod minute = 0)%Z;
  law_rfc3339 : ∀ a b, (a mod minute = 0)%Z → (b mod minute = 0)%Z → rfc3339 a = rfc3339 b → a = b
}.

Section schedule.
Context `{Unicode} `{Cron}.

Definition scheduleKey (sw : ScheduledWorkflow) : string :=
  RepoOwner (SwRepository sw) +:+ "/" +:+ RepoName (SwRepository sw) +:+ ":" +:+ SwFileName sw +:+ ":" +:+ SwCron sw.

(** Walk forward from the cursor; the last fire not after [now]. *)
Fixpoint walk_fires (fuel : nat) (s : Sched) (now cursor : Time) (latest : option Time) : outcome string (option Time) :=
  match fuel with
  | O => Panic
  | S fuel' =>
      match cron_next s cursor with
      | None => Ok latest
      | Some n => if bool_decide (now < n)%Z then Ok latest else walk_fires fuel' s now n (Some n)
      end
  end.

(** Fires are at least a minute apart, so one more than the minutes of the
    window, and one for the first, are enough. *)
Definition walk_fuel (now cursor : Time) : nat := S (S (Z.to_nat ((now - cursor) / minute))).

Definition start_cursor (now : Time) (lastEmitted : option Time) : Time :=
  match lastEmitted with Some t => t | None => (now - day)%Z end.

Definition latest_fire (s : Sched) (now : Time) (lastEmitted : option Time) : outcome string (option Time) :=
  let cursor := start_cursor now lastEmitted in
  walk_fires (walk_fuel now cursor) s now cursor None.

Definition q (s : string) : string := quote s.
Definition dq : string := byte_str 34.

Definition schedule_delivery (sw : ScheduledWorkflow) (fire : Time) : Delivery :=
  let repo := SwRepository sw in {|
  DKey := {| KeyProvider := "forgelet";
             KeyDeliveryID := "schedule:" +:+ RepoOwner repo +:+ "/" +:+ RepoName repo +:+ ":" +:+
               SwFileName sw +:+ ":" +:+ SwCron sw +:+ ":" +:+ rfc3339 fire |};
  DEvent := {| EvProvider := "forgelet"; EvName := "schedule";
               EvDeliveryID := RepoOwner repo +:+ "/" +:+ RepoName repo +:+ "@" +:+ SwFileName sw;
               EvRepository := repo; EvRef := SwRef sw; EvSHA := ""; EvActor := "forgelet-schedule" |};
  DPayload := "{" +:+ dq +:+ "cron" +:+ dq +:+ ":" +:+ q (SwCron sw) +:+ "," +:+
              dq +:+ "fire_time" +:+ dq +:+ ":" +:+ q (rfc3339 fire) +:+ "," +:+
              dq +:+ "workflow" +:+ dq +:+ ":" +:+ q (SwFileName sw) +:+ "}" |}.

(** ** One tick *)

Context {W : Type} `{IngestPort W}.

(** The fires emitted so far, and the state behind the port. *)
Record schedState := { fired : gmap string Time; behind : W }.

(** One workflow: whether a delivery was emitted. *)
Definition tick_one (now : Time) (sw : ScheduledWorkflow) (s : schedState) : schedState * outcome string bool :=
  match cron_parse (SwCron sw) with
  | None => (s, Ok false)
  | Some sched =>
      let key := scheduleKey sw in
      let lastEmitted := fired s !! key in
      match latest_fire sched now lastEmitted with
      | Err e => (s, Err e)
      | Panic => (s, Panic)
      | Ok None => (s, Ok false)
      | Ok (Some latest) =>
          if bool_decide (lastEmitted = Some latest) then (s, Ok false)
          else
            match IngestDelivery (schedule_delivery sw latest) (behind s) with
            | (w, Ok _) => ({| fired := <[key := latest]> (fired s); behind := w |}, Ok true)
            | (w, Err _) => ({| fired := fired s; behind := w |}, Err "schedule: ingest")
            | (w, Panic) => ({| fired := fired s; behind := w |}, Panic)
            end
      end
  end.

(** The deliveries emitted, and the error that ended the tick. *)
Fixpoint tick_all (now : Time) (sws : list ScheduledWorkflow) (emitted : nat) (s : schedState)
    : schedState * nat * outcome string unit :=
  match sws with
  | [] => (s, emitted, Ok tt)
  | sw :: rest =>
      match tick_one now sw s with
      | (s', Ok true) => tick_all now rest (S emitted) s'
      | (s', Ok false) => tick_all now rest emitted s'
      | (s', Err e) => (s', emitted, Err e)
      | (s', Panic) => (s', emitted, Panic)
      end
  end.

Definition Tick (list_workflows : outcome string (list ScheduledWorkflow)) (now : Time) (s : schedState)
    : schedState * nat * outcome string unit :=
  match list_workflows with
  | Err e => (s, 0, Err ("schedule: list: " +:+ e))
  | Panic => (s, 0, Panic)
  | Ok sws => tick_all now sws 0 s
  end.

(** [Server.ScheduleOnce]: nothing without scheduled repositories. *)
Definition ScheduleOnce (sched : option (outcome string (list ScheduledWorkflow))) (now : Time) (s : schedState)
    : schedState * nat * outcome string unit :=
  match sched with
  | None => (s, 0, Ok tt)
  | Some list_workflows => Tick list_workflows now s
  end.
End schedule.
Arguments schedState : clear implicits.

(** ** The lister (server/schedule.go) *)

Record ScheduledRepo := { SrOwner : string; SrName : string }.

Section lister.
Context `{Unicode}.
(** The default branch, when the source can tell; the workflow source; the YAML decoder. *)
Context (default_branch : option (RepositoryRef → string + string)).
Context (load : RepositoryRef → string → outcome string (list WorkflowFile)).
Context (unmarshal : string → outcome string Node).

Definition file_schedules (repo : RepositoryRef) (ref : string) (f : WorkflowFile) : list ScheduledWorkflow :=
  match Parse (FName f) unmarshal (FData f) with
  | Ok wf => map (fun c => {| SwRepository := repo; SwFileName := FName f; SwRef := ref; SwCron := c |})
               (OnSchedule (On wf))
  | _ => []
  end.

Definition repo_schedules (r : ScheduledRepo) : outcome string (list ScheduledWorkflow) :=
  let repo := {| RepoProvider := "github"; RepoOwner := SrOwner r; RepoName := SrName r |} in
  let name := SrOwner r +:+ "/" +:+ SrName r in
  let ref := match default_branch with
             | None => inr ""
             | Some f => match f repo with
                         | inl e => inl ("schedule: resolve " +:+ name +:+ " default branch: " +:+ e)
                         | inr b => inr ("refs/heads/" +:+ b)
                         end
             end in
  match ref with
  | inl e => Err e
  | inr ref =>
      match load repo ref with
      | Err e => Err ("schedule: load " +:+ name +:+ " workflows: " +:+ e)
      | Panic => Panic
      | Ok files => Ok (concat (map (file_schedules repo ref) files))
      end
  end.

Fixpoint ListSchedules (repos : list ScheduledRepo) : outcome string (list ScheduledWorkflow) :=
  match repos with
  | [] => Ok []
  | r :: rest =>
      match repo_schedules r with
      | Ok out => match ListSchedules rest with Ok out' => Ok (out ++ out') | Err e => Err e | Panic => Panic end
      | Err e => Err e
      | Panic => Panic
      end
  end.
End lister.
