(* ===== verification/ScheduleTheorems.v ===== *)
(** * What a tick emits

    The walk over the fire times ends and finds the latest one; a tick emits
    exactly the due deliveries and an immediate second tick emits none. *)

From stdpp Require Import pretty.
From S2P Require Import Prelude GoStrings RunModel SchedulerPort Syntax Server GitHubWebhook Schedule.

Local Open Scope go_scope.

Section walk.
Context `{Cron} `{!CronLaws}.

(** No fire after [a] up to [now]. *)
Definition quiet (s : Sched) (a now : Time) : Prop := ∀ m, (a < m <= now)%Z → ¬ fires s m.

(** [n] is the latest fire after [a] up to [now]. *)
Definition latest_in (s : Sched) (a now n : Time) : Prop := (a < n <= now)%Z ∧ fires s n ∧ quiet s n now.

Definition window_ok (a now : Time) : Prop := (now <= a + 5 * 365 * day)%Z.

Lemma minute_pos : (0 < minute)%Z.
Proof. done. Qed.

(** Fires are a minute apart, so the number of minutes left decreases. *)
Lemma next_closer s c n now :
  (c mod minute = 0)%Z → cron_next s c = Some n → (n <= now)%Z →
  Z.to_nat ((now - n) / minute) < Z.to_nat ((now - c) / minute).
Proof.
  intros Hc Hn Hle. destruct (law_next _ _ _ Hn) as (Hlt & Hf & _). pose proof (law_minutes _ _ Hf) as Hm.
  pose proof minute_pos as Hp. apply Z.mod_divide in Hc as [a ->]; [|lia]. apply Z.mod_divide in Hm as [b ->]; [|lia].
  assert (a < b)%Z by nia.
  assert (∀ k, (now - k * minute) / minute = now / minute - k)%Z as Hsub.
  { intros k. replace (now - k * minute)%Z with (now + - k * minute)%Z by lia. rewrite Z.div_add by lia. lia. }
  rewrite !Hsub.
  assert (b <= now / minute)%Z by (apply Z.div_le_lower_bound; lia). lia.
Qed.

Lemma walk_from_fire fuel s now c :
  fires s c → (c <= now)%Z → window_ok c now → Z.to_nat ((now - c) / minute) < fuel →
  ∃ n, walk_fires fuel s now c (Some c) = Ok (Some n) ∧ (c <= n <= now)%Z ∧ fires s n ∧ quiet s n now.
Proof.
  revert c. induction fuel as [|fuel IH]; intros c Hf Hle Hw Hfuel; [lia|]. simpl.
  destruct (cron_next s c) as [n|] eqn:En.
  - destruct (law_next _ _ _ En) as (Hlt & Hfn & Hbetween). case_bool_decide as Hnow.
    + exists c. split_and!; [done|lia|lia|done|]. intros m Hm. apply Hbetween. lia.
    + pose proof (next_closer _ _ _ now (law_minutes _ _ Hf) En ltac:(lia)) as Hd.
      destruct (IH n Hfn ltac:(lia) ltac:(unfold window_ok in *; lia) ltac:(lia)) as (r & -> & ? & ? & ?).
      exists r. split_and!; [done|lia|lia|done..].
  - exists c. split_and!; [done|lia|lia|done|]. intros m Hm. apply (law_never _ _ En). unfold window_ok in Hw. lia.
Qed.

Lemma latest_fire_spec s now last :
  let a := start_cursor now last in
  window_ok a now →
  (latest_fire s now last = Ok None ∧ quiet s a now) ∨
  ∃ n, latest_fire s now last = Ok (Some n) ∧ latest_in s a now n.
Proof.
  intros a Hw. unfold latest_fire. fold a. unfold walk_fuel.
  remember (S (Z.to_nat ((now - a) / minute))) as k eqn:Hk. simpl.
  destruct (cron_next s a) as [n|] eqn:En.
  - destruct (law_next _ _ _ En) as (Hlt & Hfn & Hbetween). case_bool_decide as Hnow.
    + left. split; [done|]. intros m Hm. apply Hbetween. lia.
    + right. assert (Z.to_nat ((now - n) / minute) < k) as Hf.
      { subst k. assert ((now - n) / minute <= (now - a) / minute)%Z by (apply Z.div_le_mono; [apply minute_pos|lia]). lia. }
      destruct (walk_from_fire k s now n Hfn ltac:(lia) ltac:(unfold window_ok in *; lia) Hf) as (r & -> & ? & ? & ?).
      exists r. split; [done|]. split_and!; [lia|lia|done..].
  - left. split; [done|]. intros m Hm. apply (law_never _ _ En). unfold window_ok in Hw. lia.
Qed.

(** After the latest fire nothing is due. *)
Lemma latest_fire_quiet s now last :
  window_ok (start_cursor now last) now → quiet s (start_cursor now last) now → latest_fire s now last = Ok None.
Proof.
  intros Hw Hq. destruct (latest_fire_spec s now last Hw) as [[? _]|(n & _ & (Hb & Hf & _))]; [done|].
  by destruct (Hq n).
Qed.
End walk.

Section tick.
Context `{Unicode} `{Cron} `{!CronLaws} {W : Type} `{IngestPort W}.

(** What one workflow has due. *)
Definition due_fire (now : Time) (last : option Time) (sw : ScheduledWorkflow) : option Time :=
  match cron_parse (SwCron sw) with
  | None => None
  | Some s => match latest_fire s now last with Ok r => r | _ => None end
  end.

Definition due_deliveries (now : Time) (f : gmap string Time) (sws : list ScheduledWorkflow) : list Delivery :=
  omap (fun sw => schedule_delivery sw <$> due_fire now (f !! scheduleKey sw) sw) sws.

(** The state after the deliveries went through the port. *)
Definition ingest_all (ds : list Delivery) (w : W) : W := fold_left (fun w d => fst (IngestDelivery d w)) ds w.

Definition record_fire (now : Time) (f : gmap string Time) (sw : ScheduledWorkflow) : gmap string Time :=
  match due_fire now (f !! scheduleKey sw) sw with
  | Some t => <[scheduleKey sw := t]> f
  | None => f
  end.

Definition windows_ok (now : Time) (f : gmap string Time) (sws : list ScheduledWorkflow) : Prop :=
  ∀ sw, sw ∈ sws → window_ok (start_cursor now (f !! scheduleKey sw)) now.

Lemma due_fire_new now last sw t :
  window_ok (start_cursor now last) now → due_fire now last sw = Some t →
  ∃ s, cron_parse (SwCron sw) = Some s ∧ latest_in s (start_cursor now last) now t.
Proof.
  intros Hw. unfold due_fire. destruct (cron_parse _) as [s|]; [|done].
  destruct (latest_fire_spec s now last Hw) as [[-> _]|(n & -> & Hl)]; [done|]. intros [= <-]. by exists s.
Qed.

Lemma tick_one_ok now sw (s s' : schedState W) b :
  window_ok (start_cursor now (fired s !! scheduleKey sw)) now →
  tick_one now sw s = (s', Ok b) →
  fired s' = record_fire now (fired s) sw ∧
  behind s' = ingest_all (due_deliveries now (fired s) [sw]) (behind s) ∧
  b = bool_decide (is_Some (due_fire now (fired s !! scheduleKey sw) sw)).
Proof.
  intros Hw. unfold tick_one, record_fire, due_deliveries, ingest_all. simpl.
  pose proof (due_fire_new now (fired s !! scheduleKey sw) sw) as Hd. unfold due_fire in *.
  destruct (cron_parse (SwCron sw)) as [sched|]; [|by intros [= <- <-]].
  destruct (latest_fire _ _ _) as [[t|]|e|]; [|by intros [= <- <-]|done..].
  destruct (Hd t Hw eq_refl) as (s0 & _ & (Hlt & _) & _).
  rewrite bool_decide_eq_false_2.
  - simpl. by destruct (IngestDelivery _ _) as [w [r|e|]]; intros [= <- <-].
  - intros E. rewrite E in Hlt. simpl in Hlt. lia.
Qed.

Lemma record_fire_other now f sw key : key ≠ scheduleKey sw → record_fire now f sw !! key = f !! key.
Proof. intros Hk. unfold record_fire. destruct (due_fire _ _ _); [by rewrite lookup_insert_ne|done]. Qed.

Lemma due_deliveries_cons now f sw sws :
  due_deliveries now f (sw :: sws) = due_deliveries now f [sw] ++ due_deliveries now f sws.
Proof. unfold due_deliveries. simpl. by destruct (_ <$> _). Qed.

Lemma due_deliveries_record now f sw sws :
  scheduleKey sw ∉ map scheduleKey sws → due_deliveries now (record_fire now f sw) sws = due_deliveries now f sws.
Proof.
  induction sws as [|x sws IH]; [done|]. cbn [map]. intros [Hx Hn]%not_elem_of_cons.
  rewrite (due_deliveries_cons now (record_fire now f sw) x), (due_deliveries_cons now f x), IH by done.
  f_equal. unfold due_deliveries. simpl.
  by rewrite record_fire_other.
Qed.

Lemma tick_all_ok now sws n (s s' : schedState W) m :
  NoDup (map scheduleKey sws) → windows_ok now (fired s) sws →
  tick_all now sws n s = (s', m, Ok tt) →
  fired s' = fold_left (record_fire now) sws (fired s) ∧
  behind s' = ingest_all (due_deliveries now (fired s) sws) (behind s) ∧
  m = n + length (due_deliveries now (fired s) sws).
Proof.
  revert n s. induction sws as [|sw sws IH]; intros n s Hnd Hw; cbn [tick_all fold_left].
  { intros [= <- <-]. split_and!; [done..|]. simpl. lia. }
  simpl in Hnd. apply NoDup_cons in Hnd as [Hnk Hnd].
  destruct (tick_one now sw s) as [s1 r] eqn:E1. intros E. 
  assert (∃ b, r = Ok b ∧ tick_all now sws (if b then S n else n) s1 = (s', m, Ok tt)) as (b & -> & E2).
  { destruct r as [[]|e|]; [by exists true|by exists false|done..]. }
  destruct (tick_one_ok now sw s s1 b (Hw sw (list_elem_of_here _ _)) E1) as (Hf & Hb & Hbb).
  destruct (IH (if b then S n else n) s1 Hnd) as (Hf2 & Hb2 & Hm); [|exact E2|].
  { intros x Hx. rewrite Hf, record_fire_other; [by apply Hw, list_elem_of_further|].
    intros Eq. apply Hnk. rewrite <-Eq. change @map with @list_fmap. apply list_elem_of_fmap. by exists x. }
  rewrite due_deliveries_cons. rewrite Hf, due_deliveries_record in Hb2, Hm by done.
  split_and!; [by rewrite Hf2, Hf|by unfold ingest_all in *; rewrite fold_left_app, Hb2, Hb|].
  rewrite Hm, length_app. unfold due_deliveries at 2. simpl. subst b.
  destruct (due_fire _ _ sw); simpl; lia.
Qed.

Lemma record_fold_other now sws f key :
  key ∉ map scheduleKey sws → fold_left (record_fire now) sws f !! key = f !! key.
Proof.
  revert f. induction sws as [|sw sws IH]; intros f; simpl; [done|]. intros [Hx Hn]%not_elem_of_cons.
  rewrite IH by done. by apply record_fire_other.
Qed.

Lemma record_fire_ext now f g sw :
  f !! scheduleKey sw = g !! scheduleKey sw →
  record_fire now f sw !! scheduleKey sw = record_fire now g sw !! scheduleKey sw.
Proof. unfold record_fire. intros E. rewrite E. destruct (due_fire _ _ _); [by rewrite !lookup_insert_eq|done]. Qed.

Lemma record_fold_lookup now sws f sw :
  NoDup (map scheduleKey sws) → sw ∈ sws →
  fold_left (record_fire now) sws f !! scheduleKey sw = record_fire now f sw !! scheduleKey sw.
Proof.
  revert f. induction sws as [|x sws IH]; intros f Hnd; simpl; [by intros ?%not_elem_of_nil|].
  simpl in Hnd. apply NoDup_cons in Hnd as [Hnk Hnd]. intros [->|Hin]%elem_of_cons; [by apply record_fold_other|].
  rewrite IH by done. assert (scheduleKey sw ≠ scheduleKey x) as Hne.
  { intros Eq. apply Hnk. rewrite <-Eq. change @map with @list_fmap. apply list_elem_of_fmap. by exists sw. }
  apply record_fire_ext. by apply record_fire_other.
Qed.

(** What is recorded for a workflow after a tick: the latest fire that was due,
    or what was recorded, and then nothing was due. *)
Lemma record_fire_settled now f sw s :
  window_ok (start_cursor now (f !! scheduleKey sw)) now → cron_parse (SwCron sw) = Some s →
  match record_fire now f sw !! scheduleKey sw with
  | Some t => latest_in s (start_cursor now (f !! scheduleKey sw)) now t ∨
              f !! scheduleKey sw = Some t ∧ quiet s t now
  | None => quiet s (now - day) now
  end.
Proof.
  intros Hw Hs. unfold record_fire, due_fire. rewrite Hs.
  destruct (latest_fire_spec s now (f !! scheduleKey sw) Hw) as [[-> Hq]|(n & -> & Hl)].
  - destruct (f !! scheduleKey sw) as [t|]; [by right|done].
  - rewrite lookup_insert_eq. by left.
Qed.

Lemma settled_not_due now f sw :
  window_ok (start_cursor now (f !! scheduleKey sw)) now →
  due_fire now (record_fire now f sw !! scheduleKey sw) sw = None ∧
  window_ok (start_cursor now (record_fire now f sw !! scheduleKey sw)) now.
Proof.
  intros Hw. destruct (cron_parse (SwCron sw)) as [s|] eqn:Hs.
  - pose proof (record_fire_settled now f sw s Hw Hs) as Hst. unfold due_fire at 1. rewrite Hs.
    destruct (record_fire now f sw !! scheduleKey sw) as [t|] eqn:Et.
    + assert (window_ok (start_cursor now (Some t)) now ∧ quiet s t now) as [Hw' Hq].
      { destruct Hst as [((Hb & _) & _ & Hq)|[E Hq]]; [|by rewrite E in Hw].
        split; [|done]. unfold window_ok in *. simpl. lia. }
      by rewrite (latest_fire_quiet s now (Some t) Hw' Hq).
    + assert (window_ok (start_cursor now None) now) as Hw' by (unfold window_ok, start_cursor, day, minute; lia).
      by rewrite (latest_fire_quiet s now None Hw' Hst).
  - unfold record_fire, due_fire. by rewrite Hs.
Qed.

(** A workflow with nothing due is passed over. *)
Lemma tick_all_idle now sws n (s : schedState W) :
  windows_ok now (fired s) sws →
  (∀ sw, sw ∈ sws → due_fire now (fired s !! scheduleKey sw) sw = None) → tick_all now sws n s = (s, n, Ok tt).
Proof.
  induction sws as [|sw sws IH]; intros Hw Hd; simpl; [done|].
  assert (tick_one now sw s = (s, Ok false)) as ->.
  { unfold tick_one. pose proof (Hd sw (list_elem_of_here _ _)) as E. unfold due_fire in E.
    destruct (cron_parse _) as [sched|]; [|done].
    destruct (latest_fire_spec sched now _ (Hw sw (list_elem_of_here _ _))) as [[-> _]|(t & Et & _)]; [done|].
    by rewrite Et in E. }
  apply IH; intros x Hx; [apply (Hw x)|apply (Hd x)]; by apply list_elem_of_further.
Qed.

(** C26. A tick emits exactly what is due: for schedules with distinct keys, a
    tick that returns without error has handed to the ingestion port, in order,
    one delivery for each schedule with a fire time since its last emitted one
    (or in the last day), made for the latest such fire; it counts them; it
    records per schedule the latest fire up to now, so that nothing is due any
    more, and a second tick at the same time emits nothing and changes nothing. *)
Theorem tick_emits_latest_fires now sws (s s' : schedState W) m :
  NoDup (map scheduleKey sws) → windows_ok now (fired s) sws →
  Tick (Ok sws) now s = (s', m, Ok tt) →
  behind s' = ingest_all (due_deliveries now (fired s) sws) (behind s) ∧
  m = length (due_deliveries now (fired s) sws) ∧
  (∀ sw sched, sw ∈ sws → cron_parse (SwCron sw) = Some sched →
     match fired s' !! scheduleKey sw with
     | Some t => latest_in sched (start_cursor now (fired s !! scheduleKey sw)) now t ∨
                 fired s !! scheduleKey sw = Some t ∧ quiet sched t now
     | None => quiet sched (now - day) now
     end) ∧
  Tick (Ok sws) now s' = (s', 0, Ok tt).
Proof.
  intros Hnd Hw E. simpl in E. destruct (tick_all_ok now sws 0 s s' m Hnd Hw E) as (Hf & Hb & Hm).
  assert (∀ sw, sw ∈ sws → fired s' !! scheduleKey sw = record_fire now (fired s) sw !! scheduleKey sw) as Hl.
  { intros sw Hin. rewrite Hf. by apply record_fold_lookup. }
  split_and!; [done..| |].
  - intros sw sched Hin Hs. rewrite Hl by done. by apply record_fire_settled; [apply Hw|].
  - apply tick_all_idle; intros sw Hin; rewrite Hl by done; by apply settled_not_due, Hw.
Qed.
End tick.

(** ** Hourly and daily workflows *)

Section witness.
#[local] Existing Instance ascii_unicode.

(** A schedule fires at the multiples of a number of minutes. *)
#[local] Instance every : Cron := {|
  Sched := positive;
  cron_parse := fun c => if bool_decide (c = "hourly") then Some 60%positive
                         else if bool_decide (c = "daily") then Some 1440%positive else None;
  cron_next := fun p t => let step := (Z.pos p * minute)%Z in Some ((t / step + 1) * step)%Z;
  rfc3339 := pretty
|}.

#[local] Instance every_laws : CronLaws.
Proof.
  refine {| fires := fun (p : @Sched every) n => (n mod (Z.pos p * minute) = 0)%Z |}.
  - intros p t n [= <-]. set (step := (Z.pos p * minute)%Z). assert (0 < step)%Z by (unfold step, minute; lia).
    pose proof (Z.mul_succ_div_gt t step ltac:(lia)). pose proof (Z.mul_div_le t step ltac:(lia)).
    split_and!; [nia|by rewrite Z.mod_mul by lia|].
    intros m [Hlo Hhi] Hm. change (m mod step = 0)%Z in Hm.
    apply Z.mod_divide in Hm as [k ->]; [|lia].
    apply Z.mul_lt_mono_pos_r in Hhi; [|done]. assert (k * step <= t `div` step * step)%Z by (apply Z.mul_le_mono_nonneg_r; lia). lia.
  - done.
  - intros p n Hn. assert (0 < minute)%Z by done. apply Z.mod_divide in Hn as [k ->]; [|lia].
    rewrite Z.mul_assoc. apply Z.mod_mul. lia.
  - intros a b _ _ E. by apply (inj pretty) in E.
Qed.

Definition demo_repo : RepositoryRef := {| RepoProvider := "github"; RepoOwner := "o"; RepoName := "n" |}.

Definition sw_of (file cron : string) : ScheduledWorkflow :=
  {| SwRepository := demo_repo; SwFileName := file; SwRef := "refs/heads/main"; SwCron := cron |}.

Definition demo_sws : list ScheduledWorkflow := [sw_of "a.yml" "hourly"; sw_of "b.yml" "daily"; sw_of "c.yml" "bad"].

#[local] Instance keys_port : IngestPort (list string) := {|
  IngestDelivery := fun d w =>
    if contains (KeyDeliveryID (DKey d)) "broken.yml" then (w, Err ErrNoQueuedJob)
    else (w ++ [KeyDeliveryID (DKey d)], Ok ("run", true)) |}.

Definition start_sched : schedState (list string) := {| fired := ∅; behind := [] |}.

(** Ten days and ninety minutes after the epoch. *)
Definition demo_now : Time := (10 * day + 90 * minute)%Z.

Definition demo_tick := Tick (Ok demo_sws) demo_now start_sched.

Lemma demo_tick_result : demo_tick = (fst (fst demo_tick), 2, Ok tt).
Proof. vm_compute. reflexivity. Qed.

Lemma tick_emits_latest_fires_witness :
  Tick (Ok demo_sws) demo_now (fst (fst demo_tick)) = (fst (fst demo_tick), 0, Ok tt).
Proof.
  apply (tick_emits_latest_fires demo_now demo_sws start_sched (fst (fst demo_tick)) 2).
  - apply (bool_decide_unpack _). vm_compute. exact I.
  - intros sw Hin. unfold start_sched. simpl. rewrite lookup_empty. unfold window_ok, start_cursor, day, minute. lia.
  - exact demo_tick_result.
Defined.

(** A workflow whose ingestion fails ends the tick, so the schedules listed
    after it never fire. *)
Example failing_schedule_starves_the_rest :
  Tick (Ok [sw_of "broken.yml" "hourly"; sw_of "a.yml" "hourly"]) demo_now start_sched =
    (start_sched, 0, Err "schedule: ingest").
Proof. vm_compute. reflexivity. Qed.
End witness.
