(* ===== verification/ExecutorClient.v ===== *)
(** * The executor's client and its main program

    internal/runtime/executor/httpclient/client.go: the six calls to the control
    plane over HTTP.  cmd/executor/main.go: the retried fetch of the plan, the run,
    the exit code.  [net/http] and [encoding/json] are the classes [HttpClient]
    and [ClientJSON]. *)

From stdpp Require Import pretty.
From S2P Require Import Prelude GoStrings GoFloat Http RunModel Identity ExprSyntax ExprEval StepCommands Plans Executor Builtins.

Local Open Scope go_scope.

(** ** Messages *)

(** The codec of the messages. *)
Class ClientJSON := {
  enc_refs : list (string * string) → string;
  enc_result : JobResult → string;
  enc_cache : string → list string → string;
  dec_plan : string → string + Plan;
  dec_secrets : string → string + gmap string string;
  dec_cache : string → string + (bool * string * string);
  dec_upload : string → string + string;
  dec_download : string → string + string
}.

Inductive CallError :=
  | BuildFailed (msg : string)
  | RequestFailed (msg : string)
  | ClientError (op : string) (status : Z) (path : string)
  | DecodeFailed (msg : string).

Definition Retryable (status : Z) : bool := bool_decide (500 <= status)%Z || bool_decide (status = 429)%Z.

Record Client := { BaseURL : string; Token : string }.

Section client.
Context {W : Type} `{HttpClient W} `{ClientJSON}.
Context (c : Client).

(** [do]: [ctx] is the error of the context, with which every request fails;
    [out] reads the answer. *)
Definition do_call {Y} (ctx : option string) (method path : string) (body : option string)
    (out : string → string + Y) (w : W) : W * outcome CallError Y :=
  match request_error method (BaseURL c +:+ path) with
  | Some e => (w, Err (BuildFailed e))
  | None =>
      match ctx with
      | Some e => (w, Err (RequestFailed e))
      | None =>
          match http_do {| ReqMethod := method; ReqURL := BaseURL c +:+ path;
                           ReqAuth := "Bearer " +:+ Token c; ReqAccept := None;
                           ReqContentType := (fun _ => "application/json") <$> body;
                           ReqBody := body |} w with
          | (w', inl e) => (w', Err (RequestFailed e))
          | (w', inr (status, answer)) =>
              if bool_decide (status < 200)%Z || bool_decide (300 <= status)%Z
              then (w', Err (ClientError method status path))
              else match out answer with
                   | inl e => (w', Err (DecodeFailed e))
                   | inr y => (w', Ok y)
                   end
          end
      end
  end.

Definition job_path (id : JobRunID) (rest : string) : string := "/internal/jobruns/" +:+ id +:+ "/" +:+ rest.

Definition FetchPlan ctx (id : JobRunID) : W → W * outcome CallError Plan :=
  do_call ctx "GET" (job_path id "plan") None dec_plan.

Definition ref_pair (r : SecretRef) : string * string := (SRScope r, SRName r).

Definition ClientFetchSecrets ctx (id : JobRunID) (refs : list SecretRef)
    : W → W * outcome CallError (gmap string string) :=
  do_call ctx "POST" (job_path id "secrets") (Some (enc_refs (map ref_pair refs))) dec_secrets.

Definition ReportJob ctx (id : JobRunID) (result : JobResult) : W → W * outcome CallError unit :=
  do_call ctx "POST" (job_path id "status") (Some (enc_result result)) (fun _ => inr tt).

Definition ClientResolveCache ctx (id : JobRunID) (key : string) (restoreKeys : list string)
    : W → W * outcome CallError (bool * string * string) :=
  do_call ctx "POST" (job_path id "cache/resolve") (Some (enc_cache key restoreKeys)) dec_cache.

Definition ClientUploadURL ctx (id : JobRunID) (name : string) : W → W * outcome CallError string :=
  do_call ctx "POST" (job_path id ("artifacts/" +:+ name)) (Some "{}") dec_upload.

Definition ClientDownloadURL ctx (id : JobRunID) (name : string) : W → W * outcome CallError string :=
  do_call ctx "GET" (job_path id ("artifacts/" +:+ name)) None dec_download.

(** ** cmd/executor *)

Definition second : Z := 1000000000.

Definition next_backoff (backoff : Z) : Z :=
  if bool_decide (backoff < 15 * second)%Z then (backoff * 2)%Z else backoff.

(** Whether the loop gives up after this error. *)
Definition final_error (ctx : option string) (e : CallError) : bool :=
  match ctx with
  | Some _ => true
  | None => match e with ClientError _ status _ => negb (Retryable status) | _ => false end
  end.

(** The attempts that are left; [ctxs] is the context's error before each
    attempt, [waits] the delays asked for so far. *)
Fixpoint fetch_loop (id : JobRunID) (ctxs : nat → option string) (attempts n : nat) (backoff : Z)
    (last : outcome CallError Plan) (waits : list Z) (w : W) : W * outcome CallError Plan * list Z :=
  match attempts with
  | O => (w, last, waits)
  | S attempts' =>
      match FetchPlan (ctxs n) id w with
      | (w', Err e) =>
          if final_error (ctxs n) e then (w', Err e, waits)
          else fetch_loop id ctxs attempts' (S n) (next_backoff backoff) (Err e) (waits ++ [backoff]) w'
      | (w', r) => (w', r, waits)
      end
  end.

Definition max_attempts : nat := 10.

Definition fetch_plan_retried (id : JobRunID) (ctxs : nat → option string) (w : W)
    : W * outcome CallError Plan * list Z :=
  fetch_loop id ctxs max_attempts 0 second Panic [] w.

Definition exit_code (r : option RunError) : Z :=
  match r with
  | None => 0
  | Some RunCancelled => 130
  | Some _ => 1
  end.

Definition call_error (e : CallError) : string :=
  match e with
  | BuildFailed m => "control-plane: build request: " +:+ m
  | RequestFailed m => "control-plane: request: " +:+ m
  | ClientError op status path => "control-plane " +:+ op +:+ " " +:+ path +:+ ": status " +:+ pretty status
  | DecodeFailed m => "control-plane: decode response: " +:+ m
  end.

(** What the builtin actions use of the client. *)
Definition text_of {Y} (r : W * outcome CallError Y) : W * (string + Y) :=
  match r with
  | (w, Ok y) => (w, inr y)
  | (w, Err e) => (w, inl (call_error e))
  | (w, Panic) => (w, inl "panic")
  end.

Definition client_cache (ctx : option string) (id : JobRunID) : CacheControl W := {|
  ResolveCache := fun key restoreKeys w => text_of (ClientResolveCache ctx id key restoreKeys w);
  ArtifactUploadURL := fun name w => text_of (ClientUploadURL ctx id name w);
  ArtifactDownloadURL := fun name w => text_of (ClientDownloadURL ctx id name w)
|}.

(** [Engine.report]: a failure is only logged. *)
Definition report (ctx : option string) (id : JobRunID) (f : Finished) (w : W) : W :=
  match Reported f with
  | None => w
  | Some result => fst (ReportJob ctx id result w)
  end.

(** The secrets a run asks for. *)
Definition run_secrets (ctx : option string) (id : JobRunID) (refs : list SecretRef) (w : W)
    : W * outcome string (gmap string string) :=
  match ClientFetchSecrets ctx id refs w with
  | (w', Ok m) => (w', Ok m)
  | (w', Err err) => (w', Err (call_error err))
  | (w', Panic) => (w', Panic)
  end.
End client.

(** The host of a run whose secrets come from [secrets]. *)
Definition host_with (h : Host) (secrets : list SecretRef → outcome string (gmap string string)) : Host := {|
  ctxDone := @ctxDone h; makeMetaDir := @makeMetaDir h; prepareFiles := @prepareFiles h;
  FetchSecrets := secrets; runStepScript := @runStepScript h; Executor.runJS := @Executor.runJS h;
  runHandler := @runHandler h
|}.

(** When the context of the process is done: before each fetch of the plan, at
    the fetch of the secrets, at the report. *)
Record Contexts := { AtFetch : nat → option string; AtSecrets : option string; AtReport : option string }.

Section main.
Context `{Unicode} `{FloatText} `{JSONText} `{IntConv} `{MapRange} {W : Type} `{HttpClient W} `{ClientJSON}.
Context (h : Host) (e : Engine) (ctx : Contexts).
(** What others do to the world while the steps run. *)
Context (meanwhile : W → W).

(** The job's environment is rendered before the secrets are asked for. *)
Definition env_renders (id : JobRunID) (p : Plan) : bool :=
  is_ok (render_pairs (jobEnv e p) (range_map (start_env e id p)) (start_env e id p)).

(** [Engine.Run] with its calls: the secrets, when the plan has references,
    then the steps, then the report. *)
Definition engine_run (c : Client) (id : JobRunID) (p : Plan) (w : W) : W * Finished :=
  let f := @Run _ _ _ _ _ (host_with h (fun refs => snd (run_secrets c (AtSecrets ctx) id refs w))) e id p in
  let w1 := if env_renders id p && bool_decide (0 < length (PSecretRefs p))
            then fst (run_secrets c (AtSecrets ctx) id (PSecretRefs p) w) else w in
  (report c (AtReport ctx) id f (meanwhile w1), f).

(** [main] after the flags: the exit code. *)
Definition executor_main (controlPlane : string) (id : JobRunID) (token : option string) (w : W) : W * Z :=
  if bool_decide (id = "") then (w, 2%Z)
  else match token with
       | None => (w, 1%Z)
       | Some token =>
           let c := {| BaseURL := controlPlane; Token := token |} in
           match fetch_plan_retried c id (AtFetch ctx) w with
           | (w1, Ok p, _) => let '(w2, f) := engine_run c id p w1 in (w2, exit_code (RunErr f))
           | (w1, _, _) => (w1, 1%Z)
           end
       end.
End main.
