(* ===== verification/ExecutorServer.v ===== *)
(** * The executor against the server

    The client of [ExecutorClient] connected to the handlers of [ServerApi]: a
    request is bound to an endpoint by the router and the decoders (the class
    [Wire]), served, and its answer encoded.  The calls of the client are then the
    handlers, and a run of the executor ends the job as its exit code says. *)

From Stdlib Require Import Ascii.
From S2P Require Import Prelude GoStrings GoFloat RunModel SchedulerPort MemoryStore StoreInvariant StoreOps Scheduler SchedulerMemory StoreLifecycle.
From S2P Require Import Identity Authorization ExprSyntax ExprEval Plans Reports ObjectStore Server ServerConditions ServerApi ServerApiTheorems.
From S2P Require Import FilePath Http Executor ExecutorTheorems ExecutorClient.

Local Open Scope go_scope.

(** ** The wire *)

(** Requests as the server's router and decoders bind them, and the encoder of
    the answers. *)
Class Wire := {
  url_error : string → string → option string;
  bind : HttpRequest → option Endpoint;
  enc_body : Body → string;
  text : string → Prop;
  plan_text : Plan → Prop
}.

(** An identifier that needs no escaping in a URL. *)
Definition plain_id (id : string) : Prop :=
  id ≠ "" ∧ Forall (fun c => is_digit c || is_upper c || is_lower c = true) (String.list_ascii_of_string id).

Definition as_ref (r : SecretRef) : Ref := {| RefScope := SRScope r; RefName := SRName r |}.

Definition request (c : Client) (method path : string) (body : option string) : HttpRequest := {|
  ReqMethod := method; ReqURL := BaseURL c +:+ path; ReqAuth := "Bearer " +:+ Token c; ReqAccept := None;
  ReqContentType := (fun _ => "application/json") <$> body; ReqBody := body |}.

(** What is relied on of the router, [net/http] and [encoding/json]: the routes
    bind the paths the client builds, and what is valid UTF-8 ([text],
    [plan_text]) is decoded as it was encoded. *)
Class WireLaws `{Wire} `{ClientJSON} (base : string) := {
  law_url : ∀ id method rest, plain_id id → url_error method (base +:+ job_path id rest) = None;
  law_bind_plan : ∀ t id, plain_id id →
    bind (request {| BaseURL := base; Token := t |} "GET" (job_path id "plan") None) = Some (EPlan id);
  law_bind_secrets : ∀ t id refs, plain_id id → Forall (fun r => text (SRScope r) ∧ text (SRName r)) refs →
    bind (request {| BaseURL := base; Token := t |} "POST" (job_path id "secrets") (Some (enc_refs (map ref_pair refs)))) =
      Some (ESecrets id (Some (map as_ref refs)));
  law_bind_status : ∀ t id r, plain_id id →
    bind (request {| BaseURL := base; Token := t |} "POST" (job_path id "status") (Some (enc_result r))) =
      Some (EStatus id (Some (Success r)));
  law_dec_plan : ∀ p, plan_text p → dec_plan (enc_body (BPlan p)) = inr p;
  law_dec_secrets : ∀ m, map_Forall (fun k v => text k ∧ text v) m → dec_secrets (enc_body (BSecrets m)) = inr m
}.

Section link.
Context `{Unicode} `{Sha256} {D A X E : Type} `{DurableStore D} `{SecretStore X} `{Wire}.
Context (detailsBase : string) (hasStore : bool) (dev : gmap string string) (s3 : option ObjectClient).
Context (verify : string → outcome E Identity) (now : Time).

Abbreviation St := (server D A * X)%type.

(** A request that no route takes is not found; a panic of a handler closes
    the connection. *)
Definition link_do (r : HttpRequest) (s : St) : St * (string + (Z * string)) :=
  match bind r with
  | None => (s, inr (404%Z, "404 page not found"))
  | Some e =>
      match serve detailsBase hasStore dev s3 verify now (ReqAuth r) e s with
      | (s', Ok (JSON b)) => (s', inr (200%Z, enc_body b))
      | (s', Ok (HttpError status msg)) => (s', inr (Z.of_nat status, msg))
      | (s', _) => (s', inl "EOF")
      end
  end.

#[local] Instance link : HttpClient St := { request_error := url_error; http_do := link_do }.

Context `{ClientJSON} (base : string) `{!WireLaws base}.

(** What the client makes of the server's reply. *)
Definition answered {Y} (method path : string) (out : string → string + Y) (r : outcome error Reply) : outcome CallError Y :=
  match r with
  | Ok (JSON b) => match out (enc_body b) with inl e => Err (DecodeFailed e) | inr y => Ok y end
  | Ok (HttpError status msg) =>
      if bool_decide (200 ≤ status < 300)
      then match out msg with inl e => Err (DecodeFailed e) | inr y => Ok y end
      else Err (ClientError method (Z.of_nat status) path)
  | _ => Err (RequestFailed "EOF")
  end.

Lemma do_call_served {Y} t id method rest body (out : string → string + Y) e (s : St) :
  let c := {| BaseURL := base; Token := t |} in
  plain_id id → bind (request c method (job_path id rest) body) = Some e →
  let '(s', r) := serve detailsBase hasStore dev s3 verify now ("Bearer " +:+ t) e s in
  do_call c None method (job_path id rest) body out s = (s', answered method (job_path id rest) out r).
Proof.
  intros c Hid Hb. unfold do_call. change (@request_error _ link) with (@url_error _). simpl BaseURL.
  rewrite law_url by done. change (@http_do _ link) with link_do. unfold link_do.
  unfold request in Hb. simpl in Hb |- *. rewrite Hb. simpl.
  destruct (serve _ _ _ _ _ _ _ _ s) as [s' [[status msg|b]|err|]]; simpl; [|by destruct (out (enc_body b))|done..].
  destruct (decide (200 ≤ status < 300)) as [Hr|Hr].
  - rewrite (bool_decide_eq_true_2 (200 ≤ status < 300)) by done.
    rewrite !bool_decide_eq_false_2 by lia. simpl. by destruct (out msg).
  - rewrite (bool_decide_eq_false_2 (200 ≤ status < 300)) by done.
    destruct (bool_decide (Z.of_nat status < 200)%Z) eqn:Hlo; [done|]. breflect.
    by rewrite bool_decide_eq_true_2 by lia.
Qed.
End link.

(** ** The calls *)

Section calls.
Context `{Unicode} `{Sha256} `{MemoryEnv} `{!MemoryEnvOk} {A X E : Type} `{SecretStore X} `{Wire} `{ClientJSON}.
Context (detailsBase : string) (hasStore : bool) (dev : gmap string string) (s3 : option ObjectClient).
Context (verify : string → outcome E Identity) (now : Time) (base : string) `{!WireLaws base}.

Abbreviation St := (server store A * X)%type.
#[local] Instance mem_link : HttpClient St := link detailsBase hasStore dev s3 verify now.

Context (t : string) (ident : Identity) (id : JobRunID).
Abbreviation c := {| BaseURL := base; Token := t |}.

(** The token is that of the job's executor. *)
Record executor_token : Prop := {
  et_plain : plain_id id;
  et_verified : verify t = Ok ident;
  et_bound : IdJobRunID ident = id;
  et_plan : HasScope ident ScopePlanRead = true;
  et_secrets : HasScope ident ScopeSecretsRead = true;
  et_status : HasScope ident ScopeStatusWrite = true
}.

Context (Htok : executor_token).

Lemma auth_token next (s : St) : auth verify ("Bearer " +:+ t) next s = next (Some ident) s.
Proof.
  unfold auth. rewrite has_prefix_app. simpl negb. cbn iota.
  unfold trim_prefix. rewrite has_prefix_app, str_drop_app. by rewrite (et_verified Htok).
Qed.

Lemma onJob_token k (s : St) : onJob id (Some ident) k s = k ident s.
Proof.
  unfold onJob, jobFromPath, AuthorizeExecution. destruct Htok as [[Hne _] _ Hb _ _ _].
  rewrite bool_decide_eq_false_2 by done. by rewrite bool_decide_eq_false_2 by (rewrite Hb; auto).
Qed.

(** The plan the client gets is the stored one. *)
Lemma FetchPlan_served (s : St) :
  FetchPlan c None id s =
    (s, match splans (fst s) !! id with
        | None => Err (ClientError "GET" 404 (job_path id "plan"))
        | Some p => match dec_plan (enc_body (BPlan p)) with inl e => Err (DecodeFailed e) | inr y => Ok y end
        end).
Proof.
  pose proof (do_call_served detailsBase hasStore dev s3 verify now base t id "GET" "plan" None dec_plan _ s
    (et_plain Htok) (law_bind_plan t id (et_plain Htok))) as Hd.
  cbn [serve] in Hd. rewrite auth_token in Hd. unfold handlePlan in Hd. rewrite onJob_token in Hd.
  rewrite (et_plan Htok) in Hd. change (negb true) with false in Hd. cbv beta iota in Hd.
  unfold orReply, getPlan, GetPlan, fromOutcome in Hd. cbv beta in Hd. unfold FetchPlan.
  destruct (splans (fst s) !! id) as [p|]; exact Hd.
Qed.

(** A report closes the job, and touches no other. *)
Lemma ReportJob_served r (s : St) j :
  reachable (sdurable (fst s)) → jobs (sdurable (fst s)) !! id = Some j →
  ∃ s' j', ReportJob c None id r s = (s', Ok tt) ∧
    jobs (sdurable (fst s')) !! id = Some j' ∧
    JStatus j' = project (JStatus j) (if Success r then PhaseSucceeded else PhaseFailed) ∧
    (∀ id', id' ≠ id → jobs (sdurable (fst s')) !! id' = jobs (sdurable (fst s)) !! id').
Proof.
  intros Hr Hj. set (ph := if Success r then PhaseSucceeded else PhaseFailed).
  destruct (apply_observed_job _ id j ph now Hr Hj) as (d & j' & Ha & Hj' & Hst & _ & Hoth & _).
  pose proof (do_call_served detailsBase hasStore dev s3 verify now base t id "POST" "status" (Some (enc_result r))
    (fun _ => inr tt) _ s (et_plain Htok) (law_bind_status t id r (et_plain Htok))) as Hd.
  cbn [serve] in Hd. rewrite auth_token in Hd. unfold handleStatus in Hd. rewrite onJob_token in Hd.
  rewrite (et_status Htok) in Hd. change (negb true) with false in Hd. cbv beta iota in Hd. fold ph in Hd.
  unfold project_and_report, orReply, onServer, projectObserved, onD, Project, mapErr, mbind in Hd. simpl in Hd.
  rewrite Ha in Hd. simpl in Hd.
  destruct (reportCheck_frame detailsBase id (with_sdurable d (fst s))) as (v' & Hrep & Hv' & _).
  rewrite Hrep in Hd. simpl in Hd. eexists _, j'. split; [exact Hd|]. simpl. rewrite Hv'. by split_and!.
Qed.

(** Asking for the secrets leaves the server as it is. *)
Lemma resolve_secrets_frame rs out (s : St) : fst (fst (resolve_secrets hasStore dev rs out s)) = fst s.
Proof.
  revert out s. induction rs as [|r rs IH]; intros out s; simpl; [done|].
  unfold mbind, resolve_secret, onSecrets. destruct hasStore; [|apply IH].
  destruct (GetSecret _ _ (snd s)) as [x [v|e|]]; simpl; [by rewrite IH..|done].
Qed.

Lemma run_secrets_frame refs (s : St) :
  Forall (fun r => text (SRScope r) ∧ text (SRName r)) refs → fst (fst (run_secrets c None id refs s)) = fst s.
Proof.
  intros Hrefs.
  pose proof (do_call_served detailsBase hasStore dev s3 verify now base t id "POST" "secrets"
    (Some (enc_refs (map ref_pair refs))) dec_secrets _ s (et_plain Htok)
    (law_bind_secrets t id refs (et_plain Htok) Hrefs)) as Hd.
  cbn [serve] in Hd. rewrite auth_token in Hd. unfold handleSecrets in Hd. rewrite onJob_token in Hd.
  rewrite (et_secrets Htok) in Hd. change (negb true) with false in Hd. cbv beta iota in Hd.
  unfold orReply, getPlan, GetPlan, fromOutcome in Hd. cbv beta in Hd.
  assert (∀ s' r, (s', r) = ClientFetchSecrets c None id refs s → fst s' = fst s → 
    fst (fst (run_secrets c None id refs s)) = fst s) as Hrun.
  { intros s' r Er Hs. unfold run_secrets. rewrite <-Er. by destruct r. }
  destruct (splans (fst s) !! id) as [p|]; [|by eapply Hrun; [symmetry; exact Hd|]].
  unfold mbind in Hd.
  match type of Hd with context [resolve_secrets hasStore dev ?l ∅ s] =>
    pose proof (resolve_secrets_frame l ∅ s) as Hf end.
  destruct (resolve_secrets _ _ _ _ s) as [s' [m|e|]]; by eapply Hrun; [symmetry; exact Hd|].
Qed.
End calls.

(** A call whose context is done is not sent. *)
Lemma do_call_done `{HttpClient W} {Y} (cl : Client) m method path body (out : string → string + Y) (w : W) :
  ∃ err, do_call cl (Some m) method path body out w = (w, Err err).
Proof. unfold do_call. destruct (request_error _ _); by eexists. Qed.

Lemma run_secrets_done `{HttpClient W} `{ClientJSON} (cl : Client) m id refs (w : W) :
  fst (run_secrets cl (Some m) id refs w) = w.
Proof.
  unfold run_secrets, ClientFetchSecrets.
  match goal with |- context [do_call ?c _ ?me ?pa ?b ?o w] =>
    by destruct (do_call_done c m me pa b o w) as [err ->] end.
Qed.

Lemma report_done `{HttpClient W} `{ClientJSON} (cl : Client) m id f (w : W) : report cl (Some m) id f w = w.
Proof.
  unfold report, ReportJob. destruct (Reported f); [|done].
  match goal with |- context [do_call ?c _ ?me ?pa ?b ?o w] =>
    by destruct (do_call_done c m me pa b o w) as [err ->] end.
Qed.

Lemma fetch_plan_done `{HttpClient W} `{ClientJSON} (cl : Client) m id ctxs (w : W) :
  ctxs 0 = Some m → ∃ err, fetch_plan_retried cl id ctxs w = (w, Err err, []).
Proof.
  intros Hc. unfold fetch_plan_retried, max_attempts. cbn [fetch_loop]. rewrite Hc. unfold FetchPlan.
  match goal with |- context [do_call ?c _ ?me ?pa ?b ?o w] =>
    destruct (do_call_done c m me pa b o w) as [err ->] end. by exists err.
Qed.

(** ** The token of a job *)

(** [Server.MintJobToken]. *)
Definition job_identity (now : Time) (id : JobRunID) : Identity := {|
  IdAudience := Audience; IdNamespace := "forgelet-jobs"; IdPodUID := "pod-" +:+ id; IdJobRunID := id;
  IdScopes := [ScopePlanRead; ScopeSecretsRead; ScopeStatusWrite]; IdTokenID := "";
  IdIssuedAt := now; IdExpiresAt := (now + MaxTTL)%Z |}.

Definition MintJobToken `{TokenCodec} (key : string) (now : Time) (rng : outcome string string) (id : JobRunID)
    : outcome IdentityError string :=
  Issue key now now rng (job_identity now id).

Lemma plain_ascii s : Forall (fun c => is_digit c || is_upper c || is_lower c = true) (String.list_ascii_of_string s) → all_ascii s = true.
Proof.
  induction s as [|c s IH]; [done|]. simpl. intros [Hc Hs]%Forall_cons. rewrite IH by done. rewrite andb_true_r.
  unfold is_digit, is_upper, is_lower, in_range in Hc. unfold ascii_byte.
  destruct c as [[] [] [] [] [] [] [] []]; done.
Qed.

(** A minted token is its job's executor token until it expires. *)
Lemma minted_token `{TokenCodecLaws} key minted rng id raw now skew :
  plain_id id → MintJobToken key minted rng id = Ok raw → (∀ tid, rng = Ok tid → all_ascii tid = true) →
  (0 <= skew)%Z → (minted <= now < minted + MaxTTL)%Z →
  ∃ ident, executor_token (VerifyLocal key now skew) raw ident id.
Proof.
  intros Hid Hm Hrng Hskew Hnow.
  destruct (issued_verifies key minted minted rng (job_identity minted id) raw Hm Hrng) as [tid Hv].
  { destruct Hid as [_ Hid]. apply plain_ascii in Hid. unfold ascii_claims. simpl. by rewrite Hid. }
  cbv zeta in Hv. exists (fill_claims minted tid (job_identity minted id)). split; try done.
  rewrite Hv. rewrite bool_decide_eq_false_2 by (simpl; lia). rewrite bool_decide_eq_false_2; [done|].
  simpl. case_bool_decide; lia.
Qed.

(** ** A run of the executor *)

(** The delays of the retried fetch. *)
Fixpoint backoffs (n : nat) (b : Z) : list Z :=
  match n with O => [] | S n' => b :: backoffs n' (next_backoff b) end.

Lemma fetch_loop_waits `{HttpClient W} `{ClientJSON} c id ctxs attempts n b last waits (w : W) :
  let '(_, r, waits') := fetch_loop c id ctxs attempts n b last waits w in
  waits' `prefix_of` waits ++ backoffs attempts b ∧ (0 < attempts → r ≠ Panic ∨ ∃ w m, snd (FetchPlan c (ctxs m) id w) = Panic).
Proof.
  revert n b last waits w. induction attempts as [|k IH]; intros n b last waits w; simpl.
  { split; [by rewrite app_nil_r|lia]. }
  destruct (FetchPlan c (ctxs n) id w) as [w' [p|e|]] eqn:Ef.
  - split; [by apply prefix_app_r|]. by left.
  - destruct (final_error (ctxs n) e); [split; [by apply prefix_app_r|by left]|].
    specialize (IH (S n) (next_backoff b) (Err e) (waits ++ [b]) w').
    destruct k as [|k]; [split; [by simpl|by left]|].
    destruct (fetch_loop _ _ _ (S k) _ _ _ _ w') as [[w2 r] ws]. destruct IH as [Hp Hr].
    split; [by rewrite <-app_assoc in Hp|auto with lia].
  - split; [by apply prefix_app_r|]. right. exists w, n. by rewrite Ef.
Qed.

Section run.
Context `{Unicode} `{FloatText} `{JSONText} `{IntConv} `{MapRange} `{Sha256} `{MemoryEnv} `{!MemoryEnvOk}.
Context {A X E : Type} `{SecretStore X} `{Wire} `{ClientJSON}.
Context (detailsBase : string) (hasStore : bool) (dev : gmap string string) (s3 : option ObjectClient).
Context (verify : string → outcome E Identity) (now : Time) (base : string) `{!WireLaws base}.

Abbreviation St := (server store A * X)%type.
#[local] Instance run_link : HttpClient St := link detailsBase hasStore dev s3 verify now.

Lemma fetch_plan_stored t ident id p ctxs (s : St) :
  executor_token verify t ident id → ctxs 0 = None → splans (fst s) !! id = Some p → plan_text p →
  fetch_plan_retried {| BaseURL := base; Token := t |} id ctxs s = (s, Ok p, []).
Proof.
  intros Htok Hc Hp Ht. unfold fetch_plan_retried, max_attempts. cbn [fetch_loop]. rewrite Hc.
  pose proof (FetchPlan_served detailsBase hasStore dev s3 verify now base t ident id Htok s) as Hf.
  rewrite Hp, law_dec_plan in Hf by done. unfold mem_link in Hf. unfold run_link. by rewrite Hf.
Qed.

Lemma fetch_plan_missing t ident id ctxs (s : St) :
  executor_token verify t ident id → ctxs 0 = None → splans (fst s) !! id = None →
  fetch_plan_retried {| BaseURL := base; Token := t |} id ctxs s =
    (s, Err (ClientError "GET" 404 (job_path id "plan")), []).
Proof.
  intros Htok Hc Hp. unfold fetch_plan_retried, max_attempts. cbn [fetch_loop]. rewrite Hc.
  pose proof (FetchPlan_served detailsBase hasStore dev s3 verify now base t ident id Htok s) as Hf.
  rewrite Hp in Hf. unfold mem_link in Hf. unfold run_link. by rewrite Hf.
Qed.

(** The report of an engine's run says what its error says. *)
Lemma exit_code_zero err : exit_code err = 0%Z ↔ err = None.
Proof. by destruct err as [[]|]. Qed.

Lemma Run_agrees `{Host} e id p :
  let f := Run e id p in
  match Reported f with
  | Some r => exit_code (RunErr f) = 0%Z ↔ Success r = true
  | None => exit_code (RunErr f) = 1%Z ∧ infra_stop p (RunErr f)
  end.
Proof.
  cbv zeta. pose proof (Run_ok e id p) as Hok. cbv zeta in Hok. destruct (Reported (Run e id p)) as [r|].
  - rewrite exit_code_zero. destruct Hok as [_ Hok]. destruct (job_env e id p); [|by destruct Hok as (-> & _ & _ & ->)|done].
    destruct Hok as [(-> & -> & _)|[(-> & _ & ->)|(-> & _ & ->)]]; done.
  - split; [|done]. destruct Hok as (msg & -> & _). done.
Qed.

(** What the executor's process leaves behind, given what its run [f] returned. *)
Definition settled_by (ctx : Contexts) (id : JobRunID) (f : Finished) (code : Z) (before after : St) : Prop :=
  code = exit_code (RunErr f) ∧
  match Reported f, AtReport ctx with
  | Some r, None =>
      (code = 0%Z ↔ Success r = true) ∧
      ∀ j, reachable (sdurable (fst before)) → jobs (sdurable (fst before)) !! id = Some j →
      ∃ j', jobs (sdurable (fst after)) !! id = Some j' ∧
        JStatus j' = project (JStatus j) (if bool_decide (code = 0%Z) then PhaseSucceeded else PhaseFailed) ∧
        ∀ id', id' ≠ id → jobs (sdurable (fst after)) !! id' = jobs (sdurable (fst before)) !! id'
  | Some r, Some _ => (code = 0%Z ↔ Success r = true) ∧ after = before
  | None, _ => code = 1%Z ∧ after = before
  end.

Lemma report_settles ctx t ident id f before :
  executor_token verify t ident id →
  match Reported f with
  | Some r => exit_code (RunErr f) = 0%Z ↔ Success r = true
  | None => exit_code (RunErr f) = 1%Z
  end →
  settled_by ctx id f (exit_code (RunErr f)) before
    (report {| BaseURL := base; Token := t |} (AtReport ctx) id f before).
Proof.
  intros Htok Hf. split; [done|]. destruct (Reported f) as [r|] eqn:Er; [|by unfold report; rewrite Er].
  destruct (AtReport ctx) as [m|]; [by rewrite report_done|]. split; [done|]. intros j Hr Hj.
  unfold report. rewrite Er.
  destruct (ReportJob_served detailsBase hasStore dev s3 verify now base t ident id Htok r before j Hr Hj)
    as (s2 & j' & E2 & Hj' & Hst & Hoth). unfold mem_link in E2. unfold run_link. rewrite E2.
  exists j'. split_and!; [done| |done]. rewrite Hst. f_equal. destruct (Success r) eqn:Hs.
  - by rewrite bool_decide_eq_true_2 by (by apply Hf).
  - rewrite bool_decide_eq_false_2; [done|]. intros Hz%Hf. done.
Qed.

(** C17. What the executor's process did is what the store says.  Run with the
    token of its job against a server that holds the job's plan, the process
    fetches that plan, changes nothing on the server until its report, and exits
    with the code of its run.  If the run has a result and the process's context
    is not done when it is reported, the job's durable status has advanced to
    succeeded exactly as exit code 0 says and to failed otherwise, from whatever
    open or closed status others had moved it to meanwhile, and no other job has
    changed.  Otherwise the report changes nothing: a run whose context is done
    by then — a cancelled one — exits with its code and leaves the job as it
    was, and a run without a result, which exits with 1, is one whose secrets or
    workspace could not be had, or that panicked.  Without a stored plan, or
    with a context that is done from the start, the process exits with 1 and
    changes nothing. *)
Theorem executor_exit_code_settles_job (h : Host) e ctx meanwhile t ident id (s s' : St) code :
  executor_token verify t ident id →
  (∀ p, splans (fst s) !! id = Some p →
     plan_text p ∧ Forall (fun r => text (SRScope r) ∧ text (SRName r)) (PSecretRefs p)) →
  executor_main h e ctx meanwhile base id (Some t) s = (s', code) →
  match AtFetch ctx 0, splans (fst s) !! id with
  | None, Some p =>
      let c := {| BaseURL := base; Token := t |} in
      let hh := host_with h (fun refs => snd (run_secrets c (AtSecrets ctx) id refs s)) in
      let f := @Run _ _ _ _ _ hh e id p in
      ∃ s1, fst s1 = fst s ∧ settled_by ctx id f code (meanwhile s1) s' ∧
        (Reported f = None → @infra_stop hh p (RunErr f))
  | _, _ => s' = s ∧ code = 1%Z
  end.
Proof.
  intros Htok Hplan. unfold executor_main. rewrite bool_decide_eq_false_2 by apply (et_plain _ _ _ _ Htok).
  destruct (AtFetch ctx 0) as [m|] eqn:Hctx.
  { destruct (fetch_plan_done {| BaseURL := base; Token := t |} m id (AtFetch ctx) s Hctx) as [err ->].
    by intros [= <- <-]. }
  destruct (splans (fst s) !! id) as [p|] eqn:Hp.
  2: { rewrite (fetch_plan_missing t ident id (AtFetch ctx) s) by done. by intros [= <- <-]. }
  destruct (Hplan p eq_refl) as [Ht Hrefs].
  rewrite (fetch_plan_stored t ident id p (AtFetch ctx) s) by done. unfold engine_run.
  match goal with |- context [report _ _ _ ?F (meanwhile ?S1)] => set (f := F); set (s1 := S1) end.
  intros [= <- <-]. cbv zeta.
  match eval unfold f in f with @Run _ _ _ _ _ ?hh _ _ _ => pose proof (@Run_agrees hh e id p) as Hagree end.
  cbv zeta in Hagree. fold f in Hagree |- *. exists s1. split_and!.
  - unfold s1. destruct (_ && _); [|done]. destruct (AtSecrets ctx); [by rewrite run_secrets_done|].
    by eapply run_secrets_frame.
  - eapply report_settles; [done|]. destruct (Reported f); [done|by destruct Hagree].
  - intros Hn. rewrite Hn in Hagree. by destruct Hagree.
Qed.
End run.

(** ** A wire *)

Definition step_plan : Plan := {|
  PJobRunID := "idx"; PRepository := demo_repo; PEventName := "push"; PActor := "alice"; PSHA := "abc";
  PRef := "refs/heads/main"; PRunnerClass := "linux"; PEnv := ∅; PSteps := [script_step "a" "" "set"];
  PSecretRefs := [{| SRScope := "repository"; SRName := "TOKEN"; SREnv := "TOKEN" |}]; PTimeoutSecs := 0 |}.

#[local] Instance bit_json : ClientJSON := {|
  enc_refs := fun refs => bits refs;
  enc_result := fun r => bits (Success r);
  enc_cache := fun key keys => bits (key, keys);
  dec_plan := fun s => if bool_decide (s = "plan") then inr step_plan else inl "decode";
  dec_secrets := fun s => or_decode (unbits s);
  dec_cache := fun s => or_decode (unbits s);
  dec_upload := inr;
  dec_download := inr
|}.

Definition bit_bind (r : HttpRequest) : option Endpoint :=
  let body := default "" (ReqBody r) in
  match split_on slash (trim_prefix (ReqURL r) "http://cp/internal/jobruns/") with
  | [id; "plan"] => Some (EPlan id)
  | [id; "secrets"] => Some (ESecrets id (map (fun '(s, n) => {| RefScope := s; RefName := n |}) <$> unbits body))
  | [id; "status"] => Some (EStatus id (unbits body))
  | _ => None
  end.

#[local] Instance bit_wire : Wire := {|
  url_error := fun _ _ => None;
  bind := bit_bind;
  enc_body := fun b => match b with
                       | BPlan _ => "plan"
                       | BSecrets m => bits m
                       | _ => "{}"
                       end;
  text := fun _ => True;
  plan_text := fun p => p = step_plan
|}.

Lemma plain_no_slash id : plain_id id → byte_in slash id = false.
Proof.
  intros [_ Hall]. induction id as [|c id IH]; [done|]. simpl in Hall. apply Forall_cons in Hall as [Hc Hall].
  simpl. rewrite IH by done. rewrite bool_decide_eq_false_2; [done|]. intros Ec. by subst c.
Qed.

Lemma split_job_path id rest :
  plain_id id → byte_in slash rest = false →
  split_on slash (trim_prefix ("http://cp" +:+ job_path id rest) "http://cp/internal/jobruns/") = [id; rest].
Proof.
  intros Hid Hr. unfold job_path, trim_prefix.
  assert ("http://cp" +:+ "/internal/jobruns/" +:+ id +:+ "/" +:+ rest =
          "http://cp/internal/jobruns/" +:+ (id +:+ "/" +:+ rest)) as -> by done.
  rewrite has_prefix_app, str_drop_app.
  change (id +:+ "/" +:+ rest) with (join [id; rest] "/"). apply split_on_join; [done|].
  repeat constructor; [by apply plain_no_slash|done].
Qed.

Lemma split_request t method id rest body :
  plain_id id → byte_in slash rest = false →
  split_on slash (trim_prefix (ReqURL (request {| BaseURL := "http://cp"; Token := t |} method (job_path id rest) body))
    "http://cp/internal/jobruns/") = [id; rest].
Proof. apply split_job_path. Qed.

#[local] Instance bit_laws : WireLaws "http://cp".
Proof.
  split; try done.
  - intros t id Hid. unfold bind, bit_wire, bit_bind. by rewrite split_request.
  - intros t id refs Hid _. unfold bind, bit_wire, bit_bind. rewrite split_request by done.
    change (default "" _) with (bits (map ref_pair refs)). rewrite unbits_bits. simpl. by rewrite map_map.
  - intros t id r Hid. unfold bind, bit_wire, bit_bind. rewrite split_request by done.
    change (default "" _) with (bits (Success r)). by rewrite unbits_bits.
  - intros p ->. done.
  - intros m _. unfold dec_secrets, bit_json. change (enc_body (BSecrets m)) with (bits m). by rewrite unbits_bits.
Qed.

(** ** A job from its plan to its end *)

Section witness.
#[local] Existing Instances ascii_unicode demo_float_text some_order one_sum map_secrets no_json no_int demo_env.

Definition ready_server : server store activeStore :=
  with_splans {[ "idx" := step_plan ]} (server_of demo_created NewActiveStore).

(** The controller sees the pod running while the steps run. *)
Definition pod_starts (s : server store activeStore * gmap string string) :=
  (with_sdurable (exec (OpApplyObserved "idx" PhaseRunning 30) (sdurable (fst s))) (fst s), snd s).

Definition in_time : Contexts := {| AtFetch := fun _ => None; AtSecrets := None; AtReport := None |}.

#[local] Instance demo_link : HttpClient (server store activeStore * gmap string string) :=
  link "http://forgelet" true ∅ None one_token 40.

Definition job_process (ctx : Contexts) :=
  executor_main demo_host demo_engine ctx pod_starts "http://cp" "idx" (Some "tok") (ready_server, vault).

Lemma idx_token : executor_token one_token "tok" idx_identity "idx".
Proof. split; try reflexivity. split; [discriminate|]. by repeat constructor. Qed.

Definition ended := job_process in_time.

Lemma ended_result : ended = (fst ended, 0%Z).
Proof. apply pair_result. vm_compute. reflexivity. Qed.

Lemma executor_exit_code_settles_job_witness : ∃ j', jobs (sdurable (fst (fst ended))) !! "idx" = Some j' ∧ JStatus j' = JobSucceeded.
Proof.
  pose proof (executor_exit_code_settles_job "http://forgelet" true ∅ None one_token 40 "http://cp"
    demo_host demo_engine in_time pod_starts "tok" idx_identity "idx" (ready_server, vault) (fst ended) 0 idx_token) as Hend.
  destruct Hend as (s1 & Hs1 & [_ Hj] & _).
  - intros p [= <-]. split; [done|]. by repeat constructor.
  - exact ended_result.
  - cbn [AtReport in_time] in Hj.
    match type of Hj with match ?R with _ => _ end => destruct R as [r|] eqn:Er end; [|destruct Hj as [Hj _]; discriminate Hj].
    destruct Hj as [_ Hj].
    destruct (jobs (sdurable (fst (pod_starts s1))) !! "idx") as [j|] eqn:Ej.
    2: { simpl in Ej. rewrite Hs1 in Ej. vm_compute in Ej. discriminate Ej. }
    destruct (Hj j) as (j' & Hj' & Hok & _).
    + simpl. rewrite Hs1. unfold reachable. etrans; [exact demo_created_reachable|].
      apply (exec_all_steps [OpApplyObserved "idx" PhaseRunning 30]).
    + reflexivity.
    + exists j'. split; [exact Hj'|]. rewrite Hok. simpl in Ej. rewrite Hs1 in Ej. vm_compute in Ej.
      injection Ej as <-. reflexivity.
Defined.

(** A cancelled run reports with the context that was cancelled: the request
    fails, the failure is logged, and the job stays running on the server. *)
Definition cancelled_host : Host := {|
  ctxDone := fun _ => true; makeMetaDir := None; prepareFiles := fun _ => None;
  FetchSecrets := fun _ => Ok ∅; runStepScript := @runStepScript demo_host;
  Executor.runJS := @Executor.runJS demo_host; runHandler := @runHandler demo_host |}.

Example cancellation_is_not_reported :
  let '(s, code) := executor_main cancelled_host demo_engine
    {| AtFetch := fun _ => None; AtSecrets := None; AtReport := Some "context canceled" |}
    pod_starts "http://cp" "idx" (Some "tok") (ready_server, vault) in
  code = 130%Z ∧ (JStatus <$> jobs (sdurable (fst s)) !! "idx") = Some JobRunning.
Proof. vm_compute. split; reflexivity. Qed.
End witness.
