(* ===== verification/GitHubClients.v ===== *)
(** * The GitHub API clients

    internal/provider/github: auth.go (installation tokens and their cache),
    check.go (the check reporter), content.go and action.go (reading files), and
    the adapter of cmd/server/github.go.  HTTP is [Http.HttpClient]; the JSON
    and YAML codecs and the RSA signature are the classes [GitHubJSON] and [AppKey]. *)

From Stdlib Require Import Ascii.
From stdpp Require Import pretty.
From S2P Require Import Prelude GoStrings Base64 Http RunModel Reports Syntax Globs Plans Server Schedule.

Local Open Scope go_scope.

Definition DefaultBaseURL : string := "https://api.github.com".

(** ** Messages *)

Record checkRun := { CrunID : Z; CrunExternalID : string }.

(** The payload of a check; the optional members are left out when absent. *)
Record CheckPayload := {
  PayName : string;
  PayHeadSHA : string;
  PayExternalID : string;
  PayDetailsURL : string;
  PayStatus : CheckStatus;
  PayConclusion : option CheckConclusion;
  PayStartedAt : option Time;
  PayCompletedAt : option Time
}.

Record ContentEntry := { EntName : string; EntPath : string; EntType : string }.
Record ContentFile := { CfName : string; CfPath : string; CfData : string }.

Class GitHubJSON := {
  enc_jwt_header : string;
  enc_jwt_claims : Z → Z → Z → string;          (** issuer, issued at, expiry *)
  dec_token : string → string + (string * Time);
  enc_check : CheckPayload → string;
  dec_check_runs : string → string + list checkRun;
  dec_default_branch : string → string + string;
  dec_entries : string → string + list ContentEntry;
  dec_file : string → string + (string * string); (** content, encoding *)
  (** the YAML of an action: using, main, steps *)
  unmarshal_action : string → string + (string * string * list CompositeActionStep)
}.

(** PKCS#1 v1.5 over SHA-256 with the app's key. *)
Class AppKey := { sign_rs256 : string → string + string }.

Section clients.
Context `{Unicode} {W : Type} `{HttpClient W} `{GitHubJSON}.

Definition github_accept : option string := Some "application/vnd.github+json".

Definition github_request (method url auth : string) (body : option string) : HttpRequest := {|
  ReqMethod := method; ReqURL := url; ReqAuth := "Bearer " +:+ auth; ReqAccept := github_accept;
  ReqContentType := (fun _ => "application/json") <$> body; ReqBody := body |}.

(** A result with its new world; the error is the text. *)
Abbreviation R Y := (W * (string + Y))%type.

(** ** Installation tokens (auth.go) *)

Record AppAuth := { AppID : Z; InstallationID : Z; AuthBaseURL : string }.

(** The cached token and its expiry. *)
Record TokenCache := { cached : string; expiresAt : Time }.

Definition unix (t : Time) : Z := (t / 1000000000)%Z.

Context `{AppKey}.

Definition appJWT (a : AppAuth) (now : Time) : string + string :=
  let signing := b64_encode enc_jwt_header +:+ "." +:+
                 b64_encode (enc_jwt_claims (AppID a) (unix (now - minute)%Z) (unix (now + 5 * minute)%Z)) in
  match sign_rs256 signing with
  | inl e => inl ("github: sign jwt: " +:+ e)
  | inr sig => inr (signing +:+ "." +:+ b64_encode sig)
  end.

Definition installationToken (a : AppAuth) (now : Time) (w : W) : R (string * Time) :=
  match appJWT a now with
  | inl e => (w, inl e)
  | inr jwt =>
      let url := AuthBaseURL a +:+ "/app/installations/" +:+ pretty (InstallationID a) +:+ "/access_tokens" in
      match request_error "POST" url with
      | Some e => (w, inl ("github: build token request: " +:+ e))
      | None =>
          match http_do (github_request "POST" url jwt None) w with
          | (w', inl e) => (w', inl ("github: token request: " +:+ e))
          | (w', inr (status, body)) =>
              if bool_decide (status ≠ 201%Z) then (w', inl ("github: token endpoint status " +:+ pretty status))
              else match dec_token body with
                   | inl e => (w', inl ("github: decode token response: " +:+ e))
                   | inr (token, expires) =>
                       if bool_decide (token = "") then (w', inl "github: empty installation token")
                       else (w', inr (token, expires))
                   end
          end
      end
  end.

(** [AppAuth.Token]: one refresh a minute before the expiry. *)
Definition AppToken (a : AppAuth) (now : Time) (c : TokenCache) (w : W) : TokenCache * R string :=
  if bool_decide (cached c ≠ "") && bool_decide (now < expiresAt c - minute)%Z then (c, (w, inr (cached c)))
  else match installationToken a now w with
       | (w', inl e) => (c, (w', inl ("github: installation token: " +:+ e)))
       | (w', inr (token, expires)) => ({| cached := token; expiresAt := expires |}, (w', inr token))
       end.

(** ** Checks (check.go) *)

(** Any source of tokens. *)
Context (token_source : W → R string).

Definition redactPath (url : string) : string := hd url (split_on "?"%char url).

Definition checkPayload (check : Check) (sha : string) : CheckPayload := {|
  PayName := CkName check; PayHeadSHA := sha; PayExternalID := CkExternalID check;
  PayDetailsURL := CkDetailsURL check; PayStatus := CkStatus check;
  PayConclusion := match CkStatus check with StatusCompleted => Some (CkConclusion check) | _ => None end;
  PayStartedAt := CkStartedAt check; PayCompletedAt := CkCompletedAt check |}.

Section checks.
Context (base : string).

Definition repo_base (owner name : string) : string := base +:+ "/repos/" +:+ owner +:+ "/" +:+ name.

Definition list_url (owner name sha : string) : string :=
  repo_base owner name +:+ "/commits/" +:+ sha +:+ "/check-runs?per_page=100".

Definition findByExternalID (token owner name sha externalID : string) (w : W) : R (option checkRun) :=
  let url := list_url owner name sha in
  match request_error "GET" url with
  | Some e => (w, inl ("github check: build list request: " +:+ e))
  | None =>
      match http_do (github_request "GET" url token None) w with
      | (w', inl e) => (w', inl ("github check: list for " +:+ externalID +:+ ": " +:+ e))
      | (w', inr (status, body)) =>
          if bool_decide (status ≠ 200%Z) then (w', inl ("github check: list status " +:+ pretty status))
          else match dec_check_runs body with
               | inl e => (w', inl ("github check: decode list response: " +:+ e))
               | inr page => (w', inr (find (fun c => bool_decide (CrunExternalID c = externalID)) page))
               end
      end
  end.

Definition do_check (token method url : string) (payload : CheckPayload) (w : W) : R unit :=
  match request_error method url with
  | Some e => (w, inl ("github check: build request: " +:+ e))
  | None =>
      match http_do (github_request method url token (Some (enc_check payload))) w with
      | (w', inl e) => (w', inl e)
      | (w', inr (status, _)) =>
          if bool_decide (300 <= status)%Z
          then (w', inl ("github check: " +:+ method +:+ " " +:+ redactPath url +:+ " status " +:+ pretty status))
          else (w', inr tt)
      end
  end.

Definition update_url (owner name : string) (id : Z) : string :=
  repo_base owner name +:+ "/check-runs/" +:+ pretty id.

Definition create_url (owner name : string) : string := repo_base owner name +:+ "/check-runs".

(** The update of a listed check, or the creation of a new one. *)
Definition upsert (token owner name : string) (payload : CheckPayload) (existing : option checkRun) (w : W) : R unit :=
  let ext := PayExternalID payload in
  match existing with
  | Some c =>
      match do_check token "PATCH" (update_url owner name (CrunID c)) payload w with
      | (w', inl e) => (w', inl ("github check: update " +:+ ext +:+ ": " +:+ e))
      | r => r
      end
  | None =>
      match do_check token "POST" (create_url owner name) payload w with
      | (w', inl e) => (w', inl ("github check: create " +:+ ext +:+ ": " +:+ e))
      | r => r
      end
  end.

Definition ReportCheck (run : RunRecord) (check : Check) (w : W) : R unit :=
  match token_source w with
  | (w1, inl e) => (w1, inl ("github check: token: " +:+ e))
  | (w1, inr token) =>
      let owner := RepoOwner (EvRepository (REvent run)) in
      let name := RepoName (EvRepository (REvent run)) in
      let sha := EvSHA (REvent run) in
      if bool_decide (owner = "" ∨ name = "") then (w1, inl ("github check: run " +:+ RID run +:+ " has no repository"))
      else if bool_decide (sha = "") then (w1, inl ("github check: run " +:+ RID run +:+ " has no head sha"))
      else match findByExternalID token owner name sha (CkExternalID check) w1 with
           | (w2, inl e) => (w2, inl e)
           | (w2, inr existing) => upsert token owner name (checkPayload check sha) existing w2
           end
  end.

(** ** Content (content.go) *)

Definition getJSON {Y} (url : string) (decode : string → string + Y) (w : W) : R Y :=
  match request_error "GET" url with
  | Some e => (w, inl ("build request: " +:+ e))
  | None =>
      match token_source w with
      | (w1, inl e) => (w1, inl ("token: " +:+ e))
      | (w1, inr token) =>
          match http_do (github_request "GET" url token None) w1 with
          | (w2, inl e) => (w2, inl ("request: " +:+ e))
          | (w2, inr (status, body)) =>
              if bool_decide (status ≠ 200%Z) then (w2, inl ("status " +:+ pretty status))
              else match decode body with
                   | inl e => (w2, inl ("decode: " +:+ e))
                   | inr y => (w2, inr y)
                   end
          end
      end
  end.

Definition DefaultBranch (owner name : string) (w : W) : R string :=
  match getJSON (repo_base owner name) dec_default_branch w with
  | (w', inl e) => (w', inl ("github content: repo info: " +:+ e))
  | (w', inr branch) =>
      if bool_decide (branch = "")
      then (w', inl ("github content: " +:+ owner +:+ "/" +:+ name +:+ " has no default branch"))
      else (w', inr branch)
  end.

Definition decodeContent (encoding content : string) : string + string :=
  if bool_decide (encoding ≠ "base64") then inl ("unsupported encoding " +:+ quote encoding)
  else match std_decode (join (fields content) "") with
       | None => inl "illegal base64 data"
       | Some data => inr data
       end.

Definition content_url (owner name path ref : string) : string :=
  repo_base owner name +:+ "/contents/" +:+ path +:+ "?ref=" +:+ ref.

Definition is_workflow_file (e : ContentEntry) : bool :=
  bool_decide (EntType e = "file") && (has_suffix (EntName e) ".yml" || has_suffix (EntName e) ".yaml").

Fixpoint fetch_entries (owner name ref : string) (es : list ContentEntry) (w : W) : R (list ContentFile) :=
  match es with
  | [] => (w, inr [])
  | e :: rest =>
      if negb (is_workflow_file e) then fetch_entries owner name ref rest w
      else match getJSON (content_url owner name (EntPath e) ref) dec_file w with
           | (w1, inl err) => (w1, inl ("github content: fetch " +:+ EntPath e +:+ ": " +:+ err))
           | (w1, inr (content, encoding)) =>
               match decodeContent encoding content with
               | inl err => (w1, inl ("github content: decode " +:+ EntPath e +:+ ": " +:+ err))
               | inr data =>
                   match fetch_entries owner name ref rest w1 with
                   | (w2, inl err) => (w2, inl err)
                   | (w2, inr fs) => (w2, inr ({| CfName := EntName e; CfPath := EntPath e; CfData := data |} :: fs))
                   end
               end
           end
  end.

Definition WorkflowsDir (owner name ref : string) (w : W) : R (list ContentFile) :=
  match getJSON (content_url owner name ".github/workflows" ref) dec_entries w with
  | (w1, inl e) => (w1, inl ("github content: list workflows: " +:+ e))
  | (w1, inr entries) => fetch_entries owner name ref entries w1
  end.

(** ** Action metadata (action.go) *)

Definition fetchFile (owner repo path ref : string) (w : W) : R string :=
  match getJSON (content_url owner repo path ref) dec_file w with
  | (w1, inl e) => (w1, inl e)
  | (w1, inr (content, encoding)) => (w1, decodeContent encoding content)
  end.

Definition parseActionMeta (data : string) : string + ActionMeta :=
  match unmarshal_action data with
  | inl e => inl ("parse action.yml: " +:+ e)
  | inr (kind, main, steps) => inr {| RunsUsing := to_lower kind; Main := main; MetaSteps := steps |}
  end.

Definition action_candidates (subpath : string) : list string :=
  let dir := if bool_decide (subpath ≠ "") then trim_slashes subpath +:+ "/" else "" in
  map (fun c => dir +:+ c) ["action.yml"; "action.yaml"].

Fixpoint try_candidates (owner repo ref : string) (ps : list string) (lastErr : option string) (w : W) : R ActionMeta :=
  match ps with
  | [] => (w, inl ("github action: " +:+ owner +:+ "/" +:+ repo +:+ "@" +:+ ref +:+ ": " +:+
                   default "action.yml not found" lastErr))
  | p :: rest =>
      match fetchFile owner repo p ref w with
      | (w1, inl e) => try_candidates owner repo ref rest (Some e) w1
      | (w1, inr data) => (w1, parseActionMeta data)
      end
  end.

Definition FetchAction (owner repo ref subpath : string) (w : W) : R ActionMeta :=
  try_candidates owner repo ref (action_candidates subpath) None w.

(** ** The adapter of the server (cmd/server/github.go) *)

Definition FetchWorkflows (repo : RepositoryRef) (ref : string) (w : W) : R (list WorkflowFile) :=
  match WorkflowsDir (RepoOwner repo) (RepoName repo) (TrimRefPrefix ref) w with
  | (w', inl e) => (w', inl e)
  | (w', inr files) => (w', inr (map (fun f => {| FName := CfName f; FData := CfData f |}) files))
  end.
End checks.

(** [parseRepos]: the comma-separated repositories with schedules. *)
Fixpoint parse_repo_parts (parts : list string) : string + list ScheduledRepo :=
  match parts with
  | [] => inr []
  | part :: rest =>
      let part := trim_space part in
      if bool_decide (part = "") then parse_repo_parts rest
      else
        let '(owner, name, ok) := cut part "/" in
        if negb ok || bool_decide (owner = "") || bool_decide (name = "")
        then inl ("invalid -scheduled-repos entry " +:+ quote part +:+ " (want owner/name)")
        else match parse_repo_parts rest with
             | inl e => inl e
             | inr l => inr ({| SrOwner := owner; SrName := name |} :: l)
             end
  end.

Definition parseRepos (flag : string) : string + list ScheduledRepo :=
  if bool_decide (flag = "") then inr [] else parse_repo_parts (split_on ","%char flag).
End clients.
