(* ===== verification/GitHubClientTheorems.v ===== *)
(** * The GitHub clients keep one check per job

    Against an API that lists, creates and updates check runs as documented
    ([ChecksAPI]), reporting is an upsert as long as no two jobs share a check
    name on a commit: however often a job is reported, and whatever answers are
    lost, the commit has at most one check of the job.  Jobs that share a name,
    and commits with more than a page of checks, get a second one.  The
    installation token is never used in its last minute, and workflow files
    arrive as they were encoded. *)

From Stdlib Require Import Ascii.
From stdpp Require Import pretty.
From S2P Require Import Prelude GoStrings Base64 FilePath Http RunModel Reports Syntax Plans Server Schedule GitHubClients.

Local Open Scope go_scope.

(** ** The check runs of a commit *)

Abbreviation commit := (string * string * string)%type.

Definition ext_of (c : Z * CheckPayload) : string := PayExternalID (snd c).

(** A name that is one segment of a URL path. *)
Definition segment (s : string) : Prop := byte_in slash s = false.

Definition name_of (c : Z * CheckPayload) : string := PayName (snd c).

(** No other check of the commit has the name. *)
Definition sole_name (l : list (Z * CheckPayload)) (c : Z * CheckPayload) : Prop :=
  ∀ c', c' ∈ l → name_of c' = name_of c → c' = c.

(** What is relied on of the API: a list has checks of the commit only, and is
    filtered to the latest of each name, so that of at most a hundred checks
    those are listed whose name no other check has; an answered creation
    appends, an answered update replaces, an unanswered one did so or not, and
    nothing else changes. *)
Class ChecksAPI (W : Type) `{HttpClient W} `{GitHubJSON} (base : string) (token_source : W → W * (string + string)) := {
  checks : W → commit → list (Z * CheckPayload);
  law_tokens : ∀ w k, checks (fst (token_source w)) k = checks w k;
  law_list : ∀ t owner name sha w w' r,
    http_do (github_request "GET" (list_url base owner name sha) t None) w = (w', r) →
    segment owner → segment name → segment sha →
    (∀ k, checks w' k = checks w k) ∧
    ∀ body page, r = inr (200%Z, body) → dec_check_runs body = inr page →
      let l := checks w (owner, name, sha) in
      (∀ c, c ∈ page → ∃ p, (CrunID c, p) ∈ l ∧ PayExternalID p = CrunExternalID c) ∧
      (length l ≤ 100 → ∀ id p, (id, p) ∈ l → sole_name l (id, p) →
         ∃ c, c ∈ page ∧ CrunID c = id ∧ CrunExternalID c = PayExternalID p);
  law_create : ∀ t owner name p w w' r,
    http_do (github_request "POST" (create_url base owner name) t (Some (enc_check p))) w = (w', r) →
    segment owner → segment name →
    let k := (owner, name, PayHeadSHA p) in
    let created := ∃ id, id ∉ map fst (checks w k) ∧ checks w' k ≡ₚ (id, p) :: checks w k in
    (∀ k', k' ≠ k → checks w' k' = checks w k') ∧ (checks w' k = checks w k ∨ created) ∧
    ∀ status body, r = inr (status, body) → (status < 300)%Z → created;
  law_update : ∀ t owner name id p w w' r,
    http_do (github_request "PATCH" (update_url base owner name id) t (Some (enc_check p))) w = (w', r) →
    segment owner → segment name →
    let k := (owner, name, PayHeadSHA p) in
    id ∈ map fst (checks w k) →
    let updated := checks w' k = map (fun c => if bool_decide (fst c = id) then (id, p) else c) (checks w k) in
    (∀ k', k' ≠ k → checks w' k' = checks w k') ∧ (checks w' k = checks w k ∨ updated) ∧
    ∀ status body, r = inr (status, body) → (status < 300)%Z → updated
}.

Section upsert.
Context {W : Type} `{HttpClient W} `{GitHubJSON} (base : string) (token_source : W → W * (string + string)).
Context `{!ChecksAPI W base token_source}.

(** The entries of a commit have distinct numbers and external identifiers. *)
Definition distinct (l : list (Z * CheckPayload)) : Prop := NoDup (map fst l) ∧ NoDup (map ext_of l).

Lemma distinct_perm l l' : l ≡ₚ l' → distinct l → distinct l'.
Proof. intros E [H1 H2]. split; [by rewrite <-E|by rewrite <-E]. Qed.

(** Replacing the entry with the number [id] by one with the same external identifier. *)
Definition replace_entry (id : Z) (p : CheckPayload) (l : list (Z * CheckPayload)) :=
  map (fun c => if bool_decide (fst c = id) then (id, p) else c) l.

Lemma replace_keeps id p l :
  (∀ q, (id, q) ∈ l → PayExternalID q = PayExternalID p) →
  map fst (replace_entry id p l) = map fst l ∧ map ext_of (replace_entry id p l) = map ext_of l.
Proof.
  induction l as [|[i q] l IH]; intros Hq; [done|].
  destruct IH as [H1 H2]; [intros q' Hin; apply Hq; by right|].
  unfold replace_entry in *. simpl. case_bool_decide as Hi; simpl; rewrite H1, H2; [|done].
  subst i. split; [done|]. f_equal. symmetry. apply (Hq q). by left.
Qed.

Lemma distinct_replace id p l :
  (∀ q, (id, q) ∈ l → PayExternalID q = PayExternalID p) → distinct l → distinct (replace_entry id p l).
Proof. intros Hq [H1 H2]. destruct (replace_keeps id p l Hq) as [E1 E2]. split; congruence. Qed.

(** The entry of a commit for an external identifier. *)
Definition entries (e : string) (l : list (Z * CheckPayload)) : list (Z * CheckPayload) :=
  filter (fun c => ext_of c = e) l.

Lemma entries_none e l : e ∉ map ext_of l → entries e l = [].
Proof.
  induction l as [|c l IH]; [done|]. cbn [map]. intros [Hc Hn]%not_elem_of_cons.
  unfold entries in *. rewrite filter_cons_False by congruence. by apply IH.
Qed.

Lemma entries_unique e c l : distinct l → c ∈ l → ext_of c = e → entries e l = [c].
Proof.
  intros [_ Hnd]. induction l as [|d l IH]; [by intros ?%not_elem_of_nil|]. simpl in Hnd.
  apply NoDup_cons in Hnd as [Hd Hnd]. intros [->|Hin]%elem_of_cons He.
  - unfold entries. rewrite filter_cons_True by done. f_equal. apply entries_none. by rewrite <-He.
  - unfold entries. rewrite filter_cons_False; [by apply IH|]. intros Ed. apply Hd. rewrite Ed, <-He.
    change @map with @list_fmap. apply list_elem_of_fmap. by exists c.
Qed.

Lemma distinct_ext_inj c c' l : distinct l → c ∈ l → c' ∈ l → ext_of c = ext_of c' → c = c'.
Proof.
  intros Hd Hc Hc' E. pose proof (entries_unique _ c l Hd Hc eq_refl) as E1.
  rewrite (entries_unique _ c' l Hd Hc' (eq_sym E)) in E1. by injection E1.
Qed.

(** Every name on the commit belongs to one job. *)
Definition named (job_of : string → string) (l : list (Z * CheckPayload)) : Prop :=
  ∀ c, c ∈ l → ext_of c = job_of (name_of c).

Lemma named_sole job_of l c : distinct l → named job_of l → c ∈ l → sole_name l c.
Proof.
  intros Hd Hn Hc c' Hc' E. apply (distinct_ext_inj c' c l); try done.
  by rewrite (Hn c' Hc'), (Hn c Hc), E.
Qed.

(** What a find over a page says about the commit. *)
Lemma page_find e page l :
  (∀ c, c ∈ page → ∃ p, (CrunID c, p) ∈ l ∧ PayExternalID p = CrunExternalID c) →
  (∀ id p, (id, p) ∈ l → ∃ c, c ∈ page ∧ CrunID c = id ∧ CrunExternalID c = PayExternalID p) →
  match find (fun c => bool_decide (CrunExternalID c = e)) page with
  | Some c => ∃ q, (CrunID c, q) ∈ l ∧ PayExternalID q = e
  | None => e ∉ map ext_of l
  end.
Proof.
  intros Hs Hc. destruct (find _ page) as [c|] eqn:Ef.
  - apply find_some in Ef as [Hin%list_elem_of_In He]. breflect.
    destruct (Hs c Hin) as (q & Hq & E). exists q. split; [done|congruence].
  - intros He. change @map with @list_fmap in He. apply list_elem_of_fmap in He as ([id q] & -> & Hin).
    destruct (Hc id q Hin) as (d & Hd & _ & E). apply list_elem_of_In in Hd.
    pose proof (find_none _ _ Ef d Hd) as Hn. cbv beta in Hn. breflect. by rewrite E in Hn.
Qed.

Lemma distinct_same_ext id q q' l : distinct l → (id, q) ∈ l → (id, q') ∈ l → q = q'.
Proof.
  intros [Hnd _]. induction l as [|[i r] l IH]; [by intros ?%not_elem_of_nil|]. simpl in Hnd.
  apply NoDup_cons in Hnd as [Hi Hnd]. assert (∀ s, (i, s) ∈ l → False) as Hno.
  { intros s Hs. apply Hi. change @map with @list_fmap. apply list_elem_of_fmap. by exists (i, s). }
  intros [Hq|Hq]%elem_of_cons [Hq'|Hq']%elem_of_cons; simplify_eq; [done|..];
    [by destruct (Hno _ Hq')|by destruct (Hno _ Hq)|by apply IH].
Qed.

(** What a call may do to the commit [k]: keep it, or store the payload. *)
Definition stored (k : commit) (p : CheckPayload) (w w' : W) : Prop :=
  distinct (checks w' k) ∧ ∃ id, entries (PayExternalID p) (checks w' k) = [(id, p)].

Definition call_ok (k : commit) (p : CheckPayload) (w w' : W) (r : string + unit) : Prop :=
  (∀ k', k' ≠ k → checks w' k' = checks w k') ∧
  (checks w' k = checks w k ∨ stored k p w w') ∧
  length (checks w' k) ≤ S (length (checks w k)) ∧
  (∀ c, c ∈ checks w' k → c ∈ checks w k ∨ snd c = p) ∧
  (r = inr tt → stored k p w w').

Lemma do_check_created t owner name p (w : W) :
  segment owner → segment name →
  let k := (owner, name, PayHeadSHA p) in
  distinct (checks w k) → PayExternalID p ∉ map ext_of (checks w k) →
  let '(w', r) := do_check t "POST" (create_url base owner name) p w in call_ok k p w w' r.
Proof.
  intros Ho Hn k [Hd1 Hd2] Hnew. unfold do_check.
  destruct (request_error _ _); [split_and!; try done; [by left|lia|by left]|].
  destruct (http_do _ w) as [w' r] eqn:Eh.
  destruct (law_create t owner name p w w' r Eh Ho Hn) as (Hoth & Hk & Hok). fold k in Hoth, Hk, Hok.
  assert ((∃ id, id ∉ map fst (checks w k) ∧ checks w' k ≡ₚ (id, p) :: checks w k) →
    stored k p w w' ∧ length (checks w' k) ≤ S (length (checks w k)) ∧
    ∀ c, c ∈ checks w' k → c ∈ checks w k ∨ snd c = p) as Hst.
  { intros (id & Hid & Hp). split; [|split; [by rewrite Hp|]].
    2: { intros c. rewrite Hp. intros [->|?]%elem_of_cons; [by right|by left]. }
    assert (distinct (checks w' k)) as Hdist.
    { eapply distinct_perm; [symmetry; exact Hp|]. split; simpl; by apply NoDup_cons. }
    split; [done|]. exists id. apply entries_unique; [done| |done]. rewrite Hp. by left. }
  assert ((checks w' k = checks w k ∨ stored k p w w') ∧ length (checks w' k) ≤ S (length (checks w k)) ∧
    ∀ c, c ∈ checks w' k → c ∈ checks w k ∨ snd c = p) as (H1 & H2 & H3).
  { destruct Hk as [E|E]; [rewrite E; split_and!; [by left|lia|by left]|].
    destruct (Hst E) as (? & ? & ?). by split_and!; [right|..]. }
  destruct r as [e|[status body]]; [by split_and!|].
  case_bool_decide as Hs; [by split_and!|]. split_and!; try done. intros _. apply Hst, (Hok status body); [done|lia].
Qed.

Lemma do_check_updated t owner name id q p (w : W) :
  segment owner → segment name →
  let k := (owner, name, PayHeadSHA p) in
  distinct (checks w k) → (id, q) ∈ checks w k → PayExternalID q = PayExternalID p →
  let '(w', r) := do_check t "PATCH" (update_url base owner name id) p w in call_ok k p w w' r.
Proof.
  intros Ho Hn k Hd Hin Hq. unfold do_check.
  destruct (request_error _ _); [split_and!; try done; [by left|lia|by left]|].
  destruct (http_do _ w) as [w' r] eqn:Eh.
  assert (id ∈ map fst (checks w k)) as Hid.
  { change @map with @list_fmap. apply list_elem_of_fmap. by exists (id, q). }
  destruct (law_update t owner name id p w w' r Eh Ho Hn Hid) as (Hoth & Hk & Hok). fold k in Hoth, Hk, Hok.
  assert (∀ s, (id, s) ∈ checks w k → PayExternalID s = PayExternalID p) as Hsame.
  { intros s Hs. by rewrite (distinct_same_ext id s q (checks w k)). }
  assert (checks w' k = replace_entry id p (checks w k) →
    stored k p w w' ∧ length (checks w' k) ≤ S (length (checks w k)) ∧
    ∀ c, c ∈ checks w' k → c ∈ checks w k ∨ snd c = p) as Hst.
  { intros E. assert (distinct (checks w' k)) as Hdist by (rewrite E; by apply distinct_replace).
    split; [|split; [rewrite E; unfold replace_entry; rewrite length_map; lia|]].
    2: { intros c. rewrite E. unfold replace_entry. change @map with @list_fmap.
         intros (d & -> & Hin')%list_elem_of_fmap. case_bool_decide; [by right|by left]. }
    split; [done|]. exists id. apply entries_unique; [done| |done]. rewrite E. unfold replace_entry.
    change @map with @list_fmap. apply list_elem_of_fmap. exists (id, q). simpl. by rewrite bool_decide_eq_true_2. }
  assert ((checks w' k = checks w k ∨ stored k p w w') ∧ length (checks w' k) ≤ S (length (checks w k)) ∧
    ∀ c, c ∈ checks w' k → c ∈ checks w k ∨ snd c = p) as (H1 & H2 & H3).
  { destruct Hk as [E|E]; [rewrite E; split_and!; [by left|lia|by left]|].
    destruct (Hst E) as (? & ? & ?). by split_and!; [right|..]. }
  destruct r as [e|[status body]]; [by split_and!|].
  case_bool_decide as Hs; [by split_and!|]. split_and!; try done. intros _. apply Hst, (Hok status body); [done|lia].
Qed.

Definition commit_of (run : RunRecord) : commit :=
  (RepoOwner (EvRepository (REvent run)), RepoName (EvRepository (REvent run)), EvSHA (REvent run)).

Definition commit_plain (run : RunRecord) : Prop :=
  let '(o, n, s) := commit_of run in segment o ∧ segment n ∧ segment s.

(** A report that makes no call, or whose list fails, changes nothing. *)
Lemma call_ok_none k p (w w' : W) e : (∀ k', checks w' k' = checks w k') → call_ok k p w w' (inl e).
Proof. intros Hs. split_and!; [auto|left; auto|rewrite Hs; lia|intros c; rewrite Hs; by left|done]. Qed.

Lemma call_ok_from k p (w0 w w' : W) r :
  (∀ k', checks w k' = checks w0 k') → call_ok k p w w' r → call_ok k p w0 w' r.
Proof.
  intros Hs (H1 & H2 & H3 & H4 & H5). rewrite Hs in *. split_and!; [|done..].
  intros k' Hk. rewrite H1 by done. apply Hs.
Qed.

Lemma call_ok_err k p (w w' : W) e e' : call_ok k p w w' (inl e) → call_ok k p w w' (inl e').
Proof. by intros (? & ? & ? & ? & _). Qed.

Lemma ReportCheck_ok job_of run check (w : W) :
  commit_plain run → distinct (checks w (commit_of run)) → named job_of (checks w (commit_of run)) →
  length (checks w (commit_of run)) ≤ 100 →
  let '(w', r) := ReportCheck token_source base run check w in
  call_ok (commit_of run) (checkPayload check (EvSHA (REvent run))) w w' r.
Proof.
  intros (Ho & Hn & Hs) Hd Hnm Hlen. unfold ReportCheck.
  pose proof (law_tokens w) as Htok. destruct (token_source w) as [w1 [e|token]]; simpl in Htok;
    [by apply call_ok_none|].
  case_bool_decide; [by apply call_ok_none|]. case_bool_decide; [by apply call_ok_none|].
  unfold findByExternalID. destruct (request_error _ _); [by apply call_ok_none|].
  destruct (http_do _ w1) as [w2 r2] eqn:El.
  destruct (law_list _ _ _ _ _ _ _ El Ho Hn Hs) as [Hl2 Hpage].
  assert (∀ k', checks w2 k' = checks w k') as Hw2 by (intros k'; by rewrite Hl2).
  destruct r2 as [e|[status body]]; [by apply call_ok_none|].
  case_bool_decide as Hst; [by apply call_ok_none|].
  destruct (dec_check_runs body) as [e|page] eqn:Ed; [by apply call_ok_none|].
  assert (status = 200%Z) as -> by (destruct (decide (status = 200%Z)); congruence).
  destruct (Hpage body page eq_refl Ed) as [Hsound Hcomplete]. rewrite Htok in Hsound, Hcomplete.
  pose proof (page_find (CkExternalID check) page _ Hsound) as Hf.
  specialize (Hf (fun id p Hin => Hcomplete Hlen id p Hin (named_sole job_of _ _ Hd Hnm Hin))).
  set (p := checkPayload check (EvSHA (REvent run))).
  assert (distinct (checks w2 (commit_of run))) as Hd2 by by rewrite Hw2.
  unfold upsert. destruct (find _ page) as [c|].
  - destruct Hf as (q & Hq & He).
    pose proof (do_check_updated token _ _ (CrunID c) q p w2 Ho Hn) as Hu. cbv zeta in Hu.
    specialize (Hu Hd2). rewrite Hw2 in Hu. specialize (Hu Hq He).
    destruct (do_check _ "PATCH" _ p w2) as [w3 [e|[]]]; apply (call_ok_from _ _ w w2); try done; by eapply call_ok_err.
  - pose proof (do_check_created token _ _ p w2 Ho Hn) as Hc. cbv zeta in Hc.
    specialize (Hc Hd2). rewrite Hw2 in Hc. specialize (Hc Hf).
    destruct (do_check _ "POST" _ p w2) as [w3 [e|[]]]; apply (call_ok_from _ _ w w2); try done; by eapply call_ok_err.
Qed.

(** A sequence of reports; the server only logs their errors. *)
Definition report_all (l : list (RunRecord * Check)) (w : W) : W :=
  fold_left (fun w '(run, check) => fst (ReportCheck token_source base run check w)) l w.

(** On every commit at most [n] checks, one per job, and every name [job_of] one job. *)
Definition all_distinct (job_of : commit → string → string) (n : nat) (w : W) : Prop :=
  ∀ k, distinct (checks w k) ∧ length (checks w k) ≤ n ∧ named (job_of k) (checks w k).

(** A report of a job under its own name, for a commit with a plain name. *)
Definition report_named (job_of : commit → string → string) (rc : RunRecord * Check) : Prop :=
  commit_plain (fst rc) ∧ CkExternalID (snd rc) = job_of (commit_of (fst rc)) (CkName (snd rc)).

Lemma ReportCheck_distinct job_of n run check (w : W) :
  report_named job_of (run, check) → n ≤ 100 → all_distinct job_of n w →
  all_distinct job_of (S n) (fst (ReportCheck token_source base run check w)).
Proof.
  intros [Hp Hj] Hn Hw k. simpl in Hp, Hj. destruct (Hw (commit_of run)) as (Hd & Hl & Hnm).
  pose proof (ReportCheck_ok _ run check w Hp Hd Hnm ltac:(lia)) as Hr.
  destruct (ReportCheck token_source base run check w) as [w' r]. destruct Hr as (Hoth & Hk & Hlen & Hnew & _). simpl.
  destruct (decide (k = commit_of run)) as [->|Hne].
  - split_and!; [|lia|]; [destruct Hk as [E|[E _]]; [by rewrite E|done]|].
    intros c Hc. destruct (Hnew c Hc) as [Hold|E]; [by apply Hnm|]. unfold ext_of, name_of. by rewrite E.
  - rewrite Hoth by done. destruct (Hw k) as (? & ? & ?). split_and!; [done|lia|done].
Qed.

Lemma report_all_distinct job_of l n (w : W) :
  Forall (report_named job_of) l → n + length l ≤ 101 → all_distinct job_of n w →
  all_distinct job_of (n + length l) (report_all l w).
Proof.
  revert n w. induction l as [|[run check] l IH]; intros n w Hp Hn Hw; cbn [length] in *.
  { by rewrite Nat.add_0_r. }
  apply Forall_cons in Hp as [Hp1 Hp]. rewrite <-plus_n_Sm. change (S (n + length l)) with (S n + length l).
  unfold report_all. cbn [fold_left]. apply IH; [done|lia|]. apply ReportCheck_distinct; [done|lia|done].
Qed.

End upsert.

(** ** Installation tokens *)

Section tokens.
Context {W : Type} `{HttpClient W} `{GitHubJSON} `{AppKey}.

Definition jwt_window (now : Time) : Z := (unix (now + 5 * minute) - unix (now - minute))%Z.

(** The signed claims span six minutes; GitHub refuses more than ten. *)
Lemma jwt_window_six_minutes now : jwt_window now = 360%Z.
Proof.
  unfold jwt_window, unix, minute. replace (now + 5 * (60 * 1000000000))%Z with (now + 300 * 1000000000)%Z by lia.
  replace (now - 60 * 1000000000)%Z with (now + (-60) * 1000000000)%Z by lia.
  rewrite !Z.div_add by done. lia.
Qed.

(** A token is only served from the cache while it has more than a minute
    left; otherwise one is fetched, and it is cached with the expiry the API gave
    it. A failed fetch keeps the cache and is the error. *)
Theorem token_is_fresh a now c (w : W) c' w' r :
  AppToken a now c w = (c', (w', r)) →
  match r with
  | inr t =>
      (c' = c ∧ w' = w ∧ cached c = t ∧ t ≠ "" ∧ (now < expiresAt c - minute)%Z) ∨
      (∃ exp, installationToken a now w = (w', inr (t, exp)) ∧ t ≠ "" ∧ c' = {| cached := t; expiresAt := exp |})
  | inl _ => c' = c ∧ ∃ e, installationToken a now w = (w', inl e)
  end.
Proof.
  unfold AppToken. destruct (bool_decide (cached c ≠ "") && bool_decide (now < expiresAt c - minute)%Z) eqn:Ec.
  - intros [= <- <- <-]. left. breflect. by split_and!.
  - destruct (installationToken a now w) as [w1 [e|[t exp]]] eqn:Ei; intros [= <- <- <-]; [eauto|].
    right. exists exp. split_and!; try done. intros ->. revert Ei. unfold installationToken.
    repeat (case_match; try done). by intros; simplify_eq.
Qed.
End tokens.

(** ** Contents *)

(** A listing is fetched whole and in order, or not at all. *)
Lemma fetch_entries_all `{Unicode} {W : Type} `{HttpClient W} `{GitHubJSON} token_source base owner name ref es
    (w w' : W) fs :
  fetch_entries token_source base owner name ref es w = (w', inr fs) →
  map CfPath fs = map EntPath (List.filter is_workflow_file es) ∧
  map CfName fs = map EntName (List.filter is_workflow_file es).
Proof.
  revert w fs. induction es as [|e es IH]; intros w fs; simpl; [by intros [= _ <-]|].
  destruct (is_workflow_file e); simpl; [|apply IH].
  destruct (getJSON _ _ _ w) as [w1 [?|[content encoding]]]; [done|].
  destruct (decodeContent encoding content) as [?|data]; [done|].
  destruct (fetch_entries _ _ _ _ _ _ w1) as [w2 [?|fs']] eqn:Ef; [done|]. intros [= -> <-].
  destruct (IH _ _ Ef) as [E1 E2]. simpl. by rewrite E1, E2.
Qed.

(** Files arrive as they were encoded: whatever line breaks and spaces the
    API puts into the encoded text, [decodeContent] gives the bytes back. *)
Theorem content_round_trip `{Unicode} data text :
  all_ascii text = true → strip_space text = std_encode data → decodeContent "base64" text = inr data.
Proof. intros Ha Hs. unfold decodeContent. rewrite join_fields by done. rewrite Hs. by rewrite std_round_trip. Qed.

(** ** An API in memory: the checks of one commit *)

Definition payload_code (p : CheckPayload) :=
  let status := match PayStatus p with StatusQueued => 0 | StatusProgress => 1 | StatusCompleted => 2 end in
  let concl c := match c with ConclusionNone => 0 | ConclusionSuccess => 1 | ConclusionFailure => 2
                            | ConclusionCancelled => 3 | ConclusionSkipped => 4 end in
  (PayName p, PayHeadSHA p, PayExternalID p, PayDetailsURL p, status, concl <$> PayConclusion p,
   PayStartedAt p, PayCompletedAt p).

Definition payload_of '(n, h, e, d, s, c, st, co) : CheckPayload := {|
  PayName := n; PayHeadSHA := h; PayExternalID := e; PayDetailsURL := d;
  PayStatus := match s with 0 => StatusQueued | 1 => StatusProgress | _ => StatusCompleted end;
  PayConclusion := (fun c => match c with 0 => ConclusionNone | 1 => ConclusionSuccess | 2 => ConclusionFailure
                                        | 3 => ConclusionCancelled | _ => ConclusionSkipped end) <$> c;
  PayStartedAt := st; PayCompletedAt := co |}.

Lemma payload_of_code p : payload_of (payload_code p) = p.
Proof. destruct p as [n h e d [] [[]|] st co]; done. Qed.

Definition read_payload (s : string) : option CheckPayload :=
  payload_of <$> (unbits s : option (string * string * string * string * nat * option nat * option Time * option Time)).

Section memory.
#[local] Instance bit_github : GitHubJSON := {|
  enc_jwt_header := "header"; enc_jwt_claims := fun _ _ _ => "claims"; dec_token := fun _ => inl "no token";
  enc_check := fun p => bits (payload_code p);
  dec_check_runs := fun s => or_decode (map (fun '(i, e) => {| CrunID := i; CrunExternalID := e |}) <$> unbits s);
  dec_default_branch := inr; dec_entries := fun _ => inl "no entries"; dec_file := fun _ => inl "no file";
  unmarshal_action := fun _ => inl "no action" |}.

Lemma read_enc p : read_payload (enc_check p) = Some p.
Proof.
  unfold read_payload. change (enc_check p) with (bits (payload_code p)). rewrite unbits_bits.
  change (Some (payload_of (payload_code p)) = Some p). by rewrite payload_of_code.
Qed.

Definition the_base : string := "https://api.github.com".
Definition the_commit : commit := ("o", "n", "abc").
Definition page_size : nat := 100.

Definition new_id (w : list (Z * CheckPayload)) : Z := (1 + fold_right Z.max 0 (map fst w))%Z.

(** The checks that no later one has the name of, as the default filter lists them. *)
Fixpoint latest (w : list (Z * CheckPayload)) : list (Z * CheckPayload) :=
  match w with
  | [] => []
  | c :: w' => if bool_decide (name_of c ∈ map name_of w') then latest w' else c :: latest w'
  end.

Lemma latest_spec w : latest w ⊆ w ∧ length (latest w) ≤ length w.
Proof.
  induction w as [|c w [IH1 IH2]]; [done|]. simpl. case_bool_decide; simpl; (split; [set_solver|lia]).
Qed.

Lemma latest_sole w c : c ∈ w → sole_name w c → c ∈ latest w.
Proof.
  induction w as [|d w IH]; [by intros ?%not_elem_of_nil|]. intros Hin Hs. simpl.
  assert (c ∈ w → c ∈ latest w) as IH'.
  { intros Hw. apply IH; [done|]. intros c' Hc'. apply Hs. by right. }
  apply elem_of_cons in Hin as [->|Hin]; case_bool_decide as Hd; [|by left|by auto|right; by auto].
  apply IH'. change @map with @list_fmap in Hd. apply list_elem_of_fmap in Hd as (c' & E & Hc').
  rewrite <-(Hs c'); [done|by right|done].
Qed.

Definition create_check (r : HttpRequest) (w : list (Z * CheckPayload)) : list (Z * CheckPayload) * (string + (Z * string)) :=
  match read_payload (default "" (ReqBody r)) with
  | Some p => if bool_decide (ReqURL r = create_url the_base "o" "n" ∧ PayHeadSHA p = "abc")
              then (w ++ [(new_id w, p)], inr (201%Z, "")) else (w, inr (404%Z, ""))
  | None => (w, inr (422%Z, ""))
  end.

Definition update_check (r : HttpRequest) (w : list (Z * CheckPayload)) : list (Z * CheckPayload) * (string + (Z * string)) :=
  match read_payload (default "" (ReqBody r)), find (fun c => bool_decide (ReqURL r = update_url the_base "o" "n" (fst c))) w with
  | Some p, Some (id, _) => if bool_decide (PayHeadSHA p = "abc") then (replace_entry id p w, inr (200%Z, ""))
                            else (w, inr (404%Z, ""))
  | _, _ => (w, inr (404%Z, ""))
  end.

#[local] Instance memory_checks : HttpClient (list (Z * CheckPayload)) := {|
  request_error := fun _ _ => None;
  http_do := fun r w =>
    if bool_decide (ReqMethod r = "GET") then
      if bool_decide (ReqURL r = list_url the_base "o" "n" "abc")
      then (w, inr (200%Z, bits (map (fun c => (fst c, ext_of c)) (take page_size (latest w)))))
      else (w, inr (404%Z, ""))
    else if bool_decide (ReqMethod r = "POST") then create_check r w
    else update_check r w |}.

Definition fixed_token (w : list (Z * CheckPayload)) : list (Z * CheckPayload) * (string + string) := (w, inr "ghs_x").

Definition memory_view (w : list (Z * CheckPayload)) (k : commit) : list (Z * CheckPayload) :=
  if bool_decide (k = the_commit) then w else [].

Lemma repo_base_inj o n x o' n' x' :
  segment o → segment n → segment o' → segment n' →
  repo_base the_base o n +:+ String slash x = repo_base the_base o' n' +:+ String slash x' → o = o' ∧ n = n' ∧ x = x'.
Proof.
  unfold segment, repo_base. intros Ho Hn Ho' Hn'. rewrite !app_str_assoc. intros E%app_str_inj_l%app_str_inj_l.
  apply (cut_inj slash) in E as [-> E]; [|done..]. apply (cut_inj slash) in E as [-> ->]; [|done..]. done.
Qed.

Lemma new_id_fresh w : new_id w ∉ map fst w.
Proof.
  assert (∀ l : list Z, Forall (fun x => x <= fold_right Z.max 0 l)%Z l) as Hmax.
  { induction l as [|x l IH]; constructor; simpl; [lia|]. eapply Forall_impl; [exact IH|]. simpl. lia. }
  intros Hin. unfold new_id in Hin. pose proof (Hmax (map fst w)) as Hall. rewrite Forall_forall in Hall.
  specialize (Hall _ Hin). lia.
Qed.

#[local] Instance memory_api : ChecksAPI (list (Z * CheckPayload)) the_base fixed_token.
Proof.
  refine {| checks := memory_view |}.
  - done.
  - intros t owner name sha w w' r E Ho Hn Hs. unfold github_request in E. cbn [http_do memory_checks ReqMethod ReqURL] in E.
    rewrite bool_decide_eq_true_2 in E by done.
    destruct (decide (list_url the_base owner name sha = list_url the_base "o" "n" "abc")) as [Eu|Eu].
    + rewrite bool_decide_eq_true_2 in E by done. injection E as <- <-. split; [done|].
      intros body page [= <-] Hpage l.
      unfold list_url in Eu. apply repo_base_inj in Eu as (-> & -> & Eu); [|done..].
      apply (app_str_inj_l "commits/"), (cut_inj slash sha "abc") in Eu as [-> _]; [|done..].
      assert (l = w) as -> by (unfold l, memory_view; by rewrite bool_decide_eq_true_2).
      cbn [dec_check_runs bit_github] in Hpage. rewrite unbits_bits in Hpage. injection Hpage as <-.
      destruct (latest_spec w) as [Hsub Hle]. split.
      * intros c Hc. rewrite map_map in Hc. change @map with @list_fmap in Hc.
        apply list_elem_of_fmap in Hc as ([id p] & -> & Hin). exists p. split; [|done].
        apply Hsub. rewrite <-(take_drop page_size). apply elem_of_app. by left.
      * intros Hlen id p Hin Hsole. rewrite take_ge by (unfold page_size; lia). rewrite map_map.
        exists {| CrunID := id; CrunExternalID := PayExternalID p |}. split_and!; [|done..].
        change @map with @list_fmap. apply list_elem_of_fmap. exists (id, p). split; [done|]. by apply latest_sole.
    + rewrite bool_decide_eq_false_2 in E by done. injection E as <- <-. split; [done|]. by intros ? ? [=].
  - intros t owner name p w w' r E Ho Hn k created. unfold github_request in E.
    cbn [http_do memory_checks ReqMethod] in E. rewrite bool_decide_eq_false_2, bool_decide_eq_true_2 in E by done.
    unfold create_check in E. cbn [ReqBody ReqURL] in E. change (default "" (Some (enc_check p))) with (enc_check p) in E. rewrite read_enc in E.
    case_bool_decide as Hc.
    + destruct Hc as [Eu Es]. injection E as <- <-. unfold create_url in Eu.
      apply (repo_base_inj owner name "check-runs" "o" "n" "check-runs") in Eu as (-> & -> & _); [|done..].
      assert (k = the_commit) as Ek by (unfold k, the_commit; by rewrite Es).
      assert (created) as Hcr.
      { exists (new_id w). rewrite Ek. unfold memory_view. rewrite bool_decide_eq_true_2 by done.
        split; [apply new_id_fresh|]. by rewrite Permutation_app_comm. }
      split_and!; [|by right|done]. intros k' Hk'. unfold memory_view. by rewrite bool_decide_eq_false_2 by congruence.
    + injection E as <- <-. split_and!; [done|by left|]. intros ? ? [= <- _]. lia.
  - intros t owner name id p w w' r E Ho Hn k Hid updated. unfold github_request in E.
    assert (k = the_commit ∧ id ∈ map fst w) as [Ek Hw].
    { unfold memory_view in Hid. case_bool_decide; [done|by apply not_elem_of_nil in Hid]. }
    cbn [http_do memory_checks ReqMethod] in E. rewrite !bool_decide_eq_false_2 in E by done.
    unfold update_check in E. cbn [ReqBody ReqURL] in E. change (default "" (Some (enc_check p))) with (enc_check p) in E. rewrite read_enc in E.
    unfold k, the_commit in Ek. injection Ek as -> -> Es.
    destruct (find _ w) as [[i q]|] eqn:Ef.
    + apply find_some in Ef as [_ Eu]. cbv beta in Eu. breflect. simpl in Eu.
      unfold update_url in Eu. apply app_str_inj_l, app_str_inj_l in Eu. apply (inj pretty) in Eu as <-.
      rewrite bool_decide_eq_true_2 in E by done. injection E as <- <-.
      assert (updated) as Hu.
      { unfold updated, memory_view, k. rewrite Es. by rewrite bool_decide_eq_true_2. }
      split_and!; [|by right|done]. intros k' Hk'. unfold memory_view.
      rewrite bool_decide_eq_false_2; [done|]. unfold k in Hk'. rewrite Es in Hk'. exact Hk'.
    + injection E as <- <-. split_and!; [done|by left|]. intros ? ? [= <- _]. lia.
Defined.

(** Two jobs of a run, one of them reported twice. *)
Definition check_of (job : string) (st : CheckStatus) : Check := {|
  CkRunID := "r"; CkJobRunID := job; CkName := job; CkExternalID := job; CkDetailsURL := "http://forgelet/runs/r";
  CkStatus := st; CkConclusion := ConclusionSuccess; CkStartedAt := Some 5%Z; CkCompletedAt := None |}.

Definition checked_run : RunRecord := {|
  RID := "r"; RDelivery := {| KeyProvider := "github"; KeyDeliveryID := "d" |};
  REvent := {| EvProvider := "github"; EvName := "push"; EvDeliveryID := "d";
               EvRepository := {| RepoProvider := "github"; RepoOwner := "o"; RepoName := "n" |};
               EvRef := "refs/heads/main"; EvSHA := "abc"; EvActor := "alice" |};
  RStatus := RunRunning; RCreatedAt := 1; RFinishedAt := None |}.

Definition first_reports : list (RunRecord * Check) :=
  [(checked_run, check_of "j1" StatusQueued); (checked_run, check_of "j2" StatusQueued)].

Definition third_report := ReportCheck fixed_token the_base checked_run (check_of "j1" StatusCompleted)
  (report_all the_base fixed_token first_reports []).

Lemma third_report_result :
  ReportCheck fixed_token the_base checked_run (check_of "j1" StatusCompleted)
    (report_all the_base fixed_token first_reports []) = (fst third_report, inr tt).
Proof. vm_compute. reflexivity. Qed.


(** The build jobs of a push run and of a pull request run of one commit share
    their check name. *)
Definition shared_check (job : string) : Check := {|
  CkRunID := "r"; CkJobRunID := job; CkName := "build"; CkExternalID := job; CkDetailsURL := "http://forgelet/runs/r";
  CkStatus := StatusProgress; CkConclusion := ConclusionNone; CkStartedAt := Some 5%Z; CkCompletedAt := None |}.

(** The listing shows only the latest check of the name, so the second report
    of the first job does not find the check of the first report and creates
    another one. *)
Example shared_name_duplicates :
  map ext_of (report_all the_base fixed_token
    [(checked_run, shared_check "push-build"); (checked_run, shared_check "pr-build");
     (checked_run, shared_check "push-build")] []) = ["push-build"; "pr-build"; "push-build"].
Proof. vm_compute. reflexivity. Qed.

(** A commit with more than a hundred checks: the job's check is not on the
    page that is read, and reporting it again creates a second one. *)
Definition many_checks : list (Z * CheckPayload) :=
  map (fun i => (Z.of_nat i, checkPayload (check_of (pretty i) StatusQueued) "abc")) (seq 0 101).

Example page_overflow_duplicates :
  length (entries "100" (fst (ReportCheck fixed_token the_base checked_run (check_of "100" StatusCompleted) many_checks))) = 2.
Proof. vm_compute. reflexivity. Qed.
End memory.

Section token_witness.
#[local] Existing Instances bit_github memory_checks.
#[local] Instance some_key : AppKey := {| sign_rs256 := fun s => inr s |}.

Definition the_app : AppAuth := {| AppID := 1; InstallationID := 2; AuthBaseURL := the_base |}.
Definition warm_cache : TokenCache := {| cached := "ghs_a"; expiresAt := (60 * minute)%Z |}.

Lemma token_is_fresh_witness :
  AppToken the_app (30 * minute) warm_cache [] = (warm_cache, ([], inr "ghs_a")) ∧ (30 * minute < 60 * minute - minute)%Z.
Proof.
  assert (AppToken the_app (30 * minute) warm_cache [] = (warm_cache, ([], inr "ghs_a"))) as E by (vm_compute; reflexivity).
  split; [exact E|]. destruct (token_is_fresh _ _ _ _ _ _ _ E) as [(_ & _ & _ & _ & Hn)|(exp & Hi & _)]; [exact Hn|].
  vm_compute in Hi. discriminate Hi.
Defined.
End token_witness.

Lemma content_round_trip_witness : @decodeContent ascii_unicode "base64" ("aGVs" +:+ nl +:+ "bG8=" +:+ nl) = inr "hello".
Proof. apply (@content_round_trip ascii_unicode "hello"); reflexivity. Defined.
