(* ===== verification/Postgres.v ===== *)
(** * The durable store on PostgreSQL (internal/storage/postgres/store.go, schema.go)

    The three tables of the schema are finite maps from their primary keys, the
    statements of the store are functions on them, and a method is its
    statements in order inside the transaction it opens: an error rolls the
    tables back, and the transactions of concurrent callers run one after the
    other; what READ COMMITTED allows beyond that is in [PostgresIsolation].  The
    clock stands still inside a method, a time stamp column keeps microseconds,
    and the JSON columns hold the values they encode.  Errors of the connection
    and of the types of the columns (a NUL byte in a text, an attempt beyond 32
    bits), which end a method after the same rollback, are left out. *)

From S2P Require Import Prelude GoStrings RunModel SchedulerPort MemoryStore.

Local Open Scope go_scope.

(** ** Tables (schema.go) *)

(** A row of [webhook_deliveries]; [None] is NULL. *)
Record delivery_row := {
  drow_event : Event;
  drow_payload : string;
  drow_run : option RunID;
  drow_received : Time
}.

(** A row of [job_runs]: the columns of the record, and the claim. *)
Record job_row := { jrow : JobRunRecord; jrow_claimed : option Time }.

(** The database, the clock, and the identifiers minted so far. *)
Record pg := {
  pg_deliveries : gmap DeliveryKey delivery_row;
  pg_runs : gmap RunID RunRecord;
  pg_jobs : gmap JobRunID job_row;
  pg_now : Time;
  pg_minted : nat
}.

Definition empty_pg (now : Time) : pg := {|
  pg_deliveries := ∅; pg_runs := ∅; pg_jobs := ∅; pg_now := now; pg_minted := 0 |}.

Definition with_pg_deliveries v (s : pg) : pg :=
  {| pg_deliveries := v; pg_runs := pg_runs s; pg_jobs := pg_jobs s; pg_now := pg_now s; pg_minted := pg_minted s |}.
Definition with_pg_runs v (s : pg) : pg :=
  {| pg_deliveries := pg_deliveries s; pg_runs := v; pg_jobs := pg_jobs s; pg_now := pg_now s; pg_minted := pg_minted s |}.
Definition with_pg_jobs v (s : pg) : pg :=
  {| pg_deliveries := pg_deliveries s; pg_runs := pg_runs s; pg_jobs := v; pg_now := pg_now s; pg_minted := pg_minted s |}.
Definition with_pg_now v (s : pg) : pg :=
  {| pg_deliveries := pg_deliveries s; pg_runs := pg_runs s; pg_jobs := pg_jobs s; pg_now := v; pg_minted := pg_minted s |}.
Definition with_pg_minted v (s : pg) : pg :=
  {| pg_deliveries := pg_deliveries s; pg_runs := pg_runs s; pg_jobs := pg_jobs s; pg_now := pg_now s; pg_minted := v |}.

(** TIMESTAMPTZ: whole microseconds. *)
Definition stamp (t : Time) : Time := (t / 1000 * 1000)%Z.

(** ** Transactions *)

(** The tables as they were; minted identifiers are not given back. *)
Definition rollback (s s' : pg) : pg := with_pg_minted (pg_minted s') s.

Definition in_tx {Y} (body : M pg Y) : M pg Y :=
  fun s => match body s with
           | (s', Ok y) => (s', Ok y)
           | (s', Err e) => (rollback s s', Err e)
           | (s', Panic) => (rollback s s', Panic)
           end.

(** ** Statements *)

Definition unique_violation : error := ErrOther "duplicate key value violates unique constraint".

(** The primary key, and the unique column [delivery_id]. *)
Definition insert_run (r : RunRecord) : M pg unit :=
  fun s =>
    if bool_decide (is_Some (pg_runs s !! RID r)) ||
       existsb (fun p => bool_decide (KeyDeliveryID (RDelivery (snd p)) = KeyDeliveryID (RDelivery r)))
         (map_to_list (pg_runs s))
    then (s, Err (ErrWrap "insert run" unique_violation))
    else (with_pg_runs (<[RID r := r]> (pg_runs s)) s, Ok tt).

(** The primary key, and the reference to the run. *)
Definition insert_job (j : JobRunRecord) : M pg unit :=
  fun s =>
    if bool_decide (is_Some (pg_jobs s !! JID j)) then (s, Err (ErrWrap "insert job" unique_violation))
    else if negb (bool_decide (is_Some (pg_runs s !! JRunID j)))
    then (s, Err (ErrWrap "insert job" (ErrOther "violates foreign key constraint")))
    else (with_pg_jobs (<[JID j := {| jrow := j; jrow_claimed := None |}]> (pg_jobs s)) s, Ok tt).

(** [UPDATE job_runs SET ... WHERE id=$1] *)
Definition update_job (id : JobRunID) (f : job_row → job_row) (s : pg) : pg := with_pg_jobs (alter f id (pg_jobs s)) s.

Definition update_run (id : RunID) (f : RunRecord → RunRecord) (s : pg) : pg := with_pg_runs (alter f id (pg_runs s)) s.

Definition on_record (f : JobRunRecord → JobRunRecord) (r : job_row) : job_row :=
  {| jrow := f (jrow r); jrow_claimed := jrow_claimed r |}.

Definition set_claim (t : option Time) (r : job_row) : job_row := {| jrow := jrow r; jrow_claimed := t |}.

(** [SELECT ... FROM job_runs WHERE p], in the order of the scan. *)
Definition select_jobs (p : JobRunRecord → bool) (s : pg) : list JobRunRecord :=
  List.filter p (map jrow (map snd (map_to_list (pg_jobs s)))).

(** [ORDER BY created_at, id] *)
Definition order_jobs : list JobRunRecord → list JobRunRecord :=
  sort_by (fun a b => job_before (rec_key a) (rec_key b)).

Definition runIn (id : RunID) : M pg RunRecord :=
  fun s => match pg_runs s !! id with
           | None => (s, Err ErrRunNotFound)
           | Some run => (s, Ok run)
           end.

Definition jobIn (id : JobRunID) : M pg JobRunRecord :=
  fun s => match pg_jobs s !! id with
           | None => (s, Err ErrJobRunNotFound)
           | Some row => (s, Ok (jrow row))
           end.

(** ** Deliveries *)

Definition record_of (k : DeliveryKey) (r : delivery_row) : DeliveryRecord := {|
  DRKey := k; DREvent := drow_event r; DRPayload := drow_payload r; DRReceivedAt := drow_received r;
  DRRunID := default "" (drow_run r) |}.

Definition delivery (key : DeliveryKey) : M pg DeliveryRecord :=
  fun s => match pg_deliveries s !! key with
           | None => (s, Err (ErrOther "delivery vanished"))
           | Some r => (s, Ok (record_of key r))
           end.

(** [ON CONFLICT DO NOTHING]; the row count says whether the row is new. *)
Definition pg_RecordDelivery (d : Delivery) : M pg (DeliveryRecord * bool) :=
  fun s =>
    let fresh := negb (bool_decide (is_Some (pg_deliveries s !! DKey d))) in
    let row := {| drow_event := DEvent d; drow_payload := DPayload d; drow_run := None;
                  drow_received := stamp (pg_now s) |} in
    let s1 := if fresh then with_pg_deliveries (<[DKey d := row]> (pg_deliveries s)) s else s in
    (let* rec := delivery (DKey d) in mret (rec, fresh)) s1.

(** ** Runs *)

Section store.
Context `{MemoryEnv}.

Definition mint : M pg string := fun s => (with_pg_minted (S (pg_minted s)) s, Ok (newid (pg_minted s))).

Definition pg_new_job (jobID runID : string) (intent : JobIntent) (now : Time) : JobRunRecord :=
  newJob jobID runID intent (stamp now).

Fixpoint insert_jobs (intents : list JobIntent) (runID : string) (now : Time) : M pg unit :=
  match intents with
  | [] => mret tt
  | intent :: rest =>
      let* jobID := mint in
      let* _ := insert_job (pg_new_job jobID runID intent now) in
      insert_jobs rest runID now
  end.

(** [UPDATE webhook_deliveries SET run_id=$1 WHERE ... AND run_id IS NULL] *)
Definition bind_delivery (k : DeliveryKey) (runID : RunID) (s : pg) : pg :=
  with_pg_deliveries
    (alter (fun r => match drow_run r with
                     | None => {| drow_event := drow_event r; drow_payload := drow_payload r;
                                  drow_run := Some runID; drow_received := drow_received r |}
                     | Some _ => r
                     end) k (pg_deliveries s)) s.

Definition pg_CreateRun (seed : RunSeed) (now : Time) : M pg (RunRecord * bool) :=
  in_tx (fun s =>
    match pg_deliveries s !! SDelivery seed with
    | None => (s, Err (ErrDeliveryNotRecorded (SDelivery seed)))
    | Some row =>
        let existing := default "" (drow_run row) in
        if bool_decide (existing ≠ "") then (let* run := runIn existing in mret (run, false)) s
        else if bool_decide (length (SJobs seed) = 0) then (s, Err (ErrRunHasNoJobs (SDelivery seed)))
        else
          (let* runID := mint in
           let* _ := insert_run (newRun runID seed (stamp now)) in
           let* _ := insert_jobs (SJobs seed) runID now in
           fun s => (bind_delivery (SDelivery seed) runID s, Ok (newRun runID seed now, true))) s
    end).

(** *** The run aggregate *)

Definition run_jobs (runID : RunID) (s : pg) : list JobRunRecord :=
  select_jobs (fun j => bool_decide (JRunID j = runID)) s.

Definition refreshRun (jobID : JobRunID) (now : Time) : M pg unit :=
  fun s =>
    match pg_jobs s !! jobID with
    | None => (s, Err (ErrOther "job run: no rows"))
    | Some row =>
        let runID := JRunID (jrow row) in
        let next := AggregateRunStatus (map JStatus (run_jobs runID s)) in
        match pg_runs s !! runID with
        | None => (s, Err (ErrOther "lock run: no rows"))
        | Some run =>
            if negb (CanAdvanceRun (RStatus run) next) || bool_decide (next = RStatus run) then (s, Ok tt)
            else
              let finished := if run_terminal next && bool_decide (RFinishedAt run = None)
                              then Some (stamp now) else RFinishedAt run in
              (update_run runID (set_run next finished) s, Ok tt)
        end
    end.

(** *** Claims *)

Definition claimLease : Z := (5 * 60 * 1000000000)%Z.

(** [claimed_at IS NULL OR claimed_at < $1 - interval] *)
Definition claimable (now : Time) (r : job_row) : bool :=
  bool_decide (JStatus (jrow r) = JobQueued) &&
  match jrow_claimed r with
  | None => true
  | Some t => bool_decide (t < stamp now - claimLease)%Z
  end.

Definition claim_rows (s : pg) : list (JobRunID * Time) :=
  map (fun p => (fst p, JCreatedAt (jrow (snd p))))
    (List.filter (fun p => claimable (pg_now s) (snd p)) (map_to_list (pg_jobs s))).

Definition claim_ids (s : pg) : list JobRunID := map fst (sort_by job_before (claim_rows s)).

(** Those of the jobs with one of the keys that are its latest attempt. *)
Definition latest_attempts (keys : list string) (jobs : list JobRunRecord) : list JobRunRecord :=
  let siblings := List.filter (fun j => bool_decide (JJobKey j ∈ keys)) jobs in
  List.filter (fun j => forallb (fun k => negb (bool_decide (JJobKey k = JJobKey j)) ||
                                          bool_decide (JAttempt k <= JAttempt j)%Z) siblings) siblings.

Definition dep_verdict (statuses : list JobRunStatus) : depState :=
  if existsb (fun st => negb (bool_decide (st = JobSucceeded)) && job_terminal st) statuses then depsFailed
  else if existsb (fun st => negb (bool_decide (st = JobSucceeded))) statuses then depsBlocked
  else depsReady.

(** The loop of the source stops at the first failed dependency of the scan
    and otherwise remembers an open one, so the order of the scan is immaterial. *)
Definition pg_depState (id : JobRunID) (s : pg) : depState :=
  match pg_jobs s !! id with
  | None => depsReady
  | Some row =>
      let job := jrow row in
      if bool_decide (length (JDependsOn job) = 0) then depsReady
      else
        let statuses := map JStatus (latest_attempts (JDependsOn job) (run_jobs (JRunID job) s)) in
        if negb (bool_decide (length statuses = length (JDependsOn job))) then depsBlocked
        else dep_verdict statuses
  end.

(** [UPDATE ... WHERE id=$1 AND status='queued'] *)
Definition if_queued (f : job_row → job_row) (r : job_row) : job_row :=
  if bool_decide (JStatus (jrow r) = JobQueued) then f r else r.

Definition skip_row (now : Time) : job_row → job_row :=
  if_queued (on_record (fun j => set_times (JStartedAt j) (Some (stamp now)) (set_status JobSkipped j))).

(** The claim of one job, and the job with it; [None]: no row was updated. *)
Definition take_claim (id : JobRunID) : M pg (option JobRunRecord) :=
  fun s =>
    match pg_jobs s !! id with
    | Some row =>
        if bool_decide (JStatus (jrow row) = JobQueued)
        then (update_job id (set_claim (Some (stamp (pg_now s)))) s, Ok (Some (jrow row)))
        else (s, Ok None)
    | None => (s, Ok None)
    end.

Definition has_condition (id : JobRunID) (s : pg) : bool :=
  match pg_jobs s !! id with
  | Some row => bool_decide (JCondition (jrow row) ≠ "")
  | None => false
  end.

Fixpoint pg_claim_loop (ids : list JobRunID) : M pg (option JobRunRecord) :=
  match ids with
  | [] => mret None
  | id :: rest =>
      let claim := let* r := take_claim id in
                   match r with Some job => mret (Some job) | None => pg_claim_loop rest end in
      fun s =>
        match pg_depState id s with
        | depsBlocked => pg_claim_loop rest s
        | depsReady => claim s
        | depsFailed =>
            if has_condition id s then claim s
            else (let* _ := refreshRun id (pg_now s) in pg_claim_loop rest) (update_job id (skip_row (pg_now s)) s)
        end
  end.

(** The sweep is committed also when nothing could be claimed. *)
Definition pg_ClaimNextQueuedJob : M pg JobRunRecord :=
  let* r := in_tx (fun s => pg_claim_loop (claim_ids s) s) in
  match r with
  | Some job => mret job
  | None => mfail ErrNoQueuedJob
  end.

Definition pg_ReleaseClaim (id : JobRunID) : M pg unit := fun s => (update_job id (set_claim None) s, Ok tt).

(** *** Dispatch and observation *)

Definition dispatched_row (obj : ActiveObject) (now : Time) (r : job_row) : job_row :=
  {| jrow := set_active (ObjName obj) (ObjUID obj) (stamp now) (set_status JobDispatched (jrow r));
     jrow_claimed := None |}.

Definition pg_AckDispatched (id : JobRunID) (obj : ActiveObject) (now : Time) : M pg unit :=
  in_tx (
    let* job := jobIn id in
    match JStatus job with
    | JobDispatched =>
        if bool_decide (JActiveName job ≠ "") && bool_decide (JActiveName job ≠ ObjName obj)
        then mfail (ErrAlreadyDispatched id (JActiveName job) (ObjName obj))
        else fun s => (update_job id (dispatched_row obj now) s, Ok tt)
    | JobQueued => fun s => (update_job id (dispatched_row obj now) s, Ok tt)
    | st => mfail (ErrJobNotDispatchable id st)
    end).

(** The columns an observation writes; times that are set stay. *)
Definition pg_observed (target : JobRunStatus) (now : Time) (j : JobRunRecord) : JobRunRecord :=
  let j' := set_status target j in
  match target with
  | JobRunning => set_times (orTime (JStartedAt j) (stamp now)) (JFinishedAt j) j'
  | JobSucceeded | JobFailed | JobSkipped =>
      set_times (orTime (JStartedAt j) (stamp now)) (orTime (JFinishedAt j) (stamp now)) j'
  | _ => j'
  end.

Definition observe_job (id : JobRunID) (job : JobRunRecord) (phase : ObservedPhase) (now : Time) (s : pg) : pg :=
  if job_terminal (JStatus job) then s
  else match JobStatusFromPhase phase with
       | Some target =>
           if CanAdvanceJob (JStatus job) target then update_job id (on_record (pg_observed target now)) s else s
       | None => s
       end.

Definition pg_ApplyObserved (id : JobRunID) (phase : ObservedPhase) (now : Time) : M pg unit :=
  in_tx (let* job := jobIn id in fun s => refreshRun id now (observe_job id job phase now s)).

(** *** Cancellation *)

Definition cancel_row (now : Time) (r : job_row) : job_row :=
  match TransitionJob (JStatus (jrow r)) JobCancelled with
  | (next, None) => {| jrow := set_times (JStartedAt (jrow r)) (Some (stamp now)) (set_status next (jrow r));
                       jrow_claimed := None |}
  | (_, Some _) => r
  end.

(** Every job of the run is visited once. *)
Definition cancel_jobs (runID : RunID) (now : Time) (s : pg) : pg :=
  with_pg_jobs ((fun r => if bool_decide (JRunID (jrow r) = runID) then cancel_row now r else r) <$> pg_jobs s) s.

Definition pg_CancelRun (id : RunID) (now : Time) : M pg unit :=
  in_tx (
    let* run := runIn id in
    if run_terminal (RStatus run) then
      if bool_decide (RStatus run = RunCancelled) then mret tt else mfail (ErrRunAlreadyTerminal id (RStatus run))
    else fun s => (update_run id (set_run RunCancelled (Some (stamp now))) (cancel_jobs id now s), Ok tt)).

(** *** Collection and retries *)

Definition pg_gc_ready (s : pg) (j : JobRunRecord) : bool :=
  bool_decide (JActiveCollectedAt j = None) && job_terminal (JStatus j) &&
  match pg_runs s !! JRunID j with Some run => run_terminal (RStatus run) | None => false end.

(** [ORDER BY run_id, id] *)
Definition gc_before (a b : JobRunRecord) : bool :=
  if bool_decide (JRunID a = JRunID b) then str_lt (JID a) (JID b) else str_lt (JRunID a) (JRunID b).

Definition pg_ListGCReadyJobs : M pg (list JobRunRecord) :=
  fun s => (s, Ok (sort_by gc_before (select_jobs (pg_gc_ready s) s))).

Definition pg_MarkCollected (id : JobRunID) (now : Time) : M pg unit :=
  fun s => (update_job id (on_record (fun j => match JActiveCollectedAt j with
                                              | None => set_collected (stamp now) j
                                              | Some _ => j
                                              end)) s, Ok tt).

Definition pg_reopen (runID : RunID) (s : pg) : pg :=
  match pg_runs s !! runID with
  | Some run => if run_terminal (RStatus run) then update_run runID (set_run RunQueued None) s else s
  | None => s
  end.

Definition pg_RerequestJob (id : JobRunID) (now : Time) : M pg JobRunID :=
  in_tx (
    let* orig := jobIn id in
    fun s =>
      match select_jobs (fun j => bool_decide (JRunID j = JRunID orig ∧ is_next_attempt orig j)) s with
      | j :: _ => (s, Ok (JID j))
      | [] =>
          (let* newID := mint in
           let* _ := insert_job (retryJob newID orig (stamp now)) in
           fun s => (pg_reopen (JRunID orig) s, Ok newID)) s
      end).

(** *** Queries *)

Definition pg_ListJobRuns (run : RunID) : M pg (list JobRunRecord) :=
  let* _ := runIn run in fun s => (s, Ok (order_jobs (run_jobs run s))).

Definition queued_rows (s : pg) : list JobRunRecord := select_jobs (fun j => bool_decide (JStatus j = JobQueued)) s.

Definition pg_CountQueuedJobs : M pg nat := fun s => (s, Ok (length (queued_rows s))).

Definition pg_ListQueuedJobs : M pg (list JobRunRecord) := fun s => (s, Ok (order_jobs (queued_rows s))).

#[export] Instance postgres_durable_store : DurableStore pg := {|
  RecordDelivery := pg_RecordDelivery;
  CreateRun := pg_CreateRun;
  GetRun := runIn;
  GetJobRun := jobIn;
  ListJobRuns := pg_ListJobRuns;
  CountQueuedJobs := pg_CountQueuedJobs;
  ListQueuedJobs := pg_ListQueuedJobs;
  ClaimNextQueuedJob := pg_ClaimNextQueuedJob;
  ReleaseClaim := pg_ReleaseClaim;
  AckDispatched := pg_AckDispatched;
  ApplyObserved := pg_ApplyObserved;
  CancelRun := pg_CancelRun;
  ListGCReadyJobs := pg_ListGCReadyJobs;
  MarkCollected := pg_MarkCollected;
  RerequestJob := pg_RerequestJob
|}.
End store.
