(* ===== verification/PostgresSpec.v ===== *)
(** * Invariant of the PostgreSQL store, and the port it implements

    [pg_wf] is what the constraints of the schema and the statements of the
    store keep of its tables; every operation preserves it and only moves job
    rows forward.  The store is an instance of [Scheduler.DurableSpec], so the
    theorems about the use cases hold on PostgreSQL as they do in memory. *)

From S2P Require Import Prelude GoStrings RunModel SchedulerPort MemoryStore StoreInvariant StoreOps Scheduler SchedulerMemory Postgres.

Local Open Scope go_scope.

Implicit Types s : pg.

(** ** The invariant *)

Record pg_wf (s : pg) : Prop := {
  pw_job : ∀ id row, pg_jobs s !! id = Some row → JID (jrow row) = id;
  pw_known : ∀ id row, pg_jobs s !! id = Some row → job_known (JStatus (jrow row)) = true;
  pw_foreign : ∀ id row, pg_jobs s !! id = Some row → is_Some (pg_runs s !! JRunID (jrow row));
  pw_run : ∀ r run, pg_runs s !! r = Some run → RID run = r ∧ r ≠ "";
  pw_bound : ∀ k row r, pg_deliveries s !! k = Some row → drow_run row = Some r → is_Some (pg_runs s !! r)
}.

(** Jobs only move forward. *)
Definition rows_le (s s' : pg) : Prop :=
  ∀ id row, pg_jobs s !! id = Some row → ∃ row', pg_jobs s' !! id = Some row' ∧ job_le (jrow row) (jrow row').

#[export] Instance rows_le_refl : Reflexive rows_le.
Proof. intros s id row Hj. exists row. by split; [|reflexivity]. Qed.

#[export] Instance rows_le_trans : Transitive rows_le.
Proof.
  intros s1 s2 s3 H12 H23 id row Hj.
  destruct (H12 _ _ Hj) as (r2 & Hj2 & ?). destruct (H23 _ _ Hj2) as (r3 & ? & ?).
  exists r3. split; [done|by etrans].
Qed.

Lemma rows_le_eq s s' : pg_jobs s' = pg_jobs s → rows_le s s'.
Proof. intros E id row Hj. exists row. rewrite E. by split; [|reflexivity]. Qed.

(** A well-formed later state. *)
Definition pg_next (s s' : pg) : Prop := pg_wf s → pg_wf s' ∧ rows_le s s'.

#[export] Instance pg_next_refl : Reflexive pg_next.
Proof. intros s Hwf. by split; [|reflexivity]. Qed.

#[export] Instance pg_next_trans : Transitive pg_next.
Proof.
  intros s1 s2 s3 H12 H23 Hwf. destruct (H12 Hwf) as [Hwf2 ?]. destruct (H23 Hwf2) as [??].
  split; [done|by etrans].
Qed.

Lemma empty_pg_wf now : pg_wf (empty_pg now).
Proof. by split. Qed.

(** Actions all of whose outcomes are later states. *)
Definition advances {Y} (m : M pg Y) : Prop := ∀ s, pg_next s (fst (m s)).

Lemma advances_ret {Y} (y : Y) : advances (mret y).
Proof. intros s. simpl. reflexivity. Qed.

Lemma advances_fail {Y} e : advances (@mfail pg Y e).
Proof. intros s. simpl. reflexivity. Qed.

Lemma advances_bind {X Y} (m : M pg X) (k : X → M pg Y) :
  advances m → (∀ x, advances (k x)) → advances (mbind m k).
Proof.
  intros Hm Hk s. unfold mbind. specialize (Hm s). destruct (m s) as [s1 [x|e|]]; simpl in *; [|done..].
  etrans; [exact Hm|apply Hk].
Qed.

Lemma advances_read {Y} (f : pg → outcome error Y) : advances (fun s => (s, f s)).
Proof. intros s. simpl. reflexivity. Qed.

(** The state after an error is the one before, but for the identifiers. *)
Lemma minted_next n s : pg_next s (with_pg_minted n s).
Proof. intros []. split; [by split|by apply rows_le_eq]. Qed.

Lemma advances_in_tx {Y} (m : M pg Y) : advances m → advances (in_tx m).
Proof.
  intros Hm s. unfold in_tx. specialize (Hm s).
  destruct (m s) as [s1 [y|e|]]; simpl in *; [done|apply minted_next..].
Qed.

#[export] Hint Resolve advances_ret advances_fail advances_bind advances_read advances_in_tx : forgelet.

(** ** Statements *)

Lemma update_job_lookup id f s id' :
  pg_jobs (update_job id f s) !! id' = if decide (id = id') then f <$> pg_jobs s !! id' else pg_jobs s !! id'.
Proof.
  unfold update_job. simpl. case_decide; [subst; by rewrite lookup_alter_eq|by rewrite lookup_alter_ne].
Qed.

(** Rewriting every row, each to a later one. *)
Lemma rewrite_rows_next (g : JobRunID → job_row → job_row) s s' :
  pg_deliveries s' = pg_deliveries s → pg_runs s' = pg_runs s →
  (∀ id, pg_jobs s' !! id = g id <$> pg_jobs s !! id) →
  (∀ id row, pg_jobs s !! id = Some row → pg_wf s → job_le (jrow row) (jrow (g id row))) →
  pg_next s s'.
Proof.
  intros Ed Er Ej Hg Hwf. pose proof Hwf as [].
  assert (∀ id row, pg_jobs s' !! id = Some row → ∃ row0, pg_jobs s !! id = Some row0 ∧
    row = g id row0 ∧ job_le (jrow row0) (jrow row)) as Hcase.
  { intros id row. rewrite Ej. intros (row0 & Hr & ->)%fmap_Some. eauto. }
  split; [split; rewrite ?Ed, ?Er; try done|].
  - intros id row (row0 & Hr & _ & Hle)%Hcase. rewrite (le_id _ _ Hle). eauto.
  - intros id row (row0 & Hr & _ & Hle)%Hcase. eapply le_known; eauto.
  - intros id row (row0 & Hr & _ & Hle)%Hcase. rewrite (le_run _ _ Hle). eauto.
  - intros id row Hr. exists (g id row). rewrite Ej, Hr. split; [done|]. by apply Hg.
Qed.

Lemma update_job_next id f s :
  (∀ row, pg_jobs s !! id = Some row → pg_wf s → job_le (jrow row) (jrow (f row))) →
  pg_next s (update_job id f s).
Proof.
  intros Hf. apply (rewrite_rows_next (fun id' => if decide (id = id') then f else Datatypes.id)); try done.
  - intros id'. rewrite update_job_lookup. case_decide; [done|by rewrite option_fmap_id].
  - intros id' row Hr Hwf. case_decide; [subst; eauto|reflexivity].
Qed.

Lemma update_run_next r f s : (∀ run, RID (f run) = RID run) → pg_next s (update_run r f s).
Proof.
  intros Hf []. unfold update_run.
  assert (∀ r', is_Some (alter f r (pg_runs s) !! r') ↔ is_Some (pg_runs s !! r')) as Hdom.
  { intros r'. destruct (decide (r = r')) as [<-|]; [rewrite lookup_alter_eq|by rewrite lookup_alter_ne].
    by rewrite fmap_is_Some. }
  split; [|by apply rows_le_eq]. split; simpl; try done.
  - intros id row Hr. rewrite Hdom. eauto.
  - intros r' run. rewrite lookup_alter_Some.
    intros [(<- & run0 & Hr & ->)|[_ Hr]]; [rewrite Hf|]; eauto.
  - intros k row r' Hk Hr. rewrite Hdom. eauto.
Qed.

(** Rows of the schema are inserted under keys not in use. *)
Lemma insert_job_next j s :
  job_known (JStatus j) = true → pg_next s (fst (insert_job j s)).
Proof.
  intros Hk Hwf. unfold insert_job. case_bool_decide as Hn; simpl; [by split; [|reflexivity]|].
  destruct (negb _) eqn:Hr; simpl; [by split; [|reflexivity]|]. breflect.
  assert (pg_jobs s !! JID j = None) as Hnone by (by apply eq_None_not_Some).
  pose proof Hwf as []. split.
  - split; simpl; try done; intros id row; rewrite lookup_insert; case_decide; try (by eauto);
      intros [= <-]; by subst.
  - intros id row Hj. exists row. split; [|reflexivity]. simpl. rewrite lookup_insert_ne; congruence.
Qed.

Lemma insert_run_next r s : RID r ≠ "" → pg_next s (fst (insert_run r s)).
Proof.
  intros Hne Hwf. unfold insert_run. destruct (_ || _) eqn:E; simpl; [by split; [|reflexivity]|].
  breflect. pose proof Hwf as [].
  assert (∀ r', is_Some (pg_runs s !! r') → is_Some (<[RID r := r]> (pg_runs s) !! r')) as Hdom.
  { intros r' ?. rewrite lookup_insert. case_decide; eauto. }
  split; [|by apply rows_le_eq]. split; simpl; try done; eauto.
  intros r' run. rewrite lookup_insert. case_decide; [|eauto]. intros [= <-]. by subst.
Qed.

Section operations.
Context `{MemoryEnv} `{!MemoryEnvOk}.

Lemma mint_next : advances mint.
Proof. intros s. apply minted_next. Qed.

(** ** Each operation *)

Lemma RecordDelivery_next d : advances (pg_RecordDelivery d).
Proof.
  intros s Hwf. unfold pg_RecordDelivery, mbind, delivery.
  destruct (pg_deliveries s !! DKey d) as [row|] eqn:E; simpl.
  { rewrite E. simpl. by split; [|reflexivity]. }
  rewrite lookup_insert_eq. simpl. split; [|by apply rows_le_eq]. destruct Hwf. split; simpl; try done.
  intros k row r. rewrite lookup_insert. case_decide; [|eauto]. by intros [= <-].
Qed.

Lemma insert_jobs_next js r now : advances (insert_jobs js r now).
Proof.
  induction js as [|i js IH]; simpl; [auto with forgelet|].
  apply advances_bind; [apply mint_next|]. intros id.
  apply advances_bind; [|done]. intros s. by apply insert_job_next.
Qed.

Lemma insert_jobs_runs js r now s : pg_runs (fst (insert_jobs js r now s)) = pg_runs s.
Proof.
  revert s. induction js as [|i js IH]; intros s; [done|]. simpl. unfold mbind, mint, insert_job. simpl.
  case_bool_decide; [done|]. simpl. case_bool_decide; simpl; [|done]. by rewrite IH.
Qed.

Lemma insert_jobs_deliveries js r now s : pg_deliveries (fst (insert_jobs js r now s)) = pg_deliveries s.
Proof.
  revert s. induction js as [|i js IH]; intros s; [done|]. simpl. unfold mbind, mint, insert_job. simpl.
  case_bool_decide; [done|]. simpl. case_bool_decide; simpl; [|done]. by rewrite IH.
Qed.

Lemma bind_delivery_next k r s : is_Some (pg_runs s !! r) → pg_next s (bind_delivery k r s).
Proof.
  intros Hr []. split; [|by apply rows_le_eq]. split; simpl; try done. intros k' row r'.
  rewrite lookup_alter_Some. intros [(<- & row0 & Hk & ->)|[_ Hk]]; [|eauto].
  destruct (drow_run row0) eqn:E; simpl; [|by intros [= <-]]. rewrite E. intros [= <-]. eauto.
Qed.

(** What a [CreateRun] that inserts does. *)
Lemma create_rows_spec seed now s s' run b :
  (let* runID := mint in
   let* _ := insert_run (newRun runID seed (stamp now)) in
   let* _ := insert_jobs (SJobs seed) runID now in
   fun s => (bind_delivery (SDelivery seed) runID s, Ok (newRun runID seed now, true))) s = (s', Ok (run, b)) →
  ∃ s1, run = newRun (newid (pg_minted s)) seed now ∧ b = true ∧
    s' = bind_delivery (SDelivery seed) (RID run) s1 ∧ is_Some (pg_runs s1 !! RID run) ∧
    pg_deliveries s1 = pg_deliveries s ∧ pg_next s s1.
Proof.
  unfold mbind, mint. simpl.
  set (s0 := with_pg_minted (S (pg_minted s)) s). set (r := newid (pg_minted s)).
  destruct (insert_run _ s0) as [s1 [[]|e|]] eqn:E1; [|done..].
  destruct (insert_jobs (SJobs seed) r now s1) as [s2 [[]|e|]] eqn:E2; [|done..].
  intros [= <- <- <-]. exists s2. simpl. fold r.
  pose proof (insert_run_next (newRun r seed (stamp now)) s0 (newid_nonempty _)) as H1. rewrite E1 in H1.
  pose proof (insert_jobs_next (SJobs seed) r now s1) as H2.
  pose proof (insert_jobs_runs (SJobs seed) r now s1) as Er.
  pose proof (insert_jobs_deliveries (SJobs seed) r now s1) as Ed. rewrite E2 in *. simpl in *.
  unfold insert_run in E1. destruct (_ || _); [done|]. injection E1 as <-.
  split_and!; [done..| | |].
  - rewrite Er. simpl. rewrite lookup_insert_eq. eauto.
  - by rewrite Ed.
  - etrans; [apply minted_next|]. by etrans.
Qed.

Lemma CreateRun_next seed now : advances (pg_CreateRun seed now).
Proof.
  intros s. unfold pg_CreateRun, in_tx.
  destruct (pg_deliveries s !! SDelivery seed) as [row|]; [|apply minted_next].
  case_bool_decide.
  { unfold mbind, runIn. destruct (pg_runs s !! _); simpl; [reflexivity|apply minted_next]. }
  case_bool_decide; [apply minted_next|].
  match goal with |- context [match ?m s with _ => _ end] => destruct (m s) as [s' [[run b]|e|]] eqn:E end;
    [|apply minted_next..].
  apply create_rows_spec in E as (s1 & _ & _ & -> & Hr & _ & Hn).
  etrans; [exact Hn|]. by apply bind_delivery_next.
Qed.

(** A bound delivery after a successful [CreateRun]. *)
Lemma pg_CreateRun_bound seed now s s' run b :
  pg_wf s → pg_CreateRun seed now s = (s', Ok (run, b)) →
  (∃ row, pg_deliveries s' !! SDelivery seed = Some row ∧ drow_run row = Some (RID run)) ∧ RID run ≠ "".
Proof.
  intros Hwf. unfold pg_CreateRun, in_tx.
  destruct (pg_deliveries s !! SDelivery seed) as [row|] eqn:Ek; [|done].
  case_bool_decide as Hx.
  { unfold mbind, runIn. destruct (pg_runs s !! _) as [run0|] eqn:Er; [|done]. intros [= <- <- <-].
    destruct (pw_run _ Hwf _ _ Er) as [-> _]. split; [|done]. exists row. split; [done|].
    by destruct (drow_run row). }
  case_bool_decide; [done|].
  match goal with |- context [match ?m s with _ => _ end] => destruct (m s) as [s2 [[run2 b2]|e|]] eqn:E end;
    [|done..].
  apply create_rows_spec in E as (s1 & -> & -> & -> & Hr & Hd & _). intros [= <- <- <-]. simpl in *.
  split; [|apply newid_nonempty]. rewrite lookup_alter_eq, Hd, Ek. simpl. eexists. split; [done|].
  destruct (drow_run row) as [r|] eqn:Er; [|done]. simpl in Hx.
  exfalso. destruct (pw_bound _ Hwf _ _ _ Ek Er) as [run2 Hr2]. destruct (pw_run _ Hwf _ _ Hr2). tauto.
Qed.

(** *** Claims *)

Lemma refreshRun_jobs id now s : pg_jobs (fst (refreshRun id now s)) = pg_jobs s.
Proof. unfold refreshRun. repeat case_match; done. Qed.

Lemma refreshRun_next id now : advances (refreshRun id now).
Proof.
  intros s. unfold refreshRun. repeat case_match; try reflexivity; by apply update_run_next.
Qed.

(** A refresh of the run of an existing job succeeds. *)
Lemma refreshRun_ok id now s : pg_wf s → is_Some (pg_jobs s !! id) → snd (refreshRun id now s) = Ok tt.
Proof.
  intros Hwf [row Hr]. unfold refreshRun. rewrite Hr.
  destruct (pw_foreign _ Hwf _ _ Hr) as [run ->]. by case_match.
Qed.

Lemma take_claim_next id : advances (take_claim id).
Proof.
  intros s. unfold take_claim. repeat case_match; try reflexivity.
  apply update_job_next. intros row _ _. reflexivity.
Qed.

Lemma skip_row_le now row : job_le (jrow row) (jrow (skip_row now row)).
Proof.
  unfold skip_row, if_queued. case_bool_decide as Hq; [|reflexivity].
  apply job_le_step; rewrite ?Hq; simpl; try done; lia.
Qed.

Lemma claim_loop_next ids : advances (pg_claim_loop ids).
Proof.
  induction ids as [|id ids IH]; simpl; [auto with forgelet|].
  assert (advances (let* r := take_claim id in
    match r with Some job => mret (Some job) | None => pg_claim_loop ids end)) as Htake.
  { apply advances_bind; [apply take_claim_next|]. intros []; auto with forgelet. }
  intros s. destruct (pg_depState id s); [apply Htake|apply IH|]. destruct (has_condition id s); [apply Htake|].
  etrans; [apply update_job_next; intros; apply skip_row_le|].
  apply advances_bind; [apply refreshRun_next|auto].
Qed.

Lemma ClaimNextQueuedJob_next : advances pg_ClaimNextQueuedJob.
Proof.
  unfold pg_ClaimNextQueuedJob. apply advances_bind.
  - apply advances_in_tx. intros s. apply claim_loop_next.
  - intros []; auto with forgelet.
Qed.

(** A claimed job is queued, and its row says so and carries the claim. *)
Lemma claim_loop_ok ids s s' j :
  pg_claim_loop ids s = (s', Ok (Some j)) →
  ∃ id row, id ∈ ids ∧ pg_jobs s' !! id = Some row ∧ jrow row = j ∧ JStatus j = JobQueued ∧
    is_Some (jrow_claimed row).
Proof.
  revert s. induction ids as [|id ids IH]; intros s; [done|].
  assert (∀ s, (let* r := take_claim id in
      match r with Some job => mret (Some job) | None => pg_claim_loop ids end) s = (s', Ok (Some j)) →
    ∃ id' row, id' ∈ id :: ids ∧ pg_jobs s' !! id' = Some row ∧ jrow row = j ∧ JStatus j = JobQueued ∧
      is_Some (jrow_claimed row)) as Htake.
  { intros s0. unfold take_claim, mbind.
    destruct (pg_jobs s0 !! id) as [row|] eqn:Hr; [case_bool_decide as Hq|].
    2-3: intros E; destruct (IH _ E) as (id' & row' & ? & ?); exists id', row'; set_solver.
    intros [= <- <-]. exists id, (set_claim (Some (stamp (pg_now s0))) row).
    rewrite update_job_lookup, decide_True, Hr by done. split_and!; try done; set_solver. }
  simpl. destruct (pg_depState id s).
  - apply Htake.
  - intros E. destruct (IH _ E) as (id' & row' & ? & ?). exists id', row'. set_solver.
  - destruct (has_condition id s); [apply Htake|]. unfold mbind.
    destruct (refreshRun id _ _) as [s1 [[]|e|]]; [|done..].
    intros E. destruct (IH _ E) as (id' & row' & ? & ?). exists id', row'. set_solver.
Qed.

Lemma ReleaseClaim_next id : advances (pg_ReleaseClaim id).
Proof. intros s. apply update_job_next. intros. reflexivity. Qed.

(** *** Dispatch, observation, cancellation, collection, retry *)

Lemma jobIn_bind {Y} id (k : JobRunRecord → M pg Y) s :
  (let* job := jobIn id in k job) s =
  match pg_jobs s !! id with Some row => k (jrow row) s | None => (s, Err ErrJobRunNotFound) end.
Proof. unfold mbind, jobIn. by destruct (pg_jobs s !! id). Qed.

Lemma dispatched_row_le obj now row :
  JStatus (jrow row) = JobQueued ∨ JStatus (jrow row) = JobDispatched →
  job_le (jrow row) (jrow (dispatched_row obj now row)).
Proof. apply job_le_active. Qed.

Lemma AckDispatched_next id obj now : advances (pg_AckDispatched id obj now).
Proof.
  apply advances_in_tx. intros s. rewrite jobIn_bind.
  destruct (pg_jobs s !! id) as [row|] eqn:Hr; simpl; [|reflexivity].
  assert (JStatus (jrow row) = JobQueued ∨ JStatus (jrow row) = JobDispatched →
    pg_next s (update_job id (dispatched_row obj now) s)) as Hup.
  { intros Hst. apply update_job_next. intros row' Hr' _. simplify_eq. by apply dispatched_row_le. }
  destruct (JStatus (jrow row)); try reflexivity; [by apply Hup; left|].
  destruct (_ && _); [reflexivity|by apply Hup; right].
Qed.

Lemma pg_observed_le target now j :
  job_terminal (JStatus j) = false → job_known target = true → CanAdvanceJob (JStatus j) target = true →
  job_le j (pg_observed target now j).
Proof.
  intros Ht Hk Hadv. pose proof (CanAdvanceJob_rank _ _ Hadv).
  unfold pg_observed. destruct target; constructor; simpl in *; try done; congruence.
Qed.

Lemma JobStatusFromPhase_known phase target : JobStatusFromPhase phase = Some target → job_known target = true.
Proof. destruct phase; simpl; intros [= <-]; done. Qed.

Lemma observe_job_next id row phase now s :
  pg_jobs s !! id = Some row → pg_next s (observe_job id (jrow row) phase now s).
Proof.
  intros Hr. unfold observe_job. destruct (job_terminal _) eqn:Ht; [reflexivity|].
  destruct (JobStatusFromPhase phase) as [target|] eqn:Hp; [|reflexivity].
  destruct (CanAdvanceJob _ target) eqn:Ha; [|reflexivity].
  apply update_job_next. intros row' Hr' _. simplify_eq. apply pg_observed_le; [done| |done].
  by eapply JobStatusFromPhase_known.
Qed.

Lemma ApplyObserved_next id phase now : advances (pg_ApplyObserved id phase now).
Proof.
  apply advances_in_tx. intros s. rewrite jobIn_bind.
  destruct (pg_jobs s !! id) as [row|] eqn:Hr; [|reflexivity].
  etrans; [by apply observe_job_next|apply refreshRun_next].
Qed.

Lemma cancel_row_le now row : job_known (JStatus (jrow row)) = true → job_le (jrow row) (jrow (cancel_row now row)).
Proof.
  intros Hk. unfold cancel_row, TransitionJob. destruct (CanTransitionJob _ _) eqn:Ht; [|reflexivity].
  pose proof (CanTransitionJob_rank _ _ Hk Ht). apply job_le_step; try done.
  unfold CanTransitionJob in Ht. by destruct (job_terminal _).
Qed.

Lemma cancel_jobs_next r now s : pg_next s (cancel_jobs r now s).
Proof.
  apply (rewrite_rows_next (fun _ row => if bool_decide (JRunID (jrow row) = r) then cancel_row now row else row));
    try done.
  - intros id. simpl. by rewrite lookup_fmap.
  - intros id row Hr Hwf. case_bool_decide; [|reflexivity]. apply cancel_row_le. by eapply pw_known.
Qed.

Lemma CancelRun_next id now : advances (pg_CancelRun id now).
Proof.
  apply advances_in_tx, advances_bind; [intros s; unfold runIn; by case_match|]. intros run.
  destruct (run_terminal _); [destruct (bool_decide _); auto with forgelet|].
  intros s. simpl. etrans; [apply cancel_jobs_next|]. by apply update_run_next.
Qed.

Lemma MarkCollected_next id now : advances (pg_MarkCollected id now).
Proof.
  intros s. apply update_job_next. intros row _ _. simpl. case_match; [reflexivity|apply job_le_collected].
Qed.

Lemma reopen_next r s : pg_next s (pg_reopen r s).
Proof. unfold pg_reopen. repeat case_match; try reflexivity. by apply update_run_next. Qed.

Lemma RerequestJob_next id now : advances (pg_RerequestJob id now).
Proof.
  apply advances_in_tx. intros s. rewrite jobIn_bind.
  destruct (pg_jobs s !! id) as [row|]; [|reflexivity]. destruct (select_jobs _ s); [|reflexivity].
  apply advances_bind; [apply mint_next|]. intros newID.
  apply advances_bind; [intros s'; by apply insert_job_next|]. intros _ s'. apply reopen_next.
Qed.

End operations.
