(* ===== verification/PostgresTheorems.v ===== *)
(** * What the PostgreSQL store guarantees

    Its operations as steps, the invariants of every state they reach, and the
    port of [Scheduler] discharged. *)

From S2P Require Import Prelude GoStrings RunModel SchedulerPort MemoryStore StoreInvariant StoreOps Scheduler SchedulerMemory Postgres PostgresSpec.

Local Open Scope go_scope.

Implicit Types s : pg.

(** ** Selections *)

Lemma select_jobs_elem p s j :
  j ∈ select_jobs p s ↔ (∃ id row, pg_jobs s !! id = Some row ∧ jrow row = j) ∧ p j = true.
Proof.
  unfold select_jobs. rewrite list_elem_of_In, filter_In, <-list_elem_of_In.
  change @map with @list_fmap. rewrite !list_elem_of_fmap. setoid_rewrite list_elem_of_fmap. split.
  - intros [(row & -> & [id row'] & -> & Hin) Hp]. rewrite elem_of_map_to_list in Hin. split; [eauto|done].
  - intros [(id & row & Hr & <-) Hp]. split; [|done]. exists row. split; [done|].
    exists (id, row). split; [done|]. by rewrite elem_of_map_to_list.
Qed.

Lemma run_jobs_elem r s j :
  j ∈ run_jobs r s ↔ ∃ id row, pg_jobs s !! id = Some row ∧ jrow row = j ∧ JRunID j = r.
Proof. unfold run_jobs. rewrite select_jobs_elem, bool_decide_eq_true. naive_solver. Qed.

(** ** Runs agree with their jobs *)

Definition run_closed (s : pg) (r : RunID) : Prop :=
  ∀ id row, pg_jobs s !! id = Some row → JRunID (jrow row) = r → job_terminal (JStatus (jrow row)) = true.

(** A run that exists has a job, and is terminal exactly when its jobs are. *)
Definition pg_agrees (s : pg) (r : RunID) : Prop :=
  ∀ run, pg_runs s !! r = Some run →
    (∃ id row, pg_jobs s !! id = Some row ∧ JRunID (jrow row) = r) ∧
    (run_terminal (RStatus run) = true ↔ run_closed s r).

Definition pg_settled (s : pg) : Prop := ∀ r, pg_agrees s r.

Lemma pg_agrees_ext s s' r :
  pg_runs s' = pg_runs s → pg_jobs s' = pg_jobs s → pg_agrees s r → pg_agrees s' r.
Proof. intros Er Ej Ha run. unfold run_closed. rewrite Er, Ej. apply Ha. Qed.

(** Rewriting rows so that those of run [r] keep being open or closed. *)
Lemma rewrite_rows_agrees (g : JobRunID → job_row → job_row) s s' r :
  pg_runs s' = pg_runs s → (∀ id, pg_jobs s' !! id = g id <$> pg_jobs s !! id) →
  (∀ id row, pg_jobs s !! id = Some row → JRunID (jrow (g id row)) = JRunID (jrow row) ∧
     (JRunID (jrow row) = r → job_terminal (JStatus (jrow (g id row))) = job_terminal (JStatus (jrow row)))) →
  pg_agrees s r → pg_agrees s' r.
Proof.
  intros Er Ej Hg Ha run. rewrite Er. intros Hr. destruct (Ha run Hr) as [(id & row & Hrow & Hid) Hiff]. split.
  - exists id, (g id row). rewrite Ej, Hrow. split; [done|]. by rewrite (proj1 (Hg id row Hrow)).
  - rewrite Hiff. split; intros Hc id' row'.
    + rewrite Ej. intros (row0 & Hr0 & ->)%fmap_Some Hid'. destruct (Hg _ _ Hr0) as [E1 E2].
      rewrite E2 by congruence. eapply Hc; [done|congruence].
    + intros Hr' Hid'. destruct (Hg _ _ Hr') as [E1 E2]. rewrite <-E2 by done.
      eapply (Hc id'); [|congruence]. by rewrite Ej, Hr'.
Qed.

Lemma update_job_agrees id f s r :
  (∀ row, pg_jobs s !! id = Some row → JRunID (jrow (f row)) = JRunID (jrow row) ∧
     (JRunID (jrow row) = r → job_terminal (JStatus (jrow (f row))) = job_terminal (JStatus (jrow row)))) →
  pg_agrees s r → pg_agrees (update_job id f s) r.
Proof.
  intros Hf. apply (rewrite_rows_agrees (fun id' => if decide (id = id') then f else Datatypes.id)); [done| |].
  - intros id'. rewrite update_job_lookup. case_decide; [done|by rewrite option_fmap_id].
  - intros id' row Hr. case_decide; [subst; eauto|done].
Qed.

(** [refreshRun] makes the run of its job agree, whatever it was before, if it
    was not closed too early; the other runs are as they were. *)
Lemma refreshRun_agrees id now s row :
  pg_wf s → pg_jobs s !! id = Some row →
  (∀ r, r ≠ JRunID (jrow row) → pg_agrees s r) →
  (∀ run, pg_runs s !! JRunID (jrow row) = Some run → run_terminal (RStatus run) = true →
     run_closed s (JRunID (jrow row))) →
  pg_settled (fst (refreshRun id now s)) ∧ snd (refreshRun id now s) = Ok tt.
Proof.
  intros Hwf Hr Hother Hopen. unfold refreshRun. rewrite Hr. set (r := JRunID (jrow row)) in *.
  destruct (pw_foreign _ Hwf _ _ Hr) as [run Hrun]. fold r in Hrun. rewrite Hrun.
  set (next := AggregateRunStatus (map JStatus (run_jobs r s))).
  assert (run_terminal next = true ↔ run_closed s r) as Hnext.
  { unfold next. change @map with @list_fmap. rewrite aggregate_terminal.
    - setoid_rewrite list_elem_of_fmap. setoid_rewrite run_jobs_elem. split; [|naive_solver].
      intros Hall id' row' Hr' E. apply Hall. eauto 10.
    - assert (jrow row ∈ run_jobs r s) as Hin by (apply run_jobs_elem; eauto). by destruct (run_jobs r s); [set_solver|].
    - intros st (j & -> & (id' & row' & Hr' & <- & _)%run_jobs_elem)%list_elem_of_fmap.
      by eapply pw_known. }
  assert (∃ id' row', pg_jobs s !! id' = Some row' ∧ JRunID (jrow row') = r) as Hjob by eauto.
  destruct (negb _ || _) eqn:E; (split; [|done]); intros r'; (destruct (decide (r' = r)) as [->|Hne]); simpl.
  - intros run' ?. simplify_eq. split; [done|]. split; [by apply Hopen|]. intros Hc.
    apply orb_true_iff in E as [E|E]; breflect; [|by rewrite <-E; apply Hnext].
    apply Hnext in Hc. unfold CanAdvanceRun in E. rewrite Hc in E.
    destruct (bool_decide _) in E; [done|]. by destruct (run_terminal (RStatus run)).
  - by apply Hother.
  - intros run'. simpl. rewrite lookup_alter_eq, Hrun. intros [= <-]. simpl. by split.
  - intros run'. simpl. rewrite lookup_alter_ne by done. by apply Hother.
Qed.

Section operations.
Context `{MemoryEnv} `{!MemoryEnvOk}.

(** Actions after which every run agrees with its jobs. *)
Definition settles {Y} (m : M pg Y) : Prop :=
  ∀ s, pg_wf s → pg_settled s → pg_settled (fst (m s)).

Lemma settled_ext s s' : pg_runs s' = pg_runs s → pg_jobs s' = pg_jobs s → pg_settled s → pg_settled s'.
Proof. intros Er Ej Hs r. eapply pg_agrees_ext; eauto. Qed.

Lemma settles_in_tx {Y} (m : M pg Y) :
  (∀ s s' y, pg_wf s → pg_settled s → m s = (s', Ok y) → pg_settled s') → settles (in_tx m).
Proof.
  intros Hm s Hwf Hs. unfold in_tx. destruct (m s) as [s' [y|e|]] eqn:E; simpl; [eauto|..];
    by eapply settled_ext.
Qed.

Lemma update_job_settled id f s :
  (∀ row, pg_jobs s !! id = Some row → JRunID (jrow (f row)) = JRunID (jrow row) ∧
     job_terminal (JStatus (jrow (f row))) = job_terminal (JStatus (jrow row))) →
  pg_settled s → pg_settled (update_job id f s).
Proof.
  intros Hf Hs r. apply update_job_agrees; [|done]. intros row Hr. destruct (Hf _ Hr). by split.
Qed.

Lemma RecordDelivery_settles d : settles (pg_RecordDelivery d).
Proof.
  intros s _ Hs. unfold pg_RecordDelivery, mbind, delivery.
  destruct (bool_decide _); simpl; repeat case_match; simplify_eq; simpl; done || by eapply settled_ext.
Qed.

(** *** New runs *)

Lemma insert_jobs_Ok js r now s s' :
  insert_jobs js r now s = (s', Ok tt) →
  (∀ id row, pg_jobs s' !! id = Some row →
     pg_jobs s !! id = Some row ∨ (JRunID (jrow row) = r ∧ JStatus (jrow row) = JobQueued)) ∧
  (∀ id row, pg_jobs s !! id = Some row → pg_jobs s' !! id = Some row) ∧
  (js ≠ [] → ∃ id row, pg_jobs s' !! id = Some row ∧ JRunID (jrow row) = r ∧ JStatus (jrow row) = JobQueued).
Proof.
  revert s. induction js as [|i js IH]; intros s; simpl.
  { intros [= <-]. naive_solver. }
  unfold mbind, mint, insert_job. simpl. case_bool_decide as Hn; [done|]. simpl.
  case_bool_decide; simpl; [|done]. intros E. destruct (IH _ E) as (Hback & Hfwd & _). simpl in *.
  assert (pg_jobs s !! newid (pg_minted s) = None) as Hnone by (by apply eq_None_not_Some).
  split_and!.
  - intros id row [Hr|?]%Hback; [|by right]. rewrite lookup_insert in Hr. case_decide; [|by left].
    right. by simplify_eq.
  - intros id row Hr. apply Hfwd. rewrite lookup_insert_ne; congruence.
  - intros _. eexists (newid (pg_minted s)), _. split; [apply Hfwd; by rewrite lookup_insert_eq|done].
Qed.

(** Queued jobs added to a run leave it open. *)
Lemma new_jobs_agree s s' r :
  (∀ id row, pg_jobs s' !! id = Some row →
     pg_jobs s !! id = Some row ∨ (JRunID (jrow row) = r ∧ JStatus (jrow row) = JobQueued)) →
  (∀ id row, pg_jobs s !! id = Some row → pg_jobs s' !! id = Some row) →
  (∃ id row, pg_jobs s' !! id = Some row ∧ JRunID (jrow row) = r ∧ JStatus (jrow row) = JobQueued) →
  (∀ r', r' ≠ r → pg_runs s' !! r' = pg_runs s !! r') →
  (∀ run, pg_runs s' !! r = Some run → run_terminal (RStatus run) = false) →
  pg_settled s → pg_settled s'.
Proof.
  intros Hback Hfwd (id0 & row0 & Hr0 & Hid0 & Hq0) Hruns Hopen Hs r' run Hrun.
  destruct (decide (r' = r)) as [->|Hne].
  - split; [eauto|]. rewrite (Hopen _ Hrun). split; [done|]. intros Hc. specialize (Hc _ _ Hr0 Hid0). by rewrite Hq0 in Hc.
  - rewrite Hruns in Hrun by done. destruct (Hs r' run Hrun) as [(id & row & Hr & Hid) Hiff]. split; [eauto|].
    rewrite Hiff. split; intros Hc id' row' Hr' Hid'; [|eauto].
    destruct (Hback _ _ Hr') as [?|[? _]]; [eauto|congruence].
Qed.

Lemma CreateRun_settles seed now : settles (pg_CreateRun seed now).
Proof.
  apply settles_in_tx. intros s s' [run b] Hwf Hs.
  destruct (pg_deliveries s !! SDelivery seed) as [row|]; [|done]. cbv zeta.
  case_bool_decide.
  { unfold mbind, runIn. destruct (pg_runs s !! _); [|done]. by intros [= <- _ _]. }
  case_bool_decide as Hlen; [done|]. unfold mbind, mint, insert_run. simpl.
  destruct (_ || _) eqn:E; [done|]. breflect.
  assert (pg_runs s !! newid (pg_minted s) = None) as Hnone by (by apply eq_None_not_Some).
  match goal with |- context [insert_jobs ?js ?r now ?s1] =>
    destruct (insert_jobs js r now s1) as [s2 [[]|e|]] eqn:E2; [|done..];
    pose proof (insert_jobs_runs js r now s1) as Er; rewrite E2 in Er; set (s1' := s1) in * end.
  intros [= <- _ _]. destruct (insert_jobs_Ok _ _ _ _ _ E2) as (Hback & Hfwd & Hnew).
  eapply (new_jobs_agree s); [exact Hback|exact Hfwd| | |  |done].
  - apply Hnew. by destruct (SJobs seed).
  - intros r' Hne. simpl in *. rewrite Er. by rewrite lookup_insert_ne.
  - intros run'. simpl in *. rewrite Er. rewrite lookup_insert_eq. by intros [= <-].
Qed.

Lemma RerequestJob_settles id now : settles (pg_RerequestJob id now).
Proof.
  apply settles_in_tx. intros s s' y Hwf Hs. rewrite jobIn_bind.
  destruct (pg_jobs s !! id) as [row|]; [|done]. destruct (select_jobs _ s); [|by intros [= <- _]].
  unfold mbind, mint, insert_job. simpl. case_bool_decide as Hn; [done|]. simpl.
  case_bool_decide; simpl; [|done]. intros [= <- _].
  assert (pg_jobs s !! newid (pg_minted s) = None) as Hnone by (by apply eq_None_not_Some).
  assert (∀ s0, pg_jobs (pg_reopen (JRunID (jrow row)) s0) = pg_jobs s0) as Ej.
  { intros s0. unfold pg_reopen. by repeat case_match. }
  eapply (new_jobs_agree s _ (JRunID (jrow row))); [..|done]; rewrite ?Ej; simpl.
  - intros id' row'. rewrite lookup_insert. case_decide; [|by left]. right. by simplify_eq.
  - intros id' row' Hr. rewrite lookup_insert_ne; congruence.
  - eexists (newid (pg_minted s)), _. rewrite lookup_insert_eq. by split_and!.
  - intros r' Hne. unfold pg_reopen. simpl. repeat case_match; simpl; try done. by rewrite lookup_alter_ne.
  - intros run. unfold pg_reopen. simpl. destruct (pg_runs s !! JRunID (jrow row)) as [run0|] eqn:Er.
    + destruct (run_terminal (RStatus run0)) eqn:Et; simpl.
      * rewrite lookup_alter_eq, Er. by intros [= <-].
      * rewrite Er. by intros [= <-].
    + simpl. by rewrite Er.
Qed.

(** *** Claims *)

Lemma skip_refresh_settled id now s row :
  pg_wf s → pg_settled s → pg_jobs s !! id = Some row →
  pg_settled (fst (refreshRun id now (update_job id (skip_row now) s))).
Proof.
  intros Hwf Hs Hr. set (s1 := update_job id (skip_row now) s).
  assert (JRunID (jrow (skip_row now row)) = JRunID (jrow row)) as Hrun by apply (le_run _ _ (skip_row_le now row)).
  assert (pg_jobs s1 !! id = Some (skip_row now row)) as Hr1.
  { unfold s1. by rewrite update_job_lookup, decide_True, Hr. }
  destruct (update_job_next id (skip_row now) s) as [Hwf1 _]; [intros; apply skip_row_le|done|].
  apply (refreshRun_agrees id now s1 (skip_row now row) Hwf1 Hr1).
  - intros r Hne. apply update_job_agrees; [|apply Hs]. intros row' Hr'. simplify_eq.
    rewrite Hrun in *. split; congruence.
  - rewrite Hrun. intros run Hru Ht. destruct (Hs _ run Hru) as [_ [Hc _]]. specialize (Hc Ht).
    intros id' row'. unfold s1. rewrite update_job_lookup. case_decide; [subst|by eauto].
    rewrite Hr. intros [= <-] _. unfold skip_row, if_queued. case_bool_decide as Hq; [|by eapply Hc].
    specialize (Hc _ _ Hr eq_refl). by rewrite Hq in Hc.
Qed.

Lemma take_claim_settles id : settles (take_claim id).
Proof.
  intros s _ Hs. unfold take_claim. repeat case_match; try done. by apply update_job_settled.
Qed.

Lemma claim_loop_settles ids : settles (pg_claim_loop ids).
Proof.
  induction ids as [|id ids IH]; [by intros s|]. intros s Hwf Hs. simpl.
  assert (pg_settled (fst ((let* r := take_claim id in
    match r with Some job => mret (Some job) | None => pg_claim_loop ids end) s))) as Htake.
  { unfold mbind. pose proof (take_claim_settles id s Hwf Hs). pose proof (take_claim_next id s Hwf) as [].
    destruct (take_claim id s) as [s1 [[job|]|e|]]; simpl in *; auto. }
  destruct (pg_depState id s) eqn:Hd; [done|auto|]. destruct (has_condition id s); [done|].
  unfold pg_depState in Hd. destruct (pg_jobs s !! id) as [row|] eqn:Hr; [|done].
  pose proof (skip_refresh_settled id (pg_now s) s row Hwf Hs Hr) as Hs1.
  destruct (update_job_next id (skip_row (pg_now s)) s) as [Hwf1 _]; [intros; apply skip_row_le|done|].
  pose proof (refreshRun_next id (pg_now s) _ Hwf1) as [Hwf2 _]. unfold mbind.
  destruct (refreshRun id (pg_now s) _) as [s2 [[]|e|]]; simpl in *; auto.
Qed.

Lemma ClaimNextQueuedJob_settles : settles pg_ClaimNextQueuedJob.
Proof.
  intros s Hwf Hs. unfold pg_ClaimNextQueuedJob, mbind, in_tx.
  pose proof (claim_loop_settles (claim_ids s) s Hwf Hs).
  destruct (pg_claim_loop (claim_ids s) s) as [s1 [[j|]|e|]]; simpl in *; done || by eapply settled_ext.
Qed.

(** *** Dispatch, observation, cancellation *)

Lemma AckDispatched_settles id obj now : settles (pg_AckDispatched id obj now).
Proof.
  apply settles_in_tx. intros s s' [] Hwf Hs. rewrite jobIn_bind.
  destruct (pg_jobs s !! id) as [row|] eqn:Hr; [|done].
  assert (job_terminal (JStatus (jrow row)) = false → pg_settled (update_job id (dispatched_row obj now) s)) as Hup.
  { intros Ht. apply update_job_settled; [|done]. intros row' Hr'. simplify_eq. by rewrite Ht. }
  destruct (JStatus (jrow row)); try done; [intros [= <-]; auto|].
  destruct (_ && _); [done|]. intros [= <-]; auto.
Qed.

(** Every run agrees with its jobs, but [r] may be open although they are all
    terminal. *)
Definition settled_but (s : pg) (r : RunID) : Prop :=
  (∀ r', r' ≠ r → pg_agrees s r') ∧
  (∀ run, pg_runs s !! r = Some run → run_terminal (RStatus run) = true → run_closed s r).

Lemma settled_settled_but s r : pg_settled s → settled_but s r.
Proof. intros Hs. split; [auto|]. intros run Hr. by apply (Hs r run Hr). Qed.

Lemma ApplyObserved_settled id phase now s row :
  pg_wf s → pg_jobs s !! id = Some row → settled_but s (JRunID (jrow row)) →
  pg_settled (fst (refreshRun id now (observe_job id (jrow row) phase now s))) ∧
  snd (refreshRun id now (observe_job id (jrow row) phase now s)) = Ok tt.
Proof.
  intros Hwf Hr [Hs Hclosed]. destruct (observe_job_next id row phase now s Hr Hwf) as [Hwf1 Hle].
  destruct (Hle _ _ Hr) as (row1 & Hr1 & Hle1).
  apply (refreshRun_agrees id now _ row1 Hwf1 Hr1); rewrite (le_run _ _ Hle1); unfold observe_job in *.
  - intros r Hne. repeat case_match; try by apply Hs.
    apply update_job_agrees; [|by apply Hs]. intros row' Hr'. simplify_eq.
    rewrite update_job_lookup, decide_True, Hr in Hr1 by done. injection Hr1 as <-.
    pose proof (le_run _ _ Hle1). split; congruence.
  - intros run Hrun Ht. assert (run_closed s (JRunID (jrow row))) as Hc.
    { apply (Hclosed run); [by repeat case_match|done]. }
    by rewrite (Hc _ _ Hr eq_refl).
Qed.

Lemma ApplyObserved_settles id phase now : settles (pg_ApplyObserved id phase now).
Proof.
  apply settles_in_tx. intros s s' [] Hwf Hs. rewrite jobIn_bind.
  destruct (pg_jobs s !! id) as [row|] eqn:Hr; [|done]. intros E.
  destruct (ApplyObserved_settled id phase now s row Hwf Hr (settled_settled_but _ _ Hs)) as [Hset _]. by rewrite E in Hset.
Qed.

Lemma cancel_row_terminal now row :
  job_known (JStatus (jrow row)) = true → job_terminal (JStatus (jrow (cancel_row now row))) = true.
Proof.
  intros Hk. unfold cancel_row, TransitionJob, CanTransitionJob. by destruct (job_terminal (JStatus (jrow row))) eqn:Ht.
Qed.

Lemma CancelRun_settles id now : settles (pg_CancelRun id now).
Proof.
  apply settles_in_tx. intros s s' [] Hwf Hs. unfold mbind, runIn.
  destruct (pg_runs s !! id) as [run|] eqn:Hrun; [|done].
  destruct (run_terminal (RStatus run)) eqn:Ht; [case_bool_decide; [by intros [= <-]|done]|].
  intros [= <-] r run'. simpl. destruct (decide (r = id)) as [->|Hne].
  - rewrite lookup_alter_eq, Hrun. intros [= <-]. destruct (Hs _ _ Hrun) as [(i & row & Hr & Hi) _]. split.
    + exists i, (cancel_row now row). simpl. rewrite lookup_fmap, Hr. simpl. rewrite bool_decide_eq_true_2 by done.
      split; [done|]. rewrite <-Hi. apply (le_run _ _ (cancel_row_le now row (pw_known _ Hwf _ _ Hr))).
    + split; [|done]. intros _ i' row'. simpl. rewrite lookup_fmap. intros (row0 & Hr0 & ->)%fmap_Some.
      pose proof (pw_known _ Hwf _ _ Hr0) as Hk.
      case_bool_decide as Hi0; [intros _; by apply cancel_row_terminal|done].
  - rewrite lookup_alter_ne by done. intros Hrun'.
    refine (rewrite_rows_agrees (fun _ row => if bool_decide (JRunID (jrow row) = id) then cancel_row now row else row)
      s (cancel_jobs id now s) r _ _ _ (Hs r) run' Hrun'); [done| |].
    + intros i. simpl. by rewrite lookup_fmap.
    + intros i row Hr. case_bool_decide; [|done].
      split; [apply (le_run _ _ (cancel_row_le now row (pw_known _ Hwf _ _ Hr)))|congruence].
Qed.

Lemma MarkCollected_settles id now : settles (pg_MarkCollected id now).
Proof. intros s _ Hs. apply update_job_settled; [|done]. intros row _. simpl. by case_match. Qed.

Lemma ReleaseClaim_settles id : settles (pg_ReleaseClaim id).
Proof. intros s _ Hs. by apply update_job_settled. Qed.

End operations.
