(* ===== verification/PostgresPort.v ===== *)
(** * The PostgreSQL store behind the port of the scheduler

    The invariants of [PostgresSpec] and [PostgresTheorems] in every reachable
    state, the laws of [Scheduler.DurableSpec], and the claims the store hands
    out. *)

From S2P Require Import Prelude GoStrings RunModel SchedulerPort MemoryStore StoreInvariant StoreOps StoreClaims Scheduler SchedulerMemory Postgres PostgresSpec PostgresTheorems.

Local Open Scope go_scope.

Implicit Types s : pg.

Section port.
Context `{MemoryEnv}.

(** ** Reachable states: transactions one after the other, while time passes *)

Definition pg_exec (o : op) (s : pg) : pg :=
  match o with
  | OpRecordDelivery d => fst (pg_RecordDelivery d s)
  | OpCreateRun seed now => fst (pg_CreateRun seed now s)
  | OpClaimNextQueuedJob => fst (pg_ClaimNextQueuedJob s)
  | OpReleaseClaim id => fst (pg_ReleaseClaim id s)
  | OpAckDispatched id obj now => fst (pg_AckDispatched id obj now s)
  | OpApplyObserved id phase now => fst (pg_ApplyObserved id phase now s)
  | OpCancelRun id now => fst (pg_CancelRun id now s)
  | OpRerequestJob id now => fst (pg_RerequestJob id now s)
  | OpMarkCollected id now => fst (pg_MarkCollected id now s)
  end.

Inductive pg_step : pg → pg → Prop :=
  | pg_step_op o s : pg_step s (pg_exec o s)
  | pg_step_clock t s : (pg_now s ≤ t)%Z → pg_step s (with_pg_now t s).

Definition pg_reachable (s : pg) : Prop := ∃ t, rtc pg_step (empty_pg t) s.

(** Histories. *)
Fixpoint mem_exec_all (os : list op) (m : store) : store :=
  match os with [] => m | o :: os' => mem_exec_all os' (exec o m) end.

Fixpoint pg_exec_all (os : list op) (s : pg) : pg :=
  match os with [] => s | o :: os' => pg_exec_all os' (pg_exec o s) end.

Lemma pg_exec_all_reachable os t : pg_reachable (pg_exec_all os (empty_pg t)).
Proof.
  exists t. generalize (empty_pg t). induction os as [|o os IH]; intros s; simpl; [done|].
  eapply rtc_l; [apply pg_step_op|apply IH].
Qed.

Context `{!MemoryEnvOk}.

Lemma pg_exec_next o s : pg_next s (pg_exec o s).
Proof.
  destruct o; simpl; [apply RecordDelivery_next|apply CreateRun_next|apply ClaimNextQueuedJob_next|
    apply ReleaseClaim_next|apply AckDispatched_next|apply ApplyObserved_next|apply CancelRun_next|
    apply RerequestJob_next|apply MarkCollected_next].
Qed.

Lemma pg_exec_settles o s : pg_wf s → pg_settled s → pg_settled (pg_exec o s).
Proof.
  destruct o; simpl; [apply RecordDelivery_settles|apply CreateRun_settles|apply ClaimNextQueuedJob_settles|
    apply ReleaseClaim_settles|apply AckDispatched_settles|apply ApplyObserved_settles|apply CancelRun_settles|
    apply RerequestJob_settles|apply MarkCollected_settles].
Qed.

Lemma pg_step_next s s' : pg_step s s' → pg_next s s'.
Proof.
  intros [o s0|t s0 _]; [apply pg_exec_next|]. intros []. split; [by split|by apply rows_le_eq].
Qed.

Lemma pg_steps_next s s' : rtc pg_step s s' → pg_next s s'.
Proof. induction 1; [reflexivity|]. etrans; [by apply pg_step_next|done]. Qed.

Lemma pg_steps_settled s s' : rtc pg_step s s' → pg_wf s → pg_settled s → pg_settled s'.
Proof.
  induction 1 as [|s s1 s' Hst _ IH]; [done|]. intros Hwf Hs.
  destruct (pg_step_next _ _ Hst Hwf) as [Hwf1 _]. apply IH; [done|].
  destruct Hst; [by apply pg_exec_settles|]. by eapply settled_ext.
Qed.

Lemma pg_reachable_inv s : pg_reachable s → pg_wf s ∧ pg_settled s.
Proof.
  intros [t Hst]. destruct (pg_steps_next _ _ Hst (empty_pg_wf t)) as [Hwf _]. split; [done|].
  eapply pg_steps_settled; [done|apply empty_pg_wf|]. by intros r run.
Qed.

(** ** The laws of the port *)

Definition pg_run (s : pg) (k : DeliveryKey) : option RunID :=
  (fun row => default "" (drow_run row)) <$> pg_deliveries s !! k.
Definition pg_job (s : pg) (id : JobRunID) : option JobRunRecord := jrow <$> pg_jobs s !! id.
Definition pg_claimed (s : pg) (id : JobRunID) : Prop :=
  ∃ row, pg_jobs s !! id = Some row ∧ is_Some (jrow_claimed row).
Definition pg_gcready (s : pg) (id : JobRunID) : Prop :=
  ∃ row, pg_jobs s !! id = Some row ∧ pg_gc_ready s (jrow row) = true.

Lemma RecordDelivery_known d s row :
  pg_deliveries s !! DKey d = Some row → pg_RecordDelivery d s = (s, Ok (record_of (DKey d) row, false)).
Proof. intros E. unfold pg_RecordDelivery, mbind, delivery. rewrite E. simpl. by rewrite E. Qed.

Lemma RecordDelivery_fresh d s :
  pg_deliveries s !! DKey d = None → ∃ s' row, pg_RecordDelivery d s = (s', Ok (record_of (DKey d) row, true)) ∧
    drow_run row = None ∧ pg_deliveries s' !! DKey d = Some row.
Proof.
  intros E. unfold pg_RecordDelivery, mbind, delivery. rewrite E. simpl. rewrite lookup_insert_eq.
  eexists _, _. split; [done|]. simpl. by rewrite lookup_insert_eq.
Qed.

Lemma pg_law_record d s : pg_wf s → ∃ s' rec b,
  pg_RecordDelivery d s = (s', Ok (rec, b)) ∧ pg_wf s' ∧
  DRRunID rec = default "" (pg_run s (DKey d)) ∧ pg_run s' (DKey d) = Some (DRRunID rec) ∧
  ∃ b', pg_RecordDelivery d s' = (s', Ok (rec, b')).
Proof.
  intros Hwf. destruct (RecordDelivery_next d s Hwf) as [Hwf' _]. unfold pg_run.
  destruct (pg_deliveries s !! DKey d) as [row|] eqn:E.
  - pose proof (RecordDelivery_known _ _ _ E).
    exists s, (record_of (DKey d) row), false. rewrite E. split_and!; eauto.
  - destruct (RecordDelivery_fresh _ _ E) as (s' & row & Er & Hrow & Hk). rewrite Er in Hwf'.
    exists s', (record_of (DKey d) row), true. rewrite Hk. simpl. rewrite Hrow. split_and!; try done.
    exists false. by apply RecordDelivery_known.
Qed.

Lemma pg_law_ack id obj now s j :
  pg_wf s → pg_job s id = Some j →
  JStatus j = JobQueued ∨ (JStatus j = JobDispatched ∧ (JActiveName j = "" ∨ JActiveName j = ObjName obj)) →
  ∃ s' j', pg_AckDispatched id obj now s = (s', Ok tt) ∧ pg_wf s' ∧ ¬ pg_claimed s' id ∧
    pg_job s' id = Some j' ∧ JStatus j' = JobDispatched ∧ JActiveName j' = ObjName obj ∧
    JActiveUID j' = ObjUID obj ∧ ∀ id', id' ≠ id → pg_job s' id' = pg_job s id'.
Proof.
  intros Hwf (row & Hr & ->)%fmap_Some Hst. destruct (AckDispatched_next id obj now s Hwf) as [Hwf' _].
  set (s1 := update_job id (dispatched_row obj now) s).
  assert (pg_AckDispatched id obj now s = (s1, Ok tt)) as E.
  { unfold pg_AckDispatched, in_tx. rewrite jobIn_bind, Hr. destruct Hst as [->|[-> Hn]]; [done|].
    destruct (bool_decide (JActiveName (jrow row) ≠ "") && _) eqn:Eb; [|done]. breflect. naive_solver. }
  rewrite E in Hwf'. assert (pg_jobs s1 !! id = Some (dispatched_row obj now row)) as Hr1.
  { unfold s1. by rewrite update_job_lookup, decide_True, Hr. }
  exists s1, (jrow (dispatched_row obj now row)). split; [exact E|]. split; [exact Hwf'|].
  unfold pg_job, pg_claimed. rewrite Hr1. split_and!; try done.
  - intros (row' & ? & [t Ht]). by simplify_eq.
  - intros id' Hne. unfold s1. by rewrite update_job_lookup, decide_False.
Qed.

Lemma pg_law_gc s : pg_wf s → ∃ l, pg_ListGCReadyJobs s = (s, Ok l) ∧ ∀ id, id ∈ map JID l ↔ pg_gcready s id.
Proof.
  intros Hwf. eexists. split; [done|]. intros id. change @map with @list_fmap.
  rewrite list_elem_of_fmap. setoid_rewrite sort_by_elem. setoid_rewrite select_jobs_elem. unfold pg_gcready. split.
  - intros (j & -> & (i & row & Hr & <-) & Hg). exists row. by rewrite (pw_job _ Hwf _ _ Hr).
  - intros (row & Hr & Hg). exists (jrow row). rewrite (pw_job _ Hwf _ _ Hr). eauto 8.
Qed.

Lemma gc_ready_ext s s' j : pg_runs s' = pg_runs s → pg_gc_ready s' j = pg_gc_ready s j.
Proof. intros E. unfold pg_gc_ready. by rewrite E. Qed.

Lemma pg_law_mark id now s j : pg_wf s → pg_job s id = Some j →
  ∃ s', pg_MarkCollected id now s = (s', Ok tt) ∧ pg_wf s' ∧
    (∀ id', pg_gcready s' id' ↔ pg_gcready s id' ∧ id' ≠ id) ∧
    (∀ id', JStatus <$> pg_job s' id' = JStatus <$> pg_job s id').
Proof.
  intros Hwf _. destruct (MarkCollected_next id now s Hwf) as [Hwf' _]. unfold pg_MarkCollected in *.
  eexists. split; [done|]. split; [done|]. simpl in *. split.
  - intros id'. unfold pg_gcready. rewrite update_job_lookup. setoid_rewrite gc_ready_ext at 1; [|done].
    case_decide as Hid; [|naive_solver]. subst id'. split; [|naive_solver].
    intros (row & (row0 & Hr & ->)%fmap_Some & Hg). exfalso. unfold pg_gc_ready in Hg. simpl in Hg.
    repeat case_match; simpl in *; breflect; congruence.
  - intros id'. unfold pg_job. rewrite update_job_lookup. case_decide; [|done].
    destruct (pg_jobs s !! id') as [row|]; simpl; [|done]. by case_match.
Qed.

#[export] Instance postgres_durable_spec : DurableSpec pg.
Proof.
  refine {| d_inv := pg_wf; d_run := pg_run; d_job := pg_job; d_claimed := pg_claimed;
            d_gcready := pg_gcready |}; simpl.
  - apply pg_law_record.
  - intros seed now s s' run b Hwf Hc. destruct (CreateRun_next seed now s Hwf) as [Hwf' _]. rewrite Hc in Hwf'.
    destruct (pg_CreateRun_bound _ _ _ _ _ _ Hwf Hc) as [(row & Hk & Hr) Hne].
    split_and!; [done| |done]. unfold pg_run. rewrite Hk. simpl. by rewrite Hr.
  - intros d s Hwf [r Hr]. unfold pg_run in Hr.
    destruct (pg_deliveries s !! DKey d) as [row|] eqn:E; [|done]. eexists. by apply RecordDelivery_known.
  - intros id s _. unfold jobIn, pg_job. by destruct (pg_jobs s !! id).
  - intros s s' j Hwf Hc. destruct (ClaimNextQueuedJob_next s Hwf) as [Hwf' _]. rewrite Hc in Hwf'.
    split; [done|]. unfold pg_ClaimNextQueuedJob, mbind, in_tx in Hc.
    destruct (pg_claim_loop (claim_ids s) s) as [s1 [[j1|]|e|]] eqn:E; try done.
    injection Hc as <- <-.
    destruct (claim_loop_ok _ _ _ _ E) as (id & row & _ & Hr & <- & Hq & Hcl).
    rewrite (pw_job _ Hwf' _ _ Hr). unfold pg_job, pg_claimed. rewrite Hr. eauto.
  - intros id s Hwf. destruct (ReleaseClaim_next id s Hwf) as [Hwf' _]. eexists. split; [done|].
    split; [done|]. unfold pg_job, pg_claimed. split.
    + intros (row & Hr & Hcl). rewrite update_job_lookup, decide_True in Hr by done.
      apply fmap_Some in Hr as (row0 & _ & ->). by destruct Hcl.
    + intros id'. rewrite update_job_lookup. case_decide; [|done]. by destruct (pg_jobs s !! id').
  - apply pg_law_ack.
  - apply pg_law_gc.
  - intros s id _ (row & Hr & Hg). exists (jrow row). unfold pg_job. rewrite Hr. split; [done|].
    unfold pg_gc_ready in Hg. by breflect.
  - apply pg_law_mark.
Defined.

(** ** What every history keeps *)

(** C7. In every state that transactions reach one after the other, the keys and
    references of the tables are sound, every run has a job, and a run is settled
    exactly when all its jobs are. *)
Theorem postgres_runs_agree_with_jobs s :
  pg_reachable s →
  pg_wf s ∧
  ∀ r run, pg_runs s !! r = Some run →
    (∃ id row, pg_jobs s !! id = Some row ∧ JRunID (jrow row) = r) ∧
    (run_terminal (RStatus run) = true ↔
       ∀ id row, pg_jobs s !! id = Some row → JRunID (jrow row) = r → job_terminal (JStatus (jrow row)) = true).
Proof. intros Hr. destruct (pg_reachable_inv s Hr) as [Hwf Hs]. split; [done|]. apply Hs. Qed.

(** No transaction takes a job back, or changes a settled one. *)
Theorem postgres_jobs_move_forward s s' id row :
  pg_reachable s → rtc pg_step s s' → pg_jobs s !! id = Some row →
  ∃ row', pg_jobs s' !! id = Some row' ∧ job_le (jrow row) (jrow row').
Proof.
  intros Hr Hst Hrow. destruct (pg_reachable_inv s Hr) as [Hwf _].
  destruct (pg_steps_next _ _ Hst Hwf) as [_ Hle]. by apply Hle.
Qed.
End port.

Definition pg_demo_created : pg := pg_exec_all demo_start (empty_pg 1000000).

Lemma postgres_runs_agree_with_jobs_witness :
  ∃ run, pg_runs pg_demo_created !! demo_run = Some run ∧
    ¬ (∀ id row, pg_jobs pg_demo_created !! id = Some row → JRunID (jrow row) = demo_run →
         job_terminal (JStatus (jrow row)) = true).
Proof.
  destruct (postgres_runs_agree_with_jobs pg_demo_created (pg_exec_all_reachable demo_start 1000000)) as [_ Hall].
  eexists. split; [vm_compute; reflexivity|].
  destruct (Hall demo_run _ ltac:(vm_compute; reflexivity)) as [_ [_ Hiff]].
  intros Hterm. specialize (Hiff Hterm). discriminate Hiff.
Defined.

Lemma postgres_jobs_move_forward_witness :
  ∃ row', pg_jobs (pg_exec (OpCancelRun demo_run 7000) pg_demo_created) !! demo_build = Some row' ∧
    jobRank JobQueued ≤ jobRank (JStatus (jrow row')).
Proof.
  destruct (postgres_jobs_move_forward pg_demo_created (pg_exec (OpCancelRun demo_run 7000) pg_demo_created) demo_build
    {| jrow := newJob demo_build demo_run (demo_intent "build" [] "") 0; jrow_claimed := None |}) as (row' & Hr & Hle).
  - apply pg_exec_all_reachable.
  - apply rtc_once, pg_step_op.
  - vm_compute. reflexivity.
  - exists row'. split; [exact Hr|exact (le_rank _ _ Hle)].
Defined.
