(* ===== verification/PostgresClaims.v ===== *)
(** * The claims of the PostgreSQL store

    [ClaimNextQueuedJob] hands out the oldest queued job that nobody holds and
    whose dependencies have succeeded, or failed under a condition; on its way
    it skips the jobs whose dependencies failed.  A claim expires. *)

From S2P Require Import Prelude GoStrings RunModel SchedulerPort MemoryStore StoreInvariant StoreOps StoreClaims Scheduler Postgres PostgresSpec PostgresTheorems PostgresPort.

Local Open Scope go_scope.

Implicit Types s : pg.

(** ** What skipping other jobs leaves alone *)

(** The same job, unless it was queued and is not any more; success is neither
    gained nor lost. *)
Record same_success (a b : JobRunRecord) : Prop := {
  ss_run : JRunID b = JRunID a;
  ss_key : JJobKey b = JJobKey a;
  ss_attempt : JAttempt b = JAttempt a;
  ss_deps : JDependsOn b = JDependsOn a;
  ss_status : JStatus b = JobSucceeded ↔ JStatus a = JobSucceeded;
  ss_queued : JStatus b = JobQueued → b = a;
  ss_terminal : job_terminal (JStatus a) = true → b = a
}.

Definition relabelled (s s' : pg) : Prop :=
  ∃ h, pg_jobs s' = h <$> pg_jobs s ∧
    ∀ row, same_success (jrow row) (jrow (h row)) ∧ jrow_claimed (h row) = jrow_claimed row.

#[export] Instance same_success_refl : Reflexive same_success.
Proof. intros j. by split. Qed.

#[export] Instance same_success_trans : Transitive same_success.
Proof.
  intros a b c [] []. split; try congruence; [by etrans|..].
  - intros Hq. specialize (ss_queued1 Hq). subst. auto.
  - intros Ht. specialize (ss_terminal0 Ht). subst. auto.
Qed.

#[export] Instance relabelled_refl : Reflexive relabelled.
Proof. intros s. exists id. rewrite map_fmap_id. by repeat split. Qed.

#[export] Instance relabelled_trans : Transitive relabelled.
Proof.
  intros s1 s2 s3 (h1 & E1 & H1) (h2 & E2 & H2). exists (h2 ∘ h1). rewrite E2, E1, <-map_fmap_compose. split; [done|].
  intros row. destruct (H1 row), (H2 (h1 row)). split; [by etrans|simpl; congruence].
Qed.

Lemma relabelled_ext s s' : pg_jobs s' = pg_jobs s → relabelled s s'.
Proof. intros E. exists id. rewrite E, map_fmap_id. by repeat split. Qed.

Lemma update_job_fmap id f s :
  pg_wf s → pg_jobs (update_job id f s) = (fun row => if decide (JID (jrow row) = id) then f row else row) <$> pg_jobs s.
Proof.
  intros Hwf. apply map_eq. intros i. rewrite update_job_lookup, lookup_fmap.
  destruct (pg_jobs s !! i) as [row|] eqn:E; simpl; [|by destruct (decide (id = i))].
  rewrite (pw_job _ Hwf _ _ E). destruct (decide (id = i)); [by rewrite decide_True|by rewrite decide_False].
Qed.

Lemma skip_relabelled id now s : pg_wf s → relabelled s (update_job id (skip_row now) s).
Proof.
  intros Hwf. eexists. split; [by apply update_job_fmap|]. intros row. simpl. case_decide; [|done].
  unfold skip_row, if_queued. case_bool_decide as Hq; [|done]. split; [|done]. split; try done; by rewrite Hq.
Qed.

(** ** Dependencies *)

#[export] Instance filter_perm {A} (p : A → bool) : Proper ((≡ₚ) ==> (≡ₚ)) (List.filter p).
Proof.
  intros l l'. induction 1; simpl; try done.
  - by case_match; [constructor|].
  - repeat case_match; try done; constructor.
  - by etrans.
Qed.

Lemma filter_map {A B} (h : A → B) (p : B → bool) l : List.filter p (map h l) = map h (List.filter (fun x => p (h x)) l).
Proof. induction l; simpl; [done|]. by case_match; simpl; f_equal. Qed.

Lemma filter_same {A} (p q : A → bool) l : (∀ x, p x = q x) → List.filter p l = List.filter q l.
Proof. intros E. induction l; simpl; [done|]. by rewrite E, IHl. Qed.

#[export] Instance forallb_perm {A} (p : A → bool) : Proper ((≡ₚ) ==> eq) (forallb p).
Proof.
  intros l l' Hp. apply eq_true_iff_eq. rewrite !forallb_forall. setoid_rewrite <-list_elem_of_In.
  by setoid_rewrite Hp.
Qed.

Lemma forallb_map {A B} (h : A → B) (p : B → bool) l : forallb p (map h l) = forallb (fun x => p (h x)) l.
Proof. induction l; simpl; [done|]. by f_equal. Qed.

#[export] Instance latest_perm keys : Proper ((≡ₚ) ==> (≡ₚ)) (latest_attempts keys).
Proof.
  intros l l' Hp. unfold latest_attempts. cbv zeta. etrans; [by apply filter_perm, filter_perm|].
  erewrite filter_same; [done|]. intros j. simpl. apply forallb_perm. by rewrite Hp.
Qed.

(** Two readings of the same rows that agree on run, key and attempt. *)
Lemma latest_parallel {A} (f g : A → JobRunRecord) keys r l :
  (∀ x, JRunID (f x) = JRunID (g x) ∧ JJobKey (f x) = JJobKey (g x) ∧ JAttempt (f x) = JAttempt (g x)) →
  ∃ L, latest_attempts keys (List.filter (fun j => bool_decide (JRunID j = r)) (map f l)) = map f L ∧
       latest_attempts keys (List.filter (fun j => bool_decide (JRunID j = r)) (map g l)) = map g L.
Proof.
  intros Hfg. unfold latest_attempts. rewrite !filter_map. eexists. split; [done|]. f_equal.
  rewrite (filter_same (fun x => bool_decide (JRunID (g x) = r)) (fun x => bool_decide (JRunID (f x) = r)))
    by (intros x; by destruct (Hfg x) as (-> & _)).
  rewrite (filter_same (fun x => bool_decide (JJobKey (g x) ∈ keys)) (fun x => bool_decide (JJobKey (f x) ∈ keys)))
    by (intros x; by destruct (Hfg x) as (_ & -> & _)).
  apply filter_same. intros x. rewrite !forallb_map. destruct (Hfg x) as (_ & -> & ->).
  induction (List.filter _ _) as [|y L IH]; simpl; [done|]. by destruct (Hfg y) as (_ & -> & ->); rewrite IH.
Qed.

Lemma existsb_false {A} (p : A → bool) l : existsb p l = false ↔ ∀ x, x ∈ l → p x = false.
Proof.
  induction l as [|y l IH]; simpl; [split; [intros _ x; set_solver|done]|].
  rewrite orb_false_iff, IH. setoid_rewrite elem_of_cons. naive_solver.
Qed.

Lemma dep_verdict_ready sts : dep_verdict sts = depsReady ↔ ∀ st, st ∈ sts → st = JobSucceeded.
Proof.
  transitivity (existsb (fun st => negb (bool_decide (st = JobSucceeded))) sts = false).
  - unfold dep_verdict. destruct (existsb (fun st => _ && _) sts) eqn:E1; [|by case_match; split].
    split; [done|]. rewrite existsb_false. intros Hall. exfalso.
    apply existsb_exists in E1 as (st & Hin%list_elem_of_In & E). by rewrite (Hall st Hin) in E.
  - rewrite existsb_false. setoid_rewrite negb_false_iff. by setoid_rewrite bool_decide_eq_true.
Qed.

Definition latest_of (s : pg) (job : JobRunRecord) : list JobRunRecord :=
  latest_attempts (JDependsOn job) (run_jobs (JRunID job) s).

(** What the dependency query decides: as many latest attempts as names, all
    of them succeeded. *)
Lemma pg_ready_iff id s row :
  pg_jobs s !! id = Some row →
  pg_depState id s = depsReady ↔
    JDependsOn (jrow row) = [] ∨
    (length (latest_of s (jrow row)) = length (JDependsOn (jrow row)) ∧
     ∀ j, j ∈ latest_of s (jrow row) → JStatus j = JobSucceeded).
Proof.
  intros Hr. unfold pg_depState. rewrite Hr. cbv zeta. fold (latest_of s (jrow row)).
  change @map with @list_fmap. rewrite length_fmap. case_bool_decide as Hd.
  { split; [|done]. intros _. left. by apply nil_length_inv. }
  case_bool_decide as Hl; simpl.
  - rewrite dep_verdict_ready. setoid_rewrite list_elem_of_fmap. split; [|intros [E|[_ Hall]]; [by rewrite E in Hd|naive_solver]].
    intros Hall. right. split; [done|]. intros j Hj. apply Hall. eauto.
  - split; [done|]. intros [E|[? _]]; [by rewrite E in Hd|done].
Qed.

(** It decides failure on a latest attempt that ended without success. *)
Lemma pg_failed_iff id s row :
  pg_jobs s !! id = Some row →
  pg_depState id s = depsFailed ↔
    JDependsOn (jrow row) ≠ [] ∧
    length (latest_of s (jrow row)) = length (JDependsOn (jrow row)) ∧
    ∃ j, j ∈ latest_of s (jrow row) ∧ JStatus j ≠ JobSucceeded ∧ job_terminal (JStatus j) = true.
Proof.
  intros Hr. unfold pg_depState. rewrite Hr. cbv zeta. fold (latest_of s (jrow row)).
  change @map with @list_fmap. rewrite length_fmap. case_bool_decide as Hd.
  { split; [done|]. apply nil_length_inv in Hd. by intros [? _]. }
  assert (JDependsOn (jrow row) ≠ []) as Hne by (intros E; by rewrite E in Hd).
  case_bool_decide as Hl; simpl; [|split; [done|by intros (_ & ? & _)]].
  transitivity (existsb (fun st => negb (bool_decide (st = JobSucceeded)) && job_terminal st)
    (JStatus <$> latest_of s (jrow row)) = true).
  { unfold dep_verdict. change (list_fmap _ _ JStatus) with (fmap (M := list) JStatus).
    destruct (existsb (fun st => _ && _) _); [by split|]. by destruct (existsb _ _); split. }
  rewrite existsb_exists. setoid_rewrite <-list_elem_of_In. setoid_rewrite list_elem_of_fmap.
  setoid_rewrite andb_true_iff. setoid_rewrite negb_true_iff. setoid_rewrite bool_decide_eq_false.
  clear -Hne Hl. naive_solver.
Qed.

(** The latest attempts before and after such changes are the same rows. *)
Lemma relabelled_latest s s' h row :
  pg_jobs s' = h <$> pg_jobs s →
  (∀ r, same_success (jrow r) (jrow (h r)) ∧ jrow_claimed (h r) = jrow_claimed r) →
  ∃ L, latest_of s (jrow row) = map jrow L ∧ latest_of s' (jrow (h row)) ≡ₚ map (fun x => jrow (h x)) L.
Proof.
  intros E Hh. destruct (Hh row) as [[Hrun _ _ Hdeps _ _ _] _]. unfold latest_of. rewrite Hrun, Hdeps.
  set (keys := JDependsOn (jrow row)). set (r := JRunID (jrow row)).
  destruct (latest_parallel jrow (fun x => jrow (h x)) keys r (map snd (map_to_list (pg_jobs s)))) as (L & EL & EL').
  { intros x. destruct (Hh x) as [[] _]. done. }
  exists L. split; [exact EL|]. rewrite <-EL'. apply latest_perm. unfold run_jobs, select_jobs.
  apply filter_perm. rewrite E. change @map with @list_fmap.
  rewrite map_to_list_fmap, <-!list_fmap_compose. done.
Qed.

(** Such changes neither make a job ready nor stop it being ready. *)
Lemma relabelled_ready id s s' :
  relabelled s s' → pg_depState id s' = depsReady ↔ pg_depState id s = depsReady.
Proof.
  intros (h & E & Hh). destruct (pg_jobs s !! id) as [row|] eqn:Hr.
  2: { unfold pg_depState. by rewrite E, lookup_fmap, Hr. }
  rewrite (pg_ready_iff id s row Hr), (pg_ready_iff id s' (h row)) by (by rewrite E, lookup_fmap, Hr).
  destruct (relabelled_latest s s' h row E Hh) as (L & EL & Hp). rewrite EL. setoid_rewrite Hp.
  destruct (Hh row) as [[_ _ _ Hdeps _ _ _] _]. rewrite Hdeps.
  change @map with @list_fmap. rewrite !length_fmap. setoid_rewrite list_elem_of_fmap.
  assert (∀ x, JStatus (jrow (h x)) = JobSucceeded ↔ JStatus (jrow x) = JobSucceeded) as Hs by (intros x; apply (Hh x)).
  clear -Hs. naive_solver.
Qed.

(** They do not mend failed dependencies either. *)
Lemma relabelled_failed id s s' :
  relabelled s s' → pg_depState id s = depsFailed → pg_depState id s' = depsFailed.
Proof.
  intros (h & E & Hh). destruct (pg_jobs s !! id) as [row|] eqn:Hr.
  2: { unfold pg_depState. by rewrite Hr. }
  rewrite (pg_failed_iff id s row Hr), (pg_failed_iff id s' (h row)) by (by rewrite E, lookup_fmap, Hr).
  destruct (relabelled_latest s s' h row E Hh) as (L & EL & Hp). rewrite EL.
  destruct (Hh row) as [[_ _ _ Hdeps _ _ _] _]. rewrite Hdeps.
  change @map with @list_fmap in *. rewrite length_fmap.
  intros (Hne & Hlen & j & (x & -> & Hx)%list_elem_of_fmap & Hst & Ht).
  split_and!; [done|by rewrite Hp, length_fmap|]. exists (jrow (h x)).
  destruct (Hh x) as [Hss _]. rewrite (ss_terminal _ _ Hss Ht). split; [|done].
  rewrite Hp. apply list_elem_of_fmap. exists x. by rewrite (ss_terminal _ _ Hss Ht).
Qed.

(** A sweep: the jobs that are ready are left alone, and so is the clock; a row
    that changes was queued without a condition and is marked skipped. *)
Record swept (s s' : pg) : Prop := {
  sw_rows : relabelled s s';
  sw_ready : ∀ id row, pg_jobs s !! id = Some row → pg_depState id s = depsReady → pg_jobs s' !! id = Some row;
  sw_now : pg_now s' = pg_now s;
  sw_skipped : ∀ id row, pg_jobs s !! id = Some row → pg_jobs s' !! id = Some row ∨
    (JStatus (jrow row) = JobQueued ∧ JCondition (jrow row) = "" ∧
     pg_depState id s' = depsFailed ∧ pg_jobs s' !! id = Some (skip_row (pg_now s) row))
}.

#[export] Instance swept_refl : Reflexive swept.
Proof. intros s. by split; auto. Qed.

Lemma skip_row_status now row : JStatus (jrow row) = JobQueued → JStatus (jrow (skip_row now row)) = JobSkipped.
Proof. intros E. unfold skip_row, if_queued. by rewrite bool_decide_eq_true_2. Qed.

#[export] Instance swept_trans : Transitive swept.
Proof.
  intros s1 s2 s3 [H12 C12 N12 K12] [H23 C23 N23 K23]. split; [by etrans| |congruence|].
  - intros id row Hr Hd. apply C23; [by apply C12|]. by apply (relabelled_ready id s1 s2).
  - intros id row Hr. rewrite <-N12. destruct (K12 id row Hr) as [Hr2|(Hq & Hc & Hd & Hr2)].
    + by apply K23.
    + rewrite <-N12 in Hr2. right. split_and!; [done..|by eapply relabelled_failed|].
      destruct (K23 _ _ Hr2) as [?|(Hq2 & _)]; [done|]. by rewrite skip_row_status in Hq2.
Qed.

Lemma swept_ext s s' : pg_jobs s' = pg_jobs s → pg_now s' = pg_now s → swept s s'.
Proof. intros E En. split; [by apply relabelled_ext| |done|]; intros id row; rewrite E; auto. Qed.

Lemma no_condition id s row :
  has_condition id s = false → pg_jobs s !! id = Some row → JCondition (jrow row) = "".
Proof. unfold has_condition. intros Hc Hr. rewrite Hr in Hc. breflect. by apply dec_stable. Qed.

Lemma skip_swept id now s :
  pg_wf s → pg_depState id s = depsFailed → has_condition id s = false → now = pg_now s →
  swept s (update_job id (skip_row now) s).
Proof.
  intros Hwf Hd Hc ->. pose proof (skip_relabelled id (pg_now s) s Hwf) as Hre.
  split; [done| |done|]; intros id' row Hr; rewrite update_job_lookup.
  - intros Hd'. case_decide; [congruence|done].
  - case_decide as E; [subst id'|by left]. rewrite Hr. simpl.
    destruct (decide (JStatus (jrow row) = JobQueued)) as [Hq|Hq].
    + right. split_and!; [done| |by eapply relabelled_failed|done].
      by eapply no_condition.
    + left. unfold skip_row, if_queued. by rewrite bool_decide_eq_false_2.
Qed.

Lemma refreshRun_now id now s : pg_now (fst (refreshRun id now s)) = pg_now s.
Proof. unfold refreshRun. repeat case_match; done. Qed.

(** ** The claim loop *)

Section claims.
Context `{MemoryEnv}.

(** A job that cannot be handed out: not queued, or its dependencies open. *)
Definition not_ready (s : pg) (id : JobRunID) : Prop :=
  ∀ row, pg_jobs s !! id = Some row → JStatus (jrow row) = JobQueued → pg_depState id s ≠ depsReady.

Lemma swept_not_ready id s s' : swept s s' → not_ready s id → not_ready s' id.
Proof.
  intros [Hre _ _] Hn row' Hr' Hq Hd. apply (relabelled_ready id s s' Hre) in Hd.
  destruct Hre as (h & E & Hh). rewrite E, lookup_fmap in Hr'. apply fmap_Some in Hr' as (row & Hr & ->).
  apply (Hn row Hr); [|done]. destruct (Hh row) as [Hss _]. by rewrite <-(ss_queued _ _ Hss Hq).
Qed.

(** A queued job that was ready stays so, and is not passed over. *)
Lemma swept_passed id s s' row :
  swept s s' → not_ready s' id → pg_jobs s !! id = Some row → JStatus (jrow row) = JobQueued →
  pg_depState id s ≠ depsReady.
Proof.
  intros [Hre Hk _] Hn Hr Hq Hd. apply (Hn row (Hk _ _ Hr Hd) Hq). by apply (relabelled_ready id s s').
Qed.

(** What the loop did with a job it passed over whose dependencies had failed:
    it had no condition, and its row is the skipped one now. *)
Definition pg_closed (s s1 : pg) (id : JobRunID) : Prop :=
  ∀ row, pg_jobs s !! id = Some row → JStatus (jrow row) = JobQueued → pg_depState id s = depsFailed →
    JCondition (jrow row) = "" ∧ pg_jobs s1 !! id = Some (skip_row (pg_now s) row).

Lemma pg_closed_mono s s0 s1 id : swept s0 s1 → pg_closed s s0 id → pg_closed s s1 id.
Proof.
  intros Hsw Hc row Hr Hq Hd. destruct (Hc row Hr Hq Hd) as [Hcond Hr0]. split; [done|].
  destruct (sw_skipped _ _ Hsw _ _ Hr0) as [?|(Hq0 & _)]; [done|]. by rewrite skip_row_status in Hq0.
Qed.

Lemma pg_closed_from s s0 s1 id :
  swept s s0 → swept s0 s1 → pg_closed s0 s1 id → pg_closed s s1 id.
Proof.
  intros Hsw Hsw1 Hc row Hr Hq Hd. rewrite <-(sw_now _ _ Hsw).
  destruct (sw_skipped _ _ Hsw _ _ Hr) as [Hr0|(_ & Hcond & _ & Hr0)].
  - apply (Hc row Hr0 Hq). by eapply relabelled_failed; [apply Hsw|].
  - split; [done|]. rewrite (sw_now _ _ Hsw).
    destruct (sw_skipped _ _ Hsw1 _ _ Hr0) as [?|(Hq0 & _)]; [done|]. by rewrite skip_row_status in Hq0.
Qed.

Definition claim_taken (ids : list JobRunID) (s s' : pg) (j : JobRunRecord) : Prop :=
  ∃ s1 pre id post row, ids = pre ++ id :: post ∧ swept s s1 ∧ pg_wf s1 ∧
    s' = update_job id (set_claim (Some (stamp (pg_now s1)))) s1 ∧ pg_jobs s1 !! id = Some row ∧
    jrow row = j ∧ JStatus j = JobQueued ∧ pg_depState id s1 ≠ depsBlocked ∧
    (JCondition j = "" → pg_depState id s1 = depsReady) ∧
    ∀ x, x ∈ pre → not_ready s1 x ∧ pg_closed s s1 x.

(** One job passed over, then the rest. *)
Lemma claim_pass id ids s s0 s' j :
  swept s s0 → not_ready s0 id → pg_closed s s0 id → claim_taken ids s0 s' j → claim_taken (id :: ids) s s' j.
Proof.
  intros Hsw Hn Hcl (s1 & pre & x & post & row & -> & Hsw1 & Hwf1 & -> & Hr & Hj & Hq & Hb & Hc & Hpre).
  exists s1, (id :: pre), x, post, row. split_and!; try done; [by etrans|].
  intros y [->|Hin]%elem_of_cons; [eauto using swept_not_ready, pg_closed_mono|].
  destruct (Hpre y Hin). eauto using pg_closed_from.
Qed.

Lemma none_pass id ids s s0 s' :
  swept s s0 → not_ready s0 id → swept s0 s' ∧ (∀ x, x ∈ ids → not_ready s' x) →
  swept s s' ∧ ∀ x, x ∈ id :: ids → not_ready s' x.
Proof.
  intros Hsw Hn [Hsw1 Hall]. split; [by etrans|].
  intros y [->|Hin]%elem_of_cons; [by eapply swept_not_ready|auto].
Qed.

Lemma claim_loop_result ids s :
  pg_wf s →
  ∃ s' r, pg_claim_loop ids s = (s', Ok r) ∧
    match r with
    | Some j => claim_taken ids s s' j
    | None => swept s s' ∧ ∀ x, x ∈ ids → not_ready s' x
    end.
Proof.
  revert s. induction ids as [|id ids IH]; intros s Hwf.
  { exists s, None. split_and!; [done|reflexivity|]. intros x Hx. by apply not_elem_of_nil in Hx. }
  assert (∀ s0, pg_wf s0 → swept s s0 → not_ready s0 id → pg_closed s s0 id →
    ∃ s' r, pg_claim_loop ids s0 = (s', Ok r) ∧
      match r with Some j => claim_taken (id :: ids) s s' j
                 | None => swept s s' ∧ ∀ x, x ∈ id :: ids → not_ready s' x end) as Hpass.
  { intros s0 Hwf0 Hsw Hn Hcl. destruct (IH s0 Hwf0) as (s' & r & E & Hr). exists s', r. split; [done|].
    destruct r; [by eapply claim_pass|by eapply none_pass]. }
  assert (pg_depState id s ≠ depsBlocked →
    (∀ row, pg_jobs s !! id = Some row → JCondition (jrow row) = "" → pg_depState id s = depsReady) →
    ∃ s' r, (let* r := take_claim id in
       match r with Some job => mret (Some job) | None => pg_claim_loop ids end) s = (s', Ok r) ∧
      match r with Some j => claim_taken (id :: ids) s s' j
                 | None => swept s s' ∧ ∀ x, x ∈ id :: ids → not_ready s' x end) as Htake.
  { intros Hb Hc. unfold take_claim, mbind. destruct (pg_jobs s !! id) as [row|] eqn:Hr.
    - case_bool_decide as Hq.
      + eexists _, (Some (jrow row)). split; [done|]. exists s, [], id, ids, row.
        split_and!; try done; [by apply Hc|]. intros x Hx. by apply not_elem_of_nil in Hx.
      + apply Hpass; [done|reflexivity|..]; intros row' ?; by simplify_eq.
    - apply Hpass; [done|reflexivity|..]; intros row'; by rewrite Hr. }
  simpl. destruct (pg_depState id s) eqn:Hd.
  - apply Htake; done.
  - apply Hpass; [done|reflexivity|..]; intros row' _ _; by rewrite Hd.
  - destruct (has_condition id s) eqn:Hcond.
    + apply Htake; [done|]. intros row Hr Hc. unfold has_condition in Hcond. rewrite Hr, Hc in Hcond. done.
    + assert (∃ row, pg_jobs s !! id = Some row) as [row Hr].
      { unfold pg_depState in Hd. destruct (pg_jobs s !! id) as [row|]; [eauto|done]. }
      set (s1 := update_job id (skip_row (pg_now s)) s).
      assert (pg_jobs s1 !! id = Some (skip_row (pg_now s) row)) as Hr1.
      { unfold s1. by rewrite update_job_lookup, decide_True, Hr. }
      destruct (update_job_next id (skip_row (pg_now s)) s) as [Hwf1 _]; [intros; apply skip_row_le|done|].
      fold s1 in Hwf1. pose proof (refreshRun_ok id (pg_now s) s1 Hwf1 ltac:(eauto)) as Hok.
      pose proof (refreshRun_jobs id (pg_now s) s1) as Ej. pose proof (refreshRun_now id (pg_now s) s1) as En.
      destruct (refreshRun_next id (pg_now s) s1 Hwf1) as [Hwf2 _].
      unfold mbind. destruct (refreshRun id (pg_now s) s1) as [s2 res].
      cbn [fst snd] in *. subst res.
      apply Hpass; [done|transitivity s1; [by apply skip_swept|by apply swept_ext]|..].
      2: { intros row' Hr' _ _. rewrite Ej, Hr1. simplify_eq. split; [|done].
        by eapply no_condition. }
      intros row' Hr' Hq. rewrite Ej, Hr1 in Hr'. injection Hr' as <-.
      unfold skip_row, if_queued in Hq. case_bool_decide as Hq0; [done|]. by rewrite Hq in Hq0.
Qed.

(** ** The order of the candidates *)

Lemma claim_rows_elem s p :
  p ∈ claim_rows s ↔
    ∃ row, pg_jobs s !! fst p = Some row ∧ claimable (pg_now s) row = true ∧ snd p = JCreatedAt (jrow row).
Proof.
  unfold claim_rows. change @map with @list_fmap. rewrite list_elem_of_fmap. split.
  - intros ([i row] & -> & Hin). apply list_elem_of_In, filter_In in Hin as [Hin Hc].
    apply list_elem_of_In, elem_of_map_to_list in Hin. eauto.
  - destruct p as [i t]. intros (row & Hr & Hc & Ht). simpl in *. exists (i, row). split; [by rewrite Ht|].
    apply list_elem_of_In, filter_In. split; [|done]. by apply list_elem_of_In, elem_of_map_to_list.
Qed.

Lemma claim_ids_elem s id :
  id ∈ claim_ids s ↔ ∃ row, pg_jobs s !! id = Some row ∧ claimable (pg_now s) row = true.
Proof.
  unfold claim_ids. change @map with @list_fmap. rewrite list_elem_of_fmap. setoid_rewrite sort_by_elem.
  setoid_rewrite claim_rows_elem. split.
  - intros (p & -> & row & ? & ? & _). eauto.
  - intros (row & Hr & Hc). exists (id, JCreatedAt (jrow row)). eauto.
Qed.

(** An older candidate stands before. *)
Lemma claim_ids_before s pre id post row id' row' :
  claim_ids s = pre ++ id :: post → pg_jobs s !! id = Some row →
  pg_jobs s !! id' = Some row' → claimable (pg_now s) row' = true →
  job_before (id', JCreatedAt (jrow row')) (id, JCreatedAt (jrow row)) = true → id' ∈ pre.
Proof.
  unfold claim_ids. change @map with @list_fmap. intros E Hr Hr' Hc Hb.
  apply fmap_app_inv in E as (ps & ps' & -> & E & Ep). symmetry in E.
  apply fmap_cons_inv in E as ([i t] & ps2 & Ei & -> & ->). simpl in Ei. subst i.
  assert ((id, t) ∈ claim_rows s) as Hin by (rewrite <-(sort_by_elem job_before), Ep; set_solver).
  apply claim_rows_elem in Hin as (row0 & Hr0 & _ & Ht). simpl in *. simplify_eq.
  assert ((id', JCreatedAt (jrow row')) ∈ ps) as Hq.
  { eapply sort_by_before; [exact job_before_le_trans|exact job_before_asym|exact Ep| |done].
    apply claim_rows_elem. eauto. }
  apply list_elem_of_fmap. eexists. split; [|exact Hq]. done.
Qed.

(** ** Claims *)

#[export] Instance existsb_perm {A} (p : A → bool) : Proper ((≡ₚ) ==> eq) (existsb p).
Proof.
  intros l l' Hp. apply eq_true_iff_eq. rewrite !existsb_exists. setoid_rewrite <-list_elem_of_In.
  by setoid_rewrite Hp.
Qed.

#[export] Instance dep_verdict_perm : Proper ((≡ₚ) ==> eq) dep_verdict.
Proof. intros l l' Hp. unfold dep_verdict. by rewrite !(existsb_perm _ _ _ Hp). Qed.

(** Claims are not part of what the dependency query sees. *)
Lemma depState_same_records id s s' h :
  pg_jobs s' = h <$> pg_jobs s → (∀ row, jrow (h row) = jrow row) → pg_depState id s' = pg_depState id s.
Proof.
  intros E Hh. unfold pg_depState. rewrite E, lookup_fmap.
  destruct (pg_jobs s !! id) as [row|]; simpl; [|done]. rewrite Hh. case_bool_decide; [done|].
  assert (run_jobs (JRunID (jrow row)) s' ≡ₚ run_jobs (JRunID (jrow row)) s) as Hp.
  { unfold run_jobs, select_jobs. apply filter_perm. rewrite E. change @map with @list_fmap.
    rewrite map_to_list_fmap, <-!list_fmap_compose. apply Permutation_refl'. apply list_fmap_ext.
    intros _ [? row'] _. simpl. apply Hh. }
  change @map with @list_fmap. rewrite !length_fmap.
  rewrite (Permutation_length (latest_perm (JDependsOn (jrow row)) _ _ Hp)).
  case_match; [done|]. by rewrite Hp.
Qed.

(** What a claim may do to the other rows of the store: nothing, or mark as
    skipped a queued job without a condition whose dependencies failed. *)
Definition other_rows_kept (id : JobRunID) (s s' : pg) : Prop :=
  ∀ id' row, id' ≠ id → pg_jobs s !! id' = Some row →
    pg_jobs s' !! id' = Some row ∨
    (JStatus (jrow row) = JobQueued ∧ JCondition (jrow row) = "" ∧
     pg_depState id' s' = depsFailed ∧ pg_jobs s' !! id' = Some (skip_row (pg_now s) row)).

(** C8. A claim goes to a queued job that nobody holds and whose dependencies
    have succeeded — or failed, when the job has a condition of its own.  Every
    such job that is older was not ready, and if its dependencies had failed it
    has no condition and the claim skips it.  The row of the claimed job then
    carries the time of the claim, and the other rows are as before or newly
    skipped. *)
Theorem postgres_claims_oldest_ready s s' j :
  pg_wf s → pg_ClaimNextQueuedJob s = (s', Ok j) →
  (∃ row, pg_jobs s !! JID j = Some row ∧ jrow row = j ∧ claimable (pg_now s) row = true) ∧
  pg_jobs s' !! JID j = Some {| jrow := j; jrow_claimed := Some (stamp (pg_now s)) |} ∧
  pg_depState (JID j) s' ≠ depsBlocked ∧ (JCondition j = "" → pg_depState (JID j) s = depsReady) ∧
  other_rows_kept (JID j) s s' ∧
  ∀ id' row', pg_jobs s !! id' = Some row' → claimable (pg_now s) row' = true →
    job_before (id', JCreatedAt (jrow row')) (JID j, JCreatedAt j) = true →
    pg_depState id' s ≠ depsReady ∧
    (pg_depState id' s = depsFailed →
       JCondition (jrow row') = "" ∧ pg_jobs s' !! id' = Some (skip_row (pg_now s) row')).
Proof.
  intros Hwf. unfold pg_ClaimNextQueuedJob, mbind, in_tx.
  destruct (claim_loop_result (claim_ids s) s Hwf) as (s2 & r & -> & Hr). destruct r as [j0|]; [|done].
  intros [= <- <-].
  destruct Hr as (s1 & pre & id & post & row & Eids & Hsw & Hwf1 & -> & Hr1 & <- & Hq & Hb & Hc & Hpre).
  rewrite (pw_job _ Hwf1 _ _ Hr1).
  assert (pg_jobs s !! id = Some row) as Hr0.
  { pose proof (sw_rows _ _ Hsw) as (h & E & _). pose proof Hr1 as Hr0. rewrite E, lookup_fmap in Hr0.
    apply fmap_Some in Hr0 as (row0 & Hr0 & _). destruct (sw_skipped _ _ Hsw _ _ Hr0) as [?|(Hq0 & _ & _ & E0)].
    - congruence.
    - rewrite Hr1 in E0. injection E0 as ->. by rewrite skip_row_status in Hq. }
  assert (claimable (pg_now s) row = true) as Hcan.
  { assert (id ∈ claim_ids s) as Hin by (rewrite Eids; set_solver).
    apply claim_ids_elem in Hin as (row' & ? & ?). by simplify_eq. }
  assert (∀ x, pg_depState x (update_job id (set_claim (Some (stamp (pg_now s1)))) s1) = pg_depState x s1) as Hds.
  { intros x. eapply depState_same_records; [by apply update_job_fmap|]. intros y. simpl. by case_decide. }
  split_and!.
  - exists row. by split_and!.
  - rewrite update_job_lookup, decide_True, Hr1 by done. simpl. by rewrite (sw_now _ _ Hsw).
  - by rewrite Hds.
  - intros Hn. by apply (relabelled_ready id s s1 (sw_rows _ _ Hsw)), Hc.
  - intros id' row' Hne Hr'. rewrite Hds, update_job_lookup, decide_False by done. by apply (sw_skipped _ _ Hsw).
  - intros id' row' Hr' Hc' Hbef.
    assert (id' ∈ pre) as Hin by (by eapply claim_ids_before).
    assert (JStatus (jrow row') = JobQueued) as Hq' by (unfold claimable in Hc'; by breflect).
    destruct (Hpre id' Hin) as [Hn Hcl]. split; [by eapply swept_passed|].
    intros Hd. destruct (Hcl row' Hr' Hq' Hd) as [? E]. split; [done|].
    rewrite update_job_lookup. case_decide as Eid; [|done]. subst id'.
    rewrite Hr1 in E. injection E as ->. by rewrite skip_row_status in Hq.
Qed.

(** When nothing is handed out, nothing was ready; a ready job that can be
    claimed makes the claim succeed. *)
Theorem postgres_claim_finds_ready_job s id row :
  pg_wf s → pg_jobs s !! id = Some row → claimable (pg_now s) row = true → pg_depState id s = depsReady →
  ∃ s' j, pg_ClaimNextQueuedJob s = (s', Ok j).
Proof.
  intros Hwf Hr Hc Hd. unfold pg_ClaimNextQueuedJob, mbind, in_tx.
  destruct (claim_loop_result (claim_ids s) s Hwf) as (s2 & r & -> & Hres). destruct r as [j0|]; [by eexists _, _|].
  destruct Hres as [Hsw Hall]. exfalso. assert (id ∈ claim_ids s) as Hin by (apply claim_ids_elem; eauto).
  eapply swept_passed; [exact Hsw|by apply Hall|exact Hr| |exact Hd]. unfold claimable in Hc. by breflect.
Qed.

(** *** The lease *)

Lemma stamp_bounds t : (stamp t <= t < stamp t + 1000)%Z.
Proof. unfold stamp. pose proof (Z.div_mod t 1000). pose proof (Z.mod_pos_bound t 1000). lia. Qed.

(** C9. For the time of the lease no other dispatcher can claim the job; a
    microsecond after it, the job is up for claims again if it is still queued. *)
Theorem claim_lease_window (t t' : Time) row :
  JStatus (jrow row) = JobQueued → jrow_claimed row = Some (stamp t) →
  ((t' <= t + claimLease)%Z → claimable t' row = false) ∧
  ((t + claimLease + 1000 <= t')%Z → claimable t' row = true).
Proof.
  intros Hq Hc. unfold claimable. rewrite Hq, Hc. simpl. split; intros Ht.
  - apply bool_decide_eq_false_2. unfold stamp, claimLease in *.
    pose proof (Z.div_le_mono t' (t + 300000000 * 1000) 1000 ltac:(lia) ltac:(lia)) as Hle.
    rewrite Z.div_add in Hle by lia. lia.
  - apply bool_decide_eq_true_2. pose proof (stamp_bounds t). pose proof (stamp_bounds t'). lia.
Qed.
End claims.

(** ** On the demo store *)

Lemma pg_demo_wf : pg_wf pg_demo_created.
Proof. apply pg_reachable_inv, pg_exec_all_reachable. Qed.

Lemma postgres_claims_oldest_ready_witness :
  ∃ j s', pg_ClaimNextQueuedJob pg_demo_created = (s', Ok j) ∧ JID j = demo_build ∧
    pg_depState demo_build pg_demo_created = depsReady ∧
    pg_jobs s' !! demo_build = Some {| jrow := j; jrow_claimed := Some 1000000%Z |}.
Proof.
  destruct (pg_ClaimNextQueuedJob pg_demo_created) as [s' r] eqn:E.
  assert (r = Ok (newJob demo_build demo_run (demo_intent "build" [] "") 0)) as ->.
  { replace r with (snd (pg_ClaimNextQueuedJob pg_demo_created)) by (rewrite E; reflexivity). vm_compute. reflexivity. }
  destruct (postgres_claims_oldest_ready pg_demo_created s' _ pg_demo_wf E) as (_ & Hrow & _ & Hready & _ & _).
  exists (newJob demo_build demo_run (demo_intent "build" [] "") 0), s'.
  split; [reflexivity|]. split; [reflexivity|]. split; [exact (Hready eq_refl)|exact Hrow].
Defined.

Lemma postgres_claim_finds_ready_job_witness :
  ∃ s' j, pg_ClaimNextQueuedJob pg_demo_created = (s', Ok j).
Proof.
  eapply (postgres_claim_finds_ready_job pg_demo_created demo_build).
  - exact pg_demo_wf.
  - vm_compute. reflexivity.
  - vm_compute. reflexivity.
  - vm_compute. reflexivity.
Defined.

Lemma claim_lease_window_witness :
  let row := {| jrow := newJob demo_build demo_run (demo_intent "build" [] "") 5;
                jrow_claimed := Some (stamp 1000000) |} in
  claimable 2000000 row = false ∧ claimable 300000001001000 row = true.
Proof.
  destruct (claim_lease_window 1000000 2000000 {| jrow := newJob demo_build demo_run (demo_intent "build" [] "") 5;
    jrow_claimed := Some (stamp 1000000) |} eq_refl eq_refl) as [Hheld _].
  destruct (claim_lease_window 1000000 300000001001000 {| jrow := newJob demo_build demo_run (demo_intent "build" [] "") 5;
    jrow_claimed := Some (stamp 1000000) |} eq_refl eq_refl) as [_ Hfree].
  split; [apply Hheld; unfold claimLease; lia|apply Hfree; unfold claimLease; lia].
Defined.
