(* ===== verification/PostgresRefinement.v ===== *)
(** * The PostgreSQL store follows the in-memory store

    The comment of [schema.go] says that the in-memory adapter defines the
    semantics this implementation mirrors.  [follows] relates the two states up to
    time stamps, claims and how far an open run has got; the operations that
    need no claim give the same answers in related states and lead to related
    states.  The conditions under which they do are [comparable]; claims are the
    subject of [PostgresTracking], and what happens outside is in
    [PostgresIsolation]. *)

From S2P Require Import Prelude GoStrings RunModel SchedulerPort MemoryStore StoreInvariant StoreOps Postgres PostgresSpec PostgresTheorems PostgresPort.

Local Open Scope go_scope.

Implicit Types (m : store) (p : pg).

(** ** Views *)

(** A job record without its times; whether it was collected is kept. *)
Definition timeless (j : JobRunRecord) : JobRunRecord := {|
  JID := JID j; JRunID := JRunID j; JJobKey := JJobKey j; JRunnerClass := JRunnerClass j;
  JDependsOn := JDependsOn j; JMatrix := JMatrix j; JPlanDigest := JPlanDigest j;
  JCondition := JCondition j; JStatus := JStatus j; JAttempt := JAttempt j;
  JActiveName := JActiveName j; JActiveUID := JActiveUID j; JCreatedAt := 0; JDispatchedAt := None;
  JStartedAt := None; JFinishedAt := None;
  JActiveCollectedAt := (fun _ => 0%Z) <$> JActiveCollectedAt j |}.

(** A run, with its status once it is settled. *)
Definition run_view (r : RunRecord) : RunID * Event * DeliveryKey * option WorkflowRunStatus :=
  (RID r, REvent r, RDelivery r, if run_terminal (RStatus r) then Some (RStatus r) else None).

Definition bound_to (row : delivery_row) : Event * string * RunID :=
  (drow_event row, drow_payload row, default "" (drow_run row)).

Definition recorded (rec : DeliveryRecord) : Event * string * RunID := (DREvent rec, DRPayload rec, DRRunID rec).

Record follows (m : store) (p : pg) : Prop := {
  fo_jobs : ∀ id, timeless <$> jobs m !! id = (fun row => timeless (jrow row)) <$> pg_jobs p !! id;
  fo_runs : ∀ r, run_view <$> runs m !! r = run_view <$> pg_runs p !! r;
  fo_deliveries : ∀ k, recorded <$> deliveries m !! k = bound_to <$> pg_deliveries p !! k;
  fo_minted : pg_minted p = minted m
}.

Definition alike (a b : JobRunRecord) : Prop := timeless a = timeless b.
Definition runs_alike (a b : RunRecord) : Prop := run_view a = run_view b.

(** The same record in both, or in neither. *)
Lemma follows_job m p id :
  follows m p →
  (∃ j row, jobs m !! id = Some j ∧ pg_jobs p !! id = Some row ∧ alike (jrow row) j) ∨
  (jobs m !! id = None ∧ pg_jobs p !! id = None).
Proof.
  intros Hf. pose proof (fo_jobs _ _ Hf id) as E.
  destruct (jobs m !! id) as [j|], (pg_jobs p !! id) as [row|]; try discriminate E; [left|by right].
  exists j, row. split_and!; [done..|]. by apply (inj Some) in E.
Qed.

Lemma follows_run m p r :
  follows m p →
  (∃ run run', runs m !! r = Some run ∧ pg_runs p !! r = Some run' ∧ runs_alike run' run) ∨
  (runs m !! r = None ∧ pg_runs p !! r = None).
Proof.
  intros Hf. pose proof (fo_runs _ _ Hf r) as E.
  destruct (runs m !! r) as [run|], (pg_runs p !! r) as [run'|]; try discriminate E; [left|by right].
  exists run, run'. split_and!; [done..|]. by apply (inj Some) in E.
Qed.

Lemma alike_eqs a b :
  alike a b →
  JID a = JID b ∧ JRunID a = JRunID b ∧ JJobKey a = JJobKey b ∧ JAttempt a = JAttempt b ∧
  JStatus a = JStatus b ∧ JActiveName a = JActiveName b ∧
  (is_Some (JActiveCollectedAt a) ↔ is_Some (JActiveCollectedAt b)).
Proof.
  intros E. unfold alike, timeless in E. injection E as E1 E2 E3 _ _ _ _ _ E9 E10 E11 _ E13. split_and!; try done;
  destruct (JActiveCollectedAt a), (JActiveCollectedAt b); try done; by split; intros [].
Qed.

Lemma runs_alike_eqs a b :
  runs_alike a b →
  RID a = RID b ∧ run_terminal (RStatus a) = run_terminal (RStatus b) ∧
  (run_terminal (RStatus b) = true → RStatus a = RStatus b).
Proof.
  unfold runs_alike, run_view. intros E. destruct (run_terminal (RStatus a)) eqn:Ha, (run_terminal (RStatus b)) eqn:Hb;
    simplify_eq; done.
Qed.

(** Fields that do not take part. *)
Lemma follows_ext m m' p p' :
  deliveries m' = deliveries m → runs m' = runs m → jobs m' = jobs m → minted m' = minted m →
  pg_deliveries p' = pg_deliveries p → pg_runs p' = pg_runs p → pg_jobs p' = pg_jobs p → pg_minted p' = pg_minted p →
  follows m p → follows m' p'.
Proof. intros Ed Er Ej Em Ed' Er' Ej' Em' []. split; congruence. Qed.

Lemma follows_rollback m p : follows m p → follows m (rollback p p).
Proof. intros []. by split. Qed.

(** ** Updates on both sides *)

Lemma follows_put m p id j j' f row :
  follows m p → jobs m !! id = Some j → pg_jobs p !! id = Some row →
  alike (jrow (f row)) j' →
  follows (putJob id j' m) (update_job id f p).
Proof.
  intros Hf Hj Hr E. split; [|by apply Hf..]. intros id'. rewrite update_job_lookup. simpl. rewrite lookup_insert.
  case_decide; [subst|apply Hf]. rewrite Hr. simpl. by rewrite E.
Qed.

(** Rows changed in one store only, in what the other does not look at. *)
Lemma follows_update_only m p id f :
  follows m p → (∀ row, pg_jobs p !! id = Some row → timeless (jrow (f row)) = timeless (jrow row)) →
  follows m (update_job id f p).
Proof.
  intros Hf E. split; [|by apply Hf..]. intros id'. rewrite (fo_jobs _ _ Hf), update_job_lookup.
  case_decide; [subst|done]. destruct (pg_jobs p !! id') as [row|]; simpl; [|done]. by rewrite E.
Qed.

(** ** The aggregate *)

(** It depends on which statuses there are, not on their order. *)
Lemma AggregateRunStatus_set l l' :
  (∀ st, st ∈ l ↔ st ∈ l') → AggregateRunStatus l = AggregateRunStatus l'.
Proof.
  intros E. unfold AggregateRunStatus.
  assert (bool_decide (length l = 0) = bool_decide (length l' = 0)) as ->.
  { apply bool_decide_ext. destruct l as [|x l], l' as [|y l']; try done; exfalso;
      [specialize (E y)|specialize (E x)]; set_solver. }
  destruct (agg_flags_spec l agg0) as (H1 & H2 & H3 & H4 & H5 & H6 & H7).
  destruct (agg_flags_spec l' agg0) as (G1 & G2 & G3 & G4 & G5 & G6 & G7).
  setoid_rewrite E in H1. setoid_rewrite E in H2. setoid_rewrite E in H3. setoid_rewrite E in H4.
  setoid_rewrite E in H5. setoid_rewrite E in H6. setoid_rewrite E in H7.
  rewrite (proj2 (eq_iff_eq_true _ _) (iff_trans H1 (iff_sym G1))).
  rewrite (proj2 (eq_iff_eq_true _ _) (iff_trans H2 (iff_sym G2))).
  rewrite (proj2 (eq_iff_eq_true _ _) (iff_trans H3 (iff_sym G3))).
  rewrite (proj2 (eq_iff_eq_true _ _) (iff_trans H4 (iff_sym G4))).
  rewrite (proj2 (eq_iff_eq_true _ _) (iff_trans H5 (iff_sym G5))).
  rewrite (proj2 (eq_iff_eq_true _ _) (iff_trans H6 (iff_sym G6))).
  by rewrite (proj2 (eq_iff_eq_true _ _) (iff_trans H7 (iff_sym G7))).
Qed.

Definition owned (m : store) (r : RunID) : Prop :=
  ∀ id, id ∈ getRunJobs m r ↔ ∃ j, jobs m !! id = Some j ∧ JRunID j = r.

Section refinement.
Context `{MemoryEnv} `{!MemoryEnvOk}.

Lemma wf_owned m r : store_wf0 m → is_Some (runs m !! r) → owned m r.
Proof.
  intros Hwf Hr id. split; [by apply run_job_lookup|]. intros (j & Hj & <-). by eapply wf_job_owned.
Qed.

Lemma owned_put m r id j j' :
  jobs m !! id = Some j → JRunID j' = JRunID j → owned m r → owned (putJob id j' m) r.
Proof.
  intros Hj E Ho i. change (getRunJobs (putJob id j' m) r) with (getRunJobs m r). rewrite (Ho i). simpl.
  rewrite lookup_insert. case_decide; [subst i|done]. rewrite Hj. split; intros (x & [= <-] & ?); eexists; (split; [done|congruence]).
Qed.

Lemma statuses_agree m p r st :
  follows m p → owned m r → st ∈ run_statuses m r ↔ st ∈ map JStatus (run_jobs r p).
Proof.
  intros Hf Ho. rewrite run_statuses_elem. change @map with @list_fmap. rewrite list_elem_of_fmap.
  setoid_rewrite run_jobs_elem. split.
  - intros (id & (j & Hj & Hr)%Ho & ->). rewrite (getJob_Some _ _ _ Hj).
    destruct (follows_job m p id Hf) as [(j' & row & ? & Hrow & E)|[? _]]; [|congruence]. simplify_eq.
    destruct (alike_eqs _ _ E) as (_ & Er & _ & _ & Es & _). exists (jrow row). split; [done|]. by exists id, row.
  - intros (j & -> & id & row & Hrow & <- & Hr).
    destruct (follows_job m p id Hf) as [(j & row' & Hj & ? & E)|[_ ?]]; [|congruence]. simplify_eq.
    destruct (alike_eqs _ _ E) as (_ & Er & _ & _ & Es & _). exists id. split.
    + apply Ho. exists j. split; [done|congruence].
    + by rewrite (getJob_Some _ _ _ Hj).
Qed.

(** What a refresh does to the view of its run: an open run settles when the
    aggregate is terminal. *)
Definition settle (next : WorkflowRunStatus) (v : RunID * Event * DeliveryKey * option WorkflowRunStatus) :=
  match snd v with
  | None => (fst v, if run_terminal next then Some next else None)
  | Some _ => v
  end.

Lemma settle_open next fin run :
  run_terminal (RStatus run) = false → run_view (set_run next fin run) = settle next (run_view run).
Proof. intros Ht. unfold run_view, settle. simpl. by rewrite Ht. Qed.

Lemma settle_closed next run : run_terminal (RStatus run) = true → settle next (run_view run) = run_view run.
Proof. intros Ht. unfold run_view, settle. simpl. by rewrite Ht. Qed.

(** A status that is not advanced to is not a settled one. *)
Lemma settle_idle next run :
  run_terminal (RStatus run) = false → CanAdvanceRun (RStatus run) next = false ∨ next = RStatus run →
  settle next (run_view run) = run_view run.
Proof.
  intros Ht Hc. unfold run_view, settle. simpl. rewrite Ht. simpl.
  destruct (run_terminal next) eqn:Hn; [|done]. exfalso. destruct Hc as [Hc|Hc]; [|congruence].
  unfold CanAdvanceRun in Hc. rewrite Ht, Hn in Hc. by case_bool_decide.
Qed.

Lemma mem_refresh_view m r now r' :
  run_view <$> runs (refreshRunLocked r now m) !! r' =
  (if decide (r = r') then settle (AggregateRunStatus (run_statuses m r)) else Datatypes.id) <$> (run_view <$> runs m !! r').
Proof.
  case_decide as Hr; [subst r'|]; unfold refreshRunLocked.
  - destruct (runs m !! r) as [run|] eqn:E; [|by rewrite E]. simpl.
    destruct (run_terminal (RStatus run)) eqn:Ht; [rewrite E; simpl; by rewrite settle_closed|].
    destruct (_ && _) eqn:Hc.
    + simpl. rewrite lookup_insert_eq. simpl. by rewrite settle_open.
    + rewrite E. simpl. rewrite settle_idle; [done..|]. apply andb_false_iff in Hc as [?|?]; breflect; auto.
  - rewrite option_fmap_id. destruct (runs m !! r) as [run|]; [|done].
    destruct (run_terminal _); [done|]. destruct (_ && _); [|done]. simpl. by rewrite lookup_insert_ne.
Qed.

Lemma pg_refresh_view p id now r row run r' :
  pg_jobs p !! id = Some row → JRunID (jrow row) = r → pg_runs p !! r = Some run →
  run_view <$> pg_runs (fst (refreshRun id now p)) !! r' =
  (if decide (r = r') then settle (AggregateRunStatus (map JStatus (run_jobs r p))) else Datatypes.id) <$>
    (run_view <$> pg_runs p !! r').
Proof.
  intros Hr <- Hrun. unfold refreshRun. rewrite Hr, Hrun. set (next := AggregateRunStatus _).
  case_decide as Hr'; [subst r'|].
  - rewrite Hrun. simpl. destruct (negb _ || _) eqn:Hc; simpl.
    + rewrite Hrun. simpl. destruct (run_terminal (RStatus run)) eqn:Ht; [by rewrite settle_closed|].
      rewrite settle_idle; [done..|]. apply orb_true_iff in Hc as [?|?]; breflect; auto.
    + rewrite lookup_alter_eq, Hrun. simpl. breflect. rewrite settle_open; [done|].
      unfold CanAdvanceRun in *. case_bool_decide; [congruence|]. by destruct (run_terminal (RStatus run)).
  - rewrite option_fmap_id. destruct (_ || _); simpl; [done|]. by rewrite lookup_alter_ne.
Qed.

Lemma refreshRun_rest p id now :
  let p' := fst (refreshRun id now p) in
  pg_deliveries p' = pg_deliveries p ∧ pg_jobs p' = pg_jobs p ∧ pg_minted p' = pg_minted p.
Proof. unfold refreshRun. by repeat case_match. Qed.

Lemma refreshRunLocked_rest m r now :
  let m' := refreshRunLocked r now m in
  deliveries m' = deliveries m ∧ jobs m' = jobs m ∧ minted m' = minted m.
Proof. unfold refreshRunLocked. by repeat case_match. Qed.

(** Both stores refresh the run of a job: a run that settles settles alike. *)
Lemma refresh_follows m p id row now now' :
  follows m p → pg_wf p → owned m (JRunID (jrow row)) → pg_jobs p !! id = Some row →
  follows (refreshRunLocked (JRunID (jrow row)) now m) (fst (refreshRun id now' p)) ∧
  snd (refreshRun id now' p) = Ok tt.
Proof.
  intros Hf Hwf Ho Hr. split; [|apply refreshRun_ok; eauto].
  destruct (pw_foreign _ Hwf _ _ Hr) as [run Hrun].
  destruct (refreshRun_rest p id now') as (Ed & Ej & Em).
  destruct (refreshRunLocked_rest m (JRunID (jrow row)) now) as (Ed' & Ej' & Em').
  split; rewrite ?Ed, ?Ej, ?Em, ?Ed', ?Ej', ?Em'; try apply Hf. intros r'.
  rewrite mem_refresh_view, (pg_refresh_view p id now' _ _ _ r' Hr eq_refl Hrun), (fo_runs _ _ Hf).
  rewrite (AggregateRunStatus_set (run_statuses m _) (map JStatus (run_jobs (JRunID (jrow row)) p))); [done|].
  intros. by apply statuses_agree.
Qed.

(** In a settled store a refresh shows nothing new. *)
Lemma refresh_idle m p r now :
  store_wf m → follows (refreshRunLocked r now m) p → follows m p.
Proof.
  intros Hwf Hf. destruct (refreshRunLocked_rest m r now) as (Ed & Ej & Em).
  split; rewrite <-?Ed, <-?Ej, <-?Em; try apply Hf. intros r'. rewrite <-(fo_runs _ _ Hf), mem_refresh_view.
  case_decide as Hr; [subst r'|by rewrite option_fmap_id].
  destruct (runs m !! r) as [run|] eqn:E; simpl; [|done].
  destruct (run_terminal (RStatus run)) eqn:Ht; [by rewrite settle_closed|].
  unfold settle, run_view. simpl. rewrite Ht. simpl.
  destruct (run_terminal (AggregateRunStatus _)) eqn:Hn; [|done]. exfalso.
  pose proof (wf_base _ Hwf) as Hb. apply not_true_iff_false in Ht. apply Ht. apply (wf_agree _ Hwf r run E).
  intros id Hin. apply aggregate_terminal with (st := JStatus (getJob m id)) in Hn; [done|..].
  - unfold run_statuses. destruct (wf_run_jobs _ Hb _ _ E) as (l & Hl & Hne).
    rewrite (getRunJobs_Some _ _ _ Hl). by destruct l.
  - intros st (id' & Hin' & ->)%run_statuses_elem. destruct (run_job_lookup _ _ _ Hb Hin') as (j & Hj & _).
    rewrite (getJob_Some _ _ _ Hj). by eapply wf_job_known.
  - apply run_statuses_elem. eauto.
Qed.

(** ** Each operation *)

Inductive answer :=
  | ARecorded (v : Event * string * RunID) (fresh : bool)
  | ARun (r : RunID * Event * DeliveryKey * option WorkflowRunStatus) (created : bool)
  | AClaimed (j : JobRunRecord)
  | AJob (id : JobRunID)
  | ADone.

Definition answered {S X Y} (f : X → Y) (x : S * outcome error X) : outcome error Y :=
  let! y := snd x in Ok (f y).

(** The store-independent part of what an operation returns: the whole record
    but for its times, and the status of a run once it is settled. *)
Definition mem_answer (o : op) (m : store) : outcome error answer :=
  match o with
  | OpRecordDelivery d => answered (fun x => ARecorded (recorded (fst x)) (snd x)) (mem_RecordDelivery d m)
  | OpCreateRun seed now => answered (fun x => ARun (run_view (fst x)) (snd x)) (mem_CreateRun seed now m)
  | OpClaimNextQueuedJob => answered (fun j => AClaimed (timeless j)) (mem_ClaimNextQueuedJob m)
  | OpReleaseClaim id => answered (fun _ => ADone) (mem_ReleaseClaim id m)
  | OpAckDispatched id obj now => answered (fun _ => ADone) (mem_AckDispatched id obj now m)
  | OpApplyObserved id phase now => answered (fun _ => ADone) (mem_ApplyObserved id phase now m)
  | OpCancelRun id now => answered (fun _ => ADone) (mem_CancelRun id now m)
  | OpRerequestJob id now => answered AJob (mem_RerequestJob id now m)
  | OpMarkCollected id now => answered (fun _ => ADone) (mem_MarkCollected id now m)
  end.

Definition pg_answer (o : op) (p : pg) : outcome error answer :=
  match o with
  | OpRecordDelivery d => answered (fun x => ARecorded (recorded (fst x)) (snd x)) (pg_RecordDelivery d p)
  | OpCreateRun seed now => answered (fun x => ARun (run_view (fst x)) (snd x)) (pg_CreateRun seed now p)
  | OpClaimNextQueuedJob => answered (fun j => AClaimed (timeless j)) (pg_ClaimNextQueuedJob p)
  | OpReleaseClaim id => answered (fun _ => ADone) (pg_ReleaseClaim id p)
  | OpAckDispatched id obj now => answered (fun _ => ADone) (pg_AckDispatched id obj now p)
  | OpApplyObserved id phase now => answered (fun _ => ADone) (pg_ApplyObserved id phase now p)
  | OpCancelRun id now => answered (fun _ => ADone) (pg_CancelRun id now p)
  | OpRerequestJob id now => answered AJob (pg_RerequestJob id now p)
  | OpMarkCollected id now => answered (fun _ => ADone) (pg_MarkCollected id now p)
  end.

Definition mirrored (o : op) (m : store) (p : pg) : Prop :=
  mem_answer o m = pg_answer o p ∧ follows (exec o m) (pg_exec o p).

Lemma RecordDelivery_mirrored d m p : follows m p → mirrored (OpRecordDelivery d) m p.
Proof.
  intros Hf. pose proof (fo_deliveries _ _ Hf (DKey d)) as E. unfold mirrored. simpl.
  unfold mem_RecordDelivery. destruct (deliveries m !! DKey d) as [rec|],
    (pg_deliveries p !! DKey d) as [row|] eqn:Ep; try discriminate E.
  - rewrite (RecordDelivery_known d p row Ep). apply (inj Some) in E. split; [|done].
    unfold answered. simpl. by rewrite E.
  - unfold pg_RecordDelivery, mbind, delivery. rewrite Ep. simpl. rewrite lookup_insert_eq. simpl. split; [done|].
    split; try apply Hf. intros k. simpl. rewrite !lookup_insert. case_decide; [done|apply Hf].
Qed.

Lemma ReleaseClaim_mirrored id m p : follows m p → mirrored (OpReleaseClaim id) m p.
Proof.
  intros Hf. split; [done|]. simpl. by eapply (follows_ext m _ (update_job id (set_claim None) p)), follows_update_only.
Qed.

Lemma MarkCollected_mirrored id now m p :
  follows m p → is_Some (jobs m !! id) → mirrored (OpMarkCollected id now) m p.
Proof.
  intros Hf [j Hj]. destruct (follows_job m p id Hf) as [(j' & row & Hj' & Hr & E)|[? _]]; [|congruence].
  rewrite Hj' in Hj. injection Hj as <-. unfold mirrored, mem_answer, exec, mem_MarkCollected. rewrite Hj'.
  destruct (alike_eqs _ _ E) as (_ & _ & _ & _ & _ & _ & Hc).
  destruct (JActiveCollectedAt j') eqn:Ec; (split; [done|]); simpl.
  - apply follows_update_only; [done|]. intros row' Hr'. rewrite Hr in Hr'. injection Hr' as <-. simpl.
    destruct (JActiveCollectedAt (jrow row)); [done|]. by destruct (proj2 Hc).
  - eapply follows_put; [done..|]. simpl. destruct (JActiveCollectedAt (jrow row)); [by destruct (proj1 Hc)|].
    unfold alike, timeless in *. injection E. intros. simpl. by f_equal.
Qed.

Lemma AckDispatched_mirrored id obj now m p : follows m p → mirrored (OpAckDispatched id obj now) m p.
Proof.
  intros Hf. unfold mirrored, mem_answer, pg_answer, exec, pg_exec, mem_AckDispatched, pg_AckDispatched, in_tx.
  rewrite jobIn_bind. destruct (follows_job m p id Hf) as [(j & row & Hj & Hr & E)|[Hj Hr]]; rewrite Hj, Hr;
    [|split; [done|by apply follows_rollback]].
  destruct (alike_eqs _ _ E) as (_ & _ & _ & _ & Es & Ea & _). rewrite Es, Ea.
  assert (follows (with_claimed (claimed m ∖ {[id]}) (putJob id (set_active (ObjName obj) (ObjUID obj) now
    (set_status JobDispatched j)) m)) (update_job id (dispatched_row obj now) p)) as Hup.
  { eapply (follows_ext (putJob id _ m) _ (update_job id (dispatched_row obj now) p)); try done. eapply follows_put; [done..|].
    unfold alike, timeless in *. injection E. intros. simpl. by f_equal. }
  destruct (JStatus j); try (split; [done|by apply follows_rollback]); [by split|].
  destruct (_ && _); [split; [done|by apply follows_rollback]|by split].
Qed.

Lemma in_tx_Ok {Y} (body : M pg Y) p p' y : body p = (p', Ok y) → in_tx body p = (p', Ok y).
Proof. intros E. unfold in_tx. by rewrite E. Qed.

Lemma follows_owned m p row id :
  store_wf m → pg_wf p → follows m p → pg_jobs p !! id = Some row → owned m (JRunID (jrow row)).
Proof.
  intros Hwf Hpw Hf Hr. apply wf_owned; [apply Hwf|]. destruct (pw_foreign _ Hpw _ _ Hr) as [run' Hr'].
  destruct (follows_run m p (JRunID (jrow row)) Hf) as [(run & ? & ? & _)|[_ ?]]; [by eexists|congruence].
Qed.

Lemma observed_alike target now a b :
  alike a b → alike (pg_observed target now a) (observed_job target now b).
Proof.
  unfold alike. intros E. unfold timeless in *. injection E. intros.
  by destruct target; unfold pg_observed, observed_job; simpl; f_equal.
Qed.

Lemma ApplyObserved_mirrored id phase now m p :
  store_wf m → pg_wf p → follows m p → mirrored (OpApplyObserved id phase now) m p.
Proof.
  intros Hwf Hpw Hf. unfold mirrored, mem_answer, pg_answer, exec, pg_exec, mem_ApplyObserved.
  assert (∀ m1 p1 row, follows m1 p1 → pg_wf p1 → owned m1 (JRunID (jrow row)) → pg_jobs p1 !! id = Some row →
    pg_ApplyObserved id phase now p = refreshRun id now p1 →
    Ok ADone = answered (fun _ => ADone) (pg_ApplyObserved id phase now p) ∧
    follows (refreshRunLocked (JRunID (jrow row)) now m1) (fst (pg_ApplyObserved id phase now p))) as Hstep.
  { intros m1 p1 row Hf1 Hpw1 Ho1 Hr1 ->. destruct (refresh_follows m1 p1 id row now now Hf1 Hpw1 Ho1 Hr1) as [Hfin Hok].
    unfold answered. by rewrite Hok. }
  destruct (follows_job m p id Hf) as [(j & row & Hj & Hr & E)|[Hj Hr]]; rewrite Hj.
  2: { unfold pg_ApplyObserved, in_tx. rewrite jobIn_bind, Hr. split; [done|by apply follows_rollback]. }
  assert (pg_ApplyObserved id phase now p = refreshRun id now (observe_job id (jrow row) phase now p)) as Eap.
  { destruct (observe_job_next id row phase now p Hr Hpw) as [Hpw1 Hle]. destruct (Hle _ _ Hr) as (row1 & Hr1 & _).
    pose proof (refreshRun_ok id now _ Hpw1 ltac:(eauto)) as Hok.
    destruct (refreshRun id now _) as [p' r] eqn:E1. simpl in Hok. subst r. apply in_tx_Ok.
    by rewrite jobIn_bind, Hr, E1. }
  pose proof (follows_owned m p row id Hwf Hpw Hf Hr) as Ho.
  destruct (alike_eqs _ _ E) as (_ & Er & _ & _ & Es & _).
  unfold observe_job in Eap. rewrite Es in Eap. rewrite Er in Ho.
  assert (pg_ApplyObserved id phase now p = refreshRun id now p →
    Ok ADone = answered (fun _ => ADone) (pg_ApplyObserved id phase now p) ∧
    follows m (fst (pg_ApplyObserved id phase now p))) as Hidle.
  { intros E1. rewrite <-Er in Ho. destruct (Hstep m p row Hf Hpw Ho Hr E1) as [? Hfin]. split; [done|].
    by eapply refresh_idle. }
  destruct (job_terminal (JStatus j)) eqn:Ht; [by apply Hidle|].
  destruct (JobStatusFromPhase phase) as [target|] eqn:Hph.
  2: { simpl. rewrite <-Er in *. by apply (Hstep m p). }
  destruct (CanAdvanceJob (JStatus j) target) eqn:Ha; [|by apply Hidle].
  simpl. set (p1 := update_job id (on_record (pg_observed target now)) p) in *.
  assert (pg_jobs p1 !! id = Some (on_record (pg_observed target now) row)) as Hr1.
  { unfold p1. by rewrite update_job_lookup, decide_True, Hr. }
  assert (JRunID (jrow (on_record (pg_observed target now) row)) = JRunID j) as Er1.
  { simpl. rewrite <-Er. unfold pg_observed. by destruct target. }
  rewrite <-Er1 in *. apply (Hstep _ p1); [| | |done|done].
  - eapply follows_put; [done..|]. simpl. by apply observed_alike.
  - destruct (observe_job_next id row phase now p Hr Hpw) as [Hpw1 _]. unfold observe_job in Hpw1.
    by rewrite Es, Ht, Hph, Ha in Hpw1.
  - eapply owned_put; [done| |done]. unfold observed_job. by destruct target.
Qed.
End refinement.
