(* ===== verification/PostgresMirror.v ===== *)
(** * The PostgreSQL store follows the in-memory store: runs

    Creation, cancellation and retries, and the theorem for sequences of
    operations. *)

From S2P Require Import Prelude GoStrings RunModel SchedulerPort MemoryStore StoreInvariant StoreOps StoreLifecycle Postgres PostgresSpec PostgresTheorems PostgresPort PostgresRefinement.

Local Open Scope go_scope.

Implicit Types (m : store) (p : pg).

Section mirror.
Context `{MemoryEnv} `{!MemoryEnvOk}.

(** ** Cancellation *)

Lemma cancel_fold_rest now ids m :
  deliveries (fold_left (cancelJob now) ids m) = deliveries m ∧ runs (fold_left (cancelJob now) ids m) = runs m ∧
  minted (fold_left (cancelJob now) ids m) = minted m.
Proof.
  revert m. induction ids as [|i ids IH]; intros m; simpl; [done|]. destruct (IH (cancelJob now m i)) as (-> & -> & ->).
  unfold cancelJob. by destruct (TransitionJob _ _) as [? [|]].
Qed.

Lemma cancel_row_alike now row j : alike (jrow row) j → alike (jrow (cancel_row now row)) (cancelled_record now j).
Proof.
  intros E. destruct (alike_eqs _ _ E) as (_ & _ & _ & _ & Es & _).
  unfold cancel_row, cancelled_record, TransitionJob, CanTransitionJob. rewrite Es.
  destruct (job_terminal (JStatus j)); simpl; [done|].
  unfold alike, timeless in *. injection E. intros. simpl. by f_equal.
Qed.

Lemma CancelRun_mirrored id now m p :
  store_wf m → follows m p → mirrored (OpCancelRun id now) m p.
Proof.
  intros Hwf Hf. unfold mirrored, mem_answer, pg_answer, exec, pg_exec, mem_CancelRun, pg_CancelRun.
  destruct (follows_run m p id Hf) as [(run & run' & Hm & Hp & E)|[Hm Hp]]; rewrite Hm;
    unfold in_tx, mbind, runIn; rewrite Hp; [|split; [done|by apply follows_rollback]].
  destruct (runs_alike_eqs _ _ E) as (_ & Et & Es). rewrite Et.
  destruct (run_terminal (RStatus run)) eqn:Ht.
  { rewrite (Es eq_refl). case_bool_decide; [done|]. split; [done|by apply follows_rollback]. }
  split; [done|]. cbn [fst snd]. pose proof (wf_base _ Hwf) as Hb.
  pose proof (wf_owned m id Hb ltac:(eauto)) as Ho.
  destruct (cancel_fold_rest now (getRunJobs m id) m) as (Hd & Hr & Hmin).
  assert (∀ i, jobs (fold_left (cancelJob now) (getRunJobs m id) m) !! i =
    (if decide (i ∈ getRunJobs m id) then cancelled_record now else Datatypes.id) <$> jobs m !! i) as Hj.
  { intros i. rewrite cancel_fold_lookup by (intros i' (j & Hj & _)%Ho; eauto).
    by case_decide; rewrite ?option_fmap_id. }
  split; simpl; rewrite ?Hd, ?Hr, ?Hmin; try apply Hf.
  - intros i. rewrite Hj, lookup_fmap.
    destruct (follows_job m p i Hf) as [(j & row & Hji & Hrow & Ea)|[Hn Hrow]]; [|by rewrite Hn, Hrow].
    destruct (alike_eqs _ _ Ea) as (_ & Er & _). rewrite Hji, Hrow. simpl. apply (f_equal Some). symmetry.
    change (alike (jrow (if bool_decide (JRunID (jrow row) = id) then cancel_row now row else row))
              ((if decide (i ∈ getRunJobs m id) then cancelled_record now else Datatypes.id) j)).
    assert (i ∈ getRunJobs m id ↔ JRunID (jrow row) = id) as Hmem by (rewrite (Ho i), Er; naive_solver).
    destruct (decide (i ∈ getRunJobs m id)) as [Hin|Hin].
    + rewrite bool_decide_eq_true_2 by (by apply Hmem). by apply cancel_row_alike.
    + rewrite bool_decide_eq_false_2 by (by rewrite <-Hmem). exact Ea.
  - intros r. rewrite lookup_insert. case_decide as Hid.
    + subst r. rewrite lookup_alter_eq, Hp. simpl. unfold runs_alike, run_view in E. injection E. intros.
      unfold run_view. simpl. congruence.
    + rewrite lookup_alter_ne by done. apply Hf.
Qed.

(** ** Creation *)

Lemma newJob_alike id r i t t' : alike (newJob id r i t) (newJob id r i t').
Proof. done. Qed.

(** The records of the jobs, as far as the two loops have got. *)
Record jobs_follow (m : store) (p : pg) : Prop := {
  jf_jobs : ∀ id, timeless <$> jobs m !! id = (fun row => timeless (jrow row)) <$> pg_jobs p !! id;
  jf_minted : pg_minted p = minted m;
  jf_fresh : ∀ n, minted m ≤ n → jobs m !! newid n = None
}.

Lemma create_loops_follow js r now ki ids m p :
  jobs_follow m p → is_Some (pg_runs p !! r) → NoDup (map IJobKey js) →
  (∀ k, k ∈ map IJobKey js → ki !! k = None) →
  ∃ m' x p', createJobs js r now ki ids m = (m', Ok x) ∧ insert_jobs js r now p = (p', Ok tt) ∧
    jobs_follow m' p' ∧ deliveries m' = deliveries m ∧ runs m' = runs m.
Proof.
  revert ki ids m p. induction js as [|i js IH]; intros ki ids m p Hf Hr Hnd Hki; simpl.
  { by exists m, (ki, ids), p. }
  apply NoDup_cons in Hnd as [Hi Hnd]. rewrite (Hki (IJobKey i)) by (simpl; set_solver).
  pose proof Hf as [Hj Hm Hfr]. unfold mbind, mint, insert_job. simpl. rewrite Hm.
  pose proof (Hfr (minted m) ltac:(lia)) as Hn. pose proof (Hj (newid (minted m))) as En. rewrite Hn in En.
  destruct (pg_jobs p !! newid (minted m)) eqn:Ep; [done|]. rewrite bool_decide_eq_false_2 by (by intros []).
  rewrite (bool_decide_eq_true_2 _ Hr). simpl.
  edestruct (IH (<[IJobKey i := newid (minted m)]> ki) (ids ++ [newid (minted m)])
    (putJob (newid (minted m)) (newJob (newid (minted m)) r i now) (with_minted (S (minted m)) m)))
    as (m' & x & p' & E1 & E2 & Hf' & Ed & Er); [| |done| |exists m', x, p'; split; [exact E1|split; [exact E2|done]]].
  - split; simpl; [|done|].
    + intros id. rewrite !lookup_insert. by case_decide.
    + intros n Hle. rewrite lookup_insert_ne; [apply Hfr; lia|]. intros E%newid_inj. lia.
  - done.
  - intros k Hk. rewrite lookup_insert_ne by set_solver. apply Hki. simpl. set_solver.
Qed.

Definition fresh_seed (seed : RunSeed) (m : store) : Prop :=
  NoDup (map IJobKey (SJobs seed)) ∧
  ∀ r run, runs m !! r = Some run → KeyDeliveryID (RDelivery run) = KeyDeliveryID (SDelivery seed) →
    RDelivery run = SDelivery seed.

Lemma CreateRun_mirrored seed now m p :
  store_wf m → pg_wf p → follows m p → fresh_seed seed m → mirrored (OpCreateRun seed now) m p.
Proof.
  intros Hwf Hpw Hf [Hnd Huniq]. unfold mirrored, mem_answer, pg_answer, exec, pg_exec, mem_CreateRun, pg_CreateRun.
  pose proof (wf_base _ Hwf) as Hb. pose proof (fo_deliveries _ _ Hf (SDelivery seed)) as Ed.
  destruct (deliveries m !! SDelivery seed) as [rec|] eqn:Hd, (pg_deliveries p !! SDelivery seed) as [row|] eqn:Hdp;
    try discriminate Ed; unfold in_tx; rewrite Hdp; [|split; [done|by apply follows_rollback]].
  apply (inj Some) in Ed. unfold recorded, bound_to in Ed. injection Ed as _ _ Ed. cbv zeta. rewrite <-Ed.
  case_bool_decide as Hx.
  { unfold getRunLocked, mbind, runIn.
    destruct (follows_run m p (DRRunID rec) Hf) as [(run & run' & Hm & Hp & E)|[Hm Hp]]; rewrite Hm, Hp; simpl.
    - unfold answered. simpl. by rewrite E.
    - split; [done|by apply follows_rollback]. }
  case_bool_decide as Hlen; [split; [done|by apply follows_rollback]|].
  assert (drow_run row = None) as Hnone.
  { destruct (drow_run row) as [r|] eqn:Er; [|done]. simpl in Ed. exfalso.
    destruct (pw_bound _ Hpw _ _ _ Hdp Er) as [run2 Hr2]. destruct (pw_run _ Hpw _ _ Hr2). congruence. }
  unfold mbind, mint, insert_run. cbn [fst snd RID newRun pg_minted pg_runs with_pg_minted].
  rewrite (fo_minted _ _ Hf). set (r := newid (minted m)).
  assert (pg_runs p !! r = None) as Hpr.
  { pose proof (fo_runs _ _ Hf r) as E. assert (runs m !! r = None) as Hn by exact (fresh_run m Hb). rewrite Hn in E. by destruct (pg_runs p !! r). }
  rewrite bool_decide_eq_false_2 by (rewrite Hpr; by intros []).
  assert (existsb (fun q => bool_decide (KeyDeliveryID (RDelivery (snd q)) =
    KeyDeliveryID (RDelivery (newRun r seed (stamp now))))) (map_to_list (pg_runs p)) = false) as ->.
  { apply not_true_iff_false. intros ([r' run'] & Hin & E)%existsb_exists. apply list_elem_of_In, elem_of_map_to_list in Hin.
    simpl in E. breflect. destruct (follows_run m p r' Hf) as [(run & ? & Hm & Hp & Ea)|[_ ?]]; [|congruence].
    rewrite Hin in Hp. injection Hp as <-. unfold runs_alike, run_view in Ea. injection Ea as _ _ Edel _.
    rewrite Edel in E. specialize (Huniq r' run Hm E). destruct (wf_run_delivery _ Hb _ _ Hm) as (rec' & Hrec & Hr').
    rewrite Huniq, Hd in Hrec. injection Hrec as <-. destruct (wf_run_minted _ Hb _ _ Hm) as (n & _ & ->).
    apply (newid_nonempty n). congruence. }
  cbn [orb fst snd].
  set (p1 := with_pg_runs _ _). set (m1 := with_minted (S (minted m)) m).
  assert (jobs_follow m1 p1) as Hjf.
  { split; [apply Hf|done|]. intros n Hle. simpl in *. destruct (jobs m !! newid n) eqn:E; [|done].
    destruct (wf_job_minted _ Hb _ _ E) as [(n' & ? & E')  _]. apply newid_inj in E'. lia. }
  destruct (create_loops_follow (SJobs seed) r now ∅ [] m1 p1 Hjf) as (m2 & [ki ids] & p2 & E1 & E2 & Hjf2 & Ed2 & Er2).
  { simpl. rewrite lookup_insert_eq. by eexists. }
  { done. }
  { intros k _. apply lookup_empty. }
  pose proof (insert_jobs_runs (SJobs seed) r now p1) as Epr. pose proof (insert_jobs_deliveries (SJobs seed) r now p1) as Epd.
  rewrite E2 in Epr, Epd. rewrite E1, E2. split; [done|]. cbn [fst snd] in *.
  destruct Hjf2 as [Hj2 Hm2 _]. unfold commitRun, bindRun. simpl. rewrite Ed2. simpl. rewrite Hd.
  split; simpl; [done| | |done].
  - intros r'. rewrite Epr, Er2. simpl. rewrite !lookup_insert. case_decide; [done|apply Hf].
  - intros k. rewrite Epd. simpl. rewrite lookup_insert. case_decide as Hk.
    + subst k. rewrite lookup_alter_eq, Hdp. simpl. rewrite Hnone. pose proof (fo_deliveries _ _ Hf (SDelivery seed)) as Ev.
      rewrite Hd, Hdp in Ev. apply (inj Some) in Ev. unfold recorded, bound_to in *. injection Ev as -> -> _. done.
    + rewrite lookup_alter_ne by done. apply Hf.
Qed.

(** ** Retries *)

(** At most one job is the next attempt of [id]. *)
Definition one_next_attempt (id : JobRunID) (m : store) : Prop :=
  ∀ j id1 id2 j1 j2, jobs m !! id = Some j → jobs m !! id1 = Some j1 → jobs m !! id2 = Some j2 →
    JRunID j1 = JRunID j → JRunID j2 = JRunID j → is_next_attempt j j1 → is_next_attempt j j2 → id1 = id2.

Lemma retry_alike id t t' a b : alike a b → alike (retryJob id a t) (retryJob id b t').
Proof.
  unfold alike, timeless. intros E. injection E as _ E2 E3 E4 E5 E6 E7 E8 _ E10 _ _ _. simpl.
  by rewrite E2, E3, E4, E5, E6, E7, E8, E10.
Qed.

(** The attempt the two searches find, or that neither finds one. *)
Lemma next_attempt_agrees m p id j row :
  store_wf m → follows m p → owned m (JRunID j) → one_next_attempt id m → jobs m !! id = Some j → alike (jrow row) j →
  (∀ i row', pg_jobs p !! i = Some row' → JID (jrow row') = i) →
  match List.find (fun jid => bool_decide (is_next_attempt j (getJob m jid))) (getRunJobs m (JRunID j)),
        select_jobs (fun k => bool_decide (JRunID k = JRunID (jrow row) ∧ is_next_attempt (jrow row) k)) p with
  | Some jid, k :: _ => JID (getJob m jid) = JID k
  | None, [] => True
  | _, _ => False
  end.
Proof.
  intros Hwf Hf Ho Hone Hj Ea Hid. destruct (alike_eqs _ _ Ea) as (_ & Er & Ek & Eat & _).
  assert (∀ i row' j', pg_jobs p !! i = Some row' → jobs m !! i = Some j' →
    (JRunID (jrow row') = JRunID (jrow row) ∧ is_next_attempt (jrow row) (jrow row')) ↔
    (JRunID j' = JRunID j ∧ is_next_attempt j j')) as Hiff.
  { intros i row' j' Hr' Hj'. destruct (follows_job m p i Hf) as [(? & ? & ? & ? & E)|[? _]]; [|congruence].
    simplify_eq. unfold is_next_attempt. destruct (alike_eqs _ _ E) as (_ & -> & -> & -> & _). by rewrite Er, Ek, Eat. }
  destruct (List.find _ _) as [jid|] eqn:Hfind.
  - apply find_some in Hfind as [Hin%list_elem_of_In Hn]. breflect. apply Ho in Hin as (j1 & Hj1 & Hr1).
    rewrite (getJob_Some _ _ _ Hj1) in *. rewrite (wf_job_id _ (wf_base _ Hwf) _ _ Hj1).
    destruct (select_jobs _ p) as [|k l] eqn:Es.
    + destruct (follows_job m p jid Hf) as [(? & row1 & ? & Hrow1 & _)|[? _]]; [|congruence]. simplify_eq.
      assert (jrow row1 ∈ @nil JobRunRecord) as Hnil; [|by apply not_elem_of_nil in Hnil].
      rewrite <-Es. apply select_jobs_elem. split; [eauto|]. apply bool_decide_eq_true_2. by apply (Hiff jid row1 j1).
    + assert (k ∈ k :: l) as Hk by set_solver. rewrite <-Es in Hk. apply select_jobs_elem in Hk as [(i & row2 & Hr2 & <-) Hk].
      breflect. rewrite (Hid _ _ Hr2). destruct (follows_job m p i Hf) as [(j2 & row3 & Hj2 & Hr3 & _)|[_ ?]]; [|congruence].
      destruct (proj1 (Hiff i row2 j2 Hr2 Hj2) Hk) as [Hrun2 Hn2]. by eapply (Hone j jid i j1 j2).
  - destruct (select_jobs _ p) as [|k l] eqn:Es; [done|].
    assert (k ∈ k :: l) as Hk by set_solver. rewrite <-Es in Hk. apply select_jobs_elem in Hk as [(i & row2 & Hr2 & <-) Hk].
    breflect. destruct (follows_job m p i Hf) as [(j2 & row3 & Hj2 & Hr3 & _)|[_ ?]]; [|congruence].
    destruct (proj1 (Hiff i row2 j2 Hr2 Hj2) Hk) as [Hrun2 Hn2].
    assert (i ∈ getRunJobs m (JRunID j)) as Hin by (apply Ho; eauto).
    pose proof (find_none _ _ Hfind i ltac:(by apply list_elem_of_In)) as Hfalse. simpl in Hfalse.
    rewrite (getJob_Some _ _ _ Hj2) in Hfalse. breflect. done.
Qed.

Lemma reopen_follows r m p : follows m p → follows (reopenRun r m) (pg_reopen r p).
Proof.
  intros Hf. unfold reopenRun, pg_reopen.
  destruct (follows_run m p r Hf) as [(run & run' & Hm & Hp & E)|[Hm Hp]]; rewrite Hm, Hp; [|done].
  destruct (runs_alike_eqs _ _ E) as (_ & -> & _). destruct (run_terminal (RStatus run)); [|done].
  split; try apply Hf. intros r'. simpl. rewrite lookup_insert. case_decide as Hr.
  - subst r'. rewrite lookup_alter_eq, Hp. simpl. unfold runs_alike, run_view in *. injection E. intros. simpl. congruence.
  - rewrite lookup_alter_ne by done. apply Hf.
Qed.

Lemma RerequestJob_mirrored id now m p :
  store_wf m → pg_wf p → follows m p → one_next_attempt id m → mirrored (OpRerequestJob id now) m p.
Proof.
  intros Hwf Hpw Hf Hone. unfold mirrored, mem_answer, pg_answer, exec, pg_exec, mem_RerequestJob, pg_RerequestJob.
  pose proof (wf_base _ Hwf) as Hb.
  destruct (follows_job m p id Hf) as [(j & row & Hj & Hr & Ea)|[Hj Hr]]; rewrite Hj; unfold in_tx; rewrite jobIn_bind, Hr;
    [|split; [done|by apply follows_rollback]].
  pose proof (follows_owned m p row id Hwf Hpw Hf Hr) as Ho. destruct (alike_eqs _ _ Ea) as (_ & Er & _). rewrite Er in Ho.
  pose proof (next_attempt_agrees m p id j row Hwf Hf Ho Hone Hj Ea (pw_job _ Hpw)) as Hnext.
  destruct (List.find _ _) as [jid|], (select_jobs _ p) as [|k l]; try done.
  { unfold answered. simpl. by rewrite Hnext. }
  destruct (pw_foreign _ Hpw _ _ Hr) as [run' Hrun'].
  destruct (follows_run m p (JRunID j) Hf) as [(run & _ & Hrun & _)|[_ ?]]; [|congruence].
  assert (is_Some (byJobKey m !! JRunID j)) as [idx Hidx] by (apply (wf_run_index _ Hb); eauto).
  simpl. rewrite Hidx. unfold mbind, mint, insert_job. simpl. rewrite (fo_minted _ _ Hf).
  pose proof (fresh_job m Hb) as Hn. pose proof (fo_jobs _ _ Hf (newid (minted m))) as En. rewrite Hn in En.
  destruct (pg_jobs p !! newid (minted m)) eqn:Ep; [done|]. rewrite bool_decide_eq_false_2 by (by intros []). simpl.
  rewrite Hrun'. simpl. split; [done|]. rewrite Er. apply reopen_follows.
  split; simpl; try apply Hf; [|done]. intros i. rewrite !lookup_insert. case_decide; [|apply Hf]. simpl.
  apply (f_equal Some). symmetry. by apply retry_alike.
Qed.

(** ** Sequences of operations *)

(** Where the two stores are meant to behave alike: no claims, which need more of
    the states to agree ([PostgresTracking]); and what [PostgresIsolation] shows to
    matter. *)
Definition comparable (o : op) (m : store) : Prop :=
  match o with
  | OpClaimNextQueuedJob => False
  | OpCreateRun seed _ => fresh_seed seed m
  | OpRerequestJob id _ => one_next_attempt id m
  | OpMarkCollected id _ => is_Some (jobs m !! id)
  | _ => True
  end.

Fixpoint all_comparable (os : list op) (m : store) : Prop :=
  match os with
  | [] => True
  | o :: os' => comparable o m ∧ all_comparable os' (exec o m)
  end.

Fixpoint mem_answers (os : list op) (m : store) : list (outcome error answer) :=
  match os with [] => [] | o :: os' => mem_answer o m :: mem_answers os' (exec o m) end.

Fixpoint pg_answers (os : list op) (p : pg) : list (outcome error answer) :=
  match os with [] => [] | o :: os' => pg_answer o p :: pg_answers os' (pg_exec o p) end.

Lemma op_mirrored o m p :
  store_wf m → pg_wf p → follows m p → comparable o m → mirrored o m p.
Proof.
  destruct o; simpl; intros; [by apply RecordDelivery_mirrored|by apply CreateRun_mirrored|done|
    by apply ReleaseClaim_mirrored|by apply AckDispatched_mirrored|by apply ApplyObserved_mirrored|
    by apply CancelRun_mirrored|by apply RerequestJob_mirrored|by apply MarkCollected_mirrored].
Qed.

(** From empty stores, the same comparable operations (no claims, delivery ids
    and job keys that are unique, collected jobs that exist) in the same order get
    the same answers from PostgreSQL as from memory, and leave the same
    deliveries, jobs and settled runs behind. *)
Theorem postgres_mirrors_memory os now :
  all_comparable os NewDurableStore →
  pg_answers os (empty_pg now) = mem_answers os NewDurableStore ∧
  follows (mem_exec_all os NewDurableStore) (pg_exec_all os (empty_pg now)).
Proof.
  assert (∀ m p, store_wf m → pg_wf p → follows m p → all_comparable os m →
    pg_answers os p = mem_answers os m ∧ follows (mem_exec_all os m) (pg_exec_all os p)) as Hgen.
  { induction os as [|o os IH]; intros m p Hwf Hpw Hf; simpl; [done|]. intros [Hc Hall].
    destruct (op_mirrored o m p Hwf Hpw Hf Hc) as [-> Hf'].
    destruct (IH (exec o m) (pg_exec o p)) as [-> ?]; [by apply exec_wf_le|by apply pg_exec_next|exact Hf'|exact Hall|].
    by split. }
  apply Hgen; [apply NewDurableStore_wf|apply empty_pg_wf|]. by split.
Qed.
End mirror.

(** ** A history in both stores *)

Lemma one_next_attempt_forall id m :
  Forall (fun i1 => Forall (fun i2 => match jobs m !! id, jobs m !! i1, jobs m !! i2 with
    | Some j, Some j1, Some j2 => JRunID j1 = JRunID j → JRunID j2 = JRunID j →
        is_next_attempt j j1 → is_next_attempt j j2 → i1 = i2
    | _, _, _ => True end) (map_to_list (jobs m)).*1) (map_to_list (jobs m)).*1 → one_next_attempt id m.
Proof.
  intros Hall j i1 i2 j1 j2 Hj H1 H2 ????. rewrite Forall_forall in Hall.
  assert (∀ i k, jobs m !! i = Some k → i ∈ (map_to_list (jobs m)).*1) as Hl.
  { intros i k Hk. apply list_elem_of_fmap. exists (i, k). split; [done|]. by apply elem_of_map_to_list. }
  specialize (Hall i1 (Hl _ _ H1)). rewrite Forall_forall in Hall. specialize (Hall i2 (Hl _ _ H2)).
  rewrite Hj, H1, H2 in Hall. auto.
Qed.

Lemma all_comparable_app os os' m :
  all_comparable os m → all_comparable os' (mem_exec_all os m) → all_comparable (os ++ os') m.
Proof. revert m. induction os; intros m; simpl; naive_solver. Qed.

(** A run is created, its first job fails, the run is cancelled, the job is
    retried. *)
Definition demo_before_retry : list op :=
  demo_start ++ [OpAckDispatched demo_build {| ObjName := "jobrun-idx"; ObjUID := "u" |} 6;
                 OpApplyObserved demo_build PhaseRunning 7; OpApplyObserved demo_build PhaseFailed 8;
                 OpCancelRun demo_run 9; OpCancelRun "other" 9; OpMarkCollected demo_build 10].

Definition demo_history : list op := demo_before_retry ++ [OpRerequestJob demo_build 11].

Lemma demo_seed_fresh : fresh_seed demo_seed (exec (OpRecordDelivery demo_delivery) NewDurableStore).
Proof. split; [repeat constructor; set_solver|]. intros r run Hr. change ((∅ : gmap string RunRecord) !! r = Some run) in Hr. by rewrite lookup_empty in Hr. Qed.

Lemma demo_retry_unique : one_next_attempt demo_build (mem_exec_all demo_before_retry NewDurableStore).
Proof.
  apply one_next_attempt_forall. vm_compute. repeat constructor; intros _ _ [_ Ha] [_ Hb]; discriminate.
Qed.

Lemma demo_history_comparable : all_comparable demo_history NewDurableStore.
Proof.
  apply all_comparable_app; [|by split; [exact demo_retry_unique|]].
  split; [exact I|]. split; [exact demo_seed_fresh|]. do 5 (split; [exact I|]).
  split; [vm_compute; by eexists|exact I].
Qed.

Lemma postgres_mirrors_memory_witness :
  pg_answers demo_history (empty_pg 1000000)
  = [Ok (ARecorded (demo_event, "{}", "") true); Ok (ARun (demo_run, demo_event, demo_key, None) true); Ok ADone; Ok ADone; Ok ADone; Ok ADone;
     Err ErrRunNotFound; Ok ADone; Ok (AJob "idxxx")].
Proof.
  rewrite (proj1 (postgres_mirrors_memory demo_history 1000000 demo_history_comparable)).
  vm_compute. reflexivity.
Defined.
