(* ===== verification/PostgresTracking.v ===== *)
(** * Claims in both stores

    [PostgresMirror] without its exception: within the lease of a claim the two
    stores hand out the same jobs in the same order.  [tracks] adds to [follows]
    the times of creation and the claims of queued jobs; the store in memory is
    one whose attempts are in order ([attempts_ok]). *)

From S2P Require Import Prelude GoStrings RunModel SchedulerPort MemoryStore StoreInvariant StoreOps StoreClaims StoreLifecycle StoreAttempts.
From S2P Require Import Postgres PostgresSpec PostgresTheorems PostgresPort PostgresClaims PostgresRefinement PostgresMirror.

Local Open Scope go_scope.

Implicit Types (m : store) (p : pg).

(** ** Dependencies *)

Lemma dep_verdict_cons st sts :
  dep_verdict (st :: sts) =
  if bool_decide (st = JobSucceeded) then dep_verdict sts
  else if job_terminal st then depsFailed
  else match dep_verdict sts with depsFailed => depsFailed | _ => depsBlocked end.
Proof.
  unfold dep_verdict. simpl. case_bool_decide; simpl; [done|]. destruct (job_terminal st); simpl; [done|].
  destruct (existsb (fun st => _ && job_terminal st) sts); [done|]. by destruct (existsb _ sts).
Qed.

(** The loop over resolved keys is the verdict over their jobs. *)
Lemma deps_loop_verdict m idx keys :
  (∀ k, k ∈ keys → is_Some (idx !! k)) → ∀ st, st ≠ depsFailed →
  deps_loop m idx st keys =
  match dep_verdict (map (fun k => JStatus (getJob m (default "" (idx !! k)))) keys) with depsReady => st | v => v end.
Proof.
  induction keys as [|k keys IH]; intros Hres st Hst; [done|].
  destruct (Hres k ltac:(by left)) as [id Hid].
  assert (∀ k', k' ∈ keys → is_Some (idx !! k')) as Hres' by (intros; apply Hres; by right).
  cbn [deps_loop map]. rewrite Hid, dep_verdict_cons. change (default "" (Some id)) with id.
  destruct (JStatus (getJob m id)) eqn:Es; simpl; rewrite ?(IH Hres') by done; try done;
    by destruct (dep_verdict _).
Qed.

Lemma select_jobs_NoDup f p : pg_wf p → NoDup (select_jobs f p).
Proof.
  intros Hwf. unfold select_jobs. apply NoDup_ListNoDup, List.NoDup_filter, NoDup_ListNoDup.
  change @map with @list_fmap. rewrite <-list_fmap_compose.
  apply NoDup_fmap_2_strong; [|apply NoDup_map_to_list].
  intros [i x] [i' x'] Hx%elem_of_map_to_list Hx'%elem_of_map_to_list E. simpl in E.
  assert (i = i') as <-; [|by simplify_eq].
  rewrite <-(pw_job _ Hwf _ _ Hx), <-(pw_job _ Hwf _ _ Hx'). by rewrite E.
Qed.

Lemma alike_deps a b : alike a b → JDependsOn a = JDependsOn b ∧ JCondition a = JCondition b.
Proof. intros E. unfold alike, timeless in E. by injection E. Qed.

Lemma latest_attempts_elem keys l x :
  x ∈ latest_attempts keys l ↔
  x ∈ l ∧ JJobKey x ∈ keys ∧ ∀ y, y ∈ l → JJobKey y = JJobKey x → (JAttempt y ≤ JAttempt x)%Z.
Proof.
  unfold latest_attempts. rewrite !list_elem_of_In, !filter_In, forallb_forall, <-!list_elem_of_In, bool_decide_eq_true.
  split.
  - intros [[Hx Hk] Hall]. split_and!; try done. intros y Hy Ek. specialize (Hall y).
    rewrite filter_In, bool_decide_eq_true, Ek, <-list_elem_of_In in Hall. specialize (Hall (conj Hy Hk)).
    rewrite bool_decide_eq_true_2 in Hall by done. by apply bool_decide_eq_true in Hall.
  - intros (Hx & Hk & Hall). split; [done|]. intros y [Hy _]%filter_In. apply list_elem_of_In in Hy.
    destruct (bool_decide (JJobKey y = JJobKey x)) eqn:E; [|done]. apply bool_decide_eq_true in E. simpl.
    apply bool_decide_eq_true. by apply Hall.
Qed.

Section deps.
Context `{MemoryEnv} `{!MemoryEnvOk}.

(** The latest attempts of the query are the jobs that the index names. *)
Lemma latest_attempts_index m p id j row :
  store_wf m → pg_wf p → attempts_ok m → follows m p → jobs m !! id = Some j → pg_jobs p !! id = Some row →
  let idx := default ∅ (byJobKey m !! JRunID j) in
  (∀ k, k ∈ JDependsOn j → is_Some (idx !! k)) ∧
  map JStatus (latest_attempts (JDependsOn j) (run_jobs (JRunID j) p)) ≡ₚ
  map (fun k => JStatus (getJob m (default "" (idx !! k)))) (JDependsOn j).
Proof.
  intros Hwf Hpw Hat Hf Hj Hr idx. pose proof (wf_base _ Hwf) as Hb.
  destruct (at_deps _ Hat _ _ Hj) as [Hnd Hdep].
  assert (∀ k, k ∈ JDependsOn j → ∃ i jk rk, idx !! k = Some i ∧ jobs m !! i = Some jk ∧ pg_jobs p !! i = Some rk ∧
    alike (jrow rk) jk ∧ JRunID jk = JRunID j ∧ JJobKey jk = k ∧
    ∀ i' k', jobs m !! i' = Some k' → same_slot jk k' → (JAttempt k' ≤ JAttempt jk)%Z) as Hidx.
  { intros k (i' & j' & Hj' & Er & Ek)%Hdep.
    destruct (at_index _ Hat _ _ Hj') as (idx' & i & jk & E & E' & Hjk & [Er' Ek'] & _).
    destruct (follows_job m p i Hf) as [(? & rk & ? & Hrk & Ea)|[? _]]; [|congruence]. simplify_eq.
    exists i, jk, rk. unfold idx. rewrite <-Er, E. split_and!; try done; try congruence.
    intros i2 k2 Hk2 [Er2 Ek2]. destruct (at_index _ Hat _ _ Hk2) as (idx2 & i3 & j3 & F & F' & Hj3 & _ & Ha).
    rewrite <-Er2, <-Er', E in F. injection F as <-. rewrite <-Ek2, <-Ek', E' in F'. injection F' as <-. by simplify_eq. }
  split; [intros k (i & ? & ? & ? & _)%Hidx; by eexists|].
  set (G := fun k => default (jrow row) (jrow <$> pg_jobs p !! default "" (idx !! k))).
  assert (latest_attempts (JDependsOn j) (run_jobs (JRunID j) p) ≡ₚ map G (JDependsOn j)) as ->.
  { assert (∀ k, k ∈ JDependsOn j → ∃ i jk rk, idx !! k = Some i ∧ pg_jobs p !! i = Some rk ∧ G k = jrow rk ∧
      alike (jrow rk) jk ∧ jobs m !! i = Some jk ∧ JRunID jk = JRunID j ∧ JJobKey jk = k) as HG.
    { intros k (i & jk & rk & Hi & Hjk & Hrk & Ea & Er & Ek & _)%Hidx. exists i, jk, rk. unfold G. rewrite Hi. simpl.
      rewrite Hrk. by split_and!. }
    apply NoDup_Permutation.
    - unfold latest_attempts. apply NoDup_ListNoDup. do 2 apply List.NoDup_filter. apply NoDup_ListNoDup.
      by apply select_jobs_NoDup.
    - apply NoDup_fmap_2_strong; [|done].
      intros k k' (i & jk & rk & _ & _ & E & Ea & _ & _ & Ek)%HG (i' & jk' & rk' & _ & _ & E' & Ea' & _ & _ & Ek')%HG Heq.
      destruct (alike_eqs _ _ Ea) as (_ & _ & F & _), (alike_eqs _ _ Ea') as (_ & _ & F' & _). congruence.
    - intros x. rewrite latest_attempts_elem. change @map with @list_fmap. rewrite list_elem_of_fmap. split.
      + intros (Hx & Hk & Hmax). exists (JJobKey x). split; [|done].
        apply run_jobs_elem in Hx as (ix & rx & Hrx & <- & Erx).
        destruct (Hidx _ Hk) as (i & jk & rk & Hi & Hjk & Hrk & Ea & Er & Ek & Hlast).
        unfold G. rewrite Hi. simpl. rewrite Hrk. simpl. do 2 f_equal.
        destruct (follows_job m p ix Hf) as [(jx & rx' & Hjx & ? & Eax)|[_ ?]]; [|congruence]. simplify_eq.
        destruct (alike_eqs _ _ Ea) as (_ & Ar & Ak & Aa & _), (alike_eqs _ _ Eax) as (_ & Br & Bk & Ba & _).
        assert (same_slot jk jx) as Hs by (split; congruence).
        assert (JAttempt jx ≤ JAttempt jk)%Z by (by eapply Hlast).
        assert (JAttempt jk ≤ JAttempt jx)%Z.
        { rewrite <-Aa, <-Ba. apply (Hmax (jrow rk)); [|congruence]. apply run_jobs_elem. exists i, rk. split_and!; [done..|congruence]. }
        assert (ix = i) as <-; [|congruence]. eapply (at_unique _ Hat); [exact Hjx|exact Hjk| |lia]. split; symmetry; apply Hs.
      + intros (k & -> & Hk). destruct (Hidx k Hk) as (i & jk & rk & Hi & Hjk & Hrk & Ea & Er & Ek & Hlast).
        unfold G. rewrite Hi. simpl. rewrite Hrk. simpl. destruct (alike_eqs _ _ Ea) as (_ & Ar & Ak & Aa & _).
        split_and!.
        * apply run_jobs_elem. exists i, rk. split_and!; [done..|congruence].
        * congruence.
        * intros y (iy & ry & Hry & <- & Ery)%run_jobs_elem Eky.
          destruct (follows_job m p iy Hf) as [(jy & ry' & Hjy & ? & Eay)|[_ ?]]; [|congruence]. simplify_eq.
          destruct (alike_eqs _ _ Eay) as (_ & Br & Bk & Ba & _). rewrite Aa, Ba. eapply Hlast; [exact Hjy|]. split; congruence. }
  rewrite map_map. apply reflexive_eq, map_ext_in.
  intros k (i & jk & rk & Hi & Hjk & Hrk & Ea & _)%list_elem_of_In%Hidx. unfold G. rewrite Hi. simpl.
  rewrite Hrk, (getJob_Some _ _ _ Hjk). simpl. by destruct (alike_eqs _ _ Ea) as (_ & _ & _ & _ & -> & _).
Qed.

(** Both stores judge the dependencies of a job alike. *)
Lemma depState_agrees m p id j :
  store_wf m → pg_wf p → attempts_ok m → follows m p → jobs m !! id = Some j →
  dependencyStateLocked m id = pg_depState id p.
Proof.
  intros Hwf Hpw Hat Hf Hj. unfold dependencyStateLocked, pg_depState. rewrite Hj.
  destruct (follows_job m p id Hf) as [(j' & row & ? & Hr & Ea)|[? _]]; [|congruence]. simplify_eq. rewrite Hr. cbv zeta.
  destruct (alike_deps _ _ Ea) as [-> _]. destruct (alike_eqs _ _ Ea) as (_ & -> & _).
  case_bool_decide as Hlen; [done|].
  destruct (latest_attempts_index m p id _ row Hwf Hpw Hat Hf Hj Hr) as [Hres Hperm].
  rewrite (deps_loop_verdict m _ _ Hres) by done.
  rewrite (dep_verdict_perm _ _ Hperm : _ = _), (Permutation_length Hperm), length_map, bool_decide_eq_true_2 by done. simpl.
  by destruct (dep_verdict _).
Qed.
End deps.

(** ** What claims add *)

Record tracks (t0 : Time) (m : store) (p : pg) : Prop := {
  tr_follows : follows m p;
  tr_created : ∀ id j row, jobs m !! id = Some j → pg_jobs p !! id = Some row → JCreatedAt (jrow row) = JCreatedAt j;
  tr_claim : ∀ id j row, jobs m !! id = Some j → pg_jobs p !! id = Some row → JStatus j = JobQueued →
    id ∈ claimed m ↔ is_Some (jrow_claimed row);
  tr_lease : ∀ id row t, pg_jobs p !! id = Some row → jrow_claimed row = Some t → (stamp t0 ≤ t)%Z
}.

(** The clock is within the lease of the oldest claim. *)
Definition in_lease (t0 : Time) (p : pg) : Prop := (t0 ≤ pg_now p ≤ t0 + claimLease)%Z.

Lemma stamp_mono t t' : (t ≤ t')%Z → (stamp t ≤ stamp t')%Z.
Proof. intros Hle. unfold stamp. pose proof (Z.div_le_mono t t' 1000). lia. Qed.

Lemma stamp_lease t : stamp (t + claimLease) = (stamp t + claimLease)%Z.
Proof.
  unfold stamp, claimLease. change (5 * 60 * 1000000000)%Z with (300000000 * 1000)%Z.
  rewrite Z.div_add by done. lia.
Qed.

Lemma tracked_claimable t0 m p id j row :
  tracks t0 m p → in_lease t0 p → jobs m !! id = Some j → pg_jobs p !! id = Some row →
  claimable (pg_now p) row = true ↔ JStatus j = JobQueued ∧ id ∉ claimed m.
Proof.
  intros [Hf _ Hc Hl] [_ Hnow] Hj Hr. destruct (follows_job m p id Hf) as [(? & ? & ? & ? & Ea)|[? _]]; [|congruence].
  simplify_eq. destruct (alike_eqs _ _ Ea) as (_ & _ & _ & _ & Es & _). unfold claimable. rewrite Es, andb_true_iff, bool_decide_eq_true.
  split; intros [Hq Hcl]; (split; [done|]).
  - rewrite (Hc _ _ _ Hj Hr Hq). destruct (jrow_claimed row) as [t|] eqn:Et; [|by intros []]. apply bool_decide_eq_true in Hcl.
    specialize (Hl _ _ _ Hr Et). apply stamp_mono in Hnow. rewrite stamp_lease in Hnow. lia.
  - rewrite (Hc _ _ _ Hj Hr Hq) in Hcl. destruct (jrow_claimed row); [|done]. destruct Hcl. by eexists.
Qed.

(** The same candidates in the same order. *)
Lemma candidates_agree t0 m p :
  pg_wf p → tracks t0 m p → in_lease t0 p → claim_ids p = map fst (candidates m).
Proof.
  intros Hpw Ht Hnow. unfold claim_ids, candidates. f_equal. apply sort_by_unique.
  - exact job_before_le_trans.
  - exact job_before_asym.
  - intros [i t] [i' t'] _ _. unfold le_of, job_before. simpl. repeat case_bool_decide; try congruence; try lia; try done.
    intros. f_equal; [by apply str_le_antisym|done].
  - apply NoDup_Permutation.
    + unfold claim_rows. change @map with @list_fmap. apply NoDup_fmap_2_strong.
      * intros [i x] [i' x'] [Hx%list_elem_of_In _]%list_elem_of_In%filter_In [Hx'%list_elem_of_In _]%list_elem_of_In%filter_In [= <- _].
        apply elem_of_map_to_list in Hx, Hx'. by simplify_eq.
      * apply NoDup_ListNoDup, List.NoDup_filter, NoDup_ListNoDup, NoDup_map_to_list.
    + eapply (NoDup_fmap_1 fst). pose proof (candidates_NoDup m) as Hnd. unfold candidates in Hnd. by rewrite sort_by_perm in Hnd.
    + intros q. transitivity (q ∈ candidates m); [|unfold candidates; by rewrite sort_by_elem].
      rewrite claim_rows_elem, candidates_elem. split.
      * intros (row & Hr & Hc & Et). destruct (follows_job m p (fst q) (tr_follows _ _ _ Ht)) as [(j & ? & Hj & ? & _)|[_ ?]]; [|congruence].
        simplify_eq. exists j. apply (tracked_claimable t0 m p _ _ _ Ht Hnow Hj Hr) in Hc as [? ?]. split_and!; try done.
        rewrite Et. by eapply tr_created.
      * intros (j & Hj & Et & Hq & Hnc). destruct (follows_job m p (fst q) (tr_follows _ _ _ Ht)) as [(? & row & ? & Hr & _)|[? _]]; [|congruence].
        simplify_eq. exists row. split_and!; [done|by apply (tracked_claimable t0 m p _ _ _ Ht Hnow Hj Hr)|].
        rewrite Et. symmetry. by eapply tr_created.
Qed.

(** ** The claim loop *)

Section claims.
Context `{MemoryEnv} `{!MemoryEnvOk}.

Lemma take_tracks t0 m p id :
  tracks t0 m p → in_lease t0 p →
  tracks t0 (with_claimed ({[id]} ∪ claimed m) m) (update_job id (set_claim (Some (stamp (pg_now p)))) p).
Proof.
  intros [Hf Hcr Hcl Hl] [Hnow _].
  assert (∀ i row', pg_jobs (update_job id (set_claim (Some (stamp (pg_now p)))) p) !! i = Some row' →
    ∃ row, pg_jobs p !! i = Some row ∧ jrow row' = jrow row ∧
      jrow_claimed row' = if decide (id = i) then Some (stamp (pg_now p)) else jrow_claimed row) as Hrow.
  { intros i row'. rewrite update_job_lookup. case_decide; [|by exists row'].
    destruct (pg_jobs p !! i) as [row|]; simpl; [intros [= <-]; by exists row|done]. }
  split.
  - eapply (follows_ext m _ (update_job id (set_claim _) p)); try done. by apply follows_update_only.
  - intros i j row' Hj (row & Hr & -> & _)%Hrow. by eapply Hcr.
  - intros i j row' Hj (row & Hr & _ & ->)%Hrow Hq. simpl. rewrite elem_of_union, elem_of_singleton.
    case_decide; [split; [by eexists|left; congruence]|]. rewrite <-(Hcl _ _ _ Hj Hr Hq). naive_solver.
  - intros i row' t (row & Hr & _ & ->)%Hrow. case_decide; [intros [= <-]; by apply stamp_mono|by eapply Hl].
Qed.

Lemma skip_tracks t0 m p id j row now :
  store_wf m → pg_wf p → tracks t0 m p → jobs m !! id = Some j → pg_jobs p !! id = Some row → JStatus j = JobQueued →
  let p' := update_job id (skip_row now) p in
  tracks t0 (skipJob id m) (fst (refreshRun id now p')) ∧ snd (refreshRun id now p') = Ok tt.
Proof.
  intros Hwf Hpw [Hf Hcr Hcl Hl] Hj Hr Hq p'. rewrite (skipJob_unfold m id j Hj) by (by rewrite Hq).
  destruct (follows_job m p id Hf) as [(? & ? & ? & ? & Ea)|[? _]]; [|congruence]. simplify_eq.
  destruct (alike_eqs _ _ Ea) as (_ & Er & _ & _ & Es & _).
  set (j' := set_times _ _ _). set (m1 := putJob id j' _).
  assert (pg_jobs p' !! id = Some (skip_row now row)) as Hr' by (unfold p'; rewrite update_job_lookup, decide_True by done; by rewrite Hr).
  assert (skip_row now row = on_record (fun j => set_times (JStartedAt j) (Some (stamp now)) (set_status JobSkipped j)) row) as Eskip.
  { unfold skip_row, if_queued. by rewrite Es, Hq. }
  assert (alike (jrow (skip_row now row)) j') as Ea'.
  { rewrite Eskip. unfold alike, timeless in *. injection Ea. intros. simpl. by f_equal. }
  assert (follows m1 p') as Hf1.
  { eapply (follows_put (with_ticks (S (ticks m)) m)); [by eapply (follows_ext m _ p)|exact Hj|exact Hr|exact Ea']. }
  assert (pg_wf p') as Hpw'.
  { unfold p'. eapply update_job_next; [|exact Hpw]. intros row0 _ _. apply skip_row_le. }
  destruct (refresh_follows m1 p' id (skip_row now row) (clock (ticks m)) now Hf1 Hpw') as [Hf2 Hok]; [|exact Hr'|].
  { rewrite Eskip. simpl. rewrite Er. eapply (owned_put (with_ticks (S (ticks m)) m)); [exact Hj|done|].
    pose proof (follows_owned m p row id Hwf Hpw Hf Hr) as Ho. rewrite Er in Ho. exact Ho. }
  split; [|exact Hok]. rewrite Eskip in Hf2. simpl in Hf2. rewrite Er in Hf2.
  assert (∀ i row', pg_jobs (fst (refreshRun id now p')) !! i = Some row' →
    (i = id ∧ row' = skip_row now row) ∨ (i ≠ id ∧ pg_jobs p !! i = Some row')) as Hrows.
  { intros i row'. rewrite refreshRun_jobs. unfold p'. rewrite update_job_lookup. case_decide as E; [subst i; left|right; done].
    rewrite Hr in H1. by injection H1. }
  assert (∀ i k, jobs (refreshRunLocked (JRunID j) (clock (ticks m)) m1) !! i = Some k →
    (i = id ∧ k = j') ∨ (i ≠ id ∧ jobs m !! i = Some k)) as Hjobs.
  { intros i k. rewrite refresh_jobs. unfold m1. simpl. rewrite lookup_insert. case_decide; naive_solver. }
  split; [exact Hf2|..].
  - intros i k row' [[-> ->]|[? Hk]]%Hjobs [[? ->]|[? Hrow']]%Hrows; try done.
    + rewrite Eskip. simpl. by eapply Hcr.
    + by eapply Hcr.
  - intros i k row' [[-> ->]|[? Hk]]%Hjobs [[? ->]|[? Hrow']]%Hrows Hqk; try done.
    destruct (refresh_skips m1 (JRunID j) (clock (ticks m))) as [_ ->]. by eapply Hcl.
  - intros i row' t [[-> ->]|[? Hrow']]%Hrows; [rewrite Eskip; exact (Hl _ _ _ Hr)|by eapply Hl].
Qed.

(** What the two loops return, and the stores behind. *)
Definition claims_agree (t0 : Time) (x : store * outcome error JobRunRecord) (y : pg * outcome error (option JobRunRecord)) : Prop :=
  tracks t0 (fst x) (fst y) ∧
  match snd x, snd y with
  | Ok j, Ok (Some k) => alike k j
  | Err e, Ok None => e = ErrNoQueuedJob
  | _, _ => False
  end.

Lemma skipJob_static m id j :
  store_wf m → jobs m !! id = Some j → JStatus j = JobQueued → static m (skipJob id m).
Proof.
  intros Hwf Hj Hq. rewrite (skipJob_unfold m id j Hj) by (by rewrite Hq). etrans; [|apply refresh_static].
  etrans; [apply (static_same m (with_ticks (S (ticks m)) m)); done|]. eapply static_put; [exact Hj|].
  apply job_le_step; [by eapply wf_job_known, Hj; apply Hwf|by rewrite Hq|apply jobRank_le|done].
Qed.

Lemma claim_loop_tracks t0 picks m p :
  store_wf m → attempts_ok m → pg_wf p → tracks t0 m p → in_lease t0 p → NoDup picks.*1 →
  (∀ q, q ∈ picks → candidate m q) →
  claims_agree t0 (claim_loop picks m) (pg_claim_loop (map fst picks) p).
Proof.
  revert m p. induction picks as [|q picks IH]; intros m p Hwf Hat Hpw Ht Hnow Hnd Hcand; [by split|].
  apply NoDup_cons in Hnd as [Hq Hnd]. destruct (Hcand q) as (j & Hj & Htime & Hst); [by left|].
  destruct (follows_job m p (fst q) (tr_follows _ _ _ Ht)) as [(? & row & ? & Hr & Ea)|[? _]]; [|congruence]. simplify_eq.
  destruct (alike_eqs _ _ Ea) as (_ & _ & _ & _ & Es & _). destruct (alike_deps _ _ Ea) as [_ Econd].
  assert (claims_agree t0 (takeClaim (fst q) m) ((let* r := take_claim (fst q) in
    match r with Some job => mret (Some job) | None => pg_claim_loop (map fst picks) end) p)) as Htake.
  { unfold takeClaim, mbind, take_claim. rewrite Hr, bool_decide_eq_true_2 by congruence.
    rewrite (getJob_Some _ _ _ Hj). split; [by apply take_tracks|exact Ea]. }
  cbn [claim_loop map pg_claim_loop]. cbv zeta. rewrite (depState_agrees m p (fst q) j Hwf Hpw Hat (tr_follows _ _ _ Ht) Hj).
  destruct (pg_depState (fst q) p) eqn:Hd; [exact Htake|..].
  { apply IH; try done. intros; apply Hcand; by right. }
  unfold has_condition. rewrite Hr, (getJob_Some _ _ _ Hj), Econd. case_bool_decide as Hc; [exact Htake|].
  destruct (skip_tracks t0 m p (fst q) j row (pg_now p) Hwf Hpw Ht Hj Hr Hst) as [Ht' Hok].
  set (p1 := update_job _ _ p) in *. unfold mbind. destruct (refreshRun (fst q) (pg_now p) p1) as [p2 r2] eqn:E2.
  simpl in Ht', Hok. subst r2.
  assert (p2 = fst (refreshRun (fst q) (pg_now p) p1)) as Ep2 by (by rewrite E2).
  assert (dependencyStateLocked m (fst q) = depsFailed) as Hdep.
  { by rewrite (depState_agrees m p (fst q) j Hwf Hpw Hat (tr_follows _ _ _ Ht) Hj). }
  assert (JCondition j = "") as Hcond by (by destruct (decide (JCondition j = ""))).
  pose proof (skipJob_skips m (fst q) j Hj Hst Hcond Hdep) as Hsk.
  destruct (skipJob_wf_le m (fst q) Hwf ltac:(by eexists)) as [Hwf' _].
  apply IH; try done.
  - eapply static_attempts; [by eapply skipJob_static| |exact Hat]. intros i. rewrite (sk_claimed _ _ Hsk). apply (at_claimed _ Hat).
  - rewrite Ep2. apply refreshRun_next. eapply update_job_next; [|exact Hpw]. intros row0 _ _. apply skip_row_le.
  - unfold in_lease. rewrite Ep2, refreshRun_now. exact Hnow.
  - intros q' Hin. eapply skip_candidates; eauto; [|apply Hcand; by right].
    intros E. apply Hq. rewrite <-E. by apply list_elem_of_fmap_2.
Qed.

Lemma Claim_tracked t0 m p :
  store_wf m → attempts_ok m → pg_wf p → tracks t0 m p → in_lease t0 p →
  mem_answer OpClaimNextQueuedJob m = pg_answer OpClaimNextQueuedJob p ∧
  tracks t0 (exec OpClaimNextQueuedJob m) (pg_exec OpClaimNextQueuedJob p).
Proof.
  intros Hwf Hat Hpw Ht Hnow. unfold mem_answer, pg_answer, exec, pg_exec, mem_ClaimNextQueuedJob, pg_ClaimNextQueuedJob.
  assert (claims_agree t0 (claim_loop (candidates m) m) (pg_claim_loop (claim_ids p) p)) as [Ht' Hres].
  { rewrite (candidates_agree t0 m p Hpw Ht Hnow). apply claim_loop_tracks; try done; [apply candidates_NoDup|].
    intros q (j & ? & ? & ? & _)%candidates_elem. by exists j. }
  unfold mbind, in_tx, answered. destruct (claim_loop (candidates m) m) as [m' [j|e|]], (pg_claim_loop (claim_ids p) p) as [p' [[k|]|e'|]];
    simpl in *; try done.
  - by rewrite Hres.
  - by subst.
Qed.
End claims.

(** ** The other operations *)

Section others.
Context `{MemoryEnv} `{!MemoryEnvOk}.

Lemma cancelled_not_queued now j : JStatus (cancelled_record now j) ≠ JobQueued.
Proof.
  unfold cancelled_record, TransitionJob, CanTransitionJob. destruct (job_terminal (JStatus j)) eqn:Ht; simpl; [|done].
  intros E. by rewrite E in Ht.
Qed.

(** Only a release takes the claim of a job that stays queued. *)
Lemma mem_claims_kept o m id j' :
  store_wf m → ¬ creates o → o ≠ OpClaimNextQueuedJob →
  jobs (exec o m) !! id = Some j' → JStatus j' = JobQueued →
  id ∈ claimed (exec o m) ↔ id ∈ claimed m ∧ o ≠ OpReleaseClaim id.
Proof.
  intros Hwf Hc Hn. destruct o as [d|?|  |i|i obj now|i phase now|r now|?|i now]; simpl; try (by destruct Hc); try done.
  - intros _ _. unfold mem_RecordDelivery. destruct (deliveries m !! DKey d); naive_solver.
  - intros _ _. rewrite elem_of_difference, elem_of_singleton. naive_solver.
  - unfold mem_AckDispatched. destruct (jobs m !! i) as [j|]; [|naive_solver].
    assert (∀ st, st ≠ JobQueued → jobs (putJob i (set_active (ObjName obj) (ObjUID obj) now (set_status st j)) m) !! id = Some j' →
      JStatus j' = JobQueued → id ∈ claimed m ∖ {[i]} ↔ id ∈ claimed m ∧ OpAckDispatched i obj now ≠ OpReleaseClaim id) as Hput.
    { intros st Hst. simpl. rewrite elem_of_difference, elem_of_singleton, lookup_insert. case_decide; [|naive_solver].
      by intros [= <-]. }
    assert (jobs m !! id = Some j' → JStatus j' = JobQueued →
      id ∈ claimed m ↔ id ∈ claimed m ∧ OpAckDispatched i obj now ≠ OpReleaseClaim id) as Hsame by naive_solver.
    destruct (JStatus j); first [exact Hsame|by apply Hput|destruct (_ && _); [exact Hsame|by apply Hput]].
  - intros _ _. unfold mem_ApplyObserved. repeat case_match; simpl;
      rewrite ?(proj2 (refresh_skips _ _ _)); naive_solver.
  - unfold mem_CancelRun. destruct (runs m !! r) as [run|]; [|naive_solver].
    destruct (run_terminal _); [case_bool_decide; naive_solver|]. simpl. rewrite cancel_fold_claimed.
    rewrite cancel_fold_lookup. 2: { intros i Hi. destruct (run_job_lookup _ _ _ (wf_base _ Hwf) Hi) as (j & Hj & _); eauto. }
    case_decide as Hin; [|set_solver]. intros (j & _ & ->)%fmap_Some Hq. exfalso. by eapply cancelled_not_queued.
  - intros _ _. unfold mem_MarkCollected. repeat case_match; naive_solver.
Qed.

Ltac same_row :=
  match goal with H : pg_jobs _ !! _ = Some ?row |- ∃ _, _ => exists row; split; [exact H|left; split; [done|congruence]] end.

(** A claim stays as it is, or goes: by a release, or with the status. *)
Lemma pg_claims_kept o p id row' :
  ¬ creates o → o ≠ OpClaimNextQueuedJob → pg_jobs (pg_exec o p) !! id = Some row' →
  ∃ row, pg_jobs p !! id = Some row ∧
    ((jrow_claimed row' = jrow_claimed row ∧ o ≠ OpReleaseClaim id) ∨
     (jrow_claimed row' = None ∧ (o = OpReleaseClaim id ∨ JStatus (jrow row') ≠ JobQueued))).
Proof.
  intros Hc Hn.
  assert (∀ f i, pg_jobs (update_job i f p) !! id = Some row' →
    (∀ row, jrow_claimed (f row) = jrow_claimed row) → (∀ i, o ≠ OpReleaseClaim i) →
    ∃ row, pg_jobs p !! id = Some row ∧ jrow_claimed row' = jrow_claimed row ∧ o ≠ OpReleaseClaim id) as Hup.
  { intros f i. rewrite update_job_lookup. case_decide; [|eauto]. intros (row & Hr & ->)%fmap_Some Hf ?. exists row. auto. }
  destruct o as [d|?|  |i|i obj now|i phase now|r now|?|i now]; simpl; try (by destruct Hc); try done.
  - unfold pg_RecordDelivery, mbind, delivery. repeat case_match; simplify_eq; simpl; intros; same_row.
  - change (pg_jobs (update_job i (set_claim None) p) !! id = Some row' → ∃ row, pg_jobs p !! id = Some row ∧
      ((jrow_claimed row' = jrow_claimed row ∧ OpReleaseClaim i ≠ OpReleaseClaim id) ∨
       (jrow_claimed row' = None ∧ (OpReleaseClaim i = OpReleaseClaim id ∨ JStatus (jrow row') ≠ JobQueued)))).
    rewrite update_job_lookup. case_decide; [subst|intros; same_row].
    intros (row & Hr & ->)%fmap_Some. exists row. split; [done|]. right. auto.
  - unfold pg_AckDispatched, in_tx. rewrite jobIn_bind. destruct (pg_jobs p !! i) as [row0|] eqn:Hi; [|intros; same_row].
    assert (pg_jobs (update_job i (dispatched_row obj now) p) !! id = Some row' →
      ∃ row, pg_jobs p !! id = Some row ∧
       ((jrow_claimed row' = jrow_claimed row ∧ OpAckDispatched i obj now ≠ OpReleaseClaim id) ∨
        (jrow_claimed row' = None ∧ (OpAckDispatched i obj now = OpReleaseClaim id ∨ JStatus (jrow row') ≠ JobQueued)))) as Hput.
    { rewrite update_job_lookup. case_decide; [|intros; same_row]. intros (row & Hr & ->)%fmap_Some. exists row. split; [done|]. right. auto. }
    destruct (JStatus (jrow row0)); first [exact Hput|simpl; intros; same_row|
      destruct (_ && _); [simpl; intros; same_row|exact Hput]].
  - unfold pg_ApplyObserved, in_tx. rewrite jobIn_bind. destruct (pg_jobs p !! i) as [row0|] eqn:Hi; [|intros; same_row].
    destruct (refreshRun i now _) as [p' res] eqn:E.
    assert (pg_jobs p' = pg_jobs (observe_job i (jrow row0) phase now p)) as Ep.
    { pose proof (refreshRun_jobs i now (observe_job i (jrow row0) phase now p)) as Ej. by rewrite E in Ej. }
    assert (pg_jobs p' !! id = Some row' → ∃ row, pg_jobs p !! id = Some row ∧
      ((jrow_claimed row' = jrow_claimed row ∧ OpApplyObserved i phase now ≠ OpReleaseClaim id) ∨
       (jrow_claimed row' = None ∧ (OpApplyObserved i phase now = OpReleaseClaim id ∨ JStatus (jrow row') ≠ JobQueued)))) as Hobs.
    { rewrite Ep. unfold observe_job. repeat case_match; try (intros; same_row).
      intros Hr. destruct (Hup _ _ Hr) as (row & ? & ? & ?); [done|done|]. exists row. auto. }
    destruct res as [[]|e|]; [exact Hobs|simpl; intros; same_row..].
  - unfold pg_CancelRun, in_tx, mbind, runIn. destruct (pg_runs p !! r) as [run|]; [|simpl; intros; same_row].
    destruct (run_terminal _). { case_bool_decide; simpl; intros; same_row. }
    simpl. rewrite lookup_fmap. intros (row & Hr & ->)%fmap_Some. exists row. split; [done|].
    case_bool_decide; [|by left]. unfold cancel_row. destruct (TransitionJob _ _) as [next [e|]] eqn:E; [by left|].
    right. simpl. split; [done|]. right. unfold TransitionJob in E. destruct (CanTransitionJob _ _); by simplify_eq.
  - intros Hr. destruct (Hup _ _ Hr) as (row & ? & ? & ?); [done|done|]. exists row. auto.
Qed.
End others.

(** ** New jobs *)

Section creation.
Context `{MemoryEnv} `{!MemoryEnvOk}.

Definition op_time (o : op) : Time :=
  match o with OpCreateRun _ now | OpRerequestJob _ now => now | _ => 0%Z end.

Lemma createJobs_new intents r now ki ids m i j' :
  jobs (fst (createJobs intents r now ki ids m)) !! i = Some j' →
  jobs m !! i = Some j' ∨ (JCreatedAt j' = now ∧ ∃ n, minted m ≤ n ∧ i = newid n).
Proof.
  revert ki ids m. induction intents as [|intent intents IH]; intros ki ids m; simpl; [by left|].
  destruct (ki !! IJobKey intent); [by left|].
  intros [Hj|(Ht & n & Hn & ->)]%IH; [|right; split; [done|]; exists n; simpl in Hn; split; [lia|done]].
  simpl in Hj. rewrite lookup_insert in Hj. case_decide as E; [right|by left].
  injection Hj as <-. split; [done|]. exists (minted m). by rewrite E.
Qed.

Lemma createJobs_claimed intents r now ki ids m : claimed (fst (createJobs intents r now ki ids m)) = claimed m.
Proof.
  revert ki ids m. induction intents as [|intent intents IH]; intros ki ids m; simpl; [done|].
  destruct (ki !! IJobKey intent); [done|]. by rewrite IH.
Qed.

Lemma mem_created o m :
  store_wf m → creates o →
  claimed (exec o m) = claimed m ∧
  ∀ i j', jobs (exec o m) !! i = Some j' → jobs m !! i = Some j' ∨ (jobs m !! i = None ∧ JCreatedAt j' = op_time o).
Proof.
  intros Hwf. pose proof (wf_base _ Hwf) as Hb.
  destruct o as [d|seed now|  |i|i obj now|i phase now|r now|i now|i now]; try done; intros _; simpl.
  - unfold mem_CreateRun. destruct (deliveries m !! _) as [rec|]; [|by split; [|left]].
    case_bool_decide. { unfold getRunLocked. destruct (runs m !! _); by split; [|left]. }
    case_bool_decide; [by split; [|left]|].
    destruct (createJobs _ _ _ _ _ _) as [m' res] eqn:E.
    assert (claimed m' = claimed m ∧ ∀ i j', jobs m' !! i = Some j' → jobs m !! i = Some j' ∨ (jobs m !! i = None ∧ JCreatedAt j' = now))
      as [Hc Hj].
    { pose proof (createJobs_claimed (SJobs seed) (newid (minted m)) now ∅ [] (with_minted (S (minted m)) m)) as Hc.
      rewrite E in Hc. split; [exact Hc|]. intros i j' Hj.
      pose proof (createJobs_new (SJobs seed) (newid (minted m)) now ∅ [] (with_minted (S (minted m)) m) i j') as Hn.
      rewrite E in Hn. destruct (Hn Hj) as [?|(? & n & Hle & ->)]; [by left|right]. split; [|done].
      destruct (jobs m !! newid n) eqn:En; [|done]. destruct (wf_job_minted _ Hb _ _ En) as [(n' & ? & E') _].
      apply newid_inj in E'. simpl in Hle. lia. }
    destruct res as [[ki ids]|e|]; [|by split..]. simpl. unfold commitRun, bindRun. case_match; by split.
  - unfold mem_RerequestJob. destruct (jobs m !! i) as [j|] eqn:Hi; [|by split; [|left]].
    destruct (List.find _ _); [by split; [|left]|]. cbv zeta. simpl.
    assert (∀ i' j', <[newid (minted m) := retryJob (newid (minted m)) j now]> (jobs m) !! i' = Some j' →
      jobs m !! i' = Some j' ∨ (jobs m !! i' = None ∧ JCreatedAt j' = now)) as Hj.
    { intros i' j'. rewrite lookup_insert. case_decide as E; [|by left]. intros [= <-]. right. subst i'.
      split; [by apply fresh_job|done]. }
    destruct (byJobKey m !! JRunID j); simpl; [|by split]. unfold reopenRun. repeat case_match; by split.
Qed.

(** The rows after an insertion: as before, or new. *)
Definition grown (t : Time) (p p' : pg) : Prop :=
  ∀ i, pg_jobs p' !! i = pg_jobs p !! i ∨
    (pg_jobs p !! i = None ∧ ∃ row', pg_jobs p' !! i = Some row' ∧ JCreatedAt (jrow row') = t ∧ jrow_claimed row' = None).

Definition grows {Y} (t : Time) (f : M pg Y) : Prop := ∀ p, grown t p (fst (f p)).

Lemma grown_same t p p' : pg_jobs p' = pg_jobs p → grown t p p'.
Proof. intros E i. left. by rewrite E. Qed.

Lemma grown_trans t p1 p2 p3 : grown t p1 p2 → grown t p2 p3 → grown t p1 p3.
Proof.
  intros H12 H23 i. destruct (H23 i) as [->|(Hn & row' & Hr & ?)]; [apply H12|].
  right. split; [|by exists row']. destruct (H12 i) as [E|(? & row & E & _)]; [by rewrite <-E|congruence].
Qed.

Lemma grows_bind {X Y} t (f : M pg X) (k : X → M pg Y) : grows t f → (∀ x, grows t (k x)) → grows t (mbind f k).
Proof.
  intros Hf Hk p. unfold mbind. pose proof (Hf p) as H1. destruct (f p) as [p' [x|e|]]; simpl in *; [|done..].
  eapply grown_trans; [exact H1|apply Hk].
Qed.

Lemma grows_keep {Y} t (f : M pg Y) : (∀ p, pg_jobs (fst (f p)) = pg_jobs p) → grows t f.
Proof. intros E p. by apply grown_same. Qed.

Lemma grows_in_tx {Y} t (f : M pg Y) : grows t f → grows t (in_tx f).
Proof.
  intros Hf p. pose proof (Hf p) as H1. unfold in_tx. destruct (f p) as [p' [y|e|]]; simpl in *; [done|by apply grown_same..].
Qed.

Lemma grows_insert j : grows (JCreatedAt j) (insert_job j).
Proof.
  intros p i. unfold insert_job. case_bool_decide as Hex; [by left|]. case_bool_decide; simpl; [|by left].
  rewrite lookup_insert. case_decide as E; [subst i; right|by left]. split; [|by eexists].
  destruct (pg_jobs p !! JID j) eqn:En; [|done]. destruct Hex. by eexists.
Qed.

Lemma grows_insert_jobs intents r now : grows (stamp now) (insert_jobs intents r now).
Proof.
  induction intents as [|intent intents IH]; simpl; [by apply grows_keep|].
  apply grows_bind; [by apply grows_keep|]. intros id. apply grows_bind; [apply (grows_insert (pg_new_job id r intent now))|done].
Qed.

Lemma runIn_jobs r p : pg_jobs (fst (runIn r p)) = pg_jobs p.
Proof. unfold runIn. by case_match. Qed.

Lemma insert_run_jobs r p : pg_jobs (fst (insert_run r p)) = pg_jobs p.
Proof. unfold insert_run. by case_match. Qed.

Lemma pg_created o p : creates o → grown (stamp (op_time o)) p (pg_exec o p).
Proof.
  destruct o as [d|seed now|  |i|i obj now|i phase now|r now|i now|i now]; try done; intros _; simpl.
  - apply grows_in_tx. clear p. intros p. destruct (pg_deliveries p !! _) as [row|]; [|by apply grown_same]. cbv zeta.
    case_bool_decide.
    { apply (grows_bind _ (runIn _)); [apply grows_keep, runIn_jobs|intros run; by apply grows_keep]. }
    case_bool_decide; [by apply grown_same|].
    apply (grows_bind _ mint); [by apply grows_keep|]. intros r. apply grows_bind; [apply grows_keep, insert_run_jobs|].
    intros _. apply grows_bind; [apply grows_insert_jobs|]. intros _. by apply grows_keep.
  - apply grows_in_tx. apply grows_bind; [apply grows_keep; intros q; unfold jobIn; by case_match|]. clear p.
    intros orig p. destruct (select_jobs _ p); [|by apply grown_same].
    apply (grows_bind _ mint); [by apply grows_keep|]. intros n.
    apply grows_bind; [apply (grows_insert (retryJob n orig (stamp now)))|]. intros _. apply grows_keep.
    intros q. simpl. unfold pg_reopen. by repeat case_match.
Qed.
End creation.

(** ** Histories *)

Section histories.
Context `{MemoryEnv} `{!MemoryEnvOk}.

(** What the operations of a history are asked: new delivery ids, seeds whose
    jobs can find their dependencies, times of creation in whole microseconds, and
    no collection of jobs that do not exist. *)
Definition trackable (o : op) (m : store) : Prop :=
  match o with
  | OpCreateRun seed now => fresh_seed seed m ∧ seed_ok seed ∧ stamp now = now
  | OpRerequestJob _ now => stamp now = now
  | OpMarkCollected id _ => is_Some (jobs m !! id)
  | _ => True
  end.

Fixpoint all_trackable (os : list op) (m : store) : Prop :=
  match os with
  | [] => True
  | o :: os' => trackable o m ∧ all_trackable os' (exec o m)
  end.

(** Operations with the reading of the database's clock. *)
Fixpoint pg_history (h : list (Time * op)) (p : pg) : list (outcome error answer) * pg :=
  match h with
  | [] => ([], p)
  | (t, o) :: h' =>
      let '(answers, p') := pg_history h' (pg_exec o (with_pg_now t p)) in
      (pg_answer o (with_pg_now t p) :: answers, p')
  end.

Lemma one_attempt_follows m id : attempts_ok m → one_next_attempt id m.
Proof.
  intros Hat j i1 i2 j1 j2 Hj H1 H2 Hr1 Hr2 [Hk1 Ha1] [Hk2 Ha2]. eapply (at_unique _ Hat); try done; [|congruence]. split; congruence.
Qed.

Lemma other_op_tracked t0 o m p :
  store_wf m → attempts_ok m → pg_wf p → tracks t0 m p → trackable o m → o ≠ OpClaimNextQueuedJob →
  mem_answer o m = pg_answer o p ∧ follows (exec o m) (pg_exec o p).
Proof.
  intros Hwf Hat Hpw Ht Hok Hn. apply op_mirrored; [done..|by apply Ht|].
  destruct o; simpl in *; try done; [by apply Hok|by apply one_attempt_follows].
Qed.

Lemma kept_tracks t0 o m p :
  store_wf m → pg_wf p → tracks t0 m p → ¬ creates o → o ≠ OpClaimNextQueuedJob →
  follows (exec o m) (pg_exec o p) → tracks t0 (exec o m) (pg_exec o p).
Proof.
  intros Hwf Hpw Ht Hc Hn Hf'. destruct (exec_static o m Hwf Hc) as [Hst _].
  destruct (pg_exec_next o p Hpw) as [_ Hle]. split; [exact Hf'|..].
  - intros i j' row' Hj' Hr'. destruct (static_back _ _ _ _ Hst Hj') as (j & Hj & Hl).
    destruct (follows_job m p i (tr_follows _ _ _ Ht)) as [(? & row & ? & Hr & _)|[? _]]; [|congruence]. simplify_eq.
    destruct (Hle _ _ Hr) as (row2 & ? & Hlr). simplify_eq. rewrite (le_created _ _ Hl), (le_created _ _ Hlr). by eapply tr_created.
  - intros i j' row' Hj' Hr' Hq. destruct (static_back _ _ _ _ Hst Hj') as (j & Hj & Hl).
    assert (JStatus j = JobQueued) as Hqj.
    { pose proof (le_rank _ _ Hl) as Hrank. rewrite Hq in Hrank. by destruct (JStatus j); simpl in Hrank; try lia. }
    rewrite (mem_claims_kept o m i j' Hwf Hc Hn Hj' Hq).
    destruct (pg_claims_kept o p i row' Hc Hn Hr') as (row & Hr & Hcase). rewrite (tr_claim _ _ _ Ht _ _ _ Hj Hr Hqj).
    destruct (follows_job _ _ i Hf') as [(? & ? & ? & ? & Ea)|[? _]]; [|congruence]. simplify_eq.
    destruct (alike_eqs _ _ Ea) as (_ & _ & _ & _ & Es & _).
    destruct Hcase as [[-> ?]|[-> [->|?]]]; [tauto|split; [by intros [_ []]|by intros []]|congruence].
  - intros i row' t Hr'. destruct (pg_claims_kept o p i row' Hc Hn Hr') as (row & Hr & [[-> _]|[-> _]]); [by eapply tr_lease|done].
Qed.

Lemma created_tracks t0 o m p :
  store_wf m → attempts_ok m → tracks t0 m p → creates o → stamp (op_time o) = op_time o →
  follows (exec o m) (pg_exec o p) → tracks t0 (exec o m) (pg_exec o p).
Proof.
  intros Hwf Hat Ht Hc Hs Hf'. destruct (mem_created o m Hwf Hc) as [Hcl Hj]. pose proof (pg_created o p Hc) as Hg. rewrite Hs in Hg.
  assert (∀ i j' row', jobs (exec o m) !! i = Some j' → pg_jobs (pg_exec o p) !! i = Some row' →
    (jobs m !! i = Some j' ∧ pg_jobs p !! i = Some row') ∨
    (jobs m !! i = None ∧ JCreatedAt j' = op_time o ∧ JCreatedAt (jrow row') = op_time o ∧ jrow_claimed row' = None)) as Hcases.
  { intros i j' row' Hj' Hr'. pose proof (follows_job m p i (tr_follows _ _ _ Ht)) as Hsame.
    destruct (Hj _ _ Hj') as [Hi|[Hi Ht']], (Hg i) as [E|(Hr & row2 & E & ? & ?)].
    - left. split; [done|by rewrite <-E].
    - exfalso. destruct Hsame as [(? & ? & ? & ? & _)|[? _]]; congruence.
    - exfalso. destruct Hsame as [(? & ? & ? & ? & _)|[_ ?]]; congruence.
    - right. rewrite Hr' in E. injection E as <-. auto. }
  split; [exact Hf'|..].
  - intros i j' row' Hj' Hr'. destruct (Hcases _ _ _ Hj' Hr') as [[? ?]|(_ & -> & -> & _)]; [by eapply tr_created|done].
  - intros i j' row' Hj' Hr' Hq. rewrite Hcl. destruct (Hcases _ _ _ Hj' Hr') as [[? ?]|(Hn & _ & _ & ->)]; [by eapply tr_claim|].
    split; [|by intros []]. intros Hin. destruct (at_claimed _ Hat _ Hin). congruence.
  - intros i row' t Hr'. destruct (Hg i) as [E|(_ & row2 & E & _ & Hn)]; rewrite Hr' in E; [symmetry in E; by eapply tr_lease|].
    injection E as <-. by rewrite Hn.
Qed.

Lemma op_tracked t0 o m p :
  store_wf m → attempts_ok m → pg_wf p → tracks t0 m p → in_lease t0 p → trackable o m →
  mem_answer o m = pg_answer o p ∧ tracks t0 (exec o m) (pg_exec o p).
Proof.
  intros Hwf Hat Hpw Ht Hnow Hok.
  assert (o = OpClaimNextQueuedJob ∨ o ≠ OpClaimNextQueuedJob) as [->|Hn] by (destruct o; auto; right; discriminate).
  { by apply Claim_tracked. }
  destruct (other_op_tracked t0 o m p Hwf Hat Hpw Ht Hok Hn) as [Hans Hf']. split; [exact Hans|].
  assert (creates o ∨ ¬ creates o) as [Hc|Hc] by (destruct o; simpl; auto).
  - apply created_tracks; try done. destruct o; try done. by apply Hok.
  - by apply kept_tracks.
Qed.

Lemma tracks_clock t0 m p t : tracks t0 m p → tracks t0 m (with_pg_now t p).
Proof. intros [[] ? ? ?]. by split. Qed.

Lemma clock_wf p t : pg_wf p → pg_wf (with_pg_now t p).
Proof. intros []. by split. Qed.

Lemma history_tracked t0 h m p :
  store_wf m → attempts_ok m → pg_wf p → tracks t0 m p →
  Forall (fun q => t0 ≤ fst q ≤ t0 + claimLease)%Z h → all_trackable (map snd h) m →
  fst (pg_history h p) = mem_answers (map snd h) m ∧ tracks t0 (mem_exec_all (map snd h) m) (snd (pg_history h p)).
Proof.
  revert m p. induction h as [|[t o] h IH]; intros m p Hwf Hat Hpw Ht Hnow Hall; simpl; [done|].
  apply Forall_cons in Hnow as [Hnow Hrest]. destruct Hall as [Hok Hall].
  destruct (op_tracked t0 o m (with_pg_now t p) Hwf Hat (clock_wf _ _ Hpw) (tracks_clock _ _ _ _ Ht) Hnow Hok) as [Hans Ht'].
  destruct (IH (exec o m) (pg_exec o (with_pg_now t p))) as [IHa IHt]; try done.
  - by apply exec_wf_le.
  - apply exec_attempts; [done| |done]. destruct o; simpl in *; try done. by apply Hok.
  - by apply pg_exec_next, clock_wf.
  - destruct (pg_history h _) as [answers p']. simpl in *. by rewrite IHa, Hans.
Qed.

End histories.

(** ** Reading the stores *)

(** A record without the times at which it changed status. *)
Definition job_view (j : JobRunRecord) : JobRunRecord * Time := (timeless j, JCreatedAt j).

(** The lists of two answers, up to their order. *)
Definition same_records (x y : outcome error (list JobRunRecord)) : Prop :=
  match x, y with
  | Ok l, Ok l' => map job_view l ≡ₚ map job_view l'
  | Err e, Err e' => e = e'
  | _, _ => False
  end.

(** What every read of the two stores returns.  The list of queued jobs comes in
    one order; the other two lists are ordered by creation in one store and by
    time and identifier in the other. *)
Record reads_agree (m : store) (p : pg) : Prop := {
  re_job : ∀ id, answered job_view (mem_GetJobRun id m) = answered job_view (jobIn id p);
  re_run : ∀ r, answered run_view (mem_GetRun r m) = answered run_view (runIn r p);
  re_count : snd (mem_CountQueuedJobs m) = snd (pg_CountQueuedJobs p);
  re_queued : answered (map job_view) (mem_ListQueuedJobs m) = answered (map job_view) (pg_ListQueuedJobs p);
  re_jobs : ∀ r, same_records (snd (mem_ListJobRuns r m)) (snd (pg_ListJobRuns r p));
  re_gc : same_records (snd (mem_ListGCReadyJobs m)) (snd (pg_ListGCReadyJobs p))
}.

Lemma filter_bool {A} (P : A → Prop) `{∀ x, Decision (P x)} (l : list A) :
  filter P l = List.filter (fun x => bool_decide (P x)) l.
Proof.
  induction l as [|x l IH]; [done|]. rewrite filter_cons. simpl. rewrite IH. by repeat case_decide; case_bool_decide.
Qed.

(** Sorting by what a function keeps, before or after it. *)
Lemma sort_by_map {A B} (f : A → B) (less : B → B → bool) l :
  map f (sort_by (fun a b => less (f a) (f b)) l) = sort_by less (map f l).
Proof.
  assert (∀ x l, map f (insert_by (fun a b => less (f a) (f b)) x l) = insert_by less (f x) (map f l)) as Hins.
  { intros x l'. induction l' as [|y l' IH]; simpl; [done|]. case_match; simpl; [by rewrite IH|done]. }
  induction l as [|x l IH]; simpl; [done|]. by rewrite Hins, IH.
Qed.

Section reads.
Context `{MemoryEnv} `{!MemoryEnvOk}.

Lemma tracked_views t0 m p :
  tracks t0 m p → job_view <$> jobs m = (fun row => job_view (jrow row)) <$> pg_jobs p.
Proof.
  intros Ht. apply map_eq. intros i. rewrite !lookup_fmap.
  destruct (follows_job m p i (tr_follows _ _ _ Ht)) as [(j & row & Hj & Hr & Ea)|[Hj Hr]]; rewrite Hj, Hr; [|done].
  simpl. unfold job_view. by rewrite Ea, (tr_created _ _ _ Ht _ _ _ Hj Hr).
Qed.

(** Selecting records by what both stores agree on. *)
Lemma selections_agree t0 m p (g : JobRunRecord * Time → bool) :
  tracks t0 m p →
  map job_view (List.filter (fun j => g (job_view j)) (all_jobs m)) ≡ₚ
  map job_view (select_jobs (fun j => g (job_view j)) p).
Proof.
  intros Ht. unfold select_jobs, all_jobs. rewrite <-!(PostgresClaims.filter_map job_view g). apply filter_perm.
  change @map with @list_fmap. rewrite <-!list_fmap_compose.
  pose proof (f_equal (fun x => (map_to_list x).*2) (tracked_views t0 m p Ht)) as E. simpl in E.
  rewrite !map_to_list_fmap, <-!list_fmap_compose in E. exact (reflexive_eq _ _ E).
Qed.

Lemma mem_jobs_elem m j : j ∈ all_jobs m ↔ ∃ id, jobs m !! id = Some j.
Proof.
  unfold all_jobs. rewrite list_elem_of_fmap. split.
  - intros ([id j'] & -> & Hin%elem_of_map_to_list). by exists id.
  - intros (id & Hj). exists (id, j). by rewrite elem_of_map_to_list.
Qed.

Lemma all_jobs_NoDup m : store_wf m → NoDup (all_jobs m).
Proof.
  intros Hwf. pose proof (wf_job_id _ (wf_base _ Hwf)) as Hid. unfold all_jobs.
  apply NoDup_fmap_2_strong; [|apply NoDup_map_to_list].
  intros [i x] [i' x'] Hx%elem_of_map_to_list Hx'%elem_of_map_to_list E. simpl in E. subst x'.
  by rewrite <-(Hid _ _ Hx), <-(Hid _ _ Hx').
Qed.

(** The records a run's list names are those of the run. *)
Lemma run_list_elem m r j :
  store_wf m → is_Some (runs m !! r) →
  j ∈ map (getJob m) (getRunJobs m r) ↔ j ∈ all_jobs m ∧ JRunID j = r.
Proof.
  intros Hwf Hrun. pose proof (wf_owned m r (wf_base _ Hwf) Hrun) as Ho.
  change @map with @list_fmap. rewrite list_elem_of_fmap, mem_jobs_elem. split.
  - intros (id & -> & (j' & Hj & Er)%Ho). rewrite (getJob_Some _ _ _ Hj). eauto.
  - intros [(id & Hj) Er]. exists id. rewrite (getJob_Some _ _ _ Hj). split; [done|]. apply Ho. eauto.
Qed.

Lemma run_list_NoDup m r :
  store_wf m → listed_once m → is_Some (runs m !! r) → NoDup (map (getJob m) (getRunJobs m r)).
Proof.
  intros Hwf Honce Hrun. pose proof (wf_owned m r (wf_base _ Hwf) Hrun) as Ho.
  apply NoDup_fmap_2_strong; [|apply Honce]. intros i1 i2 (j1 & H1 & _)%Ho (j2 & H2 & _)%Ho E.
  rewrite (getJob_Some _ _ _ H1), (getJob_Some _ _ _ H2) in E. subst j2.
  by rewrite <-(wf_job_id _ (wf_base _ Hwf) _ _ H1), <-(wf_job_id _ (wf_base _ Hwf) _ _ H2).
Qed.

Lemma ListJobRuns_agree t0 m p r :
  store_wf m → listed_once m → tracks t0 m p →
  same_records (snd (mem_ListJobRuns r m)) (snd (pg_ListJobRuns r p)).
Proof.
  intros Hwf Honce Ht. unfold mem_ListJobRuns, pg_ListJobRuns, mbind, runIn.
  destruct (follows_run m p r (tr_follows _ _ _ Ht)) as [(run & run' & Hm & Hp & _)|[Hm Hp]]; rewrite Hm, Hp; [|done].
  simpl. transitivity (map job_view (List.filter (fun j => bool_decide (JRunID (fst (job_view j)) = r)) (all_jobs m))).
  - apply Permutation_map, NoDup_Permutation; [by apply run_list_NoDup| |].
    + by apply NoDup_ListNoDup, List.NoDup_filter, NoDup_ListNoDup, all_jobs_NoDup.
    + intros j. rewrite run_list_elem by done. rewrite (list_elem_of_In (List.filter _ _)), filter_In, <-list_elem_of_In.
      simpl. by rewrite bool_decide_eq_true.
  - etrans; [exact (selections_agree t0 m p (fun v => bool_decide (JRunID (fst v) = r)) Ht)|].
    apply Permutation_map. unfold order_jobs. rewrite sort_by_perm. done.
Qed.

(** *** Jobs whose objects may go *)

Lemma flat_map_NoDup {A B} (f : A → list B) (owner : B → A) l :
  NoDup l → (∀ a, a ∈ l → NoDup (f a)) → (∀ a b, b ∈ f a → owner b = a) → NoDup (flat_map f l).
Proof.
  intros Hnd Hf Ho. induction Hnd as [|a l Ha _ IH]; simpl; [constructor|]. apply NoDup_app. split_and!.
  - apply Hf. by left.
  - intros b Hb (a' & Ha' & Hb')%list_elem_of_In%in_flat_map. apply list_elem_of_In in Ha', Hb'.
    apply Ha. by rewrite <-(Ho _ _ Hb), (Ho _ _ Hb').
  - apply IH. intros a' Ha'. apply Hf. by right.
Qed.

Definition run_settled (m : store) (r : RunID) : bool :=
  match runs m !! r with Some run => run_terminal (RStatus run) | None => false end.

Lemma gc_ready_elem m r j :
  store_wf m →
  j ∈ gc_ready_of m r ↔ j ∈ all_jobs m ∧ JRunID j = r ∧ gc_ready j = true ∧ run_settled m r = true.
Proof.
  intros Hwf. unfold gc_ready_of, run_settled. destruct (runs m !! r) as [run|] eqn:Hrun.
  2: { split; [by intros ?%not_elem_of_nil|naive_solver]. }
  destruct (run_terminal _); [|split; [by intros ?%not_elem_of_nil|naive_solver]].
  rewrite list_elem_of_In, filter_In, <-list_elem_of_In, run_list_elem by eauto. naive_solver.
Qed.

Lemma gc_list m :
  store_wf m → listed_once m →
  flat_map (gc_ready_of m) (sortedRunIDsLocked m) ≡ₚ
  List.filter (fun j => gc_ready j && run_settled m (JRunID j)) (all_jobs m).
Proof.
  intros Hwf Honce. apply NoDup_Permutation.
  - apply (flat_map_NoDup _ JRunID).
    + unfold sortedRunIDsLocked, sort_strings. rewrite sort_by_perm. apply NoDup_fst_map_to_list.
    + intros r _. unfold gc_ready_of. destruct (runs m !! r) eqn:Hr; [|constructor]. case_match; [|constructor].
      apply NoDup_ListNoDup, List.NoDup_filter, NoDup_ListNoDup, run_list_NoDup; eauto.
    + by intros r j (_ & ? & _)%gc_ready_elem.
  - by apply NoDup_ListNoDup, List.NoDup_filter, NoDup_ListNoDup, all_jobs_NoDup.
  - intros j. rewrite (list_elem_of_In (flat_map _ _)), in_flat_map, (list_elem_of_In (List.filter _ _)), filter_In.
    setoid_rewrite <-list_elem_of_In. rewrite andb_true_iff. setoid_rewrite gc_ready_elem; [|done]. split; [naive_solver|].
    intros (Hj & Hg & Hs). exists (JRunID j). split_and!; try done.
    unfold sortedRunIDsLocked, sort_strings. rewrite sort_by_elem, list_elem_of_fmap.
    unfold run_settled in Hs. destruct (runs m !! JRunID j) as [run|] eqn:Hr; [|done].
    exists (JRunID j, run). by rewrite elem_of_map_to_list.
Qed.

Lemma ListGCReadyJobs_agree t0 m p :
  store_wf m → listed_once m → tracks t0 m p →
  same_records (snd (mem_ListGCReadyJobs m)) (snd (pg_ListGCReadyJobs p)).
Proof.
  intros Hwf Honce Ht. simpl. rewrite (gc_list m Hwf Honce).
  set (g := fun v : JobRunRecord * Time => gc_ready (fst v) && run_settled m (JRunID (fst v))).
  transitivity (map job_view (List.filter (fun j => g (job_view j)) (all_jobs m))).
  { apply reflexive_eq. f_equal. apply filter_same. intros j. unfold g, gc_ready. simpl. by destruct (JActiveCollectedAt j). }
  etrans; [exact (selections_agree t0 m p g Ht)|]. apply Permutation_map. rewrite sort_by_perm. apply reflexive_eq.
  unfold select_jobs. apply filter_same. intros j. unfold g, pg_gc_ready, gc_ready, run_settled. simpl.
  destruct (follows_run m p (JRunID j) (tr_follows _ _ _ Ht)) as [(run & run' & Hm & Hp & E)|[Hm Hp]]; rewrite Hm, Hp.
  - destruct (runs_alike_eqs _ _ E) as (_ & -> & _). destruct (JActiveCollectedAt j); simpl; [|by rewrite andb_true_r].
    by rewrite andb_false_r.
  - by rewrite !andb_false_r.
Qed.

Lemma job_before_antisym a b : le_of job_before a b → le_of job_before b a → a = b.
Proof.
  destruct a as [i t], b as [i' t']. unfold le_of, job_before. simpl. repeat case_bool_decide; try congruence; try lia; try done.
  intros. f_equal; [by apply str_le_antisym|done].
Qed.

Lemma mem_exec_all_once os m :
  store_wf m → listed_once m → store_wf (mem_exec_all os m) ∧ listed_once (mem_exec_all os m).
Proof.
  revert m. induction os as [|o os IH]; intros m Hwf Ho; simpl; [done|].
  apply IH; [by apply exec_wf_le|by apply exec_once].
Qed.

Lemma tracked_reads t0 m p :
  store_wf m → listed_once m → tracks t0 m p → reads_agree m p.
Proof.
  intros Hwf Honce Ht. pose proof (tr_follows _ _ _ Ht) as Hf.
  assert (map job_view (List.filter (fun j => bool_decide (JStatus j = JobQueued)) (all_jobs m)) ≡ₚ map job_view (queued_rows p)) as Hq.
  { exact (selections_agree t0 m p (fun v => bool_decide (JStatus (fst v) = JobQueued)) Ht). }
  split.
  - intros id. unfold answered, mem_GetJobRun, jobIn.
    destruct (follows_job m p id Hf) as [(j & row & Hj & Hr & Ea)|[Hj Hr]]; rewrite Hj, Hr; [|done].
    simpl. unfold job_view. by rewrite Ea, (tr_created _ _ _ Ht _ _ _ Hj Hr).
  - intros r. unfold answered, mem_GetRun, getRunLocked, runIn.
    destruct (follows_run m p r Hf) as [(run & run' & Hm & Hp & E)|[Hm Hp]]; rewrite Hm, Hp; [|done].
    simpl. by rewrite E.
  - simpl. rewrite filter_bool. apply Permutation_length in Hq. by rewrite !length_map in Hq; rewrite Hq.
  - set (key := fun v : JobRunRecord * Time => (JID (fst v), snd v)).
    assert (∀ l, map job_view (order_jobs l) = sort_by (fun a b => job_before (key a) (key b)) (map job_view l)) as Hs.
    { intros l. exact (sort_by_map job_view (fun a b => job_before (key a) (key b)) l). }
    unfold answered, mem_ListQueuedJobs, pg_ListQueuedJobs. simpl. f_equal. rewrite filter_bool.
    etrans; [exact (Hs _)|]. rewrite Hs. apply sort_by_unique.
    + intros a b c. apply job_before_le_trans.
    + intros a b. apply job_before_asym.
    + intros a b (ja & -> & Ha)%list_elem_of_fmap (jb & -> & Hb)%list_elem_of_fmap Hab Hba.
      apply list_elem_of_In, filter_In in Ha as [Ha _], Hb as [Hb _]. apply list_elem_of_In, mem_jobs_elem in Ha as [ia Ha], Hb as [ib Hb].
      assert (key (job_view ja) = key (job_view jb)) as E by (by apply job_before_antisym).
      unfold key in E. simpl in E. injection E as Eid _.
      rewrite (wf_job_id _ (wf_base _ Hwf) _ _ Ha), (wf_job_id _ (wf_base _ Hwf) _ _ Hb) in Eid. congruence.
    + exact Hq.
  - intros r. by eapply ListJobRuns_agree.
  - by eapply ListGCReadyJobs_agree.
Qed.

End reads.

Section mirror.
Context `{MemoryEnv} `{!MemoryEnvOk}.

End mirror.

(** ** A history with claims in both stores *)

(** The build is claimed, given back, claimed again and fails; the next claim
    skips the test; the build is tried again and claimed. *)
Definition claim_history : list (Time * op) :=
  let s := 1000000000%Z in
  [(s, OpRecordDelivery demo_delivery); (s, OpCreateRun demo_seed 5000); (2 * s, OpClaimNextQueuedJob);
   (3 * s, OpClaimNextQueuedJob); (4 * s, OpReleaseClaim demo_build); (5 * s, OpClaimNextQueuedJob);
   (6 * s, OpAckDispatched demo_build {| ObjName := "jobrun-idx"; ObjUID := "u" |} 6000);
   (7 * s, OpApplyObserved demo_build PhaseRunning 7000); (8 * s, OpApplyObserved demo_build PhaseFailed 8000);
   (9 * s, OpClaimNextQueuedJob); (100 * s, OpRerequestJob demo_build 9000); (300 * s, OpClaimNextQueuedJob)]%Z.

Lemma claim_history_trackable : all_trackable (map snd claim_history) NewDurableStore.
Proof.
  split; [exact I|]. split; [split; [exact demo_seed_fresh|split; [exact demo_seed_ok|reflexivity]]|].
  do 8 (split; [exact I|]). split; [reflexivity|]. by split.
Qed.

