(* ===== verification/PostgresIsolation.v ===== *)
(** * What READ COMMITTED allows, and where the two stores part

    The methods of [Postgres] as the statements they send, and transactions of
    several sessions interleaved at statement boundaries: a statement sees what is
    committed and what its own transaction wrote, a write or a SELECT FOR UPDATE
    takes the lock of its row and waits while another session holds it, and a
    commit makes the writes visible.  Run alone, the statements are the method; run
    together, three schedules break what holds of the methods.

    Then what [PostgresMirror.comparable] excludes: the unique column for the
    delivery id, dependency names given twice, job keys given twice, and jobs that
    do not exist. *)

From S2P Require Import Prelude GoStrings RunModel SchedulerPort MemoryStore StoreInvariant StoreOps Postgres PostgresSpec.
From S2P Require Import PostgresTheorems PostgresPort PostgresClaims.

Local Open Scope go_scope.

(** ** Transactions *)

Inductive row_lock := LockJob (id : JobRunID) | LockRun (id : RunID).

#[export] Instance row_lock_eq_dec : EqDecision row_lock.
Proof. solve_decision. Defined.

(** A statement: the locks it takes, given what it sees; what it writes; and
    the rest of the transaction, given what it saw. *)
Inductive prog :=
  | Finish (r : outcome error unit)
  | Stmt (locks : pg → list row_lock) (write : pg → pg) (next : pg → prog).

(** A statement that only reads. *)
Definition Read (next : pg → prog) : prog := Stmt (fun _ => []) Datatypes.id next.

Fixpoint run_prog (c : prog) (s : pg) : pg * outcome error unit :=
  match c with
  | Finish r => (s, r)
  | Stmt _ write next => run_prog (next s) (write s)
  end.

(** *** The statements of refreshRun, ApplyObserved, AckDispatched, CancelRun *)

Definition refresh_stmts (jobID : JobRunID) (now : Time) : prog :=
  Read (fun v =>
    match pg_jobs v !! jobID with
    | None => Finish (Err (ErrOther "job run: no rows"))
    | Some row =>
        let runID := JRunID (jrow row) in
        Read (fun v =>
          let next := AggregateRunStatus (map JStatus (run_jobs runID v)) in
          Stmt (fun _ => [LockRun runID]) Datatypes.id (fun v =>
            match pg_runs v !! runID with
            | None => Finish (Err (ErrOther "lock run: no rows"))
            | Some run =>
                if negb (CanAdvanceRun (RStatus run) next) || bool_decide (next = RStatus run)
                then Finish (Ok tt)
                else
                  let finished := if run_terminal next && bool_decide (RFinishedAt run = None)
                                  then Some (stamp now) else RFinishedAt run in
                  Stmt (fun _ => [LockRun runID]) (update_run runID (set_run next finished)) (fun _ => Finish (Ok tt))
            end))
    end).

(** The columns of the UPDATE, computed from the row read before. *)
Definition write_columns (j : JobRunRecord) : job_row → job_row :=
  on_record (fun cur => set_times (JStartedAt j) (JFinishedAt j) (set_status (JStatus j) cur)).

Definition observe_stmts (id : JobRunID) (phase : ObservedPhase) (now : Time) : prog :=
  Read (fun v =>
    match pg_jobs v !! id with
    | None => Finish (Err ErrJobRunNotFound)
    | Some row =>
        let job := jrow row in
        let write target := Stmt (fun _ => [LockJob id])
          (update_job id (write_columns (pg_observed target now job))) (fun _ => refresh_stmts id now) in
        if job_terminal (JStatus job) then refresh_stmts id now
        else match JobStatusFromPhase phase with
             | Some target => if CanAdvanceJob (JStatus job) target then write target else refresh_stmts id now
             | None => refresh_stmts id now
             end
    end).

Definition ack_stmts (id : JobRunID) (obj : ActiveObject) (now : Time) : prog :=
  Read (fun v =>
    match pg_jobs v !! id with
    | None => Finish (Err ErrJobRunNotFound)
    | Some row =>
        let job := jrow row in
        let write := Stmt (fun _ => [LockJob id]) (update_job id (dispatched_row obj now)) (fun _ => Finish (Ok tt)) in
        match JStatus job with
        | JobDispatched =>
            if bool_decide (JActiveName job ≠ "") && bool_decide (JActiveName job ≠ ObjName obj)
            then Finish (Err (ErrAlreadyDispatched id (JActiveName job) (ObjName obj)))
            else write
        | JobQueued => write
        | st => Finish (Err (ErrJobNotDispatchable id st))
        end
    end).

(** The UPDATE of one cancelled job; the rows were locked by the SELECT. *)
Definition cancel_stmt (now : Time) (j : JobRunRecord) (rest : prog) : prog :=
  match TransitionJob (JStatus j) JobCancelled with
  | (next, None) =>
      Stmt (fun _ => [LockJob (JID j)])
        (update_job (JID j) (fun row =>
           {| jrow := set_times (JStartedAt (jrow row)) (Some (stamp now)) (set_status next (jrow row));
              jrow_claimed := None |}))
        (fun _ => rest)
  | (_, Some _) => rest
  end.

Definition cancel_stmts (id : RunID) (now : Time) : prog :=
  Read (fun v =>
    match pg_runs v !! id with
    | None => Finish (Err ErrRunNotFound)
    | Some run =>
        if run_terminal (RStatus run) then
          Finish (if bool_decide (RStatus run = RunCancelled) then Ok tt
                  else Err (ErrRunAlreadyTerminal id (RStatus run)))
        else
          Stmt (fun v => map (fun j => LockJob (JID j)) (run_jobs id v)) Datatypes.id (fun v =>
            foldr (cancel_stmt now)
              (Stmt (fun _ => [LockRun id])
                 (update_run id (set_run RunCancelled (Some (stamp now)))) (fun _ => Finish (Ok tt)))
              (run_jobs id v))
    end).

(** ** Run alone, the statements are the method *)

Lemma refresh_alone id now s : run_prog (refresh_stmts id now) s = refreshRun id now s.
Proof.
  unfold refresh_stmts, refreshRun, Read. cbn [run_prog]. unfold Datatypes.id.
  destruct (pg_jobs s !! id) as [row|]; [|done]. cbn [run_prog]. unfold Datatypes.id.
  destruct (pg_runs s !! JRunID (jrow row)) as [run|]; [|done]. cbv zeta. by destruct (_ || _).
Qed.

Lemma write_columns_own target now row :
  write_columns (pg_observed target now (jrow row)) row = on_record (pg_observed target now) row.
Proof. unfold write_columns, on_record, pg_observed. by destruct target. Qed.

Lemma update_job_at id f g s row :
  pg_jobs s !! id = Some row → f row = g row → update_job id f s = update_job id g s.
Proof.
  intros Hr E. unfold update_job. f_equal. apply map_eq. intros i. destruct (decide (id = i)) as [<-|Hne].
  - rewrite !lookup_alter_eq, Hr. simpl. by rewrite E.
  - by rewrite !lookup_alter_ne.
Qed.

Lemma observe_alone id phase now s :
  run_prog (observe_stmts id phase now) s = (let* job := jobIn id in fun s => refreshRun id now (observe_job id job phase now s)) s.
Proof.
  rewrite jobIn_bind. unfold observe_stmts, Read. cbn [run_prog]. unfold Datatypes.id.
  destruct (pg_jobs s !! id) as [row|] eqn:Hr; [|done]. cbv zeta. unfold observe_job.
  destruct (job_terminal _); [apply refresh_alone|].
  destruct (JobStatusFromPhase phase) as [target|]; [|apply refresh_alone].
  destruct (CanAdvanceJob _ _); [|apply refresh_alone]. cbn [run_prog]. rewrite refresh_alone. f_equal.
  eapply update_job_at; [done|]. apply write_columns_own.
Qed.

Lemma ack_alone id obj now s : in_tx (run_prog (ack_stmts id obj now)) s = pg_AckDispatched id obj now s.
Proof.
  unfold pg_AckDispatched, in_tx. rewrite jobIn_bind. unfold ack_stmts, Read. cbn [run_prog]. unfold Datatypes.id.
  destruct (pg_jobs s !! id) as [row|]; [|done]. cbv zeta. destruct (JStatus (jrow row)); try done. by destruct (_ && _).
Qed.

(** The updates of the loop, one after the other. *)
Definition cancel_update (now : Time) (s : pg) (j : JobRunRecord) : pg :=
  match TransitionJob (JStatus j) JobCancelled with
  | (next, None) =>
      update_job (JID j) (fun row =>
        {| jrow := set_times (JStartedAt (jrow row)) (Some (stamp now)) (set_status next (jrow row));
           jrow_claimed := None |}) s
  | (_, Some _) => s
  end.

Lemma cancel_stmts_run now fin js s :
  run_prog (foldr (cancel_stmt now) fin js) s = run_prog fin (fold_left (cancel_update now) js s).
Proof.
  revert s. induction js as [|j js IH]; intros s; simpl; [done|].
  unfold cancel_stmt at 1, cancel_update at 2. destruct (TransitionJob _ _) as [next [e|]]; simpl; apply IH.
Qed.

Lemma cancel_updates_lookup now js s i :
  NoDup (map JID js) → (∀ j, j ∈ js → ∃ row, pg_jobs s !! JID j = Some row ∧ jrow row = j) →
  pg_jobs (fold_left (cancel_update now) js s) !! i =
    (if decide (i ∈ map JID js) then cancel_row now else Datatypes.id) <$> pg_jobs s !! i.
Proof.
  revert s. induction js as [|j js IH]; intros s Hnd Hjs; simpl; [by rewrite option_fmap_id|].
  apply NoDup_cons in Hnd as [Hj Hnd]. destruct (Hjs j) as (row & Hr & Erow); [set_solver|].
  assert (∀ i, pg_jobs (cancel_update now s j) !! i =
    (if decide (i = JID j) then cancel_row now else Datatypes.id) <$> pg_jobs s !! i) as Hone.
  { intros i'. unfold cancel_update, cancel_row.
    destruct (TransitionJob (JStatus j) JobCancelled) as [next [e|]] eqn:Et.
    - destruct (decide (i' = JID j)) as [->|]; [|by rewrite option_fmap_id]. rewrite Hr. simpl. by rewrite Erow, Et.
    - rewrite update_job_lookup. destruct (decide (i' = JID j)) as [->|]; [|by rewrite decide_False, option_fmap_id].
      rewrite decide_True, Hr by done. simpl. by rewrite Erow, Et. }
  rewrite IH; [|done|].
  - rewrite Hone, <-option_fmap_compose. destruct (pg_jobs s !! i) as [row'|]; simpl; [|done].
    change (map JID (j :: js)) with (JID j :: map JID js). repeat case_decide; subst; try done; exfalso; set_solver.
  - intros j' Hin. destruct (Hjs j') as (row' & Hr' & Er'); [set_solver|]. exists row'. split; [|done].
    rewrite Hone, decide_False, option_fmap_id; [done|]. intros E. apply Hj. rewrite <-E. change @map with @list_fmap.
    by apply list_elem_of_fmap_2.
Qed.

Lemma run_jobs_ids r s : pg_wf s → NoDup (map JID (run_jobs r s)).
Proof.
  intros Hwf. unfold run_jobs, select_jobs.
  assert (NoDup (map JID (map jrow (map snd (map_to_list (pg_jobs s)))))) as Hall.
  { rewrite !map_map. change @map with @list_fmap.
    replace (list_fmap _ _ (fun x => JID (jrow (snd x))) (map_to_list (pg_jobs s))) with ((map_to_list (pg_jobs s)).*1);
      [apply NoDup_fst_map_to_list|]. apply list_fmap_ext. intros n [i row] Hx. simpl.
    symmetry. apply (pw_job _ Hwf). apply elem_of_map_to_list. by eapply list_elem_of_lookup_2. }
  change @map with @list_fmap in *. induction (list_fmap _ _ jrow _) as [|j l IH]; [constructor|].
  simpl in *. apply NoDup_cons in Hall as [Hj Hl]. case_bool_decide; simpl; [|auto].
  apply NoDup_cons. split; [|auto]. rewrite list_elem_of_fmap. intros (j' & E & Hin). apply Hj.
  apply list_elem_of_In, filter_In in Hin as [Hin _]. apply list_elem_of_In in Hin. rewrite E.
  by apply list_elem_of_fmap_2.
Qed.

Lemma cancel_alone id now s :
  pg_wf s → in_tx (run_prog (cancel_stmts id now)) s = pg_CancelRun id now s.
Proof.
  intros Hwf. unfold pg_CancelRun, in_tx, mbind, runIn. unfold cancel_stmts, Read. cbn [run_prog]. unfold Datatypes.id.
  destruct (pg_runs s !! id) as [run|]; [|done]. destruct (run_terminal _); [by case_bool_decide|].
  cbn [run_prog]. rewrite cancel_stmts_run. cbn [run_prog].
  assert (fold_left (cancel_update now) (run_jobs id s) s = cancel_jobs id now s) as ->; [|done].
  assert (∀ js s0, pg_deliveries (fold_left (cancel_update now) js s0) = pg_deliveries s0 ∧
    pg_runs (fold_left (cancel_update now) js s0) = pg_runs s0 ∧ pg_now (fold_left (cancel_update now) js s0) = pg_now s0 ∧
    pg_minted (fold_left (cancel_update now) js s0) = pg_minted s0) as Hrest.
  { induction js as [|j js IH]; intros s0; simpl; [done|]. destruct (IH (cancel_update now s0 j)) as (-> & -> & -> & ->).
    unfold cancel_update. by destruct (TransitionJob _ _) as [? [?|]]. }
  destruct (Hrest (run_jobs id s) s) as (Ed & Er & En & Em).
  assert (pg_jobs (fold_left (cancel_update now) (run_jobs id s) s) = pg_jobs (cancel_jobs id now s)) as Ej.
  { apply map_eq. intros i. rewrite cancel_updates_lookup; [|by apply run_jobs_ids|].
    - simpl. rewrite lookup_fmap. destruct (pg_jobs s !! i) as [row|] eqn:Hr; simpl; [|done]. f_equal.
      assert (i ∈ map JID (run_jobs id s) ↔ JRunID (jrow row) = id) as Hi.
      { change @map with @list_fmap. rewrite list_elem_of_fmap. setoid_rewrite run_jobs_elem. split.
        - intros (j & -> & i' & row' & Hr' & <- & Hrun). rewrite (pw_job _ Hwf _ _ Hr') in Hr. congruence.
        - intros Hrun. exists (jrow row). split; [by rewrite (pw_job _ Hwf _ _ Hr)|eauto]. }
      case_decide as Hd; [rewrite bool_decide_eq_true_2 by tauto|rewrite bool_decide_eq_false_2 by tauto]; done.
    - intros j (i' & row & Hr & <- & _)%run_jobs_elem. exists row. by rewrite (pw_job _ Hwf _ _ Hr). }
  destruct (fold_left _ _ s) as [d' r' j' n' m']. unfold cancel_jobs, with_pg_jobs in *. simpl in *. by subst.
Qed.

(** ** Sessions side by side *)

(** What a transaction wrote, as a function on the committed tables, the locks
    it holds, and the rest of its statements. *)
Record session := { own : pg → pg; held : list row_lock; code : prog }.

Definition new_session (c : prog) : session := {| own := Datatypes.id; held := []; code := c |}.

Record world := { committed : pg; sessions : gmap nat session }.

(** Nobody else holds one of the locks. *)
Definition lock_free (i : nat) (ls : list row_lock) (ss : gmap nat session) : bool :=
  forallb (fun q => bool_decide (fst q = i) ||
                    forallb (fun l => negb (bool_decide (l ∈ held (snd q)))) ls) (map_to_list ss).

(** Session [i] executes its next statement, or ends; [None]: it waits, or there
    is no such session. *)
Definition session_step (i : nat) (w : world) : option world :=
  match sessions w !! i with
  | None => None
  | Some x =>
      match code x with
      | Finish (Ok _) => Some {| committed := own x (committed w); sessions := delete i (sessions w) |}
      | Finish _ => Some {| committed := committed w; sessions := delete i (sessions w) |}
      | Stmt locks write next =>
          let v := own x (committed w) in
          if lock_free i (locks v) (sessions w) then
            Some {| committed := committed w;
                    sessions := <[i := {| own := fun s => write (own x s); held := locks v ++ held x;
                                          code := next v |}]> (sessions w) |}
          else None
      end
  end.

Fixpoint schedule (steps : list nat) (w : world) : option world :=
  match steps with
  | [] => Some w
  | i :: steps' => match session_step i w with Some w' => schedule steps' w' | None => None end
  end.

Definition side_by_side (c1 c2 : prog) (s : pg) : world :=
  {| committed := s; sessions := {[1 := new_session c1; 2 := new_session c2]} |}.

(** The tables after a schedule that ends both sessions. *)
Definition outcome_of (steps : list nat) (c1 c2 : prog) (s : pg) : option pg :=
  match schedule steps (side_by_side c1 c2 s) with
  | Some w => if bool_decide (sessions w = ∅) then Some (committed w) else None
  | None => None
  end.

Fixpoint prog_length (c : prog) (s : pg) : nat :=
  match c with
  | Finish _ => 1
  | Stmt _ write next => S (prog_length (next s) (write s))
  end.

(** A session alone in the world runs its statements to the end, and leaves
    what the method leaves. *)
Lemma alone_runs i c x w :
  sessions w = {[i := x]} → code x = c →
  schedule (repeat i (prog_length c (own x (committed w)))) w =
  Some {| committed := match run_prog c (own x (committed w)) with
                       | (s', Ok _) => s'
                       | _ => committed w
                       end;
          sessions := ∅ |}.
Proof.
  revert x w. induction c as [r|locks write next IH]; intros x w Hs Hc; simpl; unfold session_step;
    rewrite Hs, lookup_singleton_eq, Hc.
  - destruct r; by rewrite delete_singleton_eq.
  - assert (lock_free i (locks (own x (committed w))) {[i := x]} = true) as ->.
    { unfold lock_free. rewrite map_to_list_singleton. simpl. by rewrite bool_decide_eq_true_2. }
    rewrite insert_singleton_eq. set (x' := {| own := _ |}). set (w' := {| committed := _ |}).
    exact (IH (own x (committed w)) x' w' eq_refl eq_refl).
Qed.

(** ** Three schedules *)

Section schedules.

(** Two jobs of one run that both run, with [test] no longer waiting. *)
Definition both_seed : RunSeed := {|
  SDelivery := demo_key; SEvent := demo_event;
  SJobs := [demo_intent "build" [] ""; demo_intent "test" [] ""] |}.

Definition demo_object (id : JobRunID) : ActiveObject := {| ObjName := "jobrun-" +:+ id; ObjUID := "u" |}.

Definition pg_both_created : pg := pg_exec_all [OpRecordDelivery demo_delivery; OpCreateRun both_seed 5000] (empty_pg 1000).

Definition pg_both_running : pg :=
  pg_exec_all [OpAckDispatched demo_build (demo_object demo_build) 6000;
           OpAckDispatched demo_test (demo_object demo_test) 6000;
           OpApplyObserved demo_build PhaseRunning 7000; OpApplyObserved demo_test PhaseRunning 7000] pg_both_created.

Definition pg_status (s : pg) (id : JobRunID) : option JobRunStatus := (fun row => JStatus (jrow row)) <$> pg_jobs s !! id.
Definition pg_run_status (s : pg) (r : RunID) : option WorkflowRunStatus := RStatus <$> pg_runs s !! r.

Definition statuses (s : pg) : option JobRunStatus * option JobRunStatus * option WorkflowRunStatus :=
  (pg_status s demo_build, pg_status s demo_test, pg_run_status s demo_run).

Example both_running_statuses : statuses pg_both_running = (Some JobRunning, Some JobRunning, Some RunRunning).
Proof. vm_compute. reflexivity. Qed.

(** Both jobs finish at the same time.  Each transaction counts the
    statuses before the other has committed and sees the other job open, and the lock
    of the run is taken too late to help: the run stays open. *)
Theorem concurrent_finish_leaves_run_open :
  statuses <$> outcome_of [1; 2; 1; 2; 1; 1; 2; 2; 1; 1; 2; 2]
    (observe_stmts demo_build PhaseSucceeded 8000) (observe_stmts demo_test PhaseSucceeded 8000) pg_both_running
  = Some (Some JobSucceeded, Some JobSucceeded, Some RunRunning).
Proof. vm_compute. reflexivity. Qed.

(** The next observation of one of its jobs closes such a run. *)
Theorem late_observation_closes_run `{MemoryEnv} `{!MemoryEnvOk} id phase now s row :
  pg_wf s → pg_jobs s !! id = Some row → settled_but s (JRunID (jrow row)) →
  ∃ s', pg_ApplyObserved id phase now s = (s', Ok tt) ∧ pg_settled s'.
Proof.
  intros Hwf Hr Hs. destruct (ApplyObserved_settled id phase now s row Hwf Hr Hs) as [Hset Hok].
  unfold pg_ApplyObserved, in_tx. rewrite jobIn_bind, Hr.
  destruct (refreshRun id now _) as [s' r]. simpl in *. subst r. eauto.
Qed.

(** The tables after [concurrent_finish_leaves_run_open]. *)
Definition pg_stuck : pg :=
  default pg_both_running (outcome_of [1; 2; 1; 2; 1; 1; 2; 2; 1; 1; 2; 2]
    (observe_stmts demo_build PhaseSucceeded 8000) (observe_stmts demo_test PhaseSucceeded 8000) pg_both_running).

Lemma pg_wf_check s :
  map_Forall (fun id row => JID (jrow row) = id) (pg_jobs s) →
  map_Forall (fun _ row => job_known (JStatus (jrow row)) = true) (pg_jobs s) →
  map_Forall (fun _ row => is_Some (pg_runs s !! JRunID (jrow row))) (pg_jobs s) →
  map_Forall (fun r run => RID run = r ∧ r ≠ "") (pg_runs s) →
  map_Forall (fun _ row => from_option (fun r => bool_decide (is_Some (pg_runs s !! r))) true (drow_run row) = true)
    (pg_deliveries s) →
  pg_wf s.
Proof.
  intros H1 H2 H3 H4 H5. split; [exact H1|exact H2|exact H3|exact H4|].
  intros k row r Hk Hr. specialize (H5 k row Hk). simpl in H5.
  rewrite Hr in H5. by apply bool_decide_eq_true in H5.
Qed.

Lemma pg_stuck_wf : pg_wf pg_stuck.
Proof. apply pg_wf_check; apply (bool_decide_unpack _); vm_compute; exact I. Qed.

Lemma pg_stuck_settled_but : settled_but pg_stuck demo_run.
Proof.
  split.
  - intros r Hne run Hr. exfalso. apply Hne.
    assert (map_Forall (fun r _ => r = demo_run) (pg_runs pg_stuck)) as Hall
      by (apply (bool_decide_unpack _); vm_compute; exact I).
    exact (Hall r run Hr).
  - intros run Hr Ht. exfalso.
    assert (map_Forall (fun _ run => run_terminal (RStatus run) = false) (pg_runs pg_stuck)) as Hall
      by (apply (bool_decide_unpack _); vm_compute; exact I).
    specialize (Hall demo_run run Hr). simpl in Hall. congruence.
Qed.

Lemma late_observation_closes_run_witness :
  ∃ s', pg_ApplyObserved demo_build PhaseSucceeded 9000 pg_stuck = (s', Ok tt) ∧ pg_settled s'.
Proof.
  eapply late_observation_closes_run.
  - exact pg_stuck_wf.
  - vm_compute. reflexivity.
  - exact pg_stuck_settled_but.
Defined.

(** A late report that the job runs, read before the report that it has
    succeeded commits and written after: the job runs again. *)
Theorem stale_observation_undoes_finish :
  statuses <$> outcome_of ([2] ++ repeat 1 6 ++ repeat 2 5)
    (observe_stmts demo_build PhaseSucceeded 8000) (observe_stmts demo_build PhaseRunning 7500) pg_both_running
  = Some (Some JobRunning, Some JobRunning, Some RunRunning).
Proof. vm_compute. reflexivity. Qed.

(** A dispatch acknowledged while the run is being cancelled: the job is
    dispatched in a cancelled run. *)
Theorem acknowledgement_revives_cancelled_job :
  statuses <$> outcome_of ([1] ++ repeat 2 6 ++ repeat 1 2)
    (ack_stmts demo_build (demo_object demo_build) 8000) (cancel_stmts demo_run 8000) pg_both_created
  = Some (Some JobDispatched, Some JobCancelled, Some RunCancelled).
Proof. vm_compute. reflexivity. Qed.

(** Waiting on a row is modelled: a cancellation cannot go on while the
    acknowledgement holds the row, and then finds the job dispatched. *)
Example cancellation_waits_for_row :
  outcome_of ([1; 1] ++ repeat 2 6) (ack_stmts demo_build (demo_object demo_build) 8000)
    (cancel_stmts demo_run 8000) pg_both_created = None ∧
  statuses <$> outcome_of (repeat 1 3 ++ repeat 2 6) (ack_stmts demo_build (demo_object demo_build) 8000)
    (cancel_stmts demo_run 8000) pg_both_created = Some (Some JobCancelled, Some JobCancelled, Some RunCancelled).
Proof. vm_compute. done. Qed.
End schedules.

(** ** Where the two stores part *)

Section divergence.
Context `{MemoryEnv}.

(** ** Deliveries *)

(** [delivery_id] alone is UNIQUE in [workflow_runs]: once a run exists for a
    delivery, no other provider's delivery with that id can have one, and its jobs
    never come to be. *)
Theorem delivery_id_collision seed now s row r run :
  pg_deliveries s !! SDelivery seed = Some row → drow_run row = None → SJobs seed ≠ [] →
  pg_runs s !! r = Some run → KeyDeliveryID (RDelivery run) = KeyDeliveryID (SDelivery seed) →
  pg_CreateRun seed now s = (with_pg_minted (S (pg_minted s)) s, Err (ErrWrap "insert run" unique_violation)).
Proof.
  intros Hk Hn Hj Hr Hid. unfold pg_CreateRun, in_tx. rewrite Hk. cbv zeta. rewrite Hn. simpl.
  rewrite bool_decide_eq_false_2 by (by destruct (SJobs seed)). unfold mbind, mint, insert_run. simpl.
  assert (existsb (fun p => bool_decide (KeyDeliveryID (RDelivery (snd p)) = KeyDeliveryID (SDelivery seed)))
    (map_to_list (pg_runs s)) = true) as ->.
  { apply existsb_exists. exists (r, run). split; [by apply list_elem_of_In, elem_of_map_to_list|].
    by apply bool_decide_eq_true_2. }
  by rewrite orb_true_r.
Qed.

(** ** Dependencies *)

(** No two jobs of the run are the same attempt of the same key. *)
Definition attempts_unique (s : pg) (r : RunID) : Prop :=
  ∀ j1 j2, j1 ∈ run_jobs r s → j2 ∈ run_jobs r s → JJobKey j1 = JJobKey j2 → JAttempt j1 = JAttempt j2 → j1 = j2.

Lemma attempts_unique_dec s r :
  NoDup (map (fun j => (JJobKey j, JAttempt j)) (run_jobs r s)) → attempts_unique s r.
Proof.
  change @map with @list_fmap. intros Hnd j1 j2 (n1 & H1)%list_elem_of_lookup (n2 & H2)%list_elem_of_lookup Ek Ea.
  assert (n1 = n2) as <-; [|congruence]. eapply (NoDup_lookup _ n1 n2 (JJobKey j1, JAttempt j1) Hnd);
    rewrite list_lookup_fmap; [by rewrite H1|]. by rewrite H2, Ek, Ea.
Qed.

Lemma latest_elem keys l j :
  j ∈ latest_attempts keys l ↔
    j ∈ l ∧ JJobKey j ∈ keys ∧ ∀ k, k ∈ l → JJobKey k = JJobKey j → (JAttempt k <= JAttempt j)%Z.
Proof.
  unfold latest_attempts. rewrite (list_elem_of_In _ j), (list_elem_of_In l j), !filter_In, bool_decide_eq_true, forallb_forall. split.
  - intros [[Hj Hk] Hall]. split_and!; [done..|]. intros k Hin E. specialize (Hall k).
    rewrite filter_In, bool_decide_eq_true, E, (bool_decide_eq_true_2 _ eq_refl) in Hall. simpl in Hall.
    rewrite bool_decide_eq_true in Hall. apply Hall. by rewrite <-list_elem_of_In.
  - intros (Hj & Hk & Hall). split; [done|]. intros k [Hin _]%filter_In. apply orb_true_iff.
    destruct (decide (JJobKey k = JJobKey j)) as [E|E]; [right|left; by rewrite bool_decide_eq_false_2].
    apply bool_decide_eq_true_2, Hall; [by rewrite list_elem_of_In|done].
Qed.

Lemma latest_keys_NoDup keys r s :
  pg_wf s → attempts_unique s r → NoDup (map JJobKey (latest_attempts keys (run_jobs r s))).
Proof.
  intros Hwf Hu. change @map with @list_fmap. apply NoDup_fmap_2_strong.
  - intros j1 j2 (H1 & _ & M1)%latest_elem (H2 & _ & M2)%latest_elem E. apply Hu; [done..|].
    pose proof (M1 j2 H2 (eq_sym E)). pose proof (M2 j1 H1 E). lia.
  - unfold latest_attempts. apply NoDup_ListNoDup, List.NoDup_filter, List.NoDup_filter, NoDup_ListNoDup.
    apply (NoDup_fmap_1 JID). by apply run_jobs_ids.
Qed.

(** A dependency named twice is counted twice, but found once: the job is
    blocked for ever, whatever its dependencies do. *)
Theorem duplicate_need_blocks s id row :
  pg_wf s → pg_jobs s !! id = Some row → attempts_unique s (JRunID (jrow row)) → ¬ NoDup (JDependsOn (jrow row)) →
  pg_depState id s = depsBlocked.
Proof.
  intros Hwf Hr Hu Hdup. unfold pg_depState. rewrite Hr. cbv zeta.
  rewrite bool_decide_eq_false_2 by (intros E%nil_length_inv; apply Hdup; rewrite E; constructor).
  rewrite bool_decide_eq_false_2; [done|]. change @map with @list_fmap. rewrite length_fmap. intros Hlen. apply Hdup.
  set (L := latest_attempts _ _) in *. pose proof (latest_keys_NoDup (JDependsOn (jrow row)) _ s Hwf Hu) as Hnd. fold L in Hnd.
  assert (map JJobKey L ⊆+ JDependsOn (jrow row)) as Hsub.
  { apply NoDup_submseteq; [done|]. change @map with @list_fmap. intros k (j & -> & (_ & Hk & _)%latest_elem)%list_elem_of_fmap. done. }
  apply submseteq_length_Permutation in Hsub; [by rewrite <-Hsub|]. change @map with @list_fmap. rewrite length_fmap. lia.
Qed.

(** ** Collection *)

(** Collecting a job that does not exist is no error here. *)
Lemma collected_unknown_job id now s : pg_jobs s !! id = None → pg_MarkCollected id now s = (s, Ok tt).
Proof.
  intros Hn. unfold pg_MarkCollected, update_job. rewrite alter_id; [by destruct s|]. intros row Hr. congruence.
Qed.
End divergence.

(** ** The same histories in both stores *)

Definition seed_of (js : list JobIntent) : RunSeed := {| SDelivery := demo_key; SEvent := demo_event; SJobs := js |}.

Definition build_done (js : list JobIntent) : list op :=
  [OpRecordDelivery demo_delivery; OpCreateRun (seed_of js) 5000;
   OpAckDispatched demo_build (demo_object demo_build) 6000; OpApplyObserved demo_build PhaseSucceeded 7000].

Definition twice : list JobIntent := [demo_intent "build" [] ""; demo_intent "test" ["build"; "build"] ""].

(** [needs: [build, build]] after the build: memory hands the job out, PostgreSQL
    finds nothing to do. *)
Example needs_twice :
  (snd (mem_ClaimNextQueuedJob (mem_exec_all (build_done twice) NewDurableStore)),
   snd (pg_ClaimNextQueuedJob (pg_exec_all (build_done twice) (empty_pg 1000))))
  = (Ok (newJob demo_test demo_run (demo_intent "test" ["build"; "build"] "") 5000), Err ErrNoQueuedJob).
Proof. vm_compute. reflexivity. Qed.

Lemma duplicate_need_blocks_witness :
  pg_depState demo_test (pg_exec_all (build_done twice) (empty_pg 1000)) = depsBlocked.
Proof.
  eapply duplicate_need_blocks.
  - apply pg_reachable_inv, pg_exec_all_reachable.
  - vm_compute. reflexivity.
  - apply attempts_unique_dec. apply (bool_decide_unpack _). vm_compute. exact I.
  - apply (bool_decide_unpack _). vm_compute. exact I.
Defined.

(** A second provider's delivery with the id of the first. *)
Definition other_key : DeliveryKey := {| KeyProvider := "schedule"; KeyDeliveryID := "d1" |}.
Definition other_delivery : Delivery := {| DKey := other_key; DEvent := demo_event; DPayload := "{}" |}.
Definition other_seed : RunSeed := {| SDelivery := other_key; SEvent := demo_event; SJobs := SJobs demo_seed |}.

Definition both_recorded : list op :=
  [OpRecordDelivery demo_delivery; OpCreateRun demo_seed 5000; OpRecordDelivery other_delivery].

Lemma delivery_id_collision_witness :
  snd (pg_CreateRun other_seed 6000 (pg_exec_all both_recorded (empty_pg 1000)))
    = Err (ErrWrap "insert run" unique_violation) ∧
  is_ok (snd (mem_CreateRun other_seed 6000 (mem_exec_all both_recorded NewDurableStore))) = true.
Proof.
  split; [|vm_compute; reflexivity].
  erewrite (delivery_id_collision other_seed 6000 _ _ demo_run); [reflexivity|vm_compute; reflexivity..| |
    vm_compute; reflexivity|vm_compute; reflexivity].
  discriminate.
Defined.

(** Two jobs under one key: refused in memory, two rows here. *)
Example keys_twice :
  let seed := seed_of [demo_intent "build" [] ""; demo_intent "build" [] ""] in
  snd (mem_CreateRun seed 5 (mem_exec_all [OpRecordDelivery demo_delivery] NewDurableStore))
    = Err (ErrDuplicateJobKey "build" demo_run) ∧
  size (pg_jobs (pg_exec_all [OpRecordDelivery demo_delivery; OpCreateRun seed 5000] (empty_pg 1000))) = 2.
Proof. vm_compute. done. Qed.
