(* ===== verification/PostgresSecrets.v ===== *)
(** * Sealed secrets on PostgreSQL (internal/storage/postgres/secrets.go)

    The table [secrets] is a finite map from scope and name to the sealed value;
    sealing and opening are those of [Secrets], whose random source is part of
    the state.  The store is an instance of [ServerApi.SecretStore], so the secret
    endpoints of the API run on it. *)

From S2P Require Import Prelude GoStrings RunModel SchedulerPort ObjectStore Secrets Server ServerApi Postgres.

Local Open Scope go_scope.

(** ** The table *)

Record secret_row := { srow_sealed : Sealed; srow_created : Time; srow_updated : Time }.

Record vault := {
  vault_rows : gmap (string * string) secret_row;
  vault_random : string;   (** the random bytes still to be read *)
  vault_now : Time
}.

Definition with_vault_rows v (x : vault) : vault :=
  {| vault_rows := v; vault_random := vault_random x; vault_now := vault_now x |}.

Definition secret_error (e : SecretError) : error :=
  match e with
  | KeyringError why | KeyFileError why | CipherError why => ErrOther why
  | RandomError what => ErrOther what
  end.

(** [master_key_version INT]: 32 bits with a sign. *)
Definition int4_ok (n : N) : bool := (n <? 2 ^ 31)%N.

(** [INSERT ... ON CONFLICT (scope, name) DO UPDATE]; the creation time of a row
    that exists stays. *)
Definition upsert_row (k : string * string) (s : Sealed) (x : vault) : vault :=
  let now := stamp (vault_now x) in
  let created := match vault_rows x !! k with Some row => srow_created row | None => now end in
  with_vault_rows (<[k := {| srow_sealed := s; srow_created := created; srow_updated := now |}]> (vault_rows x)) x.

Section store.
Context `{AEAD} (cipher : StaticKeyring).

Definition store_PutSecret (scope name plaintext : string) : M vault unit :=
  fun x =>
    if bool_decide (scope = "") || bool_decide (name = "")
    then (x, Err (ErrOther "PutSecret scope and name are required"))
    else match Seal cipher plaintext (SecretAAD scope name) (vault_random x) with
         | Err e => (x, Err (ErrWrap "PutSecret seal" (secret_error e)))
         | Panic => (x, Panic)
         | Ok (sealed, rest) =>
             let x := {| vault_rows := vault_rows x; vault_random := rest; vault_now := vault_now x |} in
             if int4_ok (MasterKeyVersion sealed) then (upsert_row (scope, name) sealed x, Ok tt)
             else (x, Err (ErrWrap "PutSecret" (ErrOther "greater than maximum value for int4")))
         end.

Definition store_GetSecret (scope name : string) : M vault string :=
  fun x =>
    match vault_rows x !! (scope, name) with
    | None => (x, Err (ErrWrap "GetSecret" (ErrOther "no rows in result set")))
    | Some row =>
        match Open cipher (srow_sealed row) (SecretAAD scope name) with
        | Err e => (x, Err (ErrWrap "GetSecret open" (secret_error e)))
        | Panic => (x, Panic)
        | Ok plaintext => (x, Ok plaintext)
        end
    end.

(** The row count says whether there was one. *)
Definition store_DeleteSecret (scope name : string) : M vault unit :=
  fun x =>
    let x' := with_vault_rows (delete (scope, name) (vault_rows x)) x in
    if bool_decide (is_Some (vault_rows x !! (scope, name))) then (x', Ok tt)
    else (x', Err (ErrOther "DeleteSecret not found")).

(** [ORDER BY scope, name] *)
Definition secret_before (a b : string * string) : bool :=
  if bool_decide (fst a = fst b) then str_lt (snd a) (snd b) else str_lt (fst a) (fst b).

Definition store_ListSecrets : M vault (list (string * string)) :=
  fun x => (x, Ok (sort_by secret_before (map fst (map_to_list (vault_rows x))))).

#[export] Instance postgres_secret_store : SecretStore vault := {|
  GetSecret := store_GetSecret;
  PutSecret := store_PutSecret;
  DeleteSecret := store_DeleteSecret;
  ListSecrets := store_ListSecrets
|}.
End store.

(** ** What the store keeps *)

(** A row holds a value for its own identity, sealed under a key of the ring. *)
Definition holds `{AEAD} (ring : StaticKeyring) (x : vault) (k : string * string) (value : string) : Prop :=
  ∃ row mk, vault_rows x !! k = Some row ∧ KeyOf ring (MasterKeyVersion (srow_sealed row)) = Some mk ∧
    String.length (Material mk) = 32 ∧ seals mk value (SecretAAD (fst k) (snd k)) (srow_sealed row).

Section facts.
Context `{AEADLaws}.

Lemma holds_get ring x scope name value :
  holds ring x (scope, name) value → store_GetSecret ring scope name x = (x, Ok value).
Proof.
  intros (row & mk & Hr & Hk & Hm & Hs). unfold store_GetSecret. rewrite Hr.
  simpl in Hs. by rewrite (Open_seals ring mk value _ _ Hk Hm Hs).
Qed.

(** A keyring that keeps every key of another one. *)
Definition keeps_keys (r1 r2 : StaticKeyring) : Prop := ∀ v k, KeyOf r1 v = Some k → KeyOf r2 v = Some k.

Lemma holds_rotate r1 r2 x k value : keeps_keys r1 r2 → holds r1 x k value → holds r2 x k value.
Proof. intros Hk (row & mk & Hr & Hv & Hm & Hs). exists row, mk. split_and!; auto. Qed.

Lemma put_ok ring x scope name value :
  ring_ok ring → int4_ok (currentVer ring) = true → scope ≠ "" → name ≠ "" → 56 ≤ String.length (vault_random x) →
  ∃ x', store_PutSecret ring scope name value x = (x', Ok tt) ∧ holds ring x' (scope, name) value ∧
    vault_rows x' !! (scope, name) ≠ None ∧ ∀ k, k ≠ (scope, name) → vault_rows x' !! k = vault_rows x !! k.
Proof.
  intros Hr Hv Hs Hn Hl. unfold store_PutSecret. rewrite !bool_decide_eq_false_2 by done. simpl.
  destruct (Seal_ok ring value (SecretAAD scope name) (vault_random x) Hr Hl) as (sealed & rest & -> & Hseal).
  destruct (Current_ok ring Hr) as (Hk & Hcur & Hm). pose proof Hseal as (dek & wn & _ & _ & _ & Hver & _).
  rewrite Hver, Hcur, Hv. eexists. split; [done|]. unfold upsert_row. simpl. split_and!.
  - eexists _, (Current ring). simpl. rewrite lookup_insert_eq. split_and!; [done| |done|done].
    simpl. unfold KeyOf. by rewrite Hver, Hcur.
  - by rewrite lookup_insert_eq.
  - intros k Hne. by rewrite lookup_insert_ne.
Qed.

(** C14. What was put is read back, whatever the row held before, under every
    keyring that keeps the keys of the one it was sealed under; the other secrets
    are untouched. *)
Theorem stored_secret_is_read_back ring ring' x scope name value :
  ring_ok ring → int4_ok (currentVer ring) = true → keeps_keys ring ring' → scope ≠ "" → name ≠ "" →
  56 ≤ String.length (vault_random x) →
  ∃ x', store_PutSecret ring scope name value x = (x', Ok tt) ∧
    store_GetSecret ring' scope name x' = (x', Ok value) ∧
    ∀ scope' name', (scope', name') ≠ (scope, name) →
      snd (store_GetSecret ring' scope' name' x') = snd (store_GetSecret ring' scope' name' x).
Proof.
  intros Hr Hv Hkeep Hs Hn Hl. destruct (put_ok ring x scope name value Hr Hv Hs Hn Hl) as (x' & E & Hh & _ & Hoth).
  exists x'. split; [done|]. split; [by eapply holds_get, holds_rotate|].
  intros scope' name' Hne. unfold store_GetSecret. rewrite Hoth by done. by repeat case_match.
Qed.

(** Master keys are 32-bit in the keyring and 31-bit in the table. *)
Theorem large_key_versions_cannot_store ring x scope name value :
  ring_ok ring → int4_ok (currentVer ring) = false → scope ≠ "" → name ≠ "" → 56 ≤ String.length (vault_random x) →
  ∃ x' e, store_PutSecret ring scope name value x = (x', Err e) ∧ vault_rows x' = vault_rows x.
Proof.
  intros Hr Hv Hs Hn Hl. unfold store_PutSecret. rewrite !bool_decide_eq_false_2 by done. simpl.
  destruct (Seal_ok ring value (SecretAAD scope name) (vault_random x) Hr Hl) as (sealed & rest & -> & Hseal).
  destruct (Current_ok ring Hr) as (Hk & Hcur & Hm). destruct Hseal as (dek & wn & _ & _ & _ & Hver & _).
  rewrite Hver, Hcur, Hv. by eexists _, _.
Qed.

(** The listing names exactly the stored secrets, in order; a deleted one is
    neither listed nor readable, and deleting it again is an error. *)
Lemma list_elem x k l : snd (store_ListSecrets x) = Ok l → k ∈ l ↔ is_Some (vault_rows x !! k).
Proof.
  intros [= <-]. rewrite sort_by_elem. change @map with @list_fmap. rewrite list_elem_of_fmap. split.
  - intros ([k' row] & -> & Hin%elem_of_map_to_list). by eexists.
  - intros [row Hr]. exists (k, row). split; [done|]. by apply elem_of_map_to_list.
Qed.

Theorem deleted_secret_is_gone ring x x' r scope name :
  store_DeleteSecret scope name x = (x', r) →
  (r = Ok tt ↔ is_Some (vault_rows x !! (scope, name))) ∧
  is_ok (snd (store_GetSecret ring scope name x')) = false ∧
  is_ok (snd (store_DeleteSecret scope name x')) = false ∧
  ∀ l, snd (store_ListSecrets x') = Ok l →
    ∀ k, k ∈ l ↔ is_Some (vault_rows x !! k) ∧ k ≠ (scope, name).
Proof.
  unfold store_DeleteSecret. intros E.
  assert (x' = with_vault_rows (delete (scope, name) (vault_rows x)) x) as -> by (by case_bool_decide; simplify_eq).
  unfold store_GetSecret. cbn [vault_rows with_vault_rows]. rewrite lookup_delete_eq. split_and!; [|done| |].
  - case_bool_decide; simplify_eq; by split.
  - rewrite bool_decide_eq_false_2; [done|by intros []].
  - intros l Hl k. rewrite (list_elem _ _ _ Hl). cbn [vault_rows with_vault_rows].
    rewrite lookup_delete. case_decide; subst; [split; [by intros []|by intros [_ ?]]|]. split; [|by intros []].
    intros ?. split; [done|congruence].
Qed.
End facts.

(** ** A concrete vault *)

Definition demo_ring : StaticKeyring :=
  {| keys := {[1%N := key_of_version 1]}; currentVer := 1 |}.

Lemma demo_ring_ok : ring_ok demo_ring.
Proof.
  split; [by eexists|]. intros v k Hk. unfold demo_ring in Hk. simpl in Hk.
  apply lookup_singleton_Some in Hk as [<- <-]. split_and!; [done|done|reflexivity].
Qed.

Definition demo_vault : vault := {| vault_rows := ∅; vault_random := demo_rng; vault_now := 5000 |}.

Lemma stored_secret_is_read_back_witness :
  ∃ x', @store_PutSecret demo_aead demo_ring "repository" "PW" "hunter2" demo_vault = (x', Ok tt) ∧
    @store_GetSecret demo_aead demo_ring "repository" "PW" x' = (x', Ok "hunter2").
Proof.
  destruct (@stored_secret_is_read_back demo_aead demo_aead_laws demo_ring demo_ring demo_vault "repository" "PW" "hunter2")
    as (x' & Hp & Hg & _).
  - exact demo_ring_ok.
  - reflexivity.
  - intros v k Hk. exact Hk.
  - discriminate.
  - discriminate.
  - apply Nat.leb_le. reflexivity.
  - exists x'. split; [exact Hp|exact Hg].
Defined.

Definition large_ring : StaticKeyring :=
  {| keys := {[2147483648%N := key_of_version 2147483648]}; currentVer := 2147483648 |}.

Lemma large_key_versions_cannot_store_witness :
  NewStaticKeyring 2147483648 [key_of_version 2147483648] = Ok large_ring ∧
  ∃ x' e, @store_PutSecret demo_aead large_ring "repository" "PW" "hunter2" demo_vault = (x', Err e).
Proof.
  split; [vm_compute; reflexivity|].
  destruct (@large_key_versions_cannot_store demo_aead large_ring demo_vault "repository" "PW" "hunter2") as (x' & e & E & _).
  - split; [eexists; reflexivity|]. intros v k Hk. unfold large_ring in Hk. simpl in Hk.
    apply lookup_singleton_Some in Hk as [<- <-]. split; [reflexivity|]. split; [discriminate|reflexivity].
  - reflexivity.
  - discriminate.
  - discriminate.
  - apply Nat.leb_le. reflexivity.
  - exists x', e. exact E.
Defined.

Lemma deleted_secret_is_gone_witness :
  is_ok (snd (@store_GetSecret demo_aead demo_ring "repository" "PW"
    (fst (store_DeleteSecret "repository" "PW" demo_vault)))) = false.
Proof.
  destruct (store_DeleteSecret "repository" "PW" demo_vault) as [x' r] eqn:E.
  destruct (@deleted_secret_is_gone demo_aead demo_ring demo_vault x' r "repository" "PW" E) as (_ & Hg & _).
  exact Hg.
Defined.
