(* ===== verification/Identifiers.v ===== *)
(** * Identifiers (internal/run/scheduler/idgen.go)

    The identifiers are ULIDs, made by a library: [Ulid] has its functions, with
    the behaviour its documentation promises.  Proved here: the bytes
    [ulidEntropy] feeds it are the counter, most significant first, so both
    generators hand out identifiers in increasing order. *)

From Stdlib Require Import Ascii.
From S2P Require Import Prelude GoStrings RunModel StoreOps.

Local Open Scope Z_scope.

(** ** The library *)

(** [ulid_new ms e] is the text of the ULID of a time stamp and ten bytes;
    [ulid_monotonic], over the state of a [MonotonicEntropy], mints the next one
    and is [None] when the entropy overflows. *)
Class Ulid := {
  ulid_timestamp : Time → N;
  ulid_new : N → string → string;
  MonotonicEntropy : Type;
  ulid_monotonic : N → MonotonicEntropy → option (MonotonicEntropy * string);
  last_minted : MonotonicEntropy → option (N * string)
}.

(** A time stamp has 48 bits. *)
Definition maxULIDTimestamp : N := 2 ^ 48 - 1.

Class UlidLaws `{Ulid} : Prop := {
  ulid_sorts_by_entropy : ∀ m e e', (m <= maxULIDTimestamp)%N → String.length e = 10%nat → String.length e' = 10%nat →
    str_lt e e' = true → str_lt (ulid_new m e) (ulid_new m e') = true;
  ulid_timestamp_mono : ∀ t t', t <= t' → (ulid_timestamp t <= ulid_timestamp t')%N;
  ulid_monotonic_increases : ∀ ms st st' id, ulid_monotonic ms st = Some (st', id) →
    last_minted st' = Some (ms, id) ∧
    ∀ ms0 id0, last_minted st = Some (ms0, id0) → (ms0 <= ms)%N → str_lt id0 id = true
}.

(** ** The random generator *)

Section idgen.
Context `{Ulid}.

(** [IDGen.new]; [MustNew] panics on an error. *)
Definition IDGen_new (now : Time) (mon : MonotonicEntropy) : outcome unit (MonotonicEntropy * string) :=
  match ulid_monotonic (ulid_timestamp now) mon with
  | Some x => Ok x
  | None => Panic
  end.

(** The identifiers for successive readings of the clock. *)
Fixpoint mint_ids (clock : list Time) (mon : MonotonicEntropy) : outcome unit (list string) :=
  match clock with
  | [] => Ok []
  | now :: clock' =>
      match IDGen_new now mon with
      | Ok (mon', id) => match mint_ids clock' mon' with Ok ids => Ok (id :: ids) | Err e => Err e | Panic => Panic end
      | Err e => Err e
      | Panic => Panic
      end
  end.
End idgen.

(** ** The deterministic generator *)

Record FixedIDGen := { fixed_base : N; fixed_count : N }.

Definition NewFixedIDGen (ms : N) : FixedIDGen :=
  {| fixed_base := if (maxULIDTimestamp <? ms)%N then maxULIDTimestamp else ms; fixed_count := 0 |}.

(** [b[i] = byte(n >> (8 * (len(b) - 1 - i)))] *)
Definition be_byte (n : Z) (k : nat) : ascii := ascii_of_N (Z.to_N (Z.land (Z.shiftr n (8 * Z.of_nat k)) 255)).

Fixpoint be_bytes (k : nat) (n : Z) : string :=
  match k with
  | O => ""
  | S k' => String (be_byte n k') (be_bytes k' n)
  end.

(** A reader over the ten bytes: what is left of them. *)
Record byteReader := { br_bytes : string; br_pos : nat }.

Definition newByteReader (b : string) : byteReader := {| br_bytes := b; br_pos := 0 |}.

(** [Read] into a buffer of [n] bytes; [None]: io.EOF. *)
Definition br_Read (n : nat) (r : byteReader) : option (string * byteReader) :=
  if bool_decide (String.length (br_bytes r) <= br_pos r)%nat then None
  else
    let got := str_take n (str_drop (br_pos r) (br_bytes r)) in
    Some (got, {| br_bytes := br_bytes r; br_pos := br_pos r + String.length got |}).

Definition ulidEntropy (n : N) : byteReader := newByteReader (be_bytes 10 (Z.of_N n)).

Section fixed.
Context `{Ulid}.

(** [FixedIDGen.new]: the counter wraps at 64 bits; the library reads its ten
    bytes from the reader. *)
Definition FixedIDGen_new (g : FixedIDGen) : option (FixedIDGen * string) :=
  let count := ((fixed_count g + 1) mod 2 ^ 64)%N in
  match br_Read 10 (ulidEntropy count) with
  | Some (e, _) => Some ({| fixed_base := fixed_base g; fixed_count := count |}, ulid_new (fixed_base g) e)
  | None => None
  end.

Fixpoint fixed_ids (k : nat) (g : FixedIDGen) : option (list string) :=
  match k with
  | O => Some []
  | S k' => match FixedIDGen_new g with
            | Some (g', id) => match fixed_ids k' g' with Some ids => Some (id :: ids) | None => None end
            | None => None
            end
  end.
End fixed.

(** ** Big-endian bytes *)

Lemma be_bytes_length k n : String.length (be_bytes k n) = k.
Proof. induction k; simpl; by f_equal. Qed.

Lemma be_byte_value n k : 0 <= n → N_of_ascii (be_byte n k) = Z.to_N ((n / 256 ^ Z.of_nat k) mod 256).
Proof.
  intros Hn. unfold be_byte. change 255 with (Z.ones 8). rewrite Z.land_ones, Z.shiftr_div_pow2 by lia.
  change 256 with (2 ^ 8). rewrite <-Z.pow_mul_r by lia. apply N_ascii_embedding.
  pose proof (Z.mod_pos_bound (n / 2 ^ (8 * Z.of_nat k)) (2 ^ 8) ltac:(lia)). lia.
Qed.

(** The low bytes depend on the low part only. *)
Lemma be_bytes_mod k m n : 0 <= m → 0 <= n →
  m mod 256 ^ Z.of_nat k = n mod 256 ^ Z.of_nat k → be_bytes k m = be_bytes k n.
Proof.
  intros Hm Hn. induction k as [|k IH]; intros E; simpl; [done|].
  rewrite Nat2Z.inj_succ, Z.pow_succ_r in E by lia.
  assert (0 < 256 ^ Z.of_nat k) as Hp by (apply Z.pow_pos_nonneg; lia). rewrite (Z.mul_comm 256) in E.
  assert (∀ x, x mod (256 ^ Z.of_nat k * 256) = x mod 256 ^ Z.of_nat k + 256 ^ Z.of_nat k * ((x / 256 ^ Z.of_nat k) mod 256)) as Hsplit.
  { intros x. apply Z.rem_mul_r; lia. }
  rewrite !Hsplit in E.
  pose proof (Z.mod_pos_bound m _ Hp). pose proof (Z.mod_pos_bound n _ Hp).
  destruct (Z.div_mod_unique (256 ^ Z.of_nat k) ((m / 256 ^ Z.of_nat k) mod 256) ((n / 256 ^ Z.of_nat k) mod 256)
    (m mod 256 ^ Z.of_nat k) (n mod 256 ^ Z.of_nat k)) as [E2 E1]; [lia..|].
  f_equal; [|auto]. rewrite <-(ascii_N_embedding (be_byte m k)), <-(ascii_N_embedding (be_byte n k)).
  by rewrite !be_byte_value, E2.
Qed.

(** Most significant byte first: the texts are in the order of the numbers. *)
Lemma be_bytes_lt k m n : 0 <= m → m < n → n < 256 ^ Z.of_nat k → str_lt (be_bytes k m) (be_bytes k n) = true.
Proof.
  revert m n. induction k as [|k IH]; intros m n Hm Hlt Hn; [simpl in Hn; lia|].
  rewrite Nat2Z.inj_succ, Z.pow_succ_r in Hn by lia. set (p := 256 ^ Z.of_nat k) in *.
  assert (0 < p) as Hp by (apply Z.pow_pos_nonneg; lia).
  assert (m / p < 256 ∧ n / p < 256) as [Hmd Hnd] by (split; apply Z.div_lt_upper_bound; lia).
  pose proof (Z.div_pos m p Hm Hp). pose proof (Z.div_pos n p ltac:(lia) Hp).
  pose proof (Z.div_le_mono m n p Hp ltac:(lia)) as Hle.
  unfold str_lt, String.ltb. simpl. unfold Ascii.compare. rewrite !be_byte_value by lia. fold p.
  rewrite !Z.mod_small by lia. destruct (Z.eq_dec (m / p) (n / p)) as [E|Hne].
  - rewrite E, N.compare_refl. pose proof (Z.div_mod m p ltac:(lia)). pose proof (Z.div_mod n p ltac:(lia)).
    pose proof (Z.mod_pos_bound m p Hp). pose proof (Z.mod_pos_bound n p Hp).
    rewrite (be_bytes_mod k m (m mod p)), (be_bytes_mod k n (n mod p)) by (fold p; rewrite ?Z.mod_mod; lia).
    change (str_lt (be_bytes k (m mod p)) (be_bytes k (n mod p)) = true). apply IH; fold p; lia.
  - assert ((Z.to_N (m / p) ?= Z.to_N (n / p))%N = Lt) as ->; [|done]. apply N.compare_lt_iff. lia.
Qed.

(** ** The identifiers are distinct and in order *)

Definition increasing (ids : list string) : Prop := StronglySorted (fun a b => str_lt a b = true) ids.

Lemma str_lt_trans a b c : str_lt a b = true → str_lt b c = true → str_lt a c = true.
Proof.
  intros Hab Hbc. destruct (str_lt a c) eqn:E; [done|]. exfalso.
  pose proof (str_lt_asym _ _ Hab) as H1. pose proof (str_lt_asym _ _ Hbc) as H2.
  assert (a = c) as ->. { apply str_le_antisym; [|done]. by eapply str_le_trans. }
  congruence.
Qed.

Lemma increasing_NoDup ids : increasing ids → NoDup ids.
Proof.
  induction 1 as [|id ids Hs IH Hall]; constructor; [|done]. intros Hin.
  rewrite Forall_forall in Hall. specialize (Hall id Hin). pose proof (str_lt_asym _ _ Hall). congruence.
Qed.

Lemma increasing_cons id ids :
  increasing ids → (∀ x, head ids = Some x → str_lt id x = true) → increasing (id :: ids).
Proof.
  intros Hs Hh. constructor; [done|]. destruct Hs as [|x ids Hs Hall]; constructor; [by apply Hh|].
  eapply Forall_impl; [exact Hall|]. intros y Hy. eapply str_lt_trans; [by apply Hh|done].
Qed.

Section theorems.
Context `{UlidLaws}.

Lemma entropy_read n : br_Read 10 (ulidEntropy n) = Some (be_bytes 10 (Z.of_N n), {| br_bytes := be_bytes 10 (Z.of_N n); br_pos := 10 |}).
Proof.
  unfold br_Read, ulidEntropy, newByteReader. cbn [br_bytes br_pos]. rewrite be_bytes_length.
  rewrite bool_decide_eq_false_2 by lia. cbn [str_drop].
  assert (str_take 10 (be_bytes 10 (Z.of_N n)) = be_bytes 10 (Z.of_N n)) as ->; [|by rewrite be_bytes_length].
  pose proof (str_take_app (be_bytes 10 (Z.of_N n)) "") as E. by rewrite be_bytes_length, app_str_nil_r in E.
Qed.

Lemma fixed_new g :
  (fixed_count g + 1 < 2 ^ 64)%N →
  FixedIDGen_new g = Some ({| fixed_base := fixed_base g; fixed_count := fixed_count g + 1 |},
                           ulid_new (fixed_base g) (be_bytes 10 (Z.of_N (fixed_count g + 1)))).
Proof. intros Hc. unfold FixedIDGen_new. rewrite N.mod_small by done. by rewrite entropy_read. Qed.

(** The deterministic generator never fails, and its identifiers increase:
    no two of the first [2^64 - 1] are the same, whatever time stamp it is given. *)
Theorem fixed_ids_increase ms k :
  (N.of_nat k < 2 ^ 64)%N →
  ∃ ids, fixed_ids k (NewFixedIDGen ms) = Some ids ∧ length ids = k ∧ increasing ids ∧ NoDup ids.
Proof.
  intros Hk.
  assert (∀ k g, (fixed_base g <= maxULIDTimestamp)%N → (fixed_count g + N.of_nat k < 2 ^ 64)%N →
    ∃ ids, fixed_ids k g = Some ids ∧ length ids = k ∧ increasing ids ∧
      ∀ x, head ids = Some x → x = ulid_new (fixed_base g) (be_bytes 10 (Z.of_N (fixed_count g + 1)))) as Hgen.
  { clear -H0. intros k. induction k as [|k IH]; intros g Hb Hg; cbn [fixed_ids]; [exists []; split_and!; [done|done|constructor|done]|].
    rewrite fixed_new by lia. destruct (IH {| fixed_base := fixed_base g; fixed_count := fixed_count g + 1 |})
      as (ids & -> & Hl & Hinc & Hh); [done|simpl; lia|].
    eexists. split; [done|]. split; [simpl; by f_equal|]. split; [|by intros x [= <-]].
    apply increasing_cons; [done|]. intros x Hx. rewrite (Hh x Hx). cbn [fixed_base fixed_count].
    apply ulid_sorts_by_entropy; [done|apply be_bytes_length..|]. apply be_bytes_lt; [lia..|].
    destruct ids as [|y ids]; [done|]. destruct k; [done|]. change (256 ^ Z.of_nat 10) with (2 ^ 80). lia. }
  destruct (Hgen k (NewFixedIDGen ms)) as (ids & E & Hl & Hinc & _); [|simpl; lia|].
  { unfold NewFixedIDGen. simpl. destruct (N.ltb_spec maxULIDTimestamp ms); lia. }
  exists ids. split_and!; try done. by apply increasing_NoDup.
Qed.

(** While the clock does not go back, the random generator's identifiers
    increase too. *)
Theorem random_ids_increase clock mon ids :
  StronglySorted Z.le clock → last_minted mon = None → mint_ids clock mon = Ok ids → increasing ids ∧ NoDup ids.
Proof.
  intros Hc Hl E.
  assert (∀ clock mon ids, StronglySorted Z.le clock →
    (∀ ms id, last_minted mon = Some (ms, id) → ∀ t, t ∈ clock → (ms <= ulid_timestamp t)%N) →
    mint_ids clock mon = Ok ids →
    increasing ids ∧ ∀ ms id x, last_minted mon = Some (ms, id) → head ids = Some x → str_lt id x = true) as Hgen.
  { clear -H0. intros clock. induction clock as [|t clock IH]; intros mon ids Hs Hlast; simpl.
    { intros [= <-]. by split; [constructor|]. }
    unfold IDGen_new. destruct (ulid_monotonic _ mon) as [[mon' id]|] eqn:Em; [|done].
    destruct (mint_ids clock mon') as [ids'|e|] eqn:Er; [|done..]. intros [= <-].
    destruct (ulid_monotonic_increases _ _ _ _ Em) as [Hl' Hgt].
    inversion Hs as [|? ? Hs' Hall]; subst. rewrite Forall_forall in Hall.
    destruct (IH mon' ids' Hs') as [Hinc Hhead]; [|done|].
    { intros ms id0 E t' Ht'. rewrite Hl' in E. injection E as <- <-. apply ulid_timestamp_mono. by apply Hall. }
    split.
    - apply increasing_cons; [done|]. intros x. by apply Hhead with (ms := ulid_timestamp t).
    - intros ms id0 x Elast [= <-]. eapply Hgt; [exact Elast|]. eapply Hlast; [exact Elast|set_solver]. }
  destruct (Hgen clock mon ids Hc) as [Hinc _]; [by rewrite Hl|done|]. split; [done|by apply increasing_NoDup].
Qed.
End theorems.

(** ** A concrete library *)

Definition binary_ulid (ms count : N) : string := be_bytes 16 (Z.of_N (ms * 2 ^ 80 + count)).

Definition demo_ulid : Ulid := {|
  ulid_timestamp := fun t => Z.to_N (t / 1000000);
  ulid_new := fun ms e => be_bytes 6 (Z.of_N ms) +:+ e;
  MonotonicEntropy := option (N * N);
  ulid_monotonic := fun ms st =>
    let count := match st with Some (_, c) => (c + 1)%N | None => 0%N end in
    if (ms <? 2 ^ 48)%N && (count <? 2 ^ 80)%N then Some (Some (ms, count), binary_ulid ms count) else None;
  last_minted := fun st => match st with Some (ms, c) => Some (ms, binary_ulid ms c) | None => None end
|}.

Lemma str_lt_app p a b : str_lt (p +:+ a) (p +:+ b) = str_lt a b.
Proof.
  induction p as [|c p IH]; [done|]. rewrite <-IH. unfold str_lt, String.ltb. simpl.
  unfold Ascii.compare. by rewrite N.compare_refl.
Qed.

Lemma demo_ulid_laws : @UlidLaws demo_ulid.
Proof.
  split; cbn [ulid_new ulid_timestamp ulid_monotonic last_minted demo_ulid].
  - intros m e e' _ _ _ Hlt. by rewrite str_lt_app.
  - intros t t' Hle. pose proof (Z.div_le_mono t t' 1000000 ltac:(lia) Hle). lia.
  - intros ms st st' id. set (count := match st with Some (_, c) => _ | None => _ end).
    destruct (N.ltb_spec ms (2 ^ 48)); [|done]. destruct (N.ltb_spec count (2 ^ 80)); [|done].
    intros [= <- <-]. split; [done|]. intros ms0 id0. destruct st as [[m c]|]; [|done]. intros [= <- <-] Hle.
    unfold binary_ulid. apply be_bytes_lt; unfold count in *; [lia..|]. change (256 ^ Z.of_nat 16) with (2 ^ 128). nia.
Qed.

Lemma fixed_ids_increase_witness :
  ∃ ids, @fixed_ids demo_ulid 5 (NewFixedIDGen (2 ^ 60)) = Some ids ∧ length ids = 5%nat ∧ NoDup ids.
Proof.
  destruct (@fixed_ids_increase demo_ulid demo_ulid_laws (2 ^ 60) 5) as (ids & E & Hl & _ & Hnd).
  - reflexivity.
  - exists ids. split; [exact E|split; [exact Hl|exact Hnd]].
Defined.

Lemma random_ids_increase_witness :
  ∃ ids, @mint_ids demo_ulid [1000; 1000; 2000000] None = Ok ids ∧ NoDup ids.
Proof.
  destruct (@mint_ids demo_ulid [1000; 1000; 2000000] None) as [ids|e|] eqn:E; [|vm_compute in E; discriminate E..].
  exists ids. split; [reflexivity|].
  apply (@random_ids_increase demo_ulid demo_ulid_laws [1000; 1000; 2000000] None ids).
  - repeat constructor; lia.
  - reflexivity.
  - exact E.
Defined.
