(* ===== verification/Programs.v ===== *)
(** * The programs (cmd/server, cmd/minttoken, cmd/secretctl, server.NewServer)

    The decisions of the server's [main] from the flags to a wired server: what is
    refused and with which exit code, and which port each option gets.  The
    operating system, the database driver, the S3 client, the cluster clients and
    the PEM and X.509 decoders are the class [Platform].  Logging and metrics are
    left out; what the server does with its ports is in [Server] and [ServerApi],
    its loops in [ServerThreads].  The workflows of a local directory are read by
    [load].  The controller's [main] is [controller_main] over the manager of
    controller-runtime, the class [ManagerPlatform].

    [minttoken] mints a token with the key of the server; [secretctl] manages the
    sealed secrets over the server's API.  Flag parsing is that of the standard
    library, so the programs start from the values of their flags; [secretctl] is
    a client of [Http.HttpClient] with its JSON in a class. *)

From Stdlib Require Import Ascii.
From stdpp Require Import pretty.
From S2P Require Import Prelude GoStrings RunModel SchedulerPort Identity Authorization Secrets ObjectStore Server ServerApi Controller Http.
From S2P Require Import FilePath Schedule GitHubClients.

Local Open Scope go_scope.

(** The errors of the outside are texts; [None] is success where there is no
    result. *)
Class Platform := {
  RsaKey : Type;
  RestConfig : Type;
  read_file : string → string + string;
  otlp_exporter : string → option string;
  otlp_resource : option string;
  pool_open : string → option string;
  (** one of the two statements of the migration *)
  pool_exec : string → nat → option string;
  minio_client : string → string → string → bool → option string;
  bucket_exists : string → string + bool;
  make_bucket : string → option string;
  pem_block : string → option string;
  parse_pkcs1 : string → option RsaKey;
  parse_pkcs8 : string → string + option RsaKey; (** [None]: another kind of key *)
  load_kubeconfig : string → string + RestConfig;
  in_cluster_config : string + RestConfig;
  cluster_client : RestConfig → option string;
  clientset : RestConfig → option string;
  get_pod : RestConfig → string → string → outcome string Pod;
  token_review : RestConfig → string → list string → outcome string ReviewStatus
}.

(** ** Flags *)

Record ServerFlags := {
  fSecret : string;
  fDir : string;
  fDBURL : string;
  fTokenKey : string;
  fDetails : string;
  fAPIBaseURL : string;
  fGHToken : string;
  fAppID : Z;
  fInstallationID : Z;
  fAppKeyPath : string;
  fScheduledRepos : string;
  fExecutorAuth : string;
  fKubeconfig : string;
  fOTLPEndpoint : string;
  fActiveStore : string;
  fJobsNS : string;
  fS3Endpoint : string;
  fS3Bucket : string;
  fS3AccessKey : string;
  fS3SecretKey : string;
  fS3UseSSL : bool;
  fSecretKeyFile : string
}.

(** The exit status, and what is printed or the error that is logged. *)
Record Exit := { exit_status : Z; exit_message : string }.

Definition exit_with {Y} (status : Z) (msg : string) : outcome Exit Y := Err {| exit_status := status; exit_message := msg |}.

(** Go on with a result; an error ends the program. *)
Definition or_exit {Y} (status : Z) (r : string + Y) : outcome Exit Y :=
  match r with inl e => exit_with status e | inr y => Ok y end.

Definition checked (e : option string) : string + unit := match e with Some e => inl e | None => inr tt end.

Definition prefixed {Y} (what : string) (r : string + Y) : string + Y :=
  match r with inl e => inl (what +:+ e) | inr y => inr y end.

Definition sum_bind {Y Z} (r : string + Y) (k : Y → string + Z) : string + Z :=
  match r with inl e => inl e | inr y => k y end.

Section main.
Context `{Unicode} `{Platform}.

(** ** Ports *)

Inductive TokenSource := StaticToken (token : string) | AppTokens (auth : AppAuth) (key : RsaKey).

Inductive Reporter := LogReporter | GitHubReporter (base : string) (tokens : TokenSource).

(** A store over a pool, with its source of identifiers. *)
Record PostgresStore := { pool_url : string; pool_ids : nat → string }.

Inductive DurableChoice := MemoryDurable | PostgresDurable (s : PostgresStore).

Inductive ActiveChoice := MemoryActive | KubernetesActive (cfg : RestConfig) (namespace : string).

Inductive VerifierChoice := LocalTokens (key : string) (skew : Z) | ReviewedTokens (cfg : RestConfig) (v : Verifier).

Record S3Store := { s3_endpoint : string; s3_bucket : string }.

(** [server.Options]; [None] is nil. *)
Record Options := {
  oWebhookSecret : string;
  oWorkflowsDir : string;
  oWorkflowFetcher : option (string * TokenSource);
  oScheduledRepos : list ScheduledRepo;
  oSecretValues : gmap string string;
  oSecretStore : option (PostgresStore * StaticKeyring);
  oCheckReporter : option Reporter;
  oActive : option ActiveChoice;
  oDurable : option DurableChoice;
  oS3 : option S3Store;
  oVerifier : option VerifierChoice;
  oIssuer : option string;               (** the key of the local issuer *)
  oTokenKey : string;
  oDetailsBaseURL : string
}.

(** What [NewServer] wires; the rest of the server starts empty. *)
Record Wiring := {
  wOptions : Options;
  wDurable : DurableChoice;
  wActive : ActiveChoice;
  wReporter : Reporter;
  wVerifier : VerifierChoice;
  wIssuer : string;
  wScheduled : bool
}.

Definition NewServer (opts : Options) : string + Wiring :=
  match oCheckReporter opts with
  | None => inl "server: CheckReporter is required"
  | Some reporter =>
      if bool_decide (oTokenKey opts = "") && (bool_decide (oVerifier opts = None) || bool_decide (oIssuer opts = None))
      then inl "server: TokenKey required for local identity"
      else inr {|
        wOptions := opts;
        wDurable := default MemoryDurable (oDurable opts);
        wActive := default MemoryActive (oActive opts);
        wReporter := reporter;
        wVerifier := default (LocalTokens (oTokenKey opts) (30 * 1000000000)) (oVerifier opts);
        wIssuer := default (oTokenKey opts) (oIssuer opts);
        wScheduled := negb (bool_decide (length (oScheduledRepos opts) = 0))
      |}
  end.

(** ** Parts of main *)

(** [tracing.Setup]: is anything exported? *)
Definition Setup (endpoint : string) : string + bool :=
  if bool_decide (endpoint = "") then inr false
  else sum_bind (prefixed "tracing: otlp exporter: " (checked (otlp_exporter endpoint))) (fun _ =>
       sum_bind (prefixed "tracing: resource: " (checked otlp_resource)) (fun _ => inr true)).

(** [postgres.Migrate] and [postgres.New]. *)
Definition Migrate (url : string) : string + unit :=
  sum_bind (prefixed "postgres migrate: " (checked (pool_exec url 0))) (fun _ =>
  prefixed "postgres migrate condition: " (checked (pool_exec url 1))).

Definition postgres_New (url : string) (ids : option (nat → string)) : string + PostgresStore :=
  match ids with
  | None => inl "postgres: id source required"
  | Some ids =>
      sum_bind (prefixed "postgres: pool: " (checked (pool_open url))) (fun _ =>
      sum_bind (Migrate url) (fun _ => inr {| pool_url := url; pool_ids := ids |}))
  end.

(** [s3store.New] and [EnsureBucket]. *)
Definition s3_New (endpoint access secret bucket : string) (ssl : bool) : string + S3Store :=
  sum_bind (prefixed "s3: new client: " (checked (minio_client endpoint access secret ssl))) (fun _ =>
  inr {| s3_endpoint := endpoint; s3_bucket := bucket |}).

Definition EnsureBucket (bucket : string) : string + unit :=
  sum_bind (prefixed "s3: bucket exists: " (bucket_exists bucket)) (fun exists_ =>
  if exists_ : bool then inr tt else prefixed "s3: make bucket: " (checked (make_bucket bucket))).

(** *** GitHub credentials *)

Definition loadAppKey (path : string) : string + RsaKey :=
  sum_bind (prefixed "read app key: " (read_file path)) (fun raw =>
  match pem_block raw with
  | None => inl ("app key " +:+ path +:+ ": no PEM block")
  | Some block =>
      match parse_pkcs1 block with
      | Some k => inr k
      | None =>
          sum_bind (prefixed "parse app key: " (parse_pkcs8 block)) (fun k =>
          match k with
          | Some rsaKey => inr rsaKey
          | None => inl ("app key " +:+ path +:+ ": not an RSA private key")
          end)
      end
  end).

Definition NewAppAuth (appID installationID : Z) (key : RsaKey) (baseURL : string) : TokenSource :=
  AppTokens {| AppID := appID; InstallationID := installationID;
               AuthBaseURL := if bool_decide (baseURL = "") then DefaultBaseURL else baseURL |} key.

Definition githubTokens (token : string) (appID installationID : Z) (keyPath : string) : string + option TokenSource :=
  let app := negb (bool_decide (appID = 0%Z)) || negb (bool_decide (installationID = 0%Z)) || negb (bool_decide (keyPath = "")) in
  if negb (bool_decide (token = "")) && app
  then inl "set either -github-token or -github-app-id/-github-installation-id/-github-app-key, not both"
  else if negb (bool_decide (token = "")) then inr (Some (StaticToken token))
  else if app then
    if bool_decide (appID = 0%Z) || bool_decide (installationID = 0%Z) || bool_decide (keyPath = "")
    then inl "-github-app-id, -github-installation-id and -github-app-key are required together"
    else sum_bind (loadAppKey keyPath) (fun appKey => inr (Some (NewAppAuth appID installationID appKey "")))
  else inr None.

(** *** The cluster *)

Definition jobNamespace : string := "forgelet-jobs".

Definition config_of (kubeconfig : string) : string + RestConfig :=
  if bool_decide (kubeconfig ≠ "") then prefixed "load kubeconfig: " (load_kubeconfig kubeconfig)
  else match in_cluster_config with
       | inl e => inl ("in-cluster config: " +:+ e +:+ " (run inside the cluster or pass -kubeconfig)")
       | inr cfg => inr cfg
       end.

(** [kubernetesConfig] leaves the program on an error. *)
Definition kubernetesConfig (kubeconfig : string) : outcome Exit RestConfig := or_exit 1 (prefixed "server: " (config_of kubeconfig)).

Definition tokenReviewVerifier (kubeconfig : string) : string + VerifierChoice :=
  sum_bind (config_of kubeconfig) (fun cfg =>
  sum_bind (prefixed "kubernetes client: " (checked (clientset cfg))) (fun _ =>
  inr (ReviewedTokens cfg {|
    VAudience := Audience;
    VNamespace := jobNamespace;
    VSAName := "forgelet-executor";
    VScopes := [ScopePlanRead; ScopeSecretsRead; ScopeStatusWrite];
    VBindings := Some (PodLabelBindings (get_pod cfg) DefaultJobRunLabel) |}))).

(** ** The steps of main *)

Definition token_key (f : ServerFlags) : outcome Exit string :=
  if bool_decide (fSecret f = "") || bool_decide (fTokenKey f = "")
  then exit_with 2 "server: -webhook-secret and -token-key are required"
  else match hex_decode (fTokenKey f) with
       | Some key =>
           if bool_decide (String.length key < 32) then exit_with 2 "server: -token-key must be at least 32 bytes of hex"
           else Ok key
       | None => exit_with 2 "server: -token-key must be at least 32 bytes of hex"
       end.

Definition durable_store (f : ServerFlags) : outcome Exit DurableChoice :=
  if bool_decide (fDBURL f ≠ "")
  then let! s := or_exit 1 (postgres_New (fDBURL f) None) in Ok (PostgresDurable s)
  else Ok MemoryDurable.

Definition s3_store (f : ServerFlags) : outcome Exit (option S3Store) :=
  if bool_decide (fS3Endpoint f = "") then Ok None
  else if bool_decide (fS3AccessKey f = "") || bool_decide (fS3SecretKey f = "")
  then exit_with 2 "server: -s3-access-key and -s3-secret-key are required with -s3-endpoint"
  else let! s := or_exit 1 (s3_New (fS3Endpoint f) (fS3AccessKey f) (fS3SecretKey f) (fS3Bucket f) (fS3UseSSL f)) in
       let! _ := or_exit 1 (EnsureBucket (s3_bucket s)) in
       Ok (Some s).

(** The keyring is used only with PostgreSQL. *)
Definition secret_store (f : ServerFlags) (durable : DurableChoice) : outcome Exit (option (PostgresStore * StaticKeyring)) :=
  if bool_decide (fSecretKeyFile f = "") then Ok None
  else
    let file := match read_file (fSecretKeyFile f) with inl e => Err e | inr d => Ok d end in
    match NewFileKeyring file with
    | Ok kr => match durable with PostgresDurable s => Ok (Some (s, kr)) | MemoryDurable => Ok None end
    | _ => exit_with 1 "secret key file"
    end.

(** [None]: the server falls back to the in-memory store. *)
Definition active_store (f : ServerFlags) : outcome Exit (option ActiveChoice) :=
  if bool_decide (fActiveStore f = "kubernetes") then
    let! cfg := kubernetesConfig (fKubeconfig f) in
    let! _ := or_exit 1 (checked (cluster_client cfg)) in
    Ok (Some (KubernetesActive cfg (fJobsNS f)))
  else if bool_decide (fActiveStore f = "memory") then Ok None
  else exit_with 2 ("server: unknown -active-store " +:+ quote (fActiveStore f)).

Definition executor_verifier (f : ServerFlags) : outcome Exit (option VerifierChoice) :=
  if bool_decide (fExecutorAuth f = "tokenreview")
  then let! v := or_exit 1 (tokenReviewVerifier (fKubeconfig f)) in Ok (Some v)
  else Ok None.

Definition server_main (f : ServerFlags) : outcome Exit Wiring :=
  let! key := token_key f in
  let! tokens := or_exit 2 (prefixed "server: " (githubTokens (fGHToken f) (fAppID f) (fInstallationID f) (fAppKeyPath f))) in
  let! repos := or_exit 2 (prefixed "server: " (parseRepos (fScheduledRepos f))) in
  let! _ := or_exit 1 (Setup (fOTLPEndpoint f)) in
  let! durable := durable_store f in
  let! s3Store := s3_store f in
  let! secretStore := secret_store f durable in
  let! active := active_store f in
  let! verifier := executor_verifier f in
  or_exit 1 (NewServer {|
    oWebhookSecret := fSecret f;
    oWorkflowsDir := fDir f;
    oWorkflowFetcher := (fun t => (fAPIBaseURL f, t)) <$> tokens;
    oScheduledRepos := repos;
    oSecretValues := ∅;
    oSecretStore := secretStore;
    oCheckReporter := Some (match tokens with Some t => GitHubReporter (fAPIBaseURL f) t | None => LogReporter end);
    oActive := active;
    oDurable := Some durable;
    oS3 := s3Store;
    oVerifier := verifier;
    oIssuer := None;
    oTokenKey := key;
    oDetailsBaseURL := fDetails f |}).

(** ** The verifier as the server calls it *)

Definition verify_token `{TokenCodec} (v : VerifierChoice) (now : Time) (raw : string)
    : outcome (IdentityError + ReviewErr) Identity :=
  match v with
  | LocalTokens key skew =>
      match VerifyLocal key now skew raw with Ok id => Ok id | Err e => Err (inl e) | Panic => Panic end
  | ReviewedTokens cfg rv =>
      match VerifyReview (token_review cfg) rv now raw with Ok id => Ok id | Err e => Err (inr e) | Panic => Panic end
  end.
End main.

(** ** After the start *)

(** How [ListenAndServe] returned: shut down, or with another error. *)
Inductive ServeEnd := ServerClosed | ServeFailed (msg : string).

Definition serving_ends (e : ServeEnd) : outcome Exit unit :=
  match e with ServerClosed => Ok tt | ServeFailed msg => exit_with 1 msg end.

(** [logReporter]: nothing is reported to a provider, and nothing fails. *)
Definition log_Report (run : RunRecord) (check : Reports.Check) : option string := None.

(** ** Workflow files *)

(** The directory: the names in it, whether a path is a regular file ([None]: stat
    failed), what a file holds. *)
Class WorkflowDir := {
  read_dir : string → string + list string;
  stat_regular : string → option bool;
  read_data : string → string + string
}.

Section workflow_files.
Context `{WorkflowDir}.

Definition is_regular (dir name : string) : bool := default false (stat_regular (Join dir name)).

Fixpoint read_all (dir : string) (names : list string) : outcome string (list WorkflowFile) :=
  match names with
  | [] => Ok []
  | name :: rest =>
      match read_data (Join dir name) with
      | inl e => Err ("read " +:+ name +:+ ": " +:+ e)
      | inr data => let! out := read_all dir rest in Ok ({| FName := name; FData := data |} :: out)
      end
  end.

Definition readDirSorted (dir : string) : outcome string (list WorkflowFile) :=
  match read_dir dir with
  | inl e => Err ("read " +:+ dir +:+ ": " +:+ e)
  | inr entries => read_all dir (sort_strings (List.filter (is_regular dir) entries))
  end.

Definition is_yaml (f : WorkflowFile) : bool := has_suffix (FName f) ".yml" || has_suffix (FName f) ".yaml".

Definition listYAML (dir : string) : outcome string (list WorkflowFile) :=
  if bool_decide (dir = "") then Err "workflows dir not configured"
  else let! entries := readDirSorted dir in Ok (List.filter is_yaml entries).

(** [workflowSource.load] *)
Definition load (fetcher : option (RepositoryRef → string → outcome string (list WorkflowFile)))
    (dir : string) (repo : RepositoryRef) (ref : string) : outcome string (list WorkflowFile) :=
  match fetcher with
  | Some fetch => fetch repo ref
  | None => listYAML dir
  end.
End workflow_files.

(** ** The controller *)

Record ControllerFlags := {
  cAPIURL : string;
  cToken : string;
  cMetrics : bool;
  cJobsNS : string
}.

Definition metricOpts (enabled : bool) : string := if enabled then ":8080" else "0".

(** controller-runtime: the cluster's configuration, the manager (with the
    namespaces of its cache and the addresses it binds), what is registered with it
    and how it ends. *)
Class ManagerPlatform := {
  MgrConfig : Type;
  get_config : string + MgrConfig;
  new_manager : MgrConfig → list string → string → string → option string;
  setup_reconciler : option string;
  add_healthz : option string;
  manager_start : option string
}.

Record ControllerWiring := {
  cwNamespaces : list string;   (** the namespaces the cache watches *)
  cwProbes : string;
  cwMetrics : string;
  cwProjection : string * string  (** the base URL and the token of [HTTPProjection] *)
}.

Definition controller_main `{ManagerPlatform} (f : ControllerFlags) : outcome Exit ControllerWiring :=
  if bool_decide (cToken f = "") then exit_with 2 "controller: -token is required"
  else
    let! cfg := or_exit 1 get_config in
    let! _ := or_exit 1 (checked (new_manager cfg [cJobsNS f] ":8081" (metricOpts (cMetrics f)))) in
    let! _ := or_exit 1 (checked setup_reconciler) in
    let! _ := or_exit 1 (checked add_healthz) in
    Ok {| cwNamespaces := [cJobsNS f]; cwProbes := ":8081"; cwMetrics := metricOpts (cMetrics f);
          cwProjection := (cAPIURL f, cToken f) |}.

(** The manager runs until it is told to stop. *)
Definition controller_ends `{ManagerPlatform} : outcome Exit unit := or_exit 1 (checked manager_start).

(** ** The small programs *)

(** ** minttoken *)

Record MintFlags := {
  mKeyHex : string;
  mNamespace : string;
  mPodUID : string;
  mJobRunID : string;
  mScopes : string;
  mTTL : Z
}.

Definition mint_identity (f : MintFlags) (now : Time) : Identity :=
  let expires := (now + mTTL f)%Z in
  {| IdAudience := Audience;
     IdNamespace := mNamespace f;
     IdPodUID := mPodUID f;
     IdJobRunID := if bool_decide (mJobRunID f = "") then "controller" else mJobRunID f;
     IdScopes := split_on ","%char (mScopes f);
     IdTokenID := "";
     IdIssuedAt := now;
     IdExpiresAt := if bool_decide (now + MaxTTL < expires)%Z then (now + MaxTTL)%Z else expires |}.

Definition minttoken_main `{TokenCodec} (f : MintFlags) (now : Time) (rng : outcome string string) : outcome Exit string :=
  if bool_decide (mKeyHex f = "") then exit_with 2 "minttoken: -key is required"
  else match hex_decode (mKeyHex f) with
       | None => exit_with 2 "minttoken: -key must be at least 32 bytes of hex"
       | Some key =>
           if bool_decide (String.length key < 32) then exit_with 2 "minttoken: -key must be at least 32 bytes of hex"
           else match Issue key now now rng (mint_identity f now) with
                | Ok token => Ok token
                | Err _ => exit_with 1 "minttoken"
                | Panic => Panic
                end
       end.

(** ** secretctl *)

(** The command with its flags. *)
Inductive SecretCommand :=
  | CmdSet (server scope name value valueFile : string)
  | CmdList (server : string)
  | CmdDelete (server scope name : string)
  | CmdUnknown (cmd : string)
  | CmdNone.

Class SecretctlJSON := {
  enc_secret : string → string → string → string;
  dec_infos : string → string + list (string * string)
}.

Section secretctl.
Context `{Unicode} {W : Type} `{HttpClient W} `{SecretctlJSON}.
(** The files, and what is piped into the standard input ([None]: a terminal). *)
Context (files : string → string + string) (stdin : option string).

Definition plain_request (method url : string) (body : option string) : HttpRequest := {|
  ReqMethod := method; ReqURL := url; ReqAuth := ""; ReqAccept := None;
  ReqContentType := (fun _ => "application/json") <$> body; ReqBody := body |}.

(** A request whose answer is not 200 is an error. *)
Definition exchange (r : HttpRequest) (w : W) : W * (string + string) :=
  match request_error (ReqMethod r) (ReqURL r) with
  | Some e => (w, inl e)
  | None =>
      match http_do r w with
      | (w', inl e) => (w', inl e)
      | (w', inr (status, body)) =>
          if bool_decide (status = 200%Z) then (w', inr body)
          else (w', inl ("status " +:+ pretty status +:+ ": " +:+ body))
      end
  end.

Definition doSet (server scope name value : string) (w : W) : W * (string + unit) :=
  match exchange (plain_request "POST" (server +:+ "/api/secrets") (Some (enc_secret scope name value))) w with
  | (w', inl e) => (w', inl e)
  | (w', inr _) => (w', inr tt)
  end.

(** The lines printed. *)
Definition doList (server : string) (w : W) : W * (string + list string) :=
  match exchange (plain_request "GET" (server +:+ "/api/secrets") None) w with
  | (w', inl e) => (w', inl e)
  | (w', inr body) =>
      match dec_infos body with
      | inl e => (w', inl e)
      | inr infos => (w', inr (map (fun s => fst s +:+ "/" +:+ snd s) infos))
      end
  end.

Definition doDelete (server scope name : string) (w : W) : W * (string + unit) :=
  match exchange (plain_request "DELETE" (server +:+ "/api/secrets/" +:+ scope +:+ "/" +:+ name) None) w with
  | (w', inl e) => (w', inl e)
  | (w', inr _) => (w', inr tt)
  end.

(** The value of [set]: the file, else the flag, else what is piped in. *)
Definition value_to_set (value valueFile : string) : outcome Exit string :=
  let! val :=
    if bool_decide (valueFile ≠ "") then
      match files valueFile with
      | inl e => exit_with 1 ("read value-file: " +:+ e)
      | inr b => Ok (trim_space b)
      end
    else if bool_decide (value = "") then Ok (match stdin with Some b => trim_space b | None => "" end)
    else Ok value in
  if bool_decide (val = "") then exit_with 2 "secretctl set: --value or --value-file or stdin is required" else Ok val.

Definition finished {Y} (what : string) (out : Y → list string) (r : W * (string + Y)) : W * outcome Exit (list string) :=
  match r with
  | (w', inl e) => (w', exit_with 1 (what +:+ e))
  | (w', inr y) => (w', Ok (out y))
  end.

Definition secretctl_main (c : SecretCommand) (w : W) : W * outcome Exit (list string) :=
  match c with
  | CmdNone => (w, exit_with 2 "usage")
  | CmdUnknown _ => (w, exit_with 2 "unknown command")
  | CmdSet server scope name value valueFile =>
      if bool_decide (name = "") then (w, exit_with 2 "secretctl set: --name is required")
      else match value_to_set value valueFile with
           | Ok val => finished "set: " (fun _ => ["secret " +:+ scope +:+ "/" +:+ name +:+ " set"]) (doSet server scope name val w)
           | Err e => (w, Err e)
           | Panic => (w, Panic)
           end
  | CmdList server => finished "list: " Datatypes.id (doList server w)
  | CmdDelete server scope name =>
      if bool_decide (name = "") then (w, exit_with 2 "secretctl delete: --name is required")
      else finished "delete: " (fun _ => ["secret " +:+ scope +:+ "/" +:+ name +:+ " deleted"]) (doDelete server scope name w)
  end.
End secretctl.
