(* ===== verification/ProgramTheorems.v ===== *)
(** * What a started server is, and secretctl against it

    Whatever the flags, the database is never used, so the sealed secrets are not
    available either; the keys that were checked are the keys that are used; and
    who may report an observation depends on the verifier that was chosen.

    The requests of secretctl go through the router ([OperatorWire]) to the secret
    endpoints of [ServerApi].  On a server with a sealed store a secret that was
    set is stored and listed until it is deleted; on the server that [main]
    starts, which never has one, every command fails. *)

From Stdlib Require Import Ascii.
From S2P Require Import Prelude GoStrings RunModel SchedulerPort MemoryStore StoreInvariant StoreOps Identity Authorization Secrets.
From S2P Require Import Plans Reports ObjectStore Server ServerConditions ServerApi ServerApiTheorems Executor FilePath HashFiles Controller Http Schedule.
From S2P Require Import ExecutorClient ExecutorServer GitHubClients Postgres PostgresSecrets Programs.

Local Open Scope go_scope.

Section start.
Context `{Unicode} `{Platform}.

(** ** The steps *)

Lemma obind_Ok {E Y Z} (m : outcome E Y) (k : Y → outcome E Z) z :
  obind m k = Ok z → ∃ y, m = Ok y ∧ k y = Ok z.
Proof. destruct m; [|done..]. eauto. Qed.

Lemma or_exit_Ok {Y} status (r : string + Y) y : or_exit status r = Ok y → r = inr y.
Proof. destruct r; [done|]. by intros [= ->]. Qed.

(** An exit carries a status that is not zero. *)
Definition fails_properly {Y} (r : outcome Exit Y) : Prop :=
  match r with Ok _ => True | Err e => exit_status e ≠ 0%Z | Panic => False end.

Lemma obind_fails {Y Z} (m : outcome Exit Y) (k : Y → outcome Exit Z) :
  fails_properly m → (∀ y, m = Ok y → fails_properly (k y)) → fails_properly (obind m k).
Proof. destruct m; simpl; auto. Qed.

Lemma or_exit_fails {Y} status (r : string + Y) : status ≠ 0%Z → fails_properly (or_exit status r).
Proof. by destruct r. Qed.

Lemma token_key_Ok f key :
  token_key f = Ok key →
  fSecret f ≠ "" ∧ hex_decode (fTokenKey f) = Some key ∧ 32 ≤ String.length key.
Proof.
  unfold token_key. destruct (_ || _) eqn:E; [done|]. breflect. destruct (hex_decode _) as [k|]; [|done].
  case_bool_decide; [done|]. intros [= ->]. split_and!; [done..|lia].
Qed.

Lemma token_key_fails f : fails_properly (token_key f).
Proof. unfold token_key. repeat case_match; try done; by case_bool_decide. Qed.

Lemma durable_store_Ok f d : durable_store f = Ok d → fDBURL f = "" ∧ d = MemoryDurable.
Proof. unfold durable_store. case_bool_decide as Hd; [done|]. intros [= <-]. split; [|done]. by destruct (decide (fDBURL f = "")). Qed.

Lemma s3_store_fails f : fails_properly (s3_store f).
Proof.
  unfold s3_store. case_bool_decide; [done|]. destruct (_ || _); [done|].
  apply obind_fails; [by apply or_exit_fails|]. intros s _. apply obind_fails; [by apply or_exit_fails|done].
Qed.

Lemma secret_store_fails f d : fails_properly (secret_store f d).
Proof. unfold secret_store. case_bool_decide; [done|]. repeat case_match; done. Qed.

Lemma secret_store_memory f s : secret_store f MemoryDurable = Ok s → s = None.
Proof. unfold secret_store. case_bool_decide; [by intros [= <-]|]. case_match; [|done..]. by intros [= <-]. Qed.

Lemma active_store_fails f : fails_properly (active_store f).
Proof.
  unfold active_store. repeat case_bool_decide; try done.
  apply obind_fails; [by apply or_exit_fails|]. intros cfg _. apply obind_fails; [by apply or_exit_fails|done].
Qed.

(** ** Exits *)

(** Every exit of [main] has a status that tells of the failure. *)
Lemma server_main_fails f : fails_properly (server_main f).
Proof.
  unfold server_main. apply obind_fails; [apply token_key_fails|]. intros key _.
  apply obind_fails; [by apply or_exit_fails|]. intros tokens _.
  apply obind_fails; [by apply or_exit_fails|]. intros repos _.
  apply obind_fails; [by apply or_exit_fails|]. intros _ _.
  apply obind_fails; [unfold durable_store; case_bool_decide; [|done]; apply obind_fails; [by apply or_exit_fails|done]|].
  intros d _. apply obind_fails; [apply s3_store_fails|]. intros s3 _.
  apply obind_fails; [apply secret_store_fails|]. intros sec _.
  apply obind_fails; [apply active_store_fails|]. intros act _.
  apply obind_fails; [|intros v _; by apply or_exit_fails].
  unfold executor_verifier. case_bool_decide; [|done]. apply obind_fails; [by apply or_exit_fails|done].
Qed.

(** What a started server is made of. *)
Record started (f : ServerFlags) (w : Wiring) : Prop := {
  st_secret : oWebhookSecret (wOptions w) = fSecret f ∧ fSecret f ≠ "";
  st_key : hex_decode (fTokenKey f) = Some (oTokenKey (wOptions w)) ∧ 32 ≤ String.length (oTokenKey (wOptions w));
  st_issuer : wIssuer w = oTokenKey (wOptions w);
  st_durable : fDBURL f = "" ∧ wDurable w = MemoryDurable;
  st_secrets : oSecretStore (wOptions w) = None ∧ oSecretValues (wOptions w) = ∅;
  st_details : oDetailsBaseURL (wOptions w) = fDetails f;
  st_repos : parseRepos (fScheduledRepos f) = inr (oScheduledRepos (wOptions w));
  st_s3 : s3_store f = Ok (oS3 (wOptions w));
  st_active : ∃ a, active_store f = Ok a ∧ wActive w = default MemoryActive a;
  st_verifier :
    if bool_decide (fExecutorAuth f = "tokenreview")
    then tokenReviewVerifier (fKubeconfig f) = inr (wVerifier w)
    else wVerifier w = LocalTokens (oTokenKey (wOptions w)) (30 * 1000000000);
  st_reporter : ∃ tokens, githubTokens (fGHToken f) (fAppID f) (fInstallationID f) (fAppKeyPath f) = inr tokens ∧
    wReporter w = match tokens with Some t => GitHubReporter (fAPIBaseURL f) t | None => LogReporter end
}.

Lemma prefixed_inr {Y} what (r : string + Y) y : prefixed what r = inr y → r = inr y.
Proof. destruct r; [done|]. by intros [= ->]. Qed.

Lemma server_main_Ok f w : server_main f = Ok w → started f w.
Proof.
  unfold server_main. intros (key & Hkey & E)%obind_Ok. apply token_key_Ok in Hkey as (Hsec & Hkey & Hlen).
  apply obind_Ok in E as (tokens & Htok%or_exit_Ok%prefixed_inr & E).
  apply obind_Ok in E as (repos & Hrep%or_exit_Ok%prefixed_inr & E).
  apply obind_Ok in E as (_ & _ & E).
  apply obind_Ok in E as (d & [Hdb ->]%durable_store_Ok & E).
  apply obind_Ok in E as (s3 & Hs3 & E).
  apply obind_Ok in E as (sec & ->%secret_store_memory & E).
  apply obind_Ok in E as (act & Hact & E).
  apply obind_Ok in E as (v & Hv & E%or_exit_Ok). unfold NewServer in E. simpl in E.
  case_bool_decide as Hk; [subst key; simpl in Hlen; lia|]. injection E as <-.
  split; simpl; try done; eauto. unfold executor_verifier in Hv. case_bool_decide.
  - apply obind_Ok in Hv as (v' & Hv%or_exit_Ok & [= <-]). done.
  - by injection Hv as <-.
Qed.

(** *** The database is refused *)

(** With -database-url the server always exits: [main] passes no source of
    identifiers, and the store requires one. *)
Theorem database_url_never_starts f :
  fDBURL f ≠ "" → ∃ e, server_main f = Err e ∧ exit_status e ≠ 0%Z.
Proof.
  intros Hdb. pose proof (server_main_fails f) as Hf. destruct (server_main f) as [w|e|] eqn:E; [|eauto|done].
  apply server_main_Ok in E as []. naive_solver.
Qed.
End start.

(** ** The wired server answers *)

Section serving.
Context `{Unicode} `{Platform} `{Sha256} `{TokenCodec} {D A X : Type} `{DurableStore D} `{SecretStore X}.
Context (object_client : S3Store → ObjectClient).

(** The handlers of [ServerApi] with the options of the server. *)
Definition wired_serve (w : Wiring) (now : Time) (header : string) (e : Endpoint) : M (server D A * X) Reply :=
  serve (oDetailsBaseURL (wOptions w)) (bool_decide (is_Some (oSecretStore (wOptions w)))) (oSecretValues (wOptions w))
    (object_client <$> oS3 (wOptions w)) (verify_token (wVerifier w) now) now header e.

(** A started server has no secret to give: the secrets endpoint answers with
    none, and the management endpoints are not configured. *)
Theorem started_server_has_no_secrets f w now header (s : server D A * X) :
  server_main f = Ok w →
  (∀ id req s' m, wired_serve w now header (ESecrets id req) s = (s', Ok (JSON (BSecrets m))) → m = ∅) ∧
  ∀ e, (e = ESecretList ∨ (∃ body, e = ESecretPut body) ∨ ∃ scope name, e = ESecretDelete scope name) →
    wired_serve w now header e s = (s, Ok (HttpError 501 "secret storage not configured")).
Proof.
  intros Hmain. apply server_main_Ok in Hmain as []. destruct st_secrets0 as [Hst Hval]. unfold wired_serve.
  rewrite Hst, Hval. split.
  - intros id req s' m Hs. destruct (secrets_reply _ _ _ _ _ _ _ _ _ _ _ _ Hs) as (? & ? & ? & _ & _ & _ & _ & Hm).
    apply map_empty. intros k. apply eq_None_not_Some. intros [v Hv].
    destruct (Hm k v Hv) as (p & r & _ & _ & _ & _ & _ & _ & _ & Hsv).
    destruct Hsv as [Hsv|[Hsv _]]; [by rewrite lookup_empty in Hsv|done].
  - intros e [->|[[body ->]|(scope & name & ->)]]; reflexivity.
Qed.

Lemma tokenReviewVerifier_inr k v :
  tokenReviewVerifier k = inr v →
  ∃ cfg, v = ReviewedTokens cfg {| VAudience := Audience; VNamespace := jobNamespace; VSAName := "forgelet-executor";
    VScopes := [ScopePlanRead; ScopeSecretsRead; ScopeStatusWrite];
    VBindings := Some (PodLabelBindings (get_pod cfg) DefaultJobRunLabel) |}.
Proof.
  unfold tokenReviewVerifier. destruct (config_of k) as [e|cfg]; [done|]. simpl.
  destruct (checked (clientset cfg)) as [e|[]]; [done|]. simpl. intros [= <-]. by exists cfg.
Qed.

Lemma reviewed_request f w now header e id (s : server D A * X) :
  server_main f = Ok w → fExecutorAuth f = "tokenreview" → job_of e = Some id →
  (∃ token cfg st podName pod, header = "Bearer " +:+ token ∧
     token_review cfg token [Audience] = Ok st ∧ Authenticated st = true ∧
     Username st = "system:serviceaccount:forgelet-jobs:forgelet-executor" ∧
     get_pod cfg jobNamespace podName = Ok pod ∧ PodLabels pod !! DefaultJobRunLabel = Some id) ∨
  refused s (wired_serve w now header e s).
Proof.
  intros Hmain Hauth Hjob. apply server_main_Ok in Hmain as []. rewrite bool_decide_eq_true_2 in st_verifier0 by done.
  apply tokenReviewVerifier_inr in st_verifier0 as [cfg Hv]. unfold wired_serve.
  destruct (job_endpoint_authorized (oDetailsBaseURL (wOptions w)) (bool_decide (is_Some (oSecretStore (wOptions w))))
    (oSecretValues (wOptions w)) (object_client <$> oS3 (wOptions w)) (verify_token (wVerifier w) now) now header e id s Hjob)
    as [(token & ident & Hh & Hver & Hbound)|?]; [left|by right].
  rewrite Hv in Hver. unfold verify_token in Hver. destruct (VerifyReview _ _ _ _) as [i|?|] eqn:Hrev; [|done..].
  injection Hver as <-. destruct (VerifyReview_Ok _ _ _ _ _ Hrev) as (st & b & podName & Hb & Hr & Ha & Hu & _ & Hbind & _ & _ & Hsc).
  injection Hb as <-. apply PodLabelBindings_Ok in Hbind as (pod & Hp & _ & Hl & _).
  assert (IdJobRunID i = id) as <-.
  { destruct Hbound as [?|[_ Hobs]]; [done|]. rewrite Hsc in Hobs. simpl in Hobs. exfalso.
    by repeat (apply elem_of_cons in Hobs as [Hobs|Hobs]; [discriminate Hobs|]); apply elem_of_nil in Hobs. }
  exists token, cfg, st, podName, pod. by split_and!.
Qed.

(** With -executor-auth tokenreview a request to an endpoint of a job, an
    observation too, is refused unless the API server authenticated its token as
    the executor's service account in [forgelet-jobs] and the pod it belongs to
    carries that job's label. *)
Theorem reviewed_requests_come_from_own_pod f w now header e id (s : server D A * X) :
  server_main f = Ok w → fExecutorAuth f = "tokenreview" → job_of e = Some id →
  (∃ token cfg st podName pod, header = "Bearer " +:+ token ∧
     token_review cfg token [Audience] = Ok st ∧ Authenticated st = true ∧
     Username st = "system:serviceaccount:forgelet-jobs:forgelet-executor" ∧
     get_pod cfg jobNamespace podName = Ok pod ∧ PodLabels pod !! DefaultJobRunLabel = Some id) ∨
  refused s (wired_serve w now header e s).
Proof. apply reviewed_request. Qed.

(** *** What the choice of the verifier breaks *)

(** The controller's token, signed with the server's own key, is no token of the
    cluster: under review its observations are refused. *)
Theorem controller_is_refused_under_review f w fm minted rng token now id phase (s : server D A * X) :
  server_main f = Ok w → fExecutorAuth f = "tokenreview" → minttoken_main fm minted rng = Ok token →
  (∀ cfg st, token_review cfg token [Audience] = Ok st → Authenticated st = false) →
  refused s (wired_serve w now ("Bearer " +:+ token) (EObserved id phase) s).
Proof.
  intros Hmain Hauth _ Hrev.
  destruct (reviewed_request _ w now ("Bearer " +:+ token) _ id s Hmain Hauth (eq_refl : job_of (EObserved id phase) = Some id))
    as [(token' & cfg & st & _ & _ & E & Hr & Ha & _)|?]; [|done].
  apply app_str_inj_l in E as <-. rewrite (Hrev _ _ Hr) in Ha. discriminate Ha.
Qed.

(** The namespace of the pods is a flag, the one the verifier accepts is not:
    executors in another namespace are refused. *)
Theorem other_namespaces_are_refused f w now token e id (s : server D A * X) :
  server_main f = Ok w → fExecutorAuth f = "tokenreview" → fJobsNS f ≠ jobNamespace → job_of e = Some id →
  (∀ cfg st, token_review cfg token [Audience] = Ok st →
     Username st = "system:serviceaccount:" +:+ fJobsNS f +:+ ":forgelet-executor") →
  refused s (wired_serve w now ("Bearer " +:+ token) e s).
Proof.
  intros Hmain Hauth Hns Hjob Hrev.
  destruct (reviewed_request _ w now ("Bearer " +:+ token) e id s Hmain Hauth Hjob)
    as [(token' & cfg & st & _ & _ & E & Hr & _ & Hu & _)|?]; [|done].
  apply app_str_inj_l in E as <-. rewrite (Hrev _ _ Hr) in Hu.
  change ("system:serviceaccount:forgelet-jobs:forgelet-executor")
    with ("system:serviceaccount:" +:+ (jobNamespace +:+ ":forgelet-executor")) in Hu.
  apply app_str_inj_l in Hu. exfalso. apply Hns.
  pose proof (f_equal String.length Hu) as Hl. rewrite !app_str_length in Hl.
  apply str_app_inj_len in Hu; [by destruct Hu|lia].
Qed.

Context `{!TokenCodecLaws}.

(** A token of [minttoken] with the server's key observes every job, until it
    expires — on a server that verifies tokens itself. *)
Theorem minted_token_observes f w fm minted rng token now id phase (s : server D A * X) :
  server_main f = Ok w → fExecutorAuth f ≠ "tokenreview" →
  minttoken_main fm minted rng = Ok token → mKeyHex fm = fTokenKey f →
  ScopeObservedWrite ∈ split_on ","%char (mScopes fm) → ascii_claims (mint_identity fm minted) = true →
  (∀ tid, rng = Ok tid → all_ascii tid = true) → minted ≠ 0%Z →
  (minted <= now < IdExpiresAt (mint_identity fm minted))%Z → id ≠ "" →
  wired_serve w now ("Bearer " +:+ token) (EObserved id (Some phase)) s =
    project_and_report (oDetailsBaseURL (wOptions w)) now id phase s.
Proof.
  intros Hmain Hauth Hmint Hkey Hscope Hasc Hrng Hz Hnow Hid. apply server_main_Ok in Hmain as [].
  rewrite bool_decide_eq_false_2 in st_verifier0 by done. destruct st_key0 as [Hhex Hlen].
  unfold minttoken_main in Hmint. case_bool_decide; [done|]. rewrite Hkey, Hhex in Hmint.
  case_bool_decide; [done|]. destruct (Issue _ _ _ _ _) as [raw|e|] eqn:Hi; [|done..]. injection Hmint as ->.
  destruct (issued_verifies _ _ _ _ _ _ Hi Hrng Hasc) as [tid Hv]. cbv zeta in Hv.
  unfold wired_serve. cbn [serve]. unfold auth. rewrite has_prefix_app. simpl negb. cbv iota.
  unfold trim_prefix. rewrite has_prefix_app, str_drop_app. unfold verify_token. rewrite st_verifier0, Hv.
  rewrite bool_decide_eq_false_2 by (simpl in *; lia).
  rewrite bool_decide_eq_false_2 by (simpl; rewrite bool_decide_eq_false_2 by done; lia).
  unfold handleObserved. rewrite bool_decide_eq_false_2 by done. cbv beta iota. unfold AuthorizeObservation.
  assert (HasScope (fill_claims minted tid (mint_identity fm minted)) ScopeObservedWrite = true) as ->
    by (by apply HasScope_spec).
  reflexivity.
Qed.
End serving.

(** ** Concrete servers *)

(** An outside where every call works; the cluster is that of [Authorization]. *)
Definition demo_platform : Platform := {|
  RsaKey := unit; RestConfig := unit;
  read_file := fun _ => inl "no such file"; otlp_exporter := fun _ => None; otlp_resource := None;
  pool_open := fun _ => None; pool_exec := fun _ _ => None; minio_client := fun _ _ _ _ => None;
  bucket_exists := fun _ => inr true; make_bucket := fun _ => None; pem_block := fun _ => None;
  parse_pkcs1 := fun _ => None; parse_pkcs8 := fun _ => inr None; load_kubeconfig := fun _ => inr tt;
  in_cluster_config := inr tt; cluster_client := fun _ => None; clientset := fun _ => None;
  get_pod := fun _ => demo_getPod; token_review := fun _ => demo_review |}.

Definition zero_key : string := "0000000000000000000000000000000000000000000000000000000000000000".

Definition flags_with (db auth ns : string) : ServerFlags := {|
  fSecret := "hook"; fDir := "./workflows"; fDBURL := db; fTokenKey := zero_key; fDetails := "http://forgelet";
  fAPIBaseURL := DefaultBaseURL; fGHToken := ""; fAppID := 0; fInstallationID := 0; fAppKeyPath := "";
  fScheduledRepos := ""; fExecutorAuth := auth; fKubeconfig := ""; fOTLPEndpoint := ""; fActiveStore := "memory";
  fJobsNS := ns; fS3Endpoint := ""; fS3Bucket := "forgelet"; fS3AccessKey := ""; fS3SecretKey := "";
  fS3UseSSL := false; fSecretKeyFile := "" |}.

Definition dev_flags : ServerFlags := flags_with "" "local" "forgelet-jobs".
Definition review_flags : ServerFlags := flags_with "" "tokenreview" "forgelet-jobs".

(** No object is stored. *)
Definition no_client : ObjectClient := {|
  statObject := fun _ => Some {| StatCode := "NoSuchKey"; StatText := "" |}; listObjects := fun _ => [];
  presignGet := fun _ _ => Err "offline"; presignPut := fun _ _ => Err "offline" |}.

Definition mint_flags : MintFlags := {|
  mKeyHex := zero_key; mNamespace := "forgelet-system"; mPodUID := "dev"; mJobRunID := "";
  mScopes := ScopeObservedWrite; mTTL := 3600000000000 |}.

(** A codec for the one identity that is minted. *)
Definition minted_claims : Identity := fill_claims 5 "t1" (mint_identity mint_flags 5).

Definition mint_codec : TokenCodec := {|
  mac := fun key p => p +:+ "+" +:+ key;
  marshal := fun id => if bool_decide (id = minted_claims) then Ok "claims" else Err "unsupported";
  unmarshal := fun p => if bool_decide (p = "claims") then Ok minted_claims else Err "syntax" |}.

Lemma mint_codec_laws : @TokenCodecLaws mint_codec.
Proof. split. intros id p _. simpl. case_bool_decide as E; [|done]. by intros [= <-]; subst. Qed.

Section demo.
#[local] Existing Instances ascii_unicode demo_platform one_sum map_secrets mint_codec mint_codec_laws demo_env.

Definition created_server : server store activeStore * gmap string string := (server_of demo_created NewActiveStore, ServerApiTheorems.vault).

Abbreviation wired := (wired_serve (fun _ => no_client)).

Lemma database_url_never_starts_witness : ∃ e, server_main (flags_with "postgres://db" "local" "forgelet-jobs") = Err e.
Proof.
  destruct (database_url_never_starts (flags_with "postgres://db" "local" "forgelet-jobs")) as (e & E & _).
  - discriminate.
  - exists e. exact E.
Defined.

Lemma started_server_has_no_secrets_witness :
  ∃ w, server_main dev_flags = Ok w ∧
    wired w 9 "" ESecretList created_server = (created_server, Ok (HttpError 501 "secret storage not configured")).
Proof.
  destruct (server_main dev_flags) as [w|e|] eqn:E; [|discriminate E..]. exists w. split; [reflexivity|].
  apply (started_server_has_no_secrets (fun _ => no_client) dev_flags w 9 "" created_server E). left. reflexivity.
Defined.

Lemma reviewed_requests_come_from_own_pod_witness :
  ∃ w, server_main review_flags = Ok w ∧
    refused created_server (wired w 9 "Bearer forged" (EPlan "job-1") created_server).
Proof.
  destruct (server_main review_flags) as [w|e|] eqn:E; [|discriminate E..]. exists w. split; [reflexivity|].
  destruct (reviewed_requests_come_from_own_pod (fun _ => no_client) review_flags w 9 "Bearer forged" (EPlan "job-1") "job-1"
    created_server E eq_refl eq_refl) as [(token & cfg & st & podName & pod & Hh & Hr & _)|Hno]; [|exact Hno].
  injection Hh as <-. vm_compute in Hr. discriminate Hr.
Defined.

Lemma controller_is_refused_under_review_witness :
  ∃ w token, server_main review_flags = Ok w ∧ minttoken_main mint_flags 5 (Ok "t1") = Ok token ∧
    refused created_server (wired w 9 ("Bearer " +:+ token) (EObserved "idx" (Some PhaseRunning)) created_server).
Proof.
  destruct (server_main review_flags) as [w|e|] eqn:E; [|discriminate E..].
  destruct (minttoken_main mint_flags 5 (Ok "t1")) as [token|e|] eqn:Et; [|discriminate Et..].
  exists w, token. split; [reflexivity|]. split; [reflexivity|].
  apply (controller_is_refused_under_review (fun _ => no_client) review_flags w mint_flags 5 (Ok "t1") token 9 "idx"
    (Some PhaseRunning) created_server E eq_refl Et).
  intros cfg st Hr. vm_compute in Et. injection Et as <-. vm_compute in Hr. discriminate Hr.
Defined.

Lemma other_namespaces_are_refused_witness :
  ∃ w, server_main (flags_with "" "tokenreview" "ci") = Ok w ∧
    refused created_server (wired w 9 "Bearer other" (EPlan "idx") created_server).
Proof.
  destruct (server_main (flags_with "" "tokenreview" "ci")) as [w|e|] eqn:E; [|discriminate E..].
  exists w. split; [reflexivity|].
  apply (other_namespaces_are_refused (fun _ => no_client) (flags_with "" "tokenreview" "ci") w 9 "other" (EPlan "idx") "idx"
    created_server E eq_refl); [discriminate|reflexivity|].
  intros cfg st Hr. vm_compute in Hr. discriminate Hr.
Defined.

Lemma minted_token_observes_witness :
  ∃ w token, server_main dev_flags = Ok w ∧ minttoken_main mint_flags 5 (Ok "t1") = Ok token ∧
    wired w 9 ("Bearer " +:+ token) (EObserved "idx" (Some PhaseRunning)) created_server =
      project_and_report "http://forgelet" 9 "idx" PhaseRunning created_server.
Proof.
  destruct (server_main dev_flags) as [w|e|] eqn:E; [|discriminate E..].
  destruct (minttoken_main mint_flags 5 (Ok "t1")) as [token|e|] eqn:Et; [|discriminate Et..].
  exists w, token. split; [reflexivity|]. split; [reflexivity|].
  rewrite (minted_token_observes (fun _ => no_client) dev_flags w mint_flags 5 (Ok "t1") token 9 "idx" PhaseRunning created_server E).
  - rewrite (st_details _ _ (server_main_Ok _ _ E)). reflexivity.
  - discriminate.
  - exact Et.
  - reflexivity.
  - vm_compute. left.
  - reflexivity.
  - intros tid Ht. injection Ht as <-. reflexivity.
  - discriminate.
  - vm_compute. split; [discriminate|reflexivity].
  - discriminate.
Defined.
End demo.

(** ** secretctl against the server *)

Definition secrets_url (base : string) : string := base +:+ "/api/secrets".
Definition secret_url (base scope name : string) : string := base +:+ "/api/secrets/" +:+ scope +:+ "/" +:+ name.

(** What is relied on of the router and the codecs: the three routes, whatever is
    put into the body or the path, and the round trip of what is valid UTF-8. *)
Class OperatorWire `{Wire} `{SecretctlJSON} (base : string) := {
  op_url : ∀ method, url_error method (secrets_url base) = None;
  op_secret_url : ∀ scope name, plain_id scope → plain_id name → url_error "DELETE" (secret_url base scope name) = None;
  op_post : ∀ body, ∃ b, bind (plain_request "POST" (secrets_url base) (Some body)) = Some (ESecretPut b);
  op_set : ∀ scope name value, text scope → text name → text value →
    bind (plain_request "POST" (secrets_url base) (Some (enc_secret scope name value))) = Some (ESecretPut (Some (scope, name, value)));
  op_list : bind (plain_request "GET" (secrets_url base) None) = Some ESecretList;
  op_delete : ∀ scope name, plain_id scope → plain_id name →
    bind (plain_request "DELETE" (secret_url base scope name) None) = Some (ESecretDelete scope name);
  op_delete_any : ∀ scope name, bind (plain_request "DELETE" (secret_url base scope name) None) = None ∨
    ∃ s n, bind (plain_request "DELETE" (secret_url base scope name) None) = Some (ESecretDelete s n);
  op_infos : ∀ l, Forall (fun k => text (fst k) ∧ text (snd k)) l → dec_infos (enc_body (BInfos l)) = inr l
}.

(** The server a command talks to. *)
Definition command_server (c : SecretCommand) : option string :=
  match c with
  | CmdSet server _ _ _ _ | CmdList server | CmdDelete server _ _ => Some server
  | CmdUnknown _ | CmdNone => None
  end.

Section operator.
Context `{Unicode} `{Platform} `{Sha256} {D A : Type} `{DurableStore D} `{Wire} `{SecretctlJSON}.
Context (base : string) `{!OperatorWire base} (files : string → string + string) (stdin : option string).

(** ** A server without a store *)

Section unconfigured.
Context {X E : Type} `{SecretStore X} (detailsBase : string) (dev : gmap string string) (s3 : option ObjectClient).
Context (verify : string → outcome E Identity) (now : Time).
Abbreviation St := (server D A * X)%type.
#[local] Instance no_store_link : HttpClient St := link detailsBase false dev s3 verify now.

Lemma exchange_unconfigured r (s : St) :
  (bind r = None ∨ bind r = Some ESecretList ∨ (∃ b, bind r = Some (ESecretPut b)) ∨
   ∃ scope name, bind r = Some (ESecretDelete scope name)) →
  ∃ e, exchange r s = (s, inl e).
Proof.
  intros Hb. unfold exchange. destruct (request_error _ _) as [e|]; [eauto|]. simpl. unfold link_do.
  destruct Hb as [->|[->|[[b ->]|(scope & name & ->)]]]; simpl; eauto.
Qed.

Lemma secretctl_unconfigured c (s : St) :
  (∀ b, command_server c = Some b → b = base) →
  ∃ e, secretctl_main files stdin c s = (s, Err e).
Proof.
  intros Hbase. destruct c as [b scope name value vf|b|b scope name|cmd|]; simpl; [..|by eexists|by eexists].
  - rewrite (Hbase b eq_refl). case_bool_decide; [by eexists|].
    destruct (value_to_set files stdin value vf) as [val|e|] eqn:Ev; [|by eexists|].
    + destruct (exchange_unconfigured (plain_request "POST" (secrets_url base) (Some (enc_secret scope name val))) s) as [e He].
      { right. right. left. apply op_post. }
      unfold doSet. unfold secrets_url in He. rewrite He. by eexists.
    + exfalso. revert Ev. unfold value_to_set, obind. repeat case_match; try done; simplify_eq; by repeat case_bool_decide.
  - rewrite (Hbase b eq_refl). destruct (exchange_unconfigured (plain_request "GET" (secrets_url base) None) s) as [e He].
    { right. left. apply op_list. }
    unfold doList. unfold secrets_url in He. rewrite He. by eexists.
  - rewrite (Hbase b eq_refl). case_bool_decide; [by eexists|].
    destruct (exchange_unconfigured (plain_request "DELETE" (secret_url base scope name) None) s) as [e He].
    { destruct (op_delete_any scope name) as [?|?]; [by left|by right; right; right]. }
    unfold doDelete. unfold secret_url in He. rewrite He. by eexists.
Qed.
End unconfigured.

(** ** A server with a sealed store *)

Section configured.
Context `{AEADLaws} (ring : StaticKeyring) {E : Type} (detailsBase : string) (dev : gmap string string) (s3 : option ObjectClient).
Context (verify : string → outcome E Identity) (now : Time).
#[local] Instance sealed_store : SecretStore vault := postgres_secret_store ring.
Abbreviation St := (server D A * vault)%type.
#[local] Instance store_link : HttpClient St := link detailsBase true dev s3 verify now.

Abbreviation secretctl := (secretctl_main files stdin).

Lemma exchange_endpoint r e b (s s' : St) :
  url_error (ReqMethod r) (ReqURL r) = None → bind r = Some e →
  serve detailsBase true dev s3 verify now (ReqAuth r) e s = (s', Ok (JSON b)) →
  exchange r s = (s', inr (enc_body b)).
Proof. intros Hu Hb Hs. unfold exchange. simpl. rewrite Hu. unfold link_do. by rewrite Hb, Hs. Qed.

Lemma secretctl_set scope name value (v : server D A) x :
  ring_ok ring → int4_ok (currentVer ring) = true → 56 ≤ String.length (vault_random x) →
  scope ≠ "" → name ≠ "" → value ≠ "" → text scope → text name → text value →
  ∃ x', secretctl (CmdSet base scope name value "") (v, x) =
      ((v, x'), Ok ["secret " +:+ scope +:+ "/" +:+ name +:+ " set"]) ∧
    holds ring x' (scope, name) value ∧ ∀ k, k ≠ (scope, name) → vault_rows x' !! k = vault_rows x !! k.
Proof.
  intros Hr Hv Hl Hs Hn Hval Ts Tn Tv.
  destruct (put_ok ring x scope name value Hr Hv Hs Hn Hl) as (x' & Hput & Hh & _ & Hoth).
  exists x'. split; [|done]. unfold secretctl_main. rewrite bool_decide_eq_false_2 by done.
  unfold value_to_set. change (bool_decide (("" : string) ≠ "")) with false. cbv iota.
  rewrite (bool_decide_eq_false_2 (value = "")) by done. cbn [obind].
  rewrite (bool_decide_eq_false_2 (value = "")) by done.
  unfold doSet. erewrite (exchange_endpoint _ _ BOk); [reflexivity|apply op_url|by apply op_set|].
  cbn [serve]. unfold handleSecretPut. rewrite !bool_decide_eq_false_2 by done. cbn.
  unfold orReply, onSecrets. cbn. by rewrite Hput.
Qed.

Lemma secretctl_list (v : server D A) x :
  (∀ k, is_Some (vault_rows x !! k) → text (fst k) ∧ text (snd k)) →
  ∃ l, secretctl (CmdList base) (v, x) = ((v, x), Ok (map (fun k => fst k +:+ "/" +:+ snd k) l)) ∧
    ∀ k, k ∈ l ↔ is_Some (vault_rows x !! k).
Proof.
  intros Ht. destruct (snd (store_ListSecrets x)) as [l|e|] eqn:El; [|done..].
  exists l. assert (∀ k, k ∈ l ↔ is_Some (vault_rows x !! k)) as Hl by (intros k; by apply list_elem).
  split; [|done]. unfold secretctl_main, doList.
  erewrite (exchange_endpoint _ _ (BInfos l)); [|apply op_url|apply op_list|].
  - rewrite op_infos; [done|]. apply Forall_forall. intros k Hk. apply Ht. by apply Hl.
  - cbn [serve]. unfold handleSecretList, orReply, onSecrets. cbn. by injection El as ->.
Qed.

Lemma secretctl_delete scope name (v : server D A) x :
  plain_id scope → plain_id name → is_Some (vault_rows x !! (scope, name)) →
  secretctl (CmdDelete base scope name) (v, x) =
    ((v, with_vault_rows (delete (scope, name) (vault_rows x)) x), Ok ["secret " +:+ scope +:+ "/" +:+ name +:+ " deleted"]).
Proof.
  intros Hs Hn Hx. unfold secretctl_main. rewrite bool_decide_eq_false_2 by apply Hn.
  unfold doDelete. erewrite (exchange_endpoint _ _ BOk); [reflexivity|by apply op_secret_url|by apply op_delete|].
  cbn [serve]. unfold handleSecretDelete. rewrite !bool_decide_eq_false_2 by (apply Hs || apply Hn). cbn.
  unfold orReply, onSecrets. cbn. unfold store_DeleteSecret. by rewrite bool_decide_eq_true_2.
Qed.
End configured.
End operator.

(** ** The properties *)

(** On a server with a sealed store, [secretctl set] makes the value readable
    under the keyring it was sealed with and [list] print it; after [delete] it
    is gone, and deleting it again is an error. *)
Theorem secretctl_manages_sealed_secrets `{Unicode} `{Sha256} {D A E : Type} `{DurableStore D} `{Wire} `{SecretctlJSON}
    base `{!OperatorWire base} files stdin `{AEADLaws} ring detailsBase dev s3 (verify : string → outcome E Identity) now
    scope name value (v : server D A) x :
  let cmd := @secretctl_main _ _ (store_link ring detailsBase dev s3 verify now) _ files stdin in
  ring_ok ring → int4_ok (currentVer ring) = true → 56 ≤ String.length (vault_random x) →
  plain_id scope → plain_id name → value ≠ "" → text scope → text name → text value →
  (∀ k, is_Some (vault_rows x !! k) → text (fst k) ∧ text (snd k)) →
  ∃ x' x'' lines out out', cmd (CmdSet base scope name value "") (v, x) = ((v, x'), Ok out) ∧
    snd (store_GetSecret ring scope name x') = Ok value ∧
    cmd (CmdList base) (v, x') = ((v, x'), Ok lines) ∧ scope +:+ "/" +:+ name ∈ lines ∧
    cmd (CmdDelete base scope name) (v, x') = ((v, x''), Ok out') ∧
    is_ok (snd (store_GetSecret ring scope name x'')) = false ∧
    is_ok (snd (cmd (CmdDelete base scope name) (v, x''))) = false.
Proof.
  intros cmd Hr Hv Hl Hs Hn Hval Ts Tn Tv Tall.
  destruct (secretctl_set base files stdin ring detailsBase dev s3 verify now scope name value v x Hr Hv Hl
    (proj1 Hs) (proj1 Hn) Hval Ts Tn Tv) as (x' & Eset & Hh & Hoth).
  assert (is_Some (vault_rows x' !! (scope, name))) as Hrow by (destruct Hh as (? & ? & -> & _); eauto).
  destruct (secretctl_list base files stdin ring detailsBase dev s3 verify now v x') as (l & Elist & Hlist).
  { intros k Hk. destruct (decide (k = (scope, name))) as [->|Hne]; [done|]. apply Tall. by rewrite <-Hoth. }
  pose proof (secretctl_delete base files stdin ring detailsBase dev s3 verify now scope name v x' Hs Hn Hrow) as Edel.
  eexists x', _, _, _, _. split; [exact Eset|]. split; [by rewrite (holds_get ring x' scope name value Hh)|].
  split; [exact Elist|]. split.
  { change @map with @list_fmap. apply list_elem_of_fmap. exists (scope, name). split; [done|]. by apply Hlist. }
  split; [exact Edel|]. split; [unfold store_GetSecret; simpl; by rewrite lookup_delete_eq|].
  unfold cmd, secretctl_main. rewrite bool_decide_eq_false_2 by apply Hn. unfold doDelete, exchange.
  change (request_error _ _) with (url_error "DELETE" (secret_url base scope name)).
  rewrite op_secret_url by done. cbn [http_do store_link link]. unfold link_do.
  change (plain_request "DELETE" _ None) with (plain_request "DELETE" (secret_url base scope name) None).
  rewrite op_delete by done. cbn [serve].
  unfold handleSecretDelete. rewrite !bool_decide_eq_false_2 by (apply Hs || apply Hn). cbn.
  unfold orReply, onSecrets. cbn. unfold store_DeleteSecret. simpl. rewrite lookup_delete_eq.
  by rewrite bool_decide_eq_false_2 by (by intros []).
Qed.

(** Against the server that [main] starts every command of [secretctl] fails and
    changes nothing. *)
Theorem secretctl_fails_on_started_server `{Unicode} `{Platform} `{Sha256} `{TokenCodec} {D A X : Type} `{DurableStore D}
    `{SecretStore X} `{Wire} `{SecretctlJSON} base `{!OperatorWire base} files stdin object_client
    f w now c (s : server D A * X) :
  server_main f = Ok w → (∀ b, command_server c = Some b → b = base) →
  let wired := link (oDetailsBaseURL (wOptions w)) (bool_decide (is_Some (oSecretStore (wOptions w)))) (oSecretValues (wOptions w))
    (object_client <$> oS3 (wOptions w)) (verify_token (wVerifier w) now) now in
  ∃ e, @secretctl_main _ _ wired _ files stdin c s = (s, Err e).
Proof.
  intros Hmain Hc. apply server_main_Ok in Hmain. destruct (st_secrets _ _ Hmain) as [-> _].
  by apply (secretctl_unconfigured base).
Qed.

(** ** Concrete programs *)

Section demo.
#[local] Existing Instances ascii_unicode demo_aead demo_aead_laws demo_env one_sum map_secrets demo_platform demo_codec.

#[local] Instance op_json : SecretctlJSON := {|
  enc_secret := fun scope name value => bits (scope, name, value);
  dec_infos := fun s => or_decode (unbits s) |}.

Definition op_bind (r : HttpRequest) : option Endpoint :=
  let body := default "" (ReqBody r) in
  let path := trim_prefix (ReqURL r) "http://cp/api/secrets" in
  if bool_decide (ReqMethod r = "POST") then if bool_decide (path = "") then Some (ESecretPut (unbits body)) else None
  else if bool_decide (ReqMethod r = "GET") then if bool_decide (path = "") then Some ESecretList else None
  else match split_on slash path with
       | [_; scope; name] => Some (ESecretDelete scope name)
       | _ => None
       end.

#[local] Instance op_wire : Wire := {|
  url_error := fun _ _ => None;
  bind := op_bind;
  enc_body := fun b => match b with BInfos l => bits l | _ => "{}" end;
  text := fun _ => True;
  plan_text := fun _ => False
|}.

#[local] Instance op_laws : OperatorWire "http://cp".
Proof.
  split; try done.
  - intros body. by eexists.
  - intros scope name value _ _ _. unfold bind, op_wire, op_bind. simpl ReqMethod.
    change (default "" _) with (bits (scope, name, value)). rewrite unbits_bits. reflexivity.
  - intros scope name Hs Hn. unfold bind, op_wire, op_bind. simpl ReqMethod. simpl bool_decide. cbv iota.
    assert (trim_prefix (ReqURL (plain_request "DELETE" (secret_url "http://cp" scope name) None)) "http://cp/api/secrets"
      = "/" +:+ scope +:+ "/" +:+ name) as ->.
    { simpl ReqURL. unfold trim_prefix, secret_url.
      assert ("http://cp" +:+ "/api/secrets/" +:+ scope +:+ "/" +:+ name =
        "http://cp/api/secrets" +:+ ("/" +:+ scope +:+ "/" +:+ name)) as -> by done.
      by rewrite has_prefix_app, str_drop_app. }
    change ("/" +:+ scope +:+ "/" +:+ name) with (join [""; scope; name] "/").
    rewrite split_on_join; [done|done|]. repeat constructor; by apply plain_no_slash.
  - intros scope name. unfold bind, op_wire, op_bind. simpl ReqMethod. simpl bool_decide. cbv iota zeta.
    destruct (split_on _ _) as [|a [|b [|c [|d l]]]]; auto. right. by eexists _, _.
  - intros l _. unfold dec_infos, op_json. change (enc_body (BInfos l)) with (bits l). by rewrite unbits_bits.
Qed.

Definition empty_server : server MemoryStore.store unit := server_of NewDurableStore tt.

Lemma secretctl_manages_sealed_secrets_witness :
  let cmd := @secretctl_main _ _ (store_link demo_ring "http://forgelet" ∅ None one_token 9) _ (fun _ => inl "no file") None in
  ∃ x' lines, cmd (CmdList "http://cp") (empty_server, x') = ((empty_server, x'), Ok lines) ∧ "repository/PW" ∈ lines.
Proof.
  assert (plain_id "repository" ∧ plain_id "PW") as [Hs Hn] by (split; (split; [discriminate|]); repeat constructor).
  destruct (secretctl_manages_sealed_secrets "http://cp" (fun _ => inl "no file") None demo_ring "http://forgelet" ∅ None
    one_token 9 "repository" "PW" "hunter2" empty_server demo_vault demo_ring_ok eq_refl
    (proj1 (Nat.leb_le 56 (String.length demo_rng)) eq_refl) Hs Hn) as (x' & x'' & lines & out & out' & _ & _ & Hlist & Hin & _).
  - discriminate.
  - exact I.
  - exact I.
  - exact I.
  - intros k _. split; exact I.
  - exists x', lines. split; [exact Hlist|exact Hin].
Defined.

Lemma secretctl_fails_on_started_server_witness :
  ∃ w e, server_main dev_flags = Ok w ∧
    @secretctl_main _ _ (link (oDetailsBaseURL (wOptions w)) (bool_decide (is_Some (oSecretStore (wOptions w))))
      (oSecretValues (wOptions w)) ((fun _ => no_client) <$> oS3 (wOptions w)) (verify_token (wVerifier w) 9) 9)
      _ (fun _ => inl "no file") None (CmdList "http://cp") (empty_server, ∅) = ((empty_server, ∅), Err e).
Proof.
  destruct (server_main dev_flags) as [w|e|] eqn:E; [|discriminate E..].
  destruct (secretctl_fails_on_started_server (X := gmap string string) "http://cp" (fun _ => inl "no file") None
    (fun _ => no_client) dev_flags w 9 (CmdList "http://cp") (empty_server, ∅) E) as [e He].
  - intros b Hb. injection Hb as <-. reflexivity.
  - exists w, e. split; [reflexivity|exact He].
Defined.
End demo.

(** ** The workflows of a local directory *)

Section workflow_files.
Context `{WorkflowDir}.

Lemma read_all_Ok dir names files :
  read_all dir names = Ok files →
  map FName files = names ∧
  ∀ name data, {| FName := name; FData := data |} ∈ files ↔ name ∈ names ∧ read_data (Join dir name) = inr data.
Proof.
  revert files. induction names as [|n names IH]; intros files; simpl.
  { intros [= <-]. split; [done|]. intros name data. set_solver. }
  destruct (read_data (Join dir n)) as [e|d] eqn:Ed; [done|].
  destruct (read_all dir names) as [out|e|]; [|done..]. intros [= <-]. destruct (IH out eq_refl) as [Hn Hin].
  simpl. split; [by rewrite Hn|]. intros name data. rewrite !elem_of_cons, Hin. split.
  - intros [[= -> ->]|[? ?]]; auto.
  - intros [[-> | ?] Hd]; [left; congruence|auto].
Qed.

Lemma read_all_unreadable dir names name e :
  name ∈ names → read_data (Join dir name) = inl e → ∃ msg, read_all dir names = Err msg.
Proof.
  intros Hin He. induction names as [|n names IH]; [by apply not_elem_of_nil in Hin|]. simpl.
  destruct (read_data (Join dir n)) as [e'|d] eqn:Ed; [by eexists|].
  apply elem_of_cons in Hin as [->|Hin]; [congruence|]. destruct (IH Hin) as [msg ->]. by eexists.
Qed.

(** Without a fetcher every repository and every ref has the workflows of the one
    directory: its regular files named .yml or .yaml, in the order of their names,
    with their contents. *)
Theorem local_workflows dir repo ref files :
  load None dir repo ref = Ok files →
  dir ≠ "" ∧ StronglySorted String.le (map FName files) ∧
  ∃ entries, read_dir dir = inr entries ∧ ∀ name data,
    {| FName := name; FData := data |} ∈ files ↔
      name ∈ entries ∧ stat_regular (Join dir name) = Some true ∧
      (has_suffix name ".yml" = true ∨ has_suffix name ".yaml" = true) ∧ read_data (Join dir name) = inr data.
Proof.
  unfold load, listYAML. case_bool_decide as Hd; [done|]. unfold readDirSorted.
  destruct (read_dir dir) as [e|entries]; [done|]. destruct (read_all _ _) as [out|e|] eqn:Er; [|done..].
  intros [= <-]. destruct (read_all_Ok _ _ _ Er) as [Hn Hin]. split_and!; [done| |].
  - pose proof (sort_strings_sorted (List.filter (is_regular dir) entries)) as Hs. rewrite <-Hn in Hs.
    clear -Hs. induction out as [|f out IH]; simpl in *; [done|]. inversion Hs as [|? ? Hs' Hf]; subst.
    destruct (is_yaml f); simpl; [|auto]. constructor; [auto|].
    apply Forall_forall. intros n Hn. refine (proj1 (Forall_forall _ _) Hf n _).
    change @map with @list_fmap in *. apply list_elem_of_fmap in Hn as (g & -> & Hg).
    apply list_elem_of_fmap. exists g. split; [done|]. apply list_elem_of_In in Hg. apply filter_In in Hg as [Hg _].
    by apply list_elem_of_In.
  - exists entries. split; [done|]. intros name data.
    rewrite list_elem_of_In, filter_In, <-list_elem_of_In, Hin. unfold sort_strings. rewrite sort_by_elem.
    rewrite list_elem_of_In, filter_In, <-list_elem_of_In. unfold is_yaml, is_regular. simpl. rewrite orb_true_iff.
    destruct (stat_regular (Join dir name)) as [[]|]; naive_solver.
Qed.

(** The files are read before they are filtered: one regular file that cannot be
    read, a workflow or not, and no workflow of the directory runs. *)
Theorem unreadable_file_stops_workflows dir repo ref entries name e :
  dir ≠ "" → read_dir dir = inr entries → name ∈ entries → stat_regular (Join dir name) = Some true →
  read_data (Join dir name) = inl e → ∃ msg, load None dir repo ref = Err msg.
Proof.
  intros Hd Hr Hin Hs He. unfold load, listYAML, readDirSorted. rewrite bool_decide_eq_false_2, Hr by done.
  destruct (read_all_unreadable dir (sort_strings (List.filter (is_regular dir) entries)) name e) as [msg ->]; [|done|by eexists].
  unfold sort_strings. rewrite sort_by_elem, list_elem_of_In, filter_In, <-list_elem_of_In. split; [done|].
  unfold is_regular. by rewrite Hs.
Qed.
End workflow_files.

(** ** The controller *)

Lemma controller_main_fails `{ManagerPlatform} f : fails_properly (controller_main f).
Proof.
  unfold controller_main. case_bool_decide; [done|]. repeat (apply obind_fails; [by apply or_exit_fails|intros ? _]). done.
Qed.

(** A controller that starts has a token and watches one namespace, and every
    phase it projects is a request with that token to the observation endpoint of
    the job. *)
Theorem controller_projects_with_its_token `{ManagerPlatform} encode f w id phase :
  controller_main f = Ok w →
  cToken f ≠ "" ∧ cwNamespaces w = [cJobsNS f] ∧
  let r := projection_request encode (fst (cwProjection w)) (snd (cwProjection w)) id phase in
  HURL r = cAPIURL f +:+ "/internal/jobruns/" +:+ id +:+ "/observed" ∧
  ("Authorization", "Bearer " +:+ cToken f) ∈ HHeaders r.
Proof.
  unfold controller_main. case_bool_decide as Ht; [done|].
  intros (cfg & _ & E)%obind_Ok. apply obind_Ok in E as (u1 & _ & E). apply obind_Ok in E as (u2 & _ & E).
  apply obind_Ok in E as (u3 & _ & [= <-]). split_and!; [done..|]. simpl. left.
Qed.
