(* ===== verification/Metrics.v ===== *)
(** * Metrics (internal/observability/metrics and their call sites in server.go)

    The registry as the values it holds: a gauge, the samples of the histograms
    (durations in nanoseconds; the buckets only summarise them) and counters by
    label.  The driver's operations that feed it are those of [Server] with the
    registry beside the state; forgetting the registry gives [Server] back.  The
    text format and the registration are Prometheus. *)

From S2P Require Import Prelude GoStrings GoFloat RunModel SchedulerPort MemoryStore StoreInvariant StoreOps Scheduler SchedulerMemory StoreLifecycle.
From S2P Require Import ExprSyntax ExprEval Plans Reports Server ServerConditions Postgres.

Local Open Scope go_scope.

(** The text of a status, which is its label. *)
Definition status_label (s : JobRunStatus) : string :=
  match s with
  | JobQueued => "queued" | JobDispatched => "dispatched" | JobRunning => "running"
  | JobSucceeded => "succeeded" | JobFailed => "failed" | JobCancelled => "cancelled" | JobSkipped => "skipped"
  | JobStatusOther raw => raw
  end.

Record Metrics := {
  queueDepth : nat;
  dispatchLatency : list Z;
  jobDuration : gmap (string * string) (list Z);
  completedTotal : gmap string nat
}.

Definition metrics_New : Metrics :=
  {| queueDepth := 0; dispatchLatency := []; jobDuration := ∅; completedTotal := ∅ |}.

Definition SetQueueDepth (n : nat) (m : Metrics) : Metrics := {|
  queueDepth := n; dispatchLatency := dispatchLatency m; jobDuration := jobDuration m; completedTotal := completedTotal m |}.

(** The zero time is 0. *)
Definition ObserveDispatch (created dispatchedAt : Time) (m : Metrics) : Metrics :=
  if negb (bool_decide (created = 0%Z)) && negb (bool_decide (dispatchedAt = 0%Z)) && bool_decide (created < dispatchedAt)%Z
  then {| queueDepth := queueDepth m; dispatchLatency := dispatchLatency m ++ [(dispatchedAt - created)%Z];
          jobDuration := jobDuration m; completedTotal := completedTotal m |}
  else m.

Definition completions (label : string) (m : Metrics) : nat := default 0 (completedTotal m !! label).

Definition ObserveCompletion (rec : JobRunRecord) (m : Metrics) : Metrics :=
  if negb (job_terminal (JStatus rec)) then m
  else
    let label := status_label (JStatus rec) in
    let series := (label, JRunnerClass rec) in
    {| queueDepth := queueDepth m; dispatchLatency := dispatchLatency m;
       jobDuration :=
         match JStartedAt rec, JFinishedAt rec with
         | Some st, Some fin =>
             if bool_decide (st < fin)%Z
             then <[series := default [] (jobDuration m !! series) ++ [(fin - st)%Z]]> (jobDuration m)
             else jobDuration m
         | _, _ => jobDuration m
         end;
       completedTotal := <[label := S (completions label m)]> (completedTotal m) |}.

(** ** The driver with its metrics *)

Section driver.
Context `{Unicode} `{FloatText} `{JSONText} `{IntConv} `{MapRange}.
Context {D A : Type} `{DurableStore D} `{ActiveExecutionStore A}.
Context (detailsBase : string).

Abbreviation St := (server D A * Metrics)%type.

Definition unmetered {Y} (m : M (server D A) Y) : M St Y :=
  fun s => let '(v, r) := m (fst s) in ((v, snd s), r).

Definition meter (f : Metrics → Metrics) : M St unit := fun s => ((fst s, f (snd s)), Ok tt).

(** A query whose error is ignored. *)
Definition metered_query {Y} (q : M (server D A) Y) (f : Y → Metrics → Metrics) : M St unit :=
  fun s => match unmetered q s with
           | (s', Ok y) => meter (f y) s'
           | (s', Err _) => (s', Ok tt)
           | (s', Panic) => (s', Panic)
           end.

Definition publishQueueDepth : M St unit := metered_query (onD CountQueuedJobs) SetQueueDepth.

Definition metered_project (now : Time) (id : JobRunID) (phase : ObservedPhase) : M St unit :=
  let* _ := unmetered (projectObserved now id phase) in
  metered_query (onD (GetJobRun id)) ObserveCompletion.

Definition observe_dispatch (rec : JobRunRecord) : Metrics → Metrics :=
  match JDispatchedAt rec with
  | Some t => ObserveDispatch (JCreatedAt rec) t
  | None => Datatypes.id
  end.

Fixpoint metered_drain (fuel : nat) (now : Time) (n : nat) : M St (nat * option error) :=
  match fuel with
  | O => fun s => (s, Panic)
  | Datatypes.S fuel' => fun s =>
      match unmetered (onDA (DispatchNext now)) s with
      | (s', Ok job) =>
          (let* _ := metered_query (onD (GetJobRun (JID job))) observe_dispatch in
           let* _ := unmetered (reportCheck detailsBase (JID job)) in
           metered_drain fuel' now (n + 1)) s'
      | (s', Err ErrNoQueuedJob) => (let* _ := publishQueueDepth in mret (n, None)) s'
      | (s', Err e) => (let* _ := publishQueueDepth in mret (n, Some e)) s'
      | (s', Panic) => (s', Panic)
      end
  end.

Definition metered_DispatchOnce (fuel : nat) (now : Time) : M St (nat * option error) :=
  let* _ := unmetered (evaluateDeferredConditions detailsBase fuel now) in
  metered_drain fuel now 0.
End driver.

(** ** The metrics do not interfere *)

(** Reading a job and counting the queue change nothing. *)
Class QuietQueries (D : Type) `{DurableStore D} : Prop := {
  quiet_get : ∀ id (s : D), ∃ r, GetJobRun id s = (s, r) ∧ r ≠ Panic;
  quiet_count : ∀ s : D, ∃ r, CountQueuedJobs s = (s, r) ∧ r ≠ Panic
}.

#[export] Instance memory_quiet `{MemoryEnv} : QuietQueries store.
Proof. split; [intros id s; simpl; unfold mem_GetJobRun; destruct (jobs s !! id); eauto|]. intros s. by eexists. Qed.

#[export] Instance postgres_quiet `{MemoryEnv} : QuietQueries pg.
Proof. split; [intros id s; simpl; unfold jobIn; destruct (pg_jobs s !! id); eauto|]. intros s. by eexists. Qed.

(** The state without the registry, and the result. *)
Definition forget {S Y : Type} (r : (S * Metrics) * Y) : S * Y := (fst (fst r), snd r).

Section transparent.
Context `{Unicode} `{FloatText} `{JSONText} `{IntConv} `{MapRange}.
Context {D A : Type} `{QuietQueries D} `{ActiveExecutionStore A} (base : string).

Lemma query_quiet {Y} (q : M (server D A) Y) f (s : server D A * Metrics) r :
  q (fst s) = (fst s, r) → r ≠ Panic → ∃ m, metered_query q f s = ((fst s, m), Ok tt).
Proof.
  intros Hq Hr. unfold metered_query, unmetered. rewrite Hq. destruct r as [y|e|]; [|by eexists|done]. by eexists.
Qed.

Lemma get_quiet id f (s : server D A * Metrics) : ∃ m, metered_query (onD (GetJobRun id)) f s = ((fst s, m), Ok tt).
Proof.
  destruct (quiet_get id (sdurable (fst s))) as (r & Hg & Hr). apply (query_quiet _ _ _ r); [|done].
  unfold onD. rewrite Hg. by destruct s as [[] ?].
Qed.

Lemma publish_quiet (s : server D A * Metrics) : ∃ m, publishQueueDepth s = ((fst s, m), Ok tt).
Proof.
  destruct (quiet_count (sdurable (fst s))) as (r & Hg & Hr). apply (query_quiet _ _ _ r); [|done].
  unfold onD. rewrite Hg. by destruct s as [[] ?].
Qed.

Lemma drain_transparent fuel now n (s : server D A * Metrics) :
  forget (metered_drain base fuel now n s) = drain base fuel now n (fst s).
Proof.
  revert n s. induction fuel as [|fuel IH]; intros n s; [done|]. simpl. unfold unmetered.
  destruct (onDA (DispatchNext now) (fst s)) as [v r]. destruct r as [job|e|]; [| |done].
  - unfold mbind. destruct (get_quiet (JID job) observe_dispatch (v, snd s)) as [m ->]. simpl.
    destruct (reportCheck base (JID job) v) as [v' [[]|e|]]; simpl; [apply IH|done..].
  - destruct e; unfold mbind;
      match goal with |- context [publishQueueDepth ?s'] => destruct (publish_quiet s') as [m ->]; done end.
Qed.

(** The registry is only a witness: a drain or a projection with metrics does to
    the server and answers exactly what it does without. *)
Theorem metrics_are_transparent fuel now id phase (s : server D A * Metrics) :
  forget (metered_DispatchOnce base fuel now s) = DispatchOnce base fuel now (fst s) ∧
  forget (metered_project now id phase s) = projectObserved now id phase (fst s).
Proof.
  split.
  - unfold metered_DispatchOnce, DispatchOnce, mbind, unmetered.
    destruct (evaluateDeferredConditions base fuel now (fst s)) as [v [[]|e|]]; [|done..]. apply drain_transparent.
  - unfold metered_project, mbind, unmetered. destruct (projectObserved now id phase (fst s)) as [v [[]|e|]]; [|done..].
    by destruct (get_quiet id ObserveCompletion (v, snd s)) as [m ->].
Qed.

Lemma publish_depth (s s' : server D A * Metrics) (r : unit) n :
  publishQueueDepth s = (s', Ok r) → snd (CountQueuedJobs (sdurable (fst s))) = Ok n →
  fst s' = fst s ∧ queueDepth (snd s') = n.
Proof.
  unfold publishQueueDepth, metered_query, unmetered, onD.
  destruct (quiet_count (sdurable (fst s))) as (r' & Hq & _). rewrite Hq. simpl. intros Hs ->.
  injection Hs as <- _. simpl. by destruct s as [[] ?].
Qed.

(** After a drain the gauge shows the length of the queue it left. *)
Theorem drain_publishes_depth fuel now (s s' : server D A * Metrics) r n :
  metered_DispatchOnce base fuel now s = (s', Ok r) → snd (CountQueuedJobs (sdurable (fst s'))) = Ok n →
  queueDepth (snd s') = n.
Proof.
  unfold metered_DispatchOnce, mbind, unmetered.
  destruct (evaluateDeferredConditions base fuel now (fst s)) as [v [[]|e|]]; [|done..]. generalize (v, snd s) as s1.
  generalize 0 as done_. clear v. induction fuel as [|fuel IH]; intros done_ s1; [done|]. simpl. unfold unmetered.
  destruct (onDA (DispatchNext now) (fst s1)) as [v [job|e|]]; [| |done].
  - unfold mbind. destruct (get_quiet (JID job) observe_dispatch (v, snd s1)) as [m ->]. simpl.
    destruct (reportCheck base (JID job) v) as [v' [[]|e|]]; simpl; [apply IH|done..].
  - intros Hd Hn. assert (∃ x, (let* _ := publishQueueDepth in mret x) (v, snd s1) = (s', Ok r)) as [x Hp] by (destruct e; eauto).
    unfold mbind in Hp. destruct (publish_quiet (v, snd s1)) as [m Ep]. rewrite Ep in Hp. injection Hp as <- _.
    apply (publish_depth _ _ _ n Ep). exact Hn.
Qed.
End transparent.

(** ** What is counted *)

Section counted.
Context `{MemoryEnv} `{!MemoryEnvOk} {A : Type}.

(** A projection adds one to the counter of the status that the job then has, if
    it is settled, and leaves the other counters. *)
Lemma project_counts now id phase (v : server store A) m j :
  reachable (sdurable v) → jobs (sdurable v) !! id = Some j →
  ∃ v' j', metered_project now id phase (v, m) = ((v', ObserveCompletion j' m), Ok tt) ∧
    reachable (sdurable v') ∧ jobs (sdurable v') !! id = Some j' ∧ JStatus j' = project (JStatus j) phase ∧
    (job_terminal (JStatus j) = true → v' = v).
Proof.
  intros Hr Hj. destruct (apply_observed_job _ id j phase now Hr Hj) as (d & j' & Ha & Hj' & Hst & _).
  exists (with_sdurable d v), j'. unfold metered_project, mbind, unmetered, projectObserved, onD, Project, mapErr.
  simpl. rewrite Ha. unfold metered_query, unmetered, onD. simpl. unfold mem_GetJobRun. rewrite Hj'. simpl.
  split_and!; try done.
  - eapply rtc_r; [exact Hr|].
    assert (d = exec (OpApplyObserved id phase now) (sdurable v)) as Ed by (simpl; by rewrite Ha).
    simpl. rewrite Ed. constructor.
  - intros Ht. unfold mem_ApplyObserved in Ha. rewrite Hj, Ht in Ha. injection Ha as <-. by destruct v.
Qed.

Lemma completions_observed j m label :
  completions label (ObserveCompletion j m) =
    completions label m + (if job_terminal (JStatus j) && bool_decide (label = status_label (JStatus j)) then 1 else 0).
Proof.
  unfold ObserveCompletion. destruct (job_terminal (JStatus j)); simpl; [|lia]. unfold completions at 1. simpl.
  rewrite lookup_insert. case_decide as Hl; case_bool_decide; subst; try done; simpl; unfold completions; lia.
Qed.

(** Reports about a job that has already ended are counted again, one each: the
    counter of completed jobs counts reports. *)
Theorem replayed_reports_are_counted id (reports : list (Time * ObservedPhase)) (v : server store A) m j :
  reachable (sdurable v) → jobs (sdurable v) !! id = Some j → job_terminal (JStatus j) = true →
  let after := fold_left (fun s r => fst (metered_project (fst r) id (snd r) s)) reports (v, m) in
  fst after = v ∧ completions (status_label (JStatus j)) (snd after) = completions (status_label (JStatus j)) m + length reports.
Proof.
  intros Hr Hj Ht. revert m. induction reports as [|[now phase] reports IH]; intros m; simpl; [split; [done|lia]|].
  destruct (project_counts now id phase v m j Hr Hj) as (v' & j' & -> & _ & Hj' & _ & Hsame). rewrite (Hsame Ht) in *.
  simpl. destruct (IH (ObserveCompletion j' m)) as [-> ->]. split; [done|].
  assert (j' = j) as -> by congruence. rewrite completions_observed, Ht, bool_decide_eq_true_2 by done. simpl. lia.
Qed.
End counted.

(** The build job of the demo has failed; its end is reported three more times. *)
Definition late_reports : list (Time * ObservedPhase) :=
  [(9%Z, PhaseFailed); (10%Z, PhaseFailed); (11%Z, PhaseRunning)].

Lemma replayed_reports_are_counted_witness :
  completions "failed" (snd (fold_left (fun s r => fst (metered_project (fst r) demo_build (snd r) s))
    late_reports (server_of demo_build_failed tt, metrics_New))) = 3.
Proof.
  destruct demo_failed_build as (j & Hj & Hs).
  pose proof (replayed_reports_are_counted (A := unit) demo_build late_reports (server_of demo_build_failed tt) metrics_New j
    demo_failed_reachable Hj) as H.
  cbv zeta in H. rewrite Hs in H. exact (proj2 (H eq_refl)).
Defined.
