(* ===== verification/StepProcess.v ===== *)
(** * The process of a run step (engine.go: runStepScript)

    The step's child process, the pipe of its output, the goroutine that reads the
    pipe, the goroutine that waits for the child, and the main goroutine with its
    cancellation, as a step relation: one constructor per action of one of them.
    The operating system and os/exec are what the constructors say: a write
    appends a chunk, a kill takes effect at some later step, the end of the pipe
    comes when every write end is closed, and [Wait] closes the read end once the
    child is reaped.  The lines made of the chunks are [StepOutput]'s.  At the end,
    the command that is started: its script file, directory and environment. *)

From S2P Require Import Prelude GoStrings Plans FilePath StepOutput Executor.

Local Open Scope go_scope.

(** ** The state *)

Inductive ChildState := Alive | Exited (status : Z).

(** What the main goroutine is doing: the first select, the select of the grace
    period, the last receive, the receive from [done], and the end. *)
Inductive MainState :=
  | Selecting
  | Terminating
  | Killing
  | Joining (status : Z)
  | Returned (code : Z) (err : option StepErr).

Record StepRun := {
  child : ChildState;
  term_sent : bool;
  kill_sent : bool;
  unread : list string;        (** chunks in the pipe *)
  writers : bool;              (** is a write end open? *)
  read_open : bool;            (** the read end *)
  read_chunks : list string;   (** what the reader has read *)
  reader_done : bool;
  wait_result : option Z;      (** the channel [waitErr] *)
  cancelled : bool;            (** [ctx.Done()] *)
  main : MainState;
  written : list string        (** every chunk the child ever wrote *)
}.

Definition step_started : StepRun := {|
  child := Alive; term_sent := false; kill_sent := false; unread := []; writers := true; read_open := true;
  read_chunks := []; reader_done := false; wait_result := None; cancelled := false; main := Selecting; written := [] |}.

Definition with_main (v : MainState) (s : StepRun) : StepRun :=
  {| child := child s; term_sent := term_sent s; kill_sent := kill_sent s; unread := unread s; writers := writers s;
     read_open := read_open s; read_chunks := read_chunks s; reader_done := reader_done s; wait_result := wait_result s;
     cancelled := cancelled s; main := v; written := written s |}.

Definition with_child (c : ChildState) (w : bool) (s : StepRun) : StepRun :=
  {| child := c; term_sent := term_sent s; kill_sent := kill_sent s; unread := unread s; writers := w;
     read_open := read_open s; read_chunks := read_chunks s; reader_done := reader_done s; wait_result := wait_result s;
     cancelled := cancelled s; main := main s; written := written s |}.

Definition with_output (u r w : list string) (s : StepRun) : StepRun :=
  {| child := child s; term_sent := term_sent s; kill_sent := kill_sent s; unread := u; writers := writers s;
     read_open := read_open s; read_chunks := r; reader_done := reader_done s; wait_result := wait_result s;
     cancelled := cancelled s; main := main s; written := w |}.

Definition with_reader_done (s : StepRun) : StepRun :=
  {| child := child s; term_sent := term_sent s; kill_sent := kill_sent s; unread := unread s; writers := writers s;
     read_open := read_open s; read_chunks := read_chunks s; reader_done := true; wait_result := wait_result s;
     cancelled := cancelled s; main := main s; written := written s |}.

Definition with_reaped (status : Z) (s : StepRun) : StepRun :=
  {| child := child s; term_sent := term_sent s; kill_sent := kill_sent s; unread := unread s; writers := writers s;
     read_open := false; read_chunks := read_chunks s; reader_done := reader_done s; wait_result := Some status;
     cancelled := cancelled s; main := main s; written := written s |}.

Definition with_cancelled (s : StepRun) : StepRun :=
  {| child := child s; term_sent := term_sent s; kill_sent := kill_sent s; unread := unread s; writers := writers s;
     read_open := read_open s; read_chunks := read_chunks s; reader_done := reader_done s; wait_result := wait_result s;
     cancelled := true; main := main s; written := written s |}.

Definition with_signals (t k : bool) (s : StepRun) : StepRun :=
  {| child := child s; term_sent := t; kill_sent := k; unread := unread s; writers := writers s;
     read_open := read_open s; read_chunks := read_chunks s; reader_done := reader_done s; wait_result := wait_result s;
     cancelled := cancelled s; main := main s; written := written s |}.

(** The end of [runStepScript]: -1 and [ErrCancelled] when the context is done,
    else the status of the child. *)
Definition script_result (cancelled : bool) (status : Z) : Z * option StepErr :=
  if cancelled then ((-1)%Z, Some StepCancelled)
  else if bool_decide (status = 0%Z) then (0%Z, None)
  else (status, Some (StepError "executor: step failed")).

(** ** Steps *)

(** The child and its descendants, and whoever cancels the context. *)
Inductive env_step : StepRun → StepRun → Prop :=
  | child_writes c s : writers s = true → c ≠ "" →
      env_step s (with_output (unread s ++ [c]) (read_chunks s) (written s ++ [c]) s)
  | child_exits status w s : child s = Alive → (w = true → writers s = true) →
      env_step s (with_child (Exited status) w s)
  | writers_close s : writers s = true →
      env_step s (with_child (child s) false s)
  | context_done s : cancelled s = false → env_step s (with_cancelled s).

(** The goroutines of the engine. *)
Inductive engine_step : StepRun → StepRun → Prop :=
  | reader_reads c rest s : reader_done s = false → read_open s = true → unread s = c :: rest →
      engine_step s (with_output rest (read_chunks s ++ [c]) (written s) s)
  | reader_ends s : reader_done s = false → read_open s = true → unread s = [] → writers s = false →
      engine_step s (with_reader_done s)
  | reader_closed s : reader_done s = false → read_open s = false →
      engine_step s (with_reader_done s)
  | waiter_reaps status s : child s = Exited status → wait_result s = None →
      engine_step s (with_reaped status s)
  | main_receives status s : wait_result s = Some status →
      main s = Selecting ∨ main s = Terminating ∨ main s = Killing →
      engine_step s (with_main (Joining status) s)
  | main_terminates s : main s = Selecting → cancelled s = true →
      engine_step s (with_main Terminating (with_signals true (kill_sent s) s))
  | main_kills s : main s = Terminating →
      engine_step s (with_main Killing (with_signals (term_sent s) true s))
  | main_returns status s : main s = Joining status → reader_done s = true →
      engine_step s (with_main (Returned (fst (script_result (cancelled s) status)) (snd (script_result (cancelled s) status))) s).

Definition sys_step (s s' : StepRun) : Prop := env_step s s' ∨ engine_step s s'.

Definition reaches : StepRun → Prop := rtc sys_step step_started.

(** The lines of the step's log, once the reader is done. *)
Definition logged_lines (s : StepRun) : list string := output_lines (read_chunks s).

(** ** Invariant *)

Record step_inv (s : StepRun) : Prop := {
  si_output : written s = read_chunks s ++ unread s;
  si_reaped : ∀ status, wait_result s = Some status → child s = Exited status ∧ read_open s = false;
  si_open : read_open s = false → is_Some (wait_result s);
  si_reader : reader_done s = true → read_open s = false ∨ (unread s = [] ∧ writers s = false);
  si_signals : (term_sent s = true → cancelled s = true) ∧ (kill_sent s = true → term_sent s = true);
  si_main :
    match main s with
    | Selecting => term_sent s = false
    | Terminating => term_sent s = true ∧ kill_sent s = false
    | Killing => kill_sent s = true
    | Joining status => wait_result s = Some status
    | Returned code err => reader_done s = true ∧ ∃ status, wait_result s = Some status ∧
        ∃ b, (code, err) = script_result b status ∧ (b = true → cancelled s = true)
    end
}.

Lemma started_inv : step_inv step_started.
Proof. by split. Qed.

Lemma env_step_inv s s' : env_step s s' → step_inv s → step_inv s'.
Proof.
  intros Hs [Ho Hr Hop Hrd Hsig Hm]. destruct Hs as [c s Hw Hc|status w s Hc Hw|s Hw|s Hc]; split; simpl; try done.
  - by rewrite Ho, app_assoc.
  - intros Hd. destruct (Hrd Hd) as [?|[_ ?]]; [by left|congruence].
  - intros status' Hw'. destruct (Hr _ Hw'). congruence.
  - intros Hd. destruct (Hrd Hd) as [?|[? Hf]]; [by left|right]. split; [done|]. destruct w; [|done]. by rewrite Hw in Hf.
  - intros Hd. destruct (Hrd Hd) as [?|[? ?]]; [by left|by right].
  - split; [done|apply Hsig].
  - destruct (main s); try done. destruct Hm as (? & status & ? & b & ? & _). eauto 10.
Qed.

Lemma engine_step_inv s s' : engine_step s s' → step_inv s → step_inv s'.
Proof.
  intros Hs [Ho Hr Hop Hrd Hsig Hm].
  destruct Hs as [c rest s Hd Hop' Hu|s Hd Hop' Hu Hw|s Hd Hop'|status s Hc Hn|status s Hw Hst|s Hst Hc|s Hst|status s Hst Hd];
    split; simpl; try done.
  - by rewrite Ho, Hu, <-app_assoc.
  - congruence.
  - by right.
  - destruct (main s); try done. by destruct Hm.
  - by left.
  - destruct (main s); try done. by destruct Hm.
  - intros status' [= <-]. by split.
  - by left.
  - destruct (main s); try done; [congruence|]. destruct Hm as (? & status' & ? & _). congruence.
  - rewrite Hst in Hm. split; [done|]. destruct (kill_sent s) eqn:Ek; [|done]. by rewrite (proj2 Hsig eq_refl) in Hm.
  - rewrite Hst in Hm. destruct Hm as [Ht _]. split; [|done]. apply Hsig.
  - rewrite Hst in Hm. split; [done|]. exists status. split; [done|]. exists (cancelled s).
    split; [by destruct (script_result _ _)|done].
Qed.

Lemma reaches_inv s : reaches s → step_inv s.
Proof.
  revert s. apply rtc_ind_r; [apply started_inv|]. intros s s' _ [Hs|Hs] IH;
    [by eapply env_step_inv|by eapply engine_step_inv].
Qed.

(** ** The engine's own steps end *)

Definition main_rank (m : MainState) : nat :=
  match m with Selecting => 4 | Terminating => 3 | Killing => 2 | Joining _ => 1 | Returned _ _ => 0 end.

Definition engine_measure (s : StepRun) : nat :=
  (if read_open s then length (unread s) else 0) + (if reader_done s then 0 else 1) +
  (match wait_result s with None => 1 | Some _ => 0 end) + main_rank (main s).

Lemma engine_step_decreases s s' : engine_step s s' → engine_measure s' < engine_measure s.
Proof.
  unfold engine_measure. intros Hs.
  destruct Hs as [c rest s Hd Hop Hu|s Hd Hop Hu Hw|s Hd Hop|status s Hc Hn|status s Hw Hst|s Hst Hc|s Hst|status s Hst Hd]; simpl.
  - rewrite Hop, Hu. simpl. lia.
  - rewrite Hd. lia.
  - rewrite Hd. lia.
  - rewrite Hn. destruct (read_open s); lia.
  - destruct Hst as [-> | [-> | ->]]; simpl; lia.
  - rewrite Hst. simpl. lia.
  - rewrite Hst. simpl. lia.
  - rewrite Hst. simpl. lia.
Qed.

(** When no goroutine of the engine can move, the step has returned, or the child
    lives and either nobody cancelled or the kill is sent. *)
Lemma engine_progress s :
  step_inv s →
  (∃ s', engine_step s s') ∨ (∃ code err, main s = Returned code err) ∨
  (child s = Alive ∧ (cancelled s = false ∨ kill_sent s = true)).
Proof.
  intros [Ho Hr Hop Hrd Hsig Hm].
  destruct (main s) as [| | |status|code err] eqn:Em; [..|by right; left; eexists _, _].
  all: destruct (wait_result s) as [st|] eqn:Ew.
  all: try (left; eexists; by eapply (main_receives st); [|tauto]).
  - destruct (child s) as [|st] eqn:Ec; [|left; eexists; by eapply waiter_reaps].
    destruct (cancelled s) eqn:Hc; [|right; right; tauto]. left. eexists. by apply main_terminates.
  - left. eexists. by apply main_kills.
  - destruct (child s) as [|st] eqn:Ec; [|left; eexists; by eapply waiter_reaps]. right. right. tauto.
  - injection Hm as ->. destruct (Hr _ eq_refl) as [_ Hro]. left.
    destruct (reader_done s) eqn:Hd; eexists; [by eapply main_returns|by eapply reader_closed].
  - done.
Qed.

Lemma engine_steps_bounded n s s' : nsteps engine_step n s s' → n + engine_measure s' ≤ engine_measure s.
Proof. induction 1 as [|n x y z Hs _ IH]; [done|]. apply engine_step_decreases in Hs. lia. Qed.

Lemma engine_steps_reach s s' : reaches s → rtc engine_step s s' → reaches s'.
Proof. intros Hr. induction 1 as [|x y z Hs _ IH]; [done|]. apply IH. eapply rtc_r; [exact Hr|]. by right. Qed.

(** ** What a step run guarantees *)

(** C27. The engine's goroutines never run for ever and never wait for each other:
    from every reachable state they make at most [engine_measure] steps, and
    where they stop the step has returned — or the child still lives, and either
    nobody cancelled or the kill has been sent.  So once the child is dead the
    step returns, whatever its descendants do with the pipe. *)
Theorem step_run_ends s :
  reaches s →
  (∀ n s', nsteps engine_step n s s' → n ≤ engine_measure s) ∧
  ∀ s', rtc engine_step s s' → (∀ s'', ¬ engine_step s' s'') →
    (∃ code err, main s' = Returned code err) ∨
    (child s' = Alive ∧ (cancelled s' = false ∨ kill_sent s' = true)).
Proof.
  intros Hr. split.
  - intros n s' Hn. apply engine_steps_bounded in Hn. lia.
  - intros s' Hs Hstuck. destruct (engine_progress s') as [[s'' Hs'']|?]; [|by destruct (Hstuck s'')|done].
    apply reaches_inv. by eapply engine_steps_reach.
Qed.

(** What is returned is what happened: the child was reaped and the reader is
    done; [ErrCancelled] comes only with a done context, and otherwise the code is
    the child's status, an error exactly when it is not zero.  Nobody signals the
    child before the context is done, or kills it before the grace period. *)
Theorem returned_result_is_the_childs s code err :
  reaches s → main s = Returned code err →
  (∃ status, child s = Exited status ∧ reader_done s = true ∧
     ((code = (-1)%Z ∧ err = Some StepCancelled ∧ cancelled s = true) ∨
      (code = status ∧ (err = None ↔ status = 0%Z) ∧ err ≠ Some StepCancelled))) ∧
  (term_sent s = true → cancelled s = true) ∧ (kill_sent s = true → term_sent s = true).
Proof.
  intros Hr Hm. destruct (reaches_inv s Hr) as [_ Hreap _ _ Hsig Hmain]. rewrite Hm in Hmain.
  destruct Hmain as (Hd & status & Hw & b & E & Hb). split; [|done]. exists status.
  split; [by apply Hreap|]. split; [done|]. unfold script_result in E. destruct b.
  - left. injection E as -> ->. auto.
  - right. case_bool_decide; injection E as -> ->; split_and!; try done; by subst.
Qed.

(** The log holds a prefix of what was written, in order; all of it, for good,
    when the reader has seen the end of the pipe before the child was reaped. *)
Theorem logged_output_is_a_prefix s :
  reaches s →
  (∃ rest, written s = read_chunks s ++ rest) ∧
  logged_lines s = text_lines (concat_str (read_chunks s)) ∧
  (reader_done s = true → read_open s = true → ∀ s', rtc sys_step s s' → read_chunks s' = written s').
Proof.
  intros Hr. split; [exists (unread s); apply (reaches_inv s Hr)|]. split; [by apply read_loop_spec|].
  intros Hd Ho s' Hs.
  assert (reader_done s' = true ∧ writers s' = false ∧ unread s' = []) as (_ & _ & Hu).
  { destruct (si_reader _ (reaches_inv s Hr) Hd) as [?|[Hu Hw]]; [congruence|].
    revert Hd Hw Hu. clear Hr Ho. induction Hs as [|x y z [Hs|Hs] _ IH]; [done|..]; intros Hd Hw Hu; apply IH; clear IH;
      destruct Hs; simpl; try done; try congruence. destruct w; [|done].
    match goal with Hx : true = true → _ |- _ => by rewrite Hx in Hw end. }
  rewrite (si_output s'), Hu, app_nil_r; [done|]. apply reaches_inv. unfold reaches in *. by etrans.
Qed.

(** ** The race *)

Definition lost_output (c : string) : StepRun :=
  with_main (Returned 0 None) (with_main (Joining 0) (with_reader_done (with_reaped 0
    (with_child (Exited 0) false (with_output [c] [] [c] step_started))))).

Lemma lost_reaches c : c ≠ "" → reaches (lost_output c).
Proof.
  intros Hc. unfold reaches, lost_output.
  eapply rtc_l; [left; by apply (child_writes c)|].
  eapply rtc_l; [left; by apply (child_exits 0 false)|].
  eapply rtc_l; [right; by apply (waiter_reaps 0)|].
  eapply rtc_l; [right; by apply reader_closed|].
  eapply rtc_l; [right; apply (main_receives 0); [done|by left]|].
  eapply rtc_l; [right; by apply (main_returns 0)|]. reflexivity.
Qed.

(** [Wait] runs beside the reader and closes the pipe when the child is gone: the
    whole output of a step that succeeds can be lost, its workflow commands with
    it. *)
Theorem output_of_a_successful_step_can_be_lost c :
  c ≠ "" → ∃ s, reaches s ∧ main s = Returned 0 None ∧ written s = [c] ∧ logged_lines s = [].
Proof. intros Hc. exists (lost_output c). split; [by apply lost_reaches|done]. Qed.

(** ** Concrete runs *)

(** The child prints a line; the job is cancelled; the child ignores SIGTERM, is
    killed and reaped, and the step ends as cancelled. *)
Definition killed_run : StepRun :=
  with_main (Killing) (with_signals true true (with_main Terminating (with_signals true false (with_cancelled
    (with_output [] ["line"] ["line"] (with_output ["line"] [] ["line"] step_started)))))).

Lemma killed_reaches : reaches killed_run.
Proof.
  unfold reaches, killed_run.
  eapply rtc_l; [left; by apply (child_writes "line")|].
  eapply rtc_l; [right; by apply (reader_reads "line" [])|].
  eapply rtc_l; [left; by apply context_done|].
  eapply rtc_l; [right; by apply main_terminates|].
  eapply rtc_l; [right; by apply main_kills|]. reflexivity.
Qed.

Lemma lost_output_is_stuck c s : ¬ engine_step (lost_output c) s.
Proof. intros Hs. apply engine_step_decreases in Hs. revert Hs. cbn. lia. Qed.

Lemma step_run_ends_witness :
  reaches (lost_output "x") ∧
  ((∃ code err, main (lost_output "x") = Returned code err) ∨
   (child (lost_output "x") = Alive ∧ (cancelled (lost_output "x") = false ∨ kill_sent (lost_output "x") = true))).
Proof.
  assert (reaches (lost_output "x")) as Hr by (apply lost_reaches; discriminate).
  split; [exact Hr|]. apply (proj2 (step_run_ends (lost_output "x") Hr)); [reflexivity|].
  intros s. apply lost_output_is_stuck.
Defined.

Lemma returned_result_is_the_childs_witness : ∃ status, child (lost_output "x") = Exited status.
Proof.
  destruct (returned_result_is_the_childs (lost_output "x") 0 None) as [(status & Hc & _) _].
  - apply lost_reaches. discriminate.
  - reflexivity.
  - exists status. exact Hc.
Defined.

Lemma logged_output_is_a_prefix_witness : ∃ rest, written killed_run = read_chunks killed_run ++ rest.
Proof. exact (proj1 (logged_output_is_a_prefix killed_run killed_reaches)). Defined.

Lemma output_of_a_successful_step_can_be_lost_witness :
  ∃ s, reaches s ∧ written s = ["::add-mask::t0p"] ∧ logged_lines s = [].
Proof.
  destruct (output_of_a_successful_step_can_be_lost "::add-mask::t0p") as (s & Hr & _ & Hw & Hl); [discriminate|].
  exists s. split; [exact Hr|]. split; [exact Hw|exact Hl].
Defined.

(** ** The command of a step *)

Record StepCommand := {
  scPath : string;        (** the script file that is written *)
  scScript : string;
  scArgs : list string;   (** the shell and its arguments *)
  scDir : string;
  scEnv : list string
}.

(** Joined in one call; a name is never empty. *)
Definition script_path (workDir id : string) : string := Join workDir (".forgelet/step-" +:+ id +:+ ".sh").

Definition step_dir (workDir : string) (st : PlanStep) : string :=
  if bool_decide (PsWorkingDir st ≠ "") then Join workDir (PsWorkingDir st) else workDir.

Definition step_shell (shell : string) (st : PlanStep) : string :=
  if bool_decide (Shell (PsRun st) ≠ "") then Shell (PsRun st) else shell.

Definition envSlice `{MapRange} (env : gmap string string) : list string :=
  map (fun '(k, v) => k +:+ "=" +:+ v) (range_map env).

Definition step_command `{MapRange} (workDir shell : string) (st : PlanStep) (script : string)
    (env : gmap string string) : StepCommand := {|
  scPath := script_path workDir (PsID st);
  scScript := script;
  scArgs := [step_shell shell st; "-e"; "-o"; "pipefail"; script_path workDir (PsID st)];
  scDir := step_dir workDir st;
  scEnv := envSlice env |}.

(** An identifier without a slash names a file of the metadata directory, and a
    directory without dots lies in the workspace. *)
Theorem step_command_stays_in_workspace `{MapRange} els shell st script env :
  Forall plain els → els ≠ [] → byte_in slash (PsID st) = false →
  Forall (fun e => e ≠ "..") (split_on slash (PsWorkingDir st)) →
  let c := step_command (rooted_path els) shell st script env in
  scPath c = rooted_path (els ++ [".forgelet"; "step-" +:+ PsID st +:+ ".sh"]) ∧
  inside (rooted_path els) (scDir c) ∧ last (scArgs c) = Some (scPath c).
Proof.
  intros Hp Hne Hid Hdir. simpl. split_and!; [| |done].
  - unfold script_path.
    assert (byte_in slash (PsID st +:+ ".sh") = false) as Hb.
    { revert Hid. generalize (PsID st). intros s. induction s as [|c s IH]; [done|]. simpl.
      intros [? ?]%orb_false_iff. rewrite IH by done. by rewrite orb_false_r. }
    assert (split_on slash (".forgelet/step-" +:+ PsID st +:+ ".sh") = [".forgelet"; "step-" +:+ PsID st +:+ ".sh"]) as Es.
    { change (".forgelet/step-" +:+ PsID st +:+ ".sh") with (".forgelet" +:+ String slash ("step-" +:+ PsID st +:+ ".sh")).
      rewrite split_on_sep. simpl app. f_equal.
      change "step-" with (join ["step-"] "/"). rewrite split_on_free; [done|]. done. }
    rewrite Join_down; rewrite ?Es; [done|done|]. by repeat constructor.
  - unfold step_dir. case_bool_decide; [|by left]. rewrite Join_down by done. by apply rooted_inside.
Qed.

(** Neither is checked: a plan whose step has a path as its identifier has its
    script written elsewhere, and [..] leads out of the workspace. *)
Theorem step_command_can_leave_workspace :
  script_path "/w" "a/../../../tmp/x" = "/tmp/x.sh" ∧ Join "/w" "../etc" = "/etc".
Proof. split; vm_compute; reflexivity. Qed.
